(* ===== verification/_CoqProject ===== *)
-Q . S2P
Prelude.v
BitVector.v
Sma.v
ClassInclusion.v
Soft.v
Subtyping.v
Strings.v
Threads.v
SchedSafety.v
SchedLiveness.v
Locks.v
GcHeap.v
GcTiling.v
GcAlloc.v
GcFixed.v
GcWrite.v
GcMark.v
GcLarge.v
GcReach.v
GcObjects.v
GcSort.v
GcSmall.v
GcChain.v
GcGaps.v
GcSweep.v
GcArea.v
GcCut.v
GcSmallAlloc.v
GcPrepare.v
GcIntervals.v
GcSelect.v
GcCycle.v
GcExamples.v
ClassLayout.v
BytecodeAnalysis.v
ExceptionInfo.v
ConstantPool.v
FastMem.v
PseudoReg.v
AllocStat.v
RegMap.v
AllocLaws.v
AllocSearch.v
AllocExamples.v
