(* ===== verification/Prelude.v ===== *)
(** * LaTTe: a verification library for the virtual machine's core

    LaTTe is a Java virtual machine for SPARC.  Java bytecode is translated to
    machine code by an optimizing translator (src/translator, with an older one
    in src/kaffejit and an interpreter in src/interpreter) and runs on a runtime
    system (src/runtime) with its own threads, object locks, memory manager and
    collector, class linker and string tables.  This library models the parts of
    the runtime and of the translator whose correctness rests on data structures
    and algorithms, as executable definitions translated from the C source, and
    proves what they promise.  The configuration is that of config-def.h for the
    translator: [LOCK_OPT], [PRECISE_MONITOREXIT], [NEW_INTERFACETABLE],
    [NEW_CODE_ALLOC], [INTERN_UTF8CONSTS], [VARIABLE_RET_COUNT], [TRANSLATOR].

    ** Conventions

    C integers are [Z] with their wrap-around written out ([wrapu], [wraps]);
    C's truncating division is [Z.quot].  Code that can fail returns [res
    failure]: a Java exception, a failed assertion, an access outside an object,
    undefined behaviour, or the bound of a loop.  An [assert] of the source is an
    assertion of the model.  Arrays are lists read and written by index
    ([zlookup], [zstore]); memory that holds linked structures is either a store
    of 32-bit words ([GcHeap.memory]) or a finite map from names to records.
    Loops whose number of rounds is not structural take fuel; running out of it
    is [OutOfFuel], and the theorems state that it does not happen.

    ** The parts

    - [Prelude]: machine integers, outcomes, tactics, arrays.
    - [BitVector] (translator/bit_vector.ic): vectors of bits as finite sets.
      [ClassInclusion] uses it for the rows of its matrix.
    - [Sma] (translator/sma.c): the session allocator of the translator.
      Chunks of a session never overlap and lie inside blocks that are allocated;
      allocation always ends.
    - [ClassInclusion] (runtime/class_inclusion_test.c): the bit matrix of
      subclass relations, kept up to date as classes are linked, against the
      declared hierarchy.  [Soft] (runtime/soft.c) has the type tests of compiled
      code, which are compared with the matrix, and its arithmetic; [Subtyping]
      compares the matrix with the subtyping of the Java language, from which it
      differs for two kinds of pairs of arrays.
    - [ClassLayout] (runtime/classMethod.c, itypes.c): where fields are put.
    - [Strings] (runtime/string.c, prime.c): UTF-8, the tables of constants and
      of interned strings.
    - [Threads] (runtime/thread-internal.c, thread.c): queues, alarms, events and
      switches of the scheduler, as resumptions; [SchedSafety] proves that every
      operation keeps the scheduler's invariant whatever other threads do while a
      thread is switched out; [SchedLiveness] lets the threads of one priority
      take turns; [Locks] (runtime/locks.c) builds monitors on it.
    - The memory manager (runtime/gc.c).  [GcHeap] has the region table, free
      lists and boundary tags; [GcTiling], [GcAlloc] and [GcFixed] prove that the
      explicitly managed heap is an allocator.  [GcMark] has the mark phase,
      [GcLarge] the hash table of large objects it uses; [GcReach] proves the
      marking algorithm against an interface to the heap ([MarkHeap]), and
      [GcObjects] shows that a well-formed heap in memory provides it.  [GcSort]
      sorts the live objects for the selective sweep.  [GcWrite] shows that
      writing into the objects of the explicitly managed heap keeps it in order.
    - The small object area (runtime/gc.c), where the objects of a program are.
      [GcSmall] has its state and all its operations; [GcChain] the free lists as
      chains in memory and the index that sorts free chunks by size while
      sweeping; [GcGaps] the words a sweep leaves alone; [GcSweep] the normal
      sweep of a block and of a region, [GcArea] the invariant of the area and
      what the normal sweep does to it; [GcIntervals] and [GcSelect] the
      selective sweep, which frees the memory between the sorted live objects,
      and its equivalence with the normal one; [GcCut] how the current free area
      is taken from the lists and given back, [GcSmallAlloc] allocation against
      the interface [Collector] of what a collection promises; [GcPrepare] the
      preparation of a collection; [GcCycle] puts preparation, mark phase and
      sweep together, and [GcExamples] applies all of it to the heap of
      [GcObjects].
    - [BytecodeAnalysis] (translator/bytecode_analysis.c): the traversal of a
      method's bytecode that finds its join points, against reachability in its
      control flow graph and a depth-first search of it.
    - [ExceptionInfo] (translator/exception_info.c): the table from native to
      bytecode positions that translated code leaves for exception handling,
      with the prime sizes of [Strings].
    - [ConstantPool] (runtime/constants.c, verify.c): reading and checking the
      constant pool of a class file, against a typing of its constants.
    - The state of the register allocator.  [FastMem]
      (translator/fast_mem_allocator.c) is the translator's arena, with the bytes
      it clears and its clients write; it is an instance of the class [Arena], the interface against which its client is
      verified.  [PseudoReg] (translator/pseudo_reg.c, reg.c) has the words that
      stand for variables, registers and spill slots.  [AllocStat]
      (translator/AllocStat.c) maps variables to locations and back, with arrays
      of the arena that belong to one status each; [RegMap] has its abstract
      state, a list of variables for each location, and the lemma for each
      operation, [AllocLaws] sequences, copies and comparison, [AllocSearch] the
      searches and the removal of dead variables ([BitVector]), and
      [AllocExamples] runs all of it on the arena.

    ** What the theorems show

    Allocators hand out memory that is apart from all that is in use and never
    lose any ([Sma], [GcFixed]); the mark phase marks exactly what is reachable
    in all three states of its stack ([GcObjects]); a collection keeps
    exactly these objects and their contents ([GcCycle]), whichever of the two
    sweeps runs ([GcSelect]), unless the mark stack has no room for its objects,
    while they are marked or while they are sorted, and a new object is apart from all live ones
    ([GcSmallAlloc]); hash tables are finite maps or
    sets ([Strings] - for the strings that are not empty -, [Locks.getLock],
    [GcLarge], [ExceptionInfo]); the scheduler
    never follows a bad pointer, but for [suspendThread] and the priorities of dead
    threads, and refines abstract queues ([SchedSafety]), and no
    thread that yields starves its equals ([SchedLiveness]); a
    monitor is taken only when it is free or the caller's own, and released to the
    first waiter ([Locks]); the subclass matrix represents the relation of the
    code's rules ([ClassInclusion]), which is Java's but for two kinds of pairs of
    arrays ([Subtyping]); the allocation status is a map
    with an exact inverse, whatever variables share a location ([AllocLaws]).
    Where the code does not do what
    it means to, a theorem shows an input on which it fails, and the positive
    theorem carries the hypothesis that excludes it.

    ** Bounds and fuel

    Loops over a table or a list take its length as fuel, which bounds their
    rounds.  The scheduler's loops take the number of queued threads and pending
    events; waiting for a lock takes any number of waits, and the theorem about it
    holds for each.  The mark stack's rounds are bounded by the number of objects,
    each round marking one more.  A block has at most 511 chunks and a region 512
    blocks, so that 512 rounds are enough for the loops over either
    ([BLOCK_FUEL]).  [BytecodeAnalysis.traverse] takes off each byte
    at most once, but each handler as often as it occurs in the exception table.
    A search of the exception table makes at most as many probes as it has cells
    before it hits or leaves the table.  The arena doubles its heap at most 31
    times for one request; the scans of allocation statuses run over the
    locations of the graph, fewer than 2^24.

    ** What is not modelled

    - collector driver (runtime/gc.c): gc_main, gc_invoke, the finalizer threads
      and heap sizing: threads, signals and statistics around the phases.
    - class loading and linking (runtime/classMethod.c, runtime/readClass.c,
      runtime/code.c, runtime/lookup.c, runtime/baseClasses.c,
      runtime/findInJar.c, runtime/zextract.c, runtime/object.c): reading class
      files and jars, the state machine of processClass, dispatch tables and
      constant pool resolution; field layout is a component of its own.
    - exception dispatch and stack traces (runtime/exception.c,
      runtime/exception_handler.c, runtime/stackTrace.c): walks machine stacks
      and patches register windows; the table it searches is modelled.
    - native calls and startup (runtime/external.c, runtime/support.c,
      runtime/threadCalls.c, runtime/flags.c, runtime/trampolines.c, main.c):
      calls into shared libraries and the operating system, command line flags.
    - control flow graph and instructions (translator/InstrNode.c,
      translator/CFG.c, translator/cfg_generator.c, translator/translate.c,
      translator/translate.def, translator/code_sequences.c): the pseudo SPARC
      code and its generation from bytecode: a large table of code sequences.
    - register allocation (translator/register_allocator.c,
      translator/reg_alloc_util.c, translator/live_analysis.c): the passes over
      tree regions that choose registers, which work on the control flow graph;
      the state they keep is a component of its own.
    - optimizations (translator/value_numbering.c, translator/loop_opt.c,
      translator/TypeAnalysis.c, translator/TypeChecker.c,
      translator/method_inlining.c, translator/dynamic_cha.c,
      translator/SpecializedMethod.c, translator/CallSiteInfo.c,
      translator/virtual_call_profile.c, translator/bytecode_profile.c,
      translator/probe.c): transformations of the control flow graph, which is
      not modelled.
    - code emission (translator/code_gen.c, translator/mem_allocator_for_code.c,
      translator/translator_driver.c, translator/translator_driver_stub.c):
      placement and encoding of the instructions of the graph, and the drivers.
    - kaffe translator (kaffejit/icode.c, kaffejit/code-analyse.c,
      kaffejit/machine.c, kaffejit/basecode.c, kaffejit/registers.c): the older
      translator, taken from Kaffe; replaced by src/translator in the
      configuration modelled.
    - interpreter (interpreter/intrp-support.c, interpreter/intrp-exception.c,
      interpreter/intrp-resolve.c, interpreter/intrp-debug.c): SPARC assembly
      with C support routines; not part of the configuration modelled.
    - native libraries (lib/core/java.lang/System.c,
      lib/net/java.net/PlainSocketImpl.c): native methods of the class library:
      wrappers around the C library.
    - of soft instructions: type tests, array creation checks, comparisons, long
      and float division, shifts; not soft_new, the method look-ups, monitors
      and float/integer conversions, which only call other components or the C
      library.
    - of thread scheduler: run, block and alarm queues with their pointers,
      rescheduling as resumptions, alarms and external events; not the stacks
      (THREADSWITCH, newThreadCtx), thread creation and the NEW_CTX_SWITCH
      variant, which is not configured.
    - of strings: UTF-8 decoding, the tables of UTF-8 constants and of interned
      Java strings, conversion to and from C strings; not makeCString and
      makeJavaCharArray (copies), nor the collector's use of the markers.
    - of large object set: the hash table of large objects: initialization,
      insertion, search, walk; not gc_malloc_large and sweep_large.
    - of variables and registers: the encoding of variables in words, their
      numbers, storage locations, the sets of registers and calling conventions,
      spill offsets; not the names of variables and registers, which are for
      output.
*)

From stdpp Require Export base tactics list option numbers gmap sorting.
From Stdlib Require Export ZArith Lia.

#[global] Open Scope Z_scope.

(** ** Machine integers

    A [w]-bit C integer is a [Z].  [wrapu w] is the value an unsigned [w]-bit
    object holds after an assignment, [wraps w] the value of a two's complement
    signed one (what the SPARC compilers LaTTe is built with do on overflow). *)

Definition wrapu (w x : Z) : Z := x mod 2 ^ w.

Definition wraps (w x : Z) : Z := (x + 2 ^ (w - 1)) mod 2 ^ w - 2 ^ (w - 1).

Arguments wrapu : simpl never.
Arguments wraps : simpl never.
Abbreviation u8 := (wrapu 8).
Abbreviation u16 := (wrapu 16).
Abbreviation u32 := (wrapu 32).
Abbreviation u64 := (wrapu 64).
Abbreviation s8 := (wraps 8).
Abbreviation s16 := (wraps 16).
Abbreviation s32 := (wraps 32).
Abbreviation s64 := (wraps 64).
Abbreviation INT_MAX := 2147483647.

Definition in_u (w x : Z) : Prop := 0 <= x < 2 ^ w.
Definition in_s (w x : Z) : Prop := - 2 ^ (w - 1) <= x < 2 ^ (w - 1).

(** ** Outcomes of C code that can fail

    [Ok] is a normal return.  [Err e] is the early exit the source takes: a
    Java exception, a failed [assert], [exit], or a memory access outside the
    object. *)

Inductive res (E A : Type) : Type :=
| Ok (a : A)
| Err (e : E).
Arguments Ok {E A} a.
Arguments Err {E A} e.

#[export] Instance res_ret {E} : MRet (res E) := fun A a => Ok a.
#[export] Instance res_bind {E} : MBind (res E) := fun A B f m =>
  match m with Ok a => f a | Err e => Err e end.
#[export] Instance res_fmap {E} : FMap (res E) := fun A B f m =>
  match m with Ok a => Ok (f a) | Err e => Err e end.

(** [assert_or e b] is C's [if (!b) fail(e)]. *)
Definition assert_or {E} (e : E) (b : bool) : res E unit :=
  if b then Ok tt else Err e.

Definition of_option {E A} (e : E) (o : option A) : res E A :=
  match o with Some a => Ok a | None => Err e end.

Definition is_ok {E A} (m : res E A) : bool :=
  match m with Ok _ => true | Err _ => false end.

(** The Java exceptions and errors the modelled code raises with
    [throwException], and the C failures that are not exceptions. *)
Inductive failure :=
| NegativeArraySizeException
| ClassCastException
| ArrayStoreException
| ArithmeticException
| OutOfMemoryError
| NullPointerException
| IllegalMonitorStateException
| IncompatibleClassChangeError
| AbstractMethodError
| IllegalAccessError
| NoSuchMethodError
| NoSuchFieldError
| ClassFormatError
| ClassNotFoundException
| NoClassDefFoundError
| ThreadDeath
| AssertionFailed   (** a C [assert] *)
| BadAccess         (** a read or write outside an object, or through NULL *)
| Undefined         (** an operation C leaves undefined, e.g. [x / 0] *)
| OutOfFuel.        (** the bound of a modelled loop was reached *)

#[export] Instance failure_eq_dec : EqDecision failure.
Proof. solve_decision. Defined.

(** ** Tactics *)

Create HintDb latte.
Create HintDb mach.

(** [lia] with division and remainder by their defining equations. *)
Ltac dmlia := Z.div_mod_to_equations; lia.

(** Case analysis on every boolean test and [decide] in the goal, with the
    arithmetic comparisons reflected. *)
Ltac case_test :=
  match goal with
  | |- context [if (?a <=? ?b) then _ else _] => destruct (Z.leb_spec a b)
  | |- context [if (?a <? ?b) then _ else _] => destruct (Z.ltb_spec a b)
  | |- context [if (?a =? ?b) then _ else _] => destruct (Z.eqb_spec a b)
  | |- context [if decide ?P then _ else _] => destruct (decide P)
  | |- context [if bool_decide ?P then _ else _] => case_bool_decide
  | |- context [if ?b then _ else _] => destruct b eqn:?
  end.

(** Decide every integer comparison of the goal. *)
Ltac zcmps :=
  repeat (match goal with
  | |- context [?a <=? ?b] => destruct (Z.leb_spec a b)
  | |- context [?a <? ?b] => destruct (Z.ltb_spec a b)
  | |- context [?a =? ?b] => destruct (Z.eqb_spec a b)
  end; try lia); simpl; subst; try lia; try done.

Ltac case_test_in H :=
  match type of H with
  | context [if (?a <=? ?b) then _ else _] => destruct (Z.leb_spec a b)
  | context [if (?a <? ?b) then _ else _] => destruct (Z.ltb_spec a b)
  | context [if (?a =? ?b) then _ else _] => destruct (Z.eqb_spec a b)
  | context [if decide ?P then _ else _] => destruct (decide P)
  | context [if bool_decide ?P then _ else _] => case_bool_decide
  | context [if ?b then _ else _] => destruct b eqn:?
  end.

Ltac case_tests := repeat (case_test; simpl in *; try done).

(** Invert an [Ok]-valued monadic computation in a hypothesis. *)
Ltac inv_res :=
  repeat match goal with
  | H : mbind _ ?m = Ok _ |- _ =>
      let E := fresh "E" in destruct m eqn:E; simpl in H; [|discriminate H]
  | H : res_bind _ _ _ ?m = Ok _ |- _ =>
      let E := fresh "E" in destruct m eqn:E; simpl in H; [|discriminate H]
  | H : (let '(_, _) := ?p in _) = Ok _ |- _ => is_var p; destruct p; simpl in H
  | H : assert_or _ ?b = Ok _ |- _ =>
      let E := fresh "E" in destruct b eqn:E; simpl in H; [clear H|discriminate H]
  | H : of_option _ ?o = Ok _ |- _ =>
      let E := fresh "E" in destruct o eqn:E; simpl in H; [|discriminate H]
  | H : Ok _ = Ok _ |- _ => injection H as H; subst
  | H : Err _ = Ok _ |- _ => discriminate H
  | H : Ok _ = Err _ |- _ => discriminate H
  end.

(** ** Integers *)

Lemma wrapu_small w x : in_u w x -> wrapu w x = x.
Proof. intros H. by apply Z.mod_small. Qed.

Lemma wrapu_range w x : 0 <= w -> in_u w (wrapu w x).
Proof. intros. apply Z.mod_pos_bound. by apply Z.pow_pos_nonneg. Qed.

Lemma pow_split w : 0 < w -> 2 ^ w = 2 * 2 ^ (w - 1).
Proof. intros. replace w with (1 + (w - 1)) at 1 by lia. by rewrite Z.pow_add_r by lia. Qed.

Lemma wraps_small w x : 0 < w -> in_s w x -> wraps w x = x.
Proof.
  intros Hw [H1 H2]. unfold wraps. rewrite Z.mod_small; [lia|].
  rewrite (pow_split w) by lia. lia.
Qed.

Lemma wraps_range w x : 0 < w -> in_s w (wraps w x).
Proof.
  intros Hw. unfold wraps, in_s.
  pose proof (Z.mod_pos_bound (x + 2 ^ (w - 1)) (2 ^ w)) as B.
  rewrite (pow_split w) in * by lia.
  assert (0 < 2 ^ (w - 1)) by (apply Z.pow_pos_nonneg; lia). lia.
Qed.

Lemma wraps_eqm w x : 0 < w -> exists k, wraps w x = x + k * 2 ^ w.
Proof.
  intros Hw. unfold wraps. exists (- ((x + 2 ^ (w - 1)) / 2 ^ w)).
  assert (0 < 2 ^ w) by (apply Z.pow_pos_nonneg; lia).
  rewrite Z.mod_eq by lia. lia.
Qed.

#[export] Hint Resolve wrapu_range wraps_range : mach.

(** Rounding up to a multiple of [2^k] the way the sources write it, with a
    mask of the negated alignment. *)
Lemma land_neg_pow2 x k : 0 <= k -> Z.land x (- 2 ^ k) = 2 ^ k * (x / 2 ^ k).
Proof.
  intros Hk. rewrite <- (Z.shiftr_div_pow2 x k), Z.mul_comm by lia.
  rewrite <- Z.shiftl_mul_pow2 by lia.
  apply Z.bits_inj'. intros i Hi. rewrite Z.land_spec.
  replace (- 2 ^ k) with (Z.lnot (Z.ones k)) by (rewrite Z.ones_equiv; unfold Z.lnot; lia).
  rewrite Z.lnot_spec by lia.
  destruct (Z.lt_ge_cases i k).
  - rewrite Z.ones_spec_low, Z.shiftl_spec_low by lia. by rewrite andb_false_r.
  - rewrite Z.ones_spec_high, Z.shiftl_spec_high, Z.shiftr_spec by lia.
    replace (i - k + k) with i by lia. by rewrite andb_true_r.
Qed.

(** A test of one bit with a power of two. *)
Lemma land_pow2_testbit x i : 0 <= i ->
  negb (Z.land x (2 ^ i) =? 0) = Z.testbit x i.
Proof.
  intros Hi. destruct (Z.testbit x i) eqn:E.
  - destruct (Z.eqb_spec (Z.land x (2 ^ i)) 0) as [H|]; [|done].
    apply (f_equal (fun z => Z.testbit z i)) in H.
    by rewrite Z.land_spec, E, Z.pow2_bits_true, Z.bits_0 in H by lia.
  - replace (Z.land x (2 ^ i)) with 0; [done|].
    symmetry. apply Z.bits_inj'. intros j Hj. rewrite Z.land_spec, Z.bits_0.
    destruct (decide (i = j)) as [->|].
    + by rewrite E.
    + by rewrite Z.pow2_bits_false, andb_false_r.
Qed.

Lemma in_u_testbit w x i : in_u w x -> w <= i -> Z.testbit x i = false.
Proof.
  intros Hx Hi. destruct (Z.lt_ge_cases i 0); [by apply Z.testbit_neg_r|].
  rewrite <- (wrapu_small w x) by done. unfold wrapu.
  destruct (Z.lt_ge_cases w 0).
  - rewrite Z.pow_neg_r by lia. rewrite Zmod_0_r. destruct Hx as [? Hx].
    rewrite Z.pow_neg_r in Hx by lia. lia.
  - by apply Z.mod_pow2_bits_high.
Qed.

Lemma in_u_bits w x : 0 <= w -> 0 <= x ->
  (forall i, w <= i -> Z.testbit x i = false) -> in_u w x.
Proof.
  intros Hw Hx Hb. replace x with (wrapu w x); [by apply wrapu_range|].
  unfold wrapu. rewrite <- Z.land_ones by lia. apply Z.bits_inj'. intros i Hi.
  rewrite Z.land_spec. destruct (Z.lt_ge_cases i w).
  - by rewrite Z.ones_spec_low, andb_true_r by lia.
  - by rewrite Hb.
Qed.

Lemma in_u_lor w x y : 0 <= w -> in_u w x -> in_u w y -> in_u w (Z.lor x y).
Proof.
  intros ? Hx Hy. apply in_u_bits; [done|apply Z.lor_nonneg; split; [apply Hx|apply Hy]|].
  intros. by rewrite Z.lor_spec, (in_u_testbit w x), (in_u_testbit w y).
Qed.

Lemma in_u_land_l w x y : 0 <= w -> in_u w x -> in_u w (Z.land x y).
Proof.
  intros ? Hx. apply in_u_bits; [done|apply Z.land_nonneg; left; apply Hx|].
  intros. by rewrite Z.land_spec, (in_u_testbit w x).
Qed.

Lemma in_u_pow2 w k : 0 <= k < w -> in_u w (2 ^ k).
Proof. intros. split; [by apply Z.pow_nonneg|]. apply Z.pow_lt_mono_r; lia. Qed.

#[export] Hint Resolve in_u_lor in_u_land_l in_u_pow2 : mach.

(** ** Lists *)

Definition zlookup {A} (l : list A) (i : Z) : option A :=
  if i <? 0 then None else l !! Z.to_nat i.

(** An array store; a store outside the array is not a store of the model. *)
Definition zstore {A} (l : list A) (i : Z) (x : A) : option (list A) :=
  if (i <? 0) || (Z.of_nat (length l) <=? i) then None
  else Some (<[Z.to_nat i := x]> l).

Lemma zlookup_nat {A} (l : list A) (n : nat) : zlookup l (Z.of_nat n) = l !! n.
Proof. unfold zlookup. case_test; [lia|]. by rewrite Nat2Z.id. Qed.

Lemma zlookup_Some {A} (l : list A) i x :
  zlookup l i = Some x <-> 0 <= i /\ l !! Z.to_nat i = Some x.
Proof. unfold zlookup. case_test; naive_solver lia. Qed.

Lemma zlookup_bound {A} (l : list A) i x :
  zlookup l i = Some x -> 0 <= i < Z.of_nat (length l).
Proof. rewrite zlookup_Some. intros [? ?%lookup_lt_Some]. lia. Qed.

Lemma zlookup_is_Some {A} (l : list A) i :
  0 <= i < Z.of_nat (length l) -> is_Some (zlookup l i).
Proof.
  intros. unfold zlookup. case_test; [lia|]. apply lookup_lt_is_Some. lia.
Qed.

Lemma zstore_Some {A} (l : list A) i x l' :
  zstore l i x = Some l' <->
  0 <= i < Z.of_nat (length l) /\ l' = <[Z.to_nat i := x]> l.
Proof.
  unfold zstore. destruct (Z.ltb_spec i 0), (Z.leb_spec (Z.of_nat (length l)) i);
    simpl; naive_solver lia.
Qed.

Lemma zstore_is_Some {A} (l : list A) i x :
  0 <= i < Z.of_nat (length l) -> zstore l i x = Some (<[Z.to_nat i := x]> l).
Proof. intros. by apply zstore_Some. Qed.

Lemma zstore_length {A} (l l' : list A) i x :
  zstore l i x = Some l' -> length l' = length l.
Proof. rewrite zstore_Some. intros [_ ->]. apply length_insert. Qed.

Lemma zlookup_zstore {A} (l l' : list A) i j x :
  zstore l i x = Some l' ->
  zlookup l' j = if i =? j then Some x else zlookup l j.
Proof.
  rewrite zstore_Some. intros [? ->]. unfold zlookup.
  destruct (Z.eqb_spec i j) as [<-|].
  - case_test; [lia|]. apply list_lookup_insert_eq. lia.
  - case_test; [done|]. apply list_lookup_insert_ne. lia.
Qed.

#[export] Hint Resolve zlookup_bound : latte.

Lemma land_shiftl w m n : 0 <= n -> Z.land w (Z.shiftl m n) = Z.shiftl (Z.land (Z.shiftr w n) m) n.
Proof.
  intros Hn. apply Z.bits_inj'. intros i Hi. rewrite Z.land_spec. destruct (Z.ltb_spec i n).
  - rewrite !Z.shiftl_spec_low by done. apply andb_false_r.
  - rewrite !Z.shiftl_spec, Z.land_spec, Z.shiftr_spec by lia. by replace (i - n + n) with i by lia.
Qed.

(** Putting fields of a word together. *)
Lemma lor_shiftl a b n : 0 <= n -> 0 <= b < 2 ^ n -> Z.lor (Z.shiftl a n) b = a * 2 ^ n + b.
Proof.
  intros Hn Hb. rewrite Z.shiftl_mul_pow2 by lia. rewrite <- Z.lxor_lor, <- Z.add_nocarry_lxor; [done|..];
    apply Z.bits_inj'; intros k Hk; rewrite Z.land_spec, Z.bits_0;
    (destruct (Z.ltb_spec k n);
      [rewrite Z.mul_pow2_bits_low by done; done
      |rewrite (in_u_testbit n b k), andb_false_r by done; done]).
Qed.

Lemma StronglySorted_ext {A} (r r' : A -> A -> Prop) l :
  (forall a b, a ∈ l -> b ∈ l -> r a b -> r' a b) -> StronglySorted r l -> StronglySorted r' l.
Proof.
  intros Hr. induction 1 as [|a l Hl IH Ha]; constructor.
  - apply IH. intros. apply Hr; [by right|by right|done].
  - rewrite Forall_forall in Ha |- *. intros b Hb. apply Hr; [left|by right|by apply Ha].
Qed.

Lemma StronglySorted_app_iff {A} (r : A -> A -> Prop) l1 l2 :
  StronglySorted r (l1 ++ l2) <->
  StronglySorted r l1 /\ StronglySorted r l2 /\ forall x y, x ∈ l1 -> y ∈ l2 -> r x y.
Proof.
  induction l1 as [|a l1 IH]; simpl.
  - split; [intros H; split_and!; [constructor|done|]; set_solver|by intros (_ & H & _)].
  - split.
    + intros [H1 H2]%StronglySorted_inv. apply IH in H1 as (H1 & H3 & H4). rewrite Forall_app in H2.
      destruct H2 as [H2 H5]. rewrite !Forall_forall in *. split_and!; [constructor; [done|by apply Forall_forall]|done|].
      intros x y [->|Hx]%elem_of_cons Hy; auto.
    + intros ([H1 H2]%StronglySorted_inv & H3 & H4). constructor.
      * apply IH. split_and!; [done|done|]. intros x y Hx Hy. apply H4; [by right|done].
      * apply Forall_app. split; [done|]. apply Forall_forall. intros y Hy. apply H4; [by left|done].
Qed.

(** ** Lists of numbers and filters *)

Lemma bounded_length (l : list Z) n : 0 <= n -> NoDup l -> (forall x, x ∈ l -> 0 <= x < n) -> Z.of_nat (length l) <= n.
Proof.
  intros Hn Hl Hb. enough (length l <= length (seqZ 0 n))%nat by (rewrite length_seqZ in *; lia).
  apply submseteq_length, NoDup_submseteq; [done|]. intros x Hx. apply elem_of_seqZ. specialize (Hb x Hx). lia.
Qed.

Lemma filter_same {A} (P Q : A -> Prop) `{!forall x, Decision (P x), !forall x, Decision (Q x)} (l : list A) :
  (forall x, x ∈ l -> P x <-> Q x) -> filter P l = filter Q l.
Proof.
  induction l as [|x l IH]; intros E; [done|]. rewrite !filter_cons. rewrite IH by (intros y Hy; apply E; by right).
  pose proof (E x ltac:(left)). repeat case_decide; tauto.
Qed.

Lemma filter_true {A} (P : A -> Prop) `{!forall x, Decision (P x)} (l : list A) : (forall x, x ∈ l -> P x) -> filter P l = l.
Proof.
  induction l as [|x l IH]; intros Hl; [done|]. rewrite filter_cons_True by (apply Hl; left).
  f_equal. apply IH. intros y Hy. apply Hl. by right.
Qed.
