(* ===== verification/BitVector.v ===== *)
(** * Bit vectors of the translator (src/translator/bit_vector.ic, bit_vector.c)

    A bit vector is an array of 32-bit words; bit [i] is bit [31 - i mod 32] of
    word [i / 32].  The operations are modelled on the list of words, with an
    access outside the array as [None]; the theorems show that they implement
    the operations of a finite set of indices. *)

From S2P Require Import Prelude.

Definition Mask_For_Word : list Z := [
  0x80000000; 0x40000000; 0x20000000; 0x10000000;
  0x08000000; 0x04000000; 0x02000000; 0x01000000;
  0x00800000; 0x00400000; 0x00200000; 0x00100000;
  0x00080000; 0x00040000; 0x00020000; 0x00010000;
  0x00008000; 0x00004000; 0x00002000; 0x00001000;
  0x00000800; 0x00000400; 0x00000200; 0x00000100;
  0x00000080; 0x00000040; 0x00000020; 0x00000010;
  0x00000008; 0x00000004; 0x00000002; 0x00000001 ].

Definition BV_SetBit (bit_vector : list Z) (index : Z) : option (list Z) :=
  let word_seg := Z.quot index 32 in
  let index_in_word := Z.rem index 32 in
  m ← zlookup Mask_For_Word index_in_word;
  w ← zlookup bit_vector word_seg;
  zstore bit_vector word_seg (Z.lor w m).

Definition BV_IsSet (bit_vector : list Z) (index : Z) : option bool :=
  let word_seg := Z.quot index 32 in
  let index_in_word := Z.rem index 32 in
  m ← zlookup Mask_For_Word index_in_word;
  w ← zlookup bit_vector word_seg;
  Some (negb (Z.land w m =? 0)).

Definition BV_ClearBit (bit_vector : list Z) (index : Z) : option (list Z) :=
  let word_seg := Z.quot index 32 in
  let index_in_word := Z.rem index 32 in
  m ← zlookup Mask_For_Word index_in_word;
  w ← zlookup bit_vector word_seg;
  zstore bit_vector word_seg (Z.land w (u32 (Z.lnot m))).

(** The word loops: [n] counts the iterations left, [i] is the C counter. *)
Fixpoint bv_loop (f : Z -> Z -> Z) (dest src : list Z) (i : Z) (n : nat)
  : option (list Z) :=
  match n with
  | O => Some dest
  | S n' =>
      d ← zlookup dest i;
      s ← zlookup src i;
      dest' ← zstore dest i (f d s);
      bv_loop f dest' src (i + 1) n'
  end.

Definition BV_Copy (dest src : list Z) (size : Z) : option (list Z) :=
  bv_loop (fun _ s => s) dest src 0 (Z.to_nat size).

Definition BV_OR (dest src : list Z) (size : Z) : option (list Z) :=
  bv_loop Z.lor dest src 0 (Z.to_nat size).

Definition BV_AND (dest src : list Z) (size : Z) : option (list Z) :=
  bv_loop Z.land dest src 0 (Z.to_nat size).

Fixpoint bv_fill (v : Z) (bv : list Z) (i : Z) (n : nat) : option (list Z) :=
  match n with
  | O => Some bv
  | S n' => bv' ← zstore bv i v; bv_fill v bv' (i + 1) n'
  end.

Definition BV_Init (bit_vector : list Z) (size : Z) : option (list Z) :=
  bv_fill 0 bit_vector 0 (Z.to_nat size).

Definition BV_ClearAll (bit_vector : list Z) (size : Z) : option (list Z) :=
  BV_Init bit_vector size.

Definition BV_SetAll (bv : list Z) (size : Z) : option (list Z) :=
  bv_fill 0xFFFFFFFF bv 0 (Z.to_nat size).

(** ** Abstraction: the set of indices whose bit is set *)

Definition bv_wf (bv : list Z) : Prop := Forall (in_u 32) bv.

Definition bv_mem (bv : list Z) (i : Z) : Prop := BV_IsSet bv i = Some true.

Definition bv_dom (bv : list Z) (i : Z) : Prop := 0 <= i < 32 * Z.of_nat (length bv).

(** ** Lemmas *)

Lemma mask_lookup i : 0 <= i < 32 -> zlookup Mask_For_Word i = Some (2 ^ (31 - i)).
Proof.
  intros H.
  assert (Hall : forallb (fun k => match zlookup Mask_For_Word k with
    | Some m => m =? 2 ^ (31 - k) | None => false end) (seqZ 0 32) = true) by done.
  rewrite forallb_forall in Hall. specialize (Hall i).
  rewrite <- list_elem_of_In, elem_of_seqZ in Hall. specialize (Hall ltac:(lia)).
  destruct (zlookup _ _); [|done]. by apply Z.eqb_eq in Hall as ->.
Qed.

Lemma mask_lookup_out i : ~ 0 <= i < 32 -> zlookup Mask_For_Word i = None.
Proof.
  intros. destruct (zlookup _ i) eqn:E; [|done].
  apply zlookup_bound in E. simpl in E. lia.
Qed.

Lemma quot_rem_32 i : 0 <= i ->
  Z.quot i 32 = i / 32 /\ Z.rem i 32 = i mod 32 /\ 0 <= i / 32 /\ 0 <= i mod 32 < 32.
Proof.
  intros. rewrite Z.quot_div_nonneg, Z.rem_mod_nonneg by lia.
  pose proof (Z.mod_pos_bound i 32). pose proof (Z.div_pos i 32). lia.
Qed.

(** Reading a bit is reading a binary digit of the word. *)
Lemma BV_IsSet_spec bv i : 0 <= i ->
  BV_IsSet bv i = (fun w => Z.testbit w (31 - i mod 32)) <$> zlookup bv (i / 32).
Proof.
  intros Hi. destruct (quot_rem_32 i Hi) as (Eq & Er & ? & ?).
  unfold BV_IsSet. rewrite Eq, Er, mask_lookup by lia. simpl.
  destruct (zlookup bv _); [|done]. simpl.
  by rewrite land_pow2_testbit by lia.
Qed.

Lemma BV_IsSet_neg bv i : i < 0 -> BV_IsSet bv i = None.
Proof.
  intros Hi. unfold BV_IsSet.
  destruct (zlookup Mask_For_Word _) as [m|] eqn:Em; [|done].
  destruct (zlookup bv _) as [w|] eqn:Ew; [|done].
  apply zlookup_bound in Em, Ew. simpl in Em.
  pose proof (Z.quot_rem' i 32). lia.
Qed.

Lemma bv_dom_lookup bv i : bv_dom bv i <-> 0 <= i /\ is_Some (zlookup bv (i / 32)).
Proof.
  unfold bv_dom. split.
  - intros [? ?]. split; [done|]. apply zlookup_is_Some.
    dmlia.
  - intros [? [w ?%zlookup_bound]]. dmlia.
Qed.

Lemma BV_IsSet_is_Some bv i : is_Some (BV_IsSet bv i) <-> bv_dom bv i.
Proof.
  rewrite bv_dom_lookup. destruct (Z.lt_ge_cases i 0).
  - rewrite BV_IsSet_neg by done. split; [by intros []|lia].
  - rewrite BV_IsSet_spec by lia. rewrite fmap_is_Some. naive_solver.
Qed.

(** A store of one word changes exactly the bits of that word. *)
Lemma bv_store_word bv k v bv' i :
  0 <= i -> zstore bv k v = Some bv' ->
  BV_IsSet bv' i =
    if k =? i / 32 then Some (Z.testbit v (31 - i mod 32)) else BV_IsSet bv i.
Proof.
  intros Hi Hst. rewrite !BV_IsSet_spec by lia.
  rewrite (zlookup_zstore _ _ _ _ _ Hst). by case_test.
Qed.

Lemma same_bit i j : 0 <= i -> 0 <= j -> i / 32 = j / 32 ->
  (31 - i mod 32 =? 31 - j mod 32) = (i =? j).
Proof.
  intros. pose proof (Z.div_mod i 32). pose proof (Z.div_mod j 32).
  destruct (Z.eqb_spec (31 - i mod 32) (31 - j mod 32)), (Z.eqb_spec i j); lia || done.
Qed.

Lemma bv_wf_lookup bv k w : bv_wf bv -> zlookup bv k = Some w -> in_u 32 w.
Proof. intros Hwf [_ ?]%zlookup_Some. by eapply Forall_lookup_1. Qed.

Lemma bv_wf_store bv k v bv' :
  bv_wf bv -> in_u 32 v -> zstore bv k v = Some bv' -> bv_wf bv'.
Proof. intros ? ? [? ->]%zstore_Some. by apply Forall_insert. Qed.

(** Updating one word by an operation that gives bit [i] the value [b] and
    leaves the word's other bits alone. *)
Lemma bv_update_bit bv i b f :
  bv_wf bv -> bv_dom bv i ->
  (forall w, in_u 32 w -> in_u 32 (f w)) ->
  (forall w k, in_u 32 w -> 0 <= k ->
     Z.testbit (f w) k = if 31 - i mod 32 =? k then b else Z.testbit w k) ->
  exists w bv', zlookup bv (i / 32) = Some w /\
    zstore bv (i / 32) (f w) = Some bv' /\ bv_wf bv' /\ length bv' = length bv /\
    forall j, BV_IsSet bv' j = if i =? j then Some b else BV_IsSet bv j.
Proof.
  intros Hwf [Hi [w Hw]]%bv_dom_lookup Hr Hf. exists w.
  pose proof (bv_wf_lookup _ _ _ Hwf Hw) as Hin.
  pose proof (zstore_is_Some bv (i / 32) (f w) (zlookup_bound _ _ _ Hw)) as Hst.
  eexists. split; [done|]. split; [exact Hst|]. split; [eauto using bv_wf_store|].
  split; [by eapply zstore_length|]. intros j.
  destruct (Z.lt_ge_cases j 0).
  { rewrite !BV_IsSet_neg by done. case_test; [lia|done]. }
  rewrite (bv_store_word _ _ _ _ j ltac:(lia) Hst).
  destruct (quot_rem_32 j) as (_ & _ & ? & ?); [lia|].
  destruct (Z.eqb_spec (i / 32) (j / 32)) as [E|E].
  - rewrite Hf, same_bit, BV_IsSet_spec, <- E, Hw by (done || lia). by case_test.
  - destruct (Z.eqb_spec i j) as [->|]; done.
Qed.

Lemma testbit_set w m i : 0 <= i -> 0 <= m ->
  Z.testbit (Z.lor w (2 ^ m)) i = if m =? i then true else Z.testbit w i.
Proof. intros. rewrite Z.lor_spec, Z.pow2_bits_eqb, orb_comm by lia. by destruct (m =? i). Qed.

Lemma testbit_clear w m i : in_u 32 w -> 0 <= i -> 0 <= m < 32 ->
  Z.testbit (Z.land w (u32 (Z.lnot (2 ^ m)))) i = if m =? i then false else Z.testbit w i.
Proof.
  intros Hw Hi Hm. unfold wrapu. rewrite <- Z.land_ones by lia.
  rewrite !Z.land_spec, Z.lnot_spec, Z.pow2_bits_eqb by lia.
  destruct (Z.lt_ge_cases i 32).
  - rewrite Z.ones_spec_low by lia. destruct (m =? i), (Z.testbit w i); done.
  - rewrite (in_u_testbit 32 w i) by done. by destruct (m =? i).
Qed.

Lemma BV_SetBit_upd bv i : bv_wf bv -> bv_dom bv i ->
  exists bv', BV_SetBit bv i = Some bv' /\ bv_wf bv' /\ length bv' = length bv /\
    forall j, BV_IsSet bv' j = if i =? j then Some true else BV_IsSet bv j.
Proof.
  intros Hwf Hd. destruct (quot_rem_32 i) as (Eq & Er & ? & ?); [apply Hd|].
  destruct (bv_update_bit bv i true (fun w => Z.lor w (2 ^ (31 - i mod 32))) Hwf Hd)
    as (w & bv' & Hw & Hst & ?).
  - auto with mach zarith.
  - intros. apply testbit_set; lia.
  - exists bv'. split; [|done]. unfold BV_SetBit.
    rewrite Eq, Er, mask_lookup by lia. simpl. rewrite Hw. exact Hst.
Qed.

Lemma BV_ClearBit_upd bv i : bv_wf bv -> bv_dom bv i ->
  exists bv', BV_ClearBit bv i = Some bv' /\ bv_wf bv' /\ length bv' = length bv /\
    forall j, BV_IsSet bv' j = if i =? j then Some false else BV_IsSet bv j.
Proof.
  intros Hwf Hd. destruct (quot_rem_32 i) as (Eq & Er & ? & ?); [apply Hd|].
  destruct (bv_update_bit bv i false
    (fun w => Z.land w (u32 (Z.lnot (2 ^ (31 - i mod 32))))) Hwf Hd)
    as (w & bv' & Hw & Hst & ?).
  - auto with mach zarith.
  - intros. apply testbit_clear; [done|lia|lia].
  - exists bv'. split; [|done]. unfold BV_ClearBit.
    rewrite Eq, Er, mask_lookup by lia. simpl. rewrite Hw. exact Hst.
Qed.

(** The loops act pointwise on the words below their bound and leave the rest
    of the destination alone. *)
Lemma bv_loop_spec f n : forall dest src i,
  0 <= i -> i + Z.of_nat n <= Z.of_nat (length dest) ->
  i + Z.of_nat n <= Z.of_nat (length src) ->
  exists d', bv_loop f dest src i n = Some d' /\ length d' = length dest /\
    forall k, zlookup d' k =
      if (i <=? k) && (k <? i + Z.of_nat n)
      then d ← zlookup dest k; s ← zlookup src k; Some (f d s) else zlookup dest k.
Proof.
  induction n as [|n IH]; intros dest src i Hi Hd Hs; cbn [bv_loop].
  - exists dest. split_and!; [done..|]. intros k. zcmps.
  - destruct (zlookup_is_Some dest i) as [d Ed]; [lia|].
    destruct (zlookup_is_Some src i) as [s Es]; [lia|].
    rewrite Ed, Es. cbn.
    pose proof (zstore_is_Some dest i (f d s) ltac:(lia)) as Hst. rewrite Hst. cbn.
    destruct (IH (<[Z.to_nat i:=f d s]> dest) src (i + 1)) as (d' & Hl & Hlen & Hk);
      [lia|rewrite length_insert; lia|lia|].
    exists d'. split; [done|]. split; [by rewrite Hlen, length_insert|]. intros k.
    rewrite Hk, (zlookup_zstore _ _ _ _ _ Hst), Nat2Z.inj_succ. zcmps.
    by rewrite Ed, Es.
Qed.

Lemma bv_fill_spec v n : forall bv i,
  0 <= i -> i + Z.of_nat n <= Z.of_nat (length bv) ->
  exists bv', bv_fill v bv i n = Some bv' /\ length bv' = length bv /\
    forall k, zlookup bv' k =
      if (i <=? k) && (k <? i + Z.of_nat n) then Some v else zlookup bv k.
Proof.
  induction n as [|n IH]; intros bv i Hi Hd; cbn [bv_fill].
  - exists bv. split_and!; [done..|]. intros k. zcmps.
  - pose proof (zstore_is_Some bv i v ltac:(lia)) as Hst. rewrite Hst. cbn.
    destruct (IH (<[Z.to_nat i:=v]> bv) (i + 1)) as (b' & Hl & Hlen & Hk);
      [lia|rewrite length_insert; lia|].
    exists b'. split; [done|]. split; [by rewrite Hlen, length_insert|]. intros k.
    rewrite Hk, (zlookup_zstore _ _ _ _ _ Hst), Nat2Z.inj_succ. zcmps.
Qed.

Lemma bv_wf_zlookup bv : bv_wf bv <-> forall k w, zlookup bv k = Some w -> in_u 32 w.
Proof.
  split; [intros; by eapply bv_wf_lookup|]. intros Hk. apply Forall_lookup_2.
  intros n w Hn. apply (Hk (Z.of_nat n)). by rewrite zlookup_nat.
Qed.

Lemma bv_loop_wf f dest src n d' :
  (forall a b, in_u 32 a -> in_u 32 b -> in_u 32 (f a b)) -> bv_wf dest -> bv_wf src ->
  Z.of_nat n <= Z.of_nat (length dest) -> Z.of_nat n <= Z.of_nat (length src) ->
  bv_loop f dest src 0 n = Some d' -> bv_wf d'.
Proof.
  intros Hf Hd Hs ? ? E. destruct (bv_loop_spec f n dest src 0) as (d'' & E' & _ & Hk); [lia..|].
  rewrite E in E'. injection E' as <-. apply bv_wf_zlookup. intros k w. rewrite Hk.
  case_test; [|by apply bv_wf_lookup].
  destruct (zlookup dest k) as [a|] eqn:Ea; [|done]. simpl.
  destruct (zlookup src k) as [b|] eqn:Eb; [|done]. simpl. intros [= <-].
  apply Hf; [by apply (bv_wf_lookup dest k)|by apply (bv_wf_lookup src k)].
Qed.

(** ** Refinement: bit vectors implement sets of indices *)

Lemma bv_mem_dom bv i : bv_mem bv i -> bv_dom bv i.
Proof. unfold bv_mem. intros H. apply BV_IsSet_is_Some. by rewrite H. Qed.

Lemma bv_pointwise f g dest src size d' i :
  (forall a b k, 0 <= k -> Z.testbit (f a b) k = g (Z.testbit a k) (Z.testbit b k)) ->
  length dest = length src -> size = Z.of_nat (length dest) ->
  bv_loop f dest src 0 (Z.to_nat size) = Some d' ->
  BV_IsSet d' i = a ← BV_IsSet dest i; b ← BV_IsSet src i; Some (g a b).
Proof.
  intros Hf Hl -> Hloop.
  destruct (bv_loop_spec f (Z.to_nat (Z.of_nat (length dest))) dest src 0)
    as (d'' & E & _ & Hk); [lia..|]. rewrite Hloop in E. injection E as <-.
  destruct (Z.lt_ge_cases i 0); [by rewrite !BV_IsSet_neg|].
  rewrite !BV_IsSet_spec, Hk by lia.
  destruct (zlookup dest (i / 32)) as [a|] eqn:Ea.
  - apply zlookup_bound in Ea as ?. destruct (zlookup src (i / 32)) as [b|] eqn:Eb.
    + zcmps. rewrite Hf by dmlia. done.
    + destruct (zlookup_is_Some src (i / 32)) as [? ?]; [lia|congruence].
  - zcmps.
Qed.

Lemma mem_of_upd bv bv' i b :
  (forall j, BV_IsSet bv' j = if i =? j then Some b else BV_IsSet bv j) ->
  forall j, bv_mem bv' j <-> (if b then j = i \/ bv_mem bv j else j <> i /\ bv_mem bv j).
Proof.
  intros H j. unfold bv_mem. rewrite H.
  destruct (Z.eqb_spec i j), b; naive_solver.
Qed.

Lemma bv_loop_total f dest src :
  length dest = length src ->
  exists d', bv_loop f dest src 0 (Z.to_nat (Z.of_nat (length dest))) = Some d'
    /\ length d' = length dest.
Proof.
  intros. destruct (bv_loop_spec f (Z.to_nat (Z.of_nat (length dest))) dest src 0)
    as (d' & ? & ? & _); [lia..|]. eauto.
Qed.

Lemma bv_fill_bits v b bv :
  (forall k, 0 <= k < 32 -> Z.testbit v k = b) ->
  exists bv', bv_fill v bv 0 (Z.to_nat (Z.of_nat (length bv))) = Some bv' /\
    length bv' = length bv /\
    forall i, BV_IsSet bv' i = if decide (bv_dom bv i) then Some b else None.
Proof.
  intros Hv. destruct (bv_fill_spec v (Z.to_nat (Z.of_nat (length bv))) bv 0)
    as (bv' & ? & Hlen & Hk); [lia..|].
  exists bv'. split_and!; [done..|]. intros i.
  destruct (Z.lt_ge_cases i 0).
  { rewrite BV_IsSet_neg by done. case_test; [|done]. unfold bv_dom in *. lia. }
  rewrite BV_IsSet_spec, Hk by done. case_test.
  - unfold bv_dom in *. destruct (quot_rem_32 i) as (_ & _ & ? & ?); [lia|].
    zcmps; try dmlia. by rewrite Hv by lia.
  - destruct (zlookup bv (i / 32)) eqn:E; [|zcmps].
    + exfalso. apply n, bv_dom_lookup. rewrite E. eauto.
    + exfalso. apply n, bv_dom_lookup. split; [done|]. apply zlookup_is_Some. lia.
Qed.

Lemma bv_or_mem bv src d j : length bv = length src ->
  bv_loop Z.lor bv src 0 (Z.to_nat (Z.of_nat (length bv))) = Some d ->
  bv_mem d j <-> bv_mem bv j \/ bv_mem src j.
Proof.
  intros Hlen E. unfold bv_mem.
  rewrite (bv_pointwise Z.lor orb bv src _ d j
    (fun a b k _ => Z.lor_spec a b k) Hlen eq_refl E).
  assert (Hd : bv_dom bv j <-> bv_dom src j) by (unfold bv_dom; by rewrite Hlen).
  rewrite <- !BV_IsSet_is_Some in Hd.
  destruct (BV_IsSet bv j) as [[]|], (BV_IsSet src j) as [[]|]; simpl; naive_solver.
Qed.

(** C18: the bit-vector operations of the translator never run off an array
    that covers their index or size, keep every word 32 bits wide, and act on
    the set of indices whose bit is set exactly as set operations: [BV_SetBit]
    adds an index, [BV_ClearBit] removes it, [BV_OR], [BV_AND] and [BV_Copy]
    are union, intersection and assignment, [BV_Init] and [BV_SetAll] give the
    empty and the full set. *)
Theorem BV_implements_sets (bv src : list Z) (n : Z)
    (Hwf : bv_wf bv) (Hwf' : bv_wf src) (Hn : n = Z.of_nat (length bv))
    (Hlen : length bv = length src) :
  (forall i, bv_dom bv i -> exists bv', BV_SetBit bv i = Some bv' /\ bv_wf bv' /\
     forall j, bv_mem bv' j <-> j = i \/ bv_mem bv j) /\
  (forall i, bv_dom bv i -> exists bv', BV_ClearBit bv i = Some bv' /\ bv_wf bv' /\
     forall j, bv_mem bv' j <-> j <> i /\ bv_mem bv j) /\
  (exists bv', BV_OR bv src n = Some bv' /\
     forall j, bv_mem bv' j <-> bv_mem bv j \/ bv_mem src j) /\
  (exists bv', BV_AND bv src n = Some bv' /\
     forall j, bv_mem bv' j <-> bv_mem bv j /\ bv_mem src j) /\
  (exists bv', BV_Copy bv src n = Some bv' /\
     forall j, bv_mem bv' j <-> bv_mem src j) /\
  (exists bv', BV_Init bv n = Some bv' /\ forall j, ~ bv_mem bv' j) /\
  (exists bv', BV_SetAll bv n = Some bv' /\ forall j, bv_mem bv' j <-> bv_dom bv j).
Proof.
  subst n. split_and!.
  - intros i Hd. destruct (BV_SetBit_upd bv i Hwf Hd) as (bv' & ? & ? & _ & H).
    exists bv'. split_and!; [done..|]. exact (mem_of_upd _ _ _ true H).
  - intros i Hd. destruct (BV_ClearBit_upd bv i Hwf Hd) as (bv' & ? & ? & _ & H).
    exists bv'. split_and!; [done..|]. exact (mem_of_upd _ _ _ false H).
  - destruct (bv_loop_total Z.lor bv src Hlen) as (d & E & _). exists d.
    split; [done|]. intros j. by eapply bv_or_mem.
  - destruct (bv_loop_total Z.land bv src Hlen) as (d & E & _). exists d.
    split; [done|]. intros j. unfold bv_mem.
    rewrite (bv_pointwise Z.land andb bv src _ d j
      (fun a b k _ => Z.land_spec a b k) Hlen eq_refl E).
    destruct (BV_IsSet bv j) as [[]|] eqn:E1, (BV_IsSet src j) as [[]|] eqn:E2;
      simpl; naive_solver.
  - destruct (bv_loop_total (fun _ s => s) bv src Hlen) as (d & E & _). exists d.
    split; [done|]. intros j. unfold bv_mem.
    rewrite (bv_pointwise (fun _ s => s) (fun _ b => b) bv src _ d j
      (fun a b k _ => eq_refl) Hlen eq_refl E).
    destruct (BV_IsSet bv j) as [a|] eqn:E1, (BV_IsSet src j) as [b|] eqn:E2;
      simpl; try naive_solver.
    assert (Hd : bv_dom bv j <-> bv_dom src j) by (unfold bv_dom; rewrite Hlen; done).
    rewrite <- !BV_IsSet_is_Some, E1, E2 in Hd. naive_solver.
  - destruct (bv_fill_bits 0 false bv) as (b & E & _ & H); [intros; apply Z.bits_0|].
    exists b. split; [done|]. intros j. unfold bv_mem. rewrite H. case_test; naive_solver.
  - destruct (bv_fill_bits 0xFFFFFFFF true bv) as (b & E & _ & H).
    { intros k ?. change 0xFFFFFFFF with (Z.ones 32). apply Z.ones_spec_low. lia. }
    exists b. split; [done|]. intros j. unfold bv_mem. rewrite H. case_test; naive_solver.
Qed.

Lemma BV_implements_sets_witness :
  exists bv', BV_SetBit [0; 0] 33 = Some bv' /\ bv_mem bv' 33 /\ ~ bv_mem bv' 32.
Proof.
  destruct (BV_implements_sets [0; 0] [1; 2] 2) as [H _];
    [repeat constructor; lia|repeat constructor; lia|reflexivity|reflexivity|].
  destruct (H 33) as (bv' & E & _ & Hm); [unfold bv_dom; simpl; lia|].
  exists bv'. split; [exact E|]. split; [apply Hm; by left|].
  intros [?|Hc]%Hm; [lia|]. vm_compute in Hc. discriminate Hc.
Defined.
