(* ===== verification/Sma.v ===== *)
(** * Session-based memory allocator (src/translator/sma.c, sma.h)

    A session owns a stack of heap blocks obtained from [valloc]; memory is
    handed out by bumping an offset in the current block.  Restarting a session
    rewinds to the first block and keeps the others for reuse.

    The C heap is modelled by [sys]: the sizes of the blocks that are live, by
    their identifiers, and the next unused identifier.  [valloc_ok] is the parameter that
    says whether the operating system grants a request.  An [assert] that
    fails, [exit(1)] and a store outside the fixed-size arrays are errors. *)

From S2P Require Import Prelude.

Definition SMA_MAX_SIZE_OF_HEAP_STACK : Z := 15.

Record SMA_Session := mkSession {
  heapStackSize : Z;
  heapStack : list (option Z);
  heapSizeStack : list Z;
  currentHeap : option Z;
  currentHeapIndex : Z;
  currentHeapSize : Z;
  currentHeapFreeSize : Z }.

Inductive sma_error := AssertFailed | InsufficientMemory | OutOfBounds | Diverges.

Record sys := mkSys { live : gmap Z Z; next_id : Z }.

Section Sma.
Context (valloc_ok : sys -> Z -> bool).

Definition valloc (m : sys) (size : Z) : option Z * sys :=
  if valloc_ok m size
  then (Some (next_id m), mkSys (<[next_id m := size]> (live m)) (next_id m + 1))
  else (None, m).

Definition free (m : sys) (p : option Z) : sys :=
  match p with
  | None => m
  | Some b => mkSys (delete b (live m)) (next_id m)
  end.

Definition SMA_SetCurrentHeap (session : SMA_Session) (index : Z)
  : res sma_error SMA_Session :=
  _ ← assert_or AssertFailed (index <? heapStackSize session);
  h ← of_option OutOfBounds (zlookup (heapStack session) index);
  sz ← of_option OutOfBounds (zlookup (heapSizeStack session) index);
  Ok (mkSession (heapStackSize session) (heapStack session) (heapSizeStack session)
        h index sz sz).

Definition SMA_AllocateNewHeap (session : SMA_Session) (m : sys) (index size : Z)
  : res sma_error (SMA_Session * sys) :=
  _ ← assert_or AssertFailed ((0 <=? index) && (index <? heapStackSize session));
  _ ← assert_or AssertFailed (0 <? size);
  old ← of_option OutOfBounds (zlookup (heapStack session) index);
  let m := match old with Some b => free m (Some b) | None => m end in
  let '(p, m) := valloc m size in
  hs ← of_option OutOfBounds (zstore (heapStack session) index p);
  szs ← of_option OutOfBounds (zstore (heapSizeStack session) index size);
  match p with
  | None => Err InsufficientMemory
  | Some _ =>
      Ok (mkSession (heapStackSize session) hs szs (currentHeap session)
            (currentHeapIndex session) (currentHeapSize session)
            (currentHeapFreeSize session), m)
  end.

(** The session object before [SMA_InitSession] holds arbitrary values; the
    function overwrites the arrays and the stack size and then the rest. *)
Definition SMA_InitSession (m : sys) (initial_size : Z)
  : res sma_error (SMA_Session * sys) :=
  let session :=
    mkSession 1 (replicate (Z.to_nat SMA_MAX_SIZE_OF_HEAP_STACK) None)
      (replicate (Z.to_nat SMA_MAX_SIZE_OF_HEAP_STACK) 0) None 0 0 0 in
  '(session, m) ← SMA_AllocateNewHeap session m 0 initial_size;
  session ← SMA_SetCurrentHeap session 0;
  Ok (session, m).

Definition SMA_RestartSession (session : SMA_Session) : res sma_error SMA_Session :=
  h ← of_option OutOfBounds (zlookup (heapStack session) 0);
  sz ← of_option OutOfBounds (zlookup (heapSizeStack session) 0);
  Ok (mkSession (heapStackSize session) (heapStack session) (heapSizeStack session)
        h 0 sz sz).

(** [while (new_heap_size < size) new_heap_size *= 2;] on a 32-bit [int]. *)
Fixpoint double_until (fuel : nat) (new_heap_size size : Z) : option Z :=
  if new_heap_size <? size then
    match fuel with
    | O => None
    | S fuel' => double_until fuel' (s32 (new_heap_size * 2)) size
    end
  else Some new_heap_size.

(** Thirty-two doublings overflow every positive [int]. *)
Definition double_fuel : nat := 32.

Definition SMA_IncreaseHeap (session : SMA_Session) (m : sys) (size : Z)
  : res sma_error (SMA_Session * sys) :=
  if currentHeapIndex session <? heapStackSize session - 1 then
    session ← SMA_SetCurrentHeap session (currentHeapIndex session + 1);
    if currentHeapFreeSize session <? size then
      let new_heap_size := s32 (currentHeapSize session * 2) in
      new_heap_size ← of_option Diverges (double_until double_fuel new_heap_size size);
      '(session, m) ← SMA_AllocateNewHeap session m (currentHeapIndex session) new_heap_size;
      session ← SMA_SetCurrentHeap session (currentHeapIndex session);
      _ ← assert_or AssertFailed (size <? currentHeapFreeSize session);
      Ok (session, m)
    else Ok (session, m)
  else
    let new_heap_size := s32 (currentHeapSize session * 2) in
    let session := mkSession (heapStackSize session + 1) (heapStack session)
      (heapSizeStack session) (currentHeap session) (currentHeapIndex session)
      (currentHeapSize session) (currentHeapFreeSize session) in
    new_heap_size ← of_option Diverges (double_until double_fuel new_heap_size size);
    '(session, m) ← SMA_AllocateNewHeap session m (heapStackSize session - 1) new_heap_size;
    session ← SMA_SetCurrentHeap session (heapStackSize session - 1);
    _ ← assert_or AssertFailed (size <? currentHeapFreeSize session);
    Ok (session, m).

(** The pointer returned is a block with an offset. *)
Definition SMA_Alloc (session : SMA_Session) (m : sys) (size : Z)
  : res sma_error ((option Z * Z) * SMA_Session * sys) :=
  let size := Z.land (s32 (size + 8)) (-8) in
  _ ← assert_or AssertFailed (size <? INT_MAX / 2);
  '(session, m) ←
    (if currentHeapFreeSize session <? size
     then SMA_IncreaseHeap session m size else Ok (session, m));
  let free_index := currentHeapSize session - currentHeapFreeSize session in
  let session' := mkSession (heapStackSize session) (heapStack session)
    (heapSizeStack session) (currentHeap session) (currentHeapIndex session)
    (currentHeapSize session) (currentHeapFreeSize session - size) in
  Ok ((currentHeap session, free_index), session', m).

Fixpoint free_loop (session : SMA_Session) (m : sys) (i : Z) (n : nat)
  : res sma_error sys :=
  match n with
  | O => Ok m
  | S n' =>
      p ← of_option OutOfBounds (zlookup (heapStack session) i);
      free_loop session (free m p) (i + 1) n'
  end.

Definition SMA_EndSession (session : SMA_Session) (m : sys) : res sma_error sys :=
  free_loop session m 0 (Z.to_nat (heapStackSize session)).

End Sma.

Arguments valloc : simpl never.

(** ** Invariant

    [session_wf s m]: the first [heapStackSize] slots hold distinct live
    blocks of the recorded sizes, positive multiples of eight; the rest are NULL; the
    current block is the one at [currentHeapIndex] and its free part is a
    multiple of eight. *)

Record session_wf (s : SMA_Session) (m : sys) : Prop := {
  wf_len : length (heapStack s) = 15%nat;
  wf_slen : length (heapSizeStack s) = 15%nat;
  wf_top : 1 <= heapStackSize s <= 15;
  wf_idx : 0 <= currentHeapIndex s < heapStackSize s;
  wf_cur : zlookup (heapStack s) (currentHeapIndex s) = Some (currentHeap s);
  wf_size : zlookup (heapSizeStack s) (currentHeapIndex s) = Some (currentHeapSize s);
  wf_free : 0 <= currentHeapFreeSize s <= currentHeapSize s /\
            (8 | currentHeapFreeSize s);
  wf_blocks : forall i, 0 <= i < heapStackSize s -> exists b sz,
    zlookup (heapStack s) i = Some (Some b) /\ zlookup (heapSizeStack s) i = Some sz /\
    live m !! b = Some sz /\ b < next_id m;
  wf_inj : forall i j b, zlookup (heapStack s) i = Some (Some b) ->
    zlookup (heapStack s) j = Some (Some b) -> i = j;
  wf_rest : forall i, heapStackSize s <= i < 15 ->
    zlookup (heapStack s) i = Some None;
  wf_sizes : forall i sz, 0 <= i < heapStackSize s ->
    zlookup (heapSizeStack s) i = Some sz -> 0 < sz < 2 ^ 31 /\ (8 | sz) }.

(** A chunk handed out: block, offset and length. *)
Record chunk := mkChunk { ck_block : Z; ck_off : Z; ck_len : Z }.

Definition disjoint_chunk (c d : chunk) : Prop :=
  ck_block c <> ck_block d \/ ck_off c + ck_len c <= ck_off d \/
  ck_off d + ck_len d <= ck_off c.

(** [chunks_ok s cs]: the chunks handed out since the last restart lie inside
    the blocks up to the current one, in the current one below the free part. *)
Definition chunk_ok (s : SMA_Session) (c : chunk) : Prop :=
  exists i sz, 0 <= i <= currentHeapIndex s /\
    zlookup (heapStack s) i = Some (Some (ck_block c)) /\ zlookup (heapSizeStack s) i = Some sz /\
    0 <= ck_off c /\ 0 < ck_len c /\ ck_off c + ck_len c <= sz /\
    (i = currentHeapIndex s ->
       ck_off c + ck_len c <= currentHeapSize s - currentHeapFreeSize s).

Definition chunks_ok (s : SMA_Session) (cs : list chunk) : Prop :=
  Forall (chunk_ok s) cs /\ ForallOrdPairs disjoint_chunk cs.

(** ** Lemmas *)

Lemma round8_spec size : 0 <= size < 2 ^ 31 - 8 ->
  let r := Z.land (s32 (size + 8)) (-8) in size < r <= size + 8 /\ (8 | r).
Proof.
  intros H. rewrite wraps_small by (try lia; split; simpl; lia).
  change (-8) with (- 2 ^ 3). rewrite land_neg_pow2 by lia.
  change (2 ^ 3) with 8. split; [dmlia|]. by exists ((size + 8) / 8); lia.
Qed.

Lemma divide8_double n : (8 | n) -> (8 | n * 2).
Proof. intros [k ->]. exists (k * 2). lia. Qed.

(** The doubling loop ends, without overflow, at the first double that is
    large enough. *)
Lemma double_until_spec size fuel : forall n,
  size < 2 ^ 30 -> 0 < n < 2 ^ 31 -> size <= n * 2 ^ Z.of_nat fuel ->
  exists r, double_until fuel n size = Some r /\ size <= r < 2 ^ 31 /\ 0 < r /\
    ((8 | n) -> (8 | r)).
Proof.
  induction fuel as [|fuel IH]; intros n Hs Hn Hp; cbn [double_until].
  - change (2 ^ Z.of_nat 0) with 1 in Hp. case_test; [lia|]. exists n. split_and!; done || lia.
  - case_test; [|exists n; split_and!; done || lia].
    rewrite wraps_small by (try lia; split; simpl; lia).
    rewrite Nat2Z.inj_succ, Z.pow_succ_r in Hp by lia.
    destruct (IH (n * 2)) as (r & ? & ? & ? & Hd); [lia..|].
    exists r. split_and!; auto using divide8_double; lia.
Qed.

Lemma double_until_total size n :
  size < 2 ^ 30 -> 0 < n < 2 ^ 31 ->
  exists r, double_until double_fuel n size = Some r /\ size <= r < 2 ^ 31 /\ 0 < r /\
    ((8 | n) -> (8 | r)).
Proof.
  intros. apply double_until_spec; [lia..|]. change (2 ^ Z.of_nat double_fuel) with (2 ^ 32). lia.
Qed.

Arguments double_until : simpl never.

Lemma set_current_inv s i s' :
  SMA_SetCurrentHeap s i = Ok s' ->
  exists h sz, i < heapStackSize s /\ zlookup (heapStack s) i = Some h /\
    zlookup (heapSizeStack s) i = Some sz /\
    s' = mkSession (heapStackSize s) (heapStack s) (heapSizeStack s) h i sz sz.
Proof. unfold SMA_SetCurrentHeap. intros H. inv_res. eexists _, _. split_and!; try done. lia. Qed.

Lemma set_current_ok s i h sz :
  i < heapStackSize s -> zlookup (heapStack s) i = Some h ->
  zlookup (heapSizeStack s) i = Some sz ->
  SMA_SetCurrentHeap s i =
    Ok (mkSession (heapStackSize s) (heapStack s) (heapSizeStack s) h i sz sz).
Proof.
  intros Hi Hh Hs. unfold SMA_SetCurrentHeap. rewrite Hh, Hs.
  by destruct (Z.ltb_spec i (heapStackSize s)); [|lia].
Qed.

Lemma alloc_new_inv ok s m i size s' m' :
  SMA_AllocateNewHeap ok s m i size = Ok (s', m') ->
  exists old hs szs, 0 <= i < heapStackSize s /\ 0 < size /\
    zlookup (heapStack s) i = Some old /\
    zstore (heapStack s) i (Some (next_id m)) = Some hs /\
    zstore (heapSizeStack s) i size = Some szs /\
    s' = mkSession (heapStackSize s) hs szs (currentHeap s) (currentHeapIndex s)
           (currentHeapSize s) (currentHeapFreeSize s) /\
    m' = mkSys (<[next_id m := size]> (live (free m old))) (next_id m + 1).
Proof.
  unfold SMA_AllocateNewHeap. intros H. inv_res.
  match goal with E : zlookup (heapStack s) i = Some ?old |- _ => rename old into o end.
  unfold valloc in *. exists o. destruct o as [b|]; simpl in *;
    match goal with H : context [ok ?a ?b] |- _ => destruct (ok a b); simpl in *; inv_res end;
    eexists _, _; split_and!; try done; lia.
Qed.

(** The session that [SMA_IncreaseHeap] builds with a fresh block at the next
    index. *)
Definition push_block (s : SMA_Session) (m : sys) (i sz : Z) : SMA_Session :=
  mkSession (Z.max (heapStackSize s) (i + 1)) (<[Z.to_nat i := Some (next_id m)]> (heapStack s))
    (<[Z.to_nat i := sz]> (heapSizeStack s)) (Some (next_id m)) i sz sz.

Lemma push_block_lookup s m i sz j : 0 <= i < Z.of_nat (length (heapStack s)) ->
  zlookup (heapStack (push_block s m i sz)) j =
    if i =? j then Some (Some (next_id m)) else zlookup (heapStack s) j.
Proof. intros. by apply zlookup_zstore, zstore_is_Some. Qed.

Lemma push_block_slookup s m i sz j : 0 <= i < Z.of_nat (length (heapSizeStack s)) ->
  zlookup (heapSizeStack (push_block s m i sz)) j =
    if i =? j then Some sz else zlookup (heapSizeStack s) j.
Proof. intros. by apply zlookup_zstore, zstore_is_Some. Qed.

Lemma stack_block_live s m i b : session_wf s m ->
  zlookup (heapStack s) i = Some (Some b) ->
  live m !! b = zlookup (heapSizeStack s) i /\ b < next_id m.
Proof.
  intros Hwf Hb. apply zlookup_bound in Hb as Hi. rewrite (wf_len _ _ Hwf) in Hi.
  destruct (Z.lt_ge_cases i (heapStackSize s)).
  - destruct (wf_blocks _ _ Hwf i) as (b' & sz & E & Es & El & ?); [lia|].
    rewrite E in Hb. injection Hb as ->. by rewrite Es, El.
  - rewrite (wf_rest _ _ Hwf i) in Hb by lia. discriminate.
Qed.

Lemma push_block_wf s m old sz m' :
  let i := currentHeapIndex s + 1 in
  session_wf s m -> i < 15 -> 0 < sz < 2 ^ 31 -> (8 | sz) ->
  zlookup (heapStack s) i = Some old ->
  m' = mkSys (<[next_id m := sz]> (live (free m old))) (next_id m + 1) ->
  session_wf (push_block s m i sz) m'.
Proof.
  intros i Hwf Hi Hsz H8 Hold ->. pose proof (wf_idx _ _ Hwf). pose proof (wf_top _ _ Hwf).
  pose proof (wf_len _ _ Hwf) as HL. pose proof (wf_slen _ _ Hwf) as HS.
  assert (Hlk := fun j => push_block_lookup s m i sz j ltac:(lia)).
  assert (Hslk := fun j => push_block_slookup s m i sz j ltac:(lia)).
  assert (Hnew : forall j b, zlookup (heapStack s) j = Some (Some b) -> b < next_id m)
    by (intros; by eapply stack_block_live).
  split.
  - by simpl; rewrite length_insert.
  - by simpl; rewrite length_insert.
  - simpl. lia.
  - simpl. lia.
  - rewrite Hlk. simpl. by rewrite Z.eqb_refl.
  - rewrite Hslk. simpl. by rewrite Z.eqb_refl.
  - simpl. split; [lia|done].
  - intros j Hj. rewrite Hlk, Hslk. destruct (Z.eqb_spec i j) as [<-|Hij].
    + exists (next_id m), sz. simpl. rewrite lookup_insert_eq. split_and!; [done..|lia].
    + destruct (wf_blocks _ _ Hwf j) as (b & z & Hb & Hz & Hbl & Hbn); [simpl in Hj; lia|].
      exists b, z. split_and!; [done|done| |simpl; lia]. simpl. rewrite lookup_insert_ne by lia.
      destruct old as [o|]; simpl; [|done].
      assert (b <> o) by (intros ->; apply Hij; eapply (wf_inj _ _ Hwf); eauto). by rewrite lookup_delete_ne.
  - intros j k b. rewrite !Hlk.
    destruct (Z.eqb_spec i j), (Z.eqb_spec i k); intros E1 E2; subst; try done.
    + injection E1 as <-. apply Hnew in E2. lia.
    + injection E2 as <-. apply Hnew in E1. lia.
    + by eapply (wf_inj _ _ Hwf).
  - simpl. intros j Hj. rewrite Hlk. case_test; [lia|]. apply (wf_rest _ _ Hwf). lia.
  - simpl. intros j z Hj. rewrite Hslk. case_test; [naive_solver|].
    apply (wf_sizes _ _ Hwf). lia.
Qed.

(** Moving to a block that is already on the stack. *)
Lemma advance_wf s m i h sz : session_wf s m -> 0 <= i < heapStackSize s ->
  zlookup (heapStack s) i = Some h -> zlookup (heapSizeStack s) i = Some sz ->
  session_wf (mkSession (heapStackSize s) (heapStack s) (heapSizeStack s) h i sz sz) m.
Proof.
  intros [] Hi Hh Hsz. split; simpl; try done.
  destruct (wf_sizes0 i sz) as [? ?]; [done..|]. split; [lia|done].
Qed.

(** Whatever way the current block changes to the next index, the chunks
    handed out before stay in the blocks below it. *)
Lemma chunks_ok_advance s s' cs :
  chunks_ok s cs -> currentHeapIndex s' = currentHeapIndex s + 1 ->
  (forall j, 0 <= j <= currentHeapIndex s ->
     zlookup (heapStack s') j = zlookup (heapStack s) j /\
     zlookup (heapSizeStack s') j = zlookup (heapSizeStack s) j) ->
  chunks_ok s' cs.
Proof.
  intros [Hc Hd] Hi Hlk. split; [|done]. eapply Forall_impl; [exact Hc|].
  intros c (j & sz & ? & Hb & Hs & ? & ? & ? & _). exists j, sz. destruct (Hlk j) as [-> ->]; [lia|].
  split_and!; [lia..|done|done|lia|done|done|lia].
Qed.

(** What a successful [SMA_IncreaseHeap] establishes. *)
Definition increased (s s' : SMA_Session) (m' : sys) (size : Z) : Prop :=
  session_wf s' m' /\ currentHeapIndex s' = currentHeapIndex s + 1 /\
  size <= currentHeapFreeSize s' /\ currentHeapFreeSize s' = currentHeapSize s' /\
  (forall j, 0 <= j <= currentHeapIndex s ->
     zlookup (heapStack s') j = zlookup (heapStack s) j /\
     zlookup (heapSizeStack s') j = zlookup (heapSizeStack s) j).

Lemma push_block_increased s m old sz m' size :
  session_wf s m -> currentHeapIndex s + 1 < 15 -> 0 < sz < 2 ^ 31 -> (8 | sz) ->
  zlookup (heapStack s) (currentHeapIndex s + 1) = Some old ->
  m' = mkSys (<[next_id m := sz]> (live (free m old))) (next_id m + 1) -> size <= sz ->
  increased s (push_block s m (currentHeapIndex s + 1) sz) m' size.
Proof.
  intros Hwf. intros. split; [by eapply push_block_wf|]. pose proof (wf_idx _ _ Hwf).
  split_and!; try done. intros j ?. rewrite push_block_lookup, push_block_slookup; [zcmps|..].
  - rewrite (wf_slen _ _ Hwf). lia.
  - rewrite (wf_len _ _ Hwf). lia.
Qed.

Lemma s32_double_8 n : 0 < n < 2 ^ 30 -> (8 | n) ->
  s32 (n * 2) = n * 2 /\ 0 < n * 2 < 2 ^ 31 /\ (8 | n * 2).
Proof.
  intros. rewrite wraps_small by (try lia; split; simpl; lia).
  split_and!; [done|lia|lia|by apply divide8_double].
Qed.

(** Every block of the session can still be doubled in 32 bits. *)
Definition doublable (s : SMA_Session) : Prop :=
  forall i sz, zlookup (heapSizeStack s) i = Some sz -> sz < 2 ^ 30.

Lemma alloc_new_frame ok s m i size s' m' :
  SMA_AllocateNewHeap ok s m i size = Ok (s', m') ->
  currentHeapIndex s' = currentHeapIndex s /\ heapStackSize s' = heapStackSize s.
Proof. by intros (?&?&?&?&?&?&?&?&->&->)%alloc_new_inv. Qed.

(** Growing the stack by a fresh block, the part the two branches share. *)
Lemma grow_inv ok s s0 m i sz size s1 m1 s2 :
  session_wf s m ->
  SMA_AllocateNewHeap ok s0 m i sz = Ok (s1, m1) -> SMA_SetCurrentHeap s1 i = Ok s2 ->
  heapStack s0 = heapStack s -> heapSizeStack s0 = heapSizeStack s ->
  i = currentHeapIndex s + 1 -> heapStackSize s0 = Z.max (heapStackSize s) (i + 1) ->
  0 < size < 2 ^ 30 -> 0 < sz < 2 ^ 31 -> (8 | sz) -> size <= sz ->
  increased s s2 m1 size.
Proof.
  intros Hwf E1 E2 Ehs Ess -> Etop ? ? ? ?.
  apply alloc_new_inv in E1 as (old & hs & szs & ? & ? & Hold & Hst & Hsst & -> & ->).
  apply set_current_inv in E2 as (h1 & sz1 & ? & Hh1 & Hs1 & ->). simpl in *.
  rewrite (zlookup_zstore _ _ _ _ _ Hst), Z.eqb_refl in Hh1.
  rewrite (zlookup_zstore _ _ _ _ _ Hsst), Z.eqb_refl in Hs1. simplify_eq.
  rewrite Ehs in *. rewrite Ess in *. rewrite Etop.
  apply zlookup_bound in Hold as ?. rewrite (wf_len _ _ Hwf) in *.
  apply zstore_Some in Hst as [_ ->]. apply zstore_Some in Hsst as [_ ->].
  by eapply push_block_increased; [done|lia|..].
Qed.

Lemma increase_spec ok s m size s' m' :
  session_wf s m -> doublable s -> 0 < size < 2 ^ 30 ->
  SMA_IncreaseHeap ok s m size = Ok (s', m') -> increased s s' m' size.
Proof.
  intros Hwf Hdb Hsz. pose proof (wf_idx _ _ Hwf).
  unfold SMA_IncreaseHeap. case_test; intros H2; inv_res.
  - apply set_current_inv in E as (h & sz & ? & Hh & Hs & ->). simpl in *.
    destruct (wf_sizes _ _ Hwf (currentHeapIndex s + 1) sz) as [Hp H8]; [lia|done|].
    case_test_in H2; inv_res.
    + destruct (s32_double_8 sz) as (Ed & ? & ?); [split; [lia|by eapply Hdb]|done|].
      rewrite Ed in *.
      destruct (double_until_total size (sz * 2)) as (r & Er & ? & ? & H8r); [lia..|].
      rewrite Er in *. simplify_eq.
      inv_res.
      match goal with Ea : SMA_AllocateNewHeap _ _ _ _ _ = Ok _,
                      Es : SMA_SetCurrentHeap _ _ = Ok _ |- _ =>
        destruct (alloc_new_frame _ _ _ _ _ _ _ Ea) as [Ei _];
        simpl in Ei; rewrite Ei in Es;
        apply (grow_inv _ s _ m _ _ size _ _ _ Hwf Ea Es)
      end; simpl; auto; lia.
    + split; [apply advance_wf; done || lia|]. by split_and!.
  - destruct (wf_sizes _ _ Hwf (currentHeapIndex s) (currentHeapSize s)) as [Hp H8];
      [lia|apply wf_size with m; done|].
    destruct (s32_double_8 (currentHeapSize s)) as (Ed & ? & ?).
    { split; [lia|]. eapply Hdb, wf_size. done. } { done. }
    rewrite Ed in *.
    destruct (double_until_total size (currentHeapSize s * 2)) as (r & Er & ? & ? & H8r); [lia..|].
    rewrite Er in *. simplify_eq.
    inv_res.
    match goal with Ea : SMA_AllocateNewHeap _ _ _ _ _ = Ok _,
                    Es : SMA_SetCurrentHeap _ _ = Ok _ |- _ =>
      destruct (alloc_new_frame _ _ _ _ _ _ _ Ea) as [_ Et];
      simpl in Et; rewrite Et in Es; simpl in Ea;
      apply (grow_inv _ s _ m _ _ size _ _ _ Hwf Ea Es)
    end; simpl; auto; lia.
Qed.

(** ** Allocation *)

Lemma in_free_chunk s m b size : session_wf s m -> currentHeap s = Some b ->
  0 < size <= currentHeapFreeSize s -> (8 | size) -> forall cs, chunks_ok s cs ->
  let off := currentHeapSize s - currentHeapFreeSize s in
  let s' := mkSession (heapStackSize s) (heapStack s) (heapSizeStack s) (currentHeap s)
    (currentHeapIndex s) (currentHeapSize s) (currentHeapFreeSize s - size) in
  session_wf s' m /\ chunks_ok s' (mkChunk b off size :: cs).
Proof.
  intros Hwf Hb Hsz H8 cs [Hc Hd]. pose proof (wf_free _ _ Hwf) as [? Hf8].
  pose proof (wf_idx _ _ Hwf). pose proof (wf_cur _ _ Hwf) as Hcur. rewrite Hb in Hcur. split.
  - destruct Hwf. split; simpl; try done. split; [lia|by apply Z.divide_sub_r].
  - split.
    + constructor.
      * exists (currentHeapIndex s), (currentHeapSize s). simpl.
        split_and!; try done; try lia. by eapply wf_size.
      * eapply Forall_impl; [exact Hc|]. intros c (j & sz & ? & ? & ? & ? & ? & ? & Hj). exists j, sz. simpl.
        split_and!; try done; lia.
    + constructor; [|done]. eapply Forall_impl; [exact Hc|].
      intros c (j & sz & ? & Hjb & ? & ? & ? & ? & Hj). unfold disjoint_chunk. simpl.
      destruct (decide (j = currentHeapIndex s)) as [->|]; [specialize (Hj eq_refl); lia|].
      left. intros ->. apply n. by eapply (wf_inj _ _ Hwf).
Qed.

Lemma alloc_step ok s m size p s' m' cs :
  session_wf s m -> chunks_ok s cs -> doublable s -> 0 <= size < 2 ^ 30 - 8 ->
  SMA_Alloc ok s m size = Ok (p, s', m') ->
  exists b r, p.1 = Some b /\ r = Z.land (s32 (size + 8)) (-8) /\
    size < r <= size + 8 /\ (8 | p.2) /\ live m' !! b = Some (currentHeapSize s') /\ 0 <= p.2 /\ p.2 + r <= currentHeapSize s' /\
    session_wf s' m' /\ chunks_ok s' (mkChunk b p.2 r :: cs).
Proof.
  intros Hwf Hcs Hdb Hsz H. unfold SMA_Alloc in H.
  destruct (round8_spec size) as [Hr H8]; [lia|].
  set (r := Z.land (s32 (size + 8)) (-8)) in *. inv_res.
  match goal with E0 : _ = Ok (?a, ?b) |- _ => rename a into s1, b into m1, E0 into E end.
  assert (Hs1 : session_wf s1 m1 /\ chunks_ok s1 cs /\ r <= currentHeapFreeSize s1).
  { case_test_in E; inv_res; [|by split_and!; try lia].
    apply increase_spec in E as (? & Hi & ? & ? & Hlk); [|done..|].
    - split_and!; [done| |done]. by eapply chunks_ok_advance.
    - change (INT_MAX / 2) with (2 ^ 30 - 1) in *. lia. }
  destruct Hs1 as (Hwf1 & Hcs1 & Hfit). pose proof (wf_free _ _ Hwf1) as [? Hf8].
  destruct (wf_blocks _ _ Hwf1 (currentHeapIndex s1)) as (b & n & Hb & Hn & Hbl & _);
    [apply (wf_idx _ _ Hwf1)|].
  rewrite (wf_cur _ _ Hwf1) in Hb. injection Hb as Hb.
  rewrite (wf_size _ _ Hwf1) in Hn. injection Hn as <-.
  destruct (wf_sizes _ _ Hwf1 (currentHeapIndex s1) (currentHeapSize s1)) as [? ?];
    [apply (wf_idx _ _ Hwf1)|apply (wf_size _ _ Hwf1)|].
  destruct (in_free_chunk s1 m1 b r Hwf1 Hb ltac:(lia) H8 cs Hcs1) as [? ?].
  exists b, r. simpl. split_and!; try done; try lia. by apply Z.divide_sub_r.
Qed.

Lemma init_spec ok m0 size s m :
  (forall b, is_Some (live m0 !! b) -> b < next_id m0) -> 0 < size < 2 ^ 31 -> (8 | size) ->
  SMA_InitSession ok m0 size = Ok (s, m) -> session_wf s m /\ currentHeapIndex s = 0.
Proof.
  intros Hm Hsz H8 H. unfold SMA_InitSession in H. inv_res.
  match goal with E : SMA_AllocateNewHeap _ _ _ _ _ = Ok _ |- _ =>
    apply alloc_new_inv in E as (old & hs & szs & ? & ? & Hold & Hst & Hsst & -> & ->) end.
  match goal with E : SMA_SetCurrentHeap _ _ = Ok _ |- _ =>
    apply set_current_inv in E as (h1 & sz1 & ? & Hh1 & Hs1 & ->) end.
  cbn [heapStack heapSizeStack heapStackSize] in *.
  assert (Hlk := fun j => zlookup_zstore _ _ 0 j _ Hst).
  assert (Hslk := fun j => zlookup_zstore _ _ 0 j _ Hsst).
  assert (Hrep : forall j, 0 < j < 15 -> zlookup (replicate (Z.to_nat 15) (@None Z)) j = Some None).
  { intros j ?. apply zlookup_Some. split; [lia|]. apply lookup_replicate_2. lia. }
  rewrite Hlk in Hh1. rewrite Hslk in Hs1. simpl in Hh1, Hs1. simplify_eq.
  split; [|done]. split; cbn [heapStack heapSizeStack heapStackSize currentHeap
    currentHeapIndex currentHeapSize currentHeapFreeSize].
  - by apply zstore_length in Hst.
  - by apply zstore_length in Hsst.
  - lia.
  - lia.
  - by rewrite Hlk.
  - by rewrite Hslk.
  - split; [lia|done].
  - intros i ?. assert (i = 0) as -> by lia. rewrite Hlk, Hslk. simpl.
    eexists _, _. split_and!; [done|done|apply lookup_insert_eq|lia].
  - intros i j b. rewrite !Hlk.
    assert (Hno : forall k, zlookup (replicate (Z.to_nat SMA_MAX_SIZE_OF_HEAP_STACK) (@None Z)) k
              = Some (Some b) -> False).
    { intros k [_ Hk]%zlookup_Some. apply lookup_replicate_1 in Hk as [? _]. done. }
    destruct (Z.eqb_spec 0 i), (Z.eqb_spec 0 j); intros; subst; try done; exfalso; eauto.
  - intros i ?. rewrite Hlk. case_test; [lia|]. apply Hrep. lia.
  - intros i sz ?. assert (i = 0) as -> by lia. rewrite Hslk. simpl. naive_solver.
Qed.

Lemma restart_spec s m s' : session_wf s m -> SMA_RestartSession s = Ok s' ->
  session_wf s' m /\ currentHeapIndex s' = 0.
Proof.
  intros Hwf H. unfold SMA_RestartSession in H. inv_res. split; [|done].
  pose proof (wf_top _ _ Hwf). apply advance_wf; done || lia.
Qed.

(** ** Sessions as traces

    [session_run ok s m cs]: the session [s] and heap [m] are reached from an
    initialised session by allocations and restarts, and [cs] are the chunks
    handed out since the last restart. *)
Inductive session_run (ok : sys -> Z -> bool) : SMA_Session -> sys -> list chunk -> Prop :=
| run_init m0 size s m :
    (forall b, is_Some (live m0 !! b) -> b < next_id m0) -> 0 < size < 2 ^ 31 -> (8 | size) ->
    SMA_InitSession ok m0 size = Ok (s, m) -> session_run ok s m []
| run_alloc s m cs size b off s' m' :
    session_run ok s m cs -> doublable s -> 0 <= size < 2 ^ 30 - 8 ->
    SMA_Alloc ok s m size = Ok ((Some b, off), s', m') ->
    session_run ok s' m' (mkChunk b off (Z.land (s32 (size + 8)) (-8)) :: cs)
| run_restart s m cs s' :
    session_run ok s m cs -> SMA_RestartSession s = Ok s' -> session_run ok s' m [].

Lemma run_invariant ok s m cs : session_run ok s m cs -> session_wf s m /\ chunks_ok s cs.
Proof.
  induction 1 as [m0 size s m ? ? ? H|s m cs size b off s' m' _ [Hwf Hcs] ? ? H|s m cs s' _ [Hwf _] H].
  - apply init_spec in H as [? _]; [|done..]. split; [done|]. split; constructor.
  - eapply alloc_step in H as (b' & r & Eb & Er & H); [|done..]. simpl in *. simplify_eq.
    destruct H as (_ & _ & _ & _ & _ & ? & ?). done.
  - eapply restart_spec in H as [? _]; [|done]. split; [done|]. split; constructor.
Qed.

(** C14: in every state a session can reach by allocations and restarts, the
    chunks handed out since the last restart are pairwise disjoint and lie
    inside heap blocks that are still allocated: each starts at an offset that
    is not negative and ends within the size its block was allocated with. *)
Theorem SMA_chunks_disjoint ok s m cs (Hrun : session_run ok s m cs) :
  ForallOrdPairs disjoint_chunk cs /\
  Forall (fun c => exists n, live m !! ck_block c = Some n /\
    0 <= ck_off c /\ 0 < ck_len c /\ ck_off c + ck_len c <= n) cs.
Proof.
  destruct (run_invariant _ _ _ _ Hrun) as [Hwf [Hc Hd]]. split; [done|].
  eapply Forall_impl; [exact Hc|]. intros c (i & sz & ? & Hb & Hs & ? & ? & ? & _).
  exists sz. rewrite <- Hs. split; [by eapply stack_block_live|done].
Qed.

(** With memory available, installing a new block at a free index succeeds. *)
Lemma grow_ok ok s m i sz : (forall m' n, ok m' n = true) ->
  length (heapStack s) = 15%nat -> length (heapSizeStack s) = 15%nat ->
  0 <= i < heapStackSize s -> i < 15 -> 0 < sz ->
  exists s1 m1 s2, SMA_AllocateNewHeap ok s m i sz = Ok (s1, m1) /\
    currentHeapIndex s1 = currentHeapIndex s /\ heapStackSize s1 = heapStackSize s /\
    SMA_SetCurrentHeap s1 i = Ok s2 /\ currentHeapFreeSize s2 = sz.
Proof.
  intros Hok HL HS Hi Hi15 Hsz.
  destruct (zlookup_is_Some (heapStack s) i) as [old Hold]; [lia|].
  assert (Hst := fun x => zstore_is_Some (heapStack s) i x ltac:(lia)).
  assert (Hsst := zstore_is_Some (heapSizeStack s) i sz ltac:(lia)).
  unfold SMA_AllocateNewHeap, SMA_SetCurrentHeap, valloc.
  destruct (Z.leb_spec 0 i), (Z.ltb_spec i (heapStackSize s)), (Z.ltb_spec 0 sz); try lia.
  cbn -[zlookup zstore]. rewrite Hold. cbn -[zlookup zstore]. rewrite Hok.
  cbn -[zlookup zstore].
  rewrite Hst, Hsst. cbn -[zlookup zstore].
  eexists _, _, _. split; [done|]. cbn -[zlookup zstore].
  destruct (Z.ltb_spec i (heapStackSize s)); [|lia]. split_and!; [done..| |].
  - rewrite (zlookup_zstore _ _ _ _ _ (Hst _)), (zlookup_zstore _ _ _ _ _ Hsst), Z.eqb_refl.
    cbn. reflexivity.
  - done.
Qed.

Definition exact_double (s : SMA_Session) (r : Z) : Prop :=
  exists sz, sz ∈ heapSizeStack s /\ double_until double_fuel (s32 (sz * 2)) r = Some r.

Lemma zlookup_elem {A} (l : list A) i x : zlookup l i = Some x -> x ∈ l.
Proof. intros [_ ?]%zlookup_Some. by eapply list_elem_of_lookup_2. Qed.

Lemma increase_total ok s m size : (forall m' n, ok m' n = true) ->
  session_wf s m -> doublable s -> 0 < size < 2 ^ 30 -> heapStackSize s < 15 ->
  (exists s' m', SMA_IncreaseHeap ok s m size = Ok (s', m')) \/
  (SMA_IncreaseHeap ok s m size = Err AssertFailed /\ exact_double s size).
Proof.
  intros Hok Hwf Hdb Hsz Htop. pose proof (wf_idx _ _ Hwf) as Hidx.
  pose proof (wf_len _ _ Hwf) as HL. pose proof (wf_slen _ _ Hwf) as HS.
  assert (Hgrow : forall sz, (exists i, 0 <= i < heapStackSize s /\ zlookup (heapSizeStack s) i = Some sz) ->
    exists r, double_until double_fuel (s32 (sz * 2)) size = Some r /\ size <= r /\ 0 < r /\
      (size <? r = false -> exact_double s size)).
  { intros sz (i & Hi & Hs). destruct (wf_sizes _ _ Hwf i sz Hi Hs) as [? ?].
    destruct (s32_double_8 sz) as (Ed & ? & ?); [split; [lia|by eapply Hdb]|done|].
    destruct (double_until_total size (sz * 2)) as (r & Er & ? & ? & _); [lia..|].
    exists r. rewrite Ed. split_and!; [done|lia|lia|]. intros ?%Z.ltb_ge.
    exists sz. rewrite Ed. split; [by eapply zlookup_elem|]. rewrite Er. f_equal. lia. }
  unfold SMA_IncreaseHeap. case_test.
  - destruct (zlookup_is_Some (heapStack s) (currentHeapIndex s + 1)) as [h Hh]; [lia|].
    destruct (zlookup_is_Some (heapSizeStack s) (currentHeapIndex s + 1)) as [sz Hs]; [lia|].
    rewrite (set_current_ok s _ h sz) by (done || lia).
    cbn -[SMA_AllocateNewHeap SMA_SetCurrentHeap].
    case_test; [|eauto].
    destruct (Hgrow sz) as (r & Er & ? & ? & Hx);
      [by exists (currentHeapIndex s + 1); split; [lia|]|].
    rewrite Er. cbn -[SMA_AllocateNewHeap SMA_SetCurrentHeap].
    match goal with |- context [SMA_AllocateNewHeap ok ?s0 m ?i r] =>
      destruct (grow_ok ok s0 m i r) as (s1 & m1 & s2 & Ea & Ei & _ & Es & Ef);
        [done|done|done|simpl; lia|lia|lia|] end.
    rewrite Ea. cbn -[SMA_SetCurrentHeap]. rewrite Ei. cbn -[SMA_SetCurrentHeap]. rewrite Es.
    cbn. rewrite Ef. destruct (size <? r) eqn:?; cbn; eauto.
  - destruct (Hgrow (currentHeapSize s)) as (r & Er & ? & ? & Hx).
    { exists (currentHeapIndex s). split; [lia|]. apply (wf_size _ _ Hwf). }
    rewrite Er. cbn -[SMA_AllocateNewHeap SMA_SetCurrentHeap].
    match goal with |- context [SMA_AllocateNewHeap ok ?s0 m ?i r] =>
      destruct (grow_ok ok s0 m i r) as (s1 & m1 & s2 & Ea & _ & Et & Es & Ef);
        [done|done|done|simpl; lia|simpl; lia|lia|] end.
    cbn [heapStackSize] in *. rewrite Ea. cbn -[SMA_SetCurrentHeap]. rewrite Et, Es.
    cbn. rewrite Ef. destruct (size <? r) eqn:?; cbn; eauto.
Qed.

(** A request that fits the current block is served from it, a request
    that does not is served from a new or larger block: with memory available
    and fewer than fifteen blocks [SMA_Alloc] returns, the doubling loop
    included, an eight-byte aligned chunk of at least the requested size
    inside a live block, and keeps the session well formed.  The only other
    outcome is the failure of its own assertion, when the new block is exactly
    as large as the rounded request. *)
Theorem SMA_Alloc_total ok s m size
    (Hwf : session_wf s m) (Hdb : doublable s) (Hsz : 0 <= size < 2 ^ 30 - 16)
    (Htop : heapStackSize s < 15) (Hok : forall m' n, ok m' n = true) :
  let r := Z.land (s32 (size + 8)) (-8) in
  (exists b off s' m', SMA_Alloc ok s m size = Ok ((Some b, off), s', m') /\
     session_wf s' m' /\ live m' !! b = Some (currentHeapSize s') /\ (8 | off) /\ 0 <= off /\
     off + size < currentHeapSize s') \/
  (SMA_Alloc ok s m size = Err AssertFailed /\ currentHeapFreeSize s < r /\
     exact_double s r).
Proof.
  destruct (round8_spec size) as [Hr H8]; [lia|].
  assert (Hcase : (exists p s' m', SMA_Alloc ok s m size = Ok (p, s', m')) \/
    (SMA_Alloc ok s m size = Err AssertFailed /\
     currentHeapFreeSize s < Z.land (s32 (size + 8)) (-8) /\
     exact_double s (Z.land (s32 (size + 8)) (-8)))).
  { unfold SMA_Alloc. change (INT_MAX / 2) with (2 ^ 30 - 1).
    destruct (Z.ltb_spec (Z.land (s32 (size + 8)) (-8)) (2 ^ 30 - 1)); [|lia].
    cbn -[Z.land Z.pow]. case_test; [|cbn; eauto].
    destruct (increase_total ok s m (Z.land (s32 (size + 8)) (-8)))
      as [(s' & m' & E)|[E ?]]; [done..|lia|done| |]; rewrite E; cbn -[Z.land]; eauto 6. }
  destruct Hcase as [(p & s' & m' & E)|?]; [left|by right].
  destruct p as [h off]. pose proof E as E'.
  eapply (alloc_step ok s m size (h, off) s' m' []) in E'
    as (b & r & Eb & _ & ? & ? & ? & ? & ? & ? & _); [|done|split; constructor|done|lia].
  simpl in *. subst h. exists b, off, s', m'. split_and!; try done; lia.
Qed.

Definition always_ok : sys -> Z -> bool := fun _ _ => true.
Definition empty_sys : sys := mkSys ∅ 0.

(** A session of 16K after a first request of 100 bytes. *)
Definition sample_session : SMA_Session :=
  match SMA_InitSession always_ok empty_sys 16384 with
  | Ok (s, _) => s | Err _ => mkSession 0 [] [] None 0 0 0 end.
Definition sample_sys : sys := mkSys {[0 := 16384]} 1.

Lemma sample_doublable : doublable sample_session.
Proof.
  intros i sz [_ H]%zlookup_Some. apply list_elem_of_lookup_2 in H.
  assert (heapSizeStack sample_session = 16384 :: replicate 14 0) as E by reflexivity.
  rewrite E, list_elem_of_In in H. simpl in H. repeat (destruct H as [<-|H]; [lia|]). done.
Qed.

Lemma sample_wf : session_wf sample_session sample_sys.
Proof.
  destruct (init_spec always_ok empty_sys 16384 sample_session sample_sys) as [? _]; [..|done].
  - intros b [n Hn]. simpl in Hn. by rewrite lookup_empty in Hn.
  - lia.
  - by exists 2048.
  - reflexivity.
Qed.

Lemma SMA_chunks_disjoint_witness : exists s m c d,
  session_run always_ok s m [c; d] /\ disjoint_chunk c d.
Proof.
  assert (H0 : session_run always_ok sample_session sample_sys []).
  { eapply (run_init always_ok empty_sys 16384); [|lia|by exists 2048|reflexivity].
    intros b [n Hn]. simpl in Hn. by rewrite lookup_empty in Hn. }
  assert (H1 : exists s m, session_run always_ok s m [mkChunk 0 0 104] /\
    SMA_Alloc always_ok sample_session sample_sys 100 = Ok ((Some 0, 0), s, m) /\ doublable s).
  { eexists _, _. split; [|split; [reflexivity|exact sample_doublable]].
    exact (run_alloc _ _ _ _ 100 _ _ _ _ H0 sample_doublable ltac:(lia) eq_refl). }
  destruct H1 as (s & m & H1 & Es & Hd). vm_compute in Es. injection Es as <- <-.
  assert (H2 : exists s m, session_run always_ok s m [mkChunk 0 104 24; mkChunk 0 0 104]).
  { eexists _, _. exact (run_alloc _ _ _ _ 20 _ _ _ _ H1 Hd ltac:(lia) eq_refl). }
  destruct H2 as (s & m & H2). exists s, m, (mkChunk 0 104 24), (mkChunk 0 0 104).
  split; [exact H2|].
  destruct (SMA_chunks_disjoint always_ok s m _ H2) as [Hd2 _].
  inversion Hd2 as [|? ? Hf _]; subst. by inversion Hf.
Defined.

Lemma SMA_Alloc_total_witness :
  exists b off s' m', SMA_Alloc always_ok sample_session sample_sys 20000 = Ok ((Some b, off), s', m')
    /\ off + 20000 < currentHeapSize s'.
Proof.
  destruct (SMA_Alloc_total always_ok sample_session sample_sys 20000 sample_wf sample_doublable)
    as [(b & off & s' & m' & E & _ & _ & _ & _ & H)|(E & _)].
  - lia.
  - reflexivity.
  - done.
  - exists b, off, s', m'. split; [exact E|exact H].
  - vm_compute in E. discriminate E.
Defined.

(** A request whose rounded size equals the doubled block size makes the
    allocator's own assertion [currentHeapFreeSize > size] fail although the
    new block would hold it: a 16K session aborts on a request of 32760
    bytes, while one of 32752 or 32768 bytes is served. *)
Theorem SMA_exact_fit_aborts :
  SMA_Alloc always_ok sample_session sample_sys 32760 = Err AssertFailed /\
  is_ok (SMA_Alloc always_ok sample_session sample_sys 32752) = true /\
  is_ok (SMA_Alloc always_ok sample_session sample_sys 32768) = true.
Proof. repeat split; vm_compute; reflexivity. Qed.
