(* ===== verification/ClassInclusion.v ===== *)
(** * Class inclusion test (src/runtime/class_inclusion_test.c)

    Every linked class gets a column number [pos] and a row of bits; bit [pos d]
    of the row of [c] says that [c] is a subclass of [d].  Rows are allocated
    with [bitvec_size] words and reallocated, five words longer, when the
    columns run out.

    The fields of the class objects that the code only reads (superclass,
    interfaces, element type, ...) are a table [H]; the mutable part is the
    record [CIT]: the column counter, the row width, the two class lists and,
    for each class, its [TypeRep].  Rows live in a store [mem] and are referred
    to by address, because the virtual table of a class holds a second pointer
    to the same row.  [None] is an access through a null pointer or past the
    end of a row. *)

From S2P Require Import Prelude BitVector.

Definition INITIAL_BITVEC_SIZE : Z := 5.
Definition EXPAND_BITVEC_SIZE : Z := 5.

(** An array class has an element type, a component type and a dimension. *)
Inductive class_kind :=
| NormalClass
| ArrayClass (elem comp : Z) (dim : Z).

Record class_info := mkClass {
  superclass : option Z;
  interfaces : list Z;
  is_primitive : bool;
  has_vtable : bool;
  kind : class_kind }.

Record CIT := mkCIT {
  column_idx : Z;
  bitvec_size : Z;
  NormalHead : list Z;
  ArrayHead : list Z;
  pos : gmap Z Z;
  rowptr : gmap Z Z;
  vtrow : gmap Z Z;
  mem : gmap Z (list Z);
  next_row : Z;
  encoding : gmap Z Z }.

Definition CIT_init : CIT :=
  mkCIT 0 INITIAL_BITVEC_SIZE [] [] ∅ ∅ ∅ ∅ 0 ∅.

Definition set_ith_bit (row : list Z) (p : Z) : option (list Z) :=
  let w := Z.shiftr p 5 in
  x ← zlookup row w;
  zstore row w (Z.lor x (u32 (Z.shiftl 1 (31 - Z.land p 0x1f)))).

Definition is_ith_bit_set (row : list Z) (p : Z) : option bool :=
  x ← zlookup row (Z.shiftr p 5);
  Some (negb (Z.land x (u32 (Z.shiftl 1 (31 - Z.land p 0x1f))) =? 0)).

(** [pos] of a [TypeRep] that was never filled in is zero. *)
Definition get_pos (st : CIT) (c : Z) : Z := default 0 (pos st !! c).

Definition row_of (st : CIT) (c : Z) : option (list Z) :=
  p ← rowptr st !! c; mem st !! p.

Definition set_mem (st : CIT) (m : gmap Z (list Z)) : CIT :=
  mkCIT (column_idx st) (bitvec_size st) (NormalHead st) (ArrayHead st) (pos st)
    (rowptr st) (vtrow st) m (next_row st) (encoding st).

(** [set_ith_bit(Class_GetTypeRep(c)->row, p)] *)
Definition set_row_bit (st : CIT) (c p : Z) : option CIT :=
  a ← rowptr st !! c;
  row ← mem st !! a;
  row' ← set_ith_bit row p;
  Some (set_mem st (<[a := row']> (mem st))).

Section ClassInclusion.
Context (H : gmap Z class_info) (ObjectClass : Z).

(** Installing a freshly allocated row for a class, and in its virtual table
    when it has one. *)
Definition install_row (st : CIT) (c : Z) (i : class_info) (row : list Z) : CIT :=
  mkCIT (column_idx st) (bitvec_size st) (NormalHead st) (ArrayHead st) (pos st)
    (<[c := next_row st]> (rowptr st))
    (if has_vtable i then <[c := next_row st]> (vtrow st) else vtrow st)
    (<[next_row st := row]> (mem st)) (next_row st + 1) (encoding st).

Fixpoint _expand_binary_matrix_in_class_list (st : CIT) (cl : list Z) (prev_size : Z)
  : option CIT :=
  match cl with
  | [] => Some st
  | c :: cl' =>
      i ← H !! c;
      prev_row ← row_of st c;
      if Z.of_nat (length prev_row) <? prev_size then None else
      let row := take (Z.to_nat prev_size) prev_row ++
                 replicate (Z.to_nat (bitvec_size st - prev_size)) 0 in
      _expand_binary_matrix_in_class_list (install_row st c i row) cl' prev_size
  end.

Definition expand_binary_matrix (st : CIT) : option CIT :=
  let prev_size := bitvec_size st in
  let st := mkCIT (column_idx st) (bitvec_size st + EXPAND_BITVEC_SIZE) (NormalHead st)
    (ArrayHead st) (pos st) (rowptr st) (vtrow st) (mem st) (next_row st) (encoding st) in
  st ← _expand_binary_matrix_in_class_list st (NormalHead st) prev_size;
  _expand_binary_matrix_in_class_list st (ArrayHead st) prev_size.

Definition _make_encoding (p : Z) : Z :=
  Z.lor (Z.shiftl (Z.shiftr p 3) 8) (Z.shiftl 1 (7 - Z.land p 0x7)).

Definition prim (c : Z) : bool :=
  match H !! c with Some i => is_primitive i | None => false end.

(** One turn of the loop over the array classes loaded before. *)
Definition array_step (class elem : Z) (dim : Z) (tmp_class : Z) (st : CIT) : option CIT :=
  ti ← H !! tmp_class;
  match kind ti with
  | NormalClass => None
  | ArrayClass tmp_elem _ tmp_dim =>
      if decide (elem = ObjectClass) then
        (if dim <=? tmp_dim then set_row_bit st tmp_class (get_pos st class) else Some st)
      else if decide (tmp_elem = ObjectClass) then
        (if tmp_dim <=? dim then set_row_bit st class (get_pos st tmp_class) else Some st)
      else if dim =? tmp_dim then
        (if prim elem || prim tmp_elem then Some st
         else
           erow ← row_of st elem;
           b1 ← is_ith_bit_set erow (get_pos st tmp_elem);
           if b1 : bool then set_row_bit st class (get_pos st tmp_class)
           else
             trow ← row_of st tmp_elem;
             b2 ← is_ith_bit_set trow (get_pos st elem);
             if b2 : bool then set_row_bit st tmp_class (get_pos st class) else Some st)
      else Some st
  end.

Fixpoint array_loop (class elem dim : Z) (cl : list Z) (st : CIT) : option CIT :=
  match cl with
  | [] => Some st
  | t :: cl' => st ← array_step class elem dim t st; array_loop class elem dim cl' st
  end.

Definition _update_array_class_hierarchy (st : CIT) (class elem comp dim : Z) : option CIT :=
  let st :=
    if prim comp then st
    else mkCIT (column_idx st) (bitvec_size st) (NormalHead st) (ArrayHead st) (pos st)
           (rowptr st) (vtrow st) (mem st) (next_row st)
           (<[class := _make_encoding (get_pos st comp)]> (encoding st)) in
  st ← array_loop class elem dim (ArrayHead st) st;
  Some (mkCIT (column_idx st) (bitvec_size st) (NormalHead st) (class :: ArrayHead st)
          (pos st) (rowptr st) (vtrow st) (mem st) (next_row st) (encoding st)).

(** [row |= row of interface], word by word. *)
Fixpoint or_interfaces (st : CIT) (class : Z) (ifaces : list Z) : option CIT :=
  match ifaces with
  | [] => Some st
  | i :: is' =>
      a ← rowptr st !! class;
      row ← mem st !! a;
      irow ← row_of st i;
      row' ← bv_loop Z.lor row irow 0 (Z.to_nat (bitvec_size st));
      or_interfaces (set_mem st (<[a := row']> (mem st))) class is'
  end.

Definition _update_normal_class_hierarchy (st : CIT) (class : Z) (i : class_info)
  : option CIT :=
  st ← or_interfaces st class (interfaces i);
  Some (mkCIT (column_idx st) (bitvec_size st) (class :: NormalHead st) (ArrayHead st)
          (pos st) (rowptr st) (vtrow st) (mem st) (next_row st) (encoding st)).

(** [memcpy] of the superclass row into a zeroed row of [n] words. *)
Definition copy_row (st : CIT) (super : option Z) (n : Z) : option (list Z) :=
  match super with
  | None => Some (replicate (Z.to_nat n) 0)
  | Some s =>
      srow ← row_of st s;
      if Z.of_nat (length srow) <? n then None else Some (take (Z.to_nat n) srow)
  end.

(** The part common to all classes: a column, a row that starts as the
    superclass row, and the class's own bit. *)
Definition cit_new_row (st : CIT) (class : Z) (i : class_info) : option CIT :=
  st ← (if bitvec_size st * 32 <=? column_idx st then expand_binary_matrix st else Some st);
  let p := column_idx st in
  let st := mkCIT (column_idx st + 1) (bitvec_size st) (NormalHead st) (ArrayHead st)
    (<[class := p]> (pos st)) (rowptr st) (vtrow st) (mem st) (next_row st) (encoding st) in
  row ← copy_row st (superclass i) (bitvec_size st);
  set_row_bit (install_row st class i row) class p.

Definition CIT_update_class_hierarchy (st : CIT) (class : Z) : option CIT :=
  i ← H !! class;
  st ← cit_new_row st class i;
  match kind i with
  | ArrayClass elem comp dim => _update_array_class_hierarchy st class elem comp dim
  | NormalClass => _update_normal_class_hierarchy st class i
  end.

Definition CIT_is_subclass (st : CIT) (class1 class2 : Z) : option bool :=
  row ← row_of st class1; is_ith_bit_set row (get_pos st class2).

(** Loading a list of classes in order. *)
Fixpoint load_all (st : CIT) (cs : list Z) : option CIT :=
  match cs with
  | [] => Some st
  | c :: cs' => st ← CIT_update_class_hierarchy st c; load_all st cs'
  end.

End ClassInclusion.

(** ** Rows as sets of columns *)

Lemma mask_shift p : 0 <= p ->
  Z.shiftr p 5 = p / 32 /\ u32 (Z.shiftl 1 (31 - Z.land p 0x1f)) = 2 ^ (31 - p mod 32).
Proof.
  intros Hp. rewrite Z.shiftr_div_pow2 by lia. split; [done|].
  assert (Z.land p 0x1f = p mod 32) as ->
    by (change 0x1f with (Z.ones 5); by rewrite Z.land_ones by lia).
  rewrite Z.shiftl_1_l. apply wrapu_small, in_u_pow2. dmlia.
Qed.

(** The two bit-matrix primitives are the bit-vector operations of the
    translator. *)
Lemma is_ith_bit_set_BV row p : 0 <= p -> is_ith_bit_set row p = BV_IsSet row p.
Proof.
  intros Hp. unfold is_ith_bit_set, BV_IsSet. destruct (mask_shift p Hp) as [-> ->].
  destruct (quot_rem_32 p Hp) as (-> & -> & ? & ?). by rewrite mask_lookup by lia.
Qed.

Lemma set_ith_bit_BV row p : 0 <= p -> set_ith_bit row p = BV_SetBit row p.
Proof.
  intros Hp. unfold set_ith_bit, BV_SetBit. destruct (mask_shift p Hp) as [-> ->].
  destruct (quot_rem_32 p Hp) as (-> & -> & ? & ?). by rewrite mask_lookup by lia.
Qed.

Definition arow (st : CIT) (c q : Z) : Prop :=
  exists row, row_of st c = Some row /\ bv_mem row q.

(** Physical well-formedness: every class with a row pointer has a row of its
    own, [len c] words long, to which the virtual table points as well. *)
Record shape (H : gmap Z class_info) (len : Z -> Z) (st : CIT) : Prop := {
  sh_row : forall c a, rowptr st !! c = Some a -> exists row, mem st !! a = Some row /\
    Z.of_nat (length row) = len c /\ bv_wf row /\ a < next_row st;
  sh_inj : forall c1 c2 a, rowptr st !! c1 = Some a -> rowptr st !! c2 = Some a -> c1 = c2;
  sh_vt : forall c i, H !! c = Some i -> has_vtable i = true -> vtrow st !! c = rowptr st !! c }.

Definition frame (st st' : CIT) : Prop :=
  column_idx st' = column_idx st /\ bitvec_size st' = bitvec_size st /\
  NormalHead st' = NormalHead st /\ ArrayHead st' = ArrayHead st /\ pos st' = pos st /\
  dom (rowptr st') = dom (rowptr st).

Lemma frame_refl st : frame st st.
Proof. by split_and!. Qed.

Lemma frame_trans a b c : frame a b -> frame b c -> frame a c.
Proof. intros (?&?&?&?&?&?) (?&?&?&?&?&?). split_and!; congruence. Qed.

Lemma frame_pos st st' c : frame st st' -> get_pos st' c = get_pos st c.
Proof. intros (_&_&_&_&E&_). unfold get_pos. by rewrite E. Qed.

Lemma shape_row_of H len st c : shape H len st -> c ∈ dom (rowptr st) ->
  exists a row, rowptr st !! c = Some a /\ mem st !! a = Some row /\
    row_of st c = Some row /\ Z.of_nat (length row) = len c /\ bv_wf row.
Proof.
  intros Hs [a Ha]%elem_of_dom. destruct (sh_row _ _ _ Hs c a Ha) as (row & Hr & ? & ? & _).
  exists a, row. unfold row_of. rewrite Ha. simpl. by split_and!.
Qed.

Lemma arow_row st c row q : row_of st c = Some row -> arow st c q <-> bv_mem row q.
Proof. unfold arow. naive_solver. Qed.

Lemma row_of_insert_mem st c a row' : rowptr st !! c = Some a ->
  (forall c1 c2 a, rowptr st !! c1 = Some a -> rowptr st !! c2 = Some a -> c1 = c2) ->
  forall d, row_of (set_mem st (<[a := row']> (mem st))) d =
    if decide (d = c) then Some row' else row_of st d.
Proof.
  intros Ha Hinj d. unfold row_of, set_mem. simpl.
  destruct (rowptr st !! d) as [b|] eqn:Hb; simpl.
  - destruct (decide (d = c)) as [->|].
    + assert (b = a) as -> by congruence. by rewrite lookup_insert_eq.
    + rewrite lookup_insert_ne; [done|]. intros <-. eauto.
  - case_decide; [congruence|done].
Qed.

Lemma shape_set_mem H len st c a row' :
  shape H len st -> rowptr st !! c = Some a -> Z.of_nat (length row') = len c -> bv_wf row' ->
  shape H len (set_mem st (<[a := row']> (mem st))).
Proof.
  intros [Hr Hi Hv] Ha Hl Hw. split; simpl; [|done|done].
  intros d b Hb. destruct (decide (b = a)) as [->|].
  - assert (d = c) as -> by eauto. exists row'. rewrite lookup_insert_eq.
    destruct (Hr c a Ha) as (? & _ & _ & _ & ?). done.
  - rewrite lookup_insert_ne by done. eauto.
Qed.

(** Setting a bit in the row of [c]. *)
Lemma set_row_bit_spec H len st c p :
  shape H len st -> c ∈ dom (rowptr st) -> 0 <= p < 32 * len c ->
  exists st', set_row_bit st c p = Some st' /\ shape H len st' /\ frame st st' /\
    forall d q, arow st' d q <-> arow st d q \/ (d = c /\ q = p).
Proof.
  intros Hs Hc Hp. destruct (shape_row_of _ _ _ _ Hs Hc) as (a & row & Ha & Hm & Hrow & Hl & Hw).
  destruct (BV_SetBit_upd row p Hw) as (row' & Hset & Hw' & Hl' & Hmem);
    [unfold bv_dom; lia|].
  unfold set_row_bit. rewrite Ha. simpl. rewrite Hm. simpl.
  rewrite set_ith_bit_BV, Hset by lia. simpl.
  eexists. split; [done|]. split; [eapply shape_set_mem; eauto; congruence|].
  split; [done|]. intros d q. unfold arow. setoid_rewrite (row_of_insert_mem _ c); [|done|apply Hs].
  case_decide as Hd; [|naive_solver].
  pose proof (mem_of_upd row row' p true Hmem q) as Hq. simpl in Hq. subst d.
  rewrite Hrow. naive_solver.
Qed.

(** A fresh row for [c]. *)
Lemma install_row_spec H len st c i row n :
  shape H len st -> H !! c = Some i -> Z.of_nat (length row) = n -> bv_wf row ->
  let st' := install_row st c i row in
  shape H (fun d => if decide (d = c) then n else len d) st' /\
  (forall d q, arow st' d q <-> if decide (d = c) then bv_mem row q else arow st d q).
Proof.
  intros Hs Hi Hl Hw st'. pose proof Hs as [Hr Hinj Hv].
  assert (Hfresh : forall d, rowptr st !! d <> Some (next_row st)).
  { intros d Hd. destruct (Hr _ _ Hd) as (? & _ & _ & _ & ?). lia. }
  split.
  - split; simpl.
    + intros d a. rewrite lookup_insert. case_decide as E; [intros [= <-]|intros Ha].
      * subst d. exists row. rewrite lookup_insert_eq. rewrite decide_True by done.
        split_and!; [done..|lia].
      * destruct (Hr d a Ha) as (row' & ? & ? & ? & ?). exists row'.
        rewrite lookup_insert_ne by (intros ?; lia). rewrite decide_False by done.
        split_and!; [done..|lia].
    + intros d e a. rewrite !lookup_insert.
      repeat case_decide; subst; intros; simplify_eq; try done; try by exfalso; eapply Hfresh.
      eauto.
    + intros d j Hj Hvt. destruct (decide (c = d)) as [->|].
      * assert (j = i) as -> by congruence. by rewrite Hvt, !lookup_insert_eq.
      * rewrite (lookup_insert_ne (rowptr st)) by done.
        destruct (has_vtable i); [rewrite lookup_insert_ne by done|]; eauto.
  - intros d q. unfold arow, row_of. simpl. rewrite lookup_insert. case_decide as E.
    + subst. rewrite decide_True by done. simpl. rewrite lookup_insert_eq. naive_solver.
    + rewrite decide_False by done. destruct (rowptr st !! d) as [a|] eqn:Ha; simpl; [|naive_solver].
      rewrite lookup_insert_ne; [done|]. intros <-. by eapply Hfresh.
Qed.

(** Lengthening a row by zero words keeps the set of columns. *)
Lemma extend_row row n k q : Z.of_nat (length row) = n ->
  bv_mem (take (Z.to_nat n) row ++ replicate k 0) q <-> bv_mem row q.
Proof.
  intros <-. rewrite Nat2Z.id, firstn_all. unfold bv_mem.
  destruct (Z.lt_ge_cases q 0); [by rewrite !BV_IsSet_neg|].
  rewrite !BV_IsSet_spec by lia. destruct (quot_rem_32 q) as (_ & _ & ? & ?); [lia|].
  destruct (zlookup row (q / 32)) as [w|] eqn:Hw.
  - apply zlookup_bound in Hw as ?. apply zlookup_Some in Hw as [_ Hw].
    unfold zlookup. case_test; [lia|]. by rewrite lookup_app_l, Hw by lia.
  - split; [|done]. destruct (zlookup (row ++ replicate k 0) (q / 32)) as [w|] eqn:Ha; [|done].
    apply zlookup_Some in Ha as [_ Ha]. apply lookup_app_Some in Ha as [Ha|[_ Ha]].
    + rewrite (proj2 (zlookup_Some row (q / 32) w)) in Hw by done. done.
    + apply lookup_replicate_1 in Ha as [-> _]. simpl. by rewrite Z.bits_0.
Qed.

Lemma wf_extend row n k : bv_wf row -> bv_wf (take n row ++ replicate k 0).
Proof.
  intros. apply Forall_app. split; [by apply Forall_take|].
  apply Forall_replicate. by apply (wrapu_range 32 0).
Qed.

(** The reallocation loop over one class list. *)
Lemma expand_list_spec H cl prev_size : forall len st,
  0 <= prev_size <= bitvec_size st -> NoDup cl -> shape H len st ->
  (forall c, c ∈ cl -> is_Some (H !! c) /\ c ∈ dom (rowptr st) /\ len c = prev_size) ->
  exists st', _expand_binary_matrix_in_class_list H st cl prev_size = Some st' /\
    shape H (fun c => if decide (c ∈ cl) then bitvec_size st else len c) st' /\
    frame st st' /\ forall d q, arow st' d q <-> arow st d q.
Proof.
  induction cl as [|c cl IH]; intros len st Hp Hnd Hs Hcl; simpl.
  - exists st. split_and!; [done| |apply frame_refl|done].
    destruct Hs as [Hr ? ?]. split; [|done|done]. intros d a Ha.
    destruct (Hr d a Ha) as (r & ? & ? & ? & ?). exists r. split_and!; try done.
  - destruct (Hcl c) as ([i Hi] & Hd & Hlen); [by left|].
    destruct (shape_row_of _ _ _ _ Hs Hd) as (a & row & Ha & Hm & Hrow & Hl & Hw).
    rewrite Hi. simpl. rewrite Hrow. simpl. case_test; [lia|].
    set (row' := take (Z.to_nat prev_size) row ++ replicate (Z.to_nat (bitvec_size st - prev_size)) 0).
    destruct (install_row_spec H len st c i row' (bitvec_size st) Hs Hi) as [Hs' Ha'].
    { unfold row'. rewrite length_app, length_take, length_replicate. lia. }
    { by apply wf_extend. }
    apply NoDup_cons in Hnd as [Hnin Hnd].
    destruct (IH _ (install_row st c i row') Hp Hnd Hs') as (st' & E & Hsh & Hfr & Har).
    { intros d Hdin. destruct (Hcl d) as (? & ? & ?); [by right|].
      split_and!; [done|simpl; rewrite dom_insert_L; set_solver|].
      rewrite decide_False; [done|]. by intros ->. }
    exists st'. split; [done|]. split_and!.
    + destruct Hsh as [Hr ? ?]. split; [|done|done]. intros d b Hb.
      destruct (Hr d b Hb) as (r & ? & Hlr & ? & ?). exists r. split_and!; try done.
      rewrite Hlr. simpl. destruct (decide (d ∈ cl)), (decide (d = c)), (decide (d ∈ c :: cl));
        try done; set_solver.
    + eapply frame_trans; [|done]. split_and!; try done. simpl.
      rewrite dom_insert_L. set_solver.
    + intros d q. rewrite Har, Ha'. case_decide as Ed; [|done]. subst d.
      rewrite (arow_row st c row) by done. apply extend_row. lia.
Qed.

(** The interface loop adds the interfaces' columns to the row of [c]. *)
Lemma or_interfaces_spec H ifs c : forall st,
  shape H (fun _ => bitvec_size st) st -> c ∈ dom (rowptr st) ->
  (forall i, i ∈ ifs -> i ∈ dom (rowptr st)) ->
  exists st', or_interfaces st c ifs = Some st' /\ shape H (fun _ => bitvec_size st) st' /\
    frame st st' /\
    forall d q, arow st' d q <-> arow st d q \/ (d = c /\ exists i, i ∈ ifs /\ arow st i q).
Proof.
  induction ifs as [|i ifs IH]; intros st Hs Hc Hi; simpl.
  { exists st. split_and!; [done|done|apply frame_refl|]. set_solver. }
  destruct (shape_row_of _ _ _ _ Hs Hc) as (a & row & Ha & Hm & Hrow & Hl & Hw).
  destruct (shape_row_of _ _ _ i Hs) as (_ & irow & _ & _ & Hirow & Hil & Hiw); [apply Hi; by left|].
  rewrite Ha. simpl. rewrite Hm. simpl. rewrite Hirow. simpl.
  rewrite <- Hl. destruct (bv_loop_total Z.lor row irow) as (row' & E & Hl'); [lia|].
  rewrite E. simpl. rewrite Hl.
  assert (Hw' : bv_wf row').
  { eapply bv_loop_wf; [|exact Hw|exact Hiw| | |exact E]; [auto with mach zarith|lia|lia]. }
  set (st1 := set_mem st (<[a:=row']> (mem st))).
  assert (Hs1 : shape H (fun _ => bitvec_size st) st1).
  { eapply shape_set_mem; [done..|congruence|done]. }
  destruct (IH st1) as (st' & E' & Hs' & Hf' & Har); [done..|set_solver|].
  exists st'. split_and!; [done|done|by eapply frame_trans; [|exact Hf']|].
  assert (Har1 : forall d q, arow st1 d q <-> arow st d q \/ (d = c /\ arow st i q)).
  { intros d q. unfold arow at 1. unfold st1.
    setoid_rewrite (row_of_insert_mem st c); [|done|apply Hs].
    rewrite (arow_row st i irow) by done. case_decide as Ed.
    - subst d. rewrite (arow_row st c row) by done.
      assert (Hq : bv_mem row' q <-> bv_mem row q \/ bv_mem irow q).
      { apply bv_or_mem; [lia|done]. }
      naive_solver.
    - unfold arow. naive_solver. }
  intros d q. rewrite Har. setoid_rewrite Har1. setoid_rewrite elem_of_cons. naive_solver.
Qed.

(** ** The loop over the array classes *)

Section ArrayLoop.
Context (H : gmap Z class_info) (ObjectClass class elem dim : Z).

Definition arr (t e d : Z) : Prop := exists i cmp, H !! t = Some i /\ kind i = ArrayClass e cmp d.

(** What the step adds for an older array class [t], in terms of a relation
    [E] between element classes: the bit "[class] is a subclass of [t]", and
    the bit "[t] is a subclass of [class]". *)
Definition adds_up (E : Z -> Z -> Prop) (t : Z) : Prop :=
  exists te td, arr t te td /\ elem <> ObjectClass /\
    ((te = ObjectClass /\ td <= dim) \/
     (te <> ObjectClass /\ dim = td /\ prim H elem = false /\ prim H te = false /\ E elem te)).

Definition adds_down (E : Z -> Z -> Prop) (t : Z) : Prop :=
  exists te td, arr t te td /\
    ((elem = ObjectClass /\ dim <= td) \/
     (elem <> ObjectClass /\ te <> ObjectClass /\ dim = td /\ prim H elem = false /\
      prim H te = false /\ ~ E elem te /\ E te elem)).

Lemma arr_fun t e d e' d' : arr t e d -> arr t e' d' -> e = e' /\ d = d'.
Proof.
  intros (i & ? & Hi & Hk) (j & ? & Hj & Hk'). assert (j = i) as -> by congruence.
  rewrite Hk in Hk'. by injection Hk' as -> _ ->.
Qed.

Lemma is_subclass_arow (len : Z -> Z) st x y :
  shape H len st -> x ∈ dom (rowptr st) -> 0 <= get_pos st y < 32 * len x ->
  exists row b, row_of st x = Some row /\ is_ith_bit_set row (get_pos st y) = Some b /\
    (b = true <-> arow st x (get_pos st y)).
Proof.
  intros Hs Hx Hp. destruct (shape_row_of _ _ _ _ Hs Hx) as (_ & row & _ & _ & Hrow & Hl & _).
  destruct (proj2 (BV_IsSet_is_Some row (get_pos st y))) as [b Hb]; [unfold bv_dom; lia|].
  exists row, b. rewrite is_ith_bit_set_BV by lia. split_and!; [done..|].
  rewrite (arow_row st x row) by done. unfold bv_mem. rewrite Hb. naive_solver.
Qed.

Context (n : Z) (elt : Z -> Prop) (E : Z -> Z -> Prop).

(** What one turn of the loop needs of the state. *)
Record loop_ready (AH : list Z) (st : CIT) : Prop := {
  lr_shape : shape H (fun _ => n) st;
  lr_class : class ∈ dom (rowptr st) /\ 0 <= get_pos st class < 32 * n /\ class ∉ AH;
  lr_elem : prim H elem = false -> elt elem;
  lr_arr : forall t, t ∈ AH -> t ∈ dom (rowptr st) /\ 0 <= get_pos st t < 32 * n /\
    exists te td, arr t te td /\ (prim H te = false -> elt te);
  lr_elt : forall x, elt x -> x ∈ dom (rowptr st) /\ 0 <= get_pos st x < 32 * n /\
    x <> class /\ x ∉ AH;
  lr_E : forall x y, elt x -> elt y -> arow st x (get_pos st y) <-> E x y }.

Lemma loop_ready_step AH st st' :
  loop_ready AH st -> shape H (fun _ => n) st' -> frame st st' ->
  (forall x q, elt x -> arow st' x q <-> arow st x q) -> loop_ready AH st'.
Proof.
  intros [? Hc ? Ha He HE] Hs Hf Hx. pose proof Hf as (_&_&_&_&_&Hd).
  assert (Hp := fun c => frame_pos st st' c Hf).
  split; try done.
  - by rewrite Hd, Hp.
  - intros t Ht. rewrite Hd, Hp. auto.
  - intros x. rewrite Hd, Hp. auto.
  - intros x y ? ?. rewrite Hp, Hx by done. auto.
Qed.

(** Which bit the step sets. *)
Inductive outcome := Up | Down | Neither.

Ltac outcome_tac :=
  split; [done|];
  match goal with Hu : adds_up _ _ <-> _, Hd : adds_down _ _ <-> _ |- _ =>
    rewrite Hu, Hd; clear Hu Hd end;
  split; split; intros; first [discriminate|tauto|intuition (congruence || lia)].

Lemma array_step_outcome AH st t : loop_ready AH st -> t ∈ AH ->
  exists o, array_step H ObjectClass class elem dim t st =
      match o with
      | Up => set_row_bit st class (get_pos st t)
      | Down => set_row_bit st t (get_pos st class)
      | Neither => Some st
      end /\ (o = Up <-> adds_up E t) /\ (o = Down <-> adds_down E t).
Proof.
  intros Hlr Ht. pose proof Hlr as [Hs _ Hel Ha He HE].
  destruct (Ha t Ht) as (Htd & Htp & te & td & Harr & Hte).
  assert (Hu : adds_up E t <-> elem <> ObjectClass /\
    ((te = ObjectClass /\ td <= dim) \/
     (te <> ObjectClass /\ dim = td /\ prim H elem = false /\ prim H te = false /\ E elem te))).
  { split; [|by exists te, td]. intros (e & d & Hed & ?).
    destruct (arr_fun _ _ _ _ _ Harr Hed) as [<- <-]. done. }
  assert (Hd : adds_down E t <-> ((elem = ObjectClass /\ dim <= td) \/
     (elem <> ObjectClass /\ te <> ObjectClass /\ dim = td /\ prim H elem = false /\
      prim H te = false /\ ~ E elem te /\ E te elem))).
  { split; [|by exists te, td]. intros (e & d & Hed & ?).
    destruct (arr_fun _ _ _ _ _ Harr Hed) as [<- <-]. done. }
  destruct Harr as (ti & cmp & Hti & Hk). unfold array_step. rewrite Hti. simpl. rewrite Hk.
  case_decide; [case_test; [exists Down|exists Neither]; outcome_tac|].
  case_decide; [case_test; [exists Up|exists Neither]; outcome_tac|].
  case_test; [|exists Neither; outcome_tac].
  destruct (prim H elem) eqn:Ep; [exists Neither; outcome_tac|].
  destruct (prim H te) eqn:Etp; simpl; [exists Neither; outcome_tac|].
  destruct (He elem) as (Hed & Hepos & _); [auto|].
  destruct (He te) as (Htedom & Htepos & _); [auto|].
  destruct (is_subclass_arow _ st elem te Hs Hed ltac:(lia)) as (r1 & b1 & -> & Hb1 & Hi1).
  simpl. rewrite Hb1. simpl. rewrite HE in Hi1 by auto.
  destruct b1; [exists Up; outcome_tac|].
  destruct (is_subclass_arow _ st te elem Hs Htedom ltac:(lia)) as (r2 & b2 & -> & Hb2 & Hi2).
  simpl. rewrite Hb2. simpl. rewrite HE in Hi2 by auto.
  destruct b2; [exists Down|exists Neither]; outcome_tac.
Qed.

Lemma array_step_spec AH st t : loop_ready AH st -> t ∈ AH ->
  exists st', array_step H ObjectClass class elem dim t st = Some st' /\
    loop_ready AH st' /\ frame st st' /\
    forall d q, arow st' d q <-> arow st d q \/
      (d = class /\ q = get_pos st t /\ adds_up E t) \/
      (d = t /\ q = get_pos st class /\ adds_down E t).
Proof.
  intros Hlr Ht. destruct (array_step_outcome AH st t Hlr Ht) as (o & -> & Hu & Hd).
  pose proof Hlr as [Hs (Hc & Hcp & Hcn) _ Ha He _]. destruct (Ha t Ht) as (Htd & Htp & _).
  destruct o.
  - destruct (set_row_bit_spec H (fun _ => n) st class (get_pos st t)) as (st' & E' & Hs' & Hf & Har);
      [done..|].
    exists st'. split_and!; [done| |done|intros; rewrite Har; naive_solver].
    eapply loop_ready_step; eauto. intros x q Hx. rewrite Har.
    destruct (He x Hx) as (_ & _ & ? & _). naive_solver.
  - destruct (set_row_bit_spec H (fun _ => n) st t (get_pos st class)) as (st' & E' & Hs' & Hf & Har);
      [done..|].
    exists st'. split_and!; [done| |done|intros; rewrite Har; naive_solver].
    eapply loop_ready_step; eauto. intros x q Hx. rewrite Har.
    destruct (He x Hx) as (_ & _ & _ & ?). naive_solver.
  - exists st. split_and!; [done|done|apply frame_refl|naive_solver].
Qed.

Lemma array_loop_spec AH cl : forall st, loop_ready AH st -> (forall t, t ∈ cl -> t ∈ AH) ->
  exists st', array_loop H ObjectClass class elem dim cl st = Some st' /\
    loop_ready AH st' /\ frame st st' /\
    forall d q, arow st' d q <-> arow st d q \/
      (d = class /\ exists t, t ∈ cl /\ q = get_pos st t /\ adds_up E t) \/
      (d ∈ cl /\ q = get_pos st class /\ adds_down E d).
Proof.
  induction cl as [|t cl IH]; intros st Hlr Hcl; simpl.
  { exists st. split_and!; [done|done|apply frame_refl|set_solver]. }
  destruct (array_step_spec AH st t) as (st1 & -> & Hlr1 & Hf1 & Har1); [done|set_solver|].
  simpl. destruct (IH st1) as (st' & -> & Hlr' & Hf' & Har'); [done|set_solver|].
  exists st'. split_and!; [done|done|by eapply frame_trans|]. intros d q.
  rewrite Har', Har1. assert (Hp := fun c => frame_pos st st1 c Hf1).
  setoid_rewrite Hp. setoid_rewrite elem_of_cons. naive_solver.
Qed.

End ArrayLoop.

(** ** The subclass relation *)

Section Hierarchy.
Context (H : gmap Z class_info) (ObjectClass : Z).

Abbreviation arr := (arr H).

(** The relation the matrix represents: the closure of "superclass" and
    "interface", and for array classes the rules of the array loop.  They are
    not Java's; [Subtyping] says where they differ. *)
Inductive sub : Z -> Z -> Prop :=
| sub_refl c : sub c c
| sub_super c i s d : H !! c = Some i -> superclass i = Some s -> sub s d -> sub c d
| sub_iface c i s d : H !! c = Some i -> s ∈ interfaces i -> sub s d -> sub c d
| sub_object_array a t e d td : arr a e d -> arr t ObjectClass td ->
    e <> ObjectClass -> td <= d -> sub a t
| sub_array a t e te d : arr a e d -> arr t te d ->
    e <> ObjectClass -> te <> ObjectClass -> prim H e = false -> prim H te = false ->
    sub e te -> sub a t.

Definition normal (c : Z) : Prop := exists i, H !! c = Some i /\ kind i = NormalClass.

Lemma normal_not_arr c e d : normal c -> arr c e d -> False.
Proof. intros (i & Hi & Hk) (j & cmp & Hj & Hk'). simplify_eq. congruence. Qed.

(** A linked class: its superclass and interfaces were linked before it, an
    array class extends Object and its element class is primitive or linked. *)
Definition linked_below (st : CIT) (p : Z) (s : Z) : Prop :=
  normal s /\ exists q, pos st !! s = Some q /\ q < p.

Record class_ok (st : CIT) (p : Z) (c : Z) (i : class_info) : Prop := {
  co_info : H !! c = Some i;
  co_prim : is_primitive i = false;
  co_super : forall s, superclass i = Some s -> linked_below st p s;
  co_ifs : forall s, s ∈ interfaces i -> linked_below st p s;
  co_arr : forall e d, arr c e d -> superclass i = Some ObjectClass /\ interfaces i = [] /\
    (prim H e = false -> linked_below st p e) }.

(** What the class loader guarantees when it links class [c]: it is new, the
    classes it depends on are linked, and among array classes the element type
    and dimension identify the class; [Object[][]...] is created from its
    component, so after those of smaller dimension. *)
Record loadable (st : CIT) (c : Z) (i : class_info) : Prop := {
  ld_new : pos st !! c = None;
  ld_ok : class_ok st (column_idx st) c i;
  ld_uniq : forall t e d d', arr c e d -> t ∈ dom (pos st) -> arr t e d' ->
    d' <> d /\ (e = ObjectClass -> d' < d) }.

Record inv (st : CIT) : Prop := {
  iv_shape : shape H (fun _ => bitvec_size st) st;
  iv_size : 0 < bitvec_size st /\ 0 <= column_idx st <= 32 * bitvec_size st;
  iv_dom : dom (rowptr st) = dom (pos st);
  iv_pos : forall c p, pos st !! c = Some p -> 0 <= p < column_idx st;
  iv_inj : forall c d p, pos st !! c = Some p -> pos st !! d = Some p -> c = d;
  iv_norm : NoDup (NormalHead st) /\
    forall c, c ∈ NormalHead st <-> c ∈ dom (pos st) /\ normal c;
  iv_arr : NoDup (ArrayHead st) /\
    forall c, c ∈ ArrayHead st <-> c ∈ dom (pos st) /\ exists e d, arr c e d;
  iv_ok : forall c p, pos st !! c = Some p -> exists i, class_ok st p c i;
  iv_uniq : forall c t e d, c ∈ dom (pos st) -> t ∈ dom (pos st) -> arr c e d -> arr t e d -> c = t;
  iv_zero : forall c q, arow st c q -> q < column_idx st;
  iv_sem : forall c d, c ∈ dom (pos st) -> d ∈ dom (pos st) ->
    arow st c (get_pos st d) <-> sub c d }.

(** From a linked ordinary class the relation only reaches linked ordinary
    classes, with columns that do not grow. *)
Lemma sub_closed st c d p : inv st -> sub c d -> normal c -> pos st !! c = Some p ->
  normal d /\ exists q, pos st !! d = Some q /\ q <= p.
Proof.
  intros Hinv Hsub. revert p. induction Hsub as
    [c|c i s d Hi Hs _ IH|c i s d Hi Hs _ IH|a t e d td Ha|a t e te d Ha]; intros p Hn Hp.
  - eauto with lia.
  - destruct (iv_ok _ Hinv c p Hp) as (i' & Hok). rewrite (co_info _ _ _ _ Hok) in Hi.
    simplify_eq. destruct (co_super _ _ _ _ Hok s Hs) as (Hsn & q & Hq & ?).
    destruct (IH q Hsn Hq) as (? & q' & ? & ?). split; [done|]. exists q'. split; [done|lia].
  - destruct (iv_ok _ Hinv c p Hp) as (i' & Hok). rewrite (co_info _ _ _ _ Hok) in Hi.
    simplify_eq. destruct (co_ifs _ _ _ _ Hok s Hs) as (Hsn & q & Hq & ?).
    destruct (IH q Hsn Hq) as (? & q' & ? & ?). split; [done|]. exists q'. split; [done|lia].
  - by exfalso; eapply normal_not_arr.
  - by exfalso; eapply normal_not_arr.
Qed.

(** Two linked ordinary classes below each other are the same class. *)
Lemma sub_antisym st c d : inv st -> c ∈ dom (pos st) -> d ∈ dom (pos st) ->
  normal c -> normal d -> sub c d -> sub d c -> c = d.
Proof.
  intros Hinv [p Hp]%elem_of_dom [q Hq]%elem_of_dom Hc Hd H1 H2.
  destruct (sub_closed _ _ _ _ Hinv H1 Hc Hp) as (_ & q' & ? & ?).
  destruct (sub_closed _ _ _ _ Hinv H2 Hd Hq) as (_ & p' & ? & ?).
  simplify_eq. assert (p = q) as -> by lia. by eapply (iv_inj _ Hinv).
Qed.

Lemma get_pos_Some st c p : pos st !! c = Some p -> get_pos st c = p.
Proof. unfold get_pos. by intros ->. Qed.

Lemma prim_false_of_ok st p c i : class_ok st p c i -> prim H c = false.
Proof. intros []. unfold prim. by rewrite co_info0. Qed.

(** Every linked class is on one of the two lists. *)
Lemma linked_listed st c : inv st -> c ∈ dom (pos st) ->
  c ∈ NormalHead st \/ c ∈ ArrayHead st.
Proof.
  intros Hinv Hc. pose proof Hc as [p Hp]%elem_of_dom.
  destruct (iv_ok _ Hinv c p Hp) as (i & Hok). pose proof (co_info _ _ _ _ Hok) as Hi.
  rewrite (proj2 (iv_norm _ Hinv)), (proj2 (iv_arr _ Hinv)). unfold normal, arr.
  destruct (kind i) eqn:?; [left|right]; eauto 10.
Qed.

(** Reallocation keeps the matrix and makes every row wider. *)
Lemma expand_spec st : inv st ->
  exists st', expand_binary_matrix H st = Some st' /\
    bitvec_size st' = bitvec_size st + EXPAND_BITVEC_SIZE /\
    shape H (fun _ => bitvec_size st') st' /\ column_idx st' = column_idx st /\
    NormalHead st' = NormalHead st /\ ArrayHead st' = ArrayHead st /\ pos st' = pos st /\
    dom (rowptr st') = dom (rowptr st) /\ forall d q, arow st' d q <-> arow st d q.
Proof.
  intros Hinv. pose proof Hinv as [Hsh Hsz Hdom _ _ [Hnd1 Hn1] [Hnd2 Hn2] Hok _ _ _].
  assert (HH : forall c, c ∈ dom (pos st) -> is_Some (H !! c)).
  { intros c [p Hp]%elem_of_dom. destruct (Hok c p Hp) as (i & Hi).
    rewrite (co_info _ _ _ _ Hi). eauto. }
  unfold expand_binary_matrix, EXPAND_BITVEC_SIZE.
  set (st0 := mkCIT (column_idx st) (bitvec_size st + 5) _ _ _ _ _ _ _ _).
  assert (Hs0 : shape H (fun _ => bitvec_size st) st0) by (destruct Hsh; split; done).
  destruct (expand_list_spec H (NormalHead st) (bitvec_size st) _ st0 ltac:(simpl; lia) Hnd1 Hs0)
    as (st1 & E1 & Hs1 & Hf1 & Ha1).
  { intros c Hc. apply Hn1 in Hc as [Hc _]. split_and!; [auto|simpl; by rewrite Hdom|done]. }
  pose proof Hf1 as (Hc1 & Hb1 & HN1 & HA1 & Hp1 & Hd1). simpl in *.
  rewrite E1. simpl. rewrite HA1.
  destruct (expand_list_spec H (ArrayHead st) (bitvec_size st) _ st1 ltac:(lia) Hnd2 Hs1)
    as (st' & E2 & Hs2 & Hf2 & Ha2).
  { intros c Hc. apply Hn2 in Hc as Hc'. destruct Hc' as [Hdc (e & d & Harr)].
    split_and!; [auto|by rewrite Hd1, Hdom|]. rewrite decide_False; [done|].
    intros [_ Hn]%Hn1. by eapply normal_not_arr. }
  pose proof Hf2 as (Hc2 & Hb2 & HN2 & HA2 & Hp2 & Hd2).
  exists st'. split; [done|]. split; [congruence|]. split_and!; try congruence.
  - destruct Hs2 as [Hr ? ?]. split; [|done|done]. intros c a Hca.
    destruct (Hr c a Hca) as (r & ? & Hl & ? & ?). exists r. split_and!; try done.
    rewrite Hl. simpl. assert (Hin : c ∈ dom (pos st)).
    { rewrite <- Hdom, <- Hd1, <- Hd2. apply elem_of_dom. eauto. }
    destruct (linked_listed st c Hinv Hin); repeat case_decide; try done; congruence.
  - intros d q. rewrite Ha2, Ha1. done.
Qed.

(** A new column and a row that starts with the superclass's columns. *)
Lemma new_row_spec st c i : inv st -> loadable st c i ->
  exists st', cit_new_row H st c i = Some st' /\
    shape H (fun _ => bitvec_size st') st' /\ 0 < bitvec_size st' /\
    column_idx st' = column_idx st + 1 /\ column_idx st' <= 32 * bitvec_size st' /\
    NormalHead st' = NormalHead st /\ ArrayHead st' = ArrayHead st /\
    pos st' = <[c := column_idx st]> (pos st) /\
    dom (rowptr st') = {[c]} ∪ dom (pos st) /\
    forall d q, arow st' d q <-> (d <> c /\ arow st d q) \/
      (d = c /\ (q = column_idx st \/ exists s, superclass i = Some s /\ arow st s q)).
Proof.
  intros Hinv [Hnew Hok _]. unfold cit_new_row.
  assert (Hpre : exists st1, (if bitvec_size st * 32 <=? column_idx st
      then expand_binary_matrix H st else Some st) = Some st1 /\
    shape H (fun _ => bitvec_size st1) st1 /\ 0 < bitvec_size st1 /\
    (column_idx st1 = column_idx st /\ column_idx st1 < 32 * bitvec_size st1) /\
    NormalHead st1 = NormalHead st /\ ArrayHead st1 = ArrayHead st /\ pos st1 = pos st /\
    dom (rowptr st1) = dom (rowptr st) /\ forall d q, arow st1 d q <-> arow st d q).
  { pose proof (iv_size _ Hinv). case_test.
    - destruct (expand_spec st Hinv) as (st1 & ? & Hb & ?). exists st1.
      unfold EXPAND_BITVEC_SIZE in *. naive_solver lia.
    - exists st. split_and!; try done; try lia. apply (iv_shape _ Hinv). }
  destruct Hpre as (st1 & -> & Hs1 & Hb1 & [Hc1 Hc1'] & HN1 & HA1 & Hp1 & Hd1 & Ha1). simpl.
  set (st2 := mkCIT (column_idx st1 + 1) _ _ _ _ _ _ _ _ _).
  assert (Hs2 : shape H (fun _ => bitvec_size st1) st2) by (destruct Hs1; split; done).
  assert (Ha2 : forall d q, arow st2 d q <-> arow st d q) by (intros; rewrite <- Ha1; done).
  assert (Hrow : exists row, copy_row st2 (superclass i) (bitvec_size st1) = Some row /\
    Z.of_nat (length row) = bitvec_size st1 /\ bv_wf row /\
    forall q, bv_mem row q <-> exists s, superclass i = Some s /\ arow st s q).
  { unfold copy_row. destruct (superclass i) as [s|] eqn:Es.
    - destruct (co_super _ _ _ _ Hok s Es) as (_ & q & Hq & _).
      destruct (shape_row_of _ _ _ s Hs2) as (_ & row & _ & _ & Hrow & Hl & Hw).
      { simpl. rewrite Hd1, (iv_dom _ Hinv). apply elem_of_dom. eauto. }
      rewrite Hrow. simpl. rewrite <- Hl. case_test; [lia|]. rewrite Nat2Z.id, firstn_all.
      exists row. split_and!; try done. intros r. rewrite <- (arow_row st2 s row), Ha2 by done.
      naive_solver.
    - eexists. split; [done|]. rewrite length_replicate. split_and!; [lia| |].
      + apply Forall_replicate. by apply (wrapu_range 32 0).
      + intros q. split; [|naive_solver]. intros Hq. exfalso.
        apply (extend_row [] 0) in Hq; [|done]. by apply bv_mem_dom in Hq; unfold bv_dom in Hq; simpl in Hq; lia. }
  destruct Hrow as (row & -> & Hl & Hw & Hm). simpl.
  destruct (install_row_spec H _ st2 c i row _ Hs2 (co_info _ _ _ _ Hok) Hl Hw) as [Hs3 Ha3].
  set (st3 := install_row st2 c i row) in *.
  assert (Hs3' : shape H (fun _ => bitvec_size st1) st3).
  { destruct Hs3 as [Hr ? ?]. split; [|done|done]. intros d a Hda.
    destruct (Hr d a Hda) as (r & ? & Hlr & ?). exists r. split; [done|]. split; [|done].
    rewrite Hlr. simpl. by case_decide. }
  destruct (set_row_bit_spec H _ st3 c (column_idx st1) Hs3') as (st' & E & Hs4 & Hf4 & Ha4).
  { simpl. rewrite dom_insert_L. set_solver. } { pose proof (iv_size _ Hinv). lia. }
  rewrite E. pose proof Hf4 as (Hc4 & Hb4 & HN4 & HA4 & Hp4 & Hd4). simpl in *.
  exists st'. split; [done|]. rewrite Hb4. split_and!; try done; try congruence; try lia.
  - rewrite Hd4, dom_insert_L, Hd1, (iv_dom _ Hinv). done.
  - intros d q. rewrite Ha4, Ha3, Hc1. case_decide; [rewrite Hm|rewrite Ha2]; naive_solver.
Qed.

(** [linked_below] survives the addition of a column. *)
Lemma linked_below_mono st st' p c s q :
  pos st !! c = None -> pos st' = <[c := q]> (pos st) ->
  linked_below st p s -> linked_below st' p s.
Proof.
  intros Hn Hp (? & r & Hr & ?). split; [done|]. exists r. rewrite Hp.
  rewrite lookup_insert_ne; [done|]. intros ->. congruence.
Qed.

Lemma class_ok_mono st st' p c q d i :
  pos st !! c = None -> pos st' = <[c := q]> (pos st) ->
  class_ok st p d i -> class_ok st' p d i.
Proof.
  intros Hn Hp []. split; try done; eauto using linked_below_mono.
  intros e k Hk. destruct (co_arr0 e k Hk) as (? & ? & ?). eauto 10 using linked_below_mono.
Qed.

(** Which of the pairs with the new class [c] are in the relation. *)
Lemma old_not_sub_new_normal st c i d : inv st -> loadable st c i -> normal c ->
  d ∈ dom (pos st) -> ~ sub d c.
Proof.
  intros Hinv [Hnew Hok _] Hn [p Hp]%elem_of_dom Hsub.
  destruct (iv_ok _ Hinv d p Hp) as (j & Hj).
  assert (Hbelow : forall s, linked_below st p s -> sub s c -> False).
  { intros s (Hsn & q & Hq & _) Hs. destruct (sub_closed _ _ _ _ Hinv Hs Hsn Hq) as (_ & r & ? & _).
    congruence. }
  inversion Hsub; subst.
  - congruence.
  - rewrite (co_info _ _ _ _ Hj) in *. simplify_eq.
    eapply Hbelow; [eapply (co_super _ _ _ _ Hj)|]; done.
  - rewrite (co_info _ _ _ _ Hj) in *. simplify_eq.
    eapply Hbelow; [eapply (co_ifs _ _ _ _ Hj)|]; done.
  - by eapply normal_not_arr.
  - by eapply normal_not_arr.
Qed.

Lemma sub_normal_cases st p c i e : class_ok st p c i -> normal c -> e <> c ->
  sub c e <-> (exists s, superclass i = Some s /\ sub s e) \/ (exists s, s ∈ interfaces i /\ sub s e).
Proof.
  intros Hok Hn Hne. pose proof (co_info _ _ _ _ Hok) as Hi. split.
  - inversion 1; subst; simplify_eq; eauto; by exfalso; eapply normal_not_arr.
  - intros [(s & ? & ?)|(s & ? & ?)]; [by eapply sub_super|by eapply sub_iface].
Qed.

Lemma sub_new_normal st c i e : loadable st c i -> normal c -> e <> c ->
  sub c e <-> (exists s, superclass i = Some s /\ sub s e) \/ (exists s, s ∈ interfaces i /\ sub s e).
Proof. intros [_ Hok _]. by eapply sub_normal_cases. Qed.

(** An old ordinary class is never below an array class, and an array class is
    below an ordinary one exactly when Object is. *)
Lemma normal_not_sub_array st d c e k : inv st -> normal d -> d ∈ dom (pos st) ->
  arr c e k -> ~ sub d c.
Proof.
  intros Hinv Hn [p Hp]%elem_of_dom Ha Hs.
  destruct (sub_closed _ _ _ _ Hinv Hs Hn Hp) as (Hc & _). by eapply normal_not_arr.
Qed.

(** Pairs of array classes, by inversion: the routes over Object are closed. *)
Lemma sub_arrays st p a i t e d te td : inv st -> class_ok st p a i -> arr a e d -> arr t te td ->
  a <> t ->
  sub a t <-> (e <> ObjectClass /\ te = ObjectClass /\ td <= d) \/
    (e <> ObjectClass /\ te <> ObjectClass /\ d = td /\ prim H e = false /\ prim H te = false /\ sub e te).
Proof.
  intros Hinv Hok Ha Ht Hne. destruct (co_arr _ _ _ _ Hok e d Ha) as (Hsup & Hif & _).
  pose proof (co_info _ _ _ _ Hok) as Hi. split.
  - inversion 1 as [|? ? s ? Hi' Hs Hsub|? ? s ? Hi' Hs|? ? e' d' td' Ha' Ht'|? ? e' te' d' Ha' Ht'];
      subst; simplify_eq.
    + exfalso. destruct (co_super _ _ _ _ Hok _ Hsup) as (Hn & q & Hq & _).
      eapply normal_not_sub_array; [done|exact Hn|apply elem_of_dom; eauto|exact Ht|done].
    + rewrite Hif in Hs. set_solver.
    + destruct (arr_fun _ _ _ _ _ _ Ha Ha') as [-> ->].
      destruct (arr_fun _ _ _ _ _ _ Ht Ht') as [-> ->]. auto.
    + destruct (arr_fun _ _ _ _ _ _ Ha Ha') as [-> ->].
      destruct (arr_fun _ _ _ _ _ _ Ht Ht') as [-> ->]. auto 10.
  - intros [(? & -> & ?)|(? & ? & <- & ? & ? & ?)]; [by eapply sub_object_array|by eapply sub_array].
Qed.

Lemma sub_array_normal st p a i e d x : class_ok st p a i -> arr a e d -> normal x ->
  sub a x <-> sub ObjectClass x.
Proof.
  intros Hok Ha Hx. destruct (co_arr _ _ _ _ Hok e d Ha) as (Hsup & Hif & _).
  pose proof (co_info _ _ _ _ Hok) as Hi. split.
  - inversion 1; subst; simplify_eq.
    + by exfalso; eapply normal_not_arr.
    + congruence.
    + rewrite Hif in *. set_solver.
    + by exfalso; eapply normal_not_arr.
    + by exfalso; eapply normal_not_arr.
  - intros. by eapply sub_super.
Qed.

(** The invariant of the extended state, from what the update did to the rows. *)
Lemma inv_extend st st' c i : inv st -> loadable st c i ->
  shape H (fun _ => bitvec_size st') st' -> 0 < bitvec_size st' ->
  column_idx st' = column_idx st + 1 -> column_idx st' <= 32 * bitvec_size st' ->
  pos st' = <[c := column_idx st]> (pos st) -> dom (rowptr st') = {[c]} ∪ dom (pos st) ->
  (NormalHead st' = c :: NormalHead st /\ ArrayHead st' = ArrayHead st /\ normal c \/
   NormalHead st' = NormalHead st /\ ArrayHead st' = c :: ArrayHead st /\ exists e d, arr c e d) ->
  (forall d q, arow st' d q -> q < column_idx st') ->
  (forall d, d ∈ dom (pos st) -> arow st' d (column_idx st) <-> sub d c) ->
  (forall d, d ∈ dom (pos st) -> arow st' c (get_pos st d) <-> sub c d) ->
  arow st' c (column_idx st) ->
  (forall d e, d ∈ dom (pos st) -> e ∈ dom (pos st) ->
     arow st' d (get_pos st e) <-> arow st d (get_pos st e)) ->
  inv st'.
Proof.
  intros Hinv Hld Hs Hb Hci Hcb Hp Hd Hlists Hz Hdc Hcd Hcc Hold.
  pose proof Hld as [Hnew Hok Huq]. pose proof (iv_size _ Hinv).
  assert (Hndom : c ∉ dom (pos st)) by (by apply not_elem_of_dom).
  assert (Hposlt := iv_pos _ Hinv). pose proof (iv_norm _ Hinv) as [Hnd1 Hn1].
  pose proof (iv_arr _ Hinv) as [Hnd2 Hn2].
  assert (Hdom' : dom (pos st') = {[c]} ∪ dom (pos st)) by (by rewrite Hp, dom_insert_L).
  split; try done.
  - lia.
  - by rewrite Hd, Hdom'.
  - intros x p. rewrite Hp, lookup_insert. case_decide; [intros [= <-]; lia|].
    intros Hx. apply Hposlt in Hx. lia.
  - intros x y p. rewrite Hp, !lookup_insert. repeat case_decide; subst; intros; simplify_eq; try done.
    + exfalso. pose proof (Hposlt y (column_idx st)). naive_solver lia.
    + exfalso. pose proof (Hposlt x (column_idx st)). naive_solver lia.
    + by eapply (iv_inj _ Hinv).
  - rewrite Hdom'. destruct Hlists as [(-> & _ & Hn)|(-> & _ & e & d & Ha)].
    + split; [apply NoDup_cons; split; [rewrite Hn1; tauto|done]|].
      intros x. rewrite elem_of_cons, Hn1. set_solver.
    + split; [done|]. intros x. rewrite Hn1. split; [set_solver|].
      intros [[->%elem_of_singleton|?]%elem_of_union ?]; [by exfalso; eapply normal_not_arr|done].
  - rewrite Hdom'. destruct Hlists as [(_ & -> & Hn)|(_ & -> & e & d & Ha)].
    + split; [done|]. intros x. rewrite Hn2. split; [set_solver|].
      intros [[->%elem_of_singleton|?]%elem_of_union (e & d & ?)]; [by exfalso; eapply normal_not_arr|eauto].
    + split; [apply NoDup_cons; split; [rewrite Hn2; tauto|done]|].
      intros x. rewrite elem_of_cons, Hn2. set_solver.
  - intros x p. rewrite Hp, lookup_insert. case_decide as Ex.
    + intros [= <-]. subst x. exists i. by eapply class_ok_mono.
    + intros Hx. destruct (iv_ok _ Hinv x p Hx) as (j & ?). exists j. by eapply class_ok_mono.
  - intros x y e d. rewrite Hdom'.
    intros [->%elem_of_singleton|Hx]%elem_of_union [->%elem_of_singleton|Hy]%elem_of_union Hax Hay;
      try done.
    + destruct (Huq y e d d Hax Hy Hay). done.
    + destruct (Huq x e d d Hay Hx Hax). done.
    + by eapply (iv_uniq _ Hinv).
  - assert (Hgp : forall x, x ∈ dom (pos st) -> get_pos st' x = get_pos st x).
    { intros x Hx. unfold get_pos. rewrite Hp, lookup_insert_ne; [done|]. by intros ->. }
    assert (Hgc : get_pos st' c = column_idx st) by (unfold get_pos; by rewrite Hp, lookup_insert_eq).
    intros x y. rewrite Hdom'.
    intros [->%elem_of_singleton|Hx]%elem_of_union [->%elem_of_singleton|Hy]%elem_of_union.
    + rewrite Hgc. split; [constructor|done].
    + rewrite Hgp by done. auto.
    + rewrite Hgc. auto.
    + rewrite Hgp, Hold by done. by apply (iv_sem _ Hinv).
Qed.

Lemma get_pos_bound st c : inv st -> c ∈ dom (pos st) -> 0 <= get_pos st c < column_idx st.
Proof.
  intros Hinv [p Hp]%elem_of_dom. rewrite (get_pos_Some st c p) by done. by eapply (iv_pos _ Hinv).
Qed.

Lemma get_pos_inj st c d : inv st -> c ∈ dom (pos st) -> d ∈ dom (pos st) ->
  get_pos st c = get_pos st d -> c = d.
Proof.
  intros Hinv [p Hp]%elem_of_dom [q Hq]%elem_of_dom.
  rewrite (get_pos_Some st c p), (get_pos_Some st d q) by done. intros <-.
  by eapply (iv_inj _ Hinv).
Qed.

Lemma below_dom st p s : linked_below st p s -> s ∈ dom (pos st) /\ normal s.
Proof. intros (? & q & ? & _). split; [apply elem_of_dom; eauto|done]. Qed.

Lemma update_normal st c i : inv st -> loadable st c i -> kind i = NormalClass ->
  exists st', CIT_update_class_hierarchy H ObjectClass st c = Some st' /\ inv st' /\
    pos st' = <[c := column_idx st]> (pos st).
Proof.
  intros Hinv Hld Hk. pose proof Hld as [Hnew Hok _]. pose proof (co_info _ _ _ _ Hok) as Hi.
  assert (Hn : normal c) by (by exists i).
  destruct (new_row_spec st c i Hinv Hld)
    as (st1 & E1 & Hs1 & Hb1 & Hc1 & Hcb1 & HN1 & HA1 & Hp1 & Hd1 & Ha1).
  unfold CIT_update_class_hierarchy. rewrite Hi. simpl. rewrite E1. simpl. rewrite Hk.
  unfold _update_normal_class_hierarchy.
  destruct (or_interfaces_spec H (interfaces i) c st1 Hs1) as (st2 & E2 & Hs2 & Hf2 & Ha2).
  { rewrite Hd1. set_solver. }
  { intros s Hs. destruct (below_dom _ _ _ (co_ifs _ _ _ _ Hok s Hs)). rewrite Hd1. set_solver. }
  rewrite E2. simpl. eexists. split; [done|].
  pose proof Hf2 as (Hc2 & Hb2 & HN2 & HA2 & Hp2 & Hd2).
  split; [|simpl; congruence]. match goal with |- inv ?s => set (st3 := s) end.
  assert (Hifs : forall s q, s ∈ interfaces i -> arow st1 s q <-> arow st s q).
  { intros s q Hs. destruct (below_dom _ _ _ (co_ifs _ _ _ _ Hok s Hs)) as [Hsd _].
    rewrite Ha1. assert (s <> c) by (intros ->; by apply not_elem_of_dom in Hnew). naive_solver. }
  assert (Hfin : forall d q, arow st3 d q <-> (d <> c /\ arow st d q) \/ (d = c /\ (q = column_idx st
      \/ (exists s, superclass i = Some s /\ arow st s q) \/ (exists s, s ∈ interfaces i /\ arow st s q)))).
  { intros d q. change (arow st3 d q) with (arow st2 d q). rewrite Ha2, Ha1.
    assert ((exists s, s ∈ interfaces i /\ arow st1 s q) <-> exists s, s ∈ interfaces i /\ arow st s q)
      as -> by (split; intros (s & ? & Hs); exists s; by rewrite Hifs in * by done). tauto. }
  assert (Hne : forall d, d ∈ dom (pos st) -> d <> c)
    by (intros d Hd ->; by apply not_elem_of_dom in Hnew).
  assert (Hsub : forall d s, d ∈ dom (pos st) ->
    (superclass i = Some s \/ s ∈ interfaces i) -> arow st s (get_pos st d) <-> sub s d).
  { intros d s Hd Hs. apply (iv_sem _ Hinv); [|done].
    destruct Hs as [Hs|Hs]; [apply (co_super _ _ _ _ Hok) in Hs|apply (co_ifs _ _ _ _ Hok) in Hs];
      by apply below_dom in Hs as [? _]. }
  apply (inv_extend st st3 c i Hinv Hld); try (simpl; congruence || lia).
  - destruct Hs2; split; simpl; by rewrite ?Hb2.
  - left. simpl. split_and!; [congruence|congruence|done].
  - intros d q Hq. simpl. rewrite Hc2, Hc1. apply Hfin in Hq
      as [[_ ?%(iv_zero _ Hinv)]|[_ [->|[(s & _ & ?%(iv_zero _ Hinv))|(s & _ & ?%(iv_zero _ Hinv))]]]]; lia.
  - intros d Hd. split; [|by intros ?%(old_not_sub_new_normal st c i)].
    intros [[_ ?%(iv_zero _ Hinv)]|[? _]]%Hfin; [lia|]. by apply Hne in Hd.
  - intros d Hd. pose proof (get_pos_bound _ _ Hinv Hd).
    rewrite (sub_new_normal st c i), Hfin by naive_solver. split.
    + intros [[? _]|[_ [?|[(s & Hs & ?)|(s & Hs & ?)]]]]; [done|lia|left|right];
        exists s; rewrite <- Hsub by auto; done.
    + intros [(s & Hs & ?)|(s & Hs & ?)]; right; (split; [done|]); right; [left|right];
        exists s; rewrite Hsub by auto; done.
  - apply Hfin. auto.
  - intros d e Hd He. rewrite Hfin. specialize (Hne d Hd). tauto.
Qed.

(** The loop's two additions are the relation between the new array class and
    the old ones. *)
Lemma adds_up_sub st c i e d t : inv st -> loadable st c i -> arr c e d -> t ∈ ArrayHead st ->
  adds_up H ObjectClass e d sub t <-> sub c t.
Proof.
  intros Hinv [Hnew Hok _] Hc Ht. apply (proj2 (iv_arr _ Hinv)) in Ht as [Htd (te & td & Hta)].
  assert (c <> t) by (intros ->; by apply not_elem_of_dom in Hnew).
  rewrite (sub_arrays st _ c i t e d te td) by done. split.
  - intros (te' & td' & Ha & ?). destruct (arr_fun _ _ _ _ _ _ Hta Ha) as [<- <-]. naive_solver.
  - intros Hor. exists te, td. split; [done|]. naive_solver.
Qed.

Lemma adds_down_sub st c i e d t : inv st -> loadable st c i -> arr c e d -> t ∈ ArrayHead st ->
  adds_down H ObjectClass e d sub t <-> sub t c.
Proof.
  intros Hinv [Hnew Hok Huq] Hc Ht. apply (proj2 (iv_arr _ Hinv)) in Ht as [Htd (te & td & Hta)].
  assert (t <> c) by (intros ->; by apply not_elem_of_dom in Hnew).
  pose proof Htd as [p Hp]%elem_of_dom. destruct (iv_ok _ Hinv t p Hp) as (j & Hj).
  rewrite (sub_arrays st p t j c te td e d) by done. split.
  - intros (te' & td' & Ha & Hor). destruct (arr_fun _ _ _ _ _ _ Hta Ha) as [<- <-].
    destruct Hor as [[-> ?]|?]; [left|right; naive_solver].
    split_and!; [|done..]. intros ->. destruct (Huq t _ d td Hc Htd Hta) as [_ ?]. naive_solver lia.
  - intros Hor. exists te, td. split; [done|]. destruct Hor as [?|(?&?&<-&?&?&Hs)]; [naive_solver|].
    right. split_and!; try done. intros Hs'.
    destruct (co_arr _ _ _ _ Hok e td Hc) as (_ & _ & He).
    destruct (below_dom _ _ _ (He ltac:(done))) as [Hed Hen].
    destruct (co_arr _ _ _ _ Hj te td Hta) as (_ & _ & Hte).
    destruct (below_dom _ _ _ (Hte ltac:(done))) as [Hted Hten].
    assert (e = te) as -> by (by eapply sub_antisym).
    by destruct (Huq t te td td Hc Htd Hta).
Qed.

Lemma update_array st c i e cmp d : inv st -> loadable st c i -> kind i = ArrayClass e cmp d ->
  exists st', CIT_update_class_hierarchy H ObjectClass st c = Some st' /\ inv st' /\
    pos st' = <[c := column_idx st]> (pos st).
Proof.
  intros Hinv Hld Hk. pose proof Hld as [Hnew Hok _]. pose proof (co_info _ _ _ _ Hok) as Hi.
  assert (Harr : arr c e d) by (by exists i, cmp).
  destruct (co_arr _ _ _ _ Hok e d Harr) as (Hsup & _ & Hel).
  destruct (below_dom _ _ _ (co_super _ _ _ _ Hok _ Hsup)) as [Hobj Hobjn].
  destruct (new_row_spec st c i Hinv Hld)
    as (st1 & E1 & Hs1 & Hb1 & Hc1 & Hcb1 & HN1 & HA1 & Hp1 & Hd1 & Ha1).
  assert (Hne : forall x, x ∈ dom (pos st) -> x <> c)
    by (intros x Hx ->; by apply not_elem_of_dom in Hnew).
  assert (Hgp : forall x, x ∈ dom (pos st) -> get_pos st1 x = get_pos st x).
  { intros x Hx. unfold get_pos. rewrite Hp1, lookup_insert_ne; [done|]. by apply not_eq_sym, Hne. }
  assert (Hgc : get_pos st1 c = column_idx st) by (unfold get_pos; by rewrite Hp1, lookup_insert_eq).
  pose proof (iv_size _ Hinv).
  unfold CIT_update_class_hierarchy. rewrite Hi. simpl. rewrite E1. simpl. rewrite Hk.
  unfold _update_array_class_hierarchy. match goal with |- context [array_loop _ _ _ _ _ _ ?s] => set (st2 := s) end.
  assert (Hst2 : frame st1 st2 /\ shape H (fun _ => bitvec_size st1) st2 /\
    forall x q, arow st2 x q <-> arow st1 x q).
  { unfold st2. destruct (prim H cmp); [split_and!; [apply frame_refl|done|done]|].
    split_and!; try done. destruct Hs1; split; done. }
  destruct Hst2 as (Hf2 & Hs2 & Ha2). pose proof Hf2 as (Hc2 & Hb2 & HN2 & HA2 & Hp2 & Hd2).
  assert (HAH : ArrayHead st2 = ArrayHead st) by congruence. rewrite HAH.
  assert (Hlr : loop_ready H c e (bitvec_size st1) (fun x => x ∈ dom (pos st) /\ normal x) sub
    (ArrayHead st) st2).
  { assert (Hpb : forall x, x ∈ dom (pos st) -> x ∈ dom (rowptr st2) /\
      0 <= get_pos st2 x < 32 * bitvec_size st1).
    { intros x Hx. rewrite Hd2, Hd1, (frame_pos _ _ _ Hf2), Hgp by done.
      pose proof (get_pos_bound _ _ Hinv Hx). split; [set_solver|lia]. }
    split; [done| | | | |].
    - rewrite Hd2, Hd1, (frame_pos _ _ _ Hf2), Hgc. split_and!; [set_solver|lia|lia|].
      rewrite (proj2 (iv_arr _ Hinv)). intros [? _]. by eapply Hne.
    - intros Hp. by apply below_dom with (column_idx st), Hel.
    - intros t Ht. apply (proj2 (iv_arr _ Hinv)) in Ht as [Ht (te & td & Hta)].
      destruct (Hpb t Ht). split_and!; [done|lia|lia|]. exists te, td. split; [done|]. intros Hpt.
      pose proof Ht as [p Hp]%elem_of_dom. destruct (iv_ok _ Hinv t p Hp) as (j & Hj).
      destruct (co_arr _ _ _ _ Hj te td Hta) as (_ & _ & Hte). by apply below_dom with p, Hte.
    - intros x [Hx Hxn]. destruct (Hpb x Hx). split_and!; [done|lia|lia|by apply Hne|].
      rewrite (proj2 (iv_arr _ Hinv)). intros (_ & ? & ? & ?). by eapply normal_not_arr.
    - intros x y [Hx _] [Hy _]. rewrite (frame_pos _ _ _ Hf2), Hgp, Ha2, Ha1 by done.
      rewrite <- (iv_sem _ Hinv) by done. specialize (Hne x Hx). tauto. }
  destruct (array_loop_spec H ObjectClass c e d (bitvec_size st1) _ sub (ArrayHead st)
    (ArrayHead st) st2 Hlr) as (st3 & E3 & [Hs3 _ _ _ _ _] & Hf3 & Ha3); [done|].
  rewrite E3. simpl. eexists. split; [done|].
  pose proof Hf3 as (Hc3 & Hb3 & HN3 & HA3 & Hp3 & Hd3).
  split; [|simpl; congruence]. match goal with |- inv ?s => set (st4 := s) end.
  assert (Hfin : forall x q, arow st4 x q <-> (x <> c /\ arow st x q) \/
    (x = c /\ (q = column_idx st \/ arow st ObjectClass q)) \/
    (x = c /\ exists t, t ∈ ArrayHead st /\ q = get_pos st t /\ sub c t) \/
    (x ∈ ArrayHead st /\ q = column_idx st /\ sub x c)).
  { intros x q. change (arow st4 x q) with (arow st3 x q). rewrite Ha3, Ha2, Ha1.
    rewrite (frame_pos _ _ c Hf2), Hgc, Hsup.
    assert (Hup : (exists t, t ∈ ArrayHead st /\ q = get_pos st2 t /\ adds_up H ObjectClass e d sub t) <->
      exists t, t ∈ ArrayHead st /\ q = get_pos st t /\ sub c t).
    { split; intros (t & Ht & Hq & Hs); exists t;
        (apply (proj2 (iv_arr _ Hinv)) in Ht as Htd; destruct Htd as [Htd _]);
        rewrite (frame_pos _ _ _ Hf2), Hgp in * by done;
        (rewrite (adds_up_sub st c i e d t) in * by done); done. }
    rewrite Hup. assert (Hdn : (x ∈ ArrayHead st /\ q = column_idx st /\ adds_down H ObjectClass e d sub x) <->
      (x ∈ ArrayHead st /\ q = column_idx st /\ sub x c)).
    { split; intros (? & ? & Hs); (rewrite (adds_down_sub st c i e d x) in * by done); done. }
    assert (Hob : (exists s, Some ObjectClass = Some s /\ arow st s q) <-> arow st ObjectClass q)
      by (split; [by intros (? & [= <-] & ?)|eauto]).
    rewrite Hdn, Hob. clear. tauto. }
  assert (Hzero : forall x, ~ arow st x (column_idx st)) by (intros x ?%(iv_zero _ Hinv); lia).
  apply (inv_extend st st4 c i Hinv Hld); try (simpl; congruence || lia).
  - destruct Hs3; split; simpl; by rewrite ?Hb3, ?Hb2.
  - right. simpl. split_and!; [congruence|congruence|eauto].
  - intros x q Hq. simpl. rewrite Hc3, Hc2, Hc1. apply Hfin in Hq
      as [[_ ?%(iv_zero _ Hinv)]|[[_ [->|?%(iv_zero _ Hinv)]]|[(_ & t & Ht & -> & _)|(_ & -> & _)]]]; try lia.
    apply (proj2 (iv_arr _ Hinv)) in Ht as [Ht _]. pose proof (get_pos_bound _ _ Hinv Ht). lia.
  - intros x Hx. rewrite Hfin. split.
    + intros [[_ ?%Hzero]|[[? _]|[[? _]|(_ & _ & ?)]]]; try done; by apply Hne in Hx.
    + intros Hs. right. right. right. split_and!; [|done|done].
      destruct (linked_listed st x Hinv Hx) as [Hn|?]; [|done].
      apply (proj2 (iv_norm _ Hinv)) in Hn as [_ Hn]. by eapply normal_not_sub_array in Hs.
  - intros x Hx. pose proof (get_pos_bound _ _ Hinv Hx). rewrite Hfin.
    destruct (linked_listed st x Hinv Hx) as [Hn|Ha].
    + apply (proj2 (iv_norm _ Hinv)) in Hn as [_ Hn].
      rewrite (sub_array_normal st (column_idx st) c i e d x),
        <- (iv_sem _ Hinv ObjectClass x) by done.
      split; [|by auto].
      intros [[? _]|[[_ [?|?]]|[(_ & t & Ht & Hq & _)|(? & ? & _)]]]; try done; try lia.
      apply (proj2 (iv_arr _ Hinv)) in Ht as [Ht (te & td & Hta)].
      assert (x = t) as -> by (by eapply get_pos_inj). by exfalso; eapply normal_not_arr.
    + split; [|intros ?; right; right; left; eauto 10].
      intros [[? _]|[[_ [?|Hs]]|[(_ & t & Ht & Hq & ?)|(? & ? & _)]]]; try done; try lia.
      * apply (iv_sem _ Hinv) in Hs; [|done..]. apply (proj2 (iv_arr _ Hinv)) in Ha as [_ (te & td & Hta)].
        by eapply normal_not_sub_array in Hs.
      * apply (proj2 (iv_arr _ Hinv)) in Ht as [Ht _]. by assert (x = t) as -> by (by eapply get_pos_inj).
  - apply Hfin. auto.
  - intros x y Hx Hy. pose proof (get_pos_bound _ _ Hinv Hy). rewrite Hfin. specialize (Hne x Hx).
    naive_solver lia.
Qed.

Lemma inv_init : inv CIT_init.
Proof.
  assert (Hno : forall c q, ~ arow CIT_init c q).
  { intros c q (row & Hr & _). unfold row_of in Hr. simpl in Hr. by rewrite lookup_empty in Hr. }
  split.
  - split; intros *; simpl; rewrite ?lookup_empty; done.
  - simpl. unfold INITIAL_BITVEC_SIZE. lia.
  - done.
  - intros c p. simpl. by rewrite lookup_empty.
  - intros c d p. simpl. by rewrite lookup_empty.
  - split; [constructor|]. intros c. simpl. rewrite dom_empty_L. set_solver.
  - split; [constructor|]. intros c. simpl. rewrite dom_empty_L. set_solver.
  - intros c p. simpl. by rewrite lookup_empty.
  - intros c t e d Hc. simpl in Hc. rewrite dom_empty_L in Hc. set_solver.
  - by intros c q ?%Hno.
  - intros c d Hc. simpl in Hc. rewrite dom_empty_L in Hc. set_solver.
Qed.

(** The states the class loader produces by linking classes one at a time. *)
Inductive linked : CIT -> Prop :=
| linked_init : linked CIT_init
| linked_load st c i st' : linked st -> loadable st c i ->
    CIT_update_class_hierarchy H ObjectClass st c = Some st' -> linked st'.

Lemma update_spec st c i : inv st -> loadable st c i ->
  exists st', CIT_update_class_hierarchy H ObjectClass st c = Some st' /\ inv st' /\
    pos st' = <[c := column_idx st]> (pos st).
Proof.
  intros Hinv Hld. destruct (kind i) eqn:Hk; [by eapply update_normal|by eapply update_array].
Qed.

Lemma linked_inv st : linked st -> inv st.
Proof.
  induction 1 as [|st c i st' _ IH Hld E]; [apply inv_init|].
  destruct (update_spec st c i IH Hld) as (st'' & E' & ? & _). congruence.
Qed.

Lemma is_subclass_spec st c d : inv st -> c ∈ dom (pos st) -> d ∈ dom (pos st) ->
  exists b, CIT_is_subclass st c d = Some b /\ (b = true <-> sub c d).
Proof.
  intros Hinv Hc Hd. pose proof (get_pos_bound _ _ Hinv Hd). pose proof (iv_size _ Hinv).
  destruct (is_subclass_arow H _ st c d (iv_shape _ Hinv)) as (row & b & Hr & Hb & Hi);
    [by rewrite (iv_dom _ Hinv)|lia|].
  exists b. unfold CIT_is_subclass. rewrite Hr. simpl. split; [done|].
  rewrite Hi. by apply (iv_sem _ Hinv).
Qed.

(** Linking a class never fails when its superclass, interfaces and
    element class are linked: the update returns a state, no other class loses
    its column or changes its answers, the new class is linked, and the row
    pointer kept in the class's virtual table is the row of its [TypeRep]. *)
Theorem CIT_update_total st c i (Hl : linked st) (Hld : loadable st c i) :
  exists st', CIT_update_class_hierarchy H ObjectClass st c = Some st' /\ linked st' /\
    dom (pos st') = {[c]} ∪ dom (pos st) /\
    (forall x y, x ∈ dom (pos st) -> y ∈ dom (pos st) ->
       CIT_is_subclass st' x y = CIT_is_subclass st x y) /\
    (has_vtable i = true -> vtrow st' !! c = rowptr st' !! c /\ is_Some (rowptr st' !! c)).
Proof.
  pose proof (linked_inv _ Hl) as Hinv.
  destruct (update_spec st c i Hinv Hld) as (st' & E & Hinv' & Hp).
  assert (Hdom : dom (pos st') = {[c]} ∪ dom (pos st)) by (by rewrite Hp, dom_insert_L).
  exists st'. split; [done|]. split; [by eapply linked_load|]. split; [done|]. split.
  - intros x y Hx Hy.
    destruct (is_subclass_spec st x y) as (b & -> & Hb); [done..|].
    destruct (is_subclass_spec st' x y) as (b' & -> & Hb'); [done|set_solver..|].
    f_equal. destruct b, b'; naive_solver.
  - intros Hv. destruct (iv_shape _ Hinv') as [_ _ Hvt].
    rewrite (Hvt c i (co_info _ _ _ _ (ld_ok _ _ _ Hld)) Hv). split; [done|].
    apply elem_of_dom. rewrite (iv_dom _ Hinv'), Hdom. set_solver.
Qed.

(** An executable check of [loadable]. *)
Definition below_b (st : CIT) (s : Z) : bool :=
  match pos st !! s, H !! s with
  | Some q, Some i =>
      (q <? column_idx st) && match kind i with NormalClass => true | _ => false end
  | _, _ => false
  end.

Definition loadable_b (st : CIT) (c : Z) : bool :=
  match H !! c with
  | None => false
  | Some i =>
      bool_decide (pos st !! c = None) && negb (is_primitive i) &&
      match superclass i with Some s => below_b st s | None => true end &&
      forallb (below_b st) (interfaces i) &&
      match kind i with
      | NormalClass => true
      | ArrayClass e _ d =>
          bool_decide (superclass i = Some ObjectClass) && bool_decide (interfaces i = []) &&
          (prim H e || below_b st e) &&
          forallb (fun t =>
            match H !! t with
            | Some j =>
                match kind j with
                | ArrayClass e' _ d' =>
                    negb (e' =? e) || (negb (d' =? d) && (negb (e =? ObjectClass) || (d' <? d)))
                | NormalClass => true
                end
            | None => true
            end) (elements (dom (pos st)))
      end
  end.

Lemma below_b_sound st s : below_b st s = true -> linked_below st (column_idx st) s.
Proof.
  unfold below_b. destruct (pos st !! s) as [q|] eqn:?; [|done].
  destruct (H !! s) as [i|] eqn:?; [|done]. intros [? Hk]%andb_true_iff.
  destruct (kind i) eqn:?; [|done]. split; [by exists i|]. exists q. split; [done|lia].
Qed.

Lemma loadable_b_sound st c : loadable_b st c = true -> exists i, loadable st c i.
Proof.
  unfold loadable_b. destruct (H !! c) as [i|] eqn:Hi; [|done].
  rewrite !andb_true_iff. intros [[[[Hn Hp] Hs] Hf] Hk]. exists i.
  apply bool_decide_eq_true_1 in Hn. apply negb_true_iff in Hp.
  rewrite forallb_forall in Hf.
  split; [done| |].
  - split; [done|done| | |].
    + intros s Es. rewrite Es in Hs. by apply below_b_sound.
    + intros s Es%list_elem_of_In. by apply below_b_sound, Hf.
    + intros e d (j & cmp & Hj & Hkj). rewrite Hi in Hj. injection Hj as <-. rewrite Hkj in Hk.
      rewrite !andb_true_iff in Hk. destruct Hk as [[[H1 H2] H3] _].
      apply bool_decide_eq_true_1 in H1, H2. split_and!; [done..|]. intros Hpe.
      rewrite Hpe in H3. by apply below_b_sound.
  - intros t e d d' (j & cmp & Hj & Hkj) Ht (k & cmp' & Hk' & Hkk). rewrite Hi in Hj.
    injection Hj as <-. rewrite Hkj in Hk. rewrite !andb_true_iff in Hk. destruct Hk as [_ Hall].
    rewrite forallb_forall in Hall. specialize (Hall t). rewrite <- list_elem_of_In in Hall.
    rewrite elem_of_elements in Hall. specialize (Hall Ht). rewrite Hk', Hkk, Z.eqb_refl in Hall.
    simpl in Hall. rewrite andb_true_iff, orb_true_iff, negb_true_iff, negb_true_iff in Hall.
    rewrite !Z.eqb_neq, Z.ltb_lt in Hall. naive_solver lia.
Qed.

(** Loading a list of classes, each checked before it is linked. *)
Fixpoint load_checked (st : CIT) (cs : list Z) : option CIT :=
  match cs with
  | [] => Some st
  | c :: cs' =>
      if loadable_b st c
      then st' ← CIT_update_class_hierarchy H ObjectClass st c; load_checked st' cs'
      else None
  end.

Lemma load_checked_linked cs : forall st st', linked st -> load_checked st cs = Some st' -> linked st'.
Proof.
  induction cs as [|c cs IH]; intros st st' Hl; simpl; [by intros [= <-]|].
  destruct (loadable_b st c) eqn:E; [|done].
  apply loadable_b_sound in E as (i & Hld).
  destruct (CIT_update_class_hierarchy H ObjectClass st c) as [st1|] eqn:E1; [|done]. simpl.
  apply IH. by eapply linked_load.
Qed.

End Hierarchy.

(** ** The encoding used by array stores

    An array object carries [encoding], the byte offset of its component's bit
    in a row and the mask for that byte.  Rows are read bytewise on a
    big-endian machine. *)
Definition row_byte (row : list Z) (k : Z) : option Z :=
  w ← zlookup row (k / 4); Some (Z.land (Z.shiftr w (24 - 8 * (k mod 4))) 0xff).

(** Testing the byte [encoding >> 8] of a row with the mask
    [encoding & 0xff] is testing the bit of that column: the fast array-store
    check and [CIT_is_subclass] agree. *)
Theorem encoding_correct (row : list Z) (p : Z) (Hp : 0 <= p) :
  let enc := _make_encoding p in
  (b ← row_byte row (Z.shiftr enc 8); Some (negb (Z.land b (Z.land enc 0xff) =? 0)))
  = is_ith_bit_set row p.
Proof.
  assert (Hm : 0 <= p mod 8 < 8) by (apply Z.mod_pos_bound; lia).
  assert (Henc : _make_encoding p = (p / 8) * 256 + 2 ^ (7 - p mod 8)).
  { unfold _make_encoding. rewrite Z.shiftl_mul_pow2, Z.shiftr_div_pow2, Z.shiftl_1_l by lia.
    change 7 with (Z.ones 3) at 2. rewrite Z.land_ones by lia. change (2 ^ 3) with 8.
    change (2 ^ 8) with 256. rewrite <- Z.lxor_lor, <- Z.add_nocarry_lxor; [done| |];
      change 256 with (2 ^ 8); rewrite <- Z.shiftl_mul_pow2 by lia; apply Z.bits_inj';
      intros j Hj; rewrite Z.land_spec, Z.bits_0, Z.pow2_bits_eqb by lia;
      destruct (Z.lt_ge_cases j 8); [rewrite Z.shiftl_spec_low by lia; done| |
        rewrite Z.shiftl_spec_low by lia; done|];
      (destruct (Z.eqb_spec (7 - p mod 8) j); [lia|by rewrite andb_false_r]). }
  assert (Hpow : 0 < 2 ^ (7 - p mod 8) <= 2 ^ 7)
    by (split; [apply Z.pow_pos_nonneg; lia|apply Z.pow_le_mono_r; lia]).
  assert (H1 : Z.shiftr (_make_encoding p) 8 = p / 8).
  { rewrite Henc, Z.shiftr_div_pow2 by lia. change (2 ^ 8) with 256. dmlia. }
  assert (H2 : Z.land (_make_encoding p) 0xff = 2 ^ (7 - p mod 8)).
  { change 0xff with (Z.ones 8). rewrite Z.land_ones, Henc by lia. change (2 ^ 8) with 256. dmlia. }
  cbv zeta. rewrite H1, H2, is_ith_bit_set_BV, BV_IsSet_spec by done. unfold row_byte.
  replace (p / 8 / 4) with (p / 32) by dmlia.
  destruct (zlookup row (p / 32)) as [w|]; [|done]. simpl. f_equal.
  rewrite land_pow2_testbit by lia. change 255 with (Z.ones 8).
  rewrite Z.land_spec, Z.ones_spec_low, andb_true_r, Z.shiftr_spec by dmlia.
  f_equal. dmlia.
Qed.

Lemma encoding_correct_witness : is_ith_bit_set [0; 0x00400000] 41 = Some true.
Proof. rewrite <- (encoding_correct [0; 0x00400000] 41); [reflexivity|lia]. Defined.

(** ** A small class table

    Object 0, String 1 implementing the interface 2, int 100, and the array
    classes Object[] 10, Object[][] 11, String[] 12, int[] 13, String[][] 14. *)
Definition exH : gmap Z class_info := list_to_map [
  (0, mkClass None [] false true NormalClass);
  (2, mkClass (Some 0) [] false true NormalClass);
  (1, mkClass (Some 0) [2] false true NormalClass);
  (100, mkClass None [] true false NormalClass);
  (10, mkClass (Some 0) [] false true (ArrayClass 0 0 1));
  (11, mkClass (Some 0) [] false true (ArrayClass 0 10 2));
  (12, mkClass (Some 0) [] false true (ArrayClass 1 1 1));
  (13, mkClass (Some 0) [] false true (ArrayClass 100 100 1));
  (14, mkClass (Some 0) [] false true (ArrayClass 1 12 2)) ].

Definition ex_state : CIT :=
  match load_checked exH 0 CIT_init [0; 2; 1; 12; 10; 11; 13; 14] with
  | Some st => st | None => CIT_init end.

Lemma ex_state_linked : linked exH 0 ex_state.
Proof.
  apply (load_checked_linked exH 0 [0; 2; 1; 12; 10; 11; 13; 14] CIT_init);
    [constructor|vm_compute; reflexivity].
Qed.

Definition in_state (st : CIT) (c : Z) : bool := bool_decide (c ∈ dom (pos st)).

Lemma in_state_dom st c : in_state st c = true -> c ∈ dom (pos st).
Proof. apply bool_decide_eq_true_1. Qed.

Lemma CIT_update_total_witness : exists st',
  CIT_update_class_hierarchy exH 0 CIT_init 0 = Some st' /\ linked exH 0 st'.
Proof.
  destruct (loadable_b_sound exH 0 CIT_init 0) as (i & Hld); [vm_compute; reflexivity|].
  destruct (CIT_update_total exH 0 CIT_init 0 i (linked_init exH 0) Hld) as (st' & E & Hl & _).
  exists st'. split; [exact E|exact Hl].
Defined.
