(* ===== verification/Soft.v ===== *)
(** * Soft instructions (src/runtime/soft.c)

    The run-time routines behind bytecodes that the generated code does not
    expand: type tests, array creation checks, long and float arithmetic.

    Classes are those of [ClassInclusion].  [prepared ic] says that an
    interface is in state CSTATE_PREPARED or later; on an interface that is
    not, the code first calls [processClass], which is not modelled here, and
    the model stops with [None].  Floats are the IEEE values of Stdlib's
    [SpecFloat]. *)

From Stdlib Require Import SpecFloat.
From S2P Require Import Prelude BitVector ClassInclusion.

Section TypeTests.
Context (H : gmap Z class_info) (ObjectClass : Z) (prepared : Z -> bool).

Definition Class_IsArrayType (c : Z) : bool :=
  match H !! c with
  | Some i => match kind i with ArrayClass _ _ _ => true | NormalClass => false end
  | None => false
  end.

Definition Class_GetComponentType (c : Z) : option Z :=
  i ← H !! c; match kind i with ArrayClass _ comp _ => Some comp | NormalClass => None end.

(** The recursion follows superclasses and interfaces; [fuel] bounds its depth. *)
Fixpoint instanceof_class (fuel : nat) (c : Z) (oc : option Z) : option bool :=
  match oc with
  | None => Some false
  | Some o =>
      if o =? c then Some true else
      match fuel with
      | O => None
      | S fuel' =>
          i ← H !! o;
          b ← instanceof_class fuel' c (superclass i);
          if b : bool then Some true else
          (fix loop (ifs : list Z) : option bool :=
             match ifs with
             | [] => Some false
             | ic :: ifs' =>
                 if prepared ic then
                   b ← instanceof_class fuel' c (Some ic);
                   if b : bool then Some true else loop ifs'
                 else None
             end) (interfaces i)
      end
  end.

(** [while (Class_IsArrayType(c) && Class_IsArrayType(oc))] *)
Fixpoint strip_arrays (fuel : nat) (c oc : Z) : option (Z * Z) :=
  if Class_IsArrayType c && Class_IsArrayType oc then
    match fuel with
    | O => None
    | S fuel' =>
        c' ← Class_GetComponentType c;
        oc' ← Class_GetComponentType oc;
        strip_arrays fuel' c' oc'
    end
  else Some (c, oc).

Definition instanceof_array (fuel : nat) (c oc : Z) : option bool :=
  '(c, oc) ← strip_arrays fuel c oc;
  if Class_IsArrayType c then Some false
  else if prim H c then Some (c =? oc)
  else if Class_IsArrayType oc then Some (c =? ObjectClass)
  else if prim H oc then Some false
  else instanceof_class fuel c (Some oc).

Definition instanceof (fuel : nat) (c oc : Z) : option bool :=
  if Class_IsArrayType c then instanceof_array fuel c oc
  else instanceof_class fuel c (Some oc).

(** [o] is a reference: NULL or an object, given by its class. *)
Definition soft_instanceof (fuel : nat) (c : Z) (o : option Z) : option bool :=
  match o with
  | None => Some false
  | Some oc => instanceof fuel c oc
  end.

Definition soft_checkcast (fuel : nat) (c : Z) (o : option Z) : res failure (option Z) :=
  match o with
  | None => Ok o
  | Some _ =>
      b ← of_option OutOfFuel (soft_instanceof fuel c o);
      if b : bool then Ok o else Err ClassCastException
  end.

(** [array] is given by its class. *)
Definition soft_checkarraystore (fuel : nat) (array : Z) (obj : option Z) : res failure unit :=
  match obj with
  | None => Ok tt
  | Some _ =>
      comp ← of_option BadAccess (Class_GetComponentType array);
      b ← of_option OutOfFuel (soft_instanceof fuel comp obj);
      if b : bool then Ok tt else Err ArrayStoreException
  end.

End TypeTests.

(** ** Array creation *)

Section NewArray.
Context {Obj Cls : Type} (TYPE_CLASS : Z -> Cls) (newPrimArray newRefArray : Cls -> Z -> Obj)
  (newMultiArray : Cls -> list Z -> Obj).

Definition soft_newarray (type size : Z) : res failure Obj :=
  if size <? 0 then Err NegativeArraySizeException
  else Ok (newPrimArray (TYPE_CLASS type) size).

Definition soft_anewarray (elclass : Cls) (size : Z) : res failure Obj :=
  if size <? 0 then Err NegativeArraySizeException
  else Ok (newRefArray elclass size).

(** The dimensions are checked and copied in order, then terminated by -1. *)
Fixpoint copy_dims (dims : nat) (args arraydims : list Z) : res failure (list Z) :=
  match dims with
  | O => Ok (arraydims ++ [-1])
  | S n =>
      match args with
      | [] => Err Undefined
      | arg :: args' =>
          if arg <? 0 then Err NegativeArraySizeException
          else copy_dims n args' (arraydims ++ [arg])
      end
  end.

Definition soft_multianewarray (class : Cls) (dims : Z) (args : list Z) : res failure Obj :=
  arraydims ← copy_dims (Z.to_nat dims) args [];
  Ok (newMultiArray class arraydims).

End NewArray.

(** ** Comparison of floats *)

Definition isnan (v : spec_float) : bool := match v with S754_nan => true | _ => false end.
Definition isinf (v : spec_float) : bool := match v with S754_infinity _ => true | _ => false end.
Definition flt_gt (a b : spec_float) : bool :=
  match SFcompare a b with Some Gt => true | _ => false end.
Definition flt_eq (a b : spec_float) : bool :=
  match SFcompare a b with Some Eq => true | _ => false end.

Definition soft_dcmpg (v1 v2 : spec_float) : Z :=
  if (negb (isinf v1) && isnan v1) || (negb (isinf v2) && isnan v2) then 1
  else if flt_gt v1 v2 then 1
  else if flt_eq v1 v2 then 0
  else -1.

Definition soft_dcmpl (v1 v2 : spec_float) : Z :=
  if (negb (isinf v1) && isnan v1) || (negb (isinf v2) && isnan v2) then -1
  else if flt_gt v1 v2 then 1
  else if flt_eq v1 v2 then 0
  else -1.

Definition soft_fcmpg (v1 v2 : spec_float) : Z :=
  if (negb (isinf v1) && isnan v1) || (negb (isinf v2) && isnan v2) then 1
  else if flt_gt v1 v2 then 1
  else if flt_eq v1 v2 then 0
  else -1.

Definition soft_fcmpl (v1 v2 : spec_float) : Z :=
  if (negb (isinf v1) && isnan v1) || (negb (isinf v2) && isnan v2) then -1
  else if flt_gt v1 v2 then 1
  else if flt_eq v1 v2 then 0
  else -1.

(** Float division.  [k] is 1e300, which as a [jfloat] is infinite, and whose
    square is infinite as a [jdouble]; [-k*k] is the opposite infinity. *)
Definition soft_fdiv (v1 v2 : spec_float) : spec_float :=
  if flt_eq v2 (S754_zero false) then
    (if flt_gt v1 (S754_zero false) then S754_infinity false else S754_infinity true)
  else SFdiv 24 128 v1 v2.

Definition soft_fdivl (v1 v2 : spec_float) : spec_float :=
  if flt_eq v2 (S754_zero false) then
    (if flt_gt v1 (S754_zero false) then S754_infinity false else S754_infinity true)
  else SFdiv 53 1024 v1 v2.

(** ** Integer arithmetic

    [jint] is 32 and [jlong] 64 bits wide.  Division by zero and the overflow
    of [MIN / -1] are undefined in C. *)

Definition soft_lmul (v1 v2 : Z) : Z := s64 (v1 * v2).

Definition soft_ldiv (v1 v2 : Z) : res failure Z :=
  if v2 =? 0 then Err ArithmeticException
  else if (v1 =? - 2 ^ 63) && (v2 =? -1) then Err Undefined
  else Ok (Z.quot v1 v2).

Definition soft_lrem (v1 v2 : Z) : res failure Z :=
  if v2 =? 0 then Err ArithmeticException
  else if (v1 =? - 2 ^ 63) && (v2 =? -1) then Err Undefined
  else Ok (Z.rem v1 v2).

Definition soft_lshll (v1 v2 : Z) : Z := s64 (Z.shiftl v1 (Z.land v2 63)).
Definition soft_ashrl (v1 v2 : Z) : Z := Z.shiftr v1 (Z.land v2 63).
Definition soft_lshrl (v1 v2 : Z) : Z := s64 (Z.shiftr (u64 v1) (Z.land v2 63)).

Definition soft_lcmp (v1 v2 : Z) : Z :=
  let lcc := s64 (v2 - v1) in
  if lcc <? 0 then -1 else if 0 <? lcc then 1 else 0.

Definition soft_mul (v1 v2 : Z) : Z := s32 (v1 * v2).

Definition soft_div (v1 v2 : Z) : res failure Z :=
  if (v2 =? 0) || ((v1 =? - 2 ^ 31) && (v2 =? -1)) then Err Undefined
  else Ok (Z.quot v1 v2).

Definition soft_rem (v1 v2 : Z) : res failure Z :=
  if (v2 =? 0) || ((v1 =? - 2 ^ 31) && (v2 =? -1)) then Err Undefined
  else Ok (Z.rem v1 v2).

(** ** The type test and the subclass relation *)

Section TypeTestFacts.
Context (H : gmap Z class_info) (ObjectClass : Z) (prepared : Z -> bool).
Abbreviation sub := (sub H ObjectClass).
Abbreviation inv := (inv H ObjectClass).
Abbreviation arr := (arr H).

(** The loop over the interfaces of a class. *)
Lemma iface_loop_spec (f : Z -> option bool) (P : Z -> Prop) ifs :
  (forall ic, ic ∈ ifs -> prepared ic = true /\ exists b, f ic = Some b /\ (b = true <-> P ic)) ->
  exists b, (fix loop (ifs : list Z) : option bool :=
     match ifs with
     | [] => Some false
     | ic :: ifs' =>
         if prepared ic then
           b ← f ic; if b : bool then Some true else loop ifs'
         else None
     end) ifs = Some b /\ (b = true <-> exists ic, ic ∈ ifs /\ P ic).
Proof.
  induction ifs as [|ic ifs IH]; intros Hf.
  { exists false. split; [done|]. set_solver. }
  destruct (Hf ic) as (-> & b & Eb & Hb); [by left|].
  destruct IH as (b' & Eb' & Hb'); [intros; apply Hf; by right|].
  rewrite Eb. simpl. destruct b.
  - exists true. split; [done|]. split; [|done]. exists ic. split; [by left|by apply Hb].
  - exists b'. split; [done|]. rewrite Hb'. setoid_rewrite elem_of_cons. naive_solver.
Qed.

(** With enough fuel for the column of a linked class, the recursive test
    returns, and it computes the subclass relation. *)
Lemma instanceof_class_spec st c fuel : inv st ->
  (forall x, x ∈ dom (pos st) -> prepared x = true) ->
  forall o p, normal H o -> pos st !! o = Some p -> p < Z.of_nat fuel ->
  exists b, instanceof_class H prepared fuel c (Some o) = Some b /\ (b = true <-> sub o c).
Proof.
  intros Hinv Hprep. induction fuel as [|fuel IH]; intros o p Hn Hp Hf.
  { pose proof (iv_pos _ _ _ Hinv o p Hp). lia. }
  cbn [instanceof_class]. destruct (Z.eqb_spec o c) as [->|Hne].
  { exists true. split; [done|]. split; [constructor|done]. }
  destruct (iv_ok _ _ _ Hinv o p Hp) as (i & Hok). rewrite (co_info _ _ _ _ _ _ Hok). simpl.
  assert (Hsup : exists b, instanceof_class H prepared fuel c (superclass i) = Some b /\
    (b = true <-> exists s, superclass i = Some s /\ sub s c)).
  { destruct (superclass i) as [s|] eqn:Es.
    - destruct (co_super _ _ _ _ _ _ Hok s Es) as (Hsn & q & Hq & ?).
      destruct (IH s q Hsn Hq) as (b & -> & Hb); [lia|]. exists b. split; [done|]. naive_solver.
    - exists false. split; [by destruct fuel|]. naive_solver. }
  destruct Hsup as (b & -> & Hb). simpl.
  destruct (iface_loop_spec (fun ic => instanceof_class H prepared fuel c (Some ic))
    (fun ic => sub ic c) (interfaces i)) as (b' & Eb' & Hb').
  { intros ic Hic. destruct (co_ifs _ _ _ _ _ _ Hok ic Hic) as (Hin & q & Hq & ?).
    split; [apply Hprep, elem_of_dom; eauto|]. apply (IH ic q); [done|done|lia]. }
  rewrite Eb'.
  pose proof (sub_normal_cases H ObjectClass st p o i c Hok Hn (not_eq_sym Hne)) as Hs.
  destruct b; [exists true|exists b']; (split; [done|]); rewrite Hs; naive_solver.
Qed.

(** [dims x e k]: class [x] is the array class of [e] with dimension [k], or
    [e] itself when [k] is zero. *)
Definition dims (st : CIT) (x e k : Z) : Prop :=
  (k = 0 /\ x = e /\ Class_IsArrayType H x = false) \/
  (0 < k /\ arr x e k /\ x ∈ dom (pos st)).

(** What [lookupArray] establishes for array classes: the component of an
    array of dimension one is its element, of a larger one the array class of
    one dimension less. *)
Definition components_ok (st : CIT) : Prop :=
  forall a i e cmp d, a ∈ dom (pos st) -> H !! a = Some i -> kind i = ArrayClass e cmp d ->
    0 < d /\ dims st cmp e (d - 1).

(** The root of the hierarchy. *)
Definition root_ok (st : CIT) : Prop :=
  (exists i, H !! ObjectClass = Some i /\ superclass i = None /\ interfaces i = []) /\
  ObjectClass ∈ dom (pos st) /\ normal H ObjectClass /\
  (forall c, c ∈ dom (pos st) -> normal H c -> sub c ObjectClass).

Lemma array_type_arr x : Class_IsArrayType H x = true <-> exists e d, arr x e d.
Proof.
  unfold Class_IsArrayType, ClassInclusion.arr. destruct (H !! x) as [i|] eqn:Hi.
  - destruct (kind i) eqn:Hk; [|naive_solver]. split; [done|]. intros (?&?&?&?&?&?). congruence.
  - naive_solver.
Qed.

Lemma dims_array st x e k : dims st x e k -> 0 <= k /\ Class_IsArrayType H x = (0 <? k).
Proof.
  intros [(-> & _ & ->)|(Hk & Ha & _)]; [done|]. split; [lia|].
  replace (0 <? k) with true by lia. apply array_type_arr. eauto.
Qed.

Lemma dims_component st x e k : components_ok st -> dims st x e k -> 0 < k ->
  exists c, Class_GetComponentType H x = Some c /\ dims st c e (k - 1).
Proof.
  intros Hc [[? _]|(Hk & (i & cmp & Hi & Hkind) & Hx)] ?; [lia|].
  exists cmp. unfold Class_GetComponentType. rewrite Hi. simpl. rewrite Hkind.
  split; [done|]. by eapply Hc.
Qed.

(** The loop of [instanceof_array] strips the smaller of the two dimensions. *)
Lemma strip_spec st fuel : components_ok st -> forall c oc te td e d,
  dims st c te td -> dims st oc e d -> Z.min td d <= Z.of_nat fuel ->
  exists c' oc', strip_arrays H fuel c oc = Some (c', oc') /\
    dims st c' te (td - Z.min td d) /\ dims st oc' e (d - Z.min td d).
Proof.
  intros Hco. induction fuel as [|fuel IH]; intros c oc te td e d Hc Ho Hf;
    destruct (dims_array _ _ _ _ Hc) as [Htd Ec]; destruct (dims_array _ _ _ _ Ho) as [Hd Eo];
    cbn [strip_arrays]; rewrite Ec, Eo;
    (destruct (Z.ltb_spec 0 td), (Z.ltb_spec 0 d); simpl; try lia;
     try (exists c, oc; replace (Z.min td d) with 0 by lia; rewrite !Z.sub_0_r; done)).
  destruct (dims_component _ _ _ _ Hco Hc) as (c' & -> & Hc'); [done|].
  destruct (dims_component _ _ _ _ Hco Ho) as (o' & -> & Ho'); [done|]. simpl.
  destruct (IH c' o' te (td - 1) e (d - 1)) as (c2 & o2 & E & ? & ?); [done..|lia|].
  exists c2, o2. split; [done|].
  replace (td - Z.min td d) with (td - 1 - Z.min (td - 1) (d - 1)) by lia.
  by replace (d - Z.min td d) with (d - 1 - Z.min (td - 1) (d - 1)) by lia.
Qed.

Lemma arr_dims st x e d : components_ok st -> x ∈ dom (pos st) -> arr x e d -> dims st x e d.
Proof.
  intros Hc Hx (i & cmp & Hi & Hk). right.
  destruct (Hc x i e cmp d Hx Hi Hk) as [? _]. split_and!; [done|by exists i, cmp|done].
Qed.

Lemma dims_0 st x e : dims st x e 0 -> x = e.
Proof. intros [(_ & -> & _)|[? _]]; [done|lia]. Qed.

(** The pairs on which the bit matrix and the recursive test differ: an array
    of a primitive type against Object[] of the same dimension, and Object
    arrays of different dimension. *)
Definition disputed (x y : Z) : Prop :=
  exists e d td, arr x e d /\ arr y ObjectClass td /\
    ((td = d /\ prim H e = true) \/ (e = ObjectClass /\ td < d)).

Lemma object_only st c : root_ok st -> sub ObjectClass c <-> c = ObjectClass.
Proof.
  intros ((i & Hi & Hs & Hf) & _ & Hn & _). split; [|intros ->; constructor].
  inversion 1; subst; simplify_eq; try done; try (rewrite Hf in *; set_solver);
    by exfalso; eapply normal_not_arr.
Qed.

Lemma normal_array_type c : normal H c -> Class_IsArrayType H c = false.
Proof.
  intros Hn. destruct (Class_IsArrayType H c) eqn:E; [|done].
  apply array_type_arr in E as (? & ? & ?). by exfalso; eapply normal_not_arr.
Qed.

Lemma linked_normal_or_arr st x : inv st -> x ∈ dom (pos st) -> normal H x \/ exists e d, arr x e d.
Proof.
  intros Hinv Hx. destruct (linked_listed H ObjectClass st x Hinv Hx) as [Hl|Hl].
  - apply (proj2 (iv_norm _ _ _ Hinv)) in Hl as [_ ?]. by left.
  - apply (proj2 (iv_arr _ _ _ Hinv)) in Hl as [_ ?]. by right.
Qed.

(** Element types: primitive, or a linked ordinary class. *)
Lemma elem_linked st p x i e d : class_ok H ObjectClass st p x i -> arr x e d ->
  prim H e = false -> exists q, normal H e /\ pos st !! e = Some q /\ q < p.
Proof.
  intros Hok Ha Hp. destruct (co_arr _ _ _ _ _ _ Hok e d Ha) as (_ & _ & Hl).
  destruct (Hl Hp) as (? & q & ? & ?). eauto.
Qed.

Context (st : CIT) (Hinv : inv st) (Hco : components_ok st) (Hroot : root_ok st)
  (Hprep : forall x, x ∈ dom (pos st) -> prepared x = true).

Lemma prim_not_object e : prim H e = true -> e <> ObjectClass.
Proof.
  intros He ->. destruct Hroot as (_ & [p Hp]%elem_of_dom & _).
  destruct (iv_ok _ _ _ Hinv _ _ Hp) as (i & Hok).
  rewrite (prim_false_of_ok _ _ _ _ _ _ Hok) in He. done.
Qed.

(** Arrays of the same dimension are compared by their elements. *)
Lemma same_dim_sub x y e te d : x ∈ dom (pos st) -> y ∈ dom (pos st) -> arr x e d -> arr y te d ->
  sub x y <-> e = te \/ (e <> ObjectClass /\ te = ObjectClass) \/
    (e <> ObjectClass /\ te <> ObjectClass /\ prim H e = false /\ prim H te = false /\ sub e te).
Proof.
  intros Hx Hy Hax Hay. pose proof Hx as [p Hp]%elem_of_dom.
  destruct (iv_ok _ _ _ Hinv x p Hp) as (i & Hok). destruct (decide (e = te)) as [->|Hne].
  - assert (x = y) as -> by (by eapply (iv_uniq _ _ _ Hinv)). split; [by left|constructor].
  - assert (x <> y).
    { intros ->. apply Hne. by destruct (arr_fun _ _ _ _ _ _ Hax Hay). }
    rewrite (sub_arrays H ObjectClass st p x i y e d te d) by done. naive_solver lia.
Qed.

Lemma diff_dim_sub x y e te d td : x ∈ dom (pos st) -> arr x e d -> arr y te td -> d <> td ->
  sub x y <-> e <> ObjectClass /\ te = ObjectClass /\ td <= d.
Proof.
  intros Hx Hax Hay Hne. pose proof Hx as [p Hp]%elem_of_dom.
  destruct (iv_ok _ _ _ Hinv x p Hp) as (i & Hok).
  assert (x <> y) by (intros ->; by destruct (arr_fun _ _ _ _ _ _ Hax Hay)).
  rewrite (sub_arrays H ObjectClass st p x i y e d te td) by done. naive_solver.
Qed.

Lemma not_disputed_prim x y e d : ~ disputed x y -> arr x e d -> arr y ObjectClass d ->
  prim H e = false.
Proof. intros Hnd ? ?. destruct (prim H e) eqn:E; [|done]. exfalso. apply Hnd. exists e, d, d. auto. Qed.

Lemma instanceof_same_dim fuel x y e te d :
  x ∈ dom (pos st) -> y ∈ dom (pos st) -> arr x e d -> arr y te d ->
  Class_IsArrayType H e = false -> Class_IsArrayType H te = false ->
  column_idx st <= Z.of_nat fuel ->
  exists b, (if Class_IsArrayType H te then Some false
    else if prim H te then Some (te =? e)
    else if Class_IsArrayType H e then Some (te =? ObjectClass)
    else if prim H e then Some false
    else instanceof_class H prepared fuel te (Some e)) = Some b /\
    (~ disputed x y -> b = true <-> sub x y).
Proof.
  intros Hx Hy Hax Hay He Hte Hf. rewrite He, Hte.
  pose proof (same_dim_sub x y e te d Hx Hy Hax Hay) as Hs.
  pose proof Hx as [p Hp]%elem_of_dom. destruct (iv_ok _ _ _ Hinv x p Hp) as (i & Hok).
  destruct (prim H te) eqn:Ept.
  { exists (te =? e). split; [done|]. intros _. rewrite Z.eqb_eq, Hs.
    apply prim_not_object in Ept as ?. naive_solver. }
  destruct (prim H e) eqn:Epe.
  { exists false. split; [done|]. intros Hnd. rewrite Hs. split; [done|].
    intros [->|[[? ->]|(_ & _ & ? & _)]]; [congruence| |done].
    rewrite (not_disputed_prim x y e d) in Epe by done. done. }
  destruct (elem_linked st p x i e d Hok Hax Epe) as (q & Hen & Hq & _).
  destruct (instanceof_class_spec st te fuel Hinv Hprep e q Hen Hq)
    as (b & -> & Hb); [pose proof (iv_pos _ _ _ Hinv e q Hq); lia|].
  exists b. split; [done|]. intros _. rewrite Hb, Hs. destruct (decide (e = te)) as [->|Hne].
  { split; [by left|constructor]. }
  destruct (decide (te = ObjectClass)) as [->|].
  { split; [auto|]. intros _. apply Hroot; [apply elem_of_dom; eauto|done]. }
  destruct (decide (e = ObjectClass)) as [->|]; [|naive_solver].
  rewrite (object_only st) by done. naive_solver.
Qed.

Lemma instanceof_arrays fuel x y e d te td :
  x ∈ dom (pos st) -> y ∈ dom (pos st) -> arr x e d -> arr y te td ->
  column_idx st <= Z.of_nat fuel -> d <= Z.of_nat fuel ->
  exists b, instanceof_array H ObjectClass prepared fuel y x = Some b /\
    (~ disputed x y -> b = true <-> sub x y).
Proof.
  intros Hx Hy Hax Hay Hf Hfd. unfold instanceof_array.
  destruct (strip_spec st fuel Hco y x te td e d) as (y' & x' & -> & Hy' & Hx');
    [by apply arr_dims|by apply arr_dims|lia|]. simpl.
  destruct (dims_array _ _ _ _ Hy') as [_ Ey]. destruct (dims_array _ _ _ _ Hx') as [_ Ex].
  destruct (Z.lt_trichotomy td d) as [Hlt|[->|Hgt]].
  - replace (td - Z.min td d) with 0 in * by lia. apply dims_0 in Hy' as ->.
    rewrite Ey, Ex. replace (0 <? d - Z.min td d) with true by lia. simpl.
    assert (Hs := diff_dim_sub x y e te d td Hx Hax Hay ltac:(lia)).
    destruct (prim H te) eqn:Ep.
    + exists (te =? x'). split; [done|]. intros _. rewrite Hs. apply prim_not_object in Ep as ?.
      destruct (Z.eqb_spec te x') as [->|]; [|naive_solver].
      rewrite Ey in Ex. replace (0 <? d - Z.min td d) with true in Ex by lia. done.
    + exists (te =? ObjectClass). split; [done|]. intros Hnd. rewrite Z.eqb_eq, Hs. split; [|naive_solver].
      intros ->. split_and!; [|done|lia]. intros ->. apply Hnd. exists ObjectClass, d, td. auto.
  - rewrite !Z.min_id, !Z.sub_diag in *. apply dims_0 in Hy' as ->. apply dims_0 in Hx' as ->.
    by eapply instanceof_same_dim.
  - rewrite Ey. replace (0 <? td - Z.min td d) with true by lia.
    exists false. split; [done|]. intros _. rewrite (diff_dim_sub x y e te d td) by (done || lia).
    naive_solver lia.
Qed.

Lemma instanceof_sub fuel x y :
  x ∈ dom (pos st) -> y ∈ dom (pos st) -> column_idx st <= Z.of_nat fuel ->
  (forall e d, arr x e d -> d <= Z.of_nat fuel) ->
  exists b, instanceof H ObjectClass prepared fuel y x = Some b /\
    (~ disputed x y -> b = true <-> sub x y).
Proof.
  intros Hx Hy Hf Hfd. unfold instanceof. pose proof Hx as [p Hp]%elem_of_dom.
  pose proof (iv_pos _ _ _ Hinv x p Hp). destruct (linked_normal_or_arr st y Hinv Hy) as [Hyn|(te & td & Hay)].
  - rewrite (normal_array_type y) by done.
    destruct (linked_normal_or_arr st x Hinv Hx) as [Hxn|(e & d & Hax)].
    { destruct (instanceof_class_spec st y fuel Hinv Hprep x p Hxn Hp)
        as (b & ? & ?); [lia|]. eauto. }
    destruct (iv_ok _ _ _ Hinv x p Hp) as (i & Hok).
    destruct (co_arr _ _ _ _ _ _ Hok e d Hax) as (Hsup & Hif & _).
    destruct (co_super _ _ _ _ _ _ Hok _ Hsup) as (Hon & q & Hq & Hqp).
    assert (Hs := sub_array_normal H ObjectClass st p x i e d y Hok Hax Hyn).
    destruct fuel as [|fuel]; [lia|]. cbn [instanceof_class].
    destruct (Z.eqb_spec x y) as [->|]; [destruct (normal_not_arr H y e d Hyn Hax)|].
    rewrite (co_info _ _ _ _ _ _ Hok). simpl. rewrite Hsup, Hif.
    destruct (instanceof_class_spec st y fuel Hinv Hprep _ q Hon Hq)
      as (b & -> & Hb); [lia|]. simpl.
    exists b. split; [by destruct b|]. intros _. by rewrite Hs.
  - assert (Hya : Class_IsArrayType H y = true) by (apply array_type_arr; eauto). rewrite Hya.
    destruct (linked_normal_or_arr st x Hinv Hx) as [Hxn|(e & d & Hax)].
    { exists false. unfold instanceof_array.
      replace (strip_arrays H fuel y x) with (Some (y, x))
        by (destruct fuel; simpl; by rewrite (normal_array_type x), andb_false_r).
      simpl. rewrite Hya. split; [done|]. intros _. split; [done|]. intros Hs.
      by eapply normal_not_sub_array in Hs. }
    eapply instanceof_arrays; eauto.
Qed.

End TypeTestFacts.

(** C28: on the classes of every reachable hierarchy the constant-time test of
    the bit matrix and the recursive search of [instanceof] return the same
    answer, except on the disputed pairs: arrays of primitives against
    Object[] of the same dimension, and Object arrays of larger dimension
    against smaller ones.  Both tests terminate: the search with fuel for the
    number of linked classes and the dimension of the object's class. *)
Theorem matrix_agrees_with_instanceof (H : gmap Z class_info) (ObjectClass : Z)
    (prepared : Z -> bool) (st : CIT) (fuel : nat) (x y : Z)
    (Hl : linked H ObjectClass st) (Hco : components_ok H st) (Hroot : root_ok H ObjectClass st)
    (Hprep : forall c, c ∈ dom (pos st) -> prepared c = true)
    (Hx : x ∈ dom (pos st)) (Hy : y ∈ dom (pos st))
    (Hfuel : column_idx st <= Z.of_nat fuel)
    (Hdim : forall e d, arr H x e d -> d <= Z.of_nat fuel)
    (Hnd : ~ disputed H ObjectClass x y) :
  exists b, CIT_is_subclass st x y = Some b /\
    instanceof H ObjectClass prepared fuel y x = Some b.
Proof.
  pose proof (linked_inv _ _ _ Hl) as Hinv.
  destruct (is_subclass_spec _ _ st x y Hinv Hx Hy) as (b & -> & Hb).
  destruct (instanceof_sub H ObjectClass prepared st Hinv Hco Hroot Hprep fuel x y Hx Hy Hfuel Hdim)
    as (b' & -> & Hb'). exists b. split; [done|]. f_equal.
  specialize (Hb' Hnd). destruct b, b'; naive_solver.
Qed.

Definition all_prepared : Z -> bool := fun _ => true.

Definition ex_ids : list Z := [0; 1; 2; 10; 11; 12; 13; 14].

Lemma ex_elements c : c ∈ dom (pos ex_state) -> In c ex_ids.
Proof.
  intros Hc%elem_of_elements%list_elem_of_In.
  assert (Hall : forallb (fun x => existsb (Z.eqb x) ex_ids) (elements (dom (pos ex_state))) = true)
    by (vm_compute; reflexivity).
  rewrite forallb_forall in Hall. apply Hall, existsb_exists in Hc as (x & Hx & ->%Z.eqb_eq). done.
Qed.

Lemma dims_some H st x e k i cmp : 0 < k -> H !! x = Some i -> kind i = ArrayClass e cmp k ->
  in_state st x = true -> dims H st x e k.
Proof. intros ? ? ? ?%in_state_dom. right. split_and!; [done|by exists i, cmp|done]. Qed.

Lemma dims_none H st x : Class_IsArrayType H x = false -> dims H st x x 0.
Proof. intros ?. by left. Qed.

Lemma ex_components_ok : components_ok exH ex_state.
Proof.
  intros a i e cmp d Ha%ex_elements Hi Hk.
  repeat (destruct Ha as [<-|Ha]; [
    lazymatch type of Hi with _ !! ?k = _ =>
      let v := eval vm_compute in (exH !! k) in
      assert (Hv : exH !! k = v) by (vm_compute; reflexivity) end;
    rewrite Hv in Hi; injection Hi as <-; cbn in Hk; try discriminate Hk;
    injection Hk as <- <- <-; (split; [lia|]);
    lazymatch goal with
    | |- dims _ _ ?x ?x _ => apply (dims_none exH); vm_compute; reflexivity
    | |- dims _ _ ?x ?e ?k =>
        let i := eval vm_compute in (exH !! x) in
        lazymatch i with Some ?j =>
          eapply (dims_some exH ex_state x e k j); [lia|vm_compute; reflexivity..] end
    end|]).
  destruct Ha.
Qed.

Lemma ex_root_ok : root_ok exH 0 ex_state.
Proof.
  split_and!.
  - exists (mkClass None [] false true NormalClass). split_and!; vm_compute; reflexivity.
  - apply in_state_dom. vm_compute. reflexivity.
  - exists (mkClass None [] false true NormalClass). by split; vm_compute.
  - intros c Hc%ex_elements (i & Hi & Hk).
    assert (Hs : forall c, (j ← exH !! c; superclass j) = Some 0 -> sub exH 0 c 0).
    { intros c' (j & ? & ?)%bind_Some. eapply sub_super; [done..|constructor]. }
    repeat (destruct Hc as [<-|Hc];
      [first [apply Hs; vm_compute; reflexivity|constructor]|]). destruct Hc.
Qed.

Lemma matrix_agrees_with_instanceof_witness : exists b,
  CIT_is_subclass ex_state 14 10 = Some b /\ instanceof exH 0 all_prepared 20 10 14 = Some b.
Proof.
  apply (matrix_agrees_with_instanceof exH 0 all_prepared ex_state 20 14 10
    ex_state_linked ex_components_ok ex_root_ok).
  - intros c _. reflexivity.
  - apply in_state_dom. vm_compute. reflexivity.
  - apply in_state_dom. vm_compute. reflexivity.
  - vm_compute. discriminate.
  - intros e d (i & cmp & Hi & Hk). vm_compute in Hi. injection Hi as <-. vm_compute in Hk.
    injection Hk as _ _ <-. lia.
  - intros (e & d & td & (i & cmp & Hi & Hk) & _ & Hor). vm_compute in Hi. injection Hi as <-.
    vm_compute in Hk. injection Hk as <- _ _. destruct Hor as [[_ Hp]|[Hp _]].
    + vm_compute in Hp. discriminate Hp.
    + discriminate Hp.
Defined.

(** The two tests really differ on the disputed pairs: in a reachable
    hierarchy with Object 0, Object[] 10, Object[][] 11 and int[] 13, the
    matrix denies that Object[][] is an Object[] and affirms that int[] is an
    Object[], while the recursive test answers the other way round. *)
Theorem matrix_disputed_pairs :
  linked exH 0 ex_state /\
  CIT_is_subclass ex_state 11 10 = Some false /\
  instanceof exH 0 all_prepared 20 10 11 = Some true /\
  CIT_is_subclass ex_state 13 10 = Some true /\
  instanceof exH 0 all_prepared 20 10 13 = Some false.
Proof. split; [exact ex_state_linked|]. repeat split; vm_compute; reflexivity. Qed.

(** ** Arithmetic *)

(** [soft_ldiv] and [soft_lrem] implement truncating division on 64-bit
    integers: a zero divisor raises [ArithmeticException], and otherwise
    quotient and remainder satisfy the division identity, the remainder is
    smaller than the divisor and has the sign of the dividend, and both fit
    64 bits; only [MIN / -1] is left undefined by C. *)
Theorem soft_ldiv_lrem_correct (v1 v2 : Z) (H1 : in_s 64 v1) (H2 : in_s 64 v2) :
  (v2 = 0 -> soft_ldiv v1 v2 = Err ArithmeticException /\ soft_lrem v1 v2 = Err ArithmeticException) /\
  (v2 <> 0 -> ~ (v1 = - 2 ^ 63 /\ v2 = -1) -> exists q r,
     soft_ldiv v1 v2 = Ok q /\ soft_lrem v1 v2 = Ok r /\ v1 = v2 * q + r /\
     Z.abs r < Z.abs v2 /\ 0 <= v1 * r /\ in_s 64 q /\ in_s 64 r).
Proof.
  unfold soft_ldiv, soft_lrem. split; [by intros ->|]. intros Hz Hov.
  destruct (Z.eqb_spec v2 0); [done|].
  destruct (Z.eqb_spec v1 (- 2 ^ 63)), (Z.eqb_spec v2 (-1)); simpl; try tauto;
  (exists (Z.quot v1 v2), (Z.rem v1 v2);
   pose proof (Z.quot_rem' v1 v2) as Hqr; pose proof (Z.rem_bound_abs v1 v2 ltac:(done)) as Hb;
   pose proof (Z.rem_sign_mul v1 v2 ltac:(done)) as Hs;
   unfold in_s in *; change (64 - 1) with 63 in *;
   split_and!; try done; try nia).
Qed.

Lemma soft_ldiv_lrem_correct_witness : exists q r,
  soft_ldiv (-7) 2 = Ok q /\ soft_lrem (-7) 2 = Ok r /\ -7 = 2 * q + r.
Proof.
  destruct (soft_ldiv_lrem_correct (-7) 2) as [_ Hd]; [split; simpl; lia|split; simpl; lia|].
  destruct Hd as (q & r & E1 & E2 & E3 & _); [lia|lia|].
  exists q, r. split; [exact E1|]. split; [exact E2|exact E3].
Defined.

(** [soft_lcmp v1 v2] is the sign of [v2 - v1], the order its callers
    rely on, exactly when the difference fits 64 bits; on every pair whose
    difference overflows the answer is wrong. *)
Theorem soft_lcmp_iff (v1 v2 : Z) (H1 : in_s 64 v1) (H2 : in_s 64 v2) :
  soft_lcmp v1 v2 = Z.sgn (v2 - v1) <-> in_s 64 (v2 - v1).
Proof.
  unfold soft_lcmp. destruct (wraps_eqm 64 (v2 - v1)) as [k Hk]; [lia|].
  pose proof (wraps_range 64 (v2 - v1) ltac:(lia)) as Hr.
  unfold in_s in *. change (64 - 1) with 63 in *. change (2 ^ 64) with (2 * 2 ^ 63) in *.
  assert (-1 <= k <= 1) by lia. zcmps; assert (k = -1 \/ k = 0 \/ k = 1) as [-> | [-> | ->] ] by lia; lia.
Qed.

Lemma soft_lcmp_iff_witness :
  soft_lcmp 5 (-3) = Z.sgn (-3 - 5) /\ soft_lcmp 1 (- 2 ^ 63) <> Z.sgn (- 2 ^ 63 - 1).
Proof.
  split.
  - apply soft_lcmp_iff; split; vm_compute; congruence.
  - intros Hc. apply soft_lcmp_iff in Hc as [Hc _]; [|split; vm_compute; congruence..].
    vm_compute in Hc. congruence.
Defined.

(** The three-way comparison of two floats that are not NaN. *)
Definition float_order (v1 v2 : spec_float) : option Z :=
  match SFcompare v1 v2 with
  | Some Gt => Some 1 | Some Eq => Some 0 | Some Lt => Some (-1) | None => None end.

Lemma float_order_nan v1 v2 : float_order v1 v2 = None <-> isnan v1 || isnan v2 = true.
Proof.
  unfold float_order. destruct v1 as [[]|[]| |[] ? ?], v2 as [[]|[]| |[] ? ?]; simpl; try done;
    repeat case_match; done.
Qed.

Lemma nan_guard v : negb (isinf v) && isnan v = isnan v.
Proof. by destruct v. Qed.

(** The float comparisons implement the Java order: on operands that are
    not NaN the [g] and [l] variants return the IEEE three-way comparison, and
    on a NaN they return 1 and -1. *)
Theorem soft_fcmp_correct (v1 v2 : spec_float) :
  soft_dcmpg v1 v2 = default 1 (float_order v1 v2) /\
  soft_fcmpg v1 v2 = default 1 (float_order v1 v2) /\
  soft_dcmpl v1 v2 = default (-1) (float_order v1 v2) /\
  soft_fcmpl v1 v2 = default (-1) (float_order v1 v2).
Proof.
  unfold soft_dcmpg, soft_fcmpg, soft_dcmpl, soft_fcmpl. rewrite !nan_guard.
  destruct (isnan v1 || isnan v2) eqn:En.
  - by rewrite (proj2 (float_order_nan v1 v2) En).
  - assert (Ho : float_order v1 v2 <> None) by (rewrite float_order_nan; congruence).
    revert Ho. unfold float_order, flt_gt, flt_eq. by destruct (SFcompare v1 v2) as [[]|].
Qed.

Definition is_zero (v : spec_float) : bool := match v with S754_zero _ => true | _ => false end.

(** Operands on which [soft_fdiv] leaves IEEE division. *)
Definition fdiv_special (v1 v2 : spec_float) : Prop :=
  is_zero v2 = true /\ (v2 = S754_zero true \/ is_zero v1 = true \/ v1 = S754_nan).

Lemma flt_eq_zero v : flt_eq v (S754_zero false) = is_zero v.
Proof. by destruct v as [[]|[]| |[] ? ?]. Qed.

(** The division as both widths write it. *)
Definition zero_div (prec emax : Z) (v1 v2 : spec_float) : spec_float :=
  if flt_eq v2 (S754_zero false) then
    (if flt_gt v1 (S754_zero false) then S754_infinity false else S754_infinity true)
  else SFdiv prec emax v1 v2.

Lemma zero_div_iff prec emax v1 v2 :
  zero_div prec emax v1 v2 = SFdiv prec emax v1 v2 <-> ~ fdiv_special v1 v2.
Proof.
  unfold zero_div, fdiv_special. rewrite flt_eq_zero.
  destruct v2 as [[]|[]| |[] ? ?]; simpl; try naive_solver;
    destruct v1 as [[]|[]| |[] ? ?]; vm_compute; naive_solver.
Qed.

(** [soft_fdiv] and [soft_fdivl] return the IEEE quotient of their width
    except for a zero divisor that is negative or meets a zero or NaN
    dividend, where they return an infinity of the wrong sign or instead of
    NaN. *)
Theorem soft_fdiv_iff (v1 v2 : spec_float) :
  (soft_fdiv v1 v2 = SFdiv 24 128 v1 v2 <-> ~ fdiv_special v1 v2) /\
  (soft_fdivl v1 v2 = SFdiv 53 1024 v1 v2 <-> ~ fdiv_special v1 v2).
Proof. split; [apply (zero_div_iff 24 128)|apply (zero_div_iff 53 1024)]. Qed.

(** A store into a linked array type-checks without running out of fuel:
    [soft_checkarraystore] accepts NULL and the objects whose class is a
    subclass of the array's component, and raises [ArrayStoreException] on
    the others. *)
Theorem soft_checkarraystore_correct (H : gmap Z class_info) (ObjectClass : Z)
    (prepared : Z -> bool) (st : CIT) (fuel : nat) (array comp : Z)
    (Hl : linked H ObjectClass st) (Hco : components_ok H st) (Hroot : root_ok H ObjectClass st)
    (Hprep : forall c, c ∈ dom (pos st) -> prepared c = true)
    (Hcomp : Class_GetComponentType H array = Some comp) (Hc : comp ∈ dom (pos st))
    (Hfuel : column_idx st <= Z.of_nat fuel) :
  soft_checkarraystore H ObjectClass prepared fuel array None = Ok tt /\
  forall o, o ∈ dom (pos st) -> ~ disputed H ObjectClass o comp ->
    (forall e d, arr H o e d -> d <= Z.of_nat fuel) ->
    (sub H ObjectClass o comp ->
       soft_checkarraystore H ObjectClass prepared fuel array (Some o) = Ok tt) /\
    (~ sub H ObjectClass o comp ->
       soft_checkarraystore H ObjectClass prepared fuel array (Some o) = Err ArrayStoreException).
Proof.
  split; [done|]. intros o Ho Hnd Hdim. unfold soft_checkarraystore. rewrite Hcomp. simpl.
  destruct (instanceof_sub H ObjectClass prepared st (linked_inv _ _ _ Hl) Hco Hroot Hprep
    fuel o comp Ho Hc Hfuel Hdim) as (b & -> & Hb). specialize (Hb Hnd).
  destruct b; simpl; split; naive_solver.
Qed.

Lemma ex_14_dim e d : arr exH 14 e d -> e = 1 /\ d = 2.
Proof.
  intros (i & cmp & Hi & Hk).
  assert (Hv : exH !! 14 = Some (mkClass (Some 0) [] false true (ArrayClass 1 12 2)))
    by (vm_compute; reflexivity).
  rewrite Hv in Hi. injection Hi as <-. simpl in Hk. by injection Hk as <- _ <-.
Qed.

Lemma soft_checkarraystore_correct_witness :
  soft_checkarraystore exH 0 all_prepared 20 11 (Some 14) = Ok tt.
Proof.
  refine (proj1 (proj2 (soft_checkarraystore_correct exH 0 all_prepared ex_state 20 11 10
    ex_state_linked ex_components_ok ex_root_ok _ _ _ _) 14 _ _ _) _).
  - intros c _. reflexivity.
  - vm_compute. reflexivity.
  - apply in_state_dom. vm_compute. reflexivity.
  - vm_compute. discriminate.
  - apply in_state_dom. vm_compute. reflexivity.
  - intros (e & d & td & Ha & _ & Hor). apply ex_14_dim in Ha as [-> ->].
    destruct Hor as [[_ Hp]|[Hp _]]; [|discriminate Hp]. vm_compute in Hp. discriminate Hp.
  - intros e d Ha. apply ex_14_dim in Ha as [_ ->]. lia.
  - apply (sub_object_array exH 0 14 10 1 2 1); [eexists _, _; split; vm_compute; reflexivity..|lia|lia].
Defined.
