(* ===== verification/Subtyping.v ===== *)
(** * The bit matrix and Java subtyping

    [ClassInclusion] shows which relation the matrix of
    class_inclusion_test.c represents; its rules for arrays are those of the
    code.  This file compares that relation with the subtyping of the Java
    language, which is defined here from the class table alone: through
    superclasses and interfaces, and for arrays through their components. *)

From S2P Require Import Prelude BitVector ClassInclusion Soft.

Section Subtyping.
Context (H : gmap Z class_info) (ObjectClass : Z).

(** Java subtyping: [S[]] is below [T[]] for reference types [S] below [T]. *)
Inductive java_sub : Z -> Z -> Prop :=
| js_refl c : java_sub c c
| js_super c i s d : H !! c = Some i -> superclass i = Some s -> java_sub s d -> java_sub c d
| js_iface c i s d : H !! c = Some i -> s ∈ interfaces i -> java_sub s d -> java_sub c d
| js_array a t c d : Class_GetComponentType H a = Some c -> Class_GetComponentType H t = Some d ->
    prim H c = false -> prim H d = false -> java_sub c d -> java_sub a t.

Abbreviation arr := (arr H).
Abbreviation sub := (sub H ObjectClass).
Abbreviation inv := (inv H ObjectClass).

Lemma component_arr a c : Class_GetComponentType H a = Some c <->
  exists i e d, H !! a = Some i /\ kind i = ArrayClass e c d.
Proof.
  unfold Class_GetComponentType. split.
  - intros (i & Hi & Hk)%bind_Some. destruct (kind i) as [|e cmp d] eqn:E; [done|]. simplify_eq. by exists i, e, d.
  - intros (i & e & d & -> & E). simpl. by rewrite E.
Qed.

Lemma component_not_normal a c : Class_GetComponentType H a = Some c -> normal H a -> False.
Proof. intros (i & e & d & Hi & E)%component_arr (j & Hj & Ej). congruence. Qed.

Context (st : CIT) (Hinv : inv st) (Hco : components_ok H st) (Hroot : root_ok H ObjectClass st).

(** On ordinary classes both relations are the closure of the declarations. *)
Lemma java_sub_normal c d p : normal H c -> pos st !! c = Some p -> java_sub c d <-> sub c d.
Proof.
  intros Hn Hp. split.
  - intros Hs. revert p Hn Hp. induction Hs as [c|c i s d Hi Hs _ IH|c i s d Hi Hs _ IH|a t c d Ha]; intros p Hn Hp.
    + constructor.
    + destruct (iv_ok _ _ _ Hinv c p Hp) as (j & Hok). pose proof (co_info _ _ _ _ _ _ Hok). simplify_eq.
      destruct (co_super _ _ _ _ _ _ Hok s Hs) as (Hsn & q & Hq & _). eapply sub_super; eauto.
    + destruct (iv_ok _ _ _ Hinv c p Hp) as (j & Hok). pose proof (co_info _ _ _ _ _ _ Hok). simplify_eq.
      destruct (co_ifs _ _ _ _ _ _ Hok s Hs) as (Hsn & q & Hq & _). eapply sub_iface; eauto.
    + by destruct (component_not_normal a c Ha).
  - intros Hs. revert p Hn Hp. induction Hs as [c|c i s d Hi Hs _ IH|c i s d Hi Hs _ IH|a t e d td Ha|a t e te d Ha]; intros p Hn Hp.
    + constructor.
    + destruct (iv_ok _ _ _ Hinv c p Hp) as (j & Hok). pose proof (co_info _ _ _ _ _ _ Hok). simplify_eq.
      destruct (co_super _ _ _ _ _ _ Hok s Hs) as (Hsn & q & Hq & _). eapply js_super; eauto.
    + destruct (iv_ok _ _ _ Hinv c p Hp) as (j & Hok). pose proof (co_info _ _ _ _ _ _ Hok). simplify_eq.
      destruct (co_ifs _ _ _ _ _ _ Hok s Hs) as (Hsn & q & Hq & _). eapply js_iface; eauto.
    + by destruct (normal_not_arr H a e d Hn Ha).
    + by destruct (normal_not_arr H a e d Hn Ha).
Qed.

Lemma normal_not_java_array c t e k : normal H c -> c ∈ dom (pos st) -> arr t e k -> ~ java_sub c t.
Proof.
  intros Hn Hc Ha Hs. pose proof Hc as [p Hp]%elem_of_dom. apply (java_sub_normal c t p Hn Hp) in Hs.
  by eapply normal_not_sub_array in Hs.
Qed.

(** An array class is below an ordinary class exactly when Object is. *)
Lemma java_array_normal x e d t : x ∈ dom (pos st) -> arr x e d -> normal H t ->
  java_sub x t <-> java_sub ObjectClass t.
Proof.
  intros [p Hp]%elem_of_dom Ha Ht. destruct (iv_ok _ _ _ Hinv x p Hp) as (i & Hok).
  pose proof (co_info _ _ _ _ _ _ Hok) as Hi. destruct (co_arr _ _ _ _ _ _ Hok e d Ha) as (Hsup & Hif & _). split.
  - inversion 1; subst; simplify_eq.
    + by destruct (normal_not_arr H t e d Ht Ha).
    + congruence.
    + rewrite Hif in *. set_solver.
    + by exfalso; eapply (component_not_normal t).
  - intros. by eapply js_super.
Qed.

Lemma java_object_only t : java_sub ObjectClass t <-> t = ObjectClass.
Proof.
  destruct Hroot as (_ & [p Hp]%elem_of_dom & Hn & _).
  rewrite (java_sub_normal _ _ p Hn Hp). by apply (object_only H ObjectClass st).
Qed.

(** Two array classes are related as their components. *)
Lemma java_components x t e d te td c c' :
  x ∈ dom (pos st) -> t ∈ dom (pos st) -> arr x e d -> arr t te td ->
  Class_GetComponentType H x = Some c -> Class_GetComponentType H t = Some c' ->
  java_sub x t <-> x = t \/ (prim H c = false /\ prim H c' = false /\ java_sub c c').
Proof.
  intros [p Hp]%elem_of_dom Ht Hax Hat Hc Hc'. destruct (iv_ok _ _ _ Hinv x p Hp) as (i & Hok).
  pose proof (co_info _ _ _ _ _ _ Hok) as Hi. destruct (co_arr _ _ _ _ _ _ Hok e d Hax) as (Hsup & Hif & _). split.
  - inversion 1; subst; simplify_eq; auto.
    + destruct Hroot as (_ & Hod & Hon & _). exfalso. eapply normal_not_java_array; [exact Hon|done..|].
      congruence || (rewrite Hsup in *; by simplify_eq).
    + rewrite Hif in *. set_solver.
  - intros [->|(? & ? & ?)]; [constructor|by eapply js_array].
Qed.

(** A class is known by its element class and dimension. *)
Lemma dims_inj x y e k : dims H st x e k -> dims H st y e k -> x = y.
Proof.
  intros [(-> & -> & _)|(? & Hx & ?)] [(? & -> & _)|(? & Hy & ?)]; [done|lia|lia|].
  by eapply (iv_uniq _ _ _ Hinv).
Qed.

Lemma dims_prim x e k : dims H st x e k -> 0 < k -> prim H x = false /\ x ∈ dom (pos st) /\ arr x e k.
Proof.
  intros [[-> _]|(_ & Ha & Hx)] ?; [lia|]. split_and!; [|done..].
  pose proof Hx as [p Hp]%elem_of_dom. destruct (iv_ok _ _ _ Hinv x p Hp) as (i & Hok).
  by eapply prim_false_of_ok.
Qed.

(** Two array classes are related as what is left when the smaller dimension is
    stripped off both. *)
Lemma java_strip (n : nat) : forall x t e d te td, Z.min d td = Z.of_nat (S n) ->
  dims H st x e d -> dims H st t te td ->
  exists c c', dims H st c e (d - Z.min d td) /\ dims H st c' te (td - Z.min d td) /\
    (java_sub x t <-> x = t \/ (prim H c = false /\ prim H c' = false /\ java_sub c c')).
Proof.
  induction n as [|n IH]; intros x t e d te td Hm Hx Ht;
    destruct (dims_component H st x e d Hco Hx ltac:(lia)) as (c & Hc & Hdc);
    destruct (dims_component H st t te td Hco Ht ltac:(lia)) as (c' & Hc' & Hdc');
    destruct (dims_prim x e d Hx ltac:(lia)) as (_ & Hxd & Hax);
    destruct (dims_prim t te td Ht ltac:(lia)) as (_ & Htd & Hat);
    pose proof (java_components x t e d te td c c' Hxd Htd Hax Hat Hc Hc') as Hj.
  - rewrite Hm. by exists c, c'.
  - destruct (IH c c' e (d - 1) te (td - 1)) as (u & u' & Hu & Hu' & Hs); [lia|done..|].
    destruct (dims_prim c e (d - 1) Hdc ltac:(lia)) as (Hp & _ & _).
    destruct (dims_prim c' te (td - 1) Hdc' ltac:(lia)) as (Hp' & _ & _).
    exists u, u'. replace (d - Z.min d td) with (d - 1 - Z.min (d - 1) (td - 1)) by lia.
    replace (td - Z.min d td) with (td - 1 - Z.min (d - 1) (td - 1)) by lia.
    split_and!; [done..|]. rewrite Hj, Hs. split; [|by intros [->|?]; [left|right; auto]].
    intros [->|(_ & _ & [->|?])]; [by left| |by right].
    left. assert (Ed : e = te /\ d = td).
    { destruct (dims_prim c' e (d - 1) Hdc ltac:(lia)) as (_ & _ & H1).
      destruct (dims_prim c' te (td - 1) Hdc' ltac:(lia)) as (_ & _ & H2).
      destruct (arr_fun _ _ _ _ _ _ H1 H2). split; [done|lia]. }
    destruct Ed as [-> ->]. by eapply dims_inj.
Qed.

Lemma elem_normal x e d : x ∈ dom (pos st) -> arr x e d -> prim H e = false ->
  normal H e /\ e ∈ dom (pos st).
Proof.
  intros [p Hp]%elem_of_dom Ha He. destruct (iv_ok _ _ _ Hinv x p Hp) as (i & Hok).
  destruct (elem_linked H ObjectClass st p x i e d Hok Ha He) as (q & ? & Hq & _).
  split; [done|]. apply elem_of_dom. eauto.
Qed.

Lemma dims_pos x e d : arr x e d -> dims H st x e d -> 0 < d.
Proof.
  intros Ha [(_ & -> & E)|[? _]]; [|done].
  assert (Class_IsArrayType H e = true) by (apply (proj2 (array_type_arr H all_prepared e)); by exists e, d). congruence.
Qed.

(** Arrays of the same dimension. *)
Lemma java_same_dim x t e te d : x ∈ dom (pos st) -> t ∈ dom (pos st) -> arr x e d -> arr t te d ->
  java_sub x t <-> e = te \/ (prim H e = false /\ prim H te = false /\ sub e te).
Proof.
  intros Hx Ht Hax Hat. pose proof (arr_dims H st x e d Hco Hx Hax) as Hdx.
  pose proof (arr_dims H st t te d Hco Ht Hat) as Hdt.
  pose proof (dims_pos x e d Hax Hdx).
  destruct (java_strip (Z.to_nat (d - 1)) x t e d te d) as (c & c' & Hc & Hc' & ->); [lia|done..|].
  rewrite Z.min_id, Z.sub_diag in Hc, Hc'. apply dims_0 in Hc as ->. apply dims_0 in Hc' as ->.
  split.
  - intros [->|(He & Hte & Hs)]; [left; by destruct (arr_fun _ _ _ _ _ _ Hax Hat)|right].
    destruct (elem_normal x e d Hx Hax He) as [Hn [p Hp]%elem_of_dom].
    by rewrite <- (java_sub_normal _ _ p Hn Hp).
  - intros [->|(He & Hte & Hs)]; [left; by eapply dims_inj|right].
    destruct (elem_normal x e d Hx Hax He) as [Hn [p Hp]%elem_of_dom].
    by rewrite (java_sub_normal _ _ p Hn Hp).
Qed.

(** Arrays of different dimension: only those of a larger one are below
    [Object] arrays of a smaller one. *)
Lemma java_diff_dim x t e te d td : x ∈ dom (pos st) -> t ∈ dom (pos st) -> arr x e d -> arr t te td ->
  d <> td -> java_sub x t <-> te = ObjectClass /\ td < d.
Proof.
  intros Hx Ht Hax Hat Hne. pose proof (arr_dims H st x e d Hco Hx Hax) as Hdx.
  pose proof (arr_dims H st t te td Hco Ht Hat) as Hdt.
  pose proof (dims_pos x e d Hax Hdx). pose proof (dims_pos t te td Hat Hdt).
  assert (Hnxt : x <> t) by (intros ->; by destruct (arr_fun _ _ _ _ _ _ Hax Hat)).
  destruct (java_strip (Z.to_nat (Z.min d td - 1)) x t e d te td) as (c & c' & Hc & Hc' & ->); [lia|done..|].
  destruct (Z.lt_trichotomy td d) as [Hlt|[?|Hgt]]; [|done|].
  - replace (Z.min d td) with td in * by lia. rewrite Z.sub_diag in Hc'. apply dims_0 in Hc' as ->.
    destruct (dims_prim c e (d - td) Hc ltac:(lia)) as (Hp & Hcd & Hac). split.
    + intros [?|(_ & Hte & Hs)]; [done|]. destruct (elem_normal t te td Ht Hat Hte) as [Hn _].
      rewrite (java_array_normal c e (d - td) te Hcd Hac Hn), java_object_only in Hs. done.
    + intros [-> _]. right. destruct Hroot as (_ & [p Hpo]%elem_of_dom & Hn & _). split_and!; [done| |].
      * destruct (iv_ok _ _ _ Hinv _ p Hpo) as (i & Hok). by eapply prim_false_of_ok.
      * rewrite (java_array_normal c e (d - td) ObjectClass Hcd Hac Hn). constructor.
  - replace (Z.min d td) with d in * by lia. rewrite Z.sub_diag in Hc. apply dims_0 in Hc as ->.
    destruct (dims_prim c' te (td - d) Hc' ltac:(lia)) as (_ & _ & Hac'). split; [|lia].
    intros [?|(He & _ & Hs)]; [done|]. destruct (elem_normal x e d Hx Hax He) as [Hn Hed].
    by destruct (normal_not_java_array e c' te (td - d) Hn Hed Hac').
Qed.

(** The code's rules for arrays differ from Java's exactly on the disputed pairs. *)
Lemma sub_java x y : x ∈ dom (pos st) -> y ∈ dom (pos st) ->
  (~ disputed H ObjectClass x y -> sub x y <-> java_sub x y) /\
  (disputed H ObjectClass x y -> sub x y <-> ~ java_sub x y).
Proof.
  intros Hx Hy. destruct (linked_normal_or_arr H ObjectClass st x Hinv Hx) as [Hn|(e & d & Hax)].
  { pose proof Hx as [p Hp]%elem_of_dom. rewrite (java_sub_normal x y p Hn Hp). split; [done|].
    intros (e & d & td & Ha & _). by destruct (normal_not_arr H x e d Hn Ha). }
  destruct (linked_normal_or_arr H ObjectClass st y Hinv Hy) as [Hn|(te & td & Hay)].
  { split; [intros _|intros (? & ? & ? & _ & Ha & _); by destruct (normal_not_arr H y _ _ Hn Ha)].
    pose proof Hx as [p Hp]%elem_of_dom. destruct (iv_ok _ _ _ Hinv x p Hp) as (i & Hok).
    rewrite (java_array_normal x e d y Hx Hax Hn), (sub_array_normal H ObjectClass st p x i e d y Hok Hax Hn).
    destruct Hroot as (_ & [q Hq]%elem_of_dom & Hno & _). by rewrite (java_sub_normal _ _ q Hno Hq). }
  assert (Hdis : disputed H ObjectClass x y <-> te = ObjectClass /\ ((td = d /\ prim H e = true) \/ (e = ObjectClass /\ td < d))).
  { split; [|intros [-> ?]; by exists e, d, td]. intros (e' & d' & td' & Ha & Ha' & Hor).
    destruct (arr_fun _ _ _ _ _ _ Hax Ha) as [<- <-]. by destruct (arr_fun _ _ _ _ _ _ Hay Ha') as [<- <-]. }
  rewrite Hdis. destruct (decide (d = td)) as [<-|Hne].
  - rewrite (java_same_dim x y e te d), (same_dim_sub H ObjectClass st Hinv x y e te d) by done.
    assert (He : prim H e = true -> e <> ObjectClass) by by eapply prim_not_object.
    assert (Ho : sub e ObjectClass \/ prim H e = true).
    { destruct (prim H e) eqn:Ep; [by right|left]. destruct (elem_normal x e d Hx Hax Ep). by apply Hroot. }
    assert (Hoo : e = ObjectClass -> sub e te -> te = ObjectClass).
    { intros ->. by apply (object_only H ObjectClass st). }
    assert (Hpo : prim H ObjectClass = false).
    { destruct (prim H ObjectClass) eqn:Ep; [|done]. by destruct (prim_not_object H ObjectClass st Hinv Hroot _ Ep). }
    destruct (prim H e) eqn:Ep; destruct (decide (te = ObjectClass)) as [->|]; naive_solver lia.
  - rewrite (java_diff_dim x y e te d td), (diff_dim_sub H ObjectClass st Hinv x y e te d td) by done.
    naive_solver lia.
Qed.

End Subtyping.

(** C9: the constant-time matrix test against Java subtyping.  In every state
    reached by linking classes, whatever the order and however often the matrix
    was reallocated, [CIT_is_subclass] answers for every pair of linked classes
    without touching memory outside a row.  Its answer is that of the Java
    language, computed from superclasses, interfaces and array components, for
    all pairs but the disputed ones - an array of primitives against Object[]
    of the same dimension, and an Object array against one of a smaller
    dimension - on which it is the opposite. *)
Theorem CIT_is_subclass_correct (H : gmap Z class_info) (ObjectClass : Z) (st : CIT) (c d : Z)
    (Hl : linked H ObjectClass st) (Hco : components_ok H st) (Hroot : root_ok H ObjectClass st)
    (Hc : c ∈ dom (pos st)) (Hd : d ∈ dom (pos st)) :
  exists b, CIT_is_subclass st c d = Some b /\
    (~ disputed H ObjectClass c d -> b = true <-> java_sub H c d) /\
    (disputed H ObjectClass c d -> b = true <-> ~ java_sub H c d).
Proof.
  pose proof (linked_inv _ _ _ Hl) as Hinv. destruct (is_subclass_spec _ _ st c d Hinv Hc Hd) as (b & E & Hb).
  exists b. split; [done|]. rewrite Hb. by apply (sub_java H ObjectClass st).
Qed.

(** [String[][]] is below [Object[]] in Java and in the matrix; [Object[][]] is
    in Java only. *)
Lemma CIT_is_subclass_correct_witness :
  java_sub exH 14 10 /\ CIT_is_subclass ex_state 14 10 = Some true /\
  CIT_is_subclass ex_state 11 10 = Some false /\ ~ ~ java_sub exH 11 10.
Proof.
  assert (E : CIT_is_subclass ex_state 14 10 = Some true) by (vm_compute; reflexivity).
  assert (E' : CIT_is_subclass ex_state 11 10 = Some false) by (vm_compute; reflexivity).
  destruct (CIT_is_subclass_correct exH 0 ex_state 14 10 ex_state_linked ex_components_ok ex_root_ok)
    as (b & Eb & Hb & _); [apply in_state_dom; vm_compute; reflexivity..|].
  destruct (CIT_is_subclass_correct exH 0 ex_state 11 10 ex_state_linked ex_components_ok ex_root_ok)
    as (b' & Eb' & _ & Hb'); [apply in_state_dom; vm_compute; reflexivity..|].
  rewrite E in Eb. injection Eb as <-. rewrite E' in Eb'. injection Eb' as <-.
  split; [|split; [exact E|split; [exact E'|]]].
  - apply Hb; [|reflexivity]. intros (e & d & td & Ha & _ & Hor). apply ex_14_dim in Ha as [-> ->].
    destruct Hor as [[_ Hp]|[Hp _]]; [vm_compute in Hp; discriminate Hp|discriminate Hp].
  - rewrite <- Hb'; [discriminate|]. exists 0, 2, 1. split; [|split; [|right; lia]].
    + eexists _, _. split; vm_compute; reflexivity.
    + eexists _, _. split; vm_compute; reflexivity.
Defined.
