(* ===== verification/Strings.v ===== *)
(** * Strings (src/runtime/string.c, prime.c, prime.h, UTF8_GET of constants.h)

    UTF-8 constants and Java strings, each interned in an open-addressing hash
    table.  A table is a list of slots; objects are named by addresses, and
    their contents (bytes of a [Utf8Const], characters of a Java string) are in
    a store.  A read outside a buffer or through a marker is [BadAccess]. *)

From Stdlib Require Import Znumtheory Zpow_facts.
From S2P Require Import Prelude.

(** ** UTF-8 *)

Definition byte_at (buf : list Z) (i : Z) : res failure Z :=
  of_option BadAccess (zlookup buf i).

(** [UTF8_GET(PTR, LIMIT)]: the value and the new [PTR].  When the test of a
    two-byte sequence fails late, [PTR] has already advanced before the test of
    a three-byte one. *)
Definition UTF8_GET (buf : list Z) (ptr limit : Z) : res failure (Z * Z) :=
  if limit <=? ptr then Ok (-1, ptr) else
  b ← byte_at buf ptr;
  if b <? 128 then Ok (b, ptr + 1) else
  two ← (if Z.land b 0xE0 =? 0xC0 then
           if ptr + 2 <=? limit then
             b1 ← byte_at buf (ptr + 1);
             Ok (Z.land b1 0xC0 =? 0x80, ptr + 2)
           else Ok (false, ptr + 2)
         else Ok (false, ptr));
  let '(ok, p) := two in
  if ok : bool then
    b2 ← byte_at buf (p - 2);
    b1 ← byte_at buf (p - 1);
    Ok (Z.shiftl (Z.land b2 0x1F) 6 + Z.land b1 0x3F, p)
  else
  b ← byte_at buf p;
  three ← (if Z.land b 0xF0 =? 0xE0 then
             if p + 3 <=? limit then
               b2 ← byte_at buf (p + 1);
               if Z.land b2 0xC0 =? 0x80 then
                 b1 ← byte_at buf (p + 2);
                 Ok (Z.land b1 0xC0 =? 0x80, p + 3)
               else Ok (false, p + 3)
             else Ok (false, p + 3)
           else Ok (false, p));
  let '(ok, p) := three in
  if ok : bool then
    b3 ← byte_at buf (p - 3);
    b2 ← byte_at buf (p - 2);
    b1 ← byte_at buf (p - 1);
    Ok (Z.shiftl (Z.land b3 0x1F) 12 + Z.shiftl (Z.land b2 0x3F) 6 + Z.land b1 0x3F, p)
  else Ok (-1, p + 1).

(** [for (; ptr < limit; str_length++) if (UTF8_GET (ptr, limit) < 0) return -1;] *)
Fixpoint strLengthUtf8_loop (fuel : nat) (buf : list Z) (ptr limit str_length : Z) : res failure Z :=
  if ptr <? limit then
    match fuel with
    | O => Err OutOfFuel
    | S fuel' =>
        '(ch, ptr) ← UTF8_GET buf ptr limit;
        if ch <? 0 then Ok (-1) else strLengthUtf8_loop fuel' buf ptr limit (str_length + 1)
    end
  else Ok str_length.

Definition strLengthUtf8 (buf : list Z) (len : Z) : res failure Z :=
  strLengthUtf8_loop (Z.to_nat len) buf 0 len 0.

(** [while (data < limit) *chrs++ = f(UTF8_GET(data, limit));] into [jchar]s. *)
Fixpoint decode_loop (fuel : nat) (f : Z -> Z) (buf : list Z) (ptr limit : Z) (chrs : list Z) :
    res failure (list Z) :=
  if ptr <? limit then
    match fuel with
    | O => Err OutOfFuel
    | S fuel' =>
        '(ch, ptr) ← UTF8_GET buf ptr limit;
        decode_loop fuel' f buf ptr limit (chrs ++ [u16 (f ch)])
    end
  else Ok chrs.

(** The characters of the string that is made, in an array of [len] elements. *)
Definition makeReplaceJavaStringFromUtf8 (buf : list Z) (len from_ch to_ch : Z) :
    res failure (Z * list Z) :=
  count ← strLengthUtf8 buf len;
  chrs ← decode_loop (Z.to_nat len) (fun ch => if ch =? from_ch then to_ch else ch) buf 0 len [];
  Ok (count, chrs).

(** [equalUtf8JavaStrings(a, b)], with [a] the bytes and [b] the characters. *)
Fixpoint equal_loop (data : list Z) (buf : list Z) (ptr limit : Z) : res failure bool :=
  match data with
  | [] => Ok true
  | d :: data' =>
      '(ch, ptr) ← UTF8_GET buf ptr limit;
      if negb (d =? ch) then Ok false else equal_loop data' buf ptr limit
  end.

Definition equalUtf8JavaStrings (a : list Z) (len : Z) (b : list Z) : res failure bool :=
  if negb (Z.of_nat (length b) =? len) then Ok false else equal_loop b a 0 len.

(** ** Hash functions *)

(** [char] is signed. *)
Definition hashUtf8String (str : list Z) : Z :=
  fold_left (fun hash c => s32 (hash * 37 + s8 c)) str 0.

(** [while ((ptr += skip) < limit) hash = mul * hash + *ptr;] *)
Fixpoint hash_loop (fuel : nat) (mul skip : Z) (data : list Z) (ptr hash : Z) : Z :=
  match fuel with
  | O => hash
  | S fuel' =>
      let ptr := ptr + skip in
      match zlookup data ptr with
      | Some c => hash_loop fuel' mul skip data ptr (s32 (mul * hash + c))
      | None => hash
      end
  end.

(** The code reads the first character of an empty string too: [first] is what
    lies where its characters would be, which differs from string to string. *)
Definition hashChars (data : list Z) (first : Z) : Z :=
  let length := Z.of_nat (length data) in
  let hash := default first (zlookup data 0) in
  if length <=? 15 then hash_loop (Z.to_nat length) 37 1 data 0 hash
  else hash_loop (Z.to_nat length) 39 (length / 8) data 0 hash.

(** ** Primes *)

Definition primes : list Z :=
  [0; 127; 251; 509; 1021; 2039; 4093; 8191; 16381; 32749; 65521; 131071; 262139; 524287;
   1048573; 2097143; 4194301; 8388593; 16777213; 33554393; 67108859; 400000001].
Definition num_of_primes : Z := 22.

Definition prime_at (i : Z) : Z := default 0 (zlookup primes i).

Fixpoint prime_search (fuel : nat) (val low high mid : Z) : Z + Z * Z * Z :=
  if low <=? high then
    match fuel with
    | O => inr (low, high, mid)
    | S fuel' =>
        let mid := (low + high) / 2 in
        if val <? prime_at mid then prime_search fuel' val low (mid - 1) mid
        else if prime_at mid <? val then prime_search fuel' val (mid + 1) high mid
        else inl (prime_at mid)
    end
  else inr (low, high, mid).

Definition get_next_prime (val : Z) : Z :=
  match prime_search 22 val 1 (num_of_primes - 2) 0 with
  | inl p => p
  | inr (low, high, mid) =>
      if (high <=? 1) || (num_of_primes - 2 <=? low) then u32 (val - 1)
      else if val <? prime_at mid then
        (if u32 (val - prime_at (mid - 1)) <? u32 (prime_at mid - val)
         then prime_at (mid - 1) else prime_at mid)
      else
        (if u32 (prime_at (mid + 1) - val) <=? u32 (val - prime_at mid)
         then prime_at (mid + 1) else prime_at mid)
  end.

(** ** The table of UTF-8 constants *)

(** [NULL], the marker [-1] of a finalized constant, or a pointer. *)
Inductive hslot := HNull | HDeleted | HLive (p : Z).
#[export] Instance hslot_eq_dec : EqDecision hslot.
Proof. solve_decision. Defined.

Record utf8_state := mkUtf8 {
  utf8hash : option (list hslot);
  utf8hash_size : Z;
  utf8hash_count : Z;
  consts : gmap Z (list Z);
  next_const : Z }.

Definition slot_at (tab : list hslot) (i : Z) : res failure hslot := of_option BadAccess (zlookup tab i).

Definition const_data (st : utf8_state) (p : Z) : res failure (list Z) := of_option BadAccess (consts st !! p).

(** The probing loop of [find_utf8hash], in the table [tab]. *)
Fixpoint find_utf8hash_loop (fuel : nat) (data : gmap Z (list Z)) (tab : list hslot) (size : Z)
    (s : list Z) (index step : Z) : res failure Z :=
  x ← slot_at tab index;
  found ← (match x with
           | HNull => Ok true
           | HDeleted => Ok false
           | HLive p => d ← of_option BadAccess (data !! p); Ok (bool_decide (d = s))
           end);
  if found : bool then Ok index
  else match fuel with
       | O => Err OutOfFuel
       | S fuel' =>
           find_utf8hash_loop fuel' data tab size s (u32 (index + (2 * (step + 1) - 1)) mod size) (step + 1)
       end.

Definition find_utf8hash (fuel : nat) (data : gmap Z (list Z)) (tab : list hslot) (size : Z) (s : list Z) :
    res failure Z :=
  if size =? 0 then Err Undefined else
  find_utf8hash_loop fuel data tab size s (u32 (hashUtf8String s) mod size) 0.

Definition tab_set (tab : list hslot) (i : Z) (v : hslot) : res failure (list hslot) :=
  of_option BadAccess (zstore tab i v).

(** The re-hash loop, from the end of the old table.  The test [*--ptr > 0]
    compares pointers, so it is true of the marker, which is dereferenced. *)
Fixpoint rehash_utf8 (fuel : nat) (data : gmap Z (list Z)) (old : list hslot) (size : Z) (tab : list hslot) :
    res failure (list hslot) :=
  match old with
  | [] => Ok tab
  | x :: old' =>
      match x with
      | HNull => rehash_utf8 fuel data old' size tab
      | HDeleted => Err BadAccess
      | HLive p =>
          d ← of_option BadAccess (data !! p);
          i ← find_utf8hash fuel data tab size d;
          tab ← tab_set tab i (HLive p);
          rehash_utf8 fuel data old' size tab
      end
  end.

Definition grow_utf8 (fuel : nat) (st : utf8_state) : res failure utf8_state :=
  if 2 * utf8hash_size st <=? 3 * utf8hash_count st then
    match utf8hash st with
    | None => Ok (mkUtf8 (Some (replicate 1021 HNull)) 1021 (utf8hash_count st) (consts st) (next_const st))
    | Some old =>
        let size := get_next_prime (utf8hash_size st * 2) in
        tab ← rehash_utf8 fuel (consts st) (rev old) size (replicate (Z.to_nat size) HNull);
        Ok (mkUtf8 (Some tab) size (utf8hash_count st) (consts st) (next_const st))
    end
  else Ok st.

(** [makeUtf8Const(s, len)] with [len >= 0]; [fuel] bounds the probes. *)
Definition makeUtf8Const (fuel : nat) (st : utf8_state) (s : list Z) : res failure (utf8_state * Z) :=
  st ← grow_utf8 fuel st;
  tab ← of_option BadAccess (utf8hash st);
  i ← find_utf8hash fuel (consts st) tab (utf8hash_size st) s;
  x ← slot_at tab i;
  match x with
  | HLive p => Ok (st, p)
  | HDeleted => Err BadAccess
  | HNull =>
      let m := next_const st in
      tab ← tab_set tab i (HLive m);
      Ok (mkUtf8 (Some tab) (utf8hash_size st) (utf8hash_count st + 1) (<[m := s]> (consts st)) (m + 1), m)
  end.

(** The loop of [finalizeUtf8const]; a [NULL] slot is dereferenced. *)
Fixpoint finalize_loop (fuel : nat) (data : gmap Z (list Z)) (tab : list hslot) (size : Z)
    (s : list Z) (index step : Z) : res failure Z :=
  x ← slot_at tab index;
  found ← (match x with
           | HNull => Err BadAccess
           | HDeleted => Ok false
           | HLive p => d ← of_option BadAccess (data !! p); Ok (bool_decide (d = s))
           end);
  if found : bool then Ok index
  else match fuel with
       | O => Err OutOfFuel
       | S fuel' =>
           finalize_loop fuel' data tab size s (u32 (index + (2 * (step + 1) - 1)) mod size) (step + 1)
       end.

Definition finalizeUtf8const (fuel : nat) (st : utf8_state) (mem : Z) : res failure utf8_state :=
  s ← const_data st mem;
  tab ← of_option BadAccess (utf8hash st);
  if utf8hash_size st =? 0 then Err Undefined else
  i ← finalize_loop fuel (consts st) tab (utf8hash_size st) s
        (u32 (hashUtf8String s) mod utf8hash_size st) 0;
  tab ← tab_set tab i HDeleted;
  Ok (mkUtf8 (Some tab) (utf8hash_size st) (utf8hash_count st - 1) (consts st) (next_const st)).

(** ** The table of interned Java strings *)

Record str_state := mkStr {
  strhash : option (list hslot);
  strhash_size : Z;
  strhash_count : Z;
  jstrings : gmap Z (list Z);
  next_string : Z }.

Inductive str_error := StrAbort | StrFail (e : failure).

Definition lift {A} (m : res failure A) : res str_error A :=
  match m with Ok a => Ok a | Err e => Err (StrFail e) end.

Definition hash_step (hash : Z) : Z := s32 (8 * hash + 7).
Definition next_index (size step index : Z) : Z := Z.land (s32 (index + step)) (size - 1).

(** The [for (;;)] of [findInternSlot]; [deleted_index] is -1 if there is none. *)
Fixpoint findInternSlot_loop (fuel : nat) (strs : gmap Z (list Z)) (tab : list hslot) (size : Z)
    (data : list Z) (start_index step index deleted_index : Z) : res str_error Z :=
  x ← lift (slot_at tab index);
  let next (deleted_index : Z) :=
    let index := next_index size step index in
    if index =? start_index then Err StrAbort
    else match fuel with
         | O => Err (StrFail OutOfFuel)
         | S fuel' => findInternSlot_loop fuel' strs tab size data start_index step index deleted_index
         end in
  match x with
  | HNull => if 0 <=? deleted_index then Ok deleted_index else Ok index
  | HDeleted => next index
  | HLive p =>
      d ← lift (of_option BadAccess (strs !! p));
      if bool_decide (d = data) then Ok index else next deleted_index
  end.

Definition findInternSlot (strs : gmap Z (list Z)) (tab : list hslot) (size : Z)
    (data : list Z) (hash : Z) : res str_error Z :=
  let start_index := Z.land hash (size - 1) in
  findInternSlot_loop (Z.to_nat size) strs tab size data start_index (hash_step hash) start_index (-1).

Section Intern.
(** What lies at [STRING_DATA] of each string object while the call runs, which
    [hashChars] reads of an empty one: the word behind an array without
    elements, or any character of an array the string shares. *)
Context (behind : Z -> Z).

Definition findInternSlotFromString (st : str_state) (tab : list hslot) (str : Z) : res str_error Z :=
  data ← lift (of_option BadAccess (jstrings st !! str));
  findInternSlot (jstrings st) tab (strhash_size st) data (hashChars data (behind str)).

(** The insertion loop of [rehashStrings]. *)
Fixpoint rehash_place (fuel : nat) (tab : list hslot) (size step index : Z) (p : Z) : res str_error (list hslot) :=
  x ← lift (slot_at tab index);
  match x with
  | HNull => lift (tab_set tab index (HLive p))
  | _ => match fuel with
         | O => Err (StrFail OutOfFuel)
         | S fuel' => rehash_place fuel' tab size step (next_index size step index) p
         end
  end.

Fixpoint rehash_loop (strs : gmap Z (list Z)) (size : Z) (old tab : list hslot) : res str_error (list hslot) :=
  match old with
  | [] => Ok tab
  | HLive p :: old' =>
      data ← lift (of_option BadAccess (strs !! p));
      let hash := hashChars data (behind p) in
      tab ← rehash_place (Z.to_nat size) tab size (hash_step hash) (Z.land hash (size - 1)) p;
      rehash_loop strs size old' tab
  | _ :: old' => rehash_loop strs size old' tab
  end.

Definition rehashStrings (st : str_state) : res str_error str_state :=
  match strhash st with
  | None => Ok (mkStr (Some (replicate 1024 HNull)) 1024 (strhash_count st) (jstrings st) (next_string st))
  | Some old =>
      let size := strhash_size st * 2 in
      tab ← rehash_loop (jstrings st) size (rev old) (replicate (Z.to_nat size) HNull);
      Ok (mkStr (Some tab) size (strhash_count st) (jstrings st) (next_string st))
  end.

Definition grow_strings (st : str_state) : res str_error str_state :=
  if 3 * strhash_size st <=? 4 * strhash_count st then rehashStrings st else Ok st.

Definition set_strhash (st : str_state) (tab : list hslot) (count : Z) : str_state :=
  mkStr (Some tab) (strhash_size st) count (jstrings st) (next_string st).

Definition internJavaString (st : str_state) (str : Z) : res str_error (str_state * Z) :=
  st ← grow_strings st;
  tab ← lift (of_option BadAccess (strhash st));
  i ← findInternSlotFromString st tab str;
  x ← lift (slot_at tab i);
  match x with
  | HLive p => Ok (st, p)
  | _ =>
      tab ← lift (tab_set tab i (HLive str));
      Ok (set_strhash st tab (strhash_count st + 1), str)
  end.

Definition uninternJavaString (st : str_state) (str : Z) : res str_error str_state :=
  tab ← lift (of_option BadAccess (strhash st));
  i ← findInternSlotFromString st tab str;
  x ← lift (slot_at tab i);
  match x with
  | HLive _ => tab ← lift (tab_set tab i HDeleted); Ok (set_strhash st tab (strhash_count st - 1))
  | _ => Ok st
  end.

(** The characters are decoded before the table is searched; a string that is
    not interned yet is allocated.  [buffer0] is the first character of the local
    buffer, read when there is none to decode. *)
Definition Utf8Const2JavaString (buffer0 : Z) (st : str_state) (bytes : list Z) (len : Z) : res str_error (str_state * Z) :=
  length ← lift (strLengthUtf8 bytes len);
  if length <? 0 then Err (StrFail Undefined) else
  chrs ← lift (decode_loop (Z.to_nat len) (fun ch => ch) bytes 0 len []);
  let data := take (Z.to_nat length) chrs in
  st ← grow_strings st;
  tab ← lift (of_option BadAccess (strhash st));
  i ← findInternSlot (jstrings st) tab (strhash_size st) data (hashChars data buffer0);
  x ← lift (slot_at tab i);
  match x with
  | HLive p => Ok (st, p)
  | _ =>
      let obj := next_string st in
      tab ← lift (tab_set tab i (HLive obj));
      Ok (mkStr (Some tab) (strhash_size st) (strhash_count st + 1)
            (<[obj := data]> (jstrings st)) (obj + 1), obj)
  end.

End Intern.

(** ** Conversion to and from C strings *)

(** The buffer [cs] of [len] bytes after the call, and the pointer returned as
    an offset into it, [None] for NULL. *)
Definition javaString2CString (js : option (list Z)) (cs : list Z) (len : Z) : res failure (list Z * option Z) :=
  if len <=? 0 then Ok (cs, None) else
  match js with
  | None => cs ← of_option BadAccess (zstore cs 0 0); Ok (cs, Some 0)
  | Some chrs =>
      let n := Z.min (len - 1) (Z.of_nat (length chrs)) in
      cs ← of_option BadAccess (zstore cs n 0);
      Ok (map (fun c => u8 c) (take (Z.to_nat n) chrs) ++ drop (Z.to_nat n) cs, Some n)
  end.

Definition makeJavaString (cs : list Z) (len : Z) : list Z := map u8 (take (Z.to_nat len) cs).

(** ** UTF-8 round trip *)

(** The encoding of a character in class files: zero takes two bytes. *)
Definition utf8_encode (c : Z) : list Z :=
  if (0 <? c) && (c <? 128) then [c]
  else if c <? 0x800 then [Z.lor 0xC0 (Z.shiftr c 6); Z.lor 0x80 (Z.land c 0x3F)]
  else [Z.lor 0xE0 (Z.shiftr c 12); Z.lor 0x80 (Z.land (Z.shiftr c 6) 0x3F); Z.lor 0x80 (Z.land c 0x3F)].

Definition utf8_bytes (cs : list Z) : list Z := flat_map utf8_encode cs.

(** What the decoder tests and computes on the encoded bytes. *)
Definition encode_ok (c : Z) : bool :=
  match utf8_encode c with
  | [b] => (b =? c) && (b <? 128)
  | [b2; b1] => (128 <=? b2) && (Z.land b2 0xE0 =? 0xC0) && (Z.land b1 0xC0 =? 0x80)
      && (Z.shiftl (Z.land b2 0x1F) 6 + Z.land b1 0x3F =? c)
  | [b3; b2; b1] => (128 <=? b3) && negb (Z.land b3 0xE0 =? 0xC0) && (Z.land b3 0xF0 =? 0xE0)
      && (Z.land b2 0xC0 =? 0x80) && (Z.land b1 0xC0 =? 0x80)
      && (Z.shiftl (Z.land b3 0x1F) 12 + Z.shiftl (Z.land b2 0x3F) 6 + Z.land b1 0x3F =? c)
  | _ => false
  end.

(** Facts about lead and trail bytes, over their few payloads. *)
Definition byte_facts (a : Z) : bool :=
  (if a <? 32 then (128 <=? Z.lor 0xC0 a) && (Z.land (Z.lor 0xC0 a) 0xE0 =? 0xC0)
     && (Z.land (Z.lor 0xC0 a) 0x1F =? a) else true)
  && (if a <? 16 then (128 <=? Z.lor 0xE0 a) && negb (Z.land (Z.lor 0xE0 a) 0xE0 =? 0xC0)
     && (Z.land (Z.lor 0xE0 a) 0xF0 =? 0xE0) && (Z.land (Z.lor 0xE0 a) 0x1F =? a) else true)
  && (Z.land (Z.lor 0x80 a) 0xC0 =? 0x80) && (Z.land (Z.lor 0x80 a) 0x3F =? a).

Lemma byte_facts_all : forallb byte_facts (seqZ 0 64) = true.
Proof. vm_compute. reflexivity. Qed.

Lemma byte_facts_at a : 0 <= a < 64 -> byte_facts a = true.
Proof.
  intros Ha. pose proof byte_facts_all as H. rewrite forallb_forall in H. apply H.
  apply list_elem_of_In, elem_of_seqZ. lia.
Qed.

Lemma land_3F x : Z.land x 0x3F = x mod 64.
Proof. change 0x3F with (Z.ones 6). by rewrite Z.land_ones. Qed.

Lemma trail_byte a : 0 <= a < 64 ->
  (Z.land (Z.lor 0x80 a) 0xC0 =? 0x80) = true /\ Z.land (Z.lor 0x80 a) 0x3F = a.
Proof.
  intros Ha%byte_facts_at. unfold byte_facts in Ha. apply andb_true_iff in Ha as [Ha ?%Z.eqb_eq].
  by apply andb_true_iff in Ha as [_ ?].
Qed.

Lemma lead_byte2 a : 0 <= a < 32 -> 128 <= Z.lor 0xC0 a /\
  (Z.land (Z.lor 0xC0 a) 0xE0 =? 0xC0) = true /\ Z.land (Z.lor 0xC0 a) 0x1F = a.
Proof.
  intros Hr. pose proof (byte_facts_at a ltac:(lia)) as Ha. unfold byte_facts in Ha.
  do 3 (apply andb_true_iff in Ha as [Ha _]). destruct (Z.ltb_spec a 32); [|lia].
  apply andb_true_iff in Ha as [Ha E3%Z.eqb_eq]. by apply andb_true_iff in Ha as [E1%Z.leb_le E2].
Qed.

Lemma lead_byte3 a : 0 <= a < 16 -> 128 <= Z.lor 0xE0 a /\
  (Z.land (Z.lor 0xE0 a) 0xE0 =? 0xC0) = false /\ (Z.land (Z.lor 0xE0 a) 0xF0 =? 0xE0) = true /\
  Z.land (Z.lor 0xE0 a) 0x1F = a.
Proof.
  intros Hr. pose proof (byte_facts_at a ltac:(lia)) as Ha. unfold byte_facts in Ha.
  do 2 (apply andb_true_iff in Ha as [Ha _]). apply andb_true_iff in Ha as [_ Ha].
  destruct (Z.ltb_spec a 16); [|lia].
  apply andb_true_iff in Ha as [Ha E4%Z.eqb_eq]. apply andb_true_iff in Ha as [Ha E3].
  by apply andb_true_iff in Ha as [E1%Z.leb_le E2%negb_true_iff].
Qed.

Lemma encode_ok_char c : in_u 16 c -> encode_ok c = true.
Proof.
  intros Hc. unfold in_u in Hc. unfold encode_ok, utf8_encode.
  destruct ((0 <? c) && (c <? 128)) eqn:E1; [rewrite Z.eqb_refl; simpl; lia|].
  assert (Hd : 0 <= Z.land c 0x3F < 64) by (rewrite land_3F; by apply Z.mod_pos_bound).
  destruct (trail_byte _ Hd) as [Ed Vd].
  destruct (Z.ltb_spec c 0x800).
  - assert (Ha : 0 <= Z.shiftr c 6 < 32) by (rewrite Z.shiftr_div_pow2 by lia; dmlia).
    destruct (lead_byte2 _ Ha) as (E2 & E3 & E4). rewrite Ed, E3, Vd, E4, (proj2 (Z.leb_le _ _) E2). cbn [andb].
    apply Z.eqb_eq. rewrite land_3F, Z.shiftl_mul_pow2, Z.shiftr_div_pow2 by lia. dmlia.
  - assert (Ha : 0 <= Z.shiftr c 12 < 16) by (rewrite Z.shiftr_div_pow2 by lia; dmlia).
    assert (Hb : 0 <= Z.land (Z.shiftr c 6) 0x3F < 64) by (rewrite land_3F; by apply Z.mod_pos_bound).
    destruct (lead_byte3 _ Ha) as (E2 & E3 & E4 & E5). destruct (trail_byte _ Hb) as [Eb Vb].
    rewrite Ed, Eb, E3, E4, Vd, Vb, E5, (proj2 (Z.leb_le _ _) E2). cbn [andb negb].
    apply Z.eqb_eq. rewrite !land_3F, !Z.shiftl_mul_pow2, !Z.shiftr_div_pow2 by lia. dmlia.
Qed.

Lemma byte_at_app pre l post i b : l !! i = Some b ->
  byte_at (pre ++ l ++ post) (Z.of_nat (length pre) + Z.of_nat i) = Ok b.
Proof.
  intros Hl. unfold byte_at. rewrite <- Nat2Z.inj_add, zlookup_nat, lookup_app_r by lia.
  replace (length pre + i - length pre)%nat with i by lia.
  rewrite lookup_app_l by (by eapply lookup_lt_Some). by rewrite Hl.
Qed.

Lemma UTF8_GET_encode c pre post limit : in_u 16 c ->
  Z.of_nat (length pre) + Z.of_nat (length (utf8_encode c)) <= limit ->
  UTF8_GET (pre ++ utf8_encode c ++ post) (Z.of_nat (length pre)) limit =
    Ok (c, Z.of_nat (length pre) + Z.of_nat (length (utf8_encode c))).
Proof.
  intros Hc Hl. pose proof (encode_ok_char c Hc) as Hok. unfold encode_ok in Hok.
  assert (Hb : forall i b, utf8_encode c !! i = Some b ->
    byte_at (pre ++ utf8_encode c ++ post) (Z.of_nat (length pre) + Z.of_nat i) = Ok b)
    by (intros; by apply byte_at_app).
  set (n := Z.of_nat (length pre)) in *. set (buf := pre ++ utf8_encode c ++ post) in *. unfold UTF8_GET.
  destruct (utf8_encode c) as [|b3 [|b2 [|b1 [|]]]]; try done; simpl in Hl;
    (destruct (Z.leb_spec limit n); [lia|]);
    pose proof (Hb 0%nat _ eq_refl) as H0; rewrite Z.add_0_r in H0; rewrite H0; cbn [mbind res_bind].
  - apply andb_true_iff in Hok as [E1%Z.eqb_eq E2]. rewrite E2, E1. done.
  - apply andb_true_iff in Hok as [Hok E4%Z.eqb_eq]. apply andb_true_iff in Hok as [Hok E3].
    apply andb_true_iff in Hok as [E1%Z.leb_le E2].
    pose proof (Hb 1%nat _ eq_refl) as H1. change (Z.of_nat 1) with 1 in H1.
    destruct (Z.ltb_spec b3 128); [lia|]. rewrite E2. destruct (Z.leb_spec (n + 2) limit); [|lia].
    rewrite H1. cbn [mbind res_bind]. rewrite E3. replace (n + 2 - 2) with n by lia.
    replace (n + 2 - 1) with (n + 1) by lia. rewrite H0, H1. cbn [mbind res_bind]. rewrite E4. do 2 f_equal; lia.
  - apply andb_true_iff in Hok as [Hok E6%Z.eqb_eq]. apply andb_true_iff in Hok as [Hok E5].
    apply andb_true_iff in Hok as [Hok E4]. apply andb_true_iff in Hok as [Hok E3].
    apply andb_true_iff in Hok as [E1%Z.leb_le E2%negb_true_iff].
    pose proof (Hb 1%nat _ eq_refl) as H1. pose proof (Hb 2%nat _ eq_refl) as H2.
    change (Z.of_nat 1) with 1 in H1. change (Z.of_nat 2) with 2 in H2.
    destruct (Z.ltb_spec b3 128); [lia|]. rewrite E2. cbn [mbind res_bind]. rewrite H0. cbn [mbind res_bind].
    rewrite E3. destruct (Z.leb_spec (n + 3) limit); [|lia]. rewrite H1. cbn [mbind res_bind]. rewrite E4, H2.
    cbn [mbind res_bind]. rewrite E5. replace (n + 3 - 3) with n by lia.
    replace (n + 3 - 2) with (n + 1) by lia. replace (n + 3 - 1) with (n + 2) by lia.
    rewrite H0, H1, H2. cbn [mbind res_bind]. rewrite E6. do 2 f_equal; lia.
Qed.

Lemma utf8_encode_length c : (1 <= length (utf8_encode c) <= 3)%nat.
Proof. unfold utf8_encode. repeat case_match; simpl; lia. Qed.

Lemma utf8_bytes_cons c cs : utf8_bytes (c :: cs) = utf8_encode c ++ utf8_bytes cs.
Proof. done. Qed.

Section RoundTrip.
Context (post : list Z).

Lemma strLength_bytes cs : Forall (in_u 16) cs -> forall fuel pre n,
  (length (utf8_bytes cs) <= fuel)%nat ->
  strLengthUtf8_loop fuel (pre ++ utf8_bytes cs ++ post) (Z.of_nat (length pre))
    (Z.of_nat (length pre + length (utf8_bytes cs))) n = Ok (n + Z.of_nat (length cs)).
Proof.
  induction 1 as [|c cs Hc Hcs IH]; intros fuel pre n Hf.
  - simpl. rewrite Nat.add_0_r. destruct fuel; simpl; rewrite Z.ltb_irrefl; f_equal; lia.
  - rewrite utf8_bytes_cons, length_app in *. pose proof (utf8_encode_length c).
    destruct fuel as [|fuel]; [lia|]. cbn [strLengthUtf8_loop].
    destruct (Z.ltb_spec (Z.of_nat (length pre)) (Z.of_nat (length pre + (length (utf8_encode c) + length (utf8_bytes cs))))); [|lia].
    rewrite <- app_assoc, UTF8_GET_encode by (done || lia). cbn [mbind res_bind].
    unfold in_u in Hc. destruct (Z.ltb_spec c 0); [lia|].
    specialize (IH fuel (pre ++ utf8_encode c) (n + 1)). rewrite <- app_assoc, length_app in IH.
    rewrite <- Nat2Z.inj_add, Nat.add_assoc. rewrite IH by lia. f_equal. simpl length. lia.
Qed.

Lemma decode_bytes f cs : Forall (in_u 16) cs -> forall fuel pre acc,
  (length (utf8_bytes cs) <= fuel)%nat ->
  decode_loop fuel f (pre ++ utf8_bytes cs ++ post) (Z.of_nat (length pre))
    (Z.of_nat (length pre + length (utf8_bytes cs))) acc = Ok (acc ++ map (fun c => u16 (f c)) cs).
Proof.
  induction 1 as [|c cs Hc Hcs IH]; intros fuel pre acc Hf.
  - simpl. rewrite Nat.add_0_r, app_nil_r. by destruct fuel; simpl; rewrite Z.ltb_irrefl.
  - rewrite utf8_bytes_cons, length_app in *. pose proof (utf8_encode_length c).
    destruct fuel as [|fuel]; [lia|]. cbn [decode_loop].
    destruct (Z.ltb_spec (Z.of_nat (length pre)) (Z.of_nat (length pre + (length (utf8_encode c) + length (utf8_bytes cs))))); [|lia].
    rewrite <- app_assoc, UTF8_GET_encode by (done || lia). cbn [mbind res_bind].
    specialize (IH fuel (pre ++ utf8_encode c) (acc ++ [u16 (f c)])). rewrite <- !app_assoc, length_app in IH.
    rewrite <- Nat2Z.inj_add, Nat.add_assoc. rewrite IH by lia. done.
Qed.

End RoundTrip.

(** C38: decoding inverts the class-file encoding: for every string of 16-bit
    characters, zero included, the decoder counts its characters and returns
    exactly them, with the replacement applied where one is asked for, reading
    no byte outside the constant. *)
Theorem utf8_roundtrip (cs : list Z) (Hcs : Forall (in_u 16) cs) :
  let bytes := utf8_bytes cs in
  let len := Z.of_nat (length bytes) in
  strLengthUtf8 bytes len = Ok (Z.of_nat (length cs)) /\
  decode_loop (Z.to_nat len) (fun ch => ch) bytes 0 len [] = Ok cs /\
  forall from_ch to_ch, in_u 16 to_ch ->
    makeReplaceJavaStringFromUtf8 bytes len from_ch to_ch =
      Ok (Z.of_nat (length cs), map (fun c => if c =? from_ch then to_ch else c) cs).
Proof.
  intros bytes len. assert (Hid : forall f, (forall c, in_u 16 c -> in_u 16 (f c)) ->
    map (fun c => u16 (f c)) cs = map f cs).
  { intros f Hf. clear bytes len. induction Hcs as [|c cs' Hc Hcs' IH]; [done|]. simpl.
    rewrite IH, wrapu_small; [done|]. by apply Hf. }
  assert (Hlen : strLengthUtf8 bytes len = Ok (Z.of_nat (length cs))).
  { unfold strLengthUtf8, len. rewrite Nat2Z.id.
    pose proof (strLength_bytes [] cs Hcs (length bytes) [] 0 ltac:(done)) as H.
    simpl in H. rewrite app_nil_r in H. exact H. }
  assert (Hdec : forall f, decode_loop (Z.to_nat len) f bytes 0 len [] = Ok (map (fun c => u16 (f c)) cs)).
  { intros f. unfold len. rewrite Nat2Z.id.
    pose proof (decode_bytes [] f cs Hcs (length bytes) [] [] ltac:(done)) as H.
    simpl in H. rewrite app_nil_r in H. exact H. }
  split_and!; [done|rewrite Hdec, Hid by done; by rewrite map_id|].
  intros from_ch to_ch Ht. unfold makeReplaceJavaStringFromUtf8. rewrite Hlen. cbn [mbind res_bind].
  rewrite Hdec. cbn [mbind res_bind]. rewrite Hid; [done|]. intros c Hc. by destruct (c =? from_ch).
Qed.

Lemma utf8_roundtrip_witness :
  strLengthUtf8 (utf8_bytes [72; 0; 233; 8364]) 8 = Ok 4 /\
  decode_loop 8 (fun ch => ch) (utf8_bytes [72; 0; 233; 8364]) 0 8 [] = Ok [72; 0; 233; 8364].
Proof.
  destruct (utf8_roundtrip [72; 0; 233; 8364]) as (E1 & E2 & _).
  - repeat constructor; vm_compute; congruence.
  - split; [exact E1|exact E2].
Defined.

Lemma utf8_bytes_ascii cs : Forall (fun c => 0 < c < 128) cs -> utf8_bytes cs = cs.
Proof.
  induction 1 as [|c cs Hc Hcs IH]; [done|]. rewrite utf8_bytes_cons, IH. unfold utf8_encode.
  by replace ((0 <? c) && (c <? 128)) with true by lia.
Qed.

Lemma utf8_bytes_length cs : (length cs <= length (utf8_bytes cs))%nat.
Proof.
  induction cs as [|c cs IH]; [done|]. rewrite utf8_bytes_cons, length_app. pose proof (utf8_encode_length c).
  simpl. lia.
Qed.

Lemma utf8_bytes_longer cs : Exists (fun c => c = 0 \/ 128 <= c) cs -> (length cs < length (utf8_bytes cs))%nat.
Proof.
  induction 1 as [c cs Hc|c cs Hcs IH]; rewrite utf8_bytes_cons, length_app; simpl.
  - pose proof (utf8_bytes_length cs). unfold utf8_encode.
    replace ((0 <? c) && (c <? 128)) with false by lia. destruct (c <? 0x800); simpl; lia.
  - pose proof (utf8_encode_length c). lia.
Qed.

Lemma equal_loop_ascii cs : Forall (fun c => 0 < c < 128) cs -> forall pre cs',
  length cs' = length cs ->
  equal_loop cs' (pre ++ cs) (Z.of_nat (length pre)) (Z.of_nat (length pre + length cs)) = Ok (bool_decide (cs = cs')).
Proof.
  induction 1 as [|c cs Hc Hcs IH]; intros pre cs' Hl; destruct cs' as [|d cs']; try done.
  cbn [equal_loop]. assert (He : utf8_encode c = [c]).
  { unfold utf8_encode. by replace ((0 <? c) && (c <? 128)) with true by lia. }
  pose proof (UTF8_GET_encode c pre cs (Z.of_nat (length pre + length (c :: cs)))) as Hg.
  rewrite He in Hg. change ([c] ++ cs) with (c :: cs) in Hg. rewrite Hg; [|unfold in_u; lia|simpl; lia].
  cbn [mbind res_bind length]. destruct (Z.eqb_spec d c) as [->|Hne]; simpl.
  - specialize (IH (pre ++ [c]) cs' ltac:(simpl in Hl; lia)). rewrite <- app_assoc, length_app in IH. simpl in IH.
    rewrite <- Nat2Z.inj_add. replace (length pre + S (length cs))%nat with (length pre + 1 + length cs)%nat by lia.
    rewrite IH. f_equal. apply bool_decide_ext. naive_solver.
  - rewrite bool_decide_false; [done|]. naive_solver.
Qed.

(** [equalUtf8JavaStrings] compares the number of bytes of the constant
    with the number of characters of the string, so it denies the equality of
    every string that has a character outside the 7-bit range; on strings of
    characters 1 to 127 it decides equality. *)
Theorem equalUtf8_ascii_only (cs : list Z) (Hcs : Forall (in_u 16) cs) :
  let bytes := utf8_bytes cs in
  let len := Z.of_nat (length bytes) in
  (Exists (fun c => c = 0 \/ 128 <= c) cs -> equalUtf8JavaStrings bytes len cs = Ok false) /\
  (Forall (fun c => 0 < c < 128) cs -> forall cs', equalUtf8JavaStrings bytes len cs' = Ok (bool_decide (cs = cs'))).
Proof.
  intros bytes len. split.
  - intros He%utf8_bytes_longer. unfold equalUtf8JavaStrings. fold bytes in He.
    destruct (Z.eqb_spec (Z.of_nat (length cs)) len); [lia|done].
  - intros Ha cs'. assert (Hb : bytes = cs) by (by apply utf8_bytes_ascii). unfold equalUtf8JavaStrings, len. rewrite Hb.
    destruct (Z.eqb_spec (Z.of_nat (length cs')) (Z.of_nat (length cs))) as [E|E]; simpl.
    + apply (equal_loop_ascii cs Ha [] cs'). lia.
    + rewrite bool_decide_false; [done|]. intros ->. done.
Qed.

Lemma equalUtf8_ascii_only_witness :
  equalUtf8JavaStrings (utf8_bytes [99; 233]) 3 [99; 233] = Ok false /\
  equalUtf8JavaStrings (utf8_bytes [99; 97]) 2 [99; 97] = Ok true.
Proof.
  split.
  - apply (proj1 (equalUtf8_ascii_only [99; 233] ltac:(repeat constructor; vm_compute; congruence))).
    right. left. lia.
  - apply (proj2 (equalUtf8_ascii_only [99; 97] ltac:(repeat constructor; vm_compute; congruence))).
    repeat constructor; lia.
Defined.

(** ** Probing the table of interned strings *)

Section Probe.
Context (n hash : Z).
Hypothesis (Hn : 0 <= n <= 30).

Definition probe (k : Z) : Z := (hash + k * (8 * hash + 7)) mod 2 ^ n.

Lemma size_pos : 0 < 2 ^ n.
Proof. apply Z.pow_pos_nonneg; lia. Qed.

Lemma land_size x : Z.land x (2 ^ n - 1) = x mod 2 ^ n.
Proof. rewrite <- (Z.land_ones x n) by lia. by rewrite Z.ones_equiv, <- Z.sub_1_r. Qed.

Lemma mod_s32 x : s32 x mod 2 ^ n = x mod 2 ^ n.
Proof.
  destruct (wraps_eqm 32 x) as [k Hk]; [lia|]. rewrite Hk.
  replace (2 ^ 32) with (2 ^ (32 - n) * 2 ^ n) by (rewrite <- Z.pow_add_r by lia; f_equal; lia).
  rewrite Z.mul_assoc. pose proof size_pos. by rewrite Z.mod_add by lia.
Qed.

Lemma start_probe : Z.land hash (2 ^ n - 1) = probe 0.
Proof. unfold probe. rewrite land_size. f_equal. lia. Qed.

Lemma next_probe k : next_index (2 ^ n) (hash_step hash) (probe k) = probe (k + 1).
Proof.
  pose proof size_pos. unfold next_index, hash_step. rewrite land_size, mod_s32.
  rewrite Z.add_mod, mod_s32, <- Z.add_mod by lia. unfold probe.
  rewrite Z.add_mod_idemp_l by lia. f_equal. lia.
Qed.

Lemma step_prime : rel_prime (8 * hash + 7) (2 ^ n).
Proof.
  apply rel_prime_Zpower_r; [lia|].
  apply bezout_rel_prime. apply (Bezout_intro _ _ _ (-1) (4 * hash + 4)). lia.
Qed.

Lemma probe_cycle i j : probe i = probe j <-> (2 ^ n | i - j).
Proof.
  pose proof size_pos. unfold probe. split.
  - intros E. assert (Hd : (2 ^ n | (8 * hash + 7) * (i - j))).
    { apply Z.mod_divide; [lia|].
      replace ((8 * hash + 7) * (i - j)) with ((hash + i * (8 * hash + 7)) - (hash + j * (8 * hash + 7))) by lia.
      rewrite Zminus_mod, E, Z.sub_diag. by apply Z.mod_0_l; lia. }
    eapply Gauss; [done|]. apply rel_prime_sym, step_prime.
  - intros [c Hc]. replace (hash + i * (8 * hash + 7)) with
      (hash + j * (8 * hash + 7) + (c * (8 * hash + 7)) * 2 ^ n) by nia. by apply Z.mod_add; lia.
Qed.

Lemma probe_inj i j : 0 <= i < 2 ^ n -> 0 <= j < 2 ^ n -> probe i = probe j -> i = j.
Proof.
  intros Hi Hj [c Hc]%probe_cycle. assert (c = 0) by nia. lia.
Qed.

(** Every slot is on the probe path. *)
Lemma probe_surj x : 0 <= x < 2 ^ n -> exists k, 0 <= k < 2 ^ n /\ probe k = x.
Proof.
  intros Hx. pose proof size_pos. destruct (rel_prime_bezout _ _ step_prime) as [u v Huv].
  exists (((x - hash) * u) mod 2 ^ n). split; [by apply Z.mod_pos_bound|]. unfold probe.
  rewrite <- (Z.add_mod_idemp_r hash), Z.mul_mod_idemp_l, Z.add_mod_idemp_r by lia.
  rewrite <- Z.mul_assoc. replace (u * (8 * hash + 7)) with (1 - v * 2 ^ n) by lia.
  replace (hash + (x - hash) * (1 - v * 2 ^ n)) with (x + (- ((x - hash) * v)) * 2 ^ n) by ring.
  rewrite Z.mod_add by lia. by apply Z.mod_small.
Qed.

Lemma probe_range k : 0 <= probe k < 2 ^ n.
Proof. apply Z.mod_pos_bound, size_pos. Qed.

End Probe.

(** ** The invariant of the table *)

Section Table.
Context (strs : gmap Z (list Z)).

(** The hash of a string with characters does not depend on what lies behind it. *)
Lemma hashChars_nonempty data x y : data <> [] -> hashChars data x = hashChars data y.
Proof. by destruct data. Qed.

(** Slot [j] holds a string with characters [data]. *)
Definition holds (tab : list hslot) (j p : Z) (data : list Z) : Prop :=
  zlookup tab j = Some (HLive p) /\ strs !! p = Some data.

Definition nonnull (tab : list hslot) (j : Z) : Prop :=
  exists x, zlookup tab j = Some x /\ x <> HNull.

(** Only strings with characters have a place of their own: where an empty
    string is kept depends on what lay behind it. *)
Record twf (tab : list hslot) (n : Z) : Prop := {
  tw_n : 0 <= n <= 30;
  tw_len : Z.of_nat (length tab) = 2 ^ n;
  tw_live j p : zlookup tab j = Some (HLive p) -> exists data, strs !! p = Some data;
  tw_path j p data : data <> [] -> holds tab j p data -> exists k, 0 <= k < 2 ^ n /\
    probe n (hashChars data 0) k = j /\
    forall i, 0 <= i < k -> nonnull tab (probe n (hashChars data 0) i);
  tw_unique j p j' p' data : data <> [] -> holds tab j p data -> holds tab j' p' data -> j = j' }.

Lemma slot_defined (tab : list hslot) n j : Z.of_nat (length tab) = 2 ^ n -> 0 <= j < 2 ^ n -> exists x, zlookup tab j = Some x.
Proof.
  intros Hl Hj. destruct (lookup_lt_is_Some_2 tab (Z.to_nat j)) as [x Hx]; [lia|].
  exists x. apply zlookup_Some. split; [lia|done].
Qed.

(** What [findInternSlot] returns for [data]. *)
Definition misses (tab : list hslot) (data : list Z) (j : Z) : Prop :=
  nonnull tab j /\ forall p, ~ holds tab j p data.

Definition find_post (tab : list hslot) (n : Z) (data : list Z) (hash : Z) (r : res str_error Z) : Prop :=
  let pr := probe n hash in
  match r with
  | Ok j => (exists p, holds tab j p data) \/
      (exists m i, 0 <= i <= m /\ m < 2 ^ n /\ zlookup tab (pr m) = Some HNull /\
         (forall i', 0 <= i' < m -> misses tab data (pr i')) /\ j = pr i /\
         (zlookup tab j = Some HNull \/ zlookup tab j = Some HDeleted))
  | Err e => e = StrAbort /\ forall i, 0 <= i < 2 ^ n -> misses tab data (pr i)
  end.

Lemma misses_extend (tab : list hslot) (data : list Z) (pr : Z -> Z) k :
  (forall i, 0 <= i < k -> misses tab data (pr i)) -> misses tab data (pr k) ->
  forall i, 0 <= i < k + 1 -> misses tab data (pr i).
Proof. intros H Hk i Hi. destruct (Z.eq_dec i k) as [->|]; [done|apply H; lia]. Qed.

(** The path has come back to its start exactly when it has seen every slot. *)
Lemma probe_closed n hash k : 0 <= n <= 30 -> 0 <= k < 2 ^ n ->
  probe n hash (k + 1) = probe n hash 0 <-> k + 1 = 2 ^ n.
Proof.
  intros Hn Hk. rewrite probe_cycle by done. generalize dependent (2 ^ n). intros N Hk.
  split; [intros [c Hc]; assert (c = 1) by nia; nia|]. intros E. exists 1. lia.
Qed.

Lemma find_loop_spec tab n data hash : twf tab n ->
  let pr := probe n hash in
  forall fuel k del, 0 <= k < 2 ^ n -> 2 ^ n - 1 - k <= Z.of_nat fuel ->
  (forall i, 0 <= i < k -> misses tab data (pr i)) ->
  (del = -1 \/ exists i, 0 <= i < k /\ del = pr i /\ zlookup tab del = Some HDeleted) ->
  find_post tab n data hash (findInternSlot_loop fuel strs tab (2 ^ n) data (pr 0) (hash_step hash) (pr k) del).
Proof.
  intros [Hn Hlen Hlive _ _] pr.
  induction fuel as [|fuel IH]; intros k del Hk Hf Hmiss Hdel; cbn [findInternSlot_loop].
  all: destruct (slot_defined tab n (pr k) Hlen (probe_range n hash Hn k)) as [x Hx].
  all: unfold slot_at; rewrite Hx; cbn [of_option lift mbind res_bind].
  all: pose proof (probe_closed n hash k Hn Hk) as Hclosed; unfold pr in *; rewrite next_probe by done.
  all: destruct x as [| |p].
  all: try (destruct (Z.leb_spec 0 del);
    [destruct Hdel as [->|(i & Hi & -> & Hid)]; [lia|]; right; exists k, i; split_and!; try lia; auto
    |right; exists k, k; split_and!; try lia; auto]; done).
  all: try (destruct (Hlive _ _ Hx) as [d Hd]; rewrite Hd; cbn [of_option lift mbind res_bind];
    destruct (bool_decide_reflect (d = data)) as [->|Hne]; [left; exists p; done|]).
  all: assert (Hk1 : misses tab data (probe n hash k)) by
    (split; [eexists; split; [exact Hx|done]|intros q [Hq Hq']; naive_solver]).
  all: pose proof (misses_extend tab data _ k Hmiss Hk1) as Hmiss'.
  all: destruct (Z.eqb_spec (probe n hash (k + 1)) (probe n hash 0)) as [E|E];
    [split; [done|]; intros i Hi; apply Hmiss'; apply Hclosed in E; lia|].
  all: try (exfalso; apply E, Hclosed; lia).
  all: assert (k + 1 <> 2 ^ n) by tauto.
  all: apply IH; [lia|lia|done|].
  - right. exists k. split; [lia|done].
  - destruct Hdel as [->|(i & Hi & Hid)]; [by left|right; exists i; split; [lia|done]].
Qed.

Lemma findInternSlot_spec tab n data hash : twf tab n ->
  find_post tab n data hash (findInternSlot strs tab (2 ^ n) data hash).
Proof.
  intros Hwf. pose proof (tw_n _ _ Hwf) as Hn. pose proof (size_pos n Hn).
  unfold findInternSlot. rewrite start_probe by done.
  apply find_loop_spec; [done|lia|lia|lia|by left].
Qed.

(** A string is stored in a free slot of the path of its hash, every slot before
    it being in use. *)
Definition free_on_path (tab : list hslot) (n hash : Z) (j : Z) : Prop :=
  exists k, 0 <= k < 2 ^ n /\ j = probe n hash k /\
    (zlookup tab j = Some HNull \/ zlookup tab j = Some HDeleted) /\
    forall i, 0 <= i < k -> nonnull tab (probe n hash i).

Lemma holds_store tab tab' j p data : zstore tab j (HLive p) = Some tab' ->
  (zlookup tab j = Some HNull \/ zlookup tab j = Some HDeleted) -> strs !! p = Some data ->
  forall j' p' data', holds tab' j' p' data' <->
    holds tab j' p' data' \/ j' = j /\ p' = p /\ data' = data.
Proof.
  intros Hst Hfree Hp j' p' data'. unfold holds. rewrite (zlookup_zstore _ _ _ _ _ Hst).
  destruct (Z.eqb_spec j j') as [<-|Hne]; naive_solver.
Qed.

Lemma nonnull_store tab tab' j p i : zstore tab j (HLive p) = Some tab' -> nonnull tab i -> nonnull tab' i.
Proof.
  intros Hst (x & Hx & Hn). unfold nonnull. rewrite (zlookup_zstore _ _ _ _ _ Hst).
  destruct (j =? i); eauto.
Qed.

Lemma twf_store tab tab' n j p data x : twf tab n -> zstore tab j (HLive p) = Some tab' ->
  free_on_path tab n (hashChars data x) j -> strs !! p = Some data ->
  (data <> [] -> forall j' p', ~ holds tab j' p' data) -> twf tab' n.
Proof.
  intros [Hn Hlen Hlive Hpath Huniq] Hst (k & Hk & -> & Hfree & Hbefore) Hp Hnew.
  pose proof (holds_store _ _ _ _ _ Hst Hfree Hp) as Hh. split.
  - done.
  - apply zstore_Some in Hst as [_ ->]. by rewrite length_insert.
  - intros j' p'. rewrite (zlookup_zstore _ _ _ _ _ Hst).
    destruct (_ =? j'); [intros [= <-]; eauto|apply Hlive].
  - intros j' p' data' Hne [H|(-> & -> & ->)]%Hh.
    + destruct (Hpath _ _ _ Hne H) as (k' & Hk' & Hj' & Hb). exists k'. split; [lia|]. split; [done|].
      intros i Hi. eapply nonnull_store; [done|by apply Hb].
    + rewrite (hashChars_nonempty data x 0) in * by done. exists k. split; [lia|]. split; [done|].
      intros i Hi. eapply nonnull_store; [done|by apply Hbefore].
  - intros j1 p1 j2 p2 d Hne [H1|(-> & -> & ->)]%Hh [H2|(-> & -> & E)]%Hh; subst; try done;
      [by apply (Huniq _ p1 _ p2 d)| |]; exfalso; by eapply Hnew.
Qed.

(** *** Free slots *)

Definition used (tab : list hslot) : nat := length (List.filter (fun x => negb (bool_decide (x = HNull))) tab).

Lemma used_null (tab : list hslot) : (used tab < length tab)%nat -> exists j, zlookup tab j = Some HNull.
Proof.
  intros H. assert (He : exists i, tab !! i = Some HNull).
  { induction tab as [|x tab IH]; [simpl in H; lia|]. unfold used in *. simpl in H.
    destruct (bool_decide_reflect (x = HNull)) as [->|]; simpl in H; [by exists 0%nat|].
    destruct IH as [i Hi]; [lia|by exists (S i)]. }
  destruct He as [i Hi]. exists (Z.of_nat i). by rewrite zlookup_nat.
Qed.

Lemma used_insert i x (tab : list hslot) : (used (<[i := x]> tab) <= used tab + 1)%nat.
Proof.
  revert i. induction tab as [|y tab IH]; intros [|i]; unfold used in *; simpl; try lia.
  - destruct (negb (bool_decide (x = HNull))), (negb (bool_decide (y = HNull))); simpl; lia.
  - specialize (IH i). destruct (negb (bool_decide (y = HNull))); simpl; lia.
Qed.

Lemma used_replicate n : used (replicate n HNull) = 0%nat.
Proof. induction n as [|n IH]; [done|]. exact IH. Qed.

(** *** Re-hashing *)

Lemma rehash_place_spec tab n hash p : twf tab n -> (used tab < length tab)%nat ->
  exists tab' j, rehash_place (Z.to_nat (2 ^ n)) tab (2 ^ n) (hash_step hash) (Z.land hash (2 ^ n - 1)) p = Ok tab' /\
    zstore tab j (HLive p) = Some tab' /\ free_on_path tab n hash j.
Proof.
  intros [Hn Hlen _ _ _] Hused. pose proof (size_pos n Hn).
  destruct (used_null tab Hused) as [jn Hjn].
  destruct (probe_surj n hash Hn jn) as (kn & Hkn & Hpk); [apply zlookup_bound in Hjn; lia|].
  rewrite start_probe by done.
  assert (Hgen : forall fuel k, 0 <= k <= kn -> kn - k <= Z.of_nat fuel ->
    (forall i, 0 <= i < k -> nonnull tab (probe n hash i)) ->
    exists tab' j, rehash_place fuel tab (2 ^ n) (hash_step hash) (probe n hash k) p = Ok tab' /\
      zstore tab j (HLive p) = Some tab' /\ free_on_path tab n hash j).
  2:{ apply Hgen; lia. }
  induction fuel as [|fuel IH]; intros k Hk Hf Hb; cbn [rehash_place].
  all: destruct (slot_defined tab n (probe n hash k) Hlen (probe_range n hash Hn k)) as [x Hx].
  all: unfold slot_at; rewrite Hx; cbn [of_option lift mbind res_bind].
  all: destruct (decide (x = HNull)) as [->|Hxn].
  1,3: destruct (zstore tab (probe n hash k) (HLive p)) as [tab'|] eqn:Hst;
    [exists tab', (probe n hash k); unfold tab_set; rewrite Hst; split_and!; [done|done|];
     exists k; split_and!; try lia; auto
    |unfold zstore in Hst; pose proof (probe_range n hash Hn k); case_match; [lia|done]].
  - assert (k = kn) as -> by lia. congruence.
  - assert (k <> kn) by (intros ->; congruence).
    destruct (IH (k + 1)) as (tab' & j & He & Hrest); [lia|lia| |].
    { intros i Hi. destruct (Z.eq_dec i k) as [->|]; [by exists x|apply Hb; lia]. }
    exists tab', j. split; [|done]. rewrite next_probe by done. by destruct x.
Qed.

(** The strings with characters in the slots of a table. *)
Definition slot_data (x : hslot) : option (list Z) :=
  match x with
  | HLive p => match strs !! p with Some (c :: data) => Some (c :: data) | _ => None end
  | _ => None
  end.
Definition live_data (old : list hslot) : list (list Z) := omap slot_data old.

Lemma slot_data_Some x d : slot_data x = Some d <-> exists p, x = HLive p /\ strs !! p = Some d /\ d <> [].
Proof.
  destruct x as [| |p]; simpl; [naive_solver..|]. destruct (strs !! p) as [[|]|] eqn:E; naive_solver.
Qed.

Lemma rehash_loop_spec behind n old : forall tab, twf tab n ->
  (used tab + length old <= length tab)%nat ->
  (forall p, HLive p ∈ old -> is_Some (strs !! p)) -> NoDup (live_data old) ->
  (forall j p data, holds tab j p data -> data ∉ live_data old) ->
  exists tab', rehash_loop behind strs (2 ^ n) old tab = Ok tab' /\ twf tab' n /\
    (used tab' <= used tab + length old)%nat /\
    forall p data, (exists j, holds tab' j p data) <->
      (exists j, holds tab j p data) \/ HLive p ∈ old /\ strs !! p = Some data.
Proof.
  induction old as [|x old IH]; intros tab Hwf Hroom Hdef Hnd Hdisj; cbn [rehash_loop].
  { exists tab. split_and!; [done|done|lia|]. set_solver. }
  simpl in Hroom. assert (Hskip : (forall p, x <> HLive p) -> exists tab',
    rehash_loop behind strs (2 ^ n) old tab = Ok tab' /\ twf tab' n /\ (used tab' <= used tab + S (length old))%nat /\
    forall p data, (exists j, holds tab' j p data) <->
      (exists j, holds tab j p data) \/ HLive p ∈ x :: old /\ strs !! p = Some data).
  { intros Hx. assert (Hsame : live_data (x :: old) = live_data old) by (destruct x; naive_solver).
    rewrite Hsame in Hnd, Hdisj.
    destruct (IH tab) as (tab' & He & Hwf' & Hu & Hspec); [done|lia|set_solver|done|done|].
    exists tab'. split_and!; [done|done|lia|]. intros p data. rewrite Hspec, elem_of_cons. naive_solver. }
  destruct x as [| |p]; [by apply Hskip|by apply Hskip|clear Hskip].
  destruct (Hdef p ltac:(set_solver)) as [data Hp]. rewrite Hp. cbn [of_option lift mbind res_bind].
  assert (Hl : live_data (HLive p :: old) = (if decide (data = []) then [] else [data]) ++ live_data old)
    by (unfold live_data; simpl; rewrite Hp; by destruct data).
  rewrite Hl in Hnd, Hdisj. apply NoDup_app in Hnd as (_ & Hnot & Hnd).
  destruct (rehash_place_spec tab n (hashChars data (behind p)) p Hwf ltac:(lia)) as (tab1 & j1 & -> & Hst & Hfree).
  cbn [mbind res_bind]. assert (Hnew : data <> [] -> forall j' p', ~ holds tab j' p' data).
  { intros Hne j' p' Hh. apply (Hdisj _ _ _ Hh). rewrite decide_False by done. set_solver. }
  pose proof (twf_store _ _ _ _ _ _ _ Hwf Hst Hfree Hp Hnew) as Hwf1.
  destruct Hfree as (k & _ & _ & Hslot & _). pose proof (holds_store _ _ _ _ _ Hst Hslot Hp) as Hh.
  assert (Hu1 : (used tab1 <= used tab + 1)%nat /\ length tab1 = length tab).
  { apply zstore_Some in Hst as [_ ->]. split; [apply used_insert|apply length_insert]. }
  destruct (IH tab1) as (tab' & He & Hwf' & Hu & Hspec); [done|lia|set_solver|done| |].
  { intros j' p' data' [H|(-> & -> & ->)]%Hh; [specialize (Hdisj _ _ _ H); set_solver|].
    destruct (decide (data = [])) as [->|]; [|apply Hnot; set_solver].
    unfold live_data. rewrite list_elem_of_omap. intros (x & _ & (q & _ & _ & ?)%slot_data_Some). done. }
  exists tab'. split_and!; [done|done|simpl; lia|]. intros p' data'. rewrite Hspec, elem_of_cons. setoid_rewrite Hh.
  naive_solver.
Qed.

Lemma live_data_elem tab d : d ∈ live_data tab <->
  exists i p, tab !! i = Some (HLive p) /\ strs !! p = Some d /\ d <> [].
Proof.
  unfold live_data. rewrite list_elem_of_omap. setoid_rewrite list_elem_of_lookup.
  setoid_rewrite slot_data_Some. naive_solver.
Qed.

Lemma live_data_NoDup tab : (forall i i' p p' d, tab !! i = Some (HLive p) -> tab !! i' = Some (HLive p') ->
  strs !! p = Some d -> strs !! p' = Some d -> d <> [] -> i = i') -> NoDup (live_data tab).
Proof.
  induction tab as [|x tab IH]; intros Hu; [constructor|].
  assert (Htl : NoDup (live_data tab)).
  { apply IH. intros i i' p p' d H1 H2 E1 E2 Hne. specialize (Hu (S i) (S i') p p' d H1 H2 E1 E2 Hne). lia. }
  unfold live_data in *. simpl. destruct (slot_data x) as [d|] eqn:Hx; [|done]. apply NoDup_cons. split; [|done].
  apply slot_data_Some in Hx as (p & -> & Hp & _).
  intros (i & p' & Hi & E & Hne)%live_data_elem. by specialize (Hu O (S i) p p' d eq_refl Hi Hp E Hne).
Qed.

Lemma twf_NoDup tab n : twf tab n -> NoDup (live_data (rev tab)).
Proof.
  intros [Hn Hlen Hlive Hpath Huniq]. unfold live_data.
  apply (NoDup_Permutation_proper (live_data tab)).
  - unfold live_data. by rewrite <- Permutation_rev.
  - apply live_data_NoDup. intros i i' p p' d H1 H2 E1 E2 Hne. assert (Z.of_nat i = Z.of_nat i'); [|lia].
    apply (Huniq _ p _ p' d Hne); (split; [by rewrite zlookup_nat|done]).
Qed.

End Table.

(** ** Interning *)

Section InternSpec.
Context (behind : Z -> Z).

(** The state of the table; it is created by the first insertion. *)
Definition swf (st : str_state) : Prop :=
  match strhash st with
  | None => strhash_size st = 0 /\ strhash_count st = 0
  | Some tab => exists n, strhash_size st = 2 ^ n /\ twf (jstrings st) tab n
  end.

(** The abstract table: which object is interned for which characters. *)
Definition interned (st : str_state) (data : list Z) (p : Z) : Prop :=
  exists tab j, strhash st = Some tab /\ holds (jstrings st) tab j p data.

Definition must_grow (st : str_state) : bool := 3 * strhash_size st <=? 4 * strhash_count st.

Definition has_null (st : str_state) : Prop :=
  exists tab j, strhash st = Some tab /\ zlookup tab j = Some HNull.

Lemma replicate_null n j p : ~ zlookup (replicate n HNull) j = Some (HLive p).
Proof. rewrite zlookup_Some. intros [_ [E _]%lookup_replicate]. done. Qed.

Lemma twf_empty strs n : 0 <= n <= 30 -> twf strs (replicate (Z.to_nat (2 ^ n)) HNull) n.
Proof.
  intros Hn. pose proof (size_pos n Hn). split; [done|rewrite length_replicate; lia| | |].
  - intros j p H'. by apply replicate_null in H'.
  - intros j p data _ [H' _]. by apply replicate_null in H'.
  - intros j p j' p' data _ [H' _]. by apply replicate_null in H'.
Qed.

Lemma interned_slots st tab data p : strhash st = Some tab ->
  interned st data p <-> HLive p ∈ rev tab /\ jstrings st !! p = Some data.
Proof.
  intros Ht. unfold interned, holds. rewrite Ht. setoid_rewrite <- Permutation_rev.
  rewrite list_elem_of_lookup. split.
  - intros (tab' & j & [= <-] & [? Hj]%zlookup_Some & Hp). eauto.
  - intros [[i Hi] Hp]. exists tab, (Z.of_nat i). by rewrite zlookup_nat.
Qed.

(** Re-hashing keeps what is interned, and leaves an empty slot. *)
Lemma rehashStrings_spec st : swf st -> strhash_size st <= 2 ^ 29 ->
  exists st', rehashStrings behind st = Ok st' /\ swf st' /\ has_null st' /\
    jstrings st' = jstrings st /\ strhash_count st' = strhash_count st /\ next_string st' = next_string st /\
    forall data p, interned st' data p <-> interned st data p.
Proof.
  intros Hwf Hsz. unfold rehashStrings, swf in *. destruct (strhash st) as [tab|] eqn:Ht.
  2:{ eexists. split; [done|]. cbn -[replicate]. split; [exists 10; split; [done|apply (twf_empty _ 10); lia]|].
      split; [exists (replicate 1024 HNull), 0; done|]. split_and!; [done..|].
      intros data p. unfold interned. cbn -[replicate]. rewrite Ht. split.
      - intros (tab' & j & E & [H _]). assert (tab' = replicate 1024 HNull) as -> by congruence.
        by apply replicate_null in H.
      - intros (? & j & ? & _). done. }
  destruct Hwf as (n & Hn & Hwf). pose proof (tw_n _ _ _ Hwf) as Hr. rewrite Hn in *.
  assert (n <= 29) by (apply (Z.pow_le_mono_r_iff 2); lia).
  replace (2 ^ n * 2) with (2 ^ (n + 1)) by (rewrite Z.pow_add_r; lia).
  pose proof (size_pos n Hr). pose proof (tw_len _ _ _ Hwf) as Hlen.
  assert (Hp2 : 2 ^ (n + 1) = 2 * 2 ^ n) by (rewrite Z.pow_add_r; lia).
  destruct (rehash_loop_spec (jstrings st) behind (n + 1) (rev tab) (replicate (Z.to_nat (2 ^ (n + 1))) HNull))
    as (tab' & He & Hwf' & Hused & Hspec).
  - apply twf_empty. lia.
  - rewrite used_replicate, length_rev, length_replicate. lia.
  - intros p Hp. rewrite <- Permutation_rev in Hp. apply list_elem_of_lookup in Hp as [i Hi].
    destruct (tw_live _ _ _ Hwf (Z.of_nat i) p) as [d Hd]; [by rewrite zlookup_nat|by exists d].
  - by eapply twf_NoDup.
  - intros j p data [H' _]. by apply replicate_null in H'.
  - rewrite He. cbn [mbind res_bind]. eexists. split; [done|]. cbn. split; [eauto|]. split.
    { rewrite used_replicate, length_rev in Hused. destruct (used_null tab') as [j Hj];
        [pose proof (tw_len _ _ _ Hwf'); lia|]. by exists tab', j. }
    split_and!; [done..|]. intros data p. rewrite (interned_slots st tab) by done.
    transitivity (exists j, holds (jstrings st) tab' j p data).
    { unfold interned. simpl. naive_solver. }
    rewrite Hspec. split; [intros [[j [H' _]]|?]; [by apply replicate_null in H'|done]|by right].
Qed.

Lemma grow_strings_spec st : swf st -> strhash_size st <= 2 ^ 29 ->
  (must_grow st = true \/ has_null st) ->
  exists st', grow_strings behind st = Ok st' /\ swf st' /\ has_null st' /\
    jstrings st' = jstrings st /\ strhash_count st' = strhash_count st /\ next_string st' = next_string st /\
    forall data p, interned st' data p <-> interned st data p.
Proof.
  intros Hwf Hsz Hroom. unfold grow_strings. fold (must_grow st). destruct (must_grow st) eqn:Hg.
  - by apply rehashStrings_spec.
  - destruct Hroom as [|Hnull]; [done|]. exists st. split_and!; done.
Qed.

(** A table with an empty slot is searched without an abort. *)
Lemma find_with_null strs tab n data x : twf strs tab n -> (exists j, zlookup tab j = Some HNull) ->
  exists j, findInternSlot strs tab (2 ^ n) data (hashChars data x) = Ok j /\
    ((exists p, holds strs tab j p data) \/
     free_on_path tab n (hashChars data x) j /\ (data <> [] -> forall j' p', ~ holds strs tab j' p' data)).
Proof.
  intros Hwf [jn Hjn]. pose proof (tw_n _ _ _ Hwf) as Hn. pose proof (tw_len _ _ _ Hwf) as Hlen.
  pose proof (findInternSlot_spec strs tab n data (hashChars data x) Hwf) as Hs. unfold find_post in Hs.
  destruct (findInternSlot _ _ _ _ _) as [j|e].
  - exists j. split; [done|]. destruct Hs as [?|(m & i & Hi & Hm & Hnull & Hmiss & -> & Hfree)]; [by left|right].
    split.
    + exists i. split; [lia|]. split; [done|]. split; [done|]. intros i' Hi'. apply Hmiss. lia.
    + intros Hne j' p' Hh. rewrite (hashChars_nonempty data x 0) in * by done.
      destruct (tw_path _ _ _ Hwf _ _ _ Hne Hh) as (k & Hk & <- & Hbefore).
      destruct (decide (k < m)) as [Hlt|Hge]; [by destruct (Hmiss k ltac:(lia)) as [_ H]; apply (H p')|].
      destruct (decide (k = m)) as [->|]; [destruct Hh; congruence|].
      destruct (Hbefore m ltac:(lia)) as (y & Hy & Hyn). congruence.
  - destruct Hs as [_ Hall]. exfalso. destruct (probe_surj n (hashChars data x) Hn jn) as (k & Hk & <-).
    { apply zlookup_bound in Hjn. lia. }
    destruct (Hall k Hk) as [(y & Hy & Hyn) _]. congruence.
Qed.

Lemma interned_unique st data p p' : swf st -> data <> [] -> interned st data p -> interned st data p' -> p = p'.
Proof.
  intros Hwf Hne (tab & j & Ht & Hh) (tab' & j' & Ht' & Hh'). unfold swf in Hwf. rewrite Ht in *.
  destruct Hwf as (n & _ & Hwf). simplify_eq. pose proof (tw_unique _ _ _ Hwf _ _ _ _ _ Hne Hh Hh') as <-.
  destruct Hh as [E _], Hh' as [E' _]. congruence.
Qed.

(** C37: interning refines insertion into a partial map from the non-empty
    strings to objects.  Whatever lies behind the empty strings of the store
    during the call, in a well-formed table that has an empty slot or is due to
    grow, the call returns an object interned for the same characters before,
    or the string itself, which it then enters.  A string with characters is
    entered only when no object was interned for it.  Afterwards exactly that
    pair has been added to what was interned, at most one object stands for a
    given string with characters, and the table is well formed.  The empty
    string has no such guarantee ([empty_strings_interned_twice]). *)
Theorem intern_canonical (st : str_state) (str : Z) (data : list Z) (Hwf : swf st)
    (Hsz : strhash_size st <= 2 ^ 29) (Hroom : must_grow st = true \/ has_null st)
    (Hstr : jstrings st !! str = Some data) :
  exists st' p, internJavaString behind st str = Ok (st', p) /\ swf st' /\
    jstrings st' = jstrings st /\
    (interned st data p /\ strhash_count st' = strhash_count st \/
     p = str /\ (data <> [] -> forall q, ~ interned st data q) /\ strhash_count st' = strhash_count st + 1) /\
    (forall data' q, interned st' data' q <-> interned st data' q \/ data' = data /\ q = p) /\
    (forall data' q q', data' <> [] -> interned st' data' q -> interned st' data' q' -> q = q').
Proof.
  destruct (grow_strings_spec st Hwf Hsz Hroom) as (st1 & Hg & Hwf1 & (tab & jn & Ht & Hjn) & Hj & Hc & _ & Hint).
  unfold internJavaString. rewrite Hg. cbn [mbind res_bind]. rewrite Ht. cbn [of_option lift mbind res_bind].
  unfold findInternSlotFromString. rewrite Hj, Hstr. cbn [of_option lift mbind res_bind].
  pose proof Hwf1 as Hw. unfold swf in Hw. rewrite Ht in Hw. destruct Hw as (n & Hn & Hw). rewrite Hn, Hj in *.
  destruct (find_with_null _ _ _ data (behind str) Hw (ex_intro _ _ Hjn)) as (j & -> & [[p Hh]|[Hfree Hnone]]);
    cbn [mbind res_bind]; unfold slot_at.
  - exists st1, p. assert (Hi1 : interned st1 data p) by (exists tab, j; rewrite Hj; done).
    destruct Hh as [Hlk Hp]. rewrite Hlk. cbn [of_option lift mbind res_bind].
    split_and!; [done|done|done|left; rewrite <- Hint; done| |intros; by eapply interned_unique].
    intros data' q. rewrite <- Hint. naive_solver.
  - pose proof Hfree as (k & Hk & Hjk & Hslot & _). pose proof (tw_n _ _ _ Hw) as Hr.
    destruct (zstore tab j (HLive str)) as [tab'|] eqn:Hst.
    2:{ unfold zstore in Hst. pose proof (tw_len _ _ _ Hw). pose proof (probe_range n (hashChars data (behind str)) Hr k).
        rewrite <- Hjk in *. case_match; [lia|done]. }
    pose proof (twf_store _ _ _ _ _ _ _ _ Hw Hst Hfree Hstr Hnone) as Hw'.
    pose proof (holds_store _ _ _ _ _ _ Hst Hslot Hstr) as Hh.
    exists (set_strhash st1 tab' (strhash_count st1 + 1)), str.
    assert (Hwf' : swf (set_strhash st1 tab' (strhash_count st1 + 1))).
    { unfold swf, set_strhash. simpl. rewrite Hj. exists n. done. }
    split; [unfold tab_set; destruct Hslot as [->| ->]; cbn [of_option lift mbind res_bind]; by rewrite Hst|].
    split; [done|]. split; [done|]. split; [right; split_and!; [done| |simpl; lia]|].
    + intros Hne q (tab2 & j2 & Ht2 & Hh2)%Hint. rewrite Ht in Ht2. injection Ht2 as <-. rewrite Hj in Hh2. by eapply Hnone.
    + split; [|intros; by eapply interned_unique]. intros data' q. rewrite <- Hint.
      unfold interned, set_strhash. simpl. rewrite Ht, Hj. 
      split.
      * intros (? & j' & [= <-] & [?|(-> & -> & ->)]%Hh); [left; eauto|by right].
      * intros [(? & j' & [= <-] & ?)|[-> ->]]; [exists tab', j'; rewrite Hh; auto|exists tab', j; rewrite Hh; auto].
Qed.

End InternSpec.

Definition no_text : Z -> Z := fun _ => 0.
Definition two_strings : str_state := mkStr None 0 0 {[ 1 := [97; 98]; 2 := [97; 98] ]} 3.

Lemma intern_canonical_witness : exists st' p,
  internJavaString no_text two_strings 1 = Ok (st', p) /\ interned st' [97; 98] p /\
  (forall q, interned st' [97; 98] q -> q = p).
Proof.
  destruct (intern_canonical no_text two_strings 1 [97; 98]) as (st' & p & E & _ & _ & _ & Hi & Hu).
  - done.
  - vm_compute. congruence.
  - left. done.
  - done.
  - assert (interned st' [97; 98] p) by (apply Hi; by right).
    exists st', p. split_and!; [done|done|]. intros q Hq. by apply (Hu [97; 98]).
Defined.

(** Two empty strings with different words behind them have different hashes:
    the second is entered beside the first. *)
Definition two_empty : str_state := mkStr None 0 0 {[ 1 := []; 2 := [] ]} 3.
Definition text_behind (p : Z) : Z := 96 + p.

Theorem empty_strings_interned_twice :
  ('(st1, p1) ← internJavaString text_behind two_empty 1;
   '(st2, p2) ← internJavaString text_behind st1 2;
   Ok (p1, p2, strhash_count st2, jstrings st2 !! p1, jstrings st2 !! p2)) = Ok (1, 2, 2, Some [], Some []).
Proof. vm_compute. reflexivity. Qed.

(** ** Deleted entries *)

(** One string per character below 1024, each interned and then finalized. *)
Definition churn : str_state :=
  mkStr None 0 0 (list_to_map (map (fun i => (i, [i])) (seqZ 0 1025))) 1025.

Definition churn_step (st : res str_error str_state) (i : Z) : res str_error str_state :=
  st ← st; '(st, _) ← internJavaString no_text st i; uninternJavaString no_text st i.

Definition churned : res str_error str_state := fold_left churn_step (seqZ 0 1024) (Ok churn).

Definition live_after (r : res str_error str_state) : option Z :=
  match r with Ok st => Some (strhash_count st) | Err _ => None end.

Definition intern_fails (r : res str_error str_state) (p : Z) : option str_error :=
  match (st ← r; internJavaString no_text st p) with Ok _ => None | Err e => Some e end.

(** The table grows by the number of live strings only.  After 1024 strings
    have been interned and collected the table holds none, yet every slot is a
    marker, and interning one more string aborts the machine. *)
Theorem tombstones_abort_intern :
  live_after churned = Some 0 /\ intern_fails churned 1024 = Some StrAbort.
Proof. split; vm_compute; reflexivity. Qed.

Definition no_consts : utf8_state := mkUtf8 None 0 0 ∅ 0.

Definition make_all (st : res failure utf8_state) (names : list (list Z)) : res failure utf8_state :=
  fold_left (fun st s => st ← st; '(st, _) ← makeUtf8Const 2000 st s; Ok st) names st.

Definition name (i : Z) : list Z := [65 + i / 26; 65 + i mod 26].

(** The outcome of a run, without its state. *)
Definition outcome {E A} (r : res E A) : option E := match r with Ok _ => None | Err e => Some e end.

(** The runs of [utf8_rehash_dereferences_marker]: make 681 constants, finalize
    the one at address 5, make the constants [extra]. *)
Definition make_after_finalize (extra : list (list Z)) : option failure :=
  outcome (st ← make_all (Ok no_consts) (map name (seqZ 0 681));
           st ← finalizeUtf8const 2000 st 5;
           make_all (Ok st) extra).

(** The re-hash of the constant table tests the old slots as pointers
    greater than zero, which the marker of a finalized constant is too: with 681
    constants made, one of them finalized and another made, the next constant
    makes the table grow and the marker is dereferenced. *)
Theorem utf8_rehash_dereferences_marker :
  make_after_finalize [name 681] = None /\
  make_after_finalize [name 681; name 682] = Some BadAccess.
Proof. split; vm_compute; reflexivity. Qed.

(** [javaString2CString] leaves in the buffer the low bytes of as many
    characters as fit, terminated, and writes nothing past them; but the pointer
    it returns has been advanced over them, so what a caller reads through the
    result is the empty string. *)
Theorem javaString2CString_correct (chrs cs : list Z) (len : Z)
    (Hlen : 0 < len <= Z.of_nat (length cs)) :
  let n := Z.min (len - 1) (Z.of_nat (length chrs)) in
  exists cs', javaString2CString (Some chrs) cs len = Ok (cs', Some n) /\
    length cs' = length cs /\
    (forall i, 0 <= i < n -> exists c, zlookup chrs i = Some c /\ zlookup cs' i = Some (u8 c)) /\
    zlookup cs' n = Some 0 /\
    (forall i, n < i -> zlookup cs' i = zlookup cs i).
Proof.
  intros n. unfold javaString2CString. destruct (Z.leb_spec len 0); [lia|]. fold n.
  destruct (zstore cs n 0) as [cs1|] eqn:Hst.
  2:{ unfold zstore in Hst. case_match; [lia|done]. }
  cbn [of_option mbind res_bind]. eexists. split; [done|].
  assert (Hl1 : length cs1 = length cs) by (apply zstore_Some in Hst as [_ ->]; apply length_insert).
  set (pre := map (fun c => u8 c) (take (Z.to_nat n) chrs)).
  assert (Hpre : length pre = Z.to_nat n) by (unfold pre; rewrite length_map, length_take; lia).
  assert (Hlow : forall i, 0 <= i < n -> zlookup (pre ++ drop (Z.to_nat n) cs1) i = u8 <$> zlookup chrs i).
  { intros i Hi. unfold zlookup. destruct (Z.ltb_spec i 0); [lia|]. rewrite lookup_app_l by lia.
    unfold pre. rewrite list_lookup_fmap, lookup_take_lt by lia. done. }
  assert (Hhigh : forall i, n <= i -> zlookup (pre ++ drop (Z.to_nat n) cs1) i = zlookup cs1 i).
  { intros i Hi. unfold zlookup. destruct (Z.ltb_spec i 0); [lia|]. rewrite lookup_app_r by lia.
    rewrite lookup_drop. f_equal. lia. }
  split_and!.
  - rewrite length_app, length_drop. lia.
  - intros i Hi. rewrite Hlow by done. destruct (zlookup_is_Some chrs i) as [c Hc]; [lia|].
    exists c. by rewrite Hc.
  - rewrite Hhigh, (zlookup_zstore _ _ _ _ _ Hst), Z.eqb_refl by lia. done.
  - intros i Hi. rewrite Hhigh, (zlookup_zstore _ _ _ _ _ Hst) by lia. destruct (Z.eqb_spec n i); [lia|done].
Qed.

Lemma javaString2CString_correct_witness : exists cs',
  javaString2CString (Some [72; 105; 33]) [1; 1; 1] 3 = Ok (cs', Some 2) /\ zlookup cs' 2 = Some 0.
Proof.
  destruct (javaString2CString_correct [72; 105; 33] [1; 1; 1] 3) as (cs' & E & _ & _ & H0 & _); [simpl; lia|].
  exists cs'. split; [exact E|exact H0].
Defined.
