(* ===== verification/Threads.v ===== *)
(** * Thread scheduling (src/runtime/thread-internal.c, thread.h macros)

    LaTTe schedules Java threads itself.  Runnable threads stand on one queue
    per priority, blocked ones on the queue of a lock or file descriptor, and
    sleeping ones also on the alarm list; every queue is linked through the
    thread contexts.  The model keeps the pointers: queue heads and tails are
    global variables of the state and the links are fields of the contexts.

    A thread is named by its object.  [TCTX(t)] is
    [threadContext[unhand(t)->PrivateInfo]]; since the slots of live threads
    differ, the model indexes the contexts by thread and keeps the slot number
    in the context.  A thread whose [PrivateInfo] is 0 has no context.

    [reschedule] switches stacks in the middle of an operation, so operations
    are resumptions: [Yield from s k] is an operation of thread [from] that
    switched to the thread [currentThread s], and that goes on with [k] when
    [from] is switched back to.
    What the process cannot determine itself comes from the state: [events] is
    the script of results of the blocking [select] (with the alarm signals
    that interrupt it), [polls] the one of the polling [select] of
    [blockOnFile], and [clock] the current time. *)

From stdpp Require Import functions.
From Stdlib Require Import Sorted.
From S2P Require Import Prelude.

(** ** State *)

(** The queues: [threadQhead[p]], the two queues of a [jLock], [readQ[fd]],
    [writeQ[fd]], [alarmList] and [liveThreads]. *)
Inductive qref :=
| RunQ (p : Z)
| WaiterQ (lock : Z)
| CondQ (lock : Z)
| ReadQ (fd : Z)
| WriteQ (fd : Z)
| AlarmList
| LiveThreads.

#[export] Instance qref_eq_dec : EqDecision qref.
Proof. solve_decision. Defined.

Definition qref_code (q : qref) : Z * Z :=
  match q with
  | RunQ p => (0, p) | WaiterQ l => (1, l) | CondQ l => (2, l) | ReadQ i => (3, i)
  | WriteQ i => (4, i) | AlarmList => (5, 0) | LiveThreads => (6, 0)
  end.

Definition qref_decode (n : Z * Z) : option qref :=
  match n with
  | (0, p) => Some (RunQ p) | (1, l) => Some (WaiterQ l) | (2, l) => Some (CondQ l)
  | (3, i) => Some (ReadQ i) | (4, i) => Some (WriteQ i) | (5, _) => Some AlarmList
  | (6, _) => Some LiveThreads | _ => None
  end.

#[export] Instance qref_countable : Countable qref.
Proof. apply (inj_countable qref_code qref_decode). by intros []. Defined.

Abbreviation java_lang_Thread_MIN_PRIORITY := 1.
Abbreviation java_lang_Thread_MAX_PRIORITY := 10.
Abbreviation FD_SETSIZE := 1024.
Abbreviation NOTIMEOUT := 0.

Abbreviation THREAD_SUSPENDED := 0.
Abbreviation THREAD_RUNNING := 1.
Abbreviation THREAD_DEAD := 2.

Abbreviation THREAD_FLAGS_GENERAL := 0.
Abbreviation THREAD_FLAGS_NOSTACKALLOC := 1.
Abbreviation THREAD_FLAGS_KILLED := 2.
Abbreviation THREAD_FLAGS_ALARM := 4.
Abbreviation THREAD_FLAGS_USERSUSPEND := 8.
Abbreviation THREAD_FLAGS_ERROR := 16.
Abbreviation THREAD_FLAGS_STOPPED := 32.

(** A thread context, without its stacks. *)
Record ctx := mkCtx {
  status : Z;
  priority : Z;
  time : Z;
  nextQ : option Z;
  nextlive : option Z;
  nextalarm : option Z;
  blockqueue : option qref;
  flags : Z;
  PrivateInfo : Z }.

Definition set_status (v : Z) (s : ctx) : ctx :=
  mkCtx v (priority s) (time s) (nextQ s) (nextlive s) (nextalarm s) (blockqueue s) (flags s) (PrivateInfo s).
Definition set_priority (v : Z) (s : ctx) : ctx :=
  mkCtx (status s) v (time s) (nextQ s) (nextlive s) (nextalarm s) (blockqueue s) (flags s) (PrivateInfo s).
Definition set_time (v : Z) (s : ctx) : ctx :=
  mkCtx (status s) (priority s) v (nextQ s) (nextlive s) (nextalarm s) (blockqueue s) (flags s) (PrivateInfo s).
Definition set_nextQ (v : option Z) (s : ctx) : ctx :=
  mkCtx (status s) (priority s) (time s) v (nextlive s) (nextalarm s) (blockqueue s) (flags s) (PrivateInfo s).
Definition set_nextlive (v : option Z) (s : ctx) : ctx :=
  mkCtx (status s) (priority s) (time s) (nextQ s) v (nextalarm s) (blockqueue s) (flags s) (PrivateInfo s).
Definition set_nextalarm (v : option Z) (s : ctx) : ctx :=
  mkCtx (status s) (priority s) (time s) (nextQ s) (nextlive s) v (blockqueue s) (flags s) (PrivateInfo s).
Definition set_blockqueue (v : option qref) (s : ctx) : ctx :=
  mkCtx (status s) (priority s) (time s) (nextQ s) (nextlive s) (nextalarm s) v (flags s) (PrivateInfo s).
Definition set_flags (v : Z) (s : ctx) : ctx :=
  mkCtx (status s) (priority s) (time s) (nextQ s) (nextlive s) (nextalarm s) (blockqueue s) v (PrivateInfo s).
Definition set_PrivateInfo (v : Z) (s : ctx) : ctx :=
  mkCtx (status s) (priority s) (time s) (nextQ s) (nextlive s) (nextalarm s) (blockqueue s) (flags s) v.


(** What can end a blocking [select]: a SIGALRM at time [now], another signal,
    an error, or [r] ready descriptors. *)
Inductive event :=
| EvAlarm (now : Z)
| EvInterrupted
| EvError
| EvReady (r : Z) (rd wr : list Z).

(** Besides the globals of thread-internal.c, the state has the [priority] and
    [daemon] fields of the thread objects, the [lock_info] words of objects and
    the hash table of locks.c. *)
Record sched := mkSched {
  threadContext : gmap Z ctx;
  qhead : gmap qref Z;
  threadQtail : gmap Z Z;
  currentThread : Z;
  currentThreadID : Z;
  jpriority : gmap Z Z;
  daemon : gset Z;
  blockInts : Z;
  needReschedule : bool;
  alarmBlocked : bool;
  clock : Z;
  malarm : option Z;
  maxFd : Z;
  readsPending : gset Z;
  writesPending : gset Z;
  events : list event;
  polls : list (option Z);
  talive : Z;
  tdaemon : Z;
  lock_info : gmap Z Z;
  lockTable : gmap Z (list (Z * Z));
  nextLock : Z }.

Definition set_threadContext (v : gmap Z ctx) (s : sched) : sched :=
  mkSched v (qhead s) (threadQtail s) (currentThread s) (currentThreadID s) (jpriority s) (daemon s) (blockInts s) (needReschedule s) (alarmBlocked s) (clock s) (malarm s) (maxFd s) (readsPending s) (writesPending s) (events s) (polls s) (talive s) (tdaemon s) (lock_info s) (lockTable s) (nextLock s).
Definition set_qhead (v : gmap qref Z) (s : sched) : sched :=
  mkSched (threadContext s) v (threadQtail s) (currentThread s) (currentThreadID s) (jpriority s) (daemon s) (blockInts s) (needReschedule s) (alarmBlocked s) (clock s) (malarm s) (maxFd s) (readsPending s) (writesPending s) (events s) (polls s) (talive s) (tdaemon s) (lock_info s) (lockTable s) (nextLock s).
Definition set_threadQtail (v : gmap Z Z) (s : sched) : sched :=
  mkSched (threadContext s) (qhead s) v (currentThread s) (currentThreadID s) (jpriority s) (daemon s) (blockInts s) (needReschedule s) (alarmBlocked s) (clock s) (malarm s) (maxFd s) (readsPending s) (writesPending s) (events s) (polls s) (talive s) (tdaemon s) (lock_info s) (lockTable s) (nextLock s).
Definition set_currentThread (v : Z) (s : sched) : sched :=
  mkSched (threadContext s) (qhead s) (threadQtail s) v (currentThreadID s) (jpriority s) (daemon s) (blockInts s) (needReschedule s) (alarmBlocked s) (clock s) (malarm s) (maxFd s) (readsPending s) (writesPending s) (events s) (polls s) (talive s) (tdaemon s) (lock_info s) (lockTable s) (nextLock s).
Definition set_currentThreadID (v : Z) (s : sched) : sched :=
  mkSched (threadContext s) (qhead s) (threadQtail s) (currentThread s) v (jpriority s) (daemon s) (blockInts s) (needReschedule s) (alarmBlocked s) (clock s) (malarm s) (maxFd s) (readsPending s) (writesPending s) (events s) (polls s) (talive s) (tdaemon s) (lock_info s) (lockTable s) (nextLock s).
Definition set_jpriority (v : gmap Z Z) (s : sched) : sched :=
  mkSched (threadContext s) (qhead s) (threadQtail s) (currentThread s) (currentThreadID s) v (daemon s) (blockInts s) (needReschedule s) (alarmBlocked s) (clock s) (malarm s) (maxFd s) (readsPending s) (writesPending s) (events s) (polls s) (talive s) (tdaemon s) (lock_info s) (lockTable s) (nextLock s).
Definition set_daemon (v : gset Z) (s : sched) : sched :=
  mkSched (threadContext s) (qhead s) (threadQtail s) (currentThread s) (currentThreadID s) (jpriority s) v (blockInts s) (needReschedule s) (alarmBlocked s) (clock s) (malarm s) (maxFd s) (readsPending s) (writesPending s) (events s) (polls s) (talive s) (tdaemon s) (lock_info s) (lockTable s) (nextLock s).
Definition set_blockInts (v : Z) (s : sched) : sched :=
  mkSched (threadContext s) (qhead s) (threadQtail s) (currentThread s) (currentThreadID s) (jpriority s) (daemon s) v (needReschedule s) (alarmBlocked s) (clock s) (malarm s) (maxFd s) (readsPending s) (writesPending s) (events s) (polls s) (talive s) (tdaemon s) (lock_info s) (lockTable s) (nextLock s).
Definition set_needReschedule (v : bool) (s : sched) : sched :=
  mkSched (threadContext s) (qhead s) (threadQtail s) (currentThread s) (currentThreadID s) (jpriority s) (daemon s) (blockInts s) v (alarmBlocked s) (clock s) (malarm s) (maxFd s) (readsPending s) (writesPending s) (events s) (polls s) (talive s) (tdaemon s) (lock_info s) (lockTable s) (nextLock s).
Definition set_alarmBlocked (v : bool) (s : sched) : sched :=
  mkSched (threadContext s) (qhead s) (threadQtail s) (currentThread s) (currentThreadID s) (jpriority s) (daemon s) (blockInts s) (needReschedule s) v (clock s) (malarm s) (maxFd s) (readsPending s) (writesPending s) (events s) (polls s) (talive s) (tdaemon s) (lock_info s) (lockTable s) (nextLock s).
Definition set_clock (v : Z) (s : sched) : sched :=
  mkSched (threadContext s) (qhead s) (threadQtail s) (currentThread s) (currentThreadID s) (jpriority s) (daemon s) (blockInts s) (needReschedule s) (alarmBlocked s) v (malarm s) (maxFd s) (readsPending s) (writesPending s) (events s) (polls s) (talive s) (tdaemon s) (lock_info s) (lockTable s) (nextLock s).
Definition set_malarm (v : option Z) (s : sched) : sched :=
  mkSched (threadContext s) (qhead s) (threadQtail s) (currentThread s) (currentThreadID s) (jpriority s) (daemon s) (blockInts s) (needReschedule s) (alarmBlocked s) (clock s) v (maxFd s) (readsPending s) (writesPending s) (events s) (polls s) (talive s) (tdaemon s) (lock_info s) (lockTable s) (nextLock s).
Definition set_maxFd (v : Z) (s : sched) : sched :=
  mkSched (threadContext s) (qhead s) (threadQtail s) (currentThread s) (currentThreadID s) (jpriority s) (daemon s) (blockInts s) (needReschedule s) (alarmBlocked s) (clock s) (malarm s) v (readsPending s) (writesPending s) (events s) (polls s) (talive s) (tdaemon s) (lock_info s) (lockTable s) (nextLock s).
Definition set_readsPending (v : gset Z) (s : sched) : sched :=
  mkSched (threadContext s) (qhead s) (threadQtail s) (currentThread s) (currentThreadID s) (jpriority s) (daemon s) (blockInts s) (needReschedule s) (alarmBlocked s) (clock s) (malarm s) (maxFd s) v (writesPending s) (events s) (polls s) (talive s) (tdaemon s) (lock_info s) (lockTable s) (nextLock s).
Definition set_writesPending (v : gset Z) (s : sched) : sched :=
  mkSched (threadContext s) (qhead s) (threadQtail s) (currentThread s) (currentThreadID s) (jpriority s) (daemon s) (blockInts s) (needReschedule s) (alarmBlocked s) (clock s) (malarm s) (maxFd s) (readsPending s) v (events s) (polls s) (talive s) (tdaemon s) (lock_info s) (lockTable s) (nextLock s).
Definition set_events (v : list event) (s : sched) : sched :=
  mkSched (threadContext s) (qhead s) (threadQtail s) (currentThread s) (currentThreadID s) (jpriority s) (daemon s) (blockInts s) (needReschedule s) (alarmBlocked s) (clock s) (malarm s) (maxFd s) (readsPending s) (writesPending s) v (polls s) (talive s) (tdaemon s) (lock_info s) (lockTable s) (nextLock s).
Definition set_polls (v : list (option Z)) (s : sched) : sched :=
  mkSched (threadContext s) (qhead s) (threadQtail s) (currentThread s) (currentThreadID s) (jpriority s) (daemon s) (blockInts s) (needReschedule s) (alarmBlocked s) (clock s) (malarm s) (maxFd s) (readsPending s) (writesPending s) (events s) v (talive s) (tdaemon s) (lock_info s) (lockTable s) (nextLock s).
Definition set_talive (v : Z) (s : sched) : sched :=
  mkSched (threadContext s) (qhead s) (threadQtail s) (currentThread s) (currentThreadID s) (jpriority s) (daemon s) (blockInts s) (needReschedule s) (alarmBlocked s) (clock s) (malarm s) (maxFd s) (readsPending s) (writesPending s) (events s) (polls s) v (tdaemon s) (lock_info s) (lockTable s) (nextLock s).
Definition set_tdaemon (v : Z) (s : sched) : sched :=
  mkSched (threadContext s) (qhead s) (threadQtail s) (currentThread s) (currentThreadID s) (jpriority s) (daemon s) (blockInts s) (needReschedule s) (alarmBlocked s) (clock s) (malarm s) (maxFd s) (readsPending s) (writesPending s) (events s) (polls s) (talive s) v (lock_info s) (lockTable s) (nextLock s).
Definition set_lock_info (v : gmap Z Z) (s : sched) : sched :=
  mkSched (threadContext s) (qhead s) (threadQtail s) (currentThread s) (currentThreadID s) (jpriority s) (daemon s) (blockInts s) (needReschedule s) (alarmBlocked s) (clock s) (malarm s) (maxFd s) (readsPending s) (writesPending s) (events s) (polls s) (talive s) (tdaemon s) v (lockTable s) (nextLock s).
Definition set_lockTable (v : gmap Z (list (Z * Z))) (s : sched) : sched :=
  mkSched (threadContext s) (qhead s) (threadQtail s) (currentThread s) (currentThreadID s) (jpriority s) (daemon s) (blockInts s) (needReschedule s) (alarmBlocked s) (clock s) (malarm s) (maxFd s) (readsPending s) (writesPending s) (events s) (polls s) (talive s) (tdaemon s) (lock_info s) v (nextLock s).
Definition set_nextLock (v : Z) (s : sched) : sched :=
  mkSched (threadContext s) (qhead s) (threadQtail s) (currentThread s) (currentThreadID s) (jpriority s) (daemon s) (blockInts s) (needReschedule s) (alarmBlocked s) (clock s) (malarm s) (maxFd s) (readsPending s) (writesPending s) (events s) (polls s) (talive s) (tdaemon s) (lock_info s) (lockTable s) v.

(** ** Operations as resumptions *)

Inductive step (A : Type) :=
| Done (s : sched) (a : A)
| Throw (s : sched) (e : failure)                (** a Java exception leaves the operation *)
| Crash (e : failure)                            (** a failed assertion or a bad pointer *)
| Exit (s : sched)                               (** [EXIT(0)] *)
| Blocked (s : sched)                            (** no further event arrives *)
| Yield (from : Z) (s : sched) (k : sched -> step A).  (** [from] switched to [currentThread s] *)
Arguments Done {A} s a.
Arguments Throw {A} s e.
Arguments Crash {A} e.
Arguments Exit {A} s.
Arguments Blocked {A} s.
Arguments Yield {A} from s k.

Fixpoint step_bind {A B} (m : step A) (f : A -> sched -> step B) : step B :=
  match m with
  | Done s a => f a s
  | Throw s e => Throw s e
  | Crash e => Crash e
  | Exit s => Exit s
  | Blocked s => Blocked s
  | Yield from s k => Yield from s (fun s' => step_bind (k s') f)
  end.

Definition K (A : Type) : Type := sched -> step A.
#[export] Instance K_ret : MRet K := fun A a s => Done s a.
#[export] Instance K_bind : MBind K := fun A B f m s => step_bind (m s) f.

Definition gets {A} (f : sched -> A) : K A := fun s => Done s (f s).
Definition modify (f : sched -> sched) : K unit := fun s => Done (f s) tt.
Definition crash {A} (e : failure) : K A := fun _ => Crash e.
Definition throw {A} (e : failure) : K A := fun s => Throw s e.
Definition check (b : bool) : K unit := if b then mret tt else crash AssertionFailed.
Definition when (b : bool) (m : K unit) : K unit := if b then m else mret tt.

Definition TCTX (t : Z) : K ctx := fun s =>
  match threadContext s !! t with Some c => Done s c | None => Crash BadAccess end.
Definition upd_ctx (t : Z) (f : ctx -> ctx) : K unit := fun s =>
  match threadContext s !! t with
  | Some c => Done (set_threadContext (<[t := f c]> (threadContext s)) s) tt
  | None => Crash BadAccess
  end.

(** ** Links

    A queue is linked through one field of its members; a [slot] is a place
    that holds a link: the head of a queue or the field of a context. *)
Inductive field := FQ | FLive | FAlarm.
#[export] Instance field_eq_dec : EqDecision field.
Proof. solve_decision. Defined.

Definition link (q : qref) : field :=
  match q with AlarmList => FAlarm | LiveThreads => FLive | _ => FQ end.

Definition get_next (f : field) (c : ctx) : option Z :=
  match f with FQ => nextQ c | FLive => nextlive c | FAlarm => nextalarm c end.
Definition set_next (f : field) (v : option Z) (c : ctx) : ctx :=
  match f with FQ => set_nextQ v c | FLive => set_nextlive v c | FAlarm => set_nextalarm v c end.

Inductive slot := Head (q : qref) | Next (f : field) (t : Z).

(** Bounds of the arrays of queue heads. *)
Definition valid_q (q : qref) : bool :=
  match q with
  | RunQ p => (0 <=? p) && (p <=? java_lang_Thread_MAX_PRIORITY)
  | ReadQ fd | WriteQ fd => (0 <=? fd) && (fd <? FD_SETSIZE)
  | _ => true
  end.

Definition load (l : slot) : K (option Z) :=
  match l with
  | Head q => if valid_q q then gets (fun s => qhead s !! q) else crash BadAccess
  | Next f t => c ← TCTX t; mret (get_next f c)
  end.

Definition ptr_insert {Q} `{Countable Q} (q : Q) (v : option Z) (m : gmap Q Z) : gmap Q Z :=
  match v with Some t => <[q := t]> m | None => delete q m end.

Definition store (l : slot) (v : option Z) : K unit :=
  match l with
  | Head q =>
      if valid_q q then modify (fun s => set_qhead (ptr_insert q v (qhead s)) s)
      else crash BadAccess
  | Next f t => upd_ctx t (set_next f v)
  end.

Definition set_tail (p : Z) (v : option Z) : K unit :=
  if valid_q (RunQ p) then modify (fun s => set_threadQtail (ptr_insert p v (threadQtail s)) s)
  else crash BadAccess.

(** The loop that looks for [tid] in a queue with a pointer [ntid] to the link
    that leads to the current member, and the member before it in [last]. *)
Fixpoint walk (fuel : nat) (f : field) (l : slot) (tid : Z) (last : option Z) :
    K (option (slot * option Z)) :=
  x ← load l;
  match x with
  | None => mret None
  | Some t =>
      if t =? tid then mret (Some (l, last))
      else match fuel with
           | O => crash OutOfFuel
           | S fuel' => walk fuel' f (Next f t) tid (Some t)
           end
  end.

(** No queue is longer than the number of contexts. *)
Definition find_slot (q : qref) (tid : Z) : K (option (slot * option Z)) :=
  n ← gets (fun s => size (threadContext s)); walk n (link q) (Head q) tid None.

(** ** Alarms *)

Definition MALARM (mt : Z) : K unit := modify (set_malarm (Some mt)).

(** The loop of [addToAlarmQ]: the first link to a later thread, or the end. *)
Fixpoint alarm_place (fuel : nat) (l : slot) (t0 : Z) : K slot :=
  x ← load l;
  match x with
  | None => mret l
  | Some t =>
      c ← TCTX t;
      if t0 <? time c then mret l
      else match fuel with
           | O => crash OutOfFuel
           | S fuel' => alarm_place fuel' (Next FAlarm t) t0
           end
  end.

Definition is_head (l : slot) : bool := match l with Head _ => true | Next _ _ => false end.

Definition addToAlarmQ (tid timeout : Z) : K unit :=
  b ← gets blockInts; check (0 <? b);;
  upd_ctx tid (fun c => set_flags (Z.lor (flags c) THREAD_FLAGS_ALARM) c);;
  now ← gets clock;
  upd_ctx tid (set_time (timeout + now));;
  n ← gets (fun s => size (threadContext s));
  c ← TCTX tid;
  tidp ← alarm_place n (Head AlarmList) (time c);
  x ← load tidp;
  store (Next FAlarm tid) x;;
  store tidp (Some tid);;
  when (is_head tidp) (MALARM timeout).

(** [flags &= ~f], for a mask of 8 bits. *)
Definition clear_flags (f : Z) (c : ctx) : ctx := set_flags (Z.land (flags c) (Z.lxor 255 f)) c.

Definition has_flag (f : Z) (c : ctx) : bool := negb (Z.land (flags c) f =? 0).

Definition removeFromAlarmQ (tid : Z) : K unit :=
  b ← gets blockInts; check (1 <=? b);;
  upd_ctx tid (clear_flags THREAD_FLAGS_ALARM);;
  found ← find_slot AlarmList tid;
  match found with
  | Some (tidp, _) =>
      c ← TCTX tid;
      store tidp (nextalarm c);;
      store (Next FAlarm tid) None
  | None => mret tt
  end.

(** ** Resuming a thread

    [intsRestore] may reschedule, and [reschedule] waits for events that
    resume threads: the operations below [reschedule] take it as an argument. *)

Definition intsDisable : K unit := modify (fun s => set_blockInts (blockInts s + 1) s).

Definition intsRestore (reschedule : K unit) : K unit :=
  b ← gets blockInts;
  n ← gets needReschedule;
  when ((b =? 1) && n) reschedule;;
  modify (fun s => set_blockInts (blockInts s - 1) s).

(** [tid] at the end of the queue of priority [p]; [true] if it was empty. *)
Definition place_on_queue (tid p : Z) : K bool :=
  h ← load (Head (RunQ p));
  match h with
  | None => store (Head (RunQ p)) (Some tid);; set_tail p (Some tid);; mret true
  | Some _ =>
      tl ← gets (fun s => threadQtail s !! p);
      match tl with
      | None => crash BadAccess
      | Some tl => store (Next FQ tl) (Some tid);; set_tail p (Some tid);; mret false
      end
  end.

Definition iresumeThread (reschedule : K unit) (tid : Z) : K unit :=
  intsDisable;;
  c ← TCTX tid;
  (if status c =? THREAD_RUNNING then mret tt else
    (* Remove from alarmQ if necessary *)
    when (has_flag THREAD_FLAGS_ALARM c) (removeFromAlarmQ tid);;
    (* Remove from lockQ if necessary *)
    match blockqueue c with
    | Some q =>
        found ← find_slot q tid;
        match found with
        | Some (ntid, _) => c ← TCTX tid; store ntid (nextQ c)
        | None => mret tt
        end;;
        upd_ctx tid (set_blockqueue None)
    | None => mret tt
    end;;
    upd_ctx tid (set_status THREAD_RUNNING);;
    (* Place thread on the end of its queue *)
    empty ← place_on_queue tid (priority c);
    when empty (
      cur ← gets currentThread;
      cc ← TCTX cur;
      when (priority cc <? priority c) (modify (set_needReschedule true)));;
    store (Next FQ tid) None);;
  intsRestore reschedule.

(** [while (alarmList != 0 && TCTX(alarmList)->time <= time)] *)
Fixpoint wake_expired (reschedule : K unit) (fuel : nat) (t0 : Z) : K unit :=
  h ← load (Head AlarmList);
  match h with
  | None => mret tt
  | Some tid =>
      c ← TCTX tid;
      if time c <=? t0 then
        match fuel with
        | O => crash OutOfFuel
        | S fuel' =>
            store (Head AlarmList) (nextalarm c);;
            iresumeThread reschedule tid;;
            wake_expired reschedule fuel' t0
        end
      else mret tt
  end.

Definition alarmException (reschedule : K unit) : K unit :=
  intsDisable;;
  b ← gets blockInts;
  if 1 <? b then MALARM 50;; intsRestore reschedule
  else
    t0 ← gets clock;
    n ← gets (fun s => size (threadContext s));
    wake_expired reschedule n t0;;
    h ← load (Head AlarmList);
    match h with
    | Some t => c ← TCTX t; MALARM (time c - t0)
    | None => mret tt
    end;;
    modify (set_alarmBlocked true);;
    intsRestore reschedule;;
    modify (set_alarmBlocked false).

(** ** External events *)

(** [for (tid = readQ[i]; tid != 0; tid = ntid) { ntid = nextQ; ... iresumeThread(tid); }] *)
Fixpoint wake_queue (reschedule : K unit) (fuel : nat) (flag : Z) (h : option Z) : K unit :=
  match h with
  | None => mret tt
  | Some tid =>
      c ← TCTX tid;
      upd_ctx tid (fun c => set_flags (Z.lor (flags c) flag) c);;
      iresumeThread reschedule tid;;
      match fuel with
      | O => crash OutOfFuel
      | S fuel' => wake_queue reschedule fuel' flag (nextQ c)
      end
  end.

Definition wake_fd (reschedule : K unit) (flag : Z) (q : qref) : K unit :=
  n ← gets (fun s => size (threadContext s));
  h ← load (Head q);
  wake_queue reschedule n flag h.

Definition FD_ISSET (i : Z) (l : list Z) : bool := bool_decide (i ∈ l).

(** A select error: mark all waiting threads in error and release them. *)
Fixpoint release_all (reschedule : K unit) (n : nat) (i : Z) : K unit :=
  match n with
  | O => mret tt
  | S n' =>
      wake_fd reschedule THREAD_FLAGS_ERROR (ReadQ i);;
      wake_fd reschedule THREAD_FLAGS_ERROR (WriteQ i);;
      store (Head (WriteQ i)) None;;
      store (Head (ReadQ i)) None;;
      release_all reschedule n' (i + 1)
  end.

(** [for (i = 0; r > 0 && i <= maxFd; i++)] *)
Fixpoint release_ready (reschedule : K unit) (rd wr : list Z) (n : nat) (i r : Z) : K unit :=
  match n with
  | O => mret tt
  | S n' =>
      if 0 <? r then
        rq ← load (Head (ReadQ i));
        r ← (if bool_decide (rq <> None) && FD_ISSET i rd then
               wake_fd reschedule 0 (ReadQ i);;
               store (Head (ReadQ i)) None;; mret (r - 1)
             else mret r);
        wq ← load (Head (WriteQ i));
        r ← (if bool_decide (wq <> None) && FD_ISSET i wr then
               wake_fd reschedule 0 (WriteQ i);;
               store (Head (WriteQ i)) None;; mret (r - 1)
             else mret r);
        release_ready reschedule rd wr n' (i + 1) r
      else mret tt
  end.

Definition next_event : K event := fun s =>
  match events s with
  | [] => Blocked s
  | ev :: evs => Done (set_events evs s) ev
  end.

Definition checkEvents (reschedule : K unit) : K unit :=
  modify (set_needReschedule false);;
  b ← gets blockInts;
  modify (set_blockInts 0);;
  ev ← next_event;
  match ev with
  | EvAlarm now => modify (set_clock now);; alarmException reschedule
  | _ => mret tt
  end;;
  modify (set_blockInts b);;
  match ev with
  | EvAlarm _ | EvInterrupted => mret tt
  | EvError =>
      check (0 <? b);;
      m ← gets maxFd; release_all reschedule (Z.to_nat (m + 1)) 0
  | EvReady r rd wr =>
      check (0 <? b);;
      m ← gets maxFd; release_ready reschedule rd wr (Z.to_nat (m + 1)) 0 r
  end.

(** ** Rescheduling *)

(** The first non-empty queue from priority [p] down, over [n] priorities. *)
Fixpoint highest (n : nat) (p : Z) : K (option Z) :=
  match n with
  | O => mret None
  | S n' =>
      h ← load (Head (RunQ p));
      match h with
      | Some t => mret (Some t)
      | None => highest n' (p - 1)
      end
  end.

(** [THREADSWITCH]: the operation goes on when its thread is switched to. *)
Definition THREADSWITCH (from : Z) : K unit := fun s => Yield from s (fun s' => Done s' tt).

(** [from_wait] selects [reschedule_from_wait], which leaves the death of the
    thread to its caller.  Each round without a runnable thread consumes an
    event. *)
Fixpoint reschedule_loop (fuel : nat) (from_wait : bool) (b : Z) : K unit :=
  h ← highest 10 java_lang_Thread_MAX_PRIORITY;
  match h with
  | Some t =>
      lastThread ← gets currentThread;
      when (negb (t =? lastThread)) (
        c ← TCTX t;
        modify (set_currentThread t);;
        modify (set_currentThreadID (PrivateInfo c));;
        THREADSWITCH lastThread;;
        modify (set_alarmBlocked false);;
        modify (set_blockInts b);;
        when (negb from_wait) (
          lc ← TCTX lastThread;
          when (has_flag THREAD_FLAGS_KILLED lc && (b =? 1)) (
            upd_ctx lastThread (clear_flags THREAD_FLAGS_KILLED);;
            modify (set_blockInts 0);;
            throw ThreadDeath)));;
      modify (set_needReschedule false)
  | None =>
      match fuel with
      | O => crash OutOfFuel
      | S fuel' =>
          checkEvents (b' ← gets blockInts; reschedule_loop fuel' false b');;
          reschedule_loop fuel' from_wait b
      end
  end.

Definition reschedule_gen (from_wait : bool) : K unit :=
  b ← gets blockInts;
  n ← gets (fun s => length (events s));
  reschedule_loop (S n) from_wait b.

Definition reschedule : K unit := reschedule_gen false.
Definition reschedule_from_wait : K unit := reschedule_gen true.

(** ** Operations on threads *)

Definition resumeThread (tid : Z) : K unit :=
  intsDisable;;
  c ← TCTX tid;
  when (has_flag THREAD_FLAGS_USERSUSPEND c) (
    upd_ctx tid (clear_flags THREAD_FLAGS_USERSUSPEND);;
    iresumeThread reschedule tid);;
  c ← TCTX tid;
  when (has_flag THREAD_FLAGS_KILLED c) (iresumeThread reschedule tid);;
  intsRestore reschedule.

Definition suspendThread (tid : Z) : K unit :=
  intsDisable;;
  c ← TCTX tid;
  (if status c =? THREAD_SUSPENDED then mret tt else
    upd_ctx tid (set_status THREAD_SUSPENDED);;
    upd_ctx tid (fun c => set_flags (Z.lor (flags c) THREAD_FLAGS_USERSUSPEND) c);;
    found ← find_slot (RunQ (priority c)) tid;
    match found with
    | Some (ntid, _) =>
        c ← TCTX tid;
        store ntid (nextQ c);;
        store (Next FQ tid) None;;
        cur ← gets currentThread;
        when (tid =? cur) reschedule
    | None => mret tt
    end);;
  intsRestore reschedule.

Definition suspendOnQThread (tid : Z) (queue : option qref) (timeout : Z) (from_wait : bool) : K unit :=
  b ← gets blockInts; check (0 <? b);;
  c ← TCTX tid;
  if status c =? THREAD_SUSPENDED then mret tt else
    upd_ctx tid (set_status THREAD_SUSPENDED);;
    found ← find_slot (RunQ (priority c)) tid;
    match found with
    | Some (ntid, last) =>
        (* Remove thread from runq *)
        c ← TCTX tid;
        (store ntid (nextQ c);;
         x ← load ntid;
         when (bool_decide (x = None)) (set_tail (priority c) last));;
        (* Insert onto head of lock wait Q *)
        match queue with
        | Some q =>
            h ← load (Head q);
            store (Next FQ tid) h;;
            store (Head q) (Some tid);;
            upd_ctx tid (set_blockqueue (Some q))
        | None => mret tt
        end;;
        (* If I have a timeout, insert into alarmq *)
        when (NOTIMEOUT <? timeout) (addToAlarmQ tid timeout);;
        (* If I was running, reschedule *)
        cur ← gets currentThread;
        when (tid =? cur) (if from_wait then reschedule_from_wait else reschedule)
    | None => mret tt
    end.

(** The polling [select] of [blockOnFile]: [None] is an interrupted call, and
    otherwise the result; no more results than scripted. *)
Definition next_poll : K (option Z) := fun s =>
  match polls s with
  | [] => Blocked s
  | p :: ps => Done (set_polls ps s) p
  end.

Inductive file_op := TH_READ | TH_WRITE.

Definition file_queue (op : file_op) (fd : Z) : qref :=
  match op with TH_READ => ReadQ fd | TH_WRITE => WriteQ fd end.

(** [FD_SET] and [FD_CLR] on [readsPending] or [writesPending]. *)
Definition set_pending (op : file_op) (f : gset Z -> gset Z) : K unit :=
  modify (fun s => match op with
    | TH_READ => set_readsPending (f (readsPending s)) s
    | TH_WRITE => set_writesPending (f (writesPending s)) s
    end).

(** From the label [retry] on; each round consumes a poll. *)
Fixpoint blockOnFile_retry (fuel : nat) (fd : Z) (op : file_op) : K Z :=
  let retry := match fuel with O => crash OutOfFuel | S fuel' => blockOnFile_retry fuel' fd op end in
  if negb (valid_q (ReadQ fd)) then crash BadAccess else (* FD_SET(fd, &fset) *)
  p ← next_poll;
  match p with
  | None => retry
  | Some r =>
      if negb (r =? 0) then
        intsRestore reschedule;;
        b ← gets blockInts; check (b =? 0);;
        mret r
      else
        modify (fun s => if maxFd s <? fd then set_maxFd fd s else s);;
        set_pending op (fun fds => {[fd]} ∪ fds);;
        cur ← gets currentThread;
        suspendOnQThread cur (Some (file_queue op fd)) NOTIMEOUT false;;
        set_pending op (fun fds => fds ∖ {[fd]});;
        cur ← gets currentThread;
        c ← TCTX cur;
        if has_flag THREAD_FLAGS_ERROR c then
          upd_ctx cur (clear_flags THREAD_FLAGS_ERROR);;
          retry
        else
          intsRestore reschedule;;
          b ← gets blockInts; check (b =? 0);;
          mret 1
  end.

Definition blockOnFile (fd : Z) (op : file_op) : K Z :=
  if fd <? 0 then mret (-1) else
    intsDisable;;
    n ← gets (fun s => length (polls s));
    blockOnFile_retry n fd op.

Definition setPriorityThread (tid prio : Z) : K unit :=
  hasctx ← gets (fun s => bool_decide (is_Some (threadContext s !! tid)));
  if negb hasctx then modify (fun s => set_jpriority (<[tid := prio]> (jpriority s)) s) else
  c ← TCTX tid;
  if status c =? THREAD_SUSPENDED then upd_ctx tid (set_priority (u8 prio)) else
    intsDisable;;
    (* Remove from current thread list *)
    found ← find_slot (RunQ (priority c)) tid;
    match found with
    | Some (ntid, last) =>
        store ntid (nextQ c);;
        x ← load ntid;
        when (bool_decide (x = None)) (set_tail (priority c) last)
    | None => mret tt
    end;;
    (* Insert onto a new one *)
    modify (fun s => set_jpriority (<[tid := prio]> (jpriority s)) s);;
    upd_ctx tid (set_priority (u8 prio));;
    (place_on_queue tid prio;; store (Next FQ tid) None);;
    cur ← gets currentThread;
    cc ← TCTX cur;
    when ((tid =? cur) || (priority cc <? prio)) (modify (set_needReschedule true));;
    intsRestore reschedule.

(** The head of the current thread's queue goes behind the tail. *)
Definition yield_queue : K unit :=
  cur ← gets currentThread;
  c ← TCTX cur;
  let p := priority c in
  h ← load (Head (RunQ p));
  tl ← gets (fun s => threadQtail s !! p);
  when (bool_decide (h <> tl)) (
    store (Head (RunQ p)) (nextQ c);;
    match tl with
    | Some tl => store (Next FQ tl) (Some cur)
    | None => crash BadAccess
    end;;
    set_tail p (Some cur);;
    store (Next FQ cur) None;;
    modify (set_needReschedule true)).

Definition THREAD_YIELD : K unit :=
  intsDisable;;
  yield_queue;;
  intsRestore reschedule.

Definition sleepThread (time : Z) : K unit :=
  if time =? 0 then mret tt else
    intsDisable;;
    cur ← gets currentThread;
    suspendOnQThread cur None time false;;
    intsRestore reschedule.

Definition aliveThread (tid : Z) : K bool :=
  intsDisable;;
  st ← gets (fun s => match threadContext s !! tid with
    | None => false
    | Some c => negb (has_flag THREAD_FLAGS_STOPPED c || (status c =? THREAD_DEAD))
    end);
  intsRestore reschedule;;
  mret st.

Definition stopThread (tid : Z) : K unit :=
  c ← TCTX tid;
  if (status c =? THREAD_DEAD) || has_flag THREAD_FLAGS_STOPPED c then mret tt else
  cur ← gets currentThread;
  if cur =? tid then throw ThreadDeath else
    upd_ctx tid (fun c =>
      set_flags (Z.lor (flags c) (Z.lor THREAD_FLAGS_KILLED THREAD_FLAGS_STOPPED)) c);;
    resumeThread tid.

(** ** Total correctness across context switches

    [wp G R m P s]: run from [s], the operation [m] does not crash and does
    not run out of fuel, and it finishes in a state that satisfies [P].
    Whenever it leaves the processor (by a switch, an exception, an exit, or
    blocking for ever) it leaves a state that satisfies [G]; when it switches,
    the thread it switches to is runnable.  It may rely on being switched back
    to as the current and runnable thread, in a state that satisfies [G] and is
    related by [R] to the one it left. *)

(** The current thread runs, and [currentThreadID] is its slot. *)
Definition cur_ok (s : sched) : Prop := exists c, threadContext s !! currentThread s = Some c /\
  status c = THREAD_RUNNING /\ PrivateInfo c = currentThreadID s.

Fixpoint safe {A} (G : sched -> Prop) (R : sched -> sched -> Prop)
    (P : A -> sched -> Prop) (m : step A) : Prop :=
  match m with
  | Done s a => P a s
  | Crash _ => False
  | Throw s _ | Exit s | Blocked s => G s
  | Yield from s k => G s /\ cur_ok s /\ forall s', G s' -> cur_ok s' -> currentThread s' = from ->
      R s s' -> safe G R P (k s')
  end.

Definition wp {A} G R (m : K A) (P : A -> sched -> Prop) (s : sched) : Prop :=
  safe G R P (m s).

Lemma safe_mono {A} G R (P P' : A -> sched -> Prop) m :
  safe G R P m -> (forall a s, P a s -> P' a s) -> safe G R P' m.
Proof.
  intros Hm HP. induction m as [| | | | |from s k IH]; simpl in *; auto.
  destruct Hm as (? & ? & Hk). split_and!; auto.
Qed.

Lemma safe_bind {A B} G R (P : B -> sched -> Prop) (m : step A) f :
  safe G R (fun a s => safe G R P (f a s)) m -> safe G R P (step_bind m f).
Proof.
  intros Hm. induction m as [| | | | |from s k IH]; simpl in *; auto.
  destruct Hm as (? & ? & Hk). split_and!; auto.
Qed.

Lemma wp_done {A} R (m : K A) P s : wp (fun _ => False) R m P s -> exists s' a, m s = Done s' a /\ P a s'.
Proof. unfold wp. destruct (m s); simpl; try done; [eauto|]. by intros [? _]. Qed.

(** What an operation does after a part of it that stays on the processor. *)
Lemma reach_bind {A B} (m : K A) (f : A -> K B) (X : step B -> Prop) s :
  wp (fun _ => False) (fun _ _ => True) m (fun a s' => X (f a s')) s -> X ((m ≫= f) s).
Proof. intros (s' & a & E & H)%wp_done. unfold mbind, K_bind. by rewrite E. Qed.

Arguments wp : simpl never.
Arguments load : simpl never.
Arguments store : simpl never.

Section Rules.
Context (G : sched -> Prop) (R : sched -> sched -> Prop).
Implicit Types s : sched.

Lemma wp_bind {A B} (m : K A) (f : A -> K B) P s :
  wp G R m (fun a => wp G R (f a) P) s -> wp G R (m ≫= f) P s.
Proof. apply safe_bind. Qed.

Lemma wp_mono {A} (m : K A) (P P' : A -> sched -> Prop) s :
  wp G R m P s -> (forall a s', P a s' -> P' a s') -> wp G R m P' s.
Proof. apply safe_mono. Qed.

Lemma wp_ret {A} (a : A) (P : A -> sched -> Prop) s : P a s -> wp G R (mret a) P s.
Proof. done. Qed.

Lemma wp_gets {A} (f : sched -> A) (P : A -> sched -> Prop) s : P (f s) s -> wp G R (gets f) P s.
Proof. done. Qed.

Lemma wp_modify f (P : unit -> sched -> Prop) s : P tt (f s) -> wp G R (modify f) P s.
Proof. done. Qed.

Lemma wp_check b (P : unit -> sched -> Prop) s : b = true -> P tt s -> wp G R (check b) P s.
Proof. by intros ->. Qed.

Lemma wp_when b m (P : unit -> sched -> Prop) s :
  (b = true -> wp G R m P s) -> (b = false -> P tt s) -> wp G R (when b m) P s.
Proof. intros Ht Hf. destruct b; [by apply Ht|by apply Hf]. Qed.

Lemma wp_TCTX t c (P : ctx -> sched -> Prop) s :
  threadContext s !! t = Some c -> P c s -> wp G R (TCTX t) P s.
Proof. unfold wp, TCTX. by intros ->. Qed.

Lemma wp_upd_ctx t f c (P : unit -> sched -> Prop) s :
  threadContext s !! t = Some c ->
  P tt (set_threadContext (<[t := f c]> (threadContext s)) s) -> wp G R (upd_ctx t f) P s.
Proof. unfold wp, upd_ctx. by intros ->. Qed.

Lemma wp_load_head q (P : option Z -> sched -> Prop) s :
  valid_q q = true -> P (qhead s !! q) s -> wp G R (load (Head q)) P s.
Proof. unfold wp, load. by intros ->. Qed.

Lemma wp_load_next f t c (P : option Z -> sched -> Prop) s :
  threadContext s !! t = Some c -> P (get_next f c) s -> wp G R (load (Next f t)) P s.
Proof. intros Hc HP. eapply wp_bind, wp_TCTX; [done|]. by apply wp_ret. Qed.

End Rules.

(** ** Linked lists in the contexts *)

(** [lseg m f h l e]: from the pointer [h], the links [f] lead through the
    threads [l] to the pointer [e]. *)
Fixpoint lseg (m : gmap Z ctx) (f : field) (h : option Z) (l : list Z) (e : option Z) : Prop :=
  match l with
  | [] => h = e
  | t :: l' => h = Some t /\ exists c, m !! t = Some c /\ lseg m f (get_next f c) l' e
  end.

Lemma lseg_app m f h l1 l2 e :
  lseg m f h (l1 ++ l2) e <-> exists x, lseg m f h l1 x /\ lseg m f x l2 e.
Proof.
  revert h. induction l1 as [|t l1 IH]; intros h; simpl; [naive_solver|].
  setoid_rewrite IH. naive_solver.
Qed.

Lemma lseg_frame m m' f h l e :
  (forall t, t ∈ l -> get_next f <$> m !! t = get_next f <$> m' !! t) ->
  lseg m f h l e -> lseg m' f h l e.
Proof.
  revert h. induction l as [|t l IH]; intros h Hm; simpl; [done|].
  intros (-> & c & Hc & Hl). split; [done|].
  specialize (Hm t ltac:(left)) as Ht. rewrite Hc in Ht. simpl in Ht.
  destruct (m' !! t) as [c'|] eqn:Hc'; [|done]. simplify_eq/=. exists c'. split; [done|].
  rewrite <- Ht. apply IH; [|done]. intros. apply Hm. by right.
Qed.

Lemma lseg_dom m f h l e t : lseg m f h l e -> t ∈ l -> is_Some (m !! t).
Proof.
  revert h. induction l as [|t' l IH]; intros h Hl Ht; [by apply elem_of_nil in Ht|].
  destruct Hl as (_ & c & Hc & Hl). apply elem_of_cons in Ht as [->|Ht]; eauto.
Qed.

Lemma lseg_length m f h l e : lseg m f h l e -> NoDup l -> (length l <= size m)%nat.
Proof.
  intros Hl Hnd. rewrite <- (size_dom (D := gset Z)). rewrite <- (size_list_to_set (C := gset Z)) by done.
  apply subseteq_size. intros t Ht%elem_of_list_to_set. apply elem_of_dom. by eapply lseg_dom.
Qed.

Lemma lseg_set_next m f h l t c v : lseg m f h l (Some t) -> t ∉ l -> m !! t = Some c ->
  lseg (<[t := set_next f v c]> m) f h (l ++ [t]) v.
Proof.
  intros Hl Ht Hc. apply lseg_app. exists (Some t). split.
  - eapply lseg_frame; [|done]. intros t' Ht'. by rewrite lookup_insert_ne by (intros ->; done).
  - split; [done|]. exists (set_next f v c). rewrite lookup_insert_eq. split; [done|]. by destruct f.
Qed.

(** The place of the link that leads past [l1]. *)
Definition slot_after (q : qref) (l1 : list Z) : slot :=
  match last l1 with None => Head q | Some x => Next (link q) x end.

Lemma last_cons_snoc {A} (t : A) (l : list A) : l = [] \/ exists l' x, l = l' ++ [x].
Proof. induction l using rev_ind; eauto. Qed.

Section Walk.
Context (G : sched -> Prop) (R : sched -> sched -> Prop).

(** The walk with the members [done] behind it. *)
Lemma wp_walk s q tid l h fuel dn (P : option (slot * option Z) -> sched -> Prop) :
  valid_q q = true ->
  lseg (threadContext s) (link q) (qhead s !! q) dn h -> lseg (threadContext s) (link q) h l None ->
  (length l <= fuel)%nat ->
  (tid ∉ l -> P None s) ->
  (forall l1 l2, l = l1 ++ tid :: l2 -> tid ∉ l1 -> P (Some (slot_after q (dn ++ l1), last (dn ++ l1))) s) ->
  wp G R (walk fuel (link q) (slot_after q dn) tid (last dn)) P s.
Proof.
  intros Hv. revert h dn fuel. induction l as [|t l IH]; intros h dn fuel Hdn Hl Hf Hno Hyes.
  - simpl in Hl. subst h. assert (Hld : wp G R (load (slot_after q dn)) (fun x s' => x = None /\ s' = s) s).
    { unfold slot_after. destruct (last_cons_snoc tid dn) as [->|(d & x & ->)].
      - apply wp_load_head; [done|]. by simpl in Hdn.
      - rewrite last_snoc. apply lseg_app in Hdn as (y & _ & _ & c & Hc & Hn). simpl in Hn.
        eapply wp_load_next; [done|]. done. }
    destruct fuel; simpl; eapply wp_bind, wp_mono; [apply Hld| |apply Hld|];
      intros ? ? [-> ->]; apply wp_ret, Hno; apply not_elem_of_nil.
  - destruct Hl as (-> & c & Hc & Hl).
    assert (Hld : wp G R (load (slot_after q dn)) (fun x s' => x = Some t /\ s' = s) s).
    { unfold slot_after. destruct (last_cons_snoc tid dn) as [->|(d & x & ->)].
      - apply wp_load_head; [done|]. by simpl in Hdn.
      - rewrite last_snoc. apply lseg_app in Hdn as (y & _ & _ & c' & Hc' & Hn). simpl in Hn.
        eapply wp_load_next; [done|]. done. }
    destruct fuel as [|fuel]; [simpl in Hf; lia|]. simpl. eapply wp_bind, wp_mono; [apply Hld|].
    intros ? ? [-> ->]. destruct (Z.eqb_spec t tid) as [->|Hne].
    { apply wp_ret. rewrite <- (app_nil_r dn). apply (Hyes [] l); [done|]. apply not_elem_of_nil. }
    replace (Next (link q) t) with (slot_after q (dn ++ [t])) by (unfold slot_after; by rewrite last_snoc).
    replace (Some t) with (last (dn ++ [t])) by (by rewrite last_snoc).
    apply (IH (get_next (link q) c)); [|done|simpl in Hf; lia| |].
    + apply lseg_app. exists (Some t). split; [done|]. split; [done|]. by exists c.
    + intros Hn. apply Hno. by apply not_elem_of_cons.
    + intros l1 l2 -> Hn. rewrite <- app_assoc. apply (Hyes (t :: l1) l2); [done|].
      apply not_elem_of_cons. done.
Qed.

End Walk.

(** ** The abstract scheduler

    The abstraction of the pointer structure: [Q q] is the list of threads on
    queue [q], and [D] the contexts without their links. *)

Definition erase (c : ctx) : ctx := set_nextQ None (set_nextlive None (set_nextalarm None c)).

Record rep (m : gmap Z ctx) (h : gmap qref Z) (Q : qref -> list Z) (D : gmap Z ctx) : Prop := {
  rep_chain q : lseg m (link q) (h !! q) (Q q) None;
  rep_nodup q : NoDup (Q q);
  rep_disj q q' t : link q = link q' -> t ∈ Q q -> t ∈ Q q' -> q = q';
  rep_valid q t : t ∈ Q q -> valid_q q = true;
  rep_data : erase <$> m = D }.

(** [tid] is on no queue that uses the link [f]. *)
Definition off (Q : qref -> list Z) (f : field) (tid : Z) : Prop :=
  forall q, link q = f -> tid ∉ Q q.

Definition storeM (l : slot) (v : option Z) (m : gmap Z ctx) : gmap Z ctx :=
  match l with Next f t => alter (set_next f v) t m | Head _ => m end.
Definition storeH (l : slot) (v : option Z) (h : gmap qref Z) : gmap qref Z :=
  match l with Head q => ptr_insert q v h | Next _ _ => h end.
Definition edit (m : gmap Z ctx) (h : gmap qref Z) (s : sched) : sched :=
  set_qhead h (set_threadContext m s).

Lemma edit_id s : edit (threadContext s) (qhead s) s = s.
Proof. by destruct s. Qed.

Lemma get_set_next f v c : get_next f (set_next f v c) = v.
Proof. by destruct f. Qed.

Lemma get_set_next_ne f f' v c : f <> f' -> get_next f (set_next f' v c) = get_next f c.
Proof. by destruct f, f'. Qed.

Lemma erase_set_next f v c : erase (set_next f v c) = erase c.
Proof. by destruct f. Qed.

Lemma erase_storeM l v m : erase <$> storeM l v m = erase <$> m.
Proof.
  destruct l as [|f t]; [done|]. simpl. apply map_eq. intros i.
  rewrite !lookup_fmap. destruct (decide (i = t)) as [->|].
  - rewrite lookup_alter_eq. destruct (m !! t); simpl; by rewrite ?erase_set_next.
  - by rewrite lookup_alter_ne.
Qed.

Lemma ptr_insert_eq {X} `{Countable X} (q : X) v h : ptr_insert q v h !! q = v.
Proof. destruct v; simpl; by rewrite ?lookup_insert_eq, ?lookup_delete_eq. Qed.

Lemma ptr_insert_ne {X} `{Countable X} (q q' : X) v h : q <> q' -> ptr_insert q v h !! q' = h !! q'.
Proof. intros. destruct v; simpl; by rewrite ?lookup_insert_ne, ?lookup_delete_ne. Qed.

(** What a slot holds. *)
Definition slot_val (l : slot) (m : gmap Z ctx) (h : gmap qref Z) : option (option Z) :=
  match l with
  | Head q => if valid_q q then Some (h !! q) else None
  | Next f t => get_next f <$> m !! t
  end.

Section SlotRules.
Context (G : sched -> Prop) (R : sched -> sched -> Prop).

Lemma wp_load l v (P : option Z -> sched -> Prop) s :
  slot_val l (threadContext s) (qhead s) = Some v -> P v s -> wp G R (load l) P s.
Proof.
  destruct l as [q|f t]; simpl.
  - destruct (valid_q q) eqn:?; [|done]. intros [= <-] HP. by apply wp_load_head.
  - destruct (threadContext s !! t) eqn:Hc; [|done]. intros [= <-] HP. by eapply wp_load_next.
Qed.

Lemma wp_store l v x (P : unit -> sched -> Prop) s :
  slot_val l (threadContext s) (qhead s) = Some x ->
  P tt (edit (storeM l v (threadContext s)) (storeH l v (qhead s)) s) -> wp G R (store l v) P s.
Proof.
  destruct l as [q|f t]; simpl.
  - destruct (valid_q q) eqn:Hv; [|done]. intros _ HP. unfold wp, store. rewrite Hv.
    simpl. revert HP. by destruct s.
  - destruct (threadContext s !! t) as [c|] eqn:Hc; [|done]. intros _ HP.
    eapply wp_upd_ctx; [done|]. revert HP. replace (alter (set_next f v) t (threadContext s))
      with (<[t := set_next f v c]> (threadContext s)); [by destruct s|].
    apply map_eq. intros i. destruct (decide (i = t)) as [->|].
    + by rewrite lookup_insert_eq, lookup_alter_eq, Hc.
    + by rewrite lookup_insert_ne, lookup_alter_ne by done.
Qed.

End SlotRules.

Section Rep.
Context (m : gmap Z ctx) (h : gmap qref Z) (Q : qref -> list Z) (D : gmap Z ctx).
Hypothesis (Hrep : rep m h Q D).

Lemma rep_lookup t : D !! t = erase <$> m !! t.
Proof. rewrite <- (rep_data _ _ _ _ Hrep). apply lookup_fmap. Qed.

Lemma rep_lookup_Some t d : D !! t = Some d -> exists c, m !! t = Some c /\ erase c = d.
Proof. rewrite rep_lookup. intros (c & ? & ?)%fmap_Some. eauto. Qed.

Lemma rep_in_data q t : t ∈ Q q -> is_Some (D !! t).
Proof.
  intros Ht. rewrite rep_lookup. apply fmap_is_Some. eapply lseg_dom; [apply (rep_chain _ _ _ _ Hrep)|done].
Qed.

Lemma rep_head q : h !! q = head (Q q).
Proof. pose proof (rep_chain _ _ _ _ Hrep q) as Hc. destruct (Q q); simpl in Hc; naive_solver. Qed.

Lemma rep_slot q l1 l2 : valid_q q = true -> Q q = l1 ++ l2 ->
  slot_val (slot_after q l1) m h = Some (head l2) /\
  lseg m (link q) (h !! q) l1 (head l2) /\ lseg m (link q) (head l2) l2 None.
Proof.
  intros Hv Hq. pose proof (rep_chain _ _ _ _ Hrep q) as Hc. rewrite Hq in Hc.
  apply lseg_app in Hc as (x & H1 & H2).
  assert (x = head l2) as -> by (destruct l2; simpl in H2; naive_solver).
  split; [|done]. unfold slot_after. destruct (last_cons_snoc 0 l1) as [->|(l & y & ->)]; simpl.
  - rewrite Hv. by rewrite H1.
  - rewrite last_snoc. simpl. apply lseg_app in H1 as (z & _ & _ & c & -> & Hn). by simpl in *; rewrite Hn.
Qed.

(** Changing the link after [l1] in [q] to [v], with [l2] reachable from [v]. *)
Lemma rep_relink q l1 l1' l2 v : Q q = l1 ++ l1' -> NoDup (l1 ++ l2) ->
  (forall q' t, link q' = link q -> q' <> q -> t ∈ l2 -> t ∉ Q q') ->
  (l2 <> [] -> valid_q q = true) ->
  lseg m (link q) v l2 None ->
  rep (storeM (slot_after q l1) v m) (storeH (slot_after q l1) v h) (<[q := l1 ++ l2]> Q) D.
Proof.
  intros Hq Hnd Hoff Hval Hv2. pose proof (rep_chain _ _ _ _ Hrep q) as Hc. rewrite Hq in Hc.
  apply lseg_app in Hc as (x & H1 & _).
  assert (Hl1 : forall q' t, t ∈ Q q' -> link q' = link q -> q' <> q -> t ∉ l1).
  { intros q' t Ht Hlk Hne Ht1. apply Hne. eapply (rep_disj _ _ _ _ Hrep); [done..|].
    rewrite Hq. apply elem_of_app. by left. }
  assert (Hframe : forall q' l h0 e, lseg m (link q') h0 l e -> (link q' = link q -> forall y, last l1 = Some y -> y ∉ l) ->
    lseg (storeM (slot_after q l1) v m) (link q') h0 l e).
  { intros q' l h0 e Hl Hy. eapply lseg_frame; [|done]. intros t Ht. unfold slot_after.
    destruct (last l1) as [y|] eqn:Hlast; [|done]. simpl. destruct (decide (y = t)) as [->|].
    - rewrite lookup_alter_eq. destruct (m !! t); [|done]. simpl. destruct (decide (link q' = link q)).
      + by specialize (Hy ltac:(done) t eq_refl).
      + by rewrite get_set_next_ne.
    - by rewrite lookup_alter_ne. }
  assert (Hin : forall y, last l1 = Some y -> y ∈ l1).
  { intros y Hy%last_Some_elem_of. done. }
  split.
  - intros q'. destruct (decide (q' = q)) as [->|Hne].
    + rewrite fn_lookup_insert. apply lseg_app. exists v. split.
      * unfold slot_after. destruct (last_cons_snoc 0 l1) as [E|(l & y & E)]; rewrite E in *; simpl.
        { by rewrite ptr_insert_eq. }
        rewrite last_snoc. simpl. apply lseg_app in H1 as (z & Hl & -> & c & Hc & _).
        replace (alter (set_next (link q) v) y m) with (<[y := set_next (link q) v c]> m).
        { eapply lseg_set_next; [done| |done]. intros Hy.
          apply NoDup_app in Hnd as (Hnd & _). apply NoDup_app in Hnd as (_ & Hd & _).
          apply (Hd y Hy). by apply list_elem_of_singleton. }
        apply map_eq. intros i. destruct (decide (i = y)) as [->|].
        { by rewrite lookup_insert_eq, lookup_alter_eq, Hc. }
        by rewrite lookup_insert_ne, lookup_alter_ne by done.
      * apply Hframe; [done|]. intros _ y Hy Hy2. apply NoDup_app in Hnd as (_ & Hd & _).
        by apply (Hd y (Hin y Hy)).
    + rewrite fn_lookup_insert_ne by done.
      replace (storeH (slot_after q l1) v h !! q') with (h !! q').
      2:{ unfold slot_after. destruct (last l1); simpl; [done|]. by rewrite ptr_insert_ne. }
      apply Hframe; [apply (rep_chain _ _ _ _ Hrep)|]. intros Hlk y Hy Hy'. by apply (Hl1 q' y Hy' Hlk Hne), Hin.
  - intros q'. destruct (decide (q' = q)) as [->|]; [by rewrite fn_lookup_insert|].
    rewrite fn_lookup_insert_ne by done. apply (rep_nodup _ _ _ _ Hrep).
  - assert (Hmem : forall q' t, q' <> q -> link q' = link q -> t ∈ Q q' -> t ∉ l1 ++ l2).
    { intros q' t Hne Hlk Ht. rewrite elem_of_app. intros [?|?]; [by eapply Hl1|by eapply Hoff]. }
    intros q1 q2 t Hlk. destruct (decide (q1 = q)) as [->|], (decide (q2 = q)) as [->|];
      rewrite ?fn_lookup_insert, ?fn_lookup_insert_ne by done; intros Ha Hb; try done.
    + destruct (Hmem q2 t); done.
    + destruct (Hmem q1 t); done.
    + by eapply (rep_disj _ _ _ _ Hrep).
  - intros q' t. destruct (decide (q' = q)) as [->|].
    + rewrite fn_lookup_insert, elem_of_app. intros [?|?].
      * apply (rep_valid _ _ _ _ Hrep q t). rewrite Hq, elem_of_app. by left.
      * apply Hval. by intros ->; apply elem_of_nil in H.
    + rewrite fn_lookup_insert_ne by done. apply (rep_valid _ _ _ _ Hrep).
  - rewrite erase_storeM. apply (rep_data _ _ _ _ Hrep).
Qed.

End Rep.

Section RepOps.
Context (m : gmap Z ctx) (h : gmap qref Z) (Q : qref -> list Z) (D : gmap Z ctx).
Hypothesis (Hrep : rep m h Q D).

(** [*ntid = TCTX(tid)->next] takes [tid] out of its queue. *)
Lemma rep_unlink q tid l1 l2 c : Q q = l1 ++ tid :: l2 -> m !! tid = Some c ->
  rep (storeM (slot_after q l1) (get_next (link q) c) m)
      (storeH (slot_after q l1) (get_next (link q) c) h) (<[q := l1 ++ l2]> Q) D.
Proof.
  intros Hq Hc. pose proof (rep_nodup _ _ _ _ Hrep q) as Hnd. rewrite Hq in Hnd.
  pose proof (rep_chain _ _ _ _ Hrep q) as Hch. rewrite Hq in Hch.
  apply lseg_app in Hch as (x & _ & _ & c' & Hc' & H2). simplify_eq.
  assert (Hin : forall t, t ∈ l2 -> t ∈ Q q).
  { intros t ?. rewrite Hq, elem_of_app, elem_of_cons. auto. }
  eapply rep_relink; [done..| | | |done].
  - apply NoDup_app in Hnd as (? & Hd & Hnd). apply NoDup_cons in Hnd as [_ ?].
    apply NoDup_app. split_and!; [done| |done]. intros t Ht Ht2. apply (Hd t Ht), elem_of_cons. auto.
  - intros q' t Hlk Hne Ht Ht'. apply Hne. eapply (rep_disj _ _ _ _ Hrep); [done..|]. auto.
  - intros ?. apply (rep_valid _ _ _ _ Hrep q tid). rewrite Hq, elem_of_app, elem_of_cons. auto.
Qed.

(** The link of a thread on no queue of that link may change. *)
Lemma rep_free_next f tid v : off Q f tid -> rep (storeM (Next f tid) v m) h Q D.
Proof.
  intros Hoff. split; try apply Hrep; [|rewrite erase_storeM; apply Hrep].
  intros q. eapply lseg_frame; [|apply (rep_chain _ _ _ _ Hrep)]. intros t Ht. simpl.
  destruct (decide (t = tid)) as [->|]; [|by rewrite lookup_alter_ne].
  rewrite lookup_alter_eq. destruct (m !! tid); [|done]. simpl. rewrite get_set_next_ne; [done|].
  intros Hlk. by apply (Hoff q).
Qed.

Lemma rep_upd tid c g : m !! tid = Some c -> (forall f, get_next f (g c) = get_next f c) ->
  erase (g c) = g (erase c) -> rep (<[tid := g c]> m) h Q (<[tid := g (erase c)]> D).
Proof.
  intros Hc Hn He. split; try apply Hrep.
  - intros q. eapply lseg_frame; [|apply (rep_chain _ _ _ _ Hrep)]. intros t _.
    destruct (decide (t = tid)) as [->|]; [|by rewrite lookup_insert_ne].
    rewrite lookup_insert_eq, Hc. simpl. by rewrite Hn.
  - by rewrite fmap_insert, He, (rep_data _ _ _ _ Hrep).
Qed.

End RepOps.

(** Linking a free thread in: its link is set first, then the one before it. *)
Lemma rep_insert m h Q D q tid l1 l2 : rep m h Q D -> valid_q q = true ->
  Q q = l1 ++ l2 -> off Q (link q) tid -> is_Some (D !! tid) ->
  rep (storeM (slot_after q l1) (Some tid) (storeM (Next (link q) tid) (head l2) m))
      (storeH (slot_after q l1) (Some tid) h) (<[q := l1 ++ tid :: l2]> Q) D.
Proof.
  intros Hrep Hv Hq Hoff Hd. pose proof (rep_free_next _ _ _ _ Hrep _ _ (head l2) Hoff) as Hrep'.
  destruct (rep_slot _ _ _ _ Hrep' q l1 l2 Hv Hq) as (_ & _ & H2).
  rewrite (rep_lookup _ _ _ _ Hrep), fmap_is_Some in Hd. destruct Hd as [c Hc].
  assert (Hn : tid ∉ l1 ++ l2) by (rewrite <- Hq; by apply Hoff).
  pose proof (rep_nodup _ _ _ _ Hrep q) as Hnd. rewrite Hq in Hnd.
  rewrite not_elem_of_app in Hn. apply NoDup_app in Hnd as (? & Hdj & ?).
  eapply rep_relink; [done..| | |done|].
  - apply NoDup_app. split_and!; [done| |apply NoDup_cons; naive_solver].
    intros t Ht [->|Ht2]%elem_of_cons; [naive_solver|]. by apply (Hdj t).
  - intros q' t Hlk Hne [->|Ht]%elem_of_cons; [by apply Hoff|]. intros Ht'. apply Hne.
    eapply (rep_disj _ _ _ _ Hrep); [done..|]. rewrite Hq, elem_of_app. auto.
  - split; [done|]. exists (set_next (link q) (head l2) c). simpl in *.
    rewrite lookup_alter_eq, Hc. split; [done|]. by rewrite get_set_next.
Qed.

(** Linking at the end: the last link is set first, then the thread's own. *)
Lemma storeM_comm f f' t t' v v' m : t <> t' ->
  storeM (Next f t) v (storeM (Next f' t') v' m) = storeM (Next f' t') v' (storeM (Next f t) v m).
Proof. intros. simpl. by rewrite alter_alter_ne. Qed.

Lemma rep_append m h Q D q tid : rep m h Q D -> valid_q q = true ->
  off Q (link q) tid -> is_Some (D !! tid) ->
  rep (storeM (Next (link q) tid) None (storeM (slot_after q (Q q)) (Some tid) m))
      (storeH (slot_after q (Q q)) (Some tid) h) (<[q := Q q ++ [tid]]> Q) D.
Proof.
  intros Hrep Hv Hoff Hd.
  pose proof (rep_insert m h Q D q tid (Q q) [] Hrep Hv (eq_sym (app_nil_r _)) Hoff Hd) as Hr.
  revert Hr. unfold slot_after. destruct (last (Q q)) as [x|] eqn:Hl; simpl; [|done].
  rewrite alter_alter_ne; [done|]. intros ->. apply last_Some_elem_of in Hl. by apply (Hoff q).
Qed.

Lemma off_unlink Q q tid l1 l2 f : Q q = l1 ++ tid :: l2 -> NoDup (Q q) -> link q = f ->
  (forall q', link q' = f -> q' <> q -> tid ∉ Q q') -> off (<[q := l1 ++ l2]> Q) f tid.
Proof.
  intros Hq Hnd Hf Ho q' Hq'. destruct (decide (q' = q)) as [->|].
  - rewrite fn_lookup_insert, elem_of_app. rewrite Hq in Hnd.
    apply NoDup_app in Hnd as (_ & Hd & Hnd). apply NoDup_cons in Hnd as [? _].
    intros [Ht|Ht]; [|done]. apply (Hd tid Ht), elem_of_cons. auto.
  - rewrite fn_lookup_insert_ne by done. by apply Ho.
Qed.

Lemma rep_off_unlink m h Q D q tid l1 l2 : rep m h Q D -> Q q = l1 ++ tid :: l2 ->
  off (<[q := l1 ++ l2]> Q) (link q) tid.
Proof.
  intros Hrep Hq. eapply off_unlink; [done|apply Hrep|done|].
  intros q' Hlk Hne Ht. apply Hne. eapply (rep_disj _ _ _ _ Hrep); [done..|].
  rewrite Hq, elem_of_app, elem_of_cons. auto.
Qed.

(** The last member of each run queue is its tail. *)
Definition tails (tl : gmap Z Z) (Q : qref -> list Z) : Prop :=
  forall p, Q (RunQ p) <> [] -> tl !! p = last (Q (RunQ p)).

Definition krep (s : sched) (Q : qref -> list Z) (D : gmap Z ctx) : Prop :=
  rep (threadContext s) (qhead s) Q D /\ tails (threadQtail s) Q.

(** The globals that queue operations leave alone. *)
Definition env (s : sched) :=
  (currentThread s, currentThreadID s, jpriority s, daemon s, clock s, maxFd s, readsPending s,
   writesPending s, events s, polls s, talive s, tdaemon s, lock_info s, lockTable s, nextLock s).

(** [tid] taken out of a list. *)
Definition rm (tid : Z) (l : list Z) : list Z := filter (fun x => x <> tid) l.

Lemma rm_notin tid l : tid ∉ l -> rm tid l = l.
Proof.
  induction l as [|x l IH]; [done|]. rewrite not_elem_of_cons. intros [? ?]. unfold rm.
  rewrite filter_cons_True by done. f_equal. by apply IH.
Qed.

Lemma rm_split tid l1 l2 : NoDup (l1 ++ tid :: l2) -> rm tid (l1 ++ tid :: l2) = l1 ++ l2.
Proof.
  intros (? & Hd & Hnd)%NoDup_app. apply NoDup_cons in Hnd as [? ?]. unfold rm.
  rewrite filter_app, filter_cons_False by naive_solver. f_equal; apply rm_notin; [|done].
  intros Ht. apply (Hd tid Ht), elem_of_cons. auto.
Qed.

Lemma elem_of_rm x tid l : x ∈ rm tid l <-> x ∈ l /\ x <> tid.
Proof. unfold rm. rewrite list_elem_of_filter. tauto. Qed.

#[export] Instance rep_proper m h : Proper (pointwise_relation _ eq ==> eq ==> iff) (rep m h).
Proof.
  intros Q Q' HQ D _ <-. assert (Hi : forall Q Q', (forall q, Q q = Q' q) -> rep m h Q D -> rep m h Q' D).
  { intros Q1 Q2 He [Hc Hn Hd Hv Hdat]. split; [..|done].
    - intros q. rewrite <- He. apply Hc.
    - intros q. rewrite <- He. apply Hn.
    - intros q q' t. rewrite <- !He. apply Hd.
    - intros q t. rewrite <- He. apply Hv. }
  split; apply Hi; [done|]. intros q. by rewrite (HQ q).
Qed.

Lemma fn_insert_same (Q : qref -> list Z) q l : l = Q q -> pointwise_relation _ eq (<[q := l]> Q) Q.
Proof.
  intros -> q'. destruct (decide (q' = q)) as [->|];
    [by rewrite fn_lookup_insert|by rewrite fn_lookup_insert_ne].
Qed.

Section Specs.
Context (G : sched -> Prop) (R : sched -> sched -> Prop).

Lemma wp_find_slot s Q D q tid (P : option (slot * option Z) -> sched -> Prop) :
  rep (threadContext s) (qhead s) Q D -> valid_q q = true ->
  (tid ∉ Q q -> P None s) ->
  (forall l1 l2, Q q = l1 ++ tid :: l2 -> P (Some (slot_after q l1, last l1)) s) ->
  wp G R (find_slot q tid) P s.
Proof.
  intros Hrep Hv Hno Hyes. apply wp_bind, wp_gets.
  apply (wp_walk G R s q tid (Q q) (qhead s !! q) _ [] P Hv eq_refl); [apply Hrep| |done|].
  - eapply lseg_length; apply Hrep.
  - intros l1 l2 Hq _. by eapply Hyes.
Qed.

Lemma slot_ok m h Q D q l1 l2 : rep m h Q D -> Q q = l1 ++ l2 -> valid_q q = true ->
  slot_val (slot_after q l1) m h = Some (head l2).
Proof. intros Hr Hq Hv. by destruct (rep_slot _ _ _ _ Hr q l1 l2 Hv Hq). Qed.

Lemma next_ok (m : gmap Z ctx) h f t c : m !! t = Some c -> slot_val (Next f t) m h = Some (get_next f c).
Proof. simpl. by intros ->. Qed.

(** Taking [tid] out of a queue, once its slot is found. *)
Lemma wp_unlink s Q D q tid l1 l2 c v (P : unit -> sched -> Prop) :
  rep (threadContext s) (qhead s) Q D -> Q q = l1 ++ tid :: l2 ->
  threadContext s !! tid = Some c -> v = get_next (link q) c ->
  (forall m h, rep m h (<[q := rm tid (Q q)]> Q) D -> off (<[q := rm tid (Q q)]> Q) (link q) tid ->
     slot_val (slot_after q l1) m h = Some (head l2) -> P tt (edit m h s)) ->
  wp G R (store (slot_after q l1) v) P s.
Proof.
  intros Hrep Hq Hc -> HP. assert (Hin : tid ∈ Q q) by (rewrite Hq, elem_of_app, elem_of_cons; auto).
  pose proof (rep_valid _ _ _ _ Hrep q tid Hin) as Hv.
  assert (Hrm : rm tid (Q q) = l1 ++ l2) by (rewrite Hq, rm_split; [done|]; rewrite <- Hq; apply Hrep).
  eapply wp_store; [by eapply slot_ok|]. rewrite Hrm in HP.
  pose proof (rep_unlink _ _ _ _ Hrep q tid l1 l2 c Hq Hc) as Hr. apply HP; [done|by eapply rep_off_unlink|].
  eapply slot_ok; [done| |done]. by rewrite fn_lookup_insert.
Qed.

Lemma wp_upd s Q D tid d g (P : unit -> sched -> Prop) :
  rep (threadContext s) (qhead s) Q D -> D !! tid = Some d ->
  (forall f c, get_next f (g c) = get_next f c) -> (forall c, erase (g c) = g (erase c)) ->
  (forall m, rep m (qhead s) Q (<[tid := g d]> D) -> P tt (set_threadContext m s)) ->
  wp G R (upd_ctx tid g) P s.
Proof.
  intros Hrep Hd Hn He HP. destruct (rep_lookup_Some _ _ _ _ Hrep _ _ Hd) as (c & Hc & <-).
  eapply wp_upd_ctx; [done|]. apply HP. by apply rep_upd.
Qed.

Lemma wp_store_free s Q D tid d f v (P : unit -> sched -> Prop) :
  rep (threadContext s) (qhead s) Q D -> off Q f tid -> D !! tid = Some d ->
  (forall m, rep m (qhead s) Q D -> P tt (edit m (qhead s) s)) ->
  wp G R (store (Next f tid) v) P s.
Proof.
  intros Hrep Hoff Hd HP. destruct (rep_lookup_Some _ _ _ _ Hrep _ _ Hd) as (c & Hc & <-).
  eapply wp_store; [by apply next_ok|]. apply HP. by apply rep_free_next.
Qed.

Lemma wp_ctx s Q D tid d (P : ctx -> sched -> Prop) :
  rep (threadContext s) (qhead s) Q D -> D !! tid = Some d ->
  (forall c, threadContext s !! tid = Some c -> erase c = d -> P c s) -> wp G R (TCTX tid) P s.
Proof.
  intros Hrep Hd HP. destruct (rep_lookup_Some _ _ _ _ Hrep _ _ Hd) as (c & Hc & <-).
  eapply wp_TCTX; [done|]. by apply HP.
Qed.

Lemma wp_removeFromAlarmQ s Q D tid d (P : unit -> sched -> Prop) :
  rep (threadContext s) (qhead s) Q D -> D !! tid = Some d -> 1 <= blockInts s ->
  (forall m h, rep m h (<[AlarmList := rm tid (Q AlarmList)]> Q)
     (<[tid := clear_flags THREAD_FLAGS_ALARM d]> D) -> P tt (edit m h s)) ->
  wp G R (removeFromAlarmQ tid) P s.
Proof.
  intros Hrep Hd Hb HP. apply wp_bind, wp_gets, wp_bind, wp_check; [lia|].
  eapply wp_bind, wp_upd; [done..|]. intros m1 Hr1.
  eapply wp_bind, wp_find_slot; [done..| |].
  - intros Hno. apply wp_ret. rewrite <- (edit_id (set_threadContext m1 s)). apply (HP m1 (qhead s)).
    rewrite fn_insert_same; [done|]. by apply rm_notin.
  - intros l1 l2 Hq. eapply wp_bind, wp_ctx; [done|apply lookup_insert_eq|]. intros c Hc _.
    eapply wp_bind, (wp_unlink _ _ _ AlarmList); [done..|]. intros m2 h2 Hr2 Hoff _.
    eapply wp_store_free; [done..|by rewrite lookup_insert_eq|]. intros m3 Hr3. by apply (HP m3 h2).
Qed.

End Specs.

(** The abstract effect of resuming [tid]: off the alarm list and its block
    queue, and at the end of the run queue of its priority. *)
Definition resumeQ (tid : Z) (d : ctx) (Q : qref -> list Z) : qref -> list Z :=
  let Q1 := if has_flag THREAD_FLAGS_ALARM d
            then <[AlarmList := rm tid (Q AlarmList)]> Q else Q in
  let Q2 := match blockqueue d with Some q => <[q := rm tid (Q1 q)]> Q1 | None => Q1 end in
  <[RunQ (priority d) := Q2 (RunQ (priority d)) ++ [tid]]> Q2.

Definition resumeC (d : ctx) : ctx :=
  let d1 := if has_flag THREAD_FLAGS_ALARM d then clear_flags THREAD_FLAGS_ALARM d else d in
  set_status THREAD_RUNNING (set_blockqueue None d1).

Lemma resumeC_priority d : priority (resumeC d) = priority d.
Proof. unfold resumeC. by destruct (has_flag _ d). Qed.

Definition block_q (q : qref) : bool :=
  match q with WaiterQ _ | CondQ _ | ReadQ _ | WriteQ _ => true | _ => false end.

Lemma block_q_link q : block_q q = true -> link q = FQ.
Proof. by destruct q. Qed.

(** What [iresumeThread] needs of a thread: the only queue it may stand on is
    the one its [blockqueue] names. *)
Record resumable (Q : qref -> list Z) (tid : Z) (d : ctx) : Prop := {
  rs_prio : valid_q (RunQ (priority d)) = true;
  rs_bq q : blockqueue d = Some q -> block_q q = true /\ valid_q q = true;
  rs_in q : link q = FQ -> tid ∈ Q q -> blockqueue d = Some q }.

Lemma tails_insert_block tl Q q l : tails tl Q -> (forall p, q <> RunQ p) -> tails tl (<[q := l]> Q).
Proof. intros Ht Hq p. rewrite fn_lookup_insert_ne by apply Hq. apply Ht. Qed.

Section Resume.
Context (G : sched -> Prop) (R : sched -> sched -> Prop).

Lemma wp_ctx_data s D tid d (P : ctx -> sched -> Prop) :
  erase <$> threadContext s = D -> D !! tid = Some d ->
  (forall c, threadContext s !! tid = Some c -> erase c = d -> P c s) -> wp G R (TCTX tid) P s.
Proof.
  intros <- Hd HP. rewrite lookup_fmap in Hd. apply fmap_Some in Hd as (c & Hc & ->).
  eapply wp_TCTX; [done|]. by apply HP.
Qed.

Lemma wp_place_on_queue s Q D tid p (P : bool -> sched -> Prop) :
  krep s Q D -> valid_q (RunQ p) = true ->
  (let l := slot_after (RunQ p) (Q (RunQ p)) in
   P (bool_decide (Q (RunQ p) = []))
     (set_threadQtail (<[p := tid]> (threadQtail s))
       (edit (storeM l (Some tid) (threadContext s)) (storeH l (Some tid) (qhead s)) s))) ->
  wp G R (place_on_queue tid p) P s.
Proof.
  intros [Hrep Ht] Hv HP. pose proof (slot_ok _ _ _ _ (RunQ p) (Q (RunQ p)) [] Hrep (eq_sym (app_nil_r _)) Hv) as Hs.
  apply wp_bind, wp_load_head; [done|]. rewrite (rep_head _ _ _ _ Hrep). revert HP Hs. simpl. unfold slot_after.
  destruct (last_cons_snoc 0 (Q (RunQ p))) as [E|(l & x & E)].
  - rewrite E. intros HP Hs. eapply wp_bind, wp_store; [done|]. apply wp_bind. unfold wp, set_tail. rewrite Hv.
    apply HP.
  - specialize (Ht p). rewrite E in Ht |- *. rewrite last_snoc in Ht |- *. intros HP Hs.
    destruct (head (l ++ [x])) as [y|] eqn:Hh; [|by destruct l].
    apply wp_bind, wp_gets. rewrite Ht by (by destruct l).
    eapply wp_bind, wp_store; [done|]. apply wp_bind. unfold wp, set_tail. rewrite Hv.
    assert (Eb : bool_decide (l ++ [x] = []) = false) by (by destruct l). rewrite Eb in HP. apply HP.
Qed.

(** Everything [iresumeThread] does to a thread that is not running, up to the
    closing [intsRestore]. *)
Lemma wp_iresumeThread s Q D tid d dc resched (P : unit -> sched -> Prop) :
  krep s Q D -> D !! tid = Some d -> status d <> THREAD_RUNNING -> resumable Q tid d ->
  D !! currentThread s = Some dc -> 0 <= blockInts s ->
  (forall s', krep s' (resumeQ tid d Q) (<[tid := resumeC d]> D) -> env s' = env s ->
     blockInts s' = blockInts s + 1 -> malarm s' = malarm s -> alarmBlocked s' = alarmBlocked s ->
     needReschedule s' = needReschedule s
       || (bool_decide (Q (RunQ (priority d)) = []) && (priority dc <? priority d)) ->
     wp G R (intsRestore resched) P s') ->
  wp G R (iresumeThread resched tid) P s.
Proof.
  intros [Hrep Htl] Hd Hst [Hvp Hbq Hin] Hcur Hb HP. apply wp_bind, wp_modify.
  eapply wp_bind, (wp_ctx _ _ _ Q D); [done..|]. intros c Hc Ec.
  assert (Es : status c = status d /\ priority c = priority d /\ blockqueue c = blockqueue d /\ flags c = flags d)
    by (by subst d). destruct Es as (Es & Ep & Eb & Ef).
  assert (Ea : has_flag THREAD_FLAGS_ALARM c = has_flag THREAD_FLAGS_ALARM d) by (unfold has_flag; by rewrite Ef).
  rewrite Es, Ea, Eb, Ep. destruct (Z.eqb_spec (status d) THREAD_RUNNING) as [?|_]; [done|].
  apply wp_bind.
  set (d1 := if has_flag THREAD_FLAGS_ALARM d then clear_flags THREAD_FLAGS_ALARM d else d).
  set (Q1 := if has_flag THREAD_FLAGS_ALARM d then <[AlarmList := rm tid (Q AlarmList)]> Q else Q).
  set (Q2 := match blockqueue d with Some q => <[q := rm tid (Q1 q)]> Q1 | None => Q1 end).
  assert (HQ1 : forall q, q <> AlarmList -> Q1 q = Q q).
  { intros q Hq. unfold Q1. destruct (has_flag _ d); [|done]. by rewrite fn_lookup_insert_ne. }
  assert (HQ2 : forall p, Q2 (RunQ p) = Q (RunQ p)).
  { intros p. unfold Q2. destruct (blockqueue d) as [q|]; [|by apply HQ1].
    destruct (Hbq q eq_refl) as [Hq _]. rewrite fn_lookup_insert_ne by (by intros ->). by apply HQ1. }
  assert (Hoff : off Q2 FQ tid).
  { intros q Hq. unfold Q2. destruct (blockqueue d) as [q'|] eqn:Eq.
    - destruct (decide (q = q')) as [->|].
      + rewrite fn_lookup_insert, elem_of_rm. tauto.
      + rewrite fn_lookup_insert_ne by done. rewrite HQ1 by (by intros ->). intros Ht.
        specialize (Hin q Hq Ht). naive_solver.
    - rewrite HQ1 by (by intros ->). intros Ht. specialize (Hin q Hq Ht). naive_solver. }
  (* the alarm list *)
  apply wp_bind. apply (wp_mono _ _ _ (fun _ s1 => exists m h,
    s1 = edit m h (set_blockInts (blockInts s + 1) s) /\ rep m h Q1 (<[tid := d1]> D))).
  { unfold d1, Q1. destruct (has_flag THREAD_FLAGS_ALARM d); simpl.
    - eapply wp_removeFromAlarmQ; [done..|simpl; lia|]. eauto.
    - apply wp_ret. exists (threadContext s), (qhead s). split; [by destruct s|].
      by rewrite insert_id. }
  intros _ _ (m1 & h1 & -> & Hr1).
  (* the block queue *)
  apply wp_bind. apply (wp_mono _ _ _ (fun _ s1 => exists m h,
    s1 = edit m h (set_blockInts (blockInts s + 1) s) /\ rep m h Q2 (<[tid := set_blockqueue None d1]> D))).
  { unfold Q2. assert (Ed1 : blockqueue d1 = blockqueue d) by (unfold d1; by destruct (has_flag _ d)).
    destruct (blockqueue d) as [q|] eqn:Eq.
    - destruct (Hbq q eq_refl) as [Hqb Hqv]. eapply wp_bind, wp_find_slot; [done..| |].
      + intros Hno. apply wp_bind, wp_ret. eapply wp_upd; [done|apply lookup_insert_eq|done..|].
        intros m2 Hr2. rewrite insert_insert_eq in Hr2. exists m2, h1. split; [done|].
        rewrite fn_insert_same; [done|]. by apply rm_notin.
      + intros l1 l2 Hq. eapply wp_bind, wp_bind, wp_ctx; [done|apply lookup_insert_eq|]. intros c2 Hc2 _.
        eapply (wp_unlink _ _ _ _ _ q); [done..|by rewrite (block_q_link q Hqb)|]. intros m2 h2 Hr2 _ _.
        eapply wp_upd; [done|apply lookup_insert_eq|done..|].
        intros m3 Hr3. rewrite insert_insert_eq in Hr3. by exists m3, h2.
    - apply wp_ret. exists m1, h1. split; [done|].
      replace (set_blockqueue None d1) with d1; [done|]. destruct d1; simpl in *. by subst. }
  intros _ _ (m2 & h2 & -> & Hr2).
  (* the run queue *)
  eapply wp_bind, wp_upd; [done|apply lookup_insert_eq|done..|]. intros m3 Hr3.
  rewrite insert_insert_eq in Hr3. change (set_status 1 (set_blockqueue None d1)) with (resumeC d) in Hr3.
  apply wp_bind. eapply wp_place_on_queue; [split; [done|]; intros p; rewrite HQ2; apply Htl|done|].
  cbv zeta. rewrite HQ2. apply wp_bind.
  apply (wp_mono _ _ _ (fun _ s1 => s1 = set_needReschedule (needReschedule s
       || (bool_decide (Q (RunQ (priority d)) = []) && (priority dc <? priority d)))
     (set_threadQtail (<[priority d := tid]> (threadQtail s))
       (edit (storeM (slot_after (RunQ (priority d)) (Q (RunQ (priority d)))) (Some tid) m3)
          (storeH (slot_after (RunQ (priority d)) (Q (RunQ (priority d)))) (Some tid) h2)
          (set_blockInts (blockInts s + 1) s))))).
  { apply wp_when; intros ->.
    - apply wp_bind, wp_gets, wp_bind. destruct (lookup_insert_is_Some' D tid (currentThread s) (resumeC d)) as [_ Hex].
      destruct Hex as [dc' Hdc']; [right; by exists dc|].
      assert (Epr : priority dc' = priority dc).
      { destruct (decide (currentThread s = tid)) as [E|].
        - rewrite E, lookup_insert_eq in Hdc'. rewrite E in Hcur. simplify_eq. by apply resumeC_priority.
        - rewrite lookup_insert_ne in Hdc' by done. congruence. }
      eapply wp_ctx_data; [|exact Hdc'|].
      { simpl. rewrite erase_storeM. apply (rep_data _ _ _ _ Hr3). }
      intros cc _ Ecc. replace (priority cc) with (priority dc) by (rewrite <- Epr; by subst dc').
      apply wp_when; intros ->; [apply wp_modify|]; simpl; rewrite ?orb_true_r, ?orb_false_r; by destruct s.
    - simpl. rewrite orb_false_r. by destruct s. }
  intros _ _ ->. pose proof (rep_append _ _ _ _ (RunQ (priority d)) tid Hr3 Hvp Hoff) as Hr4.
  rewrite HQ2 in Hr4. specialize (Hr4 ltac:(rewrite lookup_insert_eq; eauto)).
  destruct (rep_lookup_Some _ _ _ _ Hr3 tid _ ltac:(apply lookup_insert_eq)) as (c3 & Hc3 & _).
  assert (Hs3 : is_Some (storeM (slot_after (RunQ (priority d)) (Q (RunQ (priority d)))) (Some tid) m3 !! tid)).
  { eapply fmap_is_Some. erewrite <- lookup_fmap, erase_storeM, lookup_fmap, Hc3. simpl. eauto. }
  destruct Hs3 as [c4 Hc4]. eapply wp_store; [by apply (next_ok _ _ _ _ c4)|].
  apply HP; [|by destruct s..]. split.
  - replace (resumeQ tid d Q) with (<[RunQ (priority d):=Q (RunQ (priority d)) ++ [tid]]> Q2)
      by (by rewrite <- HQ2). exact Hr4.
  - intros p. simpl. change (resumeQ tid d Q) with (<[RunQ (priority d):=Q2 (RunQ (priority d)) ++ [tid]]> Q2).
    destruct (decide (p = priority d)) as [->|].
    + by rewrite fn_lookup_insert, lookup_insert_eq, last_snoc.
    + rewrite fn_lookup_insert_ne by naive_solver. rewrite lookup_insert_ne by done. rewrite HQ2. apply Htl.
Qed.

End Resume.

(** ** Suspending a thread *)

Definition time_of (D : gmap Z ctx) (t : Z) : Z := default 0 (time <$> D !! t).

(** [tid] before the first thread of the alarm list that is due later. *)
Fixpoint alarm_ins (D : gmap Z ctx) (t0 tid : Z) (l : list Z) : list Z :=
  match l with
  | [] => [tid]
  | t :: l' => if t0 <? time_of D t then tid :: l else t :: alarm_ins D t0 tid l'
  end.

Definition alarmC (t0 : Z) (d : ctx) : ctx :=
  set_time t0 (set_flags (Z.lor (flags d) THREAD_FLAGS_ALARM) d).

Definition suspendQ (D : gmap Z ctx) (t0 tid : Z) (d : ctx) (queue : option qref) (timeout : Z)
    (Q : qref -> list Z) : qref -> list Z :=
  let Q1 := <[RunQ (priority d) := rm tid (Q (RunQ (priority d)))]> Q in
  let Q2 := match queue with Some q => <[q := tid :: Q1 q]> Q1 | None => Q1 end in
  if NOTIMEOUT <? timeout then <[AlarmList := alarm_ins D t0 tid (Q AlarmList)]> Q2 else Q2.

Definition suspendC (t0 : Z) (queue : option qref) (timeout : Z) (d : ctx) : ctx :=
  let d1 := set_status THREAD_SUSPENDED d in
  let d2 := match queue with Some q => set_blockqueue (Some q) d1 | None => d1 end in
  if NOTIMEOUT <? timeout then alarmC t0 d2 else d2.

Section Suspend.
Context (G : sched -> Prop) (R : sched -> sched -> Prop).

Lemma alarm_ins_split D t0 tid l : exists l1 l2,
  l = l1 ++ l2 /\ alarm_ins D t0 tid l = l1 ++ tid :: l2 /\
  Forall (fun t => time_of D t <= t0) l1 /\ (forall t l', l2 = t :: l' -> t0 < time_of D t).
Proof.
  induction l as [|t l IH]; simpl.
  - exists [], []. by split_and!.
  - destruct (Z.ltb_spec t0 (time_of D t)).
    + exists [], (t :: l). split_and!; try done. by intros ? ? [= <- <-].
    + destruct IH as (l1 & l2 & -> & -> & ? & ?). exists (t :: l1), l2. split_and!; try done.
      constructor; [lia|done].
Qed.

Lemma wp_alarm_place s Q D t0 tid (P : slot -> sched -> Prop) :
  rep (threadContext s) (qhead s) Q D ->
  (forall l1 l2, Q AlarmList = l1 ++ l2 -> alarm_ins D t0 tid (Q AlarmList) = l1 ++ tid :: l2 ->
     P (slot_after AlarmList l1) s) ->
  wp G R (alarm_place (size (threadContext s)) (Head AlarmList) t0) P s.
Proof.
  intros Hrep.
  assert (Hgen : forall l dn fuel, Q AlarmList = dn ++ l -> (length l <= fuel)%nat ->
    (forall l1 l2, l = l1 ++ l2 -> alarm_ins D t0 tid l = l1 ++ tid :: l2 -> P (slot_after AlarmList (dn ++ l1)) s) ->
    wp G R (alarm_place fuel (slot_after AlarmList dn) t0) P s).
  { induction l as [|t l IH]; intros dn fuel Hq Hf HP.
    - destruct fuel; simpl; eapply wp_bind, wp_load; [by eapply slot_ok| |by eapply slot_ok|];
        apply wp_ret; rewrite <- (app_nil_r dn); by apply (HP [] []).
    - destruct fuel as [|fuel]; [simpl in Hf; lia|]. simpl.
      eapply wp_bind, wp_load; [by eapply slot_ok|]. simpl.
      destruct (rep_in_data _ _ _ _ Hrep AlarmList t) as [d Hd].
      { rewrite Hq, elem_of_app, elem_of_cons. auto. }
      eapply wp_bind, wp_ctx; [done..|]. intros c _ Ec.
      assert (Et : time_of D t = time c) by (unfold time_of; rewrite Hd; by subst d). rewrite <- Et.
      simpl in HP. destruct (Z.ltb_spec t0 (time_of D t)).
      + apply wp_ret. rewrite <- (app_nil_r dn). by apply (HP [] (t :: l)).
      + replace (Next FAlarm t) with (slot_after AlarmList (dn ++ [t])) by (unfold slot_after; by rewrite last_snoc).
        apply IH; [by rewrite <- app_assoc|simpl in Hf; lia|]. intros l1 l2 -> Hi. rewrite <- app_assoc.
        apply (HP (t :: l1) l2); [done|]. by rewrite Hi. }
  intros HP. apply (Hgen (Q AlarmList) []); [done| |done]. eapply lseg_length; apply Hrep.
Qed.

Lemma time_of_insert D tid d t : t <> tid -> time_of (<[tid := d]> D) t = time_of D t.
Proof. intros. unfold time_of. by rewrite lookup_insert_ne. Qed.

Lemma alarm_ins_ext D D' t0 tid l : (forall t, t ∈ l -> time_of D t = time_of D' t) ->
  alarm_ins D t0 tid l = alarm_ins D' t0 tid l.
Proof.
  induction l as [|t l IH]; intros Hl; simpl; [done|]. rewrite (Hl t) by left.
  rewrite IH; [done|]. intros. apply Hl. by right.
Qed.

Lemma wp_addToAlarmQ s Q D tid d timeout (P : unit -> sched -> Prop) :
  rep (threadContext s) (qhead s) Q D -> D !! tid = Some d -> tid ∉ Q AlarmList -> 0 < blockInts s ->
  (forall m h ma, rep m h (<[AlarmList := alarm_ins D (timeout + clock s) tid (Q AlarmList)]> Q)
     (<[tid := alarmC (timeout + clock s) d]> D) ->
     ma = (if bool_decide (head (alarm_ins D (timeout + clock s) tid (Q AlarmList)) = Some tid)
           then Some timeout else malarm s) ->
     P tt (set_malarm ma (edit m h s))) ->
  wp G R (addToAlarmQ tid timeout) P s.
Proof.
  intros Hrep Hd Hnin Hb HP. apply wp_bind, wp_gets, wp_bind, wp_check; [lia|].
  eapply wp_bind, wp_upd; [done..|]. intros m1 Hr1. apply wp_bind, wp_gets.
  eapply wp_bind, wp_upd; [done|apply lookup_insert_eq|done..|]. intros m2 Hr2.
  rewrite insert_insert_eq in Hr2. apply wp_bind, wp_gets.
  eapply wp_bind, wp_ctx; [done|apply lookup_insert_eq|]. intros c _ Ec.
  replace (time c) with (timeout + clock s) by (symmetry; change (time c) with (time (erase c)); by rewrite Ec).
  eapply wp_bind, (wp_alarm_place _ _ _ _ tid); [done|]. intros l1 l2 Hl Hi.
  rewrite (alarm_ins_ext _ D) in Hi.
  2:{ intros t Ht. apply time_of_insert. by intros ->. }
  eapply wp_bind, wp_load; [by eapply slot_ok|].
  destruct (rep_lookup_Some _ _ _ _ Hr2 tid _ ltac:(apply lookup_insert_eq)) as (c2 & Hc2 & _).
  assert (Hoff : off Q FAlarm tid) by (intros [] ?; done).
  eapply wp_bind, wp_store; [by apply next_ok|].
  pose proof (rep_free_next _ _ _ _ Hr2 _ _ (head l2) Hoff) as Hr3.
  eapply wp_bind, wp_store; [by eapply (slot_ok _ _ _ _ AlarmList l1 l2 Hr3)|].
  pose proof (rep_insert _ _ _ _ AlarmList tid l1 l2 Hr2 eq_refl Hl Hoff) as Hr4.
  specialize (Hr4 ltac:(rewrite lookup_insert_eq; eauto)). rewrite <- Hi in Hr4.
  assert (Hnl : tid ∉ l1) by (rewrite Hl, not_elem_of_app in Hnin; tauto).
  specialize (HP _ _ _ Hr4 eq_refl). rewrite Hi in HP. revert HP.
  destruct l1 as [|x l1'].
  - simpl. rewrite bool_decide_true by done. intros HP. apply wp_modify. revert HP. by destruct s.
  - simpl. rewrite bool_decide_false.
    2:{ intros [= ->]. apply Hnl. left. }
    assert (Hh : is_head (slot_after AlarmList (x :: l1')) = false)
      by (unfold slot_after; by destruct (last (x :: l1')) eqn:E; [|apply last_None in E]).
    rewrite Hh. intros HP. apply wp_ret. revert HP. by destruct s.
Qed.

(** Taking [tid] off its run queue, with the tail kept up to date. *)
Lemma wp_leave_run s Q D tid c p l1 l2 (P : unit -> sched -> Prop) :
  krep s Q D -> Q (RunQ p) = l1 ++ tid :: l2 -> threadContext s !! tid = Some c ->
  (forall s', krep s' (<[RunQ p := rm tid (Q (RunQ p))]> Q) D ->
     off (<[RunQ p := rm tid (Q (RunQ p))]> Q) FQ tid -> env s' = env s ->
     blockInts s' = blockInts s -> malarm s' = malarm s -> alarmBlocked s' = alarmBlocked s ->
     needReschedule s' = needReschedule s -> P tt s') ->
  wp G R (store (slot_after (RunQ p) l1) (nextQ c);;
          x ← load (slot_after (RunQ p) l1);
          when (bool_decide (x = None)) (set_tail p (last l1))) P s.
Proof.
  intros [Hrep Htl] Hq Hc HP. assert (Hv : valid_q (RunQ p) = true).
  { apply (rep_valid _ _ _ _ Hrep _ tid). rewrite Hq, elem_of_app, elem_of_cons. auto. }
  assert (Hrm : rm tid (Q (RunQ p)) = l1 ++ l2) by (rewrite Hq, rm_split; [done|]; rewrite <- Hq; apply Hrep).
  eapply wp_bind, (wp_unlink _ _ _ _ _ (RunQ p)); [done..|]. intros m h Hr Hoff Hs.
  eapply wp_bind, wp_load; [done|]. pose proof (Htl p) as Htp. rewrite Hq in Htp.
  specialize (Htp ltac:(by destruct l1)).
  assert (Htails : forall tl, (forall p', p' <> p -> tl !! p' = threadQtail s !! p') ->
    (l1 ++ l2 <> [] -> tl !! p = last (l1 ++ l2)) -> krep (set_threadQtail tl (edit m h s)) (<[RunQ p := rm tid (Q (RunQ p))]> Q) D).
  { intros tl Hne Hp. split; [done|]. intros p'. simpl. destruct (decide (p' = p)) as [->|].
    - by rewrite fn_lookup_insert, Hrm.
    - rewrite fn_lookup_insert_ne by naive_solver. rewrite Hne by done. apply Htl. }
  destruct l2 as [|y l2]; simpl.
  - unfold wp, set_tail. rewrite Hv. simpl.
    apply HP; [apply Htails|done..].
    + intros p' ?. by rewrite ptr_insert_ne.
    + intros _. rewrite app_nil_r. by rewrite ptr_insert_eq.
  - apply wp_ret. replace (edit m h s) with (set_threadQtail (threadQtail s) (edit m h s)) by (by destruct s).
    apply HP; [apply Htails|by destruct s..]; [done|]. intros _. rewrite Htp.
    by rewrite !last_app_cons, last_cons_cons.
Qed.

End Suspend.

(** What it does before it leaves the processor, and with what it leaves it. *)
Lemma suspend_reaches s Q D tid d queue timeout (from_wait : bool) (X : step unit -> Prop) :
  krep s Q D -> D !! tid = Some d -> status d <> THREAD_SUSPENDED -> tid ∈ Q (RunQ (priority d)) ->
  0 < blockInts s -> tid ∉ Q AlarmList ->
  (forall q, queue = Some q -> block_q q = true /\ valid_q q = true) ->
  (forall s', krep s' (suspendQ D (timeout + clock s) tid d queue timeout Q)
       (<[tid := suspendC (timeout + clock s) queue timeout d]> D) ->
     env s' = env s -> blockInts s' = blockInts s -> needReschedule s' = needReschedule s ->
     alarmBlocked s' = alarmBlocked s ->
     X (when (tid =? currentThread s) (if from_wait then reschedule_from_wait else reschedule) s')) ->
  X (suspendOnQThread tid queue timeout from_wait s).
Proof.
  intros [Hrep Htl] Hd Hst Hin Hb Hal Hqv HP. apply (reach_bind _ _ X), wp_gets. apply (reach_bind _ _ X), wp_check; [lia|].
  eapply (reach_bind _ _ X), wp_ctx; [done..|]. intros c Hc Ec.
  replace (status c) with (status d) by (by subst d). replace (priority c) with (priority d) by (by subst d).
  destruct (Z.eqb_spec (status d) THREAD_SUSPENDED) as [?|_]; [done|].
  pose proof (rep_valid _ _ _ _ Hrep _ _ Hin) as Hv.
  eapply (reach_bind _ _ X), wp_upd; [done..|]. intros m1 Hr1.
  eapply (reach_bind _ _ X), wp_find_slot; [done..|done|]. intros l1 l2 Hq.
  eapply (reach_bind _ _ X), wp_ctx; [done|apply lookup_insert_eq|]. intros c2 Hc2 Ec2.
  assert (Ep : priority c2 = priority d) by (change (priority c2) with (priority (erase c2)); by rewrite Ec2).
  rewrite Ep. eapply (reach_bind _ _ X), (wp_leave_run _ _ _ Q); [by split|done..|].
  intros s2 [Hr2 Ht2] Hoff He2 Hb2 Hm2 Ha2 Hn2. simpl in *.
  set (Q1 := <[RunQ (priority d) := rm tid (Q (RunQ (priority d)))]> Q) in *.
  set (Q2 := match queue with Some q => <[q := tid :: Q1 q]> Q1 | None => Q1 end).
  set (d2 := match queue with Some q => set_blockqueue (Some q) (set_status THREAD_SUSPENDED d)
             | None => set_status THREAD_SUSPENDED d end).
  apply (reach_bind _ _ X). apply (wp_mono _ _ _ (fun _ s3 => krep s3 Q2 (<[tid := d2]> D) /\ env s3 = env s /\
    blockInts s3 = blockInts s /\ alarmBlocked s3 = alarmBlocked s /\ needReschedule s3 = needReschedule s)).
  { unfold Q2, d2. destruct queue as [q|]; [|apply wp_ret; by split_and!].
    destruct (Hqv q eq_refl) as [Hbq Hvq]. assert (Hlq := block_q_link q Hbq).
    pose proof (rep_insert _ _ _ _ q tid [] (Q1 q) Hr2 Hvq eq_refl) as Hr3. rewrite Hlq in Hr3.
    specialize (Hr3 Hoff ltac:(rewrite lookup_insert_eq; eauto)).
    destruct (rep_lookup_Some _ _ _ _ Hr2 tid _ ltac:(apply lookup_insert_eq)) as (c3 & Hc3 & _).
    apply wp_bind, wp_load_head; [done|]. eapply wp_bind, wp_store; [by apply next_ok|].
    eapply wp_bind, (wp_store _ _ (Head q)); [simpl; by rewrite Hvq|].
    rewrite (rep_head _ _ _ _ Hr2). eapply wp_upd; [exact Hr3|apply lookup_insert_eq|done..|].
    intros m4 Hr4. rewrite insert_insert_eq in Hr4. split_and!; try (by destruct s2). split; [done|].
    apply tails_insert_block; [done|]. by intros p ->. }
  intros _ s3 ([Hr3 Ht3] & He3 & Hb3 & Ha3 & Hn3).
  assert (Ecl : clock s3 = clock s /\ currentThread s3 = currentThread s) by (unfold env in He3; by simplify_eq).
  destruct Ecl as [Ecl Ecu].
  assert (HQ2a : Q2 AlarmList = Q AlarmList).
  { unfold Q2, Q1. destruct queue as [q|]; [|done]. destruct (Hqv q eq_refl) as [? _].
    by rewrite fn_lookup_insert_ne by (by intros ->). }
  apply (reach_bind _ _ X). apply (wp_mono _ _ _ (fun _ s4 => krep s4 (suspendQ D (timeout + clock s) tid d queue timeout Q)
     (<[tid := suspendC (timeout + clock s) queue timeout d]> D) /\ env s4 = env s3 /\
    blockInts s4 = blockInts s /\ alarmBlocked s4 = alarmBlocked s /\ needReschedule s4 = needReschedule s)).
  { unfold suspendQ, suspendC. fold Q1 Q2 d2. apply wp_when; intros Et; rewrite Et; [|by split_and!].
    eapply wp_addToAlarmQ; [done|apply lookup_insert_eq|by rewrite HQ2a|lia|].
    intros m5 h5 ma Hr5 _. rewrite insert_insert_eq, Ecl, HQ2a in Hr5.
    rewrite (alarm_ins_ext _ D) in Hr5 by (intros t ?; apply time_of_insert; by intros ->).
    split; [split; [done|by apply tails_insert_block]|]. by destruct s3. }
  intros _ s4 (Hk4 & He4 & Hb4 & Ha4 & Hn4). apply (reach_bind _ _ X), wp_gets.
  assert (currentThread s4 = currentThread s) as -> by (rewrite <- Ecu; unfold env in He4; by simplify_eq).
  apply HP; [done|congruence|done..].
Qed.

Lemma wp_suspendOnQThread G R s Q D tid d queue timeout (from_wait : bool) (P : unit -> sched -> Prop) :
  krep s Q D -> D !! tid = Some d -> status d <> THREAD_SUSPENDED -> tid ∈ Q (RunQ (priority d)) ->
  0 < blockInts s -> tid ∉ Q AlarmList ->
  (forall q, queue = Some q -> block_q q = true /\ valid_q q = true) ->
  (forall s', krep s' (suspendQ D (timeout + clock s) tid d queue timeout Q)
       (<[tid := suspendC (timeout + clock s) queue timeout d]> D) ->
     env s' = env s -> blockInts s' = blockInts s -> needReschedule s' = needReschedule s ->
     alarmBlocked s' = alarmBlocked s ->
     wp G R (when (tid =? currentThread s) (if from_wait then reschedule_from_wait else reschedule)) P s') ->
  wp G R (suspendOnQThread tid queue timeout from_wait) P s.
Proof. apply suspend_reaches. Qed.

(** ** The scheduler invariant *)

Definition alarm_le (D : gmap Z ctx) (a b : Z) : Prop := time_of D a <= time_of D b.

Record inv (Q : qref -> list Z) (D : gmap Z ctx) : Prop := {
  i_run t p : t ∈ Q (RunQ p) <->
    exists d, D !! t = Some d /\ status d = THREAD_RUNNING /\ priority d = p;
  i_prio t d : D !! t = Some d -> 1 <= priority d <= java_lang_Thread_MAX_PRIORITY;
  i_block q t : block_q q = true -> t ∈ Q q ->
    exists d, D !! t = Some d /\ status d = THREAD_SUSPENDED /\ blockqueue d = Some q;
  i_bq t d q : D !! t = Some d -> blockqueue d = Some q -> block_q q = true /\ valid_q q = true;
  i_alarm t : t ∈ Q AlarmList -> exists d, D !! t = Some d /\
    status d = THREAD_SUSPENDED /\ has_flag THREAD_FLAGS_ALARM d = true;
  i_sorted : StronglySorted (alarm_le D) (Q AlarmList) }.

(** The queues are linked correctly, every thread is where its status says,
    the current thread exists, descriptors are within the tables, and
    [currentThreadID] is the slot of the current thread. *)
Definition kinv (s : sched) : Prop :=
  (exists Q D, krep s Q D /\ inv Q D /\ is_Some (D !! currentThread s)) /\ maxFd s < FD_SETSIZE /\
  PrivateInfo <$> threadContext s !! currentThread s = Some (currentThreadID s).

Lemma StronglySorted_rm r tid (l : list Z) : StronglySorted r l -> StronglySorted r (rm tid l).
Proof.
  induction 1 as [|a l Hl IH Ha]; [constructor|]. unfold rm. destruct (decide (a = tid)) as [->|].
  - by rewrite filter_cons_False by naive_solver.
  - rewrite filter_cons_True by done. constructor; [done|].
    rewrite Forall_forall in Ha |- *. intros b [? ?]%elem_of_rm. by apply Ha.
Qed.

Lemma time_of_upd D tid d g t : D !! tid = Some d -> time (g d) = time d ->
  time_of (<[tid := g d]> D) t = time_of D t.
Proof.
  intros Hd Ht. unfold time_of. destruct (decide (t = tid)) as [->|].
  - rewrite lookup_insert_eq, Hd. exact Ht.
  - by rewrite lookup_insert_ne.
Qed.

Section Invariant.
Context (Q : qref -> list Z) (D : gmap Z ctx).
Hypothesis (Hinv : inv Q D).

Lemma inv_resumable m h tid d : rep m h Q D -> D !! tid = Some d -> status d <> THREAD_RUNNING ->
  resumable Q tid d.
Proof.
  intros Hrep Hd Hst. split.
  - simpl. pose proof (i_prio _ _ Hinv _ _ Hd). lia.
  - intros q. apply (i_bq _ _ Hinv _ _ _ Hd).
  - intros q Hlk Ht. destruct (block_q q) eqn:Hb.
    + destruct (i_block _ _ Hinv q tid Hb Ht) as (? & ? & ? & ?). congruence.
    + destruct q; try done. apply (i_run _ _ Hinv) in Ht as (? & ? & ? & ?). congruence.
Qed.

(** Updates of the flags that keep a pending alarm. *)
Lemma inv_upd tid d g : D !! tid = Some d ->
  status (g d) = status d -> priority (g d) = priority d -> blockqueue (g d) = blockqueue d ->
  time (g d) = time d ->
  (has_flag THREAD_FLAGS_ALARM d = true -> has_flag THREAD_FLAGS_ALARM (g d) = true) ->
  inv Q (<[tid := g d]> D).
Proof.
  intros Hd Es Ep Eb Et Ef.
  assert (Hl : forall t d', D !! t = Some d' -> exists d'', <[tid := g d]> D !! t = Some d'' /\
    status d'' = status d' /\ priority d'' = priority d' /\ blockqueue d'' = blockqueue d' /\
    (has_flag THREAD_FLAGS_ALARM d' = true -> has_flag THREAD_FLAGS_ALARM d'' = true)).
  { intros t d' Hd'. destruct (decide (t = tid)) as [->|].
    - assert (d' = d) as -> by congruence. exists (g d). by rewrite lookup_insert_eq.
    - exists d'. by rewrite lookup_insert_ne. }
  assert (Hl' : forall t d'', <[tid := g d]> D !! t = Some d'' -> exists d', D !! t = Some d' /\
    status d'' = status d' /\ priority d'' = priority d' /\ blockqueue d'' = blockqueue d').
  { intros t d'' Hd'. destruct (decide (t = tid)) as [->|].
    - rewrite lookup_insert_eq in Hd'. simplify_eq. eauto.
    - rewrite lookup_insert_ne in Hd' by done. eauto 6. }
  split.
  - intros t p. rewrite (i_run _ _ Hinv). split.
    + intros (d' & (d'' & ? & ? & ? & _)%Hl & ? & ?). exists d''. split_and!; congruence.
    + intros (d'' & (d' & ? & ? & ? & _)%Hl' & ? & ?). exists d'. split_and!; congruence.
  - intros t d'' (d' & Hd' & _ & -> & _)%Hl'. by eapply (i_prio _ _ Hinv).
  - intros q t Hq Ht. destruct (i_block _ _ Hinv q t Hq Ht) as (d' & (d'' & ? & ? & _ & ? & _)%Hl & ? & ?).
    exists d''. split_and!; congruence.
  - intros t d'' q (d' & Hd' & _ & _ & ->)%Hl'. by eapply (i_bq _ _ Hinv).
  - intros t Ht. destruct (i_alarm _ _ Hinv t Ht) as (d' & (d'' & ? & ? & _ & _ & Hf)%Hl & ? & Hfl).
    exists d''. split_and!; [done|congruence|auto].
  - eapply StronglySorted_ext; [|apply (i_sorted _ _ Hinv)]. intros a b _ _.
    unfold alarm_le. by rewrite !(time_of_upd D tid d g).
Qed.

Lemma inv_unalarm tid : inv (<[AlarmList := rm tid (Q AlarmList)]> Q) D.
Proof.
  destruct Hinv as [Hr Hp Hb Hq Ha Hs]. split; [|done| |done| |].
  - intros t p. rewrite fn_lookup_insert_ne by done. apply Hr.
  - intros q t Hbq. rewrite fn_lookup_insert_ne by (by intros <-). by apply Hb.
  - intros t. rewrite fn_lookup_insert, elem_of_rm. intros [? _]. by apply Ha.
  - rewrite fn_lookup_insert. by apply StronglySorted_rm.
Qed.

End Invariant.

Section InvariantOps.
Context (Q : qref -> list Z) (D : gmap Z ctx) (tid : Z) (d : ctx).
Hypothesis (Hinv : inv Q D) (Hd : D !! tid = Some d).

Lemma resumeQ_run p : blockqueue d <> Some (RunQ p) ->
  resumeQ tid d Q (RunQ p) = Q (RunQ p) ++ (if decide (p = priority d) then [tid] else []).
Proof.
  intros Hp. assert (Hbq : forall q, blockqueue d = Some q -> block_q q = true).
  { intros q Hq. by apply (i_bq _ _ Hinv _ _ _ Hd). }
  unfold resumeQ. set (Q1 := if has_flag _ d then _ else Q).
  assert (HQ1 : forall p, Q1 (RunQ p) = Q (RunQ p)) by (intros; unfold Q1; by destruct (has_flag _ d)).
  assert (HQ2 : forall p, match blockqueue d with Some q => <[q := rm tid (Q1 q)]> Q1 | None => Q1 end (RunQ p) = Q (RunQ p)).
  { intros p'. destruct (blockqueue d) as [q|]; [|apply HQ1].
    specialize (Hbq q eq_refl). rewrite fn_lookup_insert_ne by (by intros ->). apply HQ1. }
  destruct (decide (p = priority d)) as [->|].
  - by rewrite fn_lookup_insert, HQ2.
  - rewrite fn_lookup_insert_ne by naive_solver. by rewrite HQ2, app_nil_r.
Qed.

Lemma resumeQ_other q : (forall p, q <> RunQ p) ->
  resumeQ tid d Q q = (if decide (q = AlarmList)
    then (if has_flag THREAD_FLAGS_ALARM d then rm tid (Q AlarmList) else Q AlarmList)
    else if decide (blockqueue d = Some q) then rm tid (Q q) else Q q).
Proof.
  intros Hq. unfold resumeQ. rewrite fn_lookup_insert_ne by (intros E; by apply (Hq (priority d))).
  destruct (decide (q = AlarmList)) as [->|Hne].
  - destruct (blockqueue d) as [q|] eqn:Eq.
    + destruct (i_bq _ _ Hinv _ _ _ Hd Eq) as [? _]. rewrite fn_lookup_insert_ne by (by intros ->).
      destruct (has_flag _ d); [by rewrite fn_lookup_insert|done].
    + destruct (has_flag _ d); [by rewrite fn_lookup_insert|done].
  - destruct (blockqueue d) as [q'|] eqn:Eq.
    + destruct (decide (Some q' = Some q)) as [[= ->]|].
      * rewrite fn_lookup_insert. destruct (has_flag _ d); [by rewrite fn_lookup_insert_ne|done].
      * rewrite fn_lookup_insert_ne by congruence. destruct (has_flag _ d); [by rewrite fn_lookup_insert_ne|done].
    + rewrite decide_False by done. destruct (has_flag _ d); [by rewrite fn_lookup_insert_ne|done].
Qed.

(** Lookups after the thread changed. *)
Lemma upd_other d' t e : t <> tid -> <[tid := d']> D !! t = Some e <-> D !! t = Some e.
Proof. intros. by rewrite lookup_insert_ne. Qed.

Lemma inv_resume : status d <> THREAD_RUNNING -> resumable Q tid d ->
  inv (resumeQ tid d Q) (<[tid := resumeC d]> D).
Proof.
  intros Hst [_ Hbq Hin].
  assert (Hnr : forall p, tid ∉ Q (RunQ p)).
  { intros p (d' & ? & ? & ?)%(i_run _ _ Hinv). congruence. }
  assert (Hpr : priority (resumeC d) = priority d) by apply resumeC_priority.
  assert (Htm : time (resumeC d) = time d) by (unfold resumeC; by destruct (has_flag _ d)).
  assert (Hnorun : forall p, blockqueue d <> Some (RunQ p)).
  { intros p E. by destruct (Hbq _ E). }
  assert (Hal : forall t, t ∈ resumeQ tid d Q AlarmList -> t ∈ Q AlarmList /\ t <> tid).
  { intros t. rewrite resumeQ_other by done. rewrite decide_True by done. destruct (has_flag _ d) eqn:Ef.
    - by rewrite elem_of_rm.
    - intros Ht. split; [done|]. intros ->. destruct (i_alarm _ _ Hinv tid Ht) as (? & ? & _ & ?). congruence. }
  split.
  - intros t p. rewrite resumeQ_run by done. rewrite elem_of_app, (i_run _ _ Hinv).
    destruct (decide (t = tid)) as [->|].
    + setoid_rewrite lookup_insert_eq. split.
      * intros [Ht|Ht]; [by apply (i_run _ _ Hinv), Hnr in Ht|]. exists (resumeC d).
        rewrite Hpr. destruct (decide (p = priority d)) as [->|]; [done|by apply elem_of_nil in Ht].
      * intros (d' & [= <-] & _ & Hp). right. rewrite Hpr in Hp. rewrite decide_True by done. by left.
    + setoid_rewrite upd_other; [|done]. split; [|by left]. intros [?|Ht]; [done|].
      destruct (decide (p = priority d)); [|by apply elem_of_nil in Ht]. by apply list_elem_of_singleton in Ht.
  - intros t d'. destruct (decide (t = tid)) as [->|].
    + rewrite lookup_insert_eq. intros [= <-]. rewrite Hpr. by apply (i_prio _ _ Hinv tid).
    + rewrite upd_other by done. apply (i_prio _ _ Hinv).
  - intros q t Hq. rewrite resumeQ_other by (by intros p ->). rewrite decide_False by (by intros ->).
    intros Ht. assert (Ht' : t ∈ Q q /\ t <> tid).
    { destruct (decide (blockqueue d = Some q)); [by apply elem_of_rm|]. split; [done|]. intros ->.
      by apply n, Hin; [apply block_q_link|]. }
    destruct Ht' as [Ht' ?]. destruct (i_block _ _ Hinv q t Hq Ht') as (d' & ? & ?).
    exists d'. by rewrite upd_other.
  - intros t d' q. destruct (decide (t = tid)) as [->|].
    + rewrite lookup_insert_eq. intros [= <-]. by unfold resumeC.
    + rewrite upd_other by done. apply (i_bq _ _ Hinv).
  - intros t [Ht ?]%Hal. destruct (i_alarm _ _ Hinv t Ht) as (d' & ? & ?). exists d'. by rewrite upd_other.
  - assert (Hs : StronglySorted (alarm_le D) (resumeQ tid d Q AlarmList)).
    { rewrite resumeQ_other by done. rewrite decide_True by done. pose proof (i_sorted _ _ Hinv).
      destruct (has_flag _ d); [by apply StronglySorted_rm|done]. }
    eapply StronglySorted_ext; [|done]. intros a b _ _. unfold alarm_le. by rewrite !(time_of_upd D tid d resumeC).
Qed.

Lemma StronglySorted_alarm_ins D' t0 l : StronglySorted (alarm_le D') l -> time_of D' tid = t0 ->
  StronglySorted (alarm_le D') (alarm_ins D' t0 tid l).
Proof.
  intros Hs Ht. induction Hs as [|a l Hl IH Ha]; simpl; [by repeat constructor|].
  destruct (Z.ltb_spec t0 (time_of D' a)).
  - constructor; [by constructor|]. constructor; [unfold alarm_le; lia|].
    eapply Forall_impl; [done|]. unfold alarm_le. intros; simpl in *. lia.
  - constructor; [done|]. destruct (alarm_ins_split D' t0 tid l) as (l1 & l2 & -> & -> & _).
    rewrite Forall_app in Ha |- *. destruct Ha. split; [done|]. constructor; [unfold alarm_le; lia|done].
Qed.

Lemma elem_of_alarm_ins D' t0 l t : t ∈ alarm_ins D' t0 tid l <-> t = tid \/ t ∈ l.
Proof.
  destruct (alarm_ins_split D' t0 tid l) as (l1 & l2 & -> & -> & _).
  rewrite !elem_of_app, elem_of_cons. tauto.
Qed.

End InvariantOps.

Lemma has_flag_testbit k c : 0 <= k -> has_flag (2 ^ k) c = Z.testbit (flags c) k.
Proof.
  intros Hk. unfold has_flag. destruct (Z.testbit (flags c) k) eqn:E.
  - apply negb_true_iff, Z.eqb_neq. intros H0.
    assert (Hb : Z.testbit (Z.land (flags c) (2 ^ k)) k = true) by (rewrite Z.land_spec, E, Z.pow2_bits_true; done).
    rewrite H0, Z.bits_0 in Hb. done.
  - apply negb_false_iff, Z.eqb_eq. apply Z.bits_inj'. intros n Hn. rewrite Z.land_spec, Z.bits_0.
    destruct (decide (n = k)) as [->|]; [by rewrite E|]. rewrite Z.pow2_bits_false by done. apply andb_false_r.
Qed.

Lemma alarm_bit c : has_flag THREAD_FLAGS_ALARM c = Z.testbit (flags c) 2.
Proof. by apply (has_flag_testbit 2). Qed.

Lemma alarm_set t0 c : has_flag THREAD_FLAGS_ALARM (alarmC t0 c) = true.
Proof. rewrite alarm_bit. cbn [alarmC flags set_flags set_time]. rewrite Z.lor_spec. apply orb_true_r. Qed.

Lemma alarm_lor f c : has_flag THREAD_FLAGS_ALARM c = true ->
  has_flag THREAD_FLAGS_ALARM (set_flags (Z.lor (flags c) f) c) = true.
Proof. rewrite !alarm_bit. cbn [flags set_flags]. rewrite Z.lor_spec. by intros ->. Qed.

(** [&= ~f] keeps the alarm flag unless [f] has it. *)
Lemma alarm_clear f c : Z.testbit f 2 = false -> has_flag THREAD_FLAGS_ALARM c = true ->
  has_flag THREAD_FLAGS_ALARM (clear_flags f c) = true.
Proof.
  rewrite !alarm_bit. intros Hf Hc. cbn [clear_flags flags set_flags].
  by rewrite Z.land_spec, Z.lxor_spec, Hf, Hc.
Qed.

Section InvariantSuspend.
Context (Q : qref -> list Z) (D : gmap Z ctx) (tid : Z) (d : ctx).
Hypothesis (Hinv : inv Q D) (Hd : D !! tid = Some d).
Context (t0 : Z) (queue : option qref) (timeout : Z).
Hypothesis (Hqv : forall q, queue = Some q -> block_q q = true /\ valid_q q = true).

Abbreviation Q' := (suspendQ D t0 tid d queue timeout Q).
Abbreviation d' := (suspendC t0 queue timeout d).

Lemma suspendQ_run p : Q' (RunQ p) = if decide (p = priority d) then rm tid (Q (RunQ p)) else Q (RunQ p).
Proof.
  unfold suspendQ. assert (Hal : forall Q2 : qref -> list Z,
    (if NOTIMEOUT <? timeout then <[AlarmList := alarm_ins D t0 tid (Q AlarmList)]> Q2 else Q2) (RunQ p) = Q2 (RunQ p))
    by (intros Q2; by destruct (_ <? _)). rewrite Hal.
  assert (Hq : forall Q1 : qref -> list Z, match queue with Some q => <[q := tid :: Q1 q]> Q1 | None => Q1 end (RunQ p) = Q1 (RunQ p)).
  { intros Q1. destruct queue as [q|]; [|done]. destruct (Hqv q eq_refl) as [? _].
    by rewrite fn_lookup_insert_ne by (by intros ->). }
  rewrite Hq. destruct (decide (p = priority d)) as [->|]; [by rewrite fn_lookup_insert|].
  by rewrite fn_lookup_insert_ne by naive_solver.
Qed.

Lemma suspendQ_block q : block_q q = true ->
  Q' q = if decide (queue = Some q) then tid :: Q q else Q q.
Proof.
  intros Hb. unfold suspendQ. assert (Hal : forall Q2 : qref -> list Z,
    (if NOTIMEOUT <? timeout then <[AlarmList := alarm_ins D t0 tid (Q AlarmList)]> Q2 else Q2) q = Q2 q).
  { intros Q2. destruct (_ <? _); [|done]. by rewrite fn_lookup_insert_ne by (by intros <-). }
  rewrite Hal. destruct queue as [q'|].
  - destruct (decide (Some q' = Some q)) as [[= ->]|].
    + rewrite fn_lookup_insert, fn_lookup_insert_ne; [done|by intros <-].
    + by rewrite !fn_lookup_insert_ne by (naive_solver || by intros <-).
  - rewrite fn_lookup_insert_ne by (by intros <-). by rewrite decide_False.
Qed.

Lemma suspendQ_alarm :
  Q' AlarmList = if NOTIMEOUT <? timeout then alarm_ins D t0 tid (Q AlarmList) else Q AlarmList.
Proof.
  unfold suspendQ. destruct (_ <? _); [by rewrite fn_lookup_insert|].
  destruct queue as [q|]; [|by rewrite fn_lookup_insert_ne].
  destruct (Hqv q eq_refl) as [? _]. by rewrite !fn_lookup_insert_ne by (done || by intros ->).
Qed.

Lemma suspendC_fields : status d' = THREAD_SUSPENDED /\ priority d' = priority d /\
  blockqueue d' = (match queue with Some q => Some q | None => blockqueue d end).
Proof. unfold suspendC. destruct (_ <? _), queue; done. Qed.

Lemma inv_suspend : status d = THREAD_RUNNING -> inv Q' (<[tid := d']> D).
Proof.
  intros Hst. destruct suspendC_fields as (Es & Ep & Eb).
  assert (Hnb : forall q, block_q q = true -> tid ∉ Q q).
  { intros q Hq Ht. destruct (i_block _ _ Hinv q tid Hq Ht) as (? & ? & ? & _). congruence. }
  assert (Hna : tid ∉ Q AlarmList).
  { intros Ht. destruct (i_alarm _ _ Hinv tid Ht) as (? & ? & ? & _). congruence. }
  split.
  - intros t p. rewrite suspendQ_run. destruct (decide (t = tid)) as [->|].
    + setoid_rewrite lookup_insert_eq. split.
      * destruct (decide (p = priority d)) as [->|]; [rewrite elem_of_rm; tauto|].
        intros (e & ? & ? & ?)%(i_run _ _ Hinv). congruence.
      * intros (e & [= <-] & E & _). rewrite Es in E. done.
    + setoid_rewrite lookup_insert_ne; [|done]. rewrite <- (i_run _ _ Hinv).
      destruct (decide _); [rewrite elem_of_rm|]; naive_solver.
  - intros t e. destruct (decide (t = tid)) as [->|].
    + rewrite lookup_insert_eq. intros [= <-]. rewrite Ep. by apply (i_prio _ _ Hinv tid).
    + rewrite lookup_insert_ne by done. apply (i_prio _ _ Hinv).
  - intros q t Hq. rewrite suspendQ_block by done. destruct (decide (t = tid)) as [->|].
    + intros Ht. destruct (decide (queue = Some q)) as [E|]; [|by apply Hnb in Ht].
      exists d'. split_and!; [by rewrite lookup_insert_eq|done|]. by rewrite Eb, E.
    + intros Ht. assert (Ht' : t ∈ Q q).
      { destruct (decide (queue = Some q)); [|done]. by apply elem_of_cons in Ht as [?|?]. }
      destruct (i_block _ _ Hinv q t Hq Ht') as (e & ? & ?). exists e. by rewrite lookup_insert_ne.
  - intros t e q. destruct (decide (t = tid)) as [->|].
    + rewrite lookup_insert_eq. intros [= <-]. rewrite Eb. destruct queue; [auto|].
      by apply (i_bq _ _ Hinv tid).
    + rewrite lookup_insert_ne by done. apply (i_bq _ _ Hinv).
  - intros t. rewrite suspendQ_alarm. intros Ht. destruct (decide (t = tid)) as [->|].
    + exists d'. rewrite lookup_insert_eq. split_and!; [done|done|]. unfold suspendC in *.
      destruct (_ <? _); [apply alarm_set|destruct (Hna Ht)].
    + assert (Ht' : t ∈ Q AlarmList).
      { destruct (_ <? _); [|done]. by apply elem_of_alarm_ins in Ht as [?|?]. }
      destruct (i_alarm _ _ Hinv t Ht') as (e & ? & ?). exists e. by rewrite lookup_insert_ne.
  - assert (Hs : StronglySorted (alarm_le (<[tid := d']> D)) (Q AlarmList)).
    { eapply StronglySorted_ext; [|apply (i_sorted _ _ Hinv)]. intros a b Ha Hb.
      unfold alarm_le. rewrite !time_of_insert; [done|by intros ->..]. }
    rewrite suspendQ_alarm. destruct (NOTIMEOUT <? timeout) eqn:Et; [|done].
    rewrite (alarm_ins_ext _ (<[tid := d']> D)).
    + apply StronglySorted_alarm_ins; [done|]. unfold time_of. rewrite lookup_insert_eq.
      unfold suspendC. by rewrite Et.
    + intros t Ht. symmetry. apply time_of_insert. by intros ->.
Qed.

End InvariantSuspend.
