(* ===== verification/SchedSafety.v ===== *)
(** * Safety of the scheduler

    The scheduler operations of [Threads] keep the scheduler invariant [kinv]
    across context switches, signals and external events, and never follow a
    bad pointer, fail an assertion or run out of fuel. *)

From stdpp Require Import functions.
From Stdlib Require Import Sorted.
From S2P Require Import Prelude Threads.

(** ** What other threads may do while a thread is switched out

    Contexts and their slots stay, and events and polls are only consumed. *)
Definition ids (s : sched) : gmap Z Z := PrivateInfo <$> threadContext s.

Definition evolve (s s' : sched) : Prop :=
  ids s ⊆ ids s' /\
  (length (events s') <= length (events s))%nat /\ (length (polls s') <= length (polls s))%nat.

#[export] Instance evolve_preorder : PreOrder evolve.
Proof. split; [by intros x; repeat split|]. intros x y z (? & ? & ?) (? & ? & ?). split_and!; [by etrans|lia|lia]. Qed.

Abbreviation kwp := (wp kinv evolve).

Definition kat (s : sched) (Q : qref -> list Z) (D : gmap Z ctx) : Prop :=
  krep s Q D /\ inv Q D /\ is_Some (D !! currentThread s).

(** The parts of the state [kinv] depends on. *)
Definition view (s : sched) := (threadContext s, qhead s, threadQtail s, currentThread s, maxFd s, currentThreadID s).

Lemma kat_view s s' Q D : view s' = view s -> kat s Q D -> kat s' Q D.
Proof. unfold view, kat, krep. intros [= -> -> -> -> _ _]. done. Qed.

Lemma kinv_view s s' : view s' = view s -> kinv s -> kinv s'.
Proof.
  intros E (Hk & Hrest). split; [destruct Hk as (Q & D & Hk); exists Q, D; by eapply kat_view|].
  unfold view in E. by injection E as -> _ _ -> -> ->.
Qed.

Lemma rep_ids m h Q D : rep m h Q D -> PrivateInfo <$> m = PrivateInfo <$> D.
Proof.
  intros Hr. rewrite <- (rep_data _ _ _ _ Hr), <- map_fmap_compose. apply map_fmap_ext. by intros.
Qed.

Lemma ids_insert (D : gmap Z ctx) tid d d' : D !! tid = Some d -> PrivateInfo d' = PrivateInfo d ->
  PrivateInfo <$> <[tid := d']> D = PrivateInfo <$> D.
Proof.
  intros Hd E. rewrite fmap_insert. apply insert_id. rewrite lookup_fmap, Hd. simpl. by rewrite E.
Qed.

Lemma ids_upd s s' Q Q' D tid d d' : rep (threadContext s) (qhead s) Q D ->
  rep (threadContext s') (qhead s') Q' (<[tid := d']> D) -> D !! tid = Some d ->
  PrivateInfo d' = PrivateInfo d -> ids s' = ids s.
Proof.
  intros Hr Hr' Hd E. unfold ids. rewrite (rep_ids _ _ _ _ Hr), (rep_ids _ _ _ _ Hr').
  by eapply ids_insert.
Qed.

Lemma ids_same s s' Q Q' D : rep (threadContext s) (qhead s) Q D ->
  rep (threadContext s') (qhead s') Q' D -> ids s' = ids s.
Proof. intros Hr Hr'. unfold ids. by rewrite (rep_ids _ _ _ _ Hr), (rep_ids _ _ _ _ Hr'). Qed.

Lemma resumeC_id d : PrivateInfo (resumeC d) = PrivateInfo d.
Proof. unfold resumeC. by destruct (has_flag _ d). Qed.

Lemma suspendC_id t0 queue timeout d : PrivateInfo (suspendC t0 queue timeout d) = PrivateInfo d.
Proof. unfold suspendC. by destruct queue, (_ <? _). Qed.

Lemma ids_dom s s' t : ids s ⊆ ids s' -> is_Some (threadContext s !! t) -> is_Some (threadContext s' !! t).
Proof.
  intros Hs [c Hc]. assert (Hi : ids s !! t = Some (PrivateInfo c)) by (unfold ids; by rewrite lookup_fmap, Hc).
  eapply lookup_weaken in Hi; [|done]. unfold ids in Hi. rewrite lookup_fmap in Hi.
  destruct (threadContext s' !! t); [eauto|done].
Qed.

(** A step without a switch. *)
Definition quiet (s s' : sched) : Prop :=
  env s' = env s /\ blockInts s' = blockInts s /\ ids s' = ids s.

#[export] Instance quiet_preorder : PreOrder quiet.
Proof. split; [by split|]. intros x y z (? & ? & ?) (? & ? & ?). split_and!; congruence. Qed.

Lemma env_events s s' : env s' = env s -> events s' = events s.
Proof. unfold env. by intros [=]. Qed.

Lemma env_polls s s' : env s' = env s -> polls s' = polls s.
Proof. unfold env. by intros [=]. Qed.

Lemma env_current s s' : env s' = env s -> currentThread s' = currentThread s.
Proof. unfold env. by intros [=]. Qed.

Lemma env_maxFd s s' : env s' = env s -> maxFd s' = maxFd s.
Proof. unfold env. by intros [=]. Qed.

Lemma quiet_evolve s s' : quiet s s' -> evolve s s'.
Proof.
  intros (He & _ & Hd). split; [by rewrite Hd|]. rewrite (env_events _ _ He), (env_polls _ _ He). lia.
Qed.

Lemma kinv_intro s s' Q D : kinv s -> krep s' Q D -> inv Q D -> env s' = env s -> ids s' = ids s -> kinv s'.
Proof.
  intros (_ & Hfd & Hid) Hk Hi He Hids.
  assert (Hid' : ids s' !! currentThread s' = Some (currentThreadID s')).
  { unfold env in He. injection He as -> -> _ _ _ _ _ _ _ _ _ _ _ _ _. rewrite Hids.
    unfold ids. by rewrite lookup_fmap. }
  split_and!; [|by rewrite (env_maxFd _ _ He)|by rewrite <- lookup_fmap].
  exists Q, D. split_and!; [done..|]. destruct Hk as [Hr _]. unfold ids in Hid'.
  rewrite (rep_ids _ _ _ _ Hr), lookup_fmap in Hid'. destruct (D !! currentThread s'); [eauto|done].
Qed.

(** An operation that went on in the same thread. *)
Definition rejoin (s s' : sched) : Prop := evolve s s' /\ currentThread s' = currentThread s.

#[export] Instance rejoin_preorder : PreOrder rejoin.
Proof. split; [by split|]. intros x y z [? ?] [? ?]. split; [by etrans|congruence]. Qed.

Lemma quiet_rejoin s s' : quiet s s' -> rejoin s s'.
Proof. intros Hq. split; [by apply quiet_evolve|]. destruct Hq as (He & _). by apply env_current. Qed.

Section Safety.
Context (G : sched -> Prop) (R : sched -> sched -> Prop).

Lemma wp_intsRestore_masked resched (P : unit -> sched -> Prop) s :
  1 < blockInts s -> P tt (set_blockInts (blockInts s - 1) s) -> wp G R (intsRestore resched) P s.
Proof.
  intros Hb HP. apply wp_bind, wp_gets, wp_bind, wp_gets, wp_bind.
  destruct (Z.eqb_spec (blockInts s) 1); [lia|]. apply wp_ret. exact HP.
Qed.

(** With interrupts off, [iresumeThread] only edits the queues. *)
Lemma wp_iresume_blocked s Q D tid d dc resched (P : unit -> sched -> Prop) :
  kat s Q D -> D !! tid = Some d -> D !! currentThread s = Some dc -> 1 <= blockInts s ->
  status d <> THREAD_RUNNING ->
  (forall s', quiet s s' -> kat s' (resumeQ tid d Q) (<[tid := resumeC d]> D) ->
     malarm s' = malarm s -> alarmBlocked s' = alarmBlocked s ->
     needReschedule s' = needReschedule s
       || (bool_decide (Q (RunQ (priority d)) = []) && (priority dc <? priority d)) -> P tt s') ->
  wp G R (iresumeThread resched tid) P s.
Proof.
  intros (Hk & Hi & _) Hd Hdc Hb Hst HP.
  assert (Hrs : resumable Q tid d) by (eapply inv_resumable; [|apply Hk|..]; done).
  eapply wp_iresumeThread; [done..|lia|].
  intros s' Hk' He' Hb' Hm Ha Hn. apply wp_intsRestore_masked; [lia|]. apply HP; [| |by destruct s'..].
  - split_and!; [by destruct s'|simpl; lia|]. destruct Hk as [Hr _], Hk' as [Hr' _].
    eapply ids_upd; [done..|apply resumeC_id].
  - split_and!; [done|by eapply inv_resume|].
    simpl. rewrite (env_current _ _ He'). apply lookup_insert_is_Some'. eauto.
Qed.

Lemma wp_iresume_masked s Q D tid d resched (P : unit -> sched -> Prop) :
  kat s Q D -> D !! tid = Some d -> 1 <= blockInts s ->
  (status d = THREAD_RUNNING -> forall s', view s' = view s -> quiet s s' -> P tt s') ->
  (status d <> THREAD_RUNNING -> forall s', quiet s s' ->
     kat s' (resumeQ tid d Q) (<[tid := resumeC d]> D) -> P tt s') ->
  wp G R (iresumeThread resched tid) P s.
Proof.
  intros Hka Hd Hb Hrun Hsus. destruct (decide (status d = THREAD_RUNNING)) as [Hst|Hst].
  - destruct Hka as ([Hr Ht] & Hi & _). apply wp_bind, wp_modify.
    eapply wp_bind, (wp_ctx _ _ _ Q D); [done..|]. intros c _ Ec.
    replace (status c) with (status d) by (by subst d). rewrite Hst. simpl. apply wp_bind, wp_ret.
    apply wp_intsRestore_masked; [simpl; lia|].
    apply Hrun; [done|by destruct s|split_and!; simpl; [done|lia|done]].
  - pose proof Hka as (_ & _ & [dc Hc]). eapply wp_iresume_blocked; [done..|]. intros s' ? ? _ _ _. by apply Hsus.
Qed.

End Safety.

(** ** Waking threads *)

Section Wake.
Context (G : sched -> Prop) (R : sched -> sched -> Prop).

Lemma kat_kinv s s' Q D : kat s' Q D -> quiet s s' -> kinv s -> kinv s'.
Proof. intros (Hk & Hi & _) (He & _ & Hids) Hki. by eapply kinv_intro. Qed.

Lemma wp_upd_flags s Q D tid d g (P : unit -> sched -> Prop) :
  kat s Q D -> D !! tid = Some d ->
  (forall f c, get_next f (g c) = get_next f c) -> (forall c, erase (g c) = g (erase c)) ->
  status (g d) = status d -> priority (g d) = priority d -> blockqueue (g d) = blockqueue d ->
  time (g d) = time d -> PrivateInfo (g d) = PrivateInfo d ->
  (has_flag THREAD_FLAGS_ALARM d = true -> has_flag THREAD_FLAGS_ALARM (g d) = true) ->
  (forall s', kat s' Q (<[tid := g d]> D) -> quiet s s' -> needReschedule s' = needReschedule s ->
     P tt s') ->
  wp G R (upd_ctx tid g) P s.
Proof.
  intros ([Hr Ht] & Hi & Hc) Hd Hn He E1 E2 E3 E4 Eid E5 HP. eapply wp_upd; [done..|].
  intros m Hr'. apply HP; [|split_and!|]; try done.
  - split_and!; [by split|by eapply inv_upd|]. simpl. by apply lookup_insert_is_Some'; right.
  - by eapply (ids_upd s (set_threadContext m s)).
Qed.

Lemma wp_wake_queue resched q flag : block_q q = true -> forall fuel s Q D h (P : unit -> sched -> Prop),
  kat s Q D -> kinv s -> 1 <= blockInts s -> h = head (Q q) -> (length (Q q) <= fuel)%nat ->
  (forall s', kinv s' -> quiet s s' -> P tt s') ->
  wp G R (wake_queue resched fuel flag h) P s.
Proof.
  intros Hq. assert (Hlk := block_q_link q Hq).
  induction fuel as [|fuel IH]; intros s Q D h P Hk Hki Hb -> Hf HP.
  - destruct (Q q); [|simpl in Hf; lia]. apply wp_ret, HP; done.
  - destruct (Q q) as [|t l] eqn:El; simpl; [apply wp_ret, HP; done|].
    pose proof Hk as ([Hr Ht] & Hi & Hc).
    destruct (i_block _ _ Hi q t Hq ltac:(rewrite El; left)) as (d & Hd & Hst & Hbq).
    pose proof (rep_chain _ _ _ _ Hr q) as Hch. rewrite El, Hlk in Hch. destruct Hch as (_ & c & Hct & Hl).
    eapply wp_bind, wp_TCTX; [done|]. eapply wp_bind, (wp_upd_flags s Q D); [done..|apply alarm_lor|].
    intros s1 Hk1 Hq1 _. set (d1 := set_flags (Z.lor (flags d) flag) d) in *.
    apply wp_bind. eapply (wp_iresume_masked _ _ _ _ _ t d1); [done|apply lookup_insert_eq| |by simpl; rewrite Hst|].
    { destruct Hq1 as (_ & -> & _). done. }
    intros _ s2 Hq2 Hk2. assert (Hrest : resumeQ t d1 Q q = l).
    { rewrite (resumeQ_other Q (<[t := d1]> D)); [|apply Hk1|apply lookup_insert_eq|by intros p ->].
      rewrite decide_False by (by intros ->). rewrite decide_True by done.
      pose proof (rep_nodup _ _ _ _ Hr q) as Hnd. rewrite El in Hnd |- *. apply (rm_split t [] l Hnd). }
    eapply IH; [done|by eapply kat_kinv; [..|done]; [|etrans]| |rewrite Hrest|rewrite Hrest; simpl in Hf; lia|].
    + destruct Hq1 as (_ & E1 & _), Hq2 as (_ & E2 & _). lia.
    + change (nextQ c) with (get_next FQ c). destruct l; simpl in Hl; [done|]. by destruct Hl.
    + intros s' Hk' Hq'. apply HP; [done|]. by etrans; [|etrans].
Qed.

Lemma wp_wake_fd resched q flag s (P : unit -> sched -> Prop) :
  block_q q = true -> valid_q q = true -> kinv s -> 1 <= blockInts s ->
  (forall s', kinv s' -> quiet s s' -> P tt s') -> wp G R (wake_fd resched flag q) P s.
Proof.
  intros Hq Hv Hki Hb HP. pose proof Hki as [(Q & D & Hk) _]. pose proof Hk as ([Hr _] & _).
  apply wp_bind, wp_gets, wp_bind, wp_load_head; [done|].
  eapply wp_wake_queue; [done..|apply (rep_head _ _ _ _ Hr)| |done].
  eapply lseg_length; apply Hr.
Qed.

(** Emptying a block queue drops its links only. *)
Lemma wp_clear_queue q s (P : unit -> sched -> Prop) :
  block_q q = true -> valid_q q = true -> kinv s ->
  (forall s', kinv s' -> quiet s s' -> P tt s') -> wp G R (store (Head q) None) P s.
Proof.
  intros Hq Hv Hk HP. pose proof Hk as [(Q & D & (Hr & Ht) & Hi & Hc) _]. eapply wp_store; [simpl; by rewrite Hv|].
  pose proof (rep_relink _ _ _ _ Hr q [] (Q q) [] None eq_refl) as Hr'.
  apply HP; [|by split_and!]. eapply (kinv_intro s _ (<[q := []]> Q) D); [done|split| |done|done].
  - apply Hr'; [constructor| |done|done]. intros ????[]%elem_of_nil.
  - apply tails_insert_block; [done|]. by intros p ->.
  - assert (HQ : forall q', <[q := []]> Q q' = Q q' \/ <[q := []]> Q q' = []).
    { intros q'. destruct (decide (q' = q)) as [->|]; [right; by rewrite fn_lookup_insert|].
      left. by rewrite fn_lookup_insert_ne. }
    destruct Hi as [H1 H2 H3 H4 H5 H6]. split; [|done| |done| |].
    + intros t p. rewrite fn_lookup_insert_ne by (by intros ->). apply H1.
    + intros q' t Hq' Ht'. destruct (HQ q') as [E|E]; rewrite E in Ht'; [by apply H3|by apply elem_of_nil in Ht'].
    + intros t Ht'. destruct (HQ AlarmList) as [E|E]; rewrite E in Ht'; [by apply H5|by apply elem_of_nil in Ht'].
    + destruct (HQ AlarmList) as [E|E]; rewrite E; [done|constructor].
Qed.

End Wake.

(** The threads due after [t0]. *)
Definition later (D : gmap Z ctx) (t0 : Z) (l : list Z) : list Z := filter (fun t => t0 < time_of D t) l.

Lemma later_id D t0 l : Forall (fun t => t0 < time_of D t) l -> later D t0 l = l.
Proof.
  unfold later. induction 1 as [|t l Ht Hl IH]; [done|]. rewrite filter_cons_True by done. by f_equal.
Qed.

Lemma later_all D t0 l : StronglySorted (alarm_le D) l ->
  (forall t l', l = t :: l' -> t0 < time_of D t) -> later D t0 l = l.
Proof.
  intros Hs Hh. destruct Hs as [|t l Hl Ha]; [done|]. specialize (Hh t l eq_refl).
  unfold later. rewrite filter_cons_True by done. f_equal. apply later_id.
  eapply Forall_impl; [done|]. unfold alarm_le. simpl. lia.
Qed.

Lemma later_ext D D' t0 l : (forall t, t ∈ l -> time_of D t = time_of D' t) -> later D t0 l = later D' t0 l.
Proof.
  intros Hl. unfold later. induction l as [|t l IH]; [done|].
  assert (IH' : later D t0 l = later D' t0 l) by (apply IH; intros; apply Hl; by right).
  specialize (Hl t ltac:(left)). unfold later in IH'.
  destruct (decide (t0 < time_of D t)).
  - rewrite !filter_cons_True by congruence || lia. by rewrite IH'.
  - rewrite !filter_cons_False by congruence || lia. by rewrite IH'.
Qed.

(** The threads that are due, and the queues and contexts after they have been
    resumed in order: each joins the end of the run queue of its priority and
    leaves the queue it was blocked on. *)
Definition due (D : gmap Z ctx) (t0 : Z) (l : list Z) : list Z := filter (fun t => time_of D t <= t0) l.

Definition prio_of (D : gmap Z ctx) (t : Z) : Z := default 0 (priority <$> D !! t).

Definition wokenQ (D : gmap Z ctx) (t0 : Z) (Q : qref -> list Z) (q : qref) : list Z :=
  let w := due D t0 (Q AlarmList) in
  match q with
  | RunQ p => Q (RunQ p) ++ filter (fun t => prio_of D t = p) w
  | AlarmList => later D t0 (Q AlarmList)
  | LiveThreads => Q LiveThreads
  | q => filter (fun t => t ∉ w) (Q q)
  end.

Definition wokenD (w : list Z) (D : gmap Z ctx) : gmap Z ctx :=
  map_imap (fun t d => Some (if decide (t ∈ w) then resumeC d else d)) D.

(** One of [w] is better than the current thread and no better thread ran. *)
Definition preempts (Q : qref -> list Z) (D : gmap Z ctx) (cur : Z) (w : list Z) : bool :=
  existsb (fun t => bool_decide (Q (RunQ (prio_of D t)) = []) && (prio_of D cur <? prio_of D t)) w.

Lemma filter_ext_in {A} (P1 P2 : A -> Prop) `{!forall x, Decision (P1 x), !forall x, Decision (P2 x)} (l : list A) :
  (forall x, x ∈ l -> P1 x <-> P2 x) -> filter P1 l = filter P2 l.
Proof.
  induction l as [|x l IH]; intros Hl; [done|]. rewrite !filter_cons, IH by (intros; apply Hl; by right).
  pose proof (Hl x ltac:(left)). repeat case_decide; tauto || done.
Qed.

Lemma rm_head t l : NoDup (t :: l) -> rm t (t :: l) = l.
Proof. apply (rm_split t [] l). Qed.

Lemma due_later_all D t0 l : StronglySorted (alarm_le D) l ->
  (forall t l', l = t :: l' -> t0 < time_of D t) -> due D t0 l = [].
Proof.
  intros Hs Hh. destruct Hs as [|t l Hl Ha]; [done|]. specialize (Hh t l eq_refl).
  unfold due. rewrite filter_cons_False by lia. rewrite Forall_forall in Ha.
  destruct (filter _ l) as [|x r] eqn:E; [done|]. assert (Hx : x ∈ x :: r) by left.
  rewrite <- E in Hx. apply list_elem_of_filter in Hx as [? Hx]. specialize (Ha x Hx). unfold alarm_le in Ha. lia.
Qed.

Lemma due_ext D D' t0 l : (forall t, t ∈ l -> time_of D t = time_of D' t) -> due D t0 l = due D' t0 l.
Proof.
  intros Hl. unfold due. induction l as [|t l IH]; [done|].
  rewrite !filter_cons, IH by (intros; apply Hl; by right). rewrite (Hl t) by left. done.
Qed.

Lemma prio_resume D tid d t : D !! tid = Some d -> prio_of (<[tid := resumeC d]> D) t = prio_of D t.
Proof.
  intros Hd. unfold prio_of. destruct (decide (t = tid)) as [->|]; [|by rewrite lookup_insert_ne].
  rewrite lookup_insert_eq, Hd. simpl. apply resumeC_priority.
Qed.

Lemma wokenD_cons D t d w : D !! t = Some d -> t ∉ w -> wokenD w (<[t := resumeC d]> D) = wokenD (t :: w) D.
Proof.
  intros Hd Hn. apply map_eq. intros t'. unfold wokenD. rewrite !map_lookup_imap.
  destruct (decide (t' = t)) as [->|Ht].
  - rewrite lookup_insert_eq, Hd. simpl. rewrite decide_False, decide_True by (done || left). done.
  - rewrite lookup_insert_ne by done. destruct (D !! t') as [e|]; simpl; [|done]. f_equal.
    destruct (decide (t' ∈ w)).
    + by rewrite decide_True by (by right).
    + by rewrite decide_False by (by rewrite elem_of_cons; tauto).
Qed.

Lemma wokenD_nil D : wokenD [] D = D.
Proof.
  apply map_eq. intros t. unfold wokenD. rewrite map_lookup_imap. by destruct (D !! t).
Qed.

Lemma preempts_cons Q Q2 D D2 cur t d w : D !! t = Some d -> D2 = <[t := resumeC d]> D ->
  (forall p, Q2 (RunQ p) = Q (RunQ p) ++ (if decide (p = priority d) then [t] else [])) ->
  preempts Q D cur (t :: w) =
    (bool_decide (Q (RunQ (priority d)) = []) && (prio_of D cur <? priority d)) || preempts Q2 D2 cur w.
Proof.
  intros Hd -> HQ. assert (Ep : prio_of D t = priority d) by (unfold prio_of; by rewrite Hd).
  unfold preempts. simpl. rewrite Ep. set (b := _ && _). destruct b eqn:Eb; [done|]. subst b. simpl.
  induction w as [|x w IH]; [done|]. simpl. rewrite IH, !prio_resume, HQ by done. f_equal.
  destruct (decide (prio_of D x = priority d)) as [E|]; [|by rewrite app_nil_r].
  rewrite E, Eb, bool_decide_eq_false_2; [done|]. intros [_ ?]%app_eq_nil. done.
Qed.

(** Resuming the first thread of the alarm list, which is due, leaves the rest
    to be woken. *)
Lemma wokenQ_cons Q D t d t0 l :
  inv Q D -> Q AlarmList = t :: l -> NoDup (t :: l) -> D !! t = Some d -> time_of D t <= t0 ->
  forall q, wokenQ (<[t := resumeC d]> D) t0 (resumeQ t d (<[AlarmList := l]> Q)) q = wokenQ D t0 Q q.
Proof.
  intros Hi El [Hnt Hnd]%NoDup_cons Hd Hle q.
  assert (Hi1 : inv (<[AlarmList := l]> Q) D).
  { pose proof (inv_unalarm Q D Hi t) as H. rewrite El in H. by rewrite rm_head in H by (by constructor). }
  set (Q1 := <[AlarmList := l]> Q) in *. set (D2 := <[t := resumeC d]> D).
  destruct (i_alarm _ _ Hi t ltac:(rewrite El; left)) as (d' & Hd' & _ & Hfl). simplify_eq.
  assert (Ho : forall q, (forall p, q <> RunQ p) -> q <> AlarmList ->
    resumeQ t d Q1 q = if decide (blockqueue d = Some q) then rm t (Q q) else Q q).
  { intros q' H1 H2. rewrite (resumeQ_other Q1 D) by done. rewrite decide_False by done.
    unfold Q1. by rewrite fn_lookup_insert_ne. }
  assert (HA : resumeQ t d Q1 AlarmList = l).
  { rewrite (resumeQ_other Q1 D) by done. rewrite decide_True, Hfl by done. unfold Q1.
    rewrite fn_lookup_insert. by apply rm_notin. }
  assert (Htm : forall t', t' ∈ l -> time_of D2 t' = time_of D t').
  { intros t' Ht'. apply time_of_insert. by intros ->. }
  assert (Hw : due D t0 (t :: l) = t :: due D2 t0 l).
  { unfold due. rewrite filter_cons_True by done. f_equal. symmetry. by apply (due_ext D2 D). }
  assert (Hblk : forall q, block_q q = true ->
    filter (fun x => x ∉ due D2 t0 l) (resumeQ t d Q1 q) = filter (fun x => x ∉ t :: due D2 t0 l) (Q q)).
  { intros q' Hq'. rewrite Ho by (by intros ? || intros ->; destruct q'). destruct (decide (blockqueue d = Some q')) as [_|Hbq].
    - unfold rm. rewrite list_filter_filter. apply list_filter_iff. intros x. rewrite elem_of_cons. tauto.
    - apply filter_ext_in. intros x Hx. rewrite elem_of_cons. split; [|tauto]. intros Hn [->|?]; [|done].
      destruct (i_block _ _ Hi q' t Hq' Hx) as (e & ? & _ & ?). congruence. }
  destruct q; cbn [wokenQ]; rewrite ?HA, ?El, ?Hw; try (by apply Hblk).
  - rewrite (resumeQ_run Q1 D) by (try done; intros E; by destruct (i_bq _ _ Hi _ _ _ Hd E)).
    unfold Q1. rewrite fn_lookup_insert_ne by done. rewrite <- app_assoc. f_equal. fold D2. rewrite filter_cons.
    assert (Ep : prio_of D t = priority d) by (unfold prio_of; by rewrite Hd). rewrite Ep.
    assert (E : forall w : list Z, filter (fun x => prio_of D2 x = p) w = filter (fun x => prio_of D x = p) w).
    { intros w. apply list_filter_iff. intros x. unfold D2. by rewrite prio_resume. }
    rewrite E. do 2 case_decide; congruence || done.
  - unfold later. rewrite filter_cons_False by lia. by apply later_ext.
  - rewrite Ho by done. rewrite decide_False; [done|]. intros E. by destruct (i_bq _ _ Hi _ _ _ Hd E).
Qed.

Section Alarm.
Context (G : sched -> Prop) (R : sched -> sched -> Prop).

(** [wake_expired] resumes every thread whose time has come, and no other. *)
Lemma wp_wake_expired resched t0 : forall fuel s Q D (P : unit -> sched -> Prop),
  kat s Q D -> 1 <= blockInts s -> (length (Q AlarmList) <= fuel)%nat ->
  (forall s' Q', kat s' Q' (wokenD (due D t0 (Q AlarmList)) D) -> quiet s s' ->
     (forall q, Q' q = wokenQ D t0 Q q) -> malarm s' = malarm s -> alarmBlocked s' = alarmBlocked s ->
     needReschedule s' = needReschedule s || preempts Q D (currentThread s) (due D t0 (Q AlarmList)) ->
     P tt s') ->
  wp G R (wake_expired resched fuel t0) P s.
Proof.
  assert (Hstop : forall s Q D (P : unit -> sched -> Prop), kat s Q D ->
    (forall t l, Q AlarmList = t :: l -> t0 < time_of D t) ->
    (forall s' Q', kat s' Q' (wokenD (due D t0 (Q AlarmList)) D) -> quiet s s' ->
       (forall q, Q' q = wokenQ D t0 Q q) -> malarm s' = malarm s -> alarmBlocked s' = alarmBlocked s ->
       needReschedule s' = needReschedule s || preempts Q D (currentThread s) (due D t0 (Q AlarmList)) ->
       P tt s') -> P tt s).
  { intros s Q D P Hk Hgt HP. pose proof (i_sorted _ _ (proj1 (proj2 Hk))) as Hs.
    assert (E : due D t0 (Q AlarmList) = []) by (by apply due_later_all).
    apply (HP s Q); rewrite ?E, ?wokenD_nil; try done; [|by rewrite orb_false_r].
    assert (Ef : forall l : list Z, filter (fun t => t ∉ []) l = l).
    { induction l as [|x l IH]; [done|]. rewrite filter_cons_True by apply not_elem_of_nil. by rewrite IH. }
    intros []; simpl; rewrite ?E, ?Ef, ?app_nil_r; try done. by rewrite later_all. }
  induction fuel as [|fuel IH]; intros s Q D P Hk Hb Hf HP;
    pose proof Hk as ([Hr Ht] & Hi & [dc Hc]);
    cbn [wake_expired]; apply wp_bind, wp_load_head; try done; rewrite (rep_head _ _ _ _ Hr);
    (destruct (Q AlarmList) as [|t l] eqn:El; simpl;
     [apply wp_ret, (Hstop s Q D); [done|by rewrite El|by rewrite El]|]);
    [simpl in Hf; lia|].
  destruct (i_alarm _ _ Hi t ltac:(rewrite El; left)) as (d & Hd & Hst & Hfl).
  eapply wp_bind, wp_ctx; [done..|]. intros c Hct Ec.
  assert (Et : time_of D t = time c) by (unfold time_of; rewrite Hd; by subst d). rewrite <- Et.
  destruct (Z.leb_spec (time_of D t) t0) as [Hle|Hgt].
  2:{ apply wp_ret, (Hstop s Q D); [done| |by rewrite El]. rewrite El. by intros ? ? [= <- _]. }
  assert (Hnd : NoDup (t :: l)) by (rewrite <- El; apply Hr).
  eapply wp_bind, (wp_unlink _ _ _ _ _ AlarmList t [] l); [done..|]. intros m h Hr1 _ _.
  rewrite El, rm_head in Hr1 by done. set (Q1 := <[AlarmList := l]> Q) in *.
  assert (Hk1 : kat (edit m h s) Q1 D).
  { split_and!; [split; [done|by apply tails_insert_block]| |by exists dc].
    pose proof (inv_unalarm Q D Hi t) as H. by rewrite El, rm_head in H. }
  apply wp_bind. eapply wp_iresume_blocked; [done..|by rewrite Hst|]. intros s2 Hq2 Hk2 Hm2 Ha2 Hn2.
  assert (HQ2 : resumeQ t d Q1 AlarmList = l).
  { rewrite (resumeQ_other Q1 D); [|apply Hk1|done|done]. rewrite decide_True, Hfl by done.
    unfold Q1. rewrite fn_lookup_insert. apply rm_notin. by apply NoDup_cons in Hnd as [? _]. }
  assert (Hrun : forall p, resumeQ t d Q1 (RunQ p) = Q (RunQ p) ++ (if decide (p = priority d) then [t] else [])).
  { intros p. rewrite (resumeQ_run Q1 D); [done|apply Hk1|done|].
    intros Eb. by destruct (i_bq _ _ Hi _ _ _ Hd Eb). }
  assert (Hdue : due D t0 (t :: l) = t :: due (<[t := resumeC d]> D) t0 l).
  { unfold due. rewrite filter_cons_True by done. f_equal. apply (due_ext D). intros t' Ht'.
    symmetry. apply time_of_insert. intros ->. by apply NoDup_cons in Hnd as [? _]. }
  eapply IH; [done| |by rewrite HQ2; simpl in Hf; lia|].
  { destruct Hq2 as (_ & -> & _). done. }
  rewrite HQ2. intros s3 Q3 Hk3 Hq3 HQ3 Hm3 Ha3 Hn3. apply (HP s3 Q3).
  - rewrite Hdue, <- (wokenD_cons _ _ d); [done|done|]. intros Hin. apply list_elem_of_filter in Hin as [_ Hin].
    by apply NoDup_cons in Hnd as [? _].
  - etrans; [|done]. etrans; [|done]. split_and!; [done..|]. by eapply (ids_same s (edit m h s)).
  - intros q. rewrite HQ3. by apply wokenQ_cons.
  - by rewrite Hm3, Hm2.
  - by rewrite Ha3, Ha2.
  - rewrite Hn3, Hn2, Hdue, (preempts_cons _ _ _ _ _ _ _ _ Hd eq_refl Hrun), orb_assoc. f_equal; [|f_equal].
    + f_equal. unfold prio_of. by rewrite Hc.
    + destruct Hq2 as (He2 & _). by rewrite (env_current _ _ He2).
Qed.

End Alarm.

(** ** Rescheduling *)

(** What the operations below [reschedule] need of it, with [n] bounding the
    events it may consume. *)
Definition good_resched (n : nat) (resched : K unit) : Prop :=
  forall s (P : unit -> sched -> Prop), kinv s -> (length (events s) < n)%nat -> 1 <= blockInts s ->
    (forall s', kinv s' -> rejoin s s' -> blockInts s' = blockInts s -> P tt s') -> kwp resched P s.

Section Reschedule.
Context (n : nat) (resched : K unit).
Hypothesis (Hgood : good_resched n resched).

Lemma kwp_intsRestore s (P : unit -> sched -> Prop) :
  kinv s -> 1 <= blockInts s -> (length (events s) < n)%nat ->
  (forall s', kinv s' -> rejoin s s' -> blockInts s' = blockInts s - 1 -> P tt s') ->
  kwp (intsRestore resched) P s.
Proof.
  intros Hk Hb Hn HP. apply wp_bind, wp_gets, wp_bind, wp_gets, wp_bind.
  apply wp_when; intros _.
  - apply Hgood; [done..|]. intros s' Hk' He' Hb'. apply wp_modify, HP; [done|done|simpl; lia].
  - by apply wp_modify, HP.
Qed.

Lemma kwp_alarmException s (P : unit -> sched -> Prop) :
  kinv s -> 0 <= blockInts s -> (length (events s) < n)%nat ->
  (forall s', kinv s' -> rejoin s s' -> blockInts s' = blockInts s -> P tt s') ->
  kwp (alarmException resched) P s.
Proof.
  intros Hk Hb Hn HP. set (s1 := set_blockInts (blockInts s + 1) s).
  assert (Hk1 : kinv s1) by (eapply kinv_view; [|done]; done).
  apply wp_bind, wp_modify. fold s1. apply wp_bind, wp_gets.
  change (blockInts s1) with (blockInts s + 1). destruct (Z.ltb_spec 1 (blockInts s + 1)).
  { apply wp_bind, wp_modify. apply kwp_intsRestore; [eapply kinv_view; [|done]; done|simpl; lia|done|].
    intros s' Hk' He' Hb'. apply HP; [done|done|]. simpl in Hb'. lia. }
  apply wp_bind, wp_gets, wp_bind, wp_gets, wp_bind. pose proof Hk1 as [(Q & D & Hka) _].
  eapply wp_wake_expired; [done|simpl; lia| |].
  { pose proof Hka as ([Hr _] & _). eapply lseg_length; apply Hr. }
  intros s2 Q2 Hka2 Hq2 _ _ _ _. assert (Hk2 : kinv s2) by (by eapply kat_kinv).
  assert (Hb2 : blockInts s2 = blockInts s + 1) by apply Hq2.
  apply wp_bind, wp_load_head; [done|]. pose proof Hka2 as ([Hr2 _] & _).
  apply wp_bind. apply (wp_mono _ _ _ (fun _ s3 => view s3 = view s2 /\ blockInts s3 = blockInts s2 /\ events s3 = events s2 /\ polls s3 = polls s2)).
  { rewrite (rep_head _ _ _ _ Hr2). destruct (Q2 AlarmList) as [|t l] eqn:El; simpl; [by apply wp_ret|].
    destruct (rep_in_data _ _ _ _ Hr2 AlarmList t) as [d Hd]; [rewrite El; left|].
    eapply wp_bind, wp_ctx; [done..|]. intros c _ _. by apply wp_modify. }
  intros _ s3 (Hv3 & Hb3 & He3 & Hp3). apply wp_bind, wp_modify, wp_bind, kwp_intsRestore.
  - eapply kinv_view; [|exact Hk2]. exact Hv3.
  - simpl. lia.
  - simpl. rewrite He3. destruct Hq2 as (He2 & _). by rewrite (env_events _ _ He2).
  - intros s' Hk' [(Hd' & He' & Hp') Hcu'] Hb'. simpl in *. apply wp_modify, HP.
    + eapply kinv_view; [|done]. done.
    + apply quiet_rejoin in Hq2 as [(Hd2 & Hev2 & Hpo2) Hcu2].
      unfold view in Hv3. injection Hv3 as E1 _ _ E2 _ _. split; [split_and!|]; simpl in *.
      * etrans; [done|]. etrans; [|done]. unfold ids. simpl. by rewrite E1.
      * rewrite He3 in He'. lia.
      * rewrite Hp3 in Hp'. lia.
      * congruence.
    + simpl. lia.
Qed.

Lemma kwp_release_all : forall k i s (P : unit -> sched -> Prop),
  kinv s -> 1 <= blockInts s -> 0 <= i -> i + Z.of_nat k <= FD_SETSIZE ->
  (forall s', kinv s' -> quiet s s' -> P tt s') -> kwp (release_all resched k i) P s.
Proof.
  induction k as [|k IH]; intros i s P Hk Hb Hi Hm HP; cbn [release_all]; [by apply wp_ret, HP|].
  assert (Hvr : valid_q (ReadQ i) = true) by (simpl; lia).
  assert (Hvw : valid_q (WriteQ i) = true) by (simpl; lia).
  apply wp_bind, wp_wake_fd; [done..|]. intros s1 Hk1 Hq1. pose proof Hq1 as (_ & E1 & _).
  apply wp_bind, wp_wake_fd; [done..|lia|]. intros s2 Hk2 Hq2. pose proof Hq2 as (_ & E2 & _).
  apply wp_bind, wp_clear_queue; [done..|]. intros s3 Hk3 Hq3. pose proof Hq3 as (_ & E3 & _).
  apply wp_bind, wp_clear_queue; [done..|]. intros s4 Hk4 Hq4. pose proof Hq4 as (_ & E4 & _).
  apply IH; [done|lia..|]. intros s5 Hk5 Hq5. apply HP; [done|].
  do 4 (etrans; [done|]). done.
Qed.

(** One descriptor of [release_ready]: wake its queue if it is ready. *)
Lemma kwp_release_one q (b : bool) r s (P : Z -> sched -> Prop) :
  block_q q = true -> valid_q q = true -> kinv s -> 1 <= blockInts s ->
  (forall r' s', kinv s' -> quiet s s' -> P r' s') ->
  kwp (if b then wake_fd resched 0 q;; store (Head q) None;; mret (r - 1) else mret r) P s.
Proof.
  intros Hq Hv Hk Hb HP. destruct b; [|by apply wp_ret, HP].
  apply wp_bind, wp_wake_fd; [done..|]. intros s1 Hk1 Hq1.
  apply wp_bind, wp_clear_queue; [done..|]. intros s2 Hk2 Hq2. apply wp_ret, HP; [done|]. by etrans.
Qed.

Lemma kwp_release_ready rd wr : forall k i r s (P : unit -> sched -> Prop),
  kinv s -> 1 <= blockInts s -> 0 <= i -> i + Z.of_nat k <= FD_SETSIZE ->
  (forall s', kinv s' -> quiet s s' -> P tt s') -> kwp (release_ready resched rd wr k i r) P s.
Proof.
  induction k as [|k IH]; intros i r s P Hk Hb Hi Hm HP; cbn [release_ready]; [by apply wp_ret, HP|].
  destruct (0 <? r); [|by apply wp_ret, HP].
  assert (Hvr : valid_q (ReadQ i) = true) by (simpl; lia).
  assert (Hvw : valid_q (WriteQ i) = true) by (simpl; lia).
  apply wp_bind, wp_load_head; [done|]. apply wp_bind, kwp_release_one; [done..|].
  intros r1 s1 Hk1 Hq1. pose proof Hq1 as (_ & E1 & _).
  apply wp_bind, wp_load_head; [done|]. apply wp_bind, kwp_release_one; [done..|lia|].
  intros r2 s2 Hk2 Hq2. pose proof Hq2 as (_ & E2 & _).
  apply IH; [done|lia..|]. intros s3 Hk3 Hq3. apply HP; [done|]. do 2 (etrans; [done|]). done.
Qed.

Lemma kwp_next_event s (P : event -> sched -> Prop) : kinv s ->
  (forall ev evs, events s = ev :: evs -> P ev (set_events evs s)) -> kwp next_event P s.
Proof. intros Hk HP. unfold wp, next_event. destruct (events s); [done|]. by apply HP. Qed.

(** [checkEvents] consumes an event. *)
Lemma kwp_checkEvents s (P : unit -> sched -> Prop) :
  kinv s -> 1 <= blockInts s -> (length (events s) <= n)%nat ->
  (forall s', kinv s' -> rejoin s s' -> (length (events s') < length (events s))%nat ->
     blockInts s' = blockInts s -> P tt s') ->
  kwp (checkEvents resched) P s.
Proof.
  intros Hk Hb Hn HP. apply wp_bind, wp_modify, wp_bind, wp_gets, wp_bind, wp_modify, wp_bind.
  apply kwp_next_event; [done|]. cbn [events set_blockInts set_needReschedule]. intros ev evs Eev.
  rewrite Eev in Hn. simpl in Hn.
  set (s1 := set_events evs _). assert (Hk1 : kinv s1) by (eapply kinv_view; [|exact Hk]; done).
  apply wp_bind. apply (wp_mono _ _ _ (fun _ s2 => kinv s2 /\ rejoin s1 s2)).
  { destruct ev as [now| | |]; try by apply wp_ret. apply wp_bind, wp_modify, kwp_alarmException.
    - eapply kinv_view; [|exact Hk1]. done.
    - done.
    - simpl. lia.
    - intros s' Hk' He' _. split; [done|]. exact He'. }
  intros _ s2 [Hk2 [(Hd2 & He2 & Hp2) Hcu2]]. apply wp_bind, wp_modify. simpl in He2, Hp2, Hcu2.
  set (s3 := set_blockInts (blockInts s) s2).
  assert (Hk3 : kinv s3) by (eapply kinv_view; [|exact Hk2]; done).
  assert (Hfin : forall s', kinv s' -> quiet s3 s' -> P tt s').
  { intros s' Hk' (He' & Hb' & Hids'). pose proof (env_events _ _ He') as Ee. simpl in Ee.
    apply HP; [done| |rewrite Ee, Eev; simpl; lia|done].
    split; [split_and!|].
    - rewrite Hids'. exact Hd2.
    - rewrite Ee, Eev. simpl. lia.
    - by rewrite (env_polls _ _ He').
    - by rewrite (env_current _ _ He'). }
  assert (Hfd : maxFd s3 < FD_SETSIZE) by apply Hk3.
  change (blockInts (set_needReschedule false s)) with (blockInts s).
  destruct ev; try (by apply wp_ret, Hfin).
  - apply wp_bind, wp_check; [simpl; lia|]. apply wp_bind, wp_gets, kwp_release_all; [done..| |done]. simpl in *. lia.
  - apply wp_bind, wp_check; [simpl; lia|]. apply wp_bind, wp_gets, kwp_release_ready; [done..| |done]. simpl in *. lia.
Qed.

End Reschedule.

(** The head of the first non-empty queue from priority [p] down. *)
Fixpoint highestQ (Q : qref -> list Z) (n : nat) (p : Z) : option Z :=
  match n with
  | O => None
  | S n' => match Q (RunQ p) with t :: _ => Some t | [] => highestQ Q n' (p - 1) end
  end.

Lemma highestQ_in Q n p t : highestQ Q n p = Some t -> exists p' l, Q (RunQ p') = t :: l /\
  p' <= p /\ forall p'', p' < p'' <= p -> Q (RunQ p'') = [].
Proof.
  revert p. induction n as [|n IH]; intros p; simpl; [done|]. destruct (Q (RunQ p)) eqn:E.
  - intros (p' & l & Hq & Hp & Hall)%IH. exists p', l. split_and!; [done|lia|].
    intros p'' ?. destruct (decide (p'' = p)) as [->|]; [done|]. apply Hall. lia.
  - intros [= ->]. exists p, l. split_and!; [done|lia|]. lia.
Qed.

Lemma wp_highest G R s Q D (P : option Z -> sched -> Prop) :
  rep (threadContext s) (qhead s) Q D -> forall n p, Z.of_nat n <= p -> p <= 10 ->
  P (highestQ Q n p) s -> wp G R (highest n p) P s.
Proof.
  intros Hr. induction n as [|n IH]; intros p Hn Hp HP; cbn [highest highestQ] in *; [done|].
  apply wp_bind, wp_load_head; [simpl; lia|]. rewrite (rep_head _ _ _ _ Hr).
  destruct (Q (RunQ p)); simpl; [|done]. apply IH; [lia..|done].
Qed.

Lemma kwp_switch s from (P : unit -> sched -> Prop) : kinv s -> cur_ok s ->
  (forall s', kinv s' -> cur_ok s' -> evolve s s' -> currentThread s' = from -> P tt s') ->
  kwp (THREADSWITCH from) P s.
Proof. intros Hk Hc HP. split_and!; [done..|]. intros s' Hk' Hc' Hf' He'. by apply HP. Qed.

Lemma cur_ok_intro s Q D d : krep s Q D -> D !! currentThread s = Some d ->
  status d = THREAD_RUNNING -> PrivateInfo d = currentThreadID s -> cur_ok s.
Proof.
  intros [Hr _] Hd Hs Hp. destruct (rep_lookup_Some _ _ _ _ Hr _ _ Hd) as (c & Hc & <-). by exists c.
Qed.

Lemma kwp_reschedule_loop : forall fuel from_wait s b (P : unit -> sched -> Prop),
  kinv s -> (length (events s) < fuel)%nat -> blockInts s = b -> 1 <= b ->
  (forall s', kinv s' -> rejoin s s' -> blockInts s' = b -> cur_ok s' -> P tt s') ->
  kwp (reschedule_loop fuel from_wait b) P s.
Proof.
  induction fuel as [|fuel IH]; intros fw s b P Hk Hf Hb Hb1 HP; [lia|]. cbn [reschedule_loop].
  pose proof Hk as [(Q & D & (Hr & Ht) & Hi & Hc) [Hfd Hid]].
  apply wp_bind. eapply wp_highest; [done|simpl; lia|lia|].
  destruct (highestQ Q 10 10) as [t|] eqn:Eh.
  - apply highestQ_in in Eh as (p & l & Hq & _).
    assert (Hin : t ∈ Q (RunQ p)) by (rewrite Hq; left). apply (i_run _ _ Hi) in Hin as (d & Hd & Hst & _).
    apply wp_bind, wp_gets, wp_bind.
    apply (wp_mono _ _ _ (fun _ s' => kinv s' /\ rejoin s s' /\ blockInts s' = b /\ cur_ok s')).
    2:{ intros _ s' (Hk' & He' & Hb' & Hcu'). by apply wp_modify, HP. }
    apply wp_when; intros Hne.
    2:{ split_and!; [done..|]. apply negb_false_iff, Z.eqb_eq in Hne. subst t.
        eapply (cur_ok_intro s); [by split|done..|]. rewrite <- lookup_fmap in Hid.
        rewrite (rep_ids _ _ _ _ Hr), lookup_fmap, Hd in Hid. by simplify_eq/=. }
    eapply wp_bind, wp_ctx; [done..|]. intros c Hcc Ec.
    apply wp_bind, wp_modify, wp_bind, wp_modify, wp_bind, kwp_switch.
    { split_and!; [|done|simpl; by rewrite Hcc]. exists Q, D. split_and!; [by split|done|by exists d]. }
    { exists c. split_and!; [done| |done]. by subst d. }
    intros s' Hk' Hcu' He' Hfrom. set (s'' := set_blockInts b (set_alarmBlocked false s')).
    apply wp_bind, wp_modify, wp_bind, wp_modify. fold s''.
    assert (Hres : kinv s'' /\ rejoin s s'' /\ blockInts s'' = b /\ cur_ok s'') by (split_and!; done).
    apply wp_when; intros _; [|done]. destruct Hres as (Hk2 & He2 & _ & _).
    pose proof Hk2 as [(Q2 & D2 & Hka2) _]. pose proof Hka2 as ([Hr2 _] & _ & Hcd).
    simpl in Hcd. rewrite Hfrom in Hcd. destruct Hcd as [dl Hdl].
    eapply wp_bind, wp_ctx; [done..|]. intros cl _ _.
    apply wp_when; intros _; [|split_and!; done]. eapply wp_bind, wp_upd_flags; [done..|by apply alarm_clear|].
    intros s3 Hka3 Hq3 _. apply wp_bind, wp_modify. unfold wp, throw. simpl.
    assert (Hk3 : kinv s3) by (by eapply kat_kinv). exact Hk3.
  - apply wp_bind. eapply (kwp_checkEvents fuel); [|done|lia|lia|].
    + intros s1 P1 Hk1 Hf1 Hb1' HP1. apply wp_bind, wp_gets. apply IH; [done..|]. intros s2 ? ? ? _. by apply HP1.
    + intros s1 Hk1 He1 Hl1 Hb'. apply IH; [done|lia|lia|done|]. intros s2 Hk2 He2 Hb2 Hcu2. apply HP; [done| |done..].
      by etrans.
Qed.

(** On return the caller is the current thread again, and runs. *)
Lemma kwp_reschedule_cur fw s (P : unit -> sched -> Prop) : kinv s -> 1 <= blockInts s ->
  (forall s', kinv s' -> rejoin s s' -> blockInts s' = blockInts s -> cur_ok s' -> P tt s') ->
  kwp (reschedule_gen fw) P s.
Proof. intros Hk Hb HP. apply wp_bind, wp_gets, wp_bind, wp_gets, kwp_reschedule_loop; [done|lia|done..]. Qed.

Lemma kwp_reschedule_gen fw s (P : unit -> sched -> Prop) : kinv s -> 1 <= blockInts s ->
  (forall s', kinv s' -> rejoin s s' -> blockInts s' = blockInts s -> P tt s') ->
  kwp (reschedule_gen fw) P s.
Proof. intros Hk Hb HP. apply kwp_reschedule_cur; [done..|]. auto. Qed.

Lemma kwp_restore_cur s (P : unit -> sched -> Prop) : kinv s -> cur_ok s -> 1 <= blockInts s ->
  (forall s', kinv s' -> rejoin s s' -> blockInts s' = blockInts s - 1 -> cur_ok s' -> P tt s') ->
  kwp (intsRestore reschedule) P s.
Proof.
  intros Hk Hc Hb HP. apply wp_bind, wp_gets, wp_bind, wp_gets, wp_bind. apply wp_when; intros _.
  - apply kwp_reschedule_cur; [done..|]. intros s' ? ? ? ?. apply wp_modify, HP; [done|done|simpl; lia|done].
  - by apply wp_modify, HP.
Qed.

Lemma kwp_restore s (P : unit -> sched -> Prop) : kinv s -> 1 <= blockInts s ->
  (forall s', kinv s' -> rejoin s s' -> blockInts s' = blockInts s - 1 -> P tt s') ->
  kwp (intsRestore reschedule) P s.
Proof.
  intros Hk Hb HP. eapply (kwp_intsRestore (S (length (events s)))); [|done|done|lia|done].
  intros s1 P1 Hk1 _ Hb1 HP1. by apply kwp_reschedule_gen.
Qed.

(** ** The operations *)

Lemma inv_move Q D tid d prio : inv Q D -> D !! tid = Some d -> status d = THREAD_RUNNING ->
  1 <= prio <= java_lang_Thread_MAX_PRIORITY ->
  let Q1 := <[RunQ (priority d) := rm tid (Q (RunQ (priority d)))]> Q in
  inv (<[RunQ prio := Q1 (RunQ prio) ++ [tid]]> Q1) (<[tid := set_priority prio d]> D).
Proof.
  intros [H1 H2 H3 H4 H5 H6] Hd Hst Hp Q1.
  assert (HQ : forall q, (forall p, q <> RunQ p) -> <[RunQ prio := Q1 (RunQ prio) ++ [tid]]> Q1 q = Q q).
  { intros q Hq. unfold Q1. by rewrite !fn_lookup_insert_ne by (intros E; by eapply Hq). }
  assert (HQ1 : forall t p, t ∈ Q1 (RunQ p) <-> t ∈ Q (RunQ p) /\ t <> tid).
  { intros t p. unfold Q1. destruct (decide (p = priority d)) as [->|].
    - by rewrite fn_lookup_insert, elem_of_rm.
    - rewrite fn_lookup_insert_ne by naive_solver. split; [|tauto]. intros Ht. split; [done|].
      intros ->. apply H1 in Ht as (? & ? & ? & ?). congruence. }
  assert (Ho : forall t, t <> tid -> <[tid := set_priority prio d]> D !! t = D !! t)
    by (intros; by rewrite lookup_insert_ne).
  split.
  - intros t p. assert (Hm : t ∈ <[RunQ prio := Q1 (RunQ prio) ++ [tid]]> Q1 (RunQ p) <->
      (t ∈ Q (RunQ p) /\ t <> tid) \/ (t = tid /\ p = prio)).
    { destruct (decide (p = prio)) as [->|].
      - rewrite fn_lookup_insert, elem_of_app, HQ1, list_elem_of_singleton. tauto.
      - rewrite fn_lookup_insert_ne by naive_solver. rewrite HQ1. tauto. }
    rewrite Hm, H1. destruct (decide (t = tid)) as [->|].
    + rewrite lookup_insert_eq. split; [|naive_solver]. intros [[_ ?]|[_ ->]]; [done|].
      exists (set_priority prio d). done.
    + rewrite Ho by done. naive_solver.
  - intros t e. destruct (decide (t = tid)) as [->|]; [|rewrite Ho by done; apply H2].
    rewrite lookup_insert_eq. by intros [= <-].
  - intros q t Hq. rewrite HQ by (by intros p ->). intros Ht. destruct (H3 q t Hq Ht) as (e & He & Hs & ?).
    exists e. rewrite Ho; [done|]. intros ->. congruence.
  - intros t e q. destruct (decide (t = tid)) as [->|]; [|rewrite Ho by done; apply H4].
    rewrite lookup_insert_eq. intros [= <-]. by apply (H4 tid d).
  - intros t. rewrite HQ by done. intros Ht. destruct (H5 t Ht) as (e & He & Hs & ?).
    exists e. rewrite Ho; [done|]. intros ->. congruence.
  - rewrite HQ by done. eapply StronglySorted_ext; [|done]. intros a b _ _. unfold alarm_le.
    by rewrite !(time_of_upd D tid d (set_priority prio)).
Qed.

(** A thread on no queue is placed at the end of a run queue. *)
Lemma wp_enqueue G R s Q D tid p d (P : unit -> sched -> Prop) :
  krep s Q D -> valid_q (RunQ p) = true -> off Q FQ tid -> D !! tid = Some d ->
  (forall s', krep s' (<[RunQ p := Q (RunQ p) ++ [tid]]> Q) D -> env s' = env s ->
     blockInts s' = blockInts s -> P tt s') ->
  wp G R (place_on_queue tid p;; store (Next FQ tid) None) P s.
Proof.
  intros Hk Hv Hoff Hd HP. pose proof Hk as [Hr Ht]. apply wp_bind.
  eapply wp_place_on_queue; [done..|]. cbv zeta.
  pose proof (rep_append _ _ _ _ (RunQ p) tid Hr Hv Hoff ltac:(rewrite Hd; eauto)) as Hr'.
  assert (Hs : is_Some (storeM (slot_after (RunQ p) (Q (RunQ p))) (Some tid) (threadContext s) !! tid)).
  { eapply fmap_is_Some. erewrite <- lookup_fmap, erase_storeM, lookup_fmap, <- lookup_fmap.
    rewrite (rep_data _ _ _ _ Hr), Hd. eauto. }
  destruct Hs as [c Hc]. eapply wp_store; [by apply (next_ok _ _ _ _ c)|].
  apply HP; [|by destruct s..]. split; [exact Hr'|]. intros p'. simpl.
  destruct (decide (p' = p)) as [->|].
  - by rewrite fn_lookup_insert, lookup_insert_eq, last_snoc.
  - rewrite fn_lookup_insert_ne by naive_solver. rewrite lookup_insert_ne by done. apply Ht.
Qed.

Definition thread_is (s : sched) (t : Z) (st : Z -> Prop) : Prop :=
  exists c, threadContext s !! t = Some c /\ st (status c).

Definition done_safely (s s' : sched) : Prop :=
  kinv s' /\ rejoin s s' /\ blockInts s' = blockInts s.

Lemma thread_is_data s Q D t st : rep (threadContext s) (qhead s) Q D -> thread_is s t st ->
  exists d, D !! t = Some d /\ st (status d).
Proof.
  intros Hr (c & Hc & Hs). exists (erase c). split; [|done].
  rewrite <- (rep_data _ _ _ _ Hr), lookup_fmap. by rewrite Hc.
Qed.

Lemma kinv_current s : kinv s -> thread_is s (currentThread s) (fun _ => True).
Proof.
  intros [(Q & D & [Hr _] & _ & Hc) _]. rewrite (rep_lookup _ _ _ _ Hr), fmap_is_Some in Hc.
  destruct Hc as [c Hc]. by exists c.
Qed.

Lemma kwp_iresumeThread s tid (P : unit -> sched -> Prop) :
  kinv s -> thread_is s tid (fun _ => True) -> 0 <= blockInts s ->
  (forall s', done_safely s s' -> P tt s') -> kwp (iresumeThread reschedule tid) P s.
Proof.
  intros Hk Ht Hb HP. pose proof Hk as [(Q & D & Hka) Hfd]. pose proof Hka as (Hkr & Hi & [dc Hc]).
  destruct (thread_is_data _ _ _ _ _ (proj1 Hkr) Ht) as (d & Hd & _).
  destruct (decide (status d = THREAD_RUNNING)) as [Hst|Hst].
  - apply wp_bind, wp_modify. destruct Hkr as [Hr ?]. eapply wp_bind, (wp_ctx _ _ _ Q D); [done..|]. intros c _ Ec.
    replace (status c) with (status d) by (by subst d). rewrite Hst. simpl. apply wp_bind, wp_ret.
    apply kwp_restore; [done|simpl; lia|]. intros s' ? ? Hb'. apply HP. split_and!; [done..|]. simpl in Hb'. lia.
  - eapply wp_iresumeThread; [done..|by eapply inv_resumable; [|apply Hkr|..]|done|lia|].
    intros s' Hk' He' Hb' _ _ _. assert (Hids : ids s' = ids s).
    { destruct Hkr as [Hr _], Hk' as [Hr' _]. eapply ids_upd; [done..|apply resumeC_id]. }
    apply kwp_restore; [|lia|].
    + eapply kinv_intro; [done..| |done|done]. eapply inv_resume; try done.
      by eapply inv_resumable; [|apply Hkr|..].
    + intros s'' Hk'' Hev Hb''. apply HP. split_and!; [done| |lia]. etrans; [|done].
      split; [|by apply env_current]. unfold evolve. rewrite Hids. split_and!; [done|..].
      * by rewrite (env_events _ _ He').
      * by rewrite (env_polls _ _ He').
Qed.

(** A dead thread is on no queue. *)
Lemma inv_dead Q D tid d : inv Q D -> D !! tid = Some d -> status d <> THREAD_RUNNING ->
  status d <> THREAD_SUSPENDED -> inv Q (<[tid := set_status THREAD_SUSPENDED d]> D).
Proof.
  intros [H1 H2 H3 H4 H5 H6] Hd Hr Hs.
  assert (Ho : forall t, t <> tid -> <[tid := set_status THREAD_SUSPENDED d]> D !! t = D !! t)
    by (intros; by rewrite lookup_insert_ne).
  split.
  - intros t p. rewrite H1. destruct (decide (t = tid)) as [->|]; [|by rewrite Ho].
    rewrite lookup_insert_eq, Hd. split; intros (e & [= <-] & E & _); simpl in *; congruence.
  - intros t e. destruct (decide (t = tid)) as [->|]; [|rewrite Ho by done; apply H2].
    rewrite lookup_insert_eq. intros [= <-]. by apply (H2 tid d).
  - intros q t Hq Ht. destruct (H3 q t Hq Ht) as (e & ? & ? & ?).
    exists e. rewrite Ho; [done|]. intros ->. congruence.
  - intros t e q. destruct (decide (t = tid)) as [->|]; [|rewrite Ho by done; apply H4].
    rewrite lookup_insert_eq. intros [= <-]. by apply (H4 tid d).
  - intros t Ht. destruct (H5 t Ht) as (e & ? & ? & ?).
    exists e. rewrite Ho; [done|]. intros ->. congruence.
  - eapply StronglySorted_ext; [|done]. intros a b _ _. unfold alarm_le.
    by rewrite !(time_of_upd D tid d (set_status THREAD_SUSPENDED)).
Qed.

(** Suspending a thread that does not run changes its status at most. *)
Lemma kwp_suspend_idle s tid d Q D queue timeout (from_wait : bool) (P : unit -> sched -> Prop) :
  kat s Q D -> kinv s -> D !! tid = Some d -> status d <> THREAD_RUNNING -> 1 <= blockInts s ->
  (forall s', done_safely s s' -> P tt s') -> kwp (suspendOnQThread tid queue timeout from_wait) P s.
Proof.
  intros ([Hr Ht] & Hi & Hc) Hk Hd Hst Hb HP. apply wp_bind, wp_gets, wp_bind, wp_check; [lia|].
  eapply wp_bind, wp_ctx; [done..|]. intros c _ Ec.
  replace (status c) with (status d) by (by subst d). replace (priority c) with (priority d) by (by subst d).
  destruct (Z.eqb_spec (status d) THREAD_SUSPENDED); [by apply wp_ret, HP; split_and!|].
  eapply wp_bind, wp_upd; [done..|]. intros m Hr'. pose proof (i_prio _ _ Hi _ _ Hd).
  eapply wp_bind, (wp_find_slot _ _ _ Q); [done|simpl; lia| |].
  - intros _. apply wp_ret, HP. split; [|split; [|done]].
    + eapply (kinv_intro s); [done|by split|by apply inv_dead|done|].
      by eapply (ids_upd s (set_threadContext m s)).
    + apply quiet_rejoin. split_and!; [done..|]. by eapply (ids_upd s (set_threadContext m s)).
  - intros l1 l2 Hq. assert (Hin : tid ∈ Q (RunQ (priority d))) by (rewrite Hq, elem_of_app, elem_of_cons; auto).
    apply (i_run _ _ Hi) in Hin as (e & ? & ? & _). congruence.
Qed.

Lemma kwp_suspendOnQThread s tid queue timeout (from_wait : bool) (P : unit -> sched -> Prop) :
  kinv s -> thread_is s tid (fun _ => True) -> 1 <= blockInts s ->
  (forall q, queue = Some q -> block_q q = true /\ valid_q q = true) ->
  (forall s', done_safely s s' -> P tt s') -> kwp (suspendOnQThread tid queue timeout from_wait) P s.
Proof.
  intros Hk Ht Hb Hqv HP. pose proof Hk as [(Q & D & Hka) Hfd]. pose proof Hka as (Hkr & Hi & [dc Hc]).
  destruct (thread_is_data _ _ _ _ _ (proj1 Hkr) Ht) as (d & Hd & _).
  destruct (decide (status d = THREAD_RUNNING)) as [Hst|]; [|by eapply kwp_suspend_idle].
  eapply wp_suspendOnQThread; [done..|by rewrite Hst| |lia| |done|].
  - apply (i_run _ _ Hi). eauto.
  - intros Ha. destruct (i_alarm _ _ Hi tid Ha) as (e & ? & ? & _). congruence.
  - intros s' Hk' He' Hb' _ _. assert (Hids : ids s' = ids s).
    { destruct Hkr as [Hr _], Hk' as [Hr' _]. eapply ids_upd; [done..|apply suspendC_id]. }
    assert (Hki' : kinv s') by (eapply kinv_intro; [done..|by apply inv_suspend|done|done]).
    assert (Hev : rejoin s s') by (by apply quiet_rejoin; split_and!).
    apply wp_when; intros Hcur; [|by apply HP; split_and!].
    destruct from_wait; apply kwp_reschedule_gen; try done; try lia; intros s'' ? ? ?; apply HP;
      (split_and!; [done|by etrans|lia]).
Qed.

Lemma done_safely_trans s1 s2 s3 : done_safely s1 s2 -> done_safely s2 s3 -> done_safely s1 s3.
Proof. intros (_ & ? & ?) (? & ? & ?). split_and!; [done|by etrans|congruence]. Qed.

(** A suspended thread may change its priority in place. *)
Lemma inv_prio Q D tid d prio : inv Q D -> D !! tid = Some d -> status d = THREAD_SUSPENDED ->
  1 <= prio <= java_lang_Thread_MAX_PRIORITY -> inv Q (<[tid := set_priority prio d]> D).
Proof.
  intros [H1 H2 H3 H4 H5 H6] Hd Hst Hp.
  assert (Ho : forall t, t <> tid -> <[tid := set_priority prio d]> D !! t = D !! t)
    by (intros; by rewrite lookup_insert_ne).
  assert (Hl : forall t e, D !! t = Some e -> exists e', <[tid := set_priority prio d]> D !! t = Some e' /\
    status e' = status e /\ blockqueue e' = blockqueue e /\ flags e' = flags e).
  { intros t e He. destruct (decide (t = tid)) as [->|]; [|rewrite Ho by done; eauto].
    rewrite lookup_insert_eq. simplify_eq. eexists. split_and!; [done| |..]; congruence || by simplify_eq. }
  split.
  - intros t p. rewrite H1. destruct (decide (t = tid)) as [->|]; [|by rewrite Ho].
    rewrite lookup_insert_eq, Hd. split; intros (e & [= <-] & E & _); simpl in *; congruence.
  - intros t e. destruct (decide (t = tid)) as [->|]; [|rewrite Ho by done; apply H2].
    rewrite lookup_insert_eq. by intros [= <-].
  - intros q t Hq Ht. destruct (H3 q t Hq Ht) as (e & (e' & ? & ? & ? & _)%Hl & ? & ?).
    exists e'. split_and!; congruence.
  - intros t e q. destruct (decide (t = tid)) as [->|]; [|rewrite Ho by done; apply H4].
    rewrite lookup_insert_eq. intros [= <-]. by apply (H4 tid d).
  - intros t Ht. destruct (H5 t Ht) as (e & (e' & ? & ? & _ & Hf)%Hl & ? & ?).
    exists e'. split_and!; [done|congruence|]. unfold has_flag in *. by rewrite Hf.
  - eapply StronglySorted_ext; [|done]. intros a b _ _. unfold alarm_le.
    by rewrite !(time_of_upd D tid d (set_priority prio)).
Qed.

(** A thread that is neither dead nor without a context. *)
Definition alive (s : sched) (t : Z) : Prop :=
  thread_is s t (fun st => st = THREAD_RUNNING \/ st = THREAD_SUSPENDED).

Lemma kwp_setPriority s tid prio (P : unit -> sched -> Prop) :
  kinv s -> alive s tid -> 1 <= prio <= java_lang_Thread_MAX_PRIORITY -> 0 <= blockInts s ->
  (forall s', done_safely s s' -> P tt s') -> kwp (setPriorityThread tid prio) P s.
Proof.
  intros Hk (c & Hc & Hst) Hp Hb HP. assert (Hp8 : u8 prio = prio) by (apply wrapu_small; unfold in_u; lia).
  apply wp_bind, wp_gets. rewrite Hc. simpl.
  pose proof Hk as [(Q & D & Hka) Hfd]. pose proof Hka as ([Hr Ht] & Hi & Hcur).
  assert (Hd : D !! tid = Some (erase c)) by (rewrite <- (rep_data _ _ _ _ Hr), lookup_fmap; by rewrite Hc).
  eapply wp_bind, wp_TCTX; [done|]. rewrite Hp8. destruct (Z.eqb_spec (status c) THREAD_SUSPENDED) as [Es|Es].
  { eapply wp_upd; [done..|]. intros m Hr'. apply HP. split; [|split; [|done]].
    - eapply (kinv_intro s); [done|by split|by apply inv_prio|done|]. by eapply (ids_upd s (set_threadContext m s)).
    - apply quiet_rejoin. split_and!; [done..|]. by eapply (ids_upd s (set_threadContext m s)). }
  destruct Hst as [Hst|?]; [|done].
  assert (Hin : tid ∈ Q (RunQ (priority c))) by (apply (i_run _ _ Hi); by exists (erase c)).
  apply wp_bind, wp_modify. eapply wp_bind, (wp_find_slot _ _ _ Q D); [done|by eapply rep_valid|done|].
  intros l1 l2 Hq. apply wp_bind. eapply (wp_leave_run _ _ _ Q D); [by split|done..|].
  intros s1 Hk1 Hoff He1 Hb1 _ _ _. apply wp_bind, wp_modify. destruct Hk1 as [Hr1 Ht1].
  eapply wp_bind, wp_upd; [done..|]. intros m Hr2.
  eapply wp_bind, wp_enqueue; [by split|simpl; lia|done|apply lookup_insert_eq|].
  intros s2 Hk2 He2 Hb2. simpl in Hb2. pose proof (inv_move _ _ _ _ prio Hi Hd Hst Hp) as Hi2. cbv zeta in Hi2.
  assert (Hids2 : ids s2 = ids s) by (destruct Hk2 as [Hr3 _]; by eapply ids_upd).
  assert (He02 : env s2 = env (set_jpriority (<[tid := prio]> (jpriority s)) s)).
  { rewrite He2. revert He1. unfold env. simpl. intros [=]. congruence. }
  assert (Hki2 : kinv s2).
  { eapply (kinv_intro (set_jpriority (<[tid := prio]> (jpriority s)) s)); [done..|exact Hi2|exact He02|exact Hids2]. }
  apply wp_bind, wp_gets. pose proof (kinv_current s2 Hki2) as (c2 & Hc2 & _).
  eapply wp_bind, wp_TCTX; [done|]. apply wp_bind.
  apply (wp_mono _ _ _ (fun _ s3 => kinv s3 /\ rejoin s s3 /\ blockInts s3 = blockInts s + 1)).
  - assert (Hev : rejoin s s2).
    { split; [|by rewrite (env_current _ _ He02)]. unfold evolve. rewrite Hids2. split_and!; [done|..].
      - by rewrite (env_events _ _ He02).
      - by rewrite (env_polls _ _ He02). }
    simpl in Hb1. apply wp_when; intros _; [apply wp_modify|]; (split_and!; [done..|simpl; lia]).
  - intros _ s3 (Hk3 & Hev & Hb3). apply kwp_restore; [done|lia|]. intros s4 ? ? ?. apply HP.
    split_and!; [done|by etrans|lia].
Qed.

(** A queue whose head has gone to the end keeps the invariant. *)
Lemma inv_rotate Q Q' D p t l : inv Q D -> Q (RunQ p) = t :: l -> Q' (RunQ p) = l ++ [t] ->
  (forall q, q <> RunQ p -> Q' q = Q q) -> inv Q' D.
Proof.
  intros [H1 H2 H3 H4 H5 H6] HQ HQ' Ho. split; [|done| |done| |].
  - intros u p'. rewrite <- H1. destruct (decide (p' = p)) as [->|]; [rewrite HQ', HQ; set_solver|].
    by rewrite Ho by congruence.
  - intros q u Hq. destruct (decide (q = RunQ p)) as [->|]; [done|]. rewrite Ho by done. by apply H3.
  - intros u. rewrite Ho by done. apply H5.
  - by rewrite Ho.
Qed.

(** A thread at the head of its run queue moves to the end. *)
Lemma wp_yield_queue G R s Q D p l c (P : unit -> sched -> Prop) :
  krep s Q D -> inv Q D -> threadContext s !! currentThread s = Some c -> priority c = p ->
  Q (RunQ p) = currentThread s :: l ->
  (forall s' Q', krep s' Q' D -> inv Q' D -> Q' (RunQ p) = l ++ [currentThread s] ->
     (forall q, q <> RunQ p -> Q' q = Q q) -> env s' = env s -> blockInts s' = blockInts s ->
     (l <> [] -> needReschedule s' = true) -> (l = [] -> s' = s) -> P tt s') ->
  wp G R yield_queue P s.
Proof.
  intros Hk Hi Hc Hp HQ HP. pose proof Hk as [Hr Ht]. set (cur := currentThread s) in *.
  assert (Hcur : is_Some (D !! cur)) by (rewrite (rep_lookup _ _ _ _ Hr), Hc; eauto).
  assert (Hv : valid_q (RunQ p) = true) by (apply (rep_valid _ _ _ _ Hr _ cur); rewrite HQ; left).
  pose proof (rep_nodup _ _ _ _ Hr (RunQ p)) as Hnd. rewrite HQ in Hnd.
  apply wp_bind, wp_gets. eapply wp_bind, wp_TCTX; [done|]. cbv zeta. rewrite Hp.
  apply wp_bind, wp_load_head; [done|]. apply wp_bind, wp_gets. simpl.
  rewrite (rep_head _ _ _ _ Hr), (Ht p), HQ by (by rewrite HQ). simpl.
  apply wp_when; intros Hne.
  2:{ destruct (last_cons_snoc 0 l) as [->|(l' & x & ->)]; [by apply (HP s Q)|].
      replace (last (cur :: l' ++ [x])) with (Some x) in Hne by (by rewrite app_comm_cons, last_snoc).
      apply bool_decide_eq_false, dec_stable in Hne. injection Hne as ->.
      apply NoDup_cons in Hnd as [Hn _]. destruct Hn. apply elem_of_app. right. left. }
  destruct (last_cons_snoc 0 l) as [->|(l' & x & ->)]; [by rewrite bool_decide_eq_true in Hne|].
  replace (last (cur :: l' ++ [x])) with (Some x) by (by rewrite app_comm_cons, last_snoc).
  eapply wp_bind, (wp_unlink _ _ _ _ _ (RunQ p) cur []); [done..|].
  intros m h Hr1 Hoff _. set (Q1 := <[RunQ p := rm cur (Q (RunQ p))]> Q) in *.
  assert (HQ1 : Q1 (RunQ p) = l' ++ [x]).
  { unfold Q1. rewrite fn_lookup_insert, HQ. apply (rm_split cur [] _ Hnd). }
  pose proof (slot_ok _ _ _ _ (RunQ p) (l' ++ [x]) [] Hr1 ltac:(by rewrite app_nil_r) Hv) as Hslot.
  pose proof (rep_append _ _ _ _ (RunQ p) cur Hr1 Hv Hoff Hcur) as Hr2.
  rewrite HQ1 in Hr2. unfold slot_after in Hslot, Hr2. rewrite last_snoc in Hslot, Hr2.
  eapply wp_bind, wp_store; [exact Hslot|]. apply wp_bind. unfold wp at 1, set_tail. rewrite Hv. simpl.
  pose proof Hcur as Hcur'. rewrite (rep_lookup _ _ _ _ Hr1), fmap_is_Some in Hcur'. destruct Hcur' as [c2 Hc2].
  assert (Hxc : x <> cur) by (intros ->; apply NoDup_cons in Hnd as [Hn _]; apply Hn, elem_of_app; right; left).
  assert (Hc3 : alter (set_next FQ (Some cur)) x m !! cur = Some c2) by (by rewrite lookup_alter_ne).
  eapply wp_bind, wp_store; [by apply (next_ok _ _ _ _ c2)|]. apply wp_modify.
  set (Q2 := <[RunQ p := (l' ++ [x]) ++ [cur]]> Q1) in *.
  assert (HQ2 : Q2 (RunQ p) = (l' ++ [x]) ++ [cur]) by apply fn_lookup_insert.
  assert (Ho : forall q, q <> RunQ p -> Q2 q = Q q) by (intros q Hq; unfold Q2, Q1; by rewrite !fn_lookup_insert_ne).
  apply (HP _ Q2); [|by eapply inv_rotate|done|done|done|done|done|by destruct l'].
  split; [exact Hr2|]. intros p'. simpl. destruct (decide (p' = p)) as [->|].
  - by rewrite HQ2, lookup_insert_eq, last_snoc.
  - rewrite Ho by congruence. rewrite lookup_insert_ne by done. apply Ht.
Qed.

Lemma kwp_yield s (P : unit -> sched -> Prop) :
  kinv s -> 0 <= blockInts s ->
  (exists c, threadContext s !! currentThread s = Some c /\
     qhead s !! RunQ (priority c) = Some (currentThread s)) ->
  (forall s', done_safely s s' -> P tt s') -> kwp THREAD_YIELD P s.
Proof.
  intros Hk Hb (c & Hc & Hh) HP. pose proof Hk as [(Q & D & Hka) Hfd]. pose proof Hka as ([Hr Ht] & Hi & Hcur).
  assert (HQ : exists l, Q (RunQ (priority c)) = currentThread s :: l).
  { rewrite (rep_head _ _ _ _ Hr) in Hh. destruct (Q (RunQ (priority c))); simplify_eq/=. eauto. }
  destruct HQ as [l HQ]. apply wp_bind, wp_modify, wp_bind.
  eapply (wp_yield_queue _ _ (set_blockInts (blockInts s + 1) s)); [by split|done|exact Hc|done|exact HQ|].
  intros s1 Q1 Hk1 Hi1 _ _ He1 Hb1 _ _. assert (Hids : ids s1 = ids s) by (eapply (ids_same s s1); [exact Hr|apply Hk1]).
  apply kwp_restore; [eapply (kinv_intro s); [done|exact Hk1|done|exact He1|exact Hids]|simpl in Hb1; lia|].
  intros s2 Hk2 Hj2 Hb2. apply HP. split_and!; [done| |simpl in Hb1; lia]. etrans; [|exact Hj2].
  split; [|by apply env_current]. unfold evolve. rewrite Hids. split_and!; [done|by rewrite (env_events _ _ He1)|by rewrite (env_polls _ _ He1)].
Qed.

Lemma kwp_sleep s time (P : unit -> sched -> Prop) :
  kinv s -> 0 <= blockInts s ->
  (forall s', done_safely s s' -> P tt s') -> kwp (sleepThread time) P s.
Proof.
  intros Hk Hb HP. pose proof (kinv_current s Hk) as Ht. unfold sleepThread. destruct (time =? 0); [by apply wp_ret, HP|].
  apply wp_bind, wp_modify, wp_bind, wp_gets, wp_bind, kwp_suspendOnQThread; [done..|simpl; lia|done|].
  intros s1 (Hk1 & He1 & Hb1). simpl in Hb1. apply kwp_restore; [done|lia|]. intros s2 ? ? ?. apply HP.
  split_and!; [done|by etrans|lia].
Qed.

(** [thread_is] for a thread that had a context before a switch. *)
Lemma thread_is_rejoin s s' t : rejoin s s' -> thread_is s t (fun _ => True) -> thread_is s' t (fun _ => True).
Proof.
  intros [[Hd _] _] (c & Hc & _). destruct (ids_dom s s' t Hd) as [c' Hc']; [eauto|]. by exists c'.
Qed.

Lemma kwp_resumeThread s tid (P : unit -> sched -> Prop) :
  kinv s -> 0 <= blockInts s -> thread_is s tid (fun _ => True) ->
  (forall s', done_safely s s' -> P tt s') -> kwp (resumeThread tid) P s.
Proof.
  intros Hk Hb Ht HP. apply wp_bind, wp_modify. set (s0 := set_blockInts _ s).
  pose proof Ht as (c & Hc & _). eapply wp_bind, wp_TCTX; [done|]. apply wp_bind.
  apply (wp_mono _ _ _ (fun _ s1 => done_safely s0 s1)).
  { apply wp_when; intros _; [|done]. pose proof Hk as [(Q & D & Hka) Hfd].
    destruct (thread_is_data s _ _ _ _ (proj1 (proj1 Hka)) Ht) as (d & Hd & _).
    eapply wp_bind, (wp_upd_flags _ _ s0); [done..|by apply alarm_clear|]. intros s1 Hka1 Hq1 _.
    assert (Hd1 : done_safely s0 s1).
    { split_and!; [by eapply kat_kinv|by apply quiet_rejoin|apply Hq1]. }
    apply kwp_iresumeThread; [apply Hd1|eapply thread_is_rejoin; [apply Hd1|done]| |].
    - destruct Hd1 as (_ & _ & ->). simpl. lia.
    - intros s2 Hd2. by eapply done_safely_trans. }
  intros _ s1 (Hk1 & He1 & Hb1). simpl in Hb1. pose proof (thread_is_rejoin s0 s1 tid He1 Ht) as Ht1.
  pose proof Ht1 as (c1 & Hc1 & _). eapply wp_bind, wp_TCTX; [done|]. apply wp_bind.
  apply (wp_mono _ _ _ (fun _ s2 => done_safely s0 s2)).
  { apply wp_when; intros _; [|done]. apply kwp_iresumeThread; [done..|lia|].
    intros s2 Hd2. by eapply done_safely_trans. }
  intros _ s2 (Hk2 & He2 & Hb2). simpl in Hb2. apply kwp_restore; [done|lia|]. intros s3 ? ? ?. apply HP.
  split_and!; [done|by etrans|lia].
Qed.

Lemma kwp_stopThread s tid (P : unit -> sched -> Prop) :
  kinv s -> 0 <= blockInts s -> thread_is s tid (fun _ => True) ->
  (forall s', done_safely s s' -> P tt s') -> kwp (stopThread tid) P s.
Proof.
  intros Hk Hb Ht HP. pose proof Ht as (c & Hc & _). eapply wp_bind, wp_TCTX; [done|].
  destruct (_ || _); [by apply wp_ret, HP|]. apply wp_bind, wp_gets.
  destruct (_ =? tid); [done|]. pose proof Hk as [(Q & D & Hka) Hfd].
  destruct (thread_is_data s _ _ _ _ (proj1 (proj1 Hka)) Ht) as (d & Hd & _).
  eapply wp_bind, (wp_upd_flags _ _ s); [done..|by apply alarm_lor|]. intros s1 Hka1 Hq1 _.
  assert (Hd1 : done_safely s s1).
  { split_and!; [by eapply kat_kinv|by apply quiet_rejoin|apply Hq1]. }
  apply kwp_resumeThread; [apply Hd1| |eapply thread_is_rejoin; [apply Hd1|done]|].
  - destruct Hd1 as (_ & _ & ->). done.
  - intros s2 Hd2. by apply HP; eapply done_safely_trans.
Qed.

Lemma kwp_next_poll s (P : option Z -> sched -> Prop) : kinv s ->
  (forall p ps, polls s = p :: ps -> P p (set_polls ps s)) -> kwp next_poll P s.
Proof. intros Hk HP. unfold wp, next_poll. destruct (polls s); [done|]. by apply HP. Qed.

(** The closing [intsRestore(); assert(blockInts == 0); return r]. *)
Lemma kwp_return s (r : Z) (P : Z -> sched -> Prop) : kinv s -> blockInts s = 1 ->
  (forall s', kinv s' -> rejoin s s' -> blockInts s' = 0 -> P r s') ->
  kwp (intsRestore reschedule;; b ← gets blockInts; check (b =? 0);; mret r) P s.
Proof.
  intros Hk Hb HP. apply wp_bind, kwp_restore; [done|lia|]. intros s' ? ? ?.
  apply wp_bind, wp_gets, wp_bind, wp_check; [lia|]. apply wp_ret, HP; [done|done|lia].
Qed.

Lemma file_queue_ok op fd : valid_q (ReadQ fd) = true ->
  forall q, Some (file_queue op fd) = Some q -> block_q q = true /\ valid_q q = true.
Proof. intros Hv q [= <-]. by destruct op. Qed.

Lemma kwp_blockOnFile_retry fd op : valid_q (ReadQ fd) = true -> forall fuel s (P : Z -> sched -> Prop),
  kinv s -> blockInts s = 1 -> (length (polls s) <= fuel)%nat ->
  (forall r s', kinv s' -> rejoin s s' -> blockInts s' = 0 -> P r s') ->
  kwp (blockOnFile_retry fuel fd op) P s.
Proof.
  intros Hv. assert (Hrest : forall fuel retry, (forall s (P : Z -> sched -> Prop),
      kinv s -> blockInts s = 1 -> (length (polls s) < fuel)%nat ->
      (forall r s', kinv s' -> rejoin s s' -> blockInts s' = 0 -> P r s') -> kwp retry P s) ->
    forall s (P : Z -> sched -> Prop), kinv s -> blockInts s = 1 -> (length (polls s) <= fuel)%nat ->
      (forall r s', kinv s' -> rejoin s s' -> blockInts s' = 0 -> P r s') ->
    kwp (p ← next_poll;
      match p with
      | None => retry
      | Some r =>
          if negb (r =? 0) then
            intsRestore reschedule;; b ← gets blockInts; check (b =? 0);; mret r
          else
            modify (fun s => if maxFd s <? fd then set_maxFd fd s else s);;
            set_pending op (fun fds => {[fd]} ∪ fds);;
            cur ← gets currentThread;
            suspendOnQThread cur (Some (file_queue op fd)) NOTIMEOUT false;;
            set_pending op (fun fds => fds ∖ {[fd]});;
            cur ← gets currentThread;
            c ← TCTX cur;
            if has_flag THREAD_FLAGS_ERROR c then
              upd_ctx cur (clear_flags THREAD_FLAGS_ERROR);; retry
            else
              intsRestore reschedule;; b ← gets blockInts; check (b =? 0);; mret 1
      end) P s).
  { intros fuel retry Hretry s P Hk Hb Hf HP. apply wp_bind, kwp_next_poll; [done|]. intros p ps Eps.
    rewrite Eps in Hf. simpl in Hf. set (s0 := set_polls ps s).
    assert (He0 : rejoin s s0) by (split; [split_and!; [done|done|simpl; rewrite Eps; simpl; lia]|done]).
    assert (HP0 : forall r s', kinv s' -> rejoin s0 s' -> blockInts s' = 0 -> P r s').
    { intros r s' ? ? ?. apply HP; [done|by etrans|done]. }
    destruct p as [r|]; [|by apply Hretry]. destruct (negb (r =? 0)); [apply kwp_return; [done..|]; intros s' ? ? ?; by apply HP0|].
    apply wp_bind, wp_modify. set (s1 := if maxFd s0 <? fd then set_maxFd fd s0 else s0).
    assert (Hk1 : kinv s1 /\ rejoin s0 s1 /\ blockInts s1 = 1).
    { unfold s1. destruct (_ <? fd); [|done]. split_and!; [|done|done].
      split; [apply Hk|]. split; [simpl in *; lia|apply Hk]. }
    destruct Hk1 as (Hk1 & He1 & Hb1). apply wp_bind, wp_modify.
    set (s2 := match op with TH_READ => _ | TH_WRITE => _ end).
    assert (Hk2 : kinv s2 /\ rejoin s1 s2 /\ blockInts s2 = 1).
    { split_and!; [by apply (kinv_view s1); [destruct op|]|by destruct op|by destruct op]. }
    destruct Hk2 as (Hk2 & He2 & Hb2).
    apply wp_bind, wp_gets, wp_bind, kwp_suspendOnQThread; [done|by apply kinv_current|lia|by apply file_queue_ok|].
    intros s3 (Hk3 & He3 & Hb3). apply wp_bind, wp_modify.
    set (s4 := match op with TH_READ => _ | TH_WRITE => _ end).
    assert (Hk4 : kinv s4 /\ rejoin s0 s4 /\ blockInts s4 = 1).
    { split_and!; [by apply (kinv_view s3); [destruct op|]| |destruct op; simpl; lia].
      etrans; [done|]. etrans; [done|]. etrans; [done|]. by destruct op. }
    destruct Hk4 as (Hk4 & He4 & Hb4). apply wp_bind, wp_gets.
    pose proof Hk4 as [(Q & D & Hka) Hfd]. pose proof Hka as (Hkr & Hi & [dc Hc]).
    eapply wp_bind, wp_ctx; [apply Hkr|done|]. intros c _ _. destruct (has_flag _ c).
    - eapply wp_bind, (wp_upd_flags _ _ s4); [done..|by apply alarm_clear|]. intros s5 Hka5 Hq5 _.
      apply quiet_rejoin in Hq5 as He5. apply Hretry.
      + by eapply kat_kinv.
      + destruct Hq5 as (_ & -> & _). done.
      + destruct He4 as [(_ & _ & ?) _], He5 as [(_ & _ & ?) _]. simpl in *. lia.
      + intros r' s' ? ? ?. apply HP0; [done|by do 2 (etrans; [done|])|done].
    - apply kwp_return; [done..|]. intros s' ? ? ?. apply HP0; [done|by etrans|done]. }
  induction fuel as [|fuel IH]; intros s P Hk Hb Hf HP; cbn [blockOnFile_retry]; rewrite Hv; cbn [negb];
    eapply Hrest; try done; intros s1 P1 Hk1 Hb1 Hf1 HP1; [lia|]. apply IH; [done..|lia|done].
Qed.

Lemma kwp_blockOnFile s fd op (P : Z -> sched -> Prop) :
  kinv s -> blockInts s = 0 -> fd < FD_SETSIZE ->
  (forall r s', done_safely s s' -> P r s') -> kwp (blockOnFile fd op) P s.
Proof.
  intros Hk Hb Hfd HP. unfold blockOnFile. destruct (Z.ltb_spec fd 0); [by apply wp_ret, HP|].
  apply wp_bind, wp_modify, wp_bind, wp_gets, kwp_blockOnFile_retry; [simpl; lia|done|simpl; lia|done|].
  intros r s' ? ? ?. apply HP. split_and!; [done..|lia].
Qed.

(** ** Theorems *)

(** The operations of the scheduler that keep its invariant, called with
    interrupts on: [resumeThread], [stopThread], [setPriorityThread],
    [aliveThread], [THREAD_YIELD], [sleepThread], [blockOnFile], the alarm
    handler, and the resumption that starts a thread.  [suspendThread] does not
    keep it, see [suspendThread_loses_thread]. *)
Inductive api :=
| AResume (tid : Z) | AStop (tid : Z) | ASetPriority (tid prio : Z) | AAlive (tid : Z) | AYield
| ASleep (time : Z) | ABlockOnFile (fd : Z) (op : file_op) | AAlarm | AStart (tid : Z).

Definition run_api (a : api) : K unit :=
  match a with
  | AResume tid => resumeThread tid
  | AStop tid => stopThread tid
  | ASetPriority tid prio => setPriorityThread tid prio
  | AAlive tid => aliveThread tid;; mret tt
  | AYield => THREAD_YIELD
  | ASleep time => sleepThread time
  | ABlockOnFile fd op => blockOnFile fd op;; mret tt
  | AAlarm => alarmException reschedule
  | AStart tid => iresumeThread reschedule tid
  end.

Definition api_pre (a : api) (s : sched) : Prop :=
  match a with
  | AResume tid | AStop tid | AStart tid => is_Some (threadContext s !! tid)
  | ASetPriority tid prio => threadContext s !! tid = None \/
      (alive s tid /\ 1 <= prio <= java_lang_Thread_MAX_PRIORITY)
  | AYield => exists c, threadContext s !! currentThread s = Some c /\
      qhead s !! RunQ (priority c) = Some (currentThread s)
  | ABlockOnFile fd _ => fd < FD_SETSIZE
  | AAlive _ | ASleep _ | AAlarm => True
  end.

(** C8: resuming, stopping or starting a thread that has a context, setting
    the priority of a thread that is not dead to a legal one, asking whether a
    thread is alive, yielding by a thread at the head of its run queue,
    sleeping, waiting for a descriptor below [FD_SETSIZE] and the alarm handler
    are safe.  Called with interrupts on in a state that satisfies the invariant,
    none of them dereferences a bad pointer, fails an assertion or loops for
    ever; whenever it switches to another thread,
    throws [ThreadDeath] or waits for an event that never comes, the queues are
    linked correctly and every thread is where its status says; and when it
    returns, after any number of switches in which other threads kept the
    invariant, the invariant holds, the calling thread is current and
    interrupts are on again.  [suspendThread] and the priority of a dead thread
    are left out because they break the invariant, as
    [suspendThread_loses_thread] and [setPriority_schedules_dead_thread] show;
    [killThread], the end of a thread, never returns and is left out too. *)
Theorem scheduler_safe (a : api) (s : sched) (Hk : kinv s) (Hb : blockInts s = 0)
    (Hpre : api_pre a s) :
  wp kinv evolve (run_api a) (fun _ s' => kinv s' /\ rejoin s s' /\ blockInts s' = 0) s.
Proof.
  assert (Hfin : forall s', done_safely s s' -> kinv s' /\ rejoin s s' /\ blockInts s' = 0).
  { intros s' (? & ? & ?). split_and!; [done..|lia]. }
  assert (Hctx : forall tid, is_Some (threadContext s !! tid) -> thread_is s tid (fun _ => True)).
  { intros tid [c Hc]. by exists c. }
  destruct a; cbn [run_api api_pre] in *.
  - apply kwp_resumeThread; [done|lia|auto..].
  - apply kwp_stopThread; [done|lia|auto..].
  - destruct Hpre as [Hno|[? ?]]; [|apply kwp_setPriority; [done..|lia|done]].
    apply wp_bind, wp_gets. rewrite bool_decide_eq_false_2; [|by rewrite Hno; intros []]. apply wp_modify.
    split_and!; [by eapply kinv_view|done|done].
  - apply wp_bind, wp_bind, wp_modify, wp_bind, wp_gets, wp_bind, kwp_restore; [by eapply kinv_view|simpl; lia|].
    intros s' ? ? Hb'. do 2 apply wp_ret. simpl in Hb'. split_and!; [done..|lia].
  - apply kwp_yield; [done|lia|done..].
  - apply kwp_sleep; [done|lia|done].
  - apply wp_bind, kwp_blockOnFile; [done..|]. intros _ s' Hs. by apply wp_ret, Hfin.
  - eapply (kwp_alarmException (S (length (events s)))); [|done|lia|lia|].
    + intros s1 P1 Hk1 _ Hb1 HP1. by apply kwp_reschedule_gen.
    + intros s' ? ? ?. apply Hfin. by split_and!.
  - apply kwp_iresumeThread; [done|auto|lia|done].
Qed.

(** C29: resuming a blocked thread, with interrupts off, refines the queue
    specification [resumeQ]: the thread leaves the alarm list and the queue it
    is blocked on and joins the end of the run queue of its priority, all
    other queues are as before, its context is running and unblocked, and the
    invariant holds. *)
Theorem iresumeThread_refines (s : sched) (Q : qref -> list Z) (D : gmap Z ctx) (tid : Z) (d : ctx)
    (Hk : krep s Q D) (Hi : inv Q D) (Hc : is_Some (D !! currentThread s))
    (Hd : D !! tid = Some d) (Hst : status d <> THREAD_RUNNING) (Hb : 1 <= blockInts s) :
  exists s', iresumeThread reschedule tid s = Done s' tt /\
    krep s' (resumeQ tid d Q) (<[tid := resumeC d]> D) /\
    inv (resumeQ tid d Q) (<[tid := resumeC d]> D) /\
    env s' = env s /\ blockInts s' = blockInts s.
Proof.
  destruct (wp_done (fun _ _ => True) (iresumeThread reschedule tid) (fun _ s' =>
    krep s' (resumeQ tid d Q) (<[tid := resumeC d]> D) /\ inv (resumeQ tid d Q) (<[tid := resumeC d]> D) /\
    env s' = env s /\ blockInts s' = blockInts s) s) as (s' & [] & E & H); [|eauto].
  eapply wp_iresume_masked; [by split_and!|done|done|done|].
  intros _ s' (? & ? & _) (? & ? & _). by split_and!.
Qed.


(** The state in which an operation first stops or switches. *)
Definition first_state {A} (m : step A) : option sched :=
  match m with Done s _ | Yield _ s _ => Some s | _ => None end.

Lemma highest_eq s Q D : rep (threadContext s) (qhead s) Q D ->
  highest 10 java_lang_Thread_MAX_PRIORITY s = Done s (highestQ Q 10 10).
Proof.
  intros Hr. destruct (wp_done (fun _ _ => True) (highest 10 java_lang_Thread_MAX_PRIORITY)
    (fun h s' => h = highestQ Q 10 10 /\ s' = s) s) as (s' & h & E & -> & ->); [|done].
  by eapply wp_highest.
Qed.

Lemma highestQ_none Q n p : highestQ Q n p = None -> forall p', p - Z.of_nat n < p' <= p -> Q (RunQ p') = [].
Proof.
  revert p. induction n as [|n IH]; intros p Hh p' Hp; [lia|]. simpl in Hh.
  destruct (Q (RunQ p)) eqn:E; [|done]. destruct (decide (p' = p)) as [->|]; [done|]. eapply IH; [done|lia].
Qed.

(** C31: [reschedule] runs the best thread: when some thread is runnable it
    returns or switches, without waiting, with [currentThread] a runnable
    thread of the highest priority, the first of its queue. *)
Theorem reschedule_picks_highest (s : sched) (Q : qref -> list Z) (D : gmap Z ctx) (u : Z) (du : ctx)
    (Hk : krep s Q D) (Hi : inv Q D) (Hu : D !! u = Some du) (Hru : status du = THREAD_RUNNING) :
  exists s' t d l, first_state (reschedule s) = Some s' /\ currentThread s' = t /\
    D !! t = Some d /\ status d = THREAD_RUNNING /\ Q (RunQ (priority d)) = t :: l /\
    forall v dv, D !! v = Some dv -> status dv = THREAD_RUNNING -> priority dv <= priority d.
Proof.
  destruct Hk as [Hr Ht]. pose proof (i_prio _ _ Hi u du Hu) as Hpu.
  assert (Hin : forall v dv, D !! v = Some dv -> status dv = THREAD_RUNNING -> v ∈ Q (RunQ (priority dv))).
  { intros v dv ? ?. apply (i_run _ _ Hi). eauto. }
  destruct (highestQ Q 10 10) as [t|] eqn:Eh.
  2:{ apply highestQ_none with (p' := priority du) in Eh; [|simpl; lia]. specialize (Hin u du Hu Hru).
      rewrite Eh in Hin. by apply elem_of_nil in Hin. }
  pose proof (highestQ_in _ _ _ _ Eh) as (p & l & Hq & Hp & Hall).
  assert (Ht' : t ∈ Q (RunQ p)) by (rewrite Hq; left).
  apply (i_run _ _ Hi) in Ht' as (d & Hd & Hst & <-).
  assert (Hbest : forall v dv, D !! v = Some dv -> status dv = THREAD_RUNNING -> priority dv <= priority d).
  { intros v dv Hv Hsv. specialize (Hin v dv Hv Hsv). destruct (Z.le_gt_cases (priority dv) (priority d)); [done|].
    pose proof (i_prio _ _ Hi v dv Hv). rewrite Hall in Hin by lia. by apply elem_of_nil in Hin. }
  destruct (rep_lookup_Some _ _ _ _ Hr t d Hd) as (c & Hc & _).
  change (reschedule s) with (reschedule_loop (S (length (events s))) false (blockInts s) s).
  cbn [reschedule_loop]. unfold mbind, K_bind. rewrite (highest_eq s Q D Hr), Eh. cbn [step_bind gets].
  destruct (Z.eqb_spec t (currentThread s)) as [E|E]; cbn [negb when].
  - eexists _, t, d, l. simpl. split_and!; [done|by simpl|done..].
  - unfold TCTX at 1. rewrite Hc. cbn [step_bind modify THREADSWITCH first_state].
    eexists _, t, d, l. split_and!; [done|done|done..].
Qed.

(** C32: the alarm handler wakes exactly the threads that are due.  When
    interrupts are off it only asks for another alarm in 50 ticks.  Otherwise the
    threads on the alarm list whose time is not after the current one are
    resumed in the order of their times: they are marked running, join the ends
    of the run queues of their priorities and leave the queues they were
    blocked on; the other sleepers stay on the alarm list in order, and no other
    queue or context changes.  The timer is set for the first remaining
    sleeper, rescheduling is requested when a woken thread is better than the
    current one and the first of its priority, the invariant holds, and the
    handler ends by turning interrupts on again, with [alarmBlocked] set while
    it may reschedule and cleared afterwards. *)
Theorem alarm_wakes_expired (resched : K unit) (s : sched) (Q : qref -> list Z) (D : gmap Z ctx)
    (Hk : krep s Q D) (Hi : inv Q D) (Hc : is_Some (D !! currentThread s)) (Hb : 0 <= blockInts s) :
  let w := due D (clock s) (Q AlarmList) in
  if 1 <=? blockInts s then alarmException resched s = Done (set_malarm (Some 50) s) tt
  else exists s1 Q1, krep s1 Q1 (wokenD w D) /\ inv Q1 (wokenD w D) /\
    (forall q, Q1 q = wokenQ D (clock s) Q q) /\
    env s1 = env s /\ blockInts s1 = 1 /\ alarmBlocked s1 = true /\
    malarm s1 = match later D (clock s) (Q AlarmList) with
                | [] => malarm s
                | t :: _ => Some (time_of D t - clock s)
                end /\
    needReschedule s1 = needReschedule s || preempts Q D (currentThread s) w /\
    alarmException resched s = (intsRestore resched;; modify (set_alarmBlocked false)) s1.
Proof.
  intros w. destruct (Z.leb_spec 1 (blockInts s)) as [Hb1|Hb1].
  { unfold alarmException, intsRestore, mbind, K_bind. simpl.
    destruct (Z.ltb_spec 1 (blockInts s + 1)); [|lia]. simpl.
    destruct (Z.eqb_spec (blockInts s + 1) 1); [lia|]. simpl.
    unfold modify. simpl. replace (blockInts s + 1 - 1) with (blockInts s) by lia. by destruct s. }
  set (X m := exists s1 Q1, krep s1 Q1 (wokenD w D) /\ inv Q1 (wokenD w D) /\
    (forall q, Q1 q = wokenQ D (clock s) Q q) /\
    env s1 = env s /\ blockInts s1 = 1 /\ alarmBlocked s1 = true /\
    malarm s1 = match later D (clock s) (Q AlarmList) with
                | [] => malarm s
                | t :: _ => Some (time_of D t - clock s)
                end /\
    needReschedule s1 = needReschedule s || preempts Q D (currentThread s) w /\
    m = (intsRestore resched;; modify (set_alarmBlocked false)) s1).
  change (X (alarmException resched s)). set (s0 := set_blockInts (blockInts s + 1) s).
  apply (reach_bind _ _ X), wp_modify, (reach_bind _ _ X), wp_gets. fold s0.
  change (blockInts s0) with (blockInts s + 1). destruct (Z.ltb_spec 1 (blockInts s + 1)); [lia|].
  apply (reach_bind _ _ X), wp_gets, (reach_bind _ _ X), wp_gets, (reach_bind _ _ X).
  eapply (wp_wake_expired _ _ _ _ _ s0 Q D); [by split_and!|simpl; lia|eapply lseg_length; apply Hk|].
  intros s2 Q2 Hka2 (He2 & Hb2 & _) HQ2 Hm2 _ Hn2. simpl in Hb2, Hm2, Hn2. pose proof Hka2 as ([Hr2 Ht2] & Hi2 & _).
  apply (reach_bind _ _ X), wp_load_head; [done|]. rewrite (rep_head _ _ _ _ Hr2).
  specialize (HQ2 AlarmList) as HA. simpl in HA. rewrite HA. apply (reach_bind _ _ X).
  apply (wp_mono _ _ _ (fun _ s3 => s3 = set_malarm (match later D (clock s) (Q AlarmList) with
      | [] => malarm s | t :: _ => Some (time_of D t - clock s) end) s2)).
  { destruct (later D (clock s) (Q AlarmList)) as [|t l] eqn:El; simpl.
    - apply wp_ret. rewrite <- Hm2. by destruct s2.
    - destruct (rep_in_data _ _ _ _ Hr2 AlarmList t) as [d Hd]; [rewrite HA; left|].
      eapply wp_bind, wp_ctx; [done..|]. intros c _ Ec. apply wp_modify. do 2 f_equal.
      assert (Hin : t ∈ later D (clock s) (Q AlarmList)) by (rewrite El; left).
      apply list_elem_of_filter in Hin as [Hlt Hin]. unfold time_of in *. destruct (i_alarm _ _ Hi t Hin) as (e & He & _).
      unfold wokenD in Hd. rewrite map_lookup_imap, He in Hd. rewrite He in Hlt |- *. simpl in *.
      rewrite decide_False in Hd; [subst d; by simplify_eq/=|].
      intros Hw. apply list_elem_of_filter in Hw as [Hw _]. unfold time_of in Hw. rewrite He in Hw. simpl in Hw. lia. }
  intros _ s3 ->. apply (reach_bind _ _ X), wp_modify. do 2 eexists. split_and!; last reflexivity.
  all: first [exact (conj Hr2 Ht2)|exact Hi2|exact HQ2|exact He2|exact Hn2|reflexivity|simpl; lia].
Qed.

(** ** A concrete scheduler state

    Threads 1 (current) and 4 run at priority 5, thread 2 reads descriptor 3,
    and thread 3 sleeps until time 100. *)

Definition ex_c1 := mkCtx THREAD_RUNNING 5 0 (Some 4) None None None 0 1.
Definition ex_c2 := mkCtx THREAD_SUSPENDED 7 0 None None None (Some (ReadQ 3)) 0 2.
Definition ex_c3 := mkCtx THREAD_SUSPENDED 4 100 None None None None THREAD_FLAGS_ALARM 3.
Definition ex_c4 := mkCtx THREAD_RUNNING 5 0 None None None None 0 4.

Definition ex_ctxs : gmap Z ctx := <[1 := ex_c1]> (<[2 := ex_c2]> (<[3 := ex_c3]> (<[4 := ex_c4]> ∅))).
Definition ex_heads : gmap qref Z := <[RunQ 5 := 1]> (<[ReadQ 3 := 2]> (<[AlarmList := 3]> ∅)).

Definition ex_sched (b : Z) : sched :=
  mkSched ex_ctxs ex_heads {[5 := 4]} 1 1 ∅ ∅ b false false 0 None 3 {[3]} ∅
    [EvAlarm 100] [] 4 0 ∅ ∅ 1.

Definition ex_Q (q : qref) : list Z :=
  match q with
  | RunQ p => if p =? 5 then [1; 4] else []
  | ReadQ fd => if fd =? 3 then [2] else []
  | AlarmList => [3]
  | _ => []
  end.

Definition ex_D : gmap Z ctx := erase <$> ex_ctxs.

Lemma ex_lookup t d : ex_D !! t = Some d ->
  (t = 1 /\ d = erase ex_c1) \/ (t = 2 /\ d = erase ex_c2) \/ (t = 3 /\ d = erase ex_c3) \/ (t = 4 /\ d = erase ex_c4).
Proof.
  unfold ex_D. rewrite lookup_fmap. intros (c & Hc & ->)%fmap_Some. unfold ex_ctxs in Hc.
  repeat (apply lookup_insert_Some in Hc as [[<- <-]|[_ Hc]]; [tauto|]). done.
Qed.

Lemma ex_in q t : t ∈ ex_Q q -> (q = RunQ 5 /\ (t = 1 \/ t = 4)) \/ (q = ReadQ 3 /\ t = 2) \/ (q = AlarmList /\ t = 3).
Proof.
  destruct q as [p| | |fd| | |]; simpl; try (by intros []%elem_of_nil).
  - destruct (Z.eqb_spec p 5) as [->|]; [set_solver|by intros []%elem_of_nil].
  - destruct (Z.eqb_spec fd 3) as [->|]; [set_solver|by intros []%elem_of_nil].
  - set_solver.
Qed.

Lemma ex_rep : rep ex_ctxs ex_heads ex_Q ex_D.
Proof.
  assert (Hn : forall q, ex_Q q = [] -> ex_heads !! q = None).
  { intros q Hq. unfold ex_heads. rewrite !lookup_insert_ne; [done|..]; by intros <-. }
  split; [| | | |done].
  - intros q. destruct (ex_Q q) as [|t l] eqn:Eq; [by apply Hn|]. rewrite <- Eq.
    destruct (ex_in q t) as [[-> _]|[[-> _]|[-> _]]]; [rewrite Eq; left|..]; simpl.
    + split; [done|]. exists ex_c1. split; [done|]. split; [done|]. by exists ex_c4.
    + split; [done|]. by exists ex_c2.
    + split; [done|]. by exists ex_c3.
  - intros q. destruct q as [p| | |fd| | |]; simpl; try constructor; try case_test; repeat constructor; set_solver.
  - intros q q' t Hl Ha%ex_in Hb%ex_in. naive_solver lia.
  - intros q t Ht%ex_in. naive_solver.
Qed.

Lemma ex_inv : inv ex_Q ex_D.
Proof.
  split.
  - intros t p. split.
    + intros [[[= ->] Ht]|[[? _]|[? _]]]%ex_in; [|done..].
      destruct Ht as [->| ->]; [exists (erase ex_c1)|exists (erase ex_c4)]; done.
    + intros (d & Hd%ex_lookup & Hs & Hp).
      destruct Hd as [[-> ->]|[[-> ->]|[[-> ->]|[-> ->]]]]; simpl in *; try done; subst p; simpl; set_solver.
  - intros t d Hd%ex_lookup. destruct Hd as [[-> ->]|[[-> ->]|[[-> ->]|[-> ->]]]]; simpl; lia.
  - intros q t Hq [[-> _]|[[-> ->]|[-> _]]]%ex_in; try done. by exists (erase ex_c2).
  - intros t d q Hd%ex_lookup Hb. destruct Hd as [[-> ->]|[[-> ->]|[[-> ->]|[-> ->]]]]; simplify_eq/=; done.
  - intros t [[? _]|[[? _]|[_ ->]]]%ex_in; try done. by exists (erase ex_c3).
  - repeat constructor.
Qed.

Lemma ex_krep b : krep (ex_sched b) ex_Q ex_D.
Proof.
  split; [apply ex_rep|]. intros p. simpl. destruct (Z.eqb_spec p 5) as [->|]; [done|done].
Qed.

Lemma ex_kinv b : kinv (ex_sched b).
Proof.
  split; [|by split]. exists ex_Q, ex_D. split_and!; [apply ex_krep|apply ex_inv|by exists (erase ex_c1)].
Qed.

Lemma scheduler_safe_witness :
  wp kinv evolve (run_api (ASleep 50)) (fun _ s' => kinv s' /\ rejoin (ex_sched 0) s' /\ blockInts s' = 0) (ex_sched 0)
  /\ wp kinv evolve (run_api AYield) (fun _ s' => kinv s' /\ rejoin (ex_sched 0) s' /\ blockInts s' = 0) (ex_sched 0).
Proof.
  split; apply scheduler_safe.
  - apply ex_kinv.
  - reflexivity.
  - exact I.
  - apply ex_kinv.
  - reflexivity.
  - exists ex_c1. split; reflexivity.
Defined.

Lemma iresumeThread_refines_witness : exists s', iresumeThread reschedule 2 (ex_sched 1) = Done s' tt /\
  krep s' (resumeQ 2 (erase ex_c2) ex_Q) (<[2 := resumeC (erase ex_c2)]> ex_D).
Proof.
  destruct (iresumeThread_refines (ex_sched 1) ex_Q ex_D 2 (erase ex_c2) (ex_krep 1) ex_inv) as (s' & E & Hk & _).
  - exists (erase ex_c1). reflexivity.
  - reflexivity.
  - discriminate.
  - simpl. lia.
  - exists s'. split; [exact E|exact Hk].
Defined.


Lemma reschedule_picks_highest_witness : exists s' t, first_state (reschedule (ex_sched 1)) = Some s' /\
  currentThread s' = t.
Proof.
  destruct (reschedule_picks_highest (ex_sched 1) ex_Q ex_D 4 (erase ex_c4) (ex_krep 1) ex_inv)
    as (s' & t & d & l & E & Et & _).
  - reflexivity.
  - reflexivity.
  - exists s', t. split; [exact E|exact Et].
Defined.

(** At time 100 thread 3 wakes and joins the run queue of its priority. *)
Definition ex_due : sched := set_clock 100 (ex_sched 0).

Lemma alarm_wakes_expired_witness : exists s1 Q1,
  alarmException reschedule ex_due = (intsRestore reschedule;; modify (set_alarmBlocked false)) s1 /\
  Q1 AlarmList = @nil Z /\ Q1 (RunQ 4) = [3] /\ Q1 (RunQ 5) = [1; 4] /\ malarm s1 = None.
Proof.
  destruct (alarm_wakes_expired reschedule ex_due ex_Q ex_D (ex_krep 0) ex_inv) as (s1 & Q1 & _ & _ & HQ & _ & _ & _ & Hm & _ & E).
  - exists (erase ex_c1). reflexivity.
  - simpl. lia.
  - exists s1, Q1. split; [exact E|]. rewrite !HQ, Hm. repeat split; vm_compute; reflexivity.
Defined.

(** ** Where the code departs from the invariant *)

Definition run_all (l : list (K unit)) : K unit := fold_right (fun m k => m;; k) (mret tt) l.

Definition state_of {A} (m : step A) (dflt : sched) : sched := match m with Done s _ => s | _ => dflt end.

(** Thread 4 is suspended by the user, then thread 2 is resumed at priority 5. *)
Definition lost_state : sched :=
  state_of (run_all [setPriorityThread 2 5; suspendThread 4; iresumeThread reschedule 2] (ex_sched 0)) (ex_sched 0).

(** [suspendThread] breaks the run queue.  It takes a thread out of its
    queue without updating [threadQtail], unlike [suspendOnQThread] and
    [setPriorityThread]; when the last thread of the queue is suspended, the
    next thread that becomes runnable is linked behind the suspended one and
    is lost: it is marked running but on no run queue. *)
Theorem suspendThread_loses_thread :
  kinv (ex_sched 0) /\
  run_all [setPriorityThread 2 5; suspendThread 4; iresumeThread reschedule 2] (ex_sched 0) = Done lost_state tt /\
  (exists c, threadContext lost_state !! 2 = Some c /\ status c = THREAD_RUNNING /\ priority c = 5) /\
  (exists c, qhead lost_state !! RunQ 5 = Some 1 /\ threadContext lost_state !! 1 = Some c /\ nextQ c = None) /\
  ~ kinv lost_state.
Proof.
  assert (H2 : exists c, threadContext lost_state !! 2 = Some c /\ status c = THREAD_RUNNING /\ priority c = 5)
    by (eexists; split_and!; vm_compute; reflexivity).
  assert (H1 : exists c, qhead lost_state !! RunQ 5 = Some 1 /\ threadContext lost_state !! 1 = Some c /\ nextQ c = None)
    by (eexists; split_and!; vm_compute; reflexivity).
  split_and!; [apply ex_kinv|vm_compute; reflexivity|done|done|].
  intros [(Q & D & [Hr _] & Hi & _) _]. destruct H1 as (c1 & Hh & Hc1 & Hn), H2 as (c2 & Hc2 & Hs & Hp).
  assert (Hin : 2 ∈ Q (RunQ 5)).
  { apply (i_run _ _ Hi). exists (erase c2). split_and!; [|done..]. by rewrite (rep_lookup _ _ _ _ Hr), Hc2. }
  pose proof (rep_chain _ _ _ _ Hr (RunQ 5)) as Hl. rewrite Hh in Hl.
  destruct (Q (RunQ 5)) as [|t l]; [by apply elem_of_nil in Hin|]. destruct Hl as ([= <-] & c & Hc & Hl).
  simplify_eq. simpl in Hl. rewrite Hn in Hl. destruct l as [|? ?]; [|by destruct Hl].
  by apply list_elem_of_singleton in Hin.
Qed.

(** Thread 3 is dead. *)
Definition dead_sched : sched :=
  set_qhead (<[RunQ 5 := 1]> (<[ReadQ 3 := 2]> ∅))
    (set_threadContext (<[3 := mkCtx THREAD_DEAD 4 0 None None None None 0 3]> ex_ctxs) (ex_sched 0)).

(** [setPriorityThread] on a dead thread whose context is not yet freed
    puts it back on a run queue, since only suspended threads are excepted
    from the insertion, and the processor switches to a thread that has exited. *)
Theorem setPriority_schedules_dead_thread : exists s' k c,
  setPriorityThread 3 6 dead_sched = Yield 1 s' k /\ currentThread s' = 3 /\
  threadContext s' !! 3 = Some c /\ status c = THREAD_DEAD.
Proof.
  eexists _, _, _. split; [vm_compute; reflexivity|]. split_and!; vm_compute; reflexivity.
Qed.
