(* ===== verification/SchedLiveness.v ===== *)
(** * Turns of the threads that yield (src/runtime/thread-internal.c)

    The threads at the highest priority as a system: each runs until it yields,
    the scheduler switches, and the thread switched to goes on from where it was
    switched out.  Each of them gets the processor within as many turns as there
    are threads in the queue. *)

From stdpp Require Import functions.
From S2P Require Import Prelude Threads SchedSafety.

(** The scheduler's state and what each thread that is switched out does when
    it is switched to. *)
Record world := mkWorld { w_sched : sched; w_conts : gmap Z (sched -> step unit) }.

(** The current thread yields, and the thread that is switched to returns from
    its own call. *)
Definition turn (w : world) : option world :=
  match THREAD_YIELD (w_sched w) with
  | Done s _ => Some (mkWorld s (w_conts w))
  | Yield from s k =>
      let conts := <[from := k]> (w_conts w) in
      match conts !! currentThread s with
      | Some k' => match k' s with Done s' _ => Some (mkWorld s' conts) | _ => None end
      | None => None
      end
  | _ => None
  end.

Fixpoint turns (n : nat) (w : world) : option world :=
  match n with O => Some w | S n => w' ← turn w; turns n w' end.

(** ** One turn *)

Definition not_killed (D : gmap Z ctx) (t : Z) : Prop :=
  exists d, D !! t = Some d /\ has_flag THREAD_FLAGS_KILLED d = false.

(** [k] is how [t] goes on when it was switched out by a yield: it comes back
    with interrupts enabled. *)
Definition resumes (t : Z) (k : sched -> step unit) : Prop :=
  forall s Q D, krep s Q D -> currentThread s = t -> not_killed D t ->
  k s = Done (set_blockInts 0 (set_needReschedule false (set_blockInts 1 (set_alarmBlocked false s)))) tt.

Lemma not_killed_ctx s Q D t : krep s Q D -> not_killed D t ->
  exists c, threadContext s !! t = Some c /\ has_flag THREAD_FLAGS_KILLED c = false.
Proof.
  intros [Hr _] (d & Hd & Hf). destruct (rep_lookup_Some _ _ _ _ Hr _ _ Hd) as (c & Hc & <-). by exists c.
Qed.

(** What the switch in a yield leaves to do. *)
Definition after_switch (last : Z) : K unit :=
  ((modify (set_alarmBlocked false);;
    modify (set_blockInts 1);;
    lc ← TCTX last;
    when (has_flag THREAD_FLAGS_KILLED lc && (1 =? 1)) (
      upd_ctx last (clear_flags THREAD_FLAGS_KILLED);;
      modify (set_blockInts 0);;
      throw ThreadDeath));;
   modify (set_needReschedule false));;
  modify (fun s => set_blockInts (blockInts s - 1) s).

Lemma after_switch_resumes t : resumes t (after_switch t).
Proof.
  intros s Q D Hk Ht Hn. destruct (not_killed_ctx s Q D t Hk Hn) as (c & Hc & Hf).
  unfold after_switch, mbind, K_bind. cbn [step_bind modify]. unfold TCTX. simpl. rewrite Hc. simpl. by rewrite Hf.
Qed.

Lemma THREAD_YIELD_eq s :
  THREAD_YIELD s = step_bind (yield_queue (set_blockInts (blockInts s + 1) s)) (fun _ => intsRestore reschedule).
Proof. reflexivity. Qed.

(** The scheduler's state between turns: [l] is the queue of the highest
    priority that has threads, and the current thread is its first. *)
Record top_queue (s : sched) (Q : qref -> list Z) (D : gmap Z ctx) (p : Z) (l : list Z) : Prop := {
  t_rep : krep s Q D;
  t_inv : inv Q D;
  t_queue : Q (RunQ p) = l;
  t_prio : p <= java_lang_Thread_MAX_PRIORITY;
  t_above p' : p < p' <= java_lang_Thread_MAX_PRIORITY -> Q (RunQ p') = [];
  t_current : head l = Some (currentThread s) }.

Lemma top_highest Q p t l : Q (RunQ p) = t :: l -> 1 <= p <= 10 ->
  (forall p', p < p' <= 10 -> Q (RunQ p') = []) -> highestQ Q 10 10 = Some t.
Proof.
  intros HQ Hp Ha. assert (Hg : forall n q, p <= q <= 10 -> q - Z.of_nat n < p -> highestQ Q n q = Some t).
  { induction n as [|n IH]; intros q Hq Hn; [lia|]. cbn [highestQ].
    destruct (decide (q = p)) as [->|]; [by rewrite HQ|]. rewrite Ha by lia. apply IH; lia. }
  apply Hg; lia.
Qed.

(** The queue's head steps back, and the scheduler turns to the next thread. *)
Lemma yield_step s Q D p t l : top_queue s Q D p (t :: l) -> blockInts s = 0 ->
  exists s' Q', top_queue s' Q' D p (l ++ [t]) /\
    ((l = [] /\ THREAD_YIELD s = Done s' tt /\ blockInts s' = 0) \/
     (l <> [] /\ THREAD_YIELD s = Yield t s' (after_switch t))).
Proof.
  intros [Hk Hi HQ Hp Ha Hc] Hb. injection Hc as Ht. pose proof Hk as [Hr _].
  assert (Hin : t ∈ Q (RunQ p)) by (rewrite HQ; left). apply (i_run _ _ Hi) in Hin as (d & Hd & Hst & Hpd).
  pose proof (i_prio _ _ Hi _ _ Hd) as Hpr. destruct (rep_lookup_Some _ _ _ _ Hr _ _ Hd) as (c & Hcc & Ec).
  set (s0 := set_blockInts (blockInts s + 1) s).
  destruct (wp_done (fun _ _ => True) yield_queue (fun _ s1 => exists Q1, krep s1 Q1 D /\ inv Q1 D /\
      Q1 (RunQ p) = l ++ [t] /\ (forall q, q <> RunQ p -> Q1 q = Q q) /\ env s1 = env s0 /\ blockInts s1 = 1 /\
      (l <> [] -> needReschedule s1 = true)) s0) as (s1 & [] & E1 & Q1 & Hk1 & Hi1 & HQ1 & Ho & He & Hb1 & Hn1).
  { eapply (wp_yield_queue _ _ s0 Q D p l c); [done|done|simpl; by rewrite <- Ht|by subst d|by rewrite HQ, Ht|].
    intros s1 Q1 ? ? HQ1 ? ? Hb1 ? _. exists Q1. split_and!; try done; [by rewrite HQ1, Ht|].
    rewrite Hb1. simpl. lia. }
  assert (Hc1 : currentThread s1 = t) by (rewrite Ht; exact (env_current _ _ He)).
  assert (Ha1 : forall p', p < p' <= 10 -> Q1 (RunQ p') = []).
  { intros p' Hp'. rewrite Ho; [by apply Ha|]. intros [= ->]. lia. }
  assert (Hres : forall u l', l ++ [t] = u :: l' -> highest 10 java_lang_Thread_MAX_PRIORITY s1 = Done s1 (Some u)).
  { intros u l' Eu. rewrite (highest_eq s1 Q1 D (proj1 Hk1)). f_equal. apply (top_highest Q1 p u l'); [congruence|lia|done]. }
  rewrite THREAD_YIELD_eq. fold s0. rewrite E1. cbn [step_bind].
  assert (Hloop : reschedule s1 = reschedule_loop (S (length (events s1))) false 1 s1) by (by rewrite <- Hb1).
  unfold intsRestore, mbind, K_bind. cbn [step_bind gets]. rewrite Hb1. cbn [Z.eqb Pos.eqb andb].
  destruct l as [|u l'].
  - set (s2 := set_blockInts 0 (set_needReschedule false s1)).
    assert (Ht2 : forall s', view s' = view s1 -> top_queue s' Q1 D p ([] ++ [t])).
    { intros s' Ev. unfold view in Ev. injection Ev as E2 E3 E4 E5 _ _.
      constructor; [unfold krep; by rewrite E2, E3, E4|done|done|done|done|simpl; by rewrite E5, Hc1]. }
    destruct (needReschedule s1).
    + exists s2, Q1. split; [by apply Ht2|]. left. split; [done|]. split; [|done]. cbn [when]. rewrite Hloop.
      cbn [reschedule_loop]. unfold mbind, K_bind. rewrite (Hres t []) by done. cbn [step_bind gets].
      rewrite Hc1, Z.eqb_refl. cbn [negb when mret K_ret step_bind modify]. unfold s2, modify. simpl. by rewrite Hb1.
    + exists (set_blockInts 0 s1), Q1. split; [by apply Ht2|]. left. split; [done|]. split; [|done]. cbn [when mret K_ret step_bind]. unfold modify. by rewrite Hb1.
  - rewrite Hn1 by done. cbn [when]. rewrite Hloop. cbn [reschedule_loop]. unfold mbind, K_bind.
    rewrite (Hres u (l' ++ [t])) by done. cbn [step_bind gets].
    pose proof (rep_nodup _ _ _ _ Hr (RunQ p)) as Hnd. rewrite HQ in Hnd. apply NoDup_cons in Hnd as [Hnt _].
    assert (Hut : u <> t) by (intros ->; apply Hnt; left). rewrite Hc1. destruct (Z.eqb_spec u t); [done|]. cbn [negb when].
    assert (Hu : u ∈ Q1 (RunQ p)) by (rewrite HQ1; left). apply (i_run _ _ Hi1) in Hu as (du & Hdu & _).
    destruct (rep_lookup_Some _ _ _ _ (proj1 Hk1) _ _ Hdu) as (cu & Hcu & _).
    assert (Eu : TCTX u s1 = Done s1 cu) by (unfold TCTX; by rewrite Hcu).
    eexists _, Q1. split; [|right; split; [done|]].
    2:{ rewrite Eu. reflexivity. }
    constructor; [exact Hk1|done|done|done|done|done].
Qed.

(** ** Many turns *)

(** The threads of the queue are alive, the current one runs with interrupts
    enabled, and the others wait in their own calls of yield. *)
Definition round_robin (w : world) (D : gmap Z ctx) (p : Z) (l : list Z) : Prop :=
  (exists Q, top_queue (w_sched w) Q D p l) /\ blockInts (w_sched w) = 0 /\
  (forall t, t ∈ l -> not_killed D t) /\
  (forall t, t ∈ tail l -> exists k, w_conts w !! t = Some k /\ resumes t k).

Lemma top_queue_view s s' Q D p l : view s' = view s -> top_queue s Q D p l -> top_queue s' Q D p l.
Proof.
  intros Ev [H1 H2 H3 H4 H5 H6]. unfold view in Ev. injection Ev as E1 E2 E3 E4 _ _.
  constructor; [unfold krep; by rewrite E1, E2, E3|done|done|done|done|by rewrite E4].
Qed.

Lemma top_queue_nodup s Q D p l : top_queue s Q D p l -> NoDup l.
Proof. intros [[Hr _] _ <- _ _ _]. apply (rep_nodup _ _ _ _ Hr). Qed.

Lemma turn_rotates w D p t l : round_robin w D p (t :: l) ->
  exists w', turn w = Some w' /\ round_robin w' D p (l ++ [t]).
Proof.
  intros ((Q & Ht) & Hb & Hn & Hc). pose proof (top_queue_nodup _ _ _ _ _ Ht) as Hnd.
  destruct (yield_step _ _ _ _ _ _ Ht Hb) as (s' & Q' & Ht' & [(-> & E & Hb')|(Hl & E)]).
  - exists (mkWorld s' (w_conts w)). unfold turn. rewrite E. split; [done|].
    split; [by exists Q'|]. split; [done|]. split; [done|]. simpl. by intros u ?%elem_of_nil.
  - destruct l as [|u l']; [done|]. apply NoDup_cons in Hnd as [Hnt Hnd]. apply NoDup_cons in Hnd as [Hnu _].
    assert (Hu : currentThread s' = u) by (pose proof (t_current _ _ _ _ _ Ht') as Hcu; simpl in Hcu; congruence).
    destruct (Hc u ltac:(left)) as (k & Hk & Hres).
    assert (Hut : t <> u) by (intros ->; apply Hnt; left).
    unfold turn. rewrite E, Hu, lookup_insert_ne, Hk by done.
    rewrite (Hres s' Q' D (t_rep _ _ _ _ _ Ht') Hu (Hn u ltac:(right; left))). eexists. split; [done|].
    split; [exists Q'; by apply (top_queue_view s')|]. split; [done|]. split.
    + intros v [Hv|Hv]%elem_of_app; apply Hn; [by right|]. apply list_elem_of_singleton in Hv as ->. left.
    + simpl. intros v [Hv|Hv]%elem_of_app.
      * destruct (Hc v ltac:(by right)) as (kv & Hkv & Hrv). exists kv.
        rewrite lookup_insert_ne; [done|]. intros ->. apply Hnt. by right.
      * apply list_elem_of_singleton in Hv as ->. exists (after_switch t). split; [apply lookup_insert_eq|].
        apply after_switch_resumes.
Qed.

Definition rotate (l : list Z) : list Z := match l with t :: l => l ++ [t] | [] => [] end.

Lemma round_robin_current w D p l : round_robin w D p l -> head l = Some (currentThread (w_sched w)).
Proof. intros ((Q & Ht) & _). apply Ht. Qed.

Lemma turns_rotate n : forall w D p l, round_robin w D p l ->
  exists w', turns n w = Some w' /\ round_robin w' D p (Nat.iter n rotate l).
Proof.
  induction n as [|n IH]; intros w D p l Hw; [by exists w|].
  destruct l as [|t l]; [by pose proof (round_robin_current _ _ _ _ Hw)|].
  destruct (turn_rotates w D p t l Hw) as (w1 & E1 & Hw1). destruct (IH _ _ _ _ Hw1) as (w2 & E2 & Hw2).
  exists w2. cbn [turns]. rewrite E1. split; [done|]. by rewrite Nat.iter_succ_r.
Qed.

Lemma rotate_head n : forall l1 t l2, length l1 = n -> Nat.iter n rotate (l1 ++ t :: l2) = t :: l2 ++ l1.
Proof.
  induction n as [|n IH]; intros l1 t l2 Hl; destruct l1 as [|x l1]; simpl in Hl; try lia; [by rewrite app_nil_r|].
  rewrite Nat.iter_succ_r. cbn [rotate app]. rewrite <- app_assoc. cbn [app]. rewrite IH by lia. by rewrite <- app_assoc.
Qed.

Lemma rotate_perm n l : Permutation (Nat.iter n rotate l) l.
Proof.
  induction n as [|n IH]; [done|]. rewrite Nat.iter_succ. rewrite <- IH at 2.
  destruct (Nat.iter n rotate l) as [|x l']; [done|]. simpl. apply Permutation_sym, Permutation_cons_append.
Qed.

(** C13: No thread of the highest priority starves while they all yield: from any
    turn on, each thread of the queue becomes the current thread within as many
    turns as the queue has threads, and turns never fail. *)
Theorem yield_round_robin w D p l t n (Hw : round_robin w D p l) (Ht : t ∈ l) :
  exists m w', (n <= m < n + length l)%nat /\ turns m w = Some w' /\ currentThread (w_sched w') = t.
Proof.
  destruct (turns_rotate n w D p l Hw) as (w1 & E1 & Hw1).
  assert (Ht1 : t ∈ Nat.iter n rotate l) by (by rewrite rotate_perm).
  apply list_elem_of_split in Ht1 as (l1 & l2 & El). pose proof (Permutation_length (rotate_perm n l)) as Hlen.
  rewrite El, length_app in Hlen. simpl in Hlen.
  destruct (turns_rotate (n + length l1) w D p l Hw) as (w2 & E2 & Hw2).
  exists (n + length l1)%nat, w2. split; [lia|]. split; [done|].
  rewrite Nat.add_comm, Nat.iter_add, El, rotate_head in Hw2 by done.
  apply round_robin_current in Hw2. simpl in Hw2. congruence.
Qed.

(** Threads 1 and 4 of the example run at priority 5; 4 is in its call of yield. *)
Definition ex_world : world := mkWorld (ex_sched 0) {[4 := after_switch 4]}.

Lemma ex_round_robin : round_robin ex_world ex_D 5 [1; 4].
Proof.
  split; [|split; [reflexivity|split]].
  - exists ex_Q. constructor.
    + apply ex_krep.
    + apply ex_inv.
    + reflexivity.
    + simpl. lia.
    + intros p' Hp'. simpl in *. destruct (Z.eqb_spec p' 5); [lia|reflexivity].
    + reflexivity.
  - intros t Ht. apply elem_of_cons in Ht as [->|Ht]; [by exists (erase ex_c1)|].
    apply list_elem_of_singleton in Ht as ->. by exists (erase ex_c4).
  - intros t Ht. simpl in Ht. apply list_elem_of_singleton in Ht as ->.
    exists (after_switch 4). split; [reflexivity|apply after_switch_resumes].
Qed.

Lemma yield_round_robin_witness : exists m w', (7 <= m < 9)%nat /\ turns m ex_world = Some w' /\
  currentThread (w_sched w') = 4.
Proof.
  apply (yield_round_robin ex_world ex_D 5 [1; 4] 4 7 ex_round_robin). right. left.
Defined.
