(* ===== verification/Locks.v ===== *)
(** * Object locks (src/runtime/locks.c, killThread of thread-internal.c)

    Every object carries a 32-bit word [lock_info]:
<<
      | semaphore (31:17) | has_waiters (16) | owner_id (15:0) |
>>
    The queues of threads that wait for the lock or for a notification are in a
    [jLock], found by hashing the address of the object.  On the big-endian
    SPARC the upper half of the word is its first [unsigned short]. *)

From stdpp Require Import functions.
From S2P Require Import Prelude Threads SchedSafety.

Definition blocked {A} : K A := fun s => Blocked s.
Definition exit_process {A} : K A := fun s => Exit s.

(** ** The lock table *)

Abbreviation MAXLOCK := 256.
Definition HASHLOCK (a : Z) : Z := Z.land (Z.shiftr (u32 a) 3) (MAXLOCK - 1).

(** [lockTable[i].head] is a chain of locks, each given by its identity and
    the address of its object; [gc_malloc] returns a fresh, zeroed lock. *)
Fixpoint find_lock (address : Z) (chain : list (Z * Z)) : option Z :=
  match chain with
  | [] => None
  | (l, a) :: chain' => if a =? address then Some l else find_lock address chain'
  end.

Definition getLock (address : Z) : K Z := fun s =>
  let index := HASHLOCK address in
  let chain := default [] (lockTable s !! index) in
  match find_lock address chain with
  | Some l => Done s l
  | None =>
      let l := nextLock s in
      Done (set_nextLock (l + 1)
        (set_lockTable (<[index := (l, address) :: chain]> (lockTable s)) s)) l
  end.

(** ** The lock word *)

Abbreviation OWNER_ID_MASK := 0xffff.
Abbreviation SEMAPHORE_MASK := 0xfffe0000.
Abbreviation HAS_WAITERS_MASK := 0x10000.

Definition lock_word (obj : Z) (s : sched) : Z := default 0 (lock_info s !! obj).
Definition set_lock_word (obj v : Z) : K unit :=
  modify (fun s => set_lock_info (<[obj := v]> (lock_info s)) s).

Definition hi (w : Z) : Z := Z.shiftr w 16.
Definition lo (w : Z) : Z := Z.land w 0xffff.
(** A store to the upper or the lower [unsigned short] of the word. *)
Definition with_hi (v w : Z) : Z := Z.lor (Z.shiftl (u16 v) 16) (lo w).
Definition with_lo (v w : Z) : Z := Z.lor (Z.shiftl (hi w) 16) (u16 v).

(** [assert(currentThread == NULL || ...)] *)
Definition assert_current : K unit :=
  cur ← gets currentThread;
  c ← TCTX cur;
  id ← gets currentThreadID;
  check ((id =? PrivateInfo c) && (status c =? THREAD_RUNNING)).

Definition wait_in_queue (obj : Z) : K unit :=
  intsDisable;;
  w ← gets (lock_word obj);
  set_lock_word obj (Z.lor w HAS_WAITERS_MASK);;
  lock ← getLock obj;
  cur ← gets currentThread;
  suspendOnQThread cur (Some (WaiterQ lock)) NOTIMEOUT false;;
  intsRestore reschedule.

(** The spin loop.  [fuel] bounds how often the thread is woken up to find the
    lock taken again; after that it is still waiting. *)
Fixpoint _lockMutex (fuel : nat) (obj : Z) : K unit :=
  assert_current;;
  w ← gets (lock_word obj);
  id ← gets currentThreadID;
  if Z.land w SEMAPHORE_MASK =? 0 then
    let w := with_lo id w in
    set_lock_word obj (with_hi (hi w + 2) w)
  else if Z.land w OWNER_ID_MASK =? id then
    set_lock_word obj (with_hi (hi w + 2) w)
  else
    wait_in_queue obj;;
    match fuel with
    | O => blocked
    | S fuel' => _lockMutex fuel' obj
    end.

Definition wakeup_waiter (obj : Z) : K unit :=
  intsDisable;;
  lock ← getLock obj;
  thread ← load (Head (WaiterQ lock));
  match thread with
  | None => crash BadAccess   (* TCTX(NULL) *)
  | Some thread =>
      c ← TCTX thread;
      store (Head (WaiterQ lock)) (nextQ c);;
      when (bool_decide (nextQ c = None)) (set_lock_word obj 0);;
      c ← TCTX thread;
      check (negb (status c =? THREAD_RUNNING));;
      iresumeThread reschedule thread
  end;;
  intsRestore reschedule.

(** [PRECISE_MONITOREXIT] is defined. *)
Definition _unlockMutex (obj : Z) : K unit :=
  assert_current;;
  w ← gets (lock_word obj);
  if 2 <=? hi w then
    let w := with_hi (hi w - 2) w in
    set_lock_word obj w;;
    if negb (hi w =? 1) then mret tt else wakeup_waiter obj
  else throw IllegalMonitorStateException.

(** ** Condition variables *)

(** The loop of [_waitCond] that waits for the lock after a notification. *)
Fixpoint reacquire (fuel : nat) (obj lock : Z) : K unit :=
  w ← gets (lock_word obj);
  if 0 <? Z.land w SEMAPHORE_MASK then
    set_lock_word obj (Z.lor w HAS_WAITERS_MASK);;
    cur ← gets currentThread;
    suspendOnQThread cur (Some (WaiterQ lock)) NOTIMEOUT true;;
    match fuel with
    | O => blocked
    | S fuel' => reacquire fuel' obj lock
    end
  else mret tt.

Definition not32 (m : Z) : Z := Z.lxor (2 ^ 32 - 1) m.

Definition _waitCond (fuel : nat) (obj timeout : Z) : K Z :=
  curThread ← gets currentThread;
  w ← gets (lock_word obj);
  id ← gets currentThreadID;
  if negb (Z.land w OWNER_ID_MASK =? id) then throw IllegalMonitorStateException else
  let saved := w in
  set_lock_word obj (Z.land w (not32 (Z.lor SEMAPHORE_MASK OWNER_ID_MASK)));;
  intsDisable;;
  lock ← getLock obj;
  h ← load (Head (WaiterQ lock));
  match h with
  | Some thread =>
      w ← gets (lock_word obj);
      check (negb (Z.land w HAS_WAITERS_MASK =? 0));;
      c ← TCTX thread;
      store (Head (WaiterQ lock)) (nextQ c);;
      check (negb (status c =? THREAD_RUNNING));;
      set_lock_word obj (if bool_decide (nextQ c = None) then 0 else 0x10000);;
      iresumeThread reschedule thread
  | None => mret tt
  end;;
  cur ← gets currentThread;
  suspendOnQThread cur (Some (CondQ lock)) timeout true;;
  reacquire fuel obj lock;;
  intsRestore reschedule;;
  cur ← gets currentThread;
  check (curThread =? cur);;
  set_lock_word obj saved;;
  c ← TCTX cur;
  b ← gets blockInts;
  if has_flag THREAD_FLAGS_KILLED c && (b =? 0) then
    upd_ctx cur (clear_flags THREAD_FLAGS_KILLED);;
    modify (set_blockInts 0);;
    throw ThreadDeath
  else
    h ← load (Head (WaiterQ lock));
    w ← gets (lock_word obj);
    match h with
    | Some _ =>
        check (0 <? Z.land w SEMAPHORE_MASK);;
        set_lock_word obj (Z.lor w HAS_WAITERS_MASK)
    | None => set_lock_word obj (Z.land w (not32 HAS_WAITERS_MASK))
    end;;
    mret 0.

Definition _signalCond (obj : Z) : K unit :=
  w ← gets (lock_word obj);
  id ← gets currentThreadID;
  if negb (Z.land w OWNER_ID_MASK =? id) then throw IllegalMonitorStateException else
  intsDisable;;
  lock ← getLock obj;
  h ← load (Head (CondQ lock));
  match h with
  | Some thread =>
      c ← TCTX thread;
      store (Head (CondQ lock)) (nextQ c);;
      wq ← load (Head (WaiterQ lock));
      store (Next FQ thread) wq;;
      store (Head (WaiterQ lock)) (Some thread);;
      w ← gets (lock_word obj);
      set_lock_word obj (Z.lor w HAS_WAITERS_MASK)
  | None => mret tt
  end;;
  intsRestore reschedule.

(** The loop that looks for the last link of the queue. *)
Fixpoint last_slot (fuel : nat) (l : slot) : K slot :=
  x ← load l;
  match x with
  | None => mret l
  | Some t => match fuel with O => crash OutOfFuel | S fuel' => last_slot fuel' (Next FQ t) end
  end.

Definition _broadcastCond (obj : Z) : K unit :=
  w ← gets (lock_word obj);
  id ← gets currentThreadID;
  if negb (Z.land w OWNER_ID_MASK =? id) then throw IllegalMonitorStateException else
  intsDisable;;
  lock ← getLock obj;
  h ← load (Head (CondQ lock));
  match h with
  | Some _ =>
      n ← gets (fun s => size (threadContext s));
      pthread ← last_slot n (Head (CondQ lock));
      wq ← load (Head (WaiterQ lock));
      store pthread wq;;
      cq ← load (Head (CondQ lock));
      store (Head (WaiterQ lock)) cq;;
      store (Head (CondQ lock)) None;;
      w ← gets (lock_word obj);
      set_lock_word obj (Z.lor w HAS_WAITERS_MASK)
  | None => mret tt
  end;;
  intsRestore reschedule.

(** ** The end of a thread

    [obj] is the object of the current thread; the call of the Java method
    that removes it from its thread group is not modelled. *)
Definition killThread (fuel : nat) (obj : Z) : K unit :=
  intsDisable;;
  _lockMutex fuel obj;;
  _broadcastCond obj;;
  _unlockMutex obj;;
  cur ← gets currentThread;
  c ← TCTX cur;
  (if status c =? THREAD_DEAD then mret tt else
    (if status c =? THREAD_RUNNING then
       found ← find_slot (RunQ (priority c)) cur;
       match found with
       | Some (ntid, _) => c ← TCTX cur; store ntid (nextQ c)
       | None => mret tt
       end
     else mret tt);;
    modify (fun s => set_talive (talive s - 1) s);;
    modify (fun s => if bool_decide (cur ∈ daemon s) then set_tdaemon (tdaemon s - 1) s else s);;
    ta ← gets talive;
    td ← gets tdaemon;
    if ta =? td then exit_process else
      found ← find_slot LiveThreads cur;
      match found with
      | Some (ntid, _) => c ← TCTX cur; store ntid (nextlive c)
      | None => mret tt
      end;;
      modify (set_needReschedule true);;
      modify (set_blockInts 1);;
      upd_ctx cur (set_status THREAD_DEAD));;
  intsRestore reschedule.

(** ** The lock table is a partial injection from addresses to locks *)

Definition lock_of (s : sched) (a : Z) : option Z :=
  find_lock a (default [] (lockTable s !! HASHLOCK a)).

Record table_wf (s : sched) : Prop := {
  tw_inj a1 a2 l : lock_of s a1 = Some l -> lock_of s a2 = Some l -> a1 = a2;
  tw_fresh a l : lock_of s a = Some l -> l < nextLock s }.

Lemma find_lock_cons l a chain a' :
  find_lock a' ((l, a) :: chain) = if a =? a' then Some l else find_lock a' chain.
Proof. done. Qed.

(** [getLock] implements one lock per object: it terminates with a lock
    for the address, creating it on the first call only; later calls return
    the same lock, other objects keep theirs, and two objects never share a
    lock, whatever the collisions of the hash function.  Nothing else
    changes. *)
Theorem getLock_correct (s : sched) (a : Z) (Hw : table_wf s) :
  exists s' l, getLock a s = Done s' l /\ table_wf s' /\ lock_of s' a = Some l /\
    (forall a' l', lock_of s a' = Some l' -> lock_of s' a' = Some l') /\
    (forall a', a' <> a -> lock_of s' a' = lock_of s a') /\
    getLock a s' = Done s' l /\
    s' = set_nextLock (nextLock s') (set_lockTable (lockTable s') s).
Proof.
  destruct (lock_of s a) as [l|] eqn:El.
  - exists s, l. unfold getLock. unfold lock_of in El. rewrite El. split_and!; try done. by destruct s.
  - set (s' := set_nextLock (nextLock s + 1) (set_lockTable
      (<[HASHLOCK a := (nextLock s, a) :: default [] (lockTable s !! HASHLOCK a)]> (lockTable s)) s)).
    assert (Hsame : lock_of s' a = Some (nextLock s)).
    { unfold lock_of. simpl. rewrite lookup_insert_eq. simpl. by rewrite Z.eqb_refl. }
    assert (Hother : forall a', a' <> a -> lock_of s' a' = lock_of s a').
    { intros a' Hne. unfold lock_of. simpl. destruct (decide (HASHLOCK a' = HASHLOCK a)) as [->|].
      - rewrite lookup_insert_eq. simpl. by destruct (Z.eqb_spec a a').
      - by rewrite lookup_insert_ne. }
    exists s', (nextLock s). split_and!; try done.
    + unfold getLock. unfold lock_of in El. by rewrite El.
    + split.
      * intros a1 a2 l H1 H2. destruct (decide (a1 = a)) as [->|], (decide (a2 = a)) as [->|]; try done.
        { rewrite Hsame in H1. rewrite Hother in H2 by done. apply tw_fresh in H2; [|done]. simplify_eq. lia. }
        { rewrite Hsame in H2. rewrite Hother in H1 by done. apply tw_fresh in H1; [|done]. simplify_eq. lia. }
        rewrite Hother in H1, H2 by done. by eapply tw_inj.
      * intros a1 l H1. destruct (decide (a1 = a)) as [->|].
        { rewrite Hsame in H1. simplify_eq. simpl. lia. }
        rewrite Hother in H1 by done. apply tw_fresh in H1; [|done]. simpl. lia.
    + intros a' l' Ha'. rewrite Hother; [done|]. intros ->. congruence.
    + unfold getLock. unfold lock_of in Hsame. by rewrite Hsame.
Qed.

Lemma getLock_correct_witness : exists s' l,
  getLock 4096 (ex_sched 0) = Done s' l /\ table_wf s' /\ getLock 4096 s' = Done s' l.
Proof.
  destruct (getLock_correct (ex_sched 0) 4096) as (s' & l & E & Hw & _ & _ & _ & E' & _).
  - split; intros; discriminate.
  - exists s', l. split; [exact E|]. split; [exact Hw|exact E'].
Defined.

(** ** The lock word *)

(** The word of a lock taken [k] times by thread [id], with waiters or not. *)
Definition lockw (k : Z) (waiters : bool) (id : Z) : Z := (2 * k + Z.b2z waiters) * 2 ^ 16 + id.

Section Word.
Context (k id : Z) (waiters : bool).
Hypothesis (Hk : 0 <= k < 2 ^ 15) (Hid : 0 <= id < 2 ^ 16).

Lemma hi_lockw : hi (lockw k waiters id) = 2 * k + Z.b2z waiters.
Proof.
  unfold hi, lockw. rewrite Z.shiftr_div_pow2 by lia. rewrite Z.div_add_l by lia.
  rewrite Z.div_small by done. lia.
Qed.

Lemma lo_lockw : lo (lockw k waiters id) = id.
Proof.
  unfold lo, lockw. change 0xffff with (Z.ones 16). rewrite Z.land_ones by lia.
  rewrite Z.add_comm, Z.mod_add by lia. by apply Z.mod_small.
Qed.

Lemma lor_halves a b : 0 <= b < 2 ^ 16 -> Z.lor (Z.shiftl a 16) b = a * 2 ^ 16 + b.
Proof. intros. by apply lor_shiftl. Qed.

Lemma with_hi_lockw v w : 0 <= v < 2 ^ 16 -> lo w = id -> with_hi v w = v * 2 ^ 16 + id.
Proof.
  intros Hv Hw. unfold with_hi. rewrite Hw, wrapu_small by done. by apply lor_halves.
Qed.

Lemma with_lo_lockw v : 0 <= v < 2 ^ 16 -> with_lo v (lockw k waiters id) = lockw k waiters v.
Proof.
  intros Hv. unfold with_lo. rewrite hi_lockw, wrapu_small by done. by apply lor_halves.
Qed.

(** The semaphore bits are the count. *)
Lemma semaphore_lockw : Z.land (lockw k waiters id) SEMAPHORE_MASK =? 0 = (k =? 0).
Proof.
  change SEMAPHORE_MASK with (Z.shiftl (Z.ones 15) 17).
  rewrite land_shiftl, Z.land_ones, Z.shiftr_div_pow2, Z.shiftl_mul_pow2 by lia.
  replace (lockw k waiters id) with (k * 2 ^ 17 + (Z.b2z waiters * 2 ^ 16 + id)) by (unfold lockw; lia).
  rewrite Z.div_add_l by lia. rewrite (Z.div_small (_ + _)) by (destruct waiters; simpl; lia).
  rewrite Z.add_0_r, Z.mod_small by done. destruct (Z.eqb_spec k 0); lia.
Qed.

End Word.

Definition setw (obj v : Z) (s : sched) : sched := set_lock_info (<[obj := v]> (lock_info s)) s.

Lemma lock_word_setw obj v s : lock_word obj (setw obj v s) = v.
Proof. unfold lock_word. simpl. by rewrite lookup_insert_eq. Qed.

Lemma setw_setw obj v v' s : setw obj v (setw obj v' s) = setw obj v s.
Proof. unfold setw. simpl. by rewrite insert_insert_eq. Qed.

Lemma assert_current_ok s : cur_ok s -> assert_current s = Done s tt.
Proof.
  intros (c & Hc & Hs & Hp). unfold assert_current, mbind, K_bind, TCTX. simpl. rewrite Hc. simpl.
  by rewrite Hp, Hs, !Z.eqb_refl.
Qed.

Section Steps.
Context (s : sched) (obj k o : Z) (waiters : bool).
Hypothesis (Hcur : cur_ok s) (Hid : 0 <= currentThreadID s < 2 ^ 16) (Ho : 0 <= o < 2 ^ 16).
Hypothesis (Hk : 0 <= k < 2 ^ 15) (Hw : lock_word obj s = lockw k waiters o).

(** Taking a free lock, or one's own lock again, never waits.  The count has
    15 bits. *)
Lemma lock_step fuel : k = 0 \/ o = currentThreadID s ->
  _lockMutex fuel obj s = Done (setw obj (lockw ((k + 1) mod 2 ^ 15) waiters (currentThreadID s)) s) tt.
Proof.
  intros Hok. set (id := currentThreadID s) in *.
  assert (Hnew : forall w, hi w = 2 * k + Z.b2z waiters -> lo w = id ->
    with_hi (hi w + 2) w = lockw ((k + 1) mod 2 ^ 15) waiters id).
  { intros w Eh El. unfold with_hi, lockw, wrapu. rewrite Eh, El, lor_halves by done.
    replace ((2 * k + Z.b2z waiters + 2) mod 2 ^ 16) with (2 * ((k + 1) mod 2 ^ 15) + Z.b2z waiters); [done|].
    assert (H0 : 0 <= Z.b2z waiters <= 1) by (destruct waiters; simpl; lia).
    destruct (decide (k = 2 ^ 15 - 1)) as [->|]; [by destruct waiters; vm_compute|].
    rewrite !Z.mod_small; lia. }
  assert (Hrun : _lockMutex fuel obj s =
    (if k =? 0 then Done (setw obj (with_hi (hi (with_lo id (lock_word obj s)) + 2) (with_lo id (lock_word obj s))) s) tt
     else Done (setw obj (with_hi (hi (lock_word obj s) + 2) (lock_word obj s)) s) tt)).
  { destruct fuel; cbn [_lockMutex]; unfold mbind at 1 2, K_bind at 1 2; rewrite assert_current_ok by done;
      cbn [step_bind]; unfold mbind at 1 2, K_bind at 1 2; cbn [gets step_bind]; rewrite Hw;
      rewrite semaphore_lockw by done; change (Z.land (lockw k waiters o) OWNER_ID_MASK) with (lo (lockw k waiters o));
      rewrite lo_lockw by done; fold id;
      (destruct (Z.eqb_spec k 0) as [|Hk0]; [done|]; destruct Hok as [?|Hok]; [done|];
       by rewrite Hok, Z.eqb_refl). }
  rewrite Hrun, Hw. destruct (Z.eqb_spec k 0) as [E|E].
  - rewrite with_lo_lockw by done. rewrite Hnew; [done|by apply hi_lockw|by apply lo_lockw].
  - destruct Hok as [?|Hok]; [done|]. rewrite Hnew; [done|by apply hi_lockw|]. rewrite lo_lockw; done.
Qed.

(** Releasing a lock that nobody waits for, or not for the last time. *)
Lemma unlock_step : 1 <= k -> (k = 1 -> waiters = false) ->
  _unlockMutex obj s = Done (setw obj (lockw (k - 1) waiters o) s) tt.
Proof.
  intros Hk1 Hnw. unfold _unlockMutex. unfold mbind at 1, K_bind at 1. rewrite assert_current_ok by done.
  cbn [step_bind]. unfold mbind at 1, K_bind at 1. cbn [gets step_bind].
  rewrite Hw, hi_lockw by done.
  assert (H0 : 0 <= Z.b2z waiters <= 1) by (destruct waiters; simpl; lia).
  destruct (Z.leb_spec 2 (2 * k + Z.b2z waiters)); [|lia].
  rewrite with_hi_lockw with (id := o); [|done|lia|by apply lo_lockw].
  replace ((2 * k + Z.b2z waiters - 2) * 2 ^ 16 + o) with (lockw (k - 1) waiters o) by (unfold lockw; lia).
  rewrite hi_lockw by lia. replace (2 * (k - 1) + Z.b2z waiters =? 1) with false; [done|].
  symmetry. apply Z.eqb_neq. destruct (decide (k = 1)) as [->|]; [rewrite Hnw by done; simpl; lia|lia].
Qed.

Lemma unlock_free : k = 0 -> _unlockMutex obj s = Throw s IllegalMonitorStateException.
Proof.
  intros E. unfold _unlockMutex. unfold mbind at 1, K_bind at 1. rewrite assert_current_ok by done.
  cbn [step_bind]. unfold mbind at 1, K_bind at 1. cbn [gets step_bind].
  rewrite Hw, hi_lockw by done. destruct (Z.leb_spec 2 (2 * k + Z.b2z waiters)); [|done].
  exfalso. assert (Z.b2z waiters <= 1) by (destruct waiters; simpl; lia). lia.
Qed.

End Steps.

Fixpoint iter (n : nat) (m : K unit) : K unit :=
  match n with O => mret tt | S n' => m;; iter n' m end.

(** Only the word of [obj] changed. *)
Definition only_word (obj : Z) (s s' : sched) : Prop :=
  set_lock_info ∅ s' = set_lock_info ∅ s /\
  forall obj', obj' <> obj -> lock_word obj' s' = lock_word obj' s.

Lemma only_word_setw obj v s : only_word obj s (setw obj v s).
Proof.
  split; [done|]. intros obj' Hne. unfold lock_word. simpl. by rewrite lookup_insert_ne.
Qed.

#[export] Instance only_word_preorder obj : PreOrder (only_word obj).
Proof.
  split; [by split|]. intros x y z [E1 H1] [E2 H2]. split; [congruence|].
  intros obj' Hne. by rewrite H2, H1.
Qed.

Lemma cur_ok_only_word obj s s' : only_word obj s s' -> cur_ok s ->
  cur_ok s' /\ currentThreadID s' = currentThreadID s.
Proof.
  intros [E _] Hc. unfold set_lock_info in E. injection E as E1 E2 E3 E4 E5. unfold cur_ok in *.
  by rewrite E1, E4, E5.
Qed.

Lemma lock_iter fuel obj n : forall k o s, cur_ok s -> 0 <= currentThreadID s < 2 ^ 16 -> 0 <= o < 2 ^ 16 ->
  (k = 0 \/ o = currentThreadID s) -> 0 <= k -> k + Z.of_nat n < 2 ^ 15 -> lock_word obj s = lockw k false o ->
  exists s', iter n (_lockMutex fuel obj) s = Done s' tt /\ only_word obj s s' /\
    lock_word obj s' = lockw (k + Z.of_nat n) false (if decide (n = 0%nat) then o else currentThreadID s).
Proof.
  induction n as [|n IH]; intros k o s Hc Hid Ho Hok Hk Hn Hw.
  - exists s. split_and!; [done|done|]. by rewrite Z.add_0_r.
  - cbn [iter]. unfold mbind, K_bind. rewrite (lock_step s obj k o false) by (done || lia). cbn [step_bind].
    rewrite (Z.mod_small (k + 1)) by lia. set (s1 := setw _ _ s).
    pose proof (only_word_setw obj (lockw (k + 1) false (currentThreadID s)) s) as Ho1.
    destruct (cur_ok_only_word _ _ _ Ho1 Hc) as [Hc1 Hi1].
    destruct (IH (k + 1) (currentThreadID s) s1) as (s2 & E & Ho2 & Hw2); try done; try lia.
    { by right. } { apply lock_word_setw. }
    exists s2. split_and!; [done|by etrans|]. rewrite Hw2. replace (k + 1 + Z.of_nat n) with (k + Z.of_nat (S n)) by lia.
    f_equal. simpl. by destruct (decide (n = 0%nat)).
Qed.

Lemma unlock_iter obj n : forall k s, cur_ok s -> 0 <= currentThreadID s < 2 ^ 16 ->
  k < 2 ^ 15 -> Z.of_nat n <= k -> lock_word obj s = lockw k false (currentThreadID s) ->
  exists s', iter n (_unlockMutex obj) s = Done s' tt /\ only_word obj s s' /\
    lock_word obj s' = lockw (k - Z.of_nat n) false (currentThreadID s).
Proof.
  induction n as [|n IH]; intros k s Hc Hid Hk Hn Hw.
  - exists s. split_and!; [done|done|]. by rewrite Z.sub_0_r.
  - cbn [iter]. unfold mbind, K_bind. rewrite (unlock_step s obj k (currentThreadID s) false) by (done || lia). cbn [step_bind].
    set (s1 := setw _ _ s).
    pose proof (only_word_setw obj (lockw (k - 1) false (currentThreadID s)) s) as Ho1.
    destruct (cur_ok_only_word _ _ _ Ho1 Hc) as [Hc1 Hi1].
    destruct (IH (k - 1) s1) as (s2 & E & Ho2 & Hw2); try done; try lia.
    { apply lock_word_setw. }
    exists s2. split_and!; [done|by etrans|]. rewrite Hw2. f_equal. lia.
Qed.

(** C34: locks nest.  A thread takes a lock that is free any number of times up
    to 32767 without waiting, and each time is counted; the same number of
    releases frees the lock, one more raises [IllegalMonitorStateException],
    and no other object's word changes. *)
Theorem lock_nesting (fuel n : nat) (obj o : Z) (s : sched)
    (Hc : cur_ok s) (Hid : 0 <= currentThreadID s < 2 ^ 16) (Ho : 0 <= o < 2 ^ 16)
    (Hn : (0 < n)%nat) (Hmax : Z.of_nat n < 2 ^ 15) (Hw : lock_word obj s = lockw 0 false o) :
  exists s1 s2, iter n (_lockMutex fuel obj) s = Done s1 tt /\
    lock_word obj s1 = lockw (Z.of_nat n) false (currentThreadID s) /\ only_word obj s s1 /\
    iter n (_unlockMutex obj) s1 = Done s2 tt /\
    lock_word obj s2 = lockw 0 false (currentThreadID s) /\ only_word obj s s2 /\
    _unlockMutex obj s2 = Throw s2 IllegalMonitorStateException.
Proof.
  destruct (lock_iter fuel obj n 0 o s) as (s1 & E1 & Ho1 & Hw1); try done; try lia.
  rewrite decide_False in Hw1 by lia. destruct (cur_ok_only_word _ _ _ Ho1 Hc) as [Hc1 Hi1].
  rewrite <- Hi1 in Hw1. destruct (unlock_iter obj n (Z.of_nat n) s1) as (s2 & E2 & Ho2 & Hw2); try done; try lia.
  rewrite Z.sub_diag, Hi1 in Hw2. rewrite Hi1 in Hw1. simpl in Hw1.
  assert (Ho12 : only_word obj s s2) by (by etrans). destruct (cur_ok_only_word _ _ _ Ho12 Hc) as [Hc2 _].
  exists s1, s2. split_and!; try done.
  by apply (unlock_free s2 obj 0 (currentThreadID s) false).
Qed.

(** The lock count has 15 bits and is not checked: the 32768th nested
    acquisition by the owner wraps the count to zero and leaves the word of a
    free lock, so the next thread can enter. *)
Theorem lock_count_overflows (fuel : nat) (obj : Z) (s : sched)
    (Hc : cur_ok s) (Hid : 0 <= currentThreadID s < 2 ^ 16)
    (Hw : lock_word obj s = lockw (2 ^ 15 - 1) false (currentThreadID s)) :
  exists s', _lockMutex fuel obj s = Done s' tt /\
    lock_word obj s' = lockw 0 false (currentThreadID s) /\ Z.land (lock_word obj s') SEMAPHORE_MASK = 0.
Proof.
  eexists. split; [apply (lock_step s obj (2 ^ 15 - 1) (currentThreadID s) false); try done; by right|]. rewrite lock_word_setw.
  split; [done|]. apply Z.eqb_eq. by rewrite semaphore_lockw.
Qed.

Lemma lock_nesting_witness : exists s1 s2,
  iter 2 (_lockMutex 0 4096) (ex_sched 0) = Done s1 tt /\ iter 2 (_unlockMutex 4096) s1 = Done s2 tt /\
  _unlockMutex 4096 s2 = Throw s2 IllegalMonitorStateException.
Proof.
  destruct (lock_nesting 0 2 4096 0 (ex_sched 0)) as (s1 & s2 & E1 & _ & _ & E2 & _ & _ & E3).
  - exists ex_c1. split; [reflexivity|]. split; reflexivity.
  - simpl. lia.
  - lia.
  - lia.
  - simpl. lia.
  - reflexivity.
  - exists s1, s2. split; [exact E1|]. split; [exact E2|exact E3].
Defined.

Lemma lock_count_overflows_witness : exists s',
  _lockMutex 0 4096 (setw 4096 (lockw 32767 false 1) (ex_sched 0)) = Done s' tt /\
  Z.land (lock_word 4096 s') SEMAPHORE_MASK = 0.
Proof.
  destruct (lock_count_overflows 0 4096 (setw 4096 (lockw 32767 false 1) (ex_sched 0))) as (s' & E & _ & E').
  - exists ex_c1. split; [reflexivity|]. split; reflexivity.
  - simpl. lia.
  - vm_compute. reflexivity.
  - exists s'. split; [exact E|exact E'].
Defined.

(** ** Locking across context switches *)






Section Switching.

Lemma wp_set_lock_word G R obj v s (P : unit -> sched -> Prop) :
  P tt (setw obj v s) -> wp G R (set_lock_word obj v) P s.
Proof. done. Qed.




End Switching.














(** ** Handing the lock over *)

Lemma inv_unblock Q D q t : inv Q D -> block_q q = true -> inv (<[q := rm t (Q q)]> Q) D.
Proof.
  intros [H1 H2 H3 H4 H5 H6] Hq. assert (HA : <[q := rm t (Q q)]> Q AlarmList = Q AlarmList)
    by (by rewrite fn_lookup_insert_ne by (by intros ->)).
  split; rewrite ?HA; try done.
  - intros x p. rewrite fn_lookup_insert_ne by (by intros ->). apply H1.
  - intros q' x Hq' Hx. apply H3; [done|]. destruct (decide (q' = q)) as [->|].
    + rewrite fn_lookup_insert, elem_of_rm in Hx. tauto.
    + by rewrite fn_lookup_insert_ne in Hx.
Qed.

Lemma getLock_found a s l : lock_of s a = Some l -> getLock a s = Done s l.
Proof. unfold getLock, lock_of. by intros ->. Qed.

Lemma wp_getLock_found G R a s l (P : Z -> sched -> Prop) :
  lock_of s a = Some l -> P l s -> wp G R (getLock a) P s.
Proof. intros Hl HP. unfold wp. by rewrite (getLock_found a s l Hl). Qed.

(** C33: releasing a contended lock hands the processor, not the lock, to the
    first waiter.  [_unlockMutex] takes the first thread off the waiter queue
    and makes it runnable, the others keep their order, and the word is left
    free, with the has_waiters bit set exactly when threads still wait; no other
    word, queue, context or global changes and the scheduler invariant is kept.
    In that state, with interrupts disabled once more than before, the
    operation ends with [intsRestore]: when interrupts were on it reschedules if
    that is needed, which it is when the woken thread is better than the current
    one and the first of its priority. *)
Theorem unlock_wakes_first_waiter (s : sched) (Q : qref -> list Z) (D : gmap Z ctx)
    (obj o l t : Z) (rest : list Z)
    (Hk : krep s Q D) (Hi : inv Q D) (Hc : cur_ok s) (Hb : 0 <= blockInts s)
    (Ho : 0 <= o < 2 ^ 16) (Hw : lock_word obj s = lockw 1 true o)
    (Hl : lock_of s obj = Some l) (Hq : Q (WaiterQ l) = t :: rest) :
  exists s1 d, D !! t = Some d /\
    krep s1 (resumeQ t d (<[WaiterQ l := rest]> Q)) (<[t := resumeC d]> D) /\
    inv (resumeQ t d (<[WaiterQ l := rest]> Q)) (<[t := resumeC d]> D) /\
    env s1 = env (setw obj (if decide (rest = []) then 0 else lockw 0 true o) s) /\
    blockInts s1 = blockInts s + 1 /\
    needReschedule s1 = needReschedule s || preempts Q D (currentThread s) [t] /\
    _unlockMutex obj s = intsRestore reschedule s1.
Proof.
  destruct (i_block _ _ Hi (WaiterQ l) t eq_refl ltac:(rewrite Hq; left)) as (d & Hd & Hst & Hbq).
  assert (Hcd : is_Some (D !! currentThread s)).
  { destruct Hc as (c & Hc & _). rewrite <- (rep_data _ _ _ _ (proj1 Hk)), lookup_fmap, Hc. eauto. }
  assert (Hrm : rm t (Q (WaiterQ l)) = rest).
  { rewrite Hq. apply (rm_split t [] rest). simpl. rewrite <- Hq. apply (proj1 Hk). }
  set (v := if decide (rest = []) then 0 else lockw 0 true o).
  set (X m := exists s1 d, D !! t = Some d /\
    krep s1 (resumeQ t d (<[WaiterQ l := rest]> Q)) (<[t := resumeC d]> D) /\
    inv (resumeQ t d (<[WaiterQ l := rest]> Q)) (<[t := resumeC d]> D) /\
    env s1 = env (setw obj v s) /\ blockInts s1 = blockInts s + 1 /\
    needReschedule s1 = needReschedule s || preempts Q D (currentThread s) [t] /\ m = intsRestore reschedule s1).
  change (X (_unlockMutex obj s)).
  apply (reach_bind _ _ X). unfold wp at 1. rewrite assert_current_ok by done. apply (reach_bind _ _ X), wp_gets.
  rewrite Hw, hi_lockw by done. cbn [Z.leb]. rewrite with_hi_lockw with (id := o); [|done|done|by apply lo_lockw].
  change ((2 * 1 + Z.b2z true - 2) * 2 ^ 16 + o) with (lockw 0 true o).
  apply (reach_bind _ _ X), wp_set_lock_word. rewrite hi_lockw by done. cbn [Z.eqb negb Z.mul Z.add Z.b2z].
  apply (reach_bind _ _ X), wp_modify. set (s1 := set_blockInts _ _).
  assert (Hk1 : krep s1 Q D) by exact Hk. pose proof Hk1 as [Hr1 Ht1].
  apply (reach_bind _ _ X). apply (wp_getLock_found _ _ obj s1 l); [done|].
  apply (reach_bind _ _ X), wp_load_head; [done|]. rewrite (rep_head _ _ _ _ Hr1), Hq. cbn [head].
  pose proof (rep_chain _ _ _ _ Hr1 (WaiterQ l)) as Hch. rewrite Hq in Hch. destruct Hch as (_ & c & Hct & Hrest).
  apply (reach_bind _ _ X). eapply wp_bind, wp_TCTX; [done|].
  eapply wp_bind, (wp_unlink _ _ s1 Q D (WaiterQ l) t [] rest c); [done..|]. intros m h Hr2 Hoff _.
  rewrite Hrm in Hr2, Hoff. set (Q1 := <[WaiterQ l := rest]> Q) in *.
  assert (Hn : nextQ c = head rest) by (simpl in Hrest; destruct rest; simpl in Hrest; naive_solver).
  assert (Hi1 : inv Q1 D) by (unfold Q1; rewrite <- Hrm; by apply inv_unblock).
  apply wp_bind. apply (wp_mono _ _ _ (fun _ s2 => kat s2 Q1 D /\ blockInts s2 = blockInts s + 1 /\
    needReschedule s2 = needReschedule s /\ env s2 = env (setw obj v s))).
  { assert (Hka : kat (edit m h s1) Q1 D).
    { split_and!; [split; [done|by apply tails_insert_block]|done|done]. }
    rewrite Hn. destruct rest as [|y rest']; simpl.
    - apply wp_set_lock_word. split_and!; [done..|]. unfold env. simpl. by rewrite insert_insert_eq.
    - by split_and!. }
  intros _ s2 (Hka2 & Hb2 & Hn2 & He2). pose proof Hka2 as ([Hr3 _] & _).
  eapply wp_bind, wp_ctx; [done..|]. intros c2 _ Ec2. apply wp_bind, wp_check.
  { replace (status c2) with (status d) by (by subst d). by rewrite Hst. }
  pose proof (env_current _ _ He2) as Hcur. simpl in Hcur. destruct Hcd as [dc Hdc].
  eapply (wp_iresume_blocked _ _ s2 Q1 D t d dc); [done|done|by rewrite Hcur|lia|by rewrite Hst|].
  intros s3 (He3 & Hb3 & _) (Hk3 & Hi3 & _) _ _ Hn3. exists s3, d. split_and!; [done..|congruence|lia| |done].
  rewrite Hn3, Hn2. f_equal. unfold preempts, prio_of, Q1. simpl. rewrite Hd, Hdc, orb_false_r. simpl.
  by rewrite fn_lookup_insert_ne by done.
Qed.

(** Thread 1 owns object 4096 and thread 4 waits for it. *)
Definition ex_w0 : sched :=
  setw 4096 (lockw 1 true 1)
    (set_nextLock 2 (set_lockTable {[HASHLOCK 4096 := [(1, 4096)]]} (ex_sched 1))).
Definition ex_w : sched := state_of (suspendOnQThread 4 (Some (WaiterQ 1)) NOTIMEOUT false ex_w0) ex_w0.
Definition ex_wQ : qref -> list Z := suspendQ ex_D 0 4 (erase ex_c4) (Some (WaiterQ 1)) NOTIMEOUT ex_Q.
Definition ex_wD : gmap Z ctx := <[4 := suspendC 0 (Some (WaiterQ 1)) NOTIMEOUT (erase ex_c4)]> ex_D.

Lemma ex_w_ok : krep ex_w ex_wQ ex_wD /\ inv ex_wQ ex_wD.
Proof.
  assert (Hq : forall q, Some (WaiterQ 1) = Some q -> block_q q = true /\ valid_q q = true) by (by intros q [= <-]).
  split; [|by apply inv_suspend; [apply ex_inv|..]].
  destruct (wp_done (fun _ _ => True) (suspendOnQThread 4 (Some (WaiterQ 1)) NOTIMEOUT false)
    (fun _ s' => krep s' ex_wQ ex_wD) ex_w0) as (s' & [] & E & H).
  - eapply wp_suspendOnQThread; [exact (ex_krep 1)|done|done|simpl; set_solver|simpl; lia|simpl; set_solver|done|].
    intros s' ? _ _ _ _. by apply wp_ret.
  - unfold ex_w. by rewrite E.
Qed.

Lemma unlock_wakes_first_waiter_witness : exists s1,
  _unlockMutex 4096 (set_blockInts 0 ex_w) = intsRestore reschedule s1 /\ lock_word 4096 s1 = 0 /\ blockInts s1 = 1.
Proof.
  destruct (unlock_wakes_first_waiter (set_blockInts 0 ex_w) ex_wQ ex_wD 4096 1 1 4 [] (proj1 ex_w_ok) (proj2 ex_w_ok))
    as (s1 & d & _ & _ & _ & He & Hb & _ & E).
  - eexists. split; [vm_compute; reflexivity|]. split; vm_compute; reflexivity.
  - simpl. lia.
  - lia.
  - vm_compute. reflexivity.
  - vm_compute. reflexivity.
  - vm_compute. reflexivity.
  - exists s1. split; [exact E|]. split; [|exact Hb]. unfold env in He. injection He as _ _ _ _ _ _ _ _ _ _ _ _ Ew _ _.
    unfold lock_word. rewrite Ew. vm_compute. reflexivity.
Defined.

(** ** Traces that break the locks

    Thread 1 owns object 4096 and thread 4, of the same priority, is next. *)

(** What follows a switch: the state and the continuation of the thread left. *)
Definition switched {A B} (m : step A) (f : sched -> (sched -> step A) -> step B) : step B :=
  match m with Yield _ s k => f s k | _ => Crash AssertionFailed end.

(** Thread 1 locks the object and yields.  Thread 4, which returns from an
    earlier switch with interrupts on, tries to lock the object and waits;
    thread 1 goes on. *)
Definition contended : step unit :=
  switched ((_lockMutex 0 4096;; THREAD_YIELD) (ex_sched 0)) (fun s k1 =>
  switched (_lockMutex 0 4096 (set_blockInts 0 s)) (fun s' _ => k1 s')).

(** Stopping a thread that waits for a lock makes the next release crash.
    [stopThread] resumes the waiter, which takes it off the waiter queue, but
    the has_waiters bit of the word stays set; when the owner releases the
    lock, [wakeup_waiter] dereferences the empty queue. *)
Theorem stop_waiter_crashes_unlock : exists s1 s2,
  contended = Done s1 tt /\ currentThread s1 = 1 /\ lock_word 4096 s1 = lockw 1 true 1 /\
  qhead s1 !! WaiterQ 1 = Some 4 /\
  stopThread 4 s1 = Done s2 tt /\ lock_word 4096 s2 = lockw 1 true 1 /\
  qhead s2 !! WaiterQ 1 = None /\
  _unlockMutex 4096 s2 = Crash BadAccess.
Proof.
  exists (state_of contended (ex_sched 0)), (state_of (stopThread 4 (state_of contended (ex_sched 0))) (ex_sched 0)).
  split_and!; vm_compute; reflexivity.
Qed.

(** Thread 1 locks the object and waits for a notification or 50 ms; thread 4
    locks the object and notifies. *)
Definition notified : step unit :=
  switched ((_lockMutex 0 4096;; _waitCond 0 4096 50) (ex_sched 0)) (fun s _ =>
    (_lockMutex 0 4096;; _signalCond 4096) (set_blockInts 0 s)).

(** A timed wait that is notified and then times out corrupts the queues.
    [_signalCond] moves the waiting thread to the waiter queue but leaves its
    [blockqueue] at the condition queue and its alarm pending; when the alarm
    expires before the lock is released, [iresumeThread] does not find the
    thread in the condition queue and puts it on the run queue while it still
    stands on the waiter queue, and the release fails its assertion. *)
Theorem notify_then_timeout_corrupts : exists s1 s2 c,
  notified = Done s1 tt /\ currentThread s1 = 4 /\ qhead s1 !! WaiterQ 1 = Some 1 /\
  alarmException reschedule (set_clock 60 s1) = Done s2 tt /\
  qhead s2 !! WaiterQ 1 = Some 1 /\
  qhead s2 !! RunQ 5 = Some 4 /\ threadContext s2 !! 4 = Some c /\ nextQ c = Some 1 /\
  _unlockMutex 4096 s2 = Crash AssertionFailed.
Proof.
  exists (state_of notified (ex_sched 0)),
    (state_of (alarmException reschedule (set_clock 60 (state_of notified (ex_sched 0)))) (ex_sched 0)). eexists.
  split_and!; vm_compute; reflexivity.
Qed.

(** [_waitCond], [_signalCond] and [_broadcastCond] check the owner field
    of the word only, which [_unlockMutex] leaves in place: a thread that has
    released the lock and does not hold it may still notify, where Java
    requires [IllegalMonitorStateException]. *)
Theorem notify_without_lock : exists s1 s2,
  (_lockMutex 0 4096;; _unlockMutex 4096) (ex_sched 0) = Done s1 tt /\
  Z.land (lock_word 4096 s1) SEMAPHORE_MASK = 0 /\
  _signalCond 4096 s1 = Done s2 tt /\ _signalCond 4096 (ex_sched 0) = Throw (ex_sched 0) IllegalMonitorStateException.
Proof.
  exists (state_of ((_lockMutex 0 4096;; _unlockMutex 4096) (ex_sched 0)) (ex_sched 0)). eexists.
  split_and!; vm_compute; reflexivity.
Qed.
