(* ===== verification/GcHeap.v ===== *)
(** * The manual memory manager (src/runtime/gc.c, lines 280-935)

    The region table, the segregated free lists of boundary-tagged lumps that
    the explicitly managed heap and the large object area share, and the
    operations of the explicitly managed heap.  Memory is a store of 32-bit
    words; the words of a region fresh from [sbrk] are zero. *)

From S2P Require Import Prelude.

(** ** Memory *)

(** [ranges] are the address ranges the process has; an access outside them,
    or at an address that is not that of a word, is [BadAccess]. *)
Record memory := mkMem { words : gmap Z Z; ranges : list (Z * Z) }.

Definition mapped (rs : list (Z * Z)) (a : Z) : bool :=
  (a mod 4 =? 0) && existsb (fun '(lo, hi) => (lo <=? a) && (a + 4 <=? hi)) rs.

Definition ld (m : memory) (a : Z) : res failure Z :=
  if mapped (ranges m) a then Ok (default 0 (words m !! a)) else Err BadAccess.

Definition st (m : memory) (a v : Z) : res failure memory :=
  if mapped (ranges m) a then Ok (mkMem (<[a := v]> (words m)) (ranges m)) else Err BadAccess.

(** [memset(p, 0, n)] and [memcpy(t, p, n)], a word at a time; the machine is
    big-endian, so the last bytes of a partial word are its high ones. *)
Fixpoint zero_words (n : nat) (m : memory) (a : Z) : res failure memory :=
  match n with O => Ok m | S n' => m ← st m a 0; zero_words n' m (a + 4) end.

Definition memset0 (m : memory) (p n : Z) : res failure memory := zero_words (Z.to_nat (n / 4)) m p.

Fixpoint copy_words (n : nat) (m : memory) (t p : Z) : res failure memory :=
  match n with
  | O => Ok m
  | S n' => w ← ld m p; m ← st m t w; copy_words n' m (t + 4) (p + 4)
  end.

Definition memcpy (m : memory) (t p n : Z) : res failure memory :=
  let full := n / 4 in
  m ← copy_words (Z.to_nat full) m t p;
  if n mod 4 =? 0 then Ok m else
  let low := 2 ^ (32 - 8 * (n mod 4)) in
  w ← ld m (p + 4 * full);
  d ← ld m (t + 4 * full);
  st m (t + 4 * full) (Z.lor (Z.land w (2 ^ 32 - low)) (Z.land d (low - 1))).

(** ** Constants and macros *)

Definition GC_HEAD := 4.
Definition MEMALIGN := 8.
Definition MARK_BIT := 1.
Definition PREV_BIT := 4.
Definition GC_BLOCKSIZE := 4096.
Definition GC_REGIONSIZE := 2 * 1024 * 1024.
Definition GC_REGION_TABLE_SIZE := 1024.
Definition SIZECLASS_SENTINEL := 0xFFFFFFFF.
Definition SIZECLASS_MAX_SMALLSIZE := 1024.
Definition SIZECLASS_MAX_EXPONENT := 16.
Definition SIZE_CLASSES := SIZECLASS_MAX_SMALLSIZE / (2 * MEMALIGN) + SIZECLASS_MAX_EXPONENT + 1.

Definition mask_size (w : Z) : Z := Z.land w (Z.lnot 7).
Definition ROUNDUPREGIONSIZE (v : Z) : Z := Z.land (u32 (v + GC_REGIONSIZE - 1)) (- GC_REGIONSIZE).

Definition HEADER (m : memory) (p : Z) : res failure Z := ld m (p - GC_HEAD).
Definition set_HEADER (m : memory) (p w : Z) : res failure memory := st m (p - GC_HEAD) w.
Definition SIZE (m : memory) (p : Z) : res failure Z := w ← HEADER m p; Ok (mask_size w).
Definition NEXT (m : memory) (p : Z) : res failure Z := ld m p.
Definition PREV (m : memory) (p : Z) : res failure Z := ld m (p + 4).
Definition set_NEXT (m : memory) (p v : Z) : res failure memory := st m p v.
Definition set_PREV (m : memory) (p v : Z) : res failure memory := st m (p + 4) v.
Definition NEXT_LUMP (m : memory) (p : Z) : res failure Z := s ← SIZE m p; Ok (p + s).
Definition PREV_LUMP (m : memory) (p : Z) : res failure Z := s ← ld m (p - 2 * GC_HEAD); Ok (p - s).
Definition set_FOOTER (m : memory) (p size w : Z) : res failure memory := st m (p + size - 2 * GC_HEAD) w.

Definition massert (b : bool) : res failure unit := assert_or AssertionFailed b.

(** ** Free lists *)

Fixpoint size_class_loop (fuel : nat) (size c : Z) : res failure Z :=
  if SIZECLASS_MAX_SMALLSIZE <? size then
    match fuel with O => Err OutOfFuel | S fuel' => size_class_loop fuel' (size / 2) (c + 1) end
  else Ok c.

Definition size_class (size : Z) : res failure Z :=
  _ ← massert (0 <? size);
  _ ← massert (size mod (2 * MEMALIGN) =? 0);
  if size <=? SIZECLASS_MAX_SMALLSIZE then Ok (size / (2 * MEMALIGN))
  else if SIZECLASS_MAX_SMALLSIZE * Z.shiftl 1 SIZECLASS_MAX_EXPONENT <? size then Ok (SIZE_CLASSES - 1)
  else
    c ← size_class_loop 32 size (SIZECLASS_MAX_SMALLSIZE / (2 * MEMALIGN));
    _ ← massert (SIZECLASS_MAX_SMALLSIZE / (2 * MEMALIGN) <? c);
    _ ← massert (c <? SIZE_CLASSES - 1);
    Ok c.

(** [assert(size_class(size) == class)] *)
Definition assert_class (size class : Z) : res failure unit :=
  c ← size_class size; massert (c =? class).

Definition list_at (lists : list Z) (class : Z) : res failure Z := of_option BadAccess (zlookup lists class).
Definition set_list (lists : list Z) (class v : Z) : res failure (list Z) := of_option BadAccess (zstore lists class v).

(** [while (p != NULL && SIZE(p) < size) { prev = p; p = NEXT(p); }] *)
Fixpoint walk_list (fuel : nat) (m : memory) (size prev p : Z) : res failure (Z * Z) :=
  if p =? 0 then Ok (prev, p) else
  s ← SIZE m p;
  if s <? size then
    match fuel with
    | O => Err OutOfFuel
    | S fuel' => n ← NEXT m p; walk_list fuel' m size p n
    end
  else Ok (prev, p).

(** [while (heap->lists[class] == NULL) class++;] *)
Fixpoint next_class (fuel : nat) (lists : list Z) (class : Z) : res failure Z :=
  l ← list_at lists class;
  if l =? 0 then match fuel with O => Err OutOfFuel | S fuel' => next_class fuel' lists (class + 1) end
  else Ok class.

Section Lists.
(** A bound on the length of a free list. *)
Context (fuel : nat).

Definition find_freelump (m : memory) (lists : list Z) (size class : Z) : res failure Z :=
  _ ← massert (class <? SIZE_CLASSES);
  _ ← massert (size mod (2 * MEMALIGN) =? 0);
  _ ← assert_class size class;
  l ← list_at lists class;
  '(_, p) ← walk_list fuel m size 0 l;
  if negb (p =? 0) then Ok p else
  class ← next_class (Z.to_nat SIZE_CLASSES) lists (class + 1);
  if class <? SIZE_CLASSES then list_at lists class else Ok 0.

Definition insert_freelump (m : memory) (lists : list Z) (lump class : Z) : res failure (memory * list Z) :=
  size ← SIZE m lump;
  _ ← massert (class <? SIZE_CLASSES);
  _ ← massert (size mod (2 * MEMALIGN) =? 0);
  _ ← assert_class size class;
  l ← list_at lists class;
  '(prev, node) ← walk_list fuel m size 0 l;
  m ← set_PREV m lump prev;
  m ← set_NEXT m lump node;
  '(m, lists) ← (if prev =? 0 then lists ← set_list lists class lump; Ok (m, lists)
                 else m ← set_NEXT m prev lump; Ok (m, lists));
  m ← (if negb (node =? 0) then set_PREV m node lump else Ok m);
  Ok (m, lists).

Definition remove_freelump (m : memory) (lists : list Z) (lump class : Z) : res failure (memory * list Z) :=
  _ ← massert (class <? SIZE_CLASSES);
  size ← SIZE m lump;
  _ ← massert (size mod (2 * MEMALIGN) =? 0);
  _ ← assert_class size class;
  prev ← PREV m lump;
  next ← NEXT m lump;
  '(m, lists) ← (if prev =? 0 then lists ← set_list lists class next; Ok (m, lists)
                 else m ← set_NEXT m prev next; Ok (m, lists));
  next ← NEXT m lump;
  m ← (if negb (next =? 0) then prev ← PREV m lump; set_PREV m next prev else Ok m);
  Ok (m, lists).

(** [insert_freelump(heap, lump, size_class(SIZE(lump)))], and the same for [remove]. *)
Definition insert_sized (m : memory) (lists : list Z) (lump size : Z) : res failure (memory * list Z) :=
  c ← size_class size; insert_freelump m lists lump c.

Definition remove_sized (m : memory) (lists : list Z) (lump : Z) : res failure (memory * list Z) :=
  s ← SIZE m lump; c ← size_class s; remove_freelump m lists lump c.

(** ** A heap *)

(** [alloc] and [size] are the statistics the heap points to. *)
Record heap := mkHeap { hmem : memory; lists : list Z; hsize : Z; halloc : Z }.

Definition with_memory (m : memory) (h : heap) : heap := mkHeap m (lists h) (hsize h) (halloc h).

Definition mem_init (m : memory) (size alloc : Z) : heap :=
  mkHeap m (replicate (Z.to_nat SIZE_CLASSES) 0 ++ [SIZECLASS_SENTINEL]) size alloc.

Definition add_alloc (h : heap) (size : Z) : heap :=
  mkHeap (hmem h) (lists h) (hsize h) (u32 (halloc h + size)).

(** The size of a lump for a request: the translator's padding, the header, and
    the rounding. *)
Definition lump_size (size : Z) : Z :=
  Z.land (u32 (u32 (u32 (size + MEMALIGN) + GC_HEAD) + 2 * MEMALIGN - 1)) (- (2 * MEMALIGN)).

Definition split_lump (m : memory) (l : list Z) (p size : Z) : res failure (memory * list Z) :=
  sp ← SIZE m p;
  if size <? sp then
    let t := p + size in
    let s := sp - size in
    m ← set_FOOTER m t s s;
    m ← set_HEADER m t s;
    '(m, l) ← insert_sized m l t s;
    w ← HEADER m p;
    m ← set_HEADER m p (Z.lor size (Z.land w 7));
    Ok (m, l)
  else Ok (m, l).

Definition mem_allocate (h : heap) (size : Z) : res failure (heap * Z) :=
  let size := lump_size size in
  class ← size_class size;
  p ← find_freelump (hmem h) (lists h) size class;
  if p =? 0 then Ok (h, 0) else
  n ← NEXT_LUMP (hmem h) p;
  w ← HEADER (hmem h) n;
  _ ← massert (Z.land w PREV_BIT =? 0);
  s ← SIZE (hmem h) p;
  _ ← massert (size <=? s);
  '(m, l) ← remove_sized (hmem h) (lists h) p;
  '(m, l) ← split_lump m l p size;
  s ← SIZE m p;
  _ ← massert (size =? s);
  n ← NEXT_LUMP m p;
  w ← HEADER m n;
  m ← set_HEADER m n (Z.lor w PREV_BIT);
  m ← memset0 m p (size - GC_HEAD);
  Ok (add_alloc (mkHeap m l (hsize h) (halloc h)) size, p).

(** The two coalescing steps of [mem_free]. *)
Definition merge_prev (m : memory) (l : list Z) (p : Z) : res failure (memory * list Z * Z) :=
  w ← HEADER m p;
  if Z.land w PREV_BIT =? 0 then
    prev ← PREV_LUMP m p;
    '(m, l) ← remove_sized m l prev;
    s1 ← SIZE m prev; s2 ← SIZE m p; w ← HEADER m prev;
    m ← set_HEADER m prev (Z.lor (s1 + s2) (Z.land w 7));
    Ok (m, l, prev)
  else Ok (m, l, p).

Definition merge_next (m : memory) (l : list Z) (p : Z) : res failure (memory * list Z) :=
  n ← NEXT_LUMP m p;
  nn ← NEXT_LUMP m n;
  w ← HEADER m nn;
  if Z.land w PREV_BIT =? 0 then
    '(m, l) ← remove_sized m l n;
    s1 ← SIZE m p; s2 ← SIZE m n; w ← HEADER m p;
    m ← set_HEADER m p (Z.lor (s1 + s2) (Z.land w 7));
    Ok (m, l)
  else Ok (m, l).

Definition mem_free (h : heap) (p : Z) : res failure heap :=
  if p =? 0 then Ok h else
  let m := hmem h in
  s ← SIZE m p;
  _ ← massert (s mod (2 * MEMALIGN) =? 0);
  n ← NEXT_LUMP m p;
  w ← HEADER m n;
  _ ← massert (negb (Z.land w PREV_BIT =? 0));
  '(m, l, p) ← merge_prev m (lists h) p;
  '(m, l) ← merge_next m l p;
  s ← SIZE m p;
  m ← set_FOOTER m p s s;
  n ← NEXT_LUMP m p;
  w ← HEADER m n;
  m ← set_HEADER m n (Z.land w (Z.lnot PREV_BIT));
  '(m, l) ← insert_sized m l p s;
  Ok (mkHeap m l (hsize h) (halloc h)).

Definition mem_resize (h : heap) (p size : Z) : res failure (heap * Z) :=
  if p =? 0 then mem_allocate h size else
  '(h, t) ← mem_allocate h size;
  if t =? 0 then Ok (h, 0) else
  s ← SIZE (hmem h) p;
  m ← memcpy (hmem h) t p (if s - GC_HEAD <? size then s - GC_HEAD else size);
  h ← mem_free (mkHeap m (lists h) (hsize h) (halloc h)) p;
  Ok (add_alloc h size, t).

End Lists.

(** ** Regions *)

Record region := mkRegion { rid : Z; rstart : Z; rend : Z; rtype : Z }.

(** The table, sorted by address, and the free entries of the pool. *)
Record rtable := mkTable { regions : list region; free_regions : list Z }.

Definition region_init : rtable := mkTable [] (seqZ 0 GC_REGION_TABLE_SIZE).

Definition region_at (t : list region) (i : Z) : res failure region := of_option BadAccess (zlookup t i).

Fixpoint region_search (fuel : nat) (t : list region) (p lo hi : Z) : res failure (Z * Z) :=
  if lo <? hi then
    match fuel with
    | O => Err OutOfFuel
    | S fuel' =>
        let mid := (lo + hi + 1) / 2 in
        r ← region_at t mid;
        if p <? rstart r then region_search fuel' t p lo (mid - 1) else region_search fuel' t p mid hi
    end
  else Ok (lo, hi).

Definition region_find (t : list region) (p : Z) : res failure (option region) :=
  '(lo, hi) ← region_search (length t) t p 0 (Z.of_nat (length t) - 1);
  _ ← massert (lo =? hi);
  r ← region_at t lo;
  Ok (if (rstart r <=? p) && (p <? rend r) then Some r else None).

(** The shift from the end of the table, on the reversed table. *)
Fixpoint insert_rev (e : region) (t : list region) : list region :=
  match t with
  | x :: t' => if rstart e <? rstart x then x :: insert_rev e t' else e :: x :: t'
  | [] => [e]
  end.

Definition insert_region (e : region) (t : list region) : list region := rev (insert_rev e (rev t)).

Section System.
(** [sbrk] of the C library, on the state of the system. *)
Context {os : Type} (sbrk : os -> Z -> os * option Z).

(** The [while (1)] of [region_allocate]. *)
Fixpoint sbrk_aligned (fuel : nat) (o : os) (size : Z) : res failure (os * option Z) :=
  match sbrk o size with
  | (o, None) => Ok (o, None)
  | (o, Some region) =>
      let miss := GC_BLOCKSIZE - region mod GC_BLOCKSIZE in
      if miss =? GC_BLOCKSIZE then Ok (o, Some region)
      else match fuel with
           | O => Err OutOfFuel
           | S fuel' => sbrk_aligned fuel' (fst (sbrk o (- size + miss))) size
           end
  end.

(** What the region manager works on, and the memory size of the other areas. *)
Record world := mkWorld { sys : os; table : rtable; gc_heap_limit : Z; others : Z }.

Definition region_allocate (w : world) (m : memory) (memsize size type : Z) :
    res failure (world * memory * option region) :=
  _ ← massert (0 <? size);
  _ ← massert (size mod GC_REGIONSIZE =? 0);
  _ ← massert (Z.of_nat (length (regions (table w))) <? GC_REGION_TABLE_SIZE);
  if gc_heap_limit w <? u32 (size + memsize) then Ok (w, m, None) else
  '(o, r) ← sbrk_aligned 2 (sys w) size;
  match r with
  | None => Ok (mkWorld o (table w) (gc_heap_limit w) (others w), m, None)
  | Some start =>
      match free_regions (table w) with
      | [] => Err BadAccess
      | id :: free =>
          let entry := mkRegion id start (start + size) type in
          Ok (mkWorld o (mkTable (insert_region entry (regions (table w))) free) (gc_heap_limit w) (others w),
              mkMem (words m) ((start, start + size) :: ranges m), Some entry)
      end
  end.

(** [mem_expand]: [None] is the negative result. *)
Definition mem_expand (fuel : nat) (w : world) (h : heap) (type size : Z) : res failure (world * option heap) :=
  let rsize := ROUNDUPREGIONSIZE (u32 (size + 6 * MEMALIGN)) in
  '(w, m, r) ← region_allocate w (hmem h) (u32 (others w + hsize h)) rsize type;
  match r with
  | None => Ok (w, None)
  | Some region =>
      let size := rsize - 6 * MEMALIGN in
      let p := rstart region + 2 * MEMALIGN in
      m ← set_HEADER m p (Z.lor size PREV_BIT);
      m ← set_FOOTER m p size size;
      '(m, l) ← insert_sized fuel m (lists h) p size;
      p ← NEXT_LUMP m p;
      m ← set_HEADER m p MEMALIGN;
      n ← NEXT_LUMP m p;
      m ← set_HEADER m n PREV_BIT;
      _ ← massert (p <? rend region);
      Ok (w, Some (mkHeap m l (u32 (hsize h + rsize)) (halloc h)))
  end.

(** ** The explicitly managed heap *)

Definition GC_REGION_FIXED := 4.

Definition set_mark (h : heap) (p : Z) : res failure heap :=
  w ← HEADER (hmem h) p;
  m ← set_HEADER (hmem h) p (Z.lor w MARK_BIT);
  Ok (mkHeap m (lists h) (hsize h) (halloc h)).

(** An operation is tried, and tried again after the heap has been expanded. *)
Definition with_expansion (op : heap -> res failure (heap * Z)) (fuel : nat) (w : world) (h : heap) (size : Z) :
    res failure (world * heap * Z) :=
  '(h, p) ← op h;
  '(w, h, p) ← (if p =? 0 then
                  '(w, h') ← mem_expand fuel w h GC_REGION_FIXED size;
                  match h' with
                  | None => Err OutOfMemoryError
                  | Some h => '(h, p) ← op h; _ ← massert (negb (p =? 0)); Ok (w, h, p)
                  end
                else Ok (w, h, p));
  h ← set_mark h p;
  Ok (w, h, p).

Definition gc_malloc_fixed (fuel : nat) (w : world) (h : heap) (size : Z) : res failure (world * heap * Z) :=
  with_expansion (fun h => mem_allocate fuel h size) fuel w h size.

Definition gc_realloc_fixed (fuel : nat) (w : world) (h : heap) (mem size : Z) : res failure (world * heap * Z) :=
  with_expansion (fun h => mem_resize fuel h mem size) fuel w h size.

Definition gc_free (fuel : nat) (h : heap) (p : Z) : res failure heap := mem_free fuel h p.

End System.
