(* ===== verification/GcTiling.v ===== *)
(** * The manual memory manager keeps its heap tiled

    The invariant of a heap (lumps tile its regions, adjacent free lumps are
    merged, boundary tags and free lists agree with the lumps) and the
    behaviour of the operations of [GcHeap] under it. *)

From S2P Require Import Prelude GcHeap.

(** ** Reading and writing mapped memory *)

Definition acc (m : memory) (a : Z) : Prop := mapped (ranges m) a = true.
Definition rd (m : memory) (a : Z) : Z := default 0 (words m !! a).
Definition upd (m : memory) (a v : Z) : memory := mkMem (<[a := v]> (words m)) (ranges m).

Lemma ld_acc m a : acc m a -> ld m a = Ok (rd m a).
Proof. intros H. unfold ld. by rewrite H. Qed.

Lemma st_acc m a v : acc m a -> st m a v = Ok (upd m a v).
Proof. intros H. unfold st. by rewrite H. Qed.

Lemma rd_upd m a v b : rd (upd m a v) b = if a =? b then v else rd m b.
Proof.
  unfold rd, upd. simpl. destruct (Z.eqb_spec a b) as [->|H].
  - by rewrite lookup_insert_eq.
  - by rewrite lookup_insert_ne.
Qed.

Lemma rd_upd_eq m a v : rd (upd m a v) a = v.
Proof. by rewrite rd_upd, Z.eqb_refl. Qed.

Lemma rd_upd_ne m a v b : a <> b -> rd (upd m a v) b = rd m b.
Proof. intros H. rewrite rd_upd. by destruct (Z.eqb_spec a b). Qed.

(** Two memories with the same ranges that agree where [P] holds. *)
Definition agree (P : Z -> Prop) (m m' : memory) : Prop :=
  ranges m' = ranges m /\ forall a, P a -> rd m' a = rd m a.

Lemma agree_refl P m : agree P m m.
Proof. by split. Qed.

Lemma agree_trans P m1 m2 m3 : agree P m1 m2 -> agree P m2 m3 -> agree P m1 m3.
Proof. intros [E1 H1] [E2 H2]. split; [congruence|]. intros a Ha. rewrite H2, H1; auto. Qed.

Lemma agree_weaken (P Q : Z -> Prop) m m' : agree P m m' -> (forall a, Q a -> P a) -> agree Q m m'.
Proof. intros [E H] HQ. split; auto. Qed.

Lemma agree_upd (P : Z -> Prop) m a v : ~ P a -> agree P m (upd m a v).
Proof. intros H. split; [done|]. intros b Hb. apply rd_upd_ne. naive_solver. Qed.

Lemma agree_acc P m m' a : agree P m m' -> acc m' a <-> acc m a.
Proof. intros [E _]. unfold acc. by rewrite E. Qed.

Lemma zero_words_spec n : forall m a, (forall i, 0 <= i < Z.of_nat n -> acc m (a + 4 * i)) ->
  exists m', zero_words n m a = Ok m' /\ agree (fun b => b < a \/ a + 4 * Z.of_nat n <= b) m m' /\
    forall i, 0 <= i < Z.of_nat n -> rd m' (a + 4 * i) = 0.
Proof.
  induction n as [|n IH]; intros m a Hacc; cbn [zero_words].
  - exists m. split_and!; [done|apply agree_refl|lia].
  - assert (acc m a) as Ha by (specialize (Hacc 0); rewrite Z.mul_0_r, Z.add_0_r in Hacc; apply Hacc; lia).
    rewrite st_acc by done. cbn [mbind res_bind].
    destruct (IH (upd m a 0) (a + 4)) as (m' & -> & Hag & Hz).
    { intros i Hi. replace (a + 4 + 4 * i) with (a + 4 * (i + 1)) by lia. apply (Hacc (i + 1)). lia. }
    exists m'. split_and!; [done| |].
    + eapply agree_trans; [apply agree_upd|eapply agree_weaken; [exact Hag|]]; cbn; lia.
    + intros i Hi. destruct (Z.eq_dec i 0) as [->|Hne].
      * destruct Hag as [_ Hag]. rewrite Z.mul_0_r, Z.add_0_r, Hag by lia. apply rd_upd_eq.
      * replace (a + 4 * i) with (a + 4 + 4 * (i - 1)) by lia. apply Hz. lia.
Qed.

(** ** Headers *)

Definition hdr (m : memory) (p : Z) : Z := rd m (p - 4).
Definition sz (m : memory) (p : Z) : Z := mask_size (hdr m p).
Definition pbit (w : Z) : bool := Z.testbit w 2.

Lemma mask_size_spec w : mask_size w = 8 * (w / 8).
Proof. unfold mask_size. change (Z.lnot 7) with (- 2 ^ 3). by rewrite land_neg_pow2. Qed.

Lemma mask_size_bits w i : 0 <= i -> Z.testbit (mask_size w) i = (3 <=? i) && Z.testbit w i.
Proof.
  intros Hi. unfold mask_size. change 7 with (Z.ones 3). rewrite Z.land_spec, Z.lnot_spec by done.
  destruct (Z.leb_spec 3 i); simpl.
  - rewrite Z.ones_spec_high by lia. by rewrite andb_true_r.
  - rewrite Z.ones_spec_low by lia. by rewrite andb_false_r.
Qed.

Lemma mask_size_eq w w' : (forall i, 3 <= i -> Z.testbit w i = Z.testbit w' i) -> mask_size w = mask_size w'.
Proof.
  intros H. apply Z.bits_inj'. intros i Hi. rewrite !mask_size_bits by done.
  destruct (Z.leb_spec 3 i); [by rewrite H|done].
Qed.

Lemma mask_size_id s : s mod 8 = 0 -> mask_size s = s.
Proof. intros H. rewrite mask_size_spec. dmlia. Qed.

Lemma low_bits_small s i : s mod 8 = 0 -> 0 <= i < 3 -> Z.testbit s i = false.
Proof.
  intros Hs Hi. rewrite <- (mask_size_id s Hs), mask_size_bits by lia. by destruct (Z.leb_spec 3 i); [lia|].
Qed.

Lemma testbit_const_high c i : 0 <= c < 8 -> 3 <= i -> Z.testbit c i = false.
Proof. intros Hc Hi. apply (in_u_testbit 3); [exact Hc|done]. Qed.

Lemma header_size s w : s mod 8 = 0 -> mask_size (Z.lor s (Z.land w 7)) = s.
Proof.
  intros Hs. rewrite <- (mask_size_id s Hs) at 2. apply mask_size_eq. intros i Hi.
  rewrite Z.lor_spec, Z.land_spec, (testbit_const_high 7 i) by lia. by rewrite andb_false_r, orb_false_r.
Qed.

Lemma header_pbit s w : s mod 8 = 0 -> pbit (Z.lor s (Z.land w 7)) = pbit w.
Proof.
  intros Hs. unfold pbit. rewrite Z.lor_spec, Z.land_spec, low_bits_small by (done || lia).
  change (Z.testbit 7 2) with true. by rewrite andb_true_r.
Qed.

Lemma set_pbit w : mask_size (Z.lor w PREV_BIT) = mask_size w /\ pbit (Z.lor w PREV_BIT) = true.
Proof.
  split.
  - apply mask_size_eq. intros i Hi. rewrite Z.lor_spec, (testbit_const_high PREV_BIT i) by (unfold PREV_BIT; lia).
    apply orb_false_r.
  - unfold pbit. rewrite Z.lor_spec. apply orb_true_r.
Qed.

Lemma clear_pbit w : mask_size (Z.land w (Z.lnot PREV_BIT)) = mask_size w /\
  pbit (Z.land w (Z.lnot PREV_BIT)) = false.
Proof.
  split.
  - apply mask_size_eq. intros i Hi. rewrite Z.land_spec, Z.lnot_spec, (testbit_const_high PREV_BIT i)
      by (unfold PREV_BIT; lia). apply andb_true_r.
  - unfold pbit. rewrite Z.land_spec. apply andb_false_r.
Qed.

Lemma set_markbit w : mask_size (Z.lor w MARK_BIT) = mask_size w /\ pbit (Z.lor w MARK_BIT) = pbit w.
Proof.
  split.
  - apply mask_size_eq. intros i Hi. rewrite Z.lor_spec, (testbit_const_high MARK_BIT i) by (unfold MARK_BIT; lia).
    apply orb_false_r.
  - unfold pbit. rewrite Z.lor_spec. apply orb_false_r.
Qed.

Lemma test_pbit w : (Z.land w PREV_BIT =? 0) = negb (pbit w).
Proof.
  unfold pbit. rewrite <- land_pow2_testbit by lia. by rewrite negb_involutive.
Qed.

Lemma HEADER_acc m p : acc m (p - 4) -> HEADER m p = Ok (hdr m p).
Proof. apply ld_acc. Qed.

Lemma SIZE_acc m p : acc m (p - 4) -> SIZE m p = Ok (sz m p).
Proof. intros H. unfold SIZE. by rewrite HEADER_acc. Qed.

Lemma NEXT_LUMP_acc m p : acc m (p - 4) -> NEXT_LUMP m p = Ok (p + sz m p).
Proof. intros H. unfold NEXT_LUMP. by rewrite SIZE_acc. Qed.

(** ** Size classes *)

Definition max_lump : Z := 2 ^ 25.

Definition good_size (s : Z) : Prop := 16 <= s <= max_lump /\ s mod 16 = 0.

Definition cls (s : Z) : Z := match size_class s with Ok c => c | Err _ => 0 end.

Lemma size_class_loop_range k : forall fuel s c, 0 <= s -> s / 2 ^ Z.of_nat k <= SIZECLASS_MAX_SMALLSIZE ->
  (k <= fuel)%nat -> exists c', size_class_loop fuel s c = Ok c' /\ c <= c' <= c + Z.of_nat k /\
    (SIZECLASS_MAX_SMALLSIZE < s -> c < c').
Proof.
  induction k as [|k IH]; intros fuel s c Hs Hk Hf.
  - simpl in Hk. rewrite Z.div_1_r in Hk. exists c. destruct fuel; cbn [size_class_loop];
      (destruct (Z.ltb_spec SIZECLASS_MAX_SMALLSIZE s); [lia|]); split; [done|lia|done|lia].
  - destruct fuel as [|fuel]; [lia|]. cbn [size_class_loop].
    destruct (Z.ltb_spec SIZECLASS_MAX_SMALLSIZE s); [|exists c; split; [done|lia]].
    destruct (IH fuel (s / 2) (c + 1)) as (c' & -> & Hc & _); [by apply Z.div_pos| |lia|].
    + rewrite Z.div_div by lia. by replace (2 * 2 ^ Z.of_nat k) with (2 ^ Z.of_nat (S k))
        by (rewrite Nat2Z.inj_succ, Z.pow_succ_r; lia).
    + exists c'. split; [done|lia].
Qed.

Lemma size_class_loop_mono fuel : forall s s' c c1 c2, s <= s' ->
  size_class_loop fuel s c = Ok c1 -> size_class_loop fuel s' c = Ok c2 -> c1 <= c2.
Proof.
  assert (Hge : forall fuel s c c', size_class_loop fuel s c = Ok c' -> c <= c').
  { clear. induction fuel as [|fuel IH]; intros s c c'; cbn [size_class_loop]; case_test; intros He; simplify_eq; try lia.
    apply IH in He. lia. }
  induction fuel as [|fuel IH]; intros s s' c c1 c2 Hs; cbn [size_class_loop].
  - do 2 case_test; intros E1 E2; simplify_eq; lia.
  - destruct (Z.ltb_spec SIZECLASS_MAX_SMALLSIZE s), (Z.ltb_spec SIZECLASS_MAX_SMALLSIZE s');
      intros E1 E2; simplify_eq; try lia.
    + eapply IH; [|done|done]. by apply Z.div_le_mono.
    + apply Hge in E2. lia.
Qed.

Lemma size_class_cases s : good_size s ->
  s <= 1024 /\ size_class s = Ok (s / 16) \/
  1024 < s /\ exists c, size_class_loop 32 s 64 = Ok c /\ size_class s = Ok c /\ 64 < c < 80.
Proof.
  intros [Hs Hm]. unfold size_class, massert, assert_or, MEMALIGN, SIZE_CLASSES, SIZECLASS_MAX_SMALLSIZE.
  change SIZECLASS_MAX_EXPONENT with 16. unfold max_lump in *.
  destruct (Z.ltb_spec 0 s); [|lia]. change (2 * 8) with 16. rewrite Hm.
  cbn [mbind res_bind Z.eqb]. destruct (Z.leb_spec s 1024) as [Hsm|Hsm]; [by left|right; split; [done|]].
  change (1024 * Z.shiftl 1 16) with (2 ^ 26). destruct (Z.ltb_spec (2 ^ 26) s); [lia|].
  destruct (size_class_loop_range 15 32 s (1024 / 16)) as (c & E & Hc & Hc2); [lia| |lia|].
  { unfold SIZECLASS_MAX_SMALLSIZE. change (2 ^ Z.of_nat 15) with 32768. change (2 ^ 25) with (1024 * 32768) in Hs.
    apply Z.div_le_upper_bound; lia. }
  unfold SIZECLASS_MAX_SMALLSIZE in *. change (1024 / 16) with 64 in *. rewrite E. cbn [mbind res_bind].
  change (Z.of_nat 15) with 15 in Hc. exists c. split; [done|].
  destruct (Z.ltb_spec 64 c); [|lia]. cbn [mbind res_bind].
  change (1024 / (2 * MEMALIGN) + 16 + 1 - 1) with 80. destruct (Z.ltb_spec c 80); [|lia]. done.
Qed.

Lemma size_class_ok s : good_size s -> size_class s = Ok (cls s) /\ 1 <= cls s < 80.
Proof.
  intros Hg. unfold cls. pose proof Hg as [Hs Hm]. destruct (size_class_cases s Hg) as [(H & ->)|(H & c & _ & -> & Hc)].
  - split; [done|dmlia].
  - split; [done|lia].
Qed.

Lemma cls_mono s s' : good_size s -> good_size s' -> s <= s' -> cls s <= cls s'.
Proof.
  intros Hs Hs' Hle. pose proof Hs as [Hr _]. unfold cls.
  destruct (size_class_cases s Hs) as [(H & ->)|(H & c & F & -> & Hc)],
    (size_class_cases s' Hs') as [(H' & ->)|(H' & c' & F' & -> & Hc')].
  - by apply Z.div_le_mono.
  - dmlia.
  - lia.
  - eapply size_class_loop_mono; [exact Hle|done|done].
Qed.

(** ** Free lists *)

(** A doubly linked segment from [p] to the pointer [e], after the node [prev]. *)
Fixpoint dseg (m : memory) (prev p : Z) (l : list Z) (e : Z) : Prop :=
  match l with
  | [] => p = e
  | x :: l' => p = x /\ x <> 0 /\ rd m (x + 4) = prev /\ dseg m x (rd m x) l' e
  end.

Definition lastd (d : Z) (l : list Z) : Z := default d (last l).

Lemma lastd_cons d x l : lastd d (x :: l) = lastd x l.
Proof. unfold lastd. destruct l as [|y l]; [done|]. by rewrite !last_cons; destruct (last l). Qed.

Lemma dseg_app m l1 : forall prev p l2 e,
  dseg m prev p (l1 ++ l2) e <-> exists mid, dseg m prev p l1 mid /\ dseg m (lastd prev l1) mid l2 e.
Proof.
  induction l1 as [|x l1 IH]; intros prev p l2 e; simpl.
  - split; [intros H; exists p; done|intros (mid & -> & H); done].
  - rewrite lastd_cons. rewrite IH. split.
    + intros (-> & Hx & Hp & mid & H1 & H2). exists mid. done.
    + intros (mid & (-> & Hx & Hp & H1) & H2). split_and!; [done..|]. by exists mid.
Qed.

Lemma dseg_ext m m' l : (forall y, y ∈ l -> rd m' y = rd m y /\ rd m' (y + 4) = rd m (y + 4)) ->
  forall prev p e, dseg m prev p l e -> dseg m' prev p l e.
Proof.
  induction l as [|x l IH]; intros Hag prev p e; simpl; [done|].
  intros (-> & Hx & Hp & H). destruct (Hag x) as [-> ->]; [by left|]. split_and!; [done..|].
  apply IH; [|done]. intros y Hy. apply Hag. by right.
Qed.

(** [F] gives the size of every lump on the free lists. *)
Record fl_ok (m : memory) (ls : list Z) (F : gmap Z Z) : Prop := {
  fo_len : length ls = 82%nat;
  fo_sent : zlookup ls 81 = Some SIZECLASS_SENTINEL;
  fo_lump x s : F !! x = Some s -> good_size s /\ 0 < x /\ x mod 16 = 0 /\ sz m x = s /\
    acc m (x - 4) /\ acc m x /\ acc m (x + 4);
  fo_lists c : 0 <= c < 81 -> exists hd fl, zlookup ls c = Some hd /\ dseg m 0 hd fl 0 /\ NoDup fl /\
    (forall x, x ∈ fl <-> exists s, F !! x = Some s /\ cls s = c) /\
    StronglySorted (fun x y => sz m x <= sz m y) fl }.

(** The words of the links of lumps on [F]. *)
Definition is_link (F : gmap Z Z) (a : Z) : Prop := exists x s, F !! x = Some s /\ (a = x \/ a = x + 4).

Lemma fl_length m ls F c (fl : list Z) : fl_ok m ls F -> NoDup fl ->
  (forall x, x ∈ fl <-> exists s, F !! x = Some s /\ cls s = c) -> (length fl <= size F)%nat.
Proof.
  intros Hok Hnd Hin. rewrite <- (size_list_to_set (C := gset Z) fl) by done.
  rewrite <- size_dom. apply subseteq_size. intros x Hx%elem_of_list_to_set.
  apply Hin in Hx as (s & Hs & _). by apply elem_of_dom_2 in Hs.
Qed.

Lemma walk_list_spec m (F : gmap Z Z) size : (forall x s, F !! x = Some s -> sz m x = s /\ acc m (x - 4) /\ acc m x) ->
  forall l fuel prev p, (length l <= fuel)%nat -> (forall x, x ∈ l -> is_Some (F !! x)) -> dseg m prev p l 0 ->
  exists l1 l2, l = l1 ++ l2 /\ walk_list fuel m size prev p = Ok (lastd prev l1, default 0 (head l2)) /\
    (forall x, x ∈ l1 -> sz m x < size) /\ (forall x, head l2 = Some x -> size <= sz m x).
Proof.
  intros HF. induction l as [|x l IH]; intros fuel prev p Hf Hin.
  - intros Hp. simpl in Hp. subst p. exists [], []. split; [done|]. split; [by destruct fuel|]. set_solver.
  - intros (-> & Hx & Hp & Hd). destruct (Hin x ltac:(set_solver)) as [s Hs].
    destruct (HF _ _ Hs) as (Hsz & A1 & A2).
    assert (Hw : walk_list fuel m size prev x = if sz m x <? size then
      match fuel with O => Err OutOfFuel | S fuel' => n ← NEXT m x; walk_list fuel' m size x n end
      else Ok (prev, x)).
    { destruct fuel; cbn [walk_list]; (destruct (Z.eqb_spec x 0); [done|]); by rewrite SIZE_acc. }
    rewrite Hw. destruct (Z.ltb_spec (sz m x) size).
    + destruct fuel as [|fuel]; [simpl in Hf; lia|]. unfold NEXT. rewrite ld_acc by done. cbn [mbind res_bind].
      destruct (IH fuel x (rd m x)) as (l1 & l2 & -> & E & H1 & H2); [simpl in Hf; lia|set_solver|done|].
      exists (x :: l1), l2. rewrite lastd_cons. split_and!; [done|done|set_solver|done].
    + exists [], (x :: l). split_and!; [done|done|set_solver|]. intros y [= <-]. done.
Qed.

Definition hd0 (l : list Z) : Z := default 0 (head l).

Definition aligned (l : list Z) : Prop := forall x, x ∈ l -> 0 < x /\ x mod 16 = 0.

Lemma lastd_snoc d l (y : Z) : lastd d (l ++ [y]) = y.
Proof. unfold lastd. by rewrite last_snoc. Qed.

Lemma lastd_in (l : list Z) : l <> [] -> lastd 0 l ∈ l.
Proof. intros H. destruct l as [|y l _] using rev_ind; [done|]. rewrite lastd_snoc. set_solver. Qed.

Lemma hd0_in (l : list Z) : l <> [] -> hd0 l ∈ l.
Proof. destruct l; set_solver. Qed.

Lemma dseg_hd0 m prev p l : dseg m prev p l 0 -> p = hd0 l.
Proof. destruct l; [done|]. by intros [-> _]. Qed.

Lemma dseg_set_last m m' l e' : forall prev p e, dseg m prev p l e -> NoDup l -> l <> [] ->
  rd m' (lastd 0 l) = e' -> (forall y, y ∈ l -> y <> lastd 0 l -> rd m' y = rd m y) ->
  (forall y, y ∈ l -> rd m' (y + 4) = rd m (y + 4)) -> dseg m' prev p l e'.
Proof.
  induction l as [|x l IH]; intros prev p e; [done|]. intros (-> & Hx & Hp & Hd) Hnd _ Hlast Hsame Hprev.
  apply NoDup_cons in Hnd as [Hnx Hnd]. simpl. rewrite Hprev by (by left). split_and!; [done..|].
  destruct l as [|y l]; [done|]. assert (Hl : lastd 0 (x :: y :: l) = lastd 0 (y :: l)).
  { rewrite !lastd_cons. done. }
  rewrite Hl in *. pose proof (lastd_in (y :: l) ltac:(done)) as Hin.
  rewrite Hsame; [|by left|by intros E; rewrite <- E in Hin].
  eapply IH; [done..| |]; [intros; apply Hsame; [by right|done]|intros; apply Hprev; by right].
Qed.

Lemma dseg_set_head m m' l prev' prev p e : dseg m prev p l e -> NoDup l ->
  (l <> [] -> rd m' (hd0 l + 4) = prev') -> (forall y, y ∈ l -> rd m' y = rd m y) ->
  (forall y, y ∈ l -> y <> hd0 l -> rd m' (y + 4) = rd m (y + 4)) -> dseg m' prev' p l e.
Proof.
  destruct l as [|x l]; [done|]. intros (-> & Hx & Hp & Hd) [Hnx Hnd]%NoDup_cons Hh Hsame Hprev.
  simpl. unfold hd0 in *. simpl in *. rewrite (Hsame x) by (by left). split_and!; [done|done|auto|].
  assert (Hag : forall y, y ∈ l -> rd m' y = rd m y /\ rd m' (y + 4) = rd m (y + 4)).
  { intros y Hy. split; [apply Hsame; by right|apply Hprev; [by right|by intros ->]]. }
  by apply (dseg_ext m).
Qed.

(** Linking the node [x] between [l1] and [l2], and unlinking it. *)
Definition link_mem (m : memory) (l1 : list Z) (x : Z) (l2 : list Z) : memory :=
  let m := upd (upd m (x + 4) (lastd 0 l1)) x (hd0 l2) in
  let m := if lastd 0 l1 =? 0 then m else upd m (lastd 0 l1) x in
  if hd0 l2 =? 0 then m else upd m (hd0 l2 + 4) x.

Definition unlink_mem (m : memory) (l1 l2 : list Z) : memory :=
  let m := if lastd 0 l1 =? 0 then m else upd m (lastd 0 l1) (hd0 l2) in
  if hd0 l2 =? 0 then m else upd m (hd0 l2 + 4) (lastd 0 l1).

Section Relink.
Context (m : memory) (l1 : list Z) (x : Z) (l2 : list Z).
Hypothesis (Hal : aligned (l1 ++ x :: l2)) (Hnd : NoDup (l1 ++ x :: l2)).

Lemma last_facts : l1 <> [] -> lastd 0 l1 ∈ l1 /\ 0 < lastd 0 l1 /\ lastd 0 l1 mod 16 = 0 /\
  lastd 0 l1 <> x /\ lastd 0 l1 ∉ l2.
Proof.
  intros Hl%lastd_in. pose proof (Hal (lastd 0 l1) ltac:(set_solver)). apply NoDup_app in Hnd as (_ & Hd & _).
  specialize (Hd _ Hl). set_solver.
Qed.

Lemma head_facts : l2 <> [] -> hd0 l2 ∈ l2 /\ 0 < hd0 l2 /\ hd0 l2 mod 16 = 0 /\ hd0 l2 <> x /\ hd0 l2 ∉ l1.
Proof.
  intros Hl%hd0_in. pose proof (Hal (hd0 l2) ltac:(set_solver)).
  apply NoDup_app in Hnd as (_ & Hd & [Hx _]%NoDup_cons). set_solver.
Qed.

Lemma x_facts : 0 < x /\ x mod 16 = 0 /\ x ∉ l1 /\ x ∉ l2.
Proof.
  pose proof (Hal x ltac:(set_solver)). apply NoDup_app in Hnd as (_ & Hd & [Hx _]%NoDup_cons). set_solver.
Qed.

Lemma last_zero : (lastd 0 l1 =? 0) = true <-> l1 = [].
Proof.
  split; [|by intros ->]. intros E%Z.eqb_eq. destruct (decide (l1 = [])) as [|H]; [done|].
  destruct (last_facts H) as (_ & ? & _). lia.
Qed.

Lemma head_zero : (hd0 l2 =? 0) = true <-> l2 = [].
Proof.
  split; [|by intros ->]. intros E%Z.eqb_eq. destruct (decide (l2 = [])) as [|H]; [done|].
  destruct (head_facts H) as (_ & ? & _). lia.
Qed.

(** What a link memory holds: the four words, and everything else unchanged. *)
Lemma link_rd : let m' := link_mem m l1 x l2 in
  rd m' (x + 4) = lastd 0 l1 /\ rd m' x = hd0 l2 /\ (l1 <> [] -> rd m' (lastd 0 l1) = x) /\
  (l2 <> [] -> rd m' (hd0 l2 + 4) = x) /\
  agree (fun a => a <> x /\ a <> x + 4 /\ (l1 = [] \/ a <> lastd 0 l1) /\ (l2 = [] \/ a <> hd0 l2 + 4)) m m'.
Proof.
  intros m'. unfold m', link_mem. pose proof last_facts as HL. pose proof head_facts as HH.
  pose proof x_facts as HX. pose proof last_zero as ZL. pose proof head_zero as ZH.
  destruct (lastd 0 l1 =? 0) eqn:E1, (hd0 l2 =? 0) eqn:E2.
  all: destruct (decide (l1 = [])) as [D1|D1], (decide (l2 = [])) as [D2|D2]; try (exfalso; intuition congruence).
  all: try specialize (HL D1); try specialize (HH D2).
  all: rewrite ?D1, ?D2; split_and!; try done; try (intros _); rewrite ?rd_upd; zcmps; try dmlia.
  all: split; [done|]; intros a (A1 & A2 & A3 & A4); rewrite !rd_upd_ne; try done; naive_solver.
Qed.

Lemma unlink_rd : let m' := unlink_mem m l1 l2 in
  (l1 <> [] -> rd m' (lastd 0 l1) = hd0 l2) /\ (l2 <> [] -> rd m' (hd0 l2 + 4) = lastd 0 l1) /\
  agree (fun a => (l1 = [] \/ a <> lastd 0 l1) /\ (l2 = [] \/ a <> hd0 l2 + 4)) m m'.
Proof.
  intros m'. unfold m', unlink_mem. pose proof last_facts as HL. pose proof head_facts as HH.
  pose proof x_facts as HX. pose proof last_zero as ZL. pose proof head_zero as ZH.
  destruct (lastd 0 l1 =? 0) eqn:E1, (hd0 l2 =? 0) eqn:E2.
  all: destruct (decide (l1 = [])) as [D1|D1], (decide (l2 = [])) as [D2|D2]; try (exfalso; intuition congruence).
  all: try specialize (HL D1); try specialize (HH D2).
  all: rewrite ?D1, ?D2; split_and!; try done; try (intros _); rewrite ?rd_upd; zcmps; try dmlia.
  all: split; [done|]; intros a (A3 & A4); rewrite ?rd_upd_ne; try done; naive_solver.
Qed.

Lemma dseg_link hd : dseg m 0 hd (l1 ++ l2) 0 ->
  dseg (link_mem m l1 x l2) 0 (if decide (l1 = []) then x else hd) (l1 ++ x :: l2) 0.
Proof.
  rewrite !dseg_app. intros (mid & Hd1 & Hd2). pose proof (dseg_hd0 _ _ _ _ Hd2) as Hmid.
  destruct link_rd as (R1 & R2 & R3 & R4 & [_ R5]). pose proof x_facts as (X1 & X2 & X3 & X4).
  pose proof Hnd as (N1 & N2 & [N3 N4]%NoDup_cons)%NoDup_app. exists x. split.
  - destruct (decide (l1 = [])) as [->|Hne]; [done|]. destruct (last_facts Hne) as (L1 & L2 & L3 & L4 & L5).
    eapply dseg_set_last; [exact Hd1|done..|auto| |]; intros y Hy; pose proof (Hal y ltac:(set_solver)) as [Y1 Y2].
    + intros Hyl. apply R5. split_and!; [by intros ->|dmlia|by right|]. destruct (decide (l2 = [])) as [|Hl2]; [by left|].
      destruct (head_facts Hl2) as (? & ? & ? & _). right. dmlia.
    + apply R5. split_and!; [dmlia| |right; dmlia|]; [intros ?; assert (y = x) by lia; by subst|].
      destruct (decide (l2 = [])) as [|Hl2]; [by left|]. destruct (head_facts Hl2) as (? & ? & ? & ? & Hn). right.
      intros ?. assert (y = hd0 l2) by lia. by subst.
  - simpl. split_and!; [done|lia|done|]. rewrite R2, <- Hmid.
    apply (dseg_set_head m _ l2 x (lastd 0 l1)); [by rewrite Hmid in *|done|auto| |]; intros y Hy;
      pose proof (Hal y ltac:(set_solver)) as [Y1 Y2].
    + apply R5. split_and!; [by intros ->|dmlia| |].
      * destruct (decide (l1 = [])) as [|Hl1]; [by left|]. destruct (last_facts Hl1) as (? & _ & _ & _ & ?). right. by intros ->.
      * destruct (decide (l2 = [])) as [|Hl2]; [by left|]. destruct (head_facts Hl2) as (? & ? & ? & _). right. dmlia.
    + intros Hyh. apply R5. split_and!; [dmlia| | |right; lia]; [intros ?; assert (y = x) by lia; by subst|].
      destruct (decide (l1 = [])) as [|Hl1]; [by left|]. destruct (last_facts Hl1) as (? & ? & ? & ? & ?). right. dmlia.
Qed.

Lemma dseg_unlink hd : dseg m 0 hd (l1 ++ x :: l2) 0 ->
  dseg (unlink_mem m l1 l2) 0 (if decide (l1 = []) then hd0 l2 else hd) (l1 ++ l2) 0 /\
  rd m x = hd0 l2 /\ rd m (x + 4) = lastd 0 l1.
Proof.
  rewrite !dseg_app. intros (mid & Hd1 & (-> & Hx0 & Hp & Hd2)). pose proof (dseg_hd0 _ _ _ _ Hd2) as Hmid.
  rewrite Hmid in *. split; [|done].
  destruct unlink_rd as (R3 & R4 & [_ R5]). pose proof x_facts as (X1 & X2 & X3 & X4).
  pose proof Hnd as (N1 & N2 & [N3 N4]%NoDup_cons)%NoDup_app. exists (hd0 l2). split.
  - destruct (decide (l1 = [])) as [->|Hne]; [done|]. destruct (last_facts Hne) as (L1 & L2 & L3 & L4 & L5).
    eapply dseg_set_last; [exact Hd1|done..|auto| |]; intros y Hy; pose proof (Hal y ltac:(set_solver)) as [Y1 Y2].
    + intros Hyl. apply R5. split; [by right|]. destruct (decide (l2 = [])) as [|Hl2]; [by left|].
      destruct (head_facts Hl2) as (? & ? & ? & _). right. dmlia.
    + apply R5. split; [right; dmlia|].
      destruct (decide (l2 = [])) as [|Hl2]; [by left|]. destruct (head_facts Hl2) as (? & ? & ? & ? & Hn). right.
      intros ?. assert (y = hd0 l2) by lia. by subst.
  - apply (dseg_set_head m _ l2 _ x); [done|done|auto| |]; intros y Hy; pose proof (Hal y ltac:(set_solver)) as [Y1 Y2].
    + apply R5. split.
      * destruct (decide (l1 = [])) as [|Hl1]; [by left|]. destruct (last_facts Hl1) as (? & _ & _ & _ & ?). right. by intros ->.
      * destruct (decide (l2 = [])) as [|Hl2]; [by left|]. destruct (head_facts Hl2) as (? & ? & ? & _). right. dmlia.
    + intros Hyh. apply R5. split; [|right; lia].
      destruct (decide (l1 = [])) as [|Hl1]; [by left|]. destruct (last_facts Hl1) as (? & ? & ? & ? & ?). right. dmlia.
Qed.

(** Only link words of the nodes change. *)
Lemma link_agree (P : Z -> Prop) : (forall a y, P a -> y ∈ l1 ++ x :: l2 -> a <> y /\ a <> y + 4) ->
  agree P m (link_mem m l1 x l2).
Proof.
  intros HP. destruct link_rd as (_ & _ & _ & _ & Hag). eapply agree_weaken; [exact Hag|]. intros a Ha. simpl.
  destruct (HP a x Ha) as [? ?]; [set_solver|]. split_and!; [done|done| |].
  - destruct (decide (l1 = [])) as [|Hl%lastd_in]; [by left|right]. apply (HP a _ Ha). set_solver.
  - destruct (decide (l2 = [])) as [|Hl%hd0_in]; [by left|right]. apply (HP a _ Ha). set_solver.
Qed.

Lemma unlink_agree (P : Z -> Prop) : (forall a y, P a -> y ∈ l1 ++ x :: l2 -> a <> y /\ a <> y + 4) ->
  agree P m (unlink_mem m l1 l2).
Proof.
  intros HP. destruct unlink_rd as (_ & _ & Hag). eapply agree_weaken; [exact Hag|]. intros a Ha. simpl. split.
  - destruct (decide (l1 = [])) as [|Hl%lastd_in]; [by left|right]. apply (HP a _ Ha). set_solver.
  - destruct (decide (l2 = [])) as [|Hl%hd0_in]; [by left|right]. apply (HP a _ Ha). set_solver.
Qed.

End Relink.


(** A list of a heap, and the lumps it is made of. *)
Lemma fl_list m ls F c : fl_ok m ls F -> 0 <= c < 81 -> exists hd fl,
  zlookup ls c = Some hd /\ dseg m 0 hd fl 0 /\ NoDup fl /\ aligned fl /\ (length fl <= size F)%nat /\
  (forall x, x ∈ fl <-> exists s, F !! x = Some s /\ cls s = c) /\
  StronglySorted (fun x y => sz m x <= sz m y) fl.
Proof.
  intros Hok Hc. destruct (fo_lists _ _ _ Hok c Hc) as (hd & fl & H1 & H2 & H3 & H4 & H5).
  exists hd, fl. split_and!; try done.
  - intros x Hx. apply H4 in Hx as (s & Hs & _). destruct (fo_lump _ _ _ Hok _ _ Hs) as (_ & ? & ? & _). done.
  - by eapply fl_length.
Qed.

(** Changing only links keeps the free lists if each list is still linked. *)
Lemma fl_ok_relink m m' ls ls' (F F' : gmap Z Z) c : fl_ok m ls F -> length ls' = length ls ->
  (forall x s, F' !! x = Some s -> good_size s /\ 0 < x /\ x mod 16 = 0 /\ sz m x = s /\
    acc m (x - 4) /\ acc m x /\ acc m (x + 4)) ->
  (forall x s, cls s <> c -> F' !! x = Some s <-> F !! x = Some s) ->
  agree (fun a => forall x s, (F' !! x = Some s \/ F !! x = Some s) -> cls s = c -> a <> x /\ a <> x + 4) m m' ->
  (forall c', c' <> c -> zlookup ls' c' = zlookup ls c') -> 0 <= c < 81 ->
  (exists hd fl, zlookup ls' c = Some hd /\ dseg m' 0 hd fl 0 /\ NoDup fl /\
    (forall x, x ∈ fl <-> exists s, F' !! x = Some s /\ cls s = c) /\
    StronglySorted (fun x y => sz m x <= sz m y) fl) ->
  fl_ok m' ls' F'.
Proof.
  intros Hok Hlen HF' Hother Hag Hls Hc Hlist.
  assert (Hal : forall y t, F' !! y = Some t \/ F !! y = Some t -> 0 < y /\ y mod 16 = 0).
  { intros y t [H|H]; [destruct (HF' _ _ H) as (_ & ? & ? & _); done|].
    destruct (fo_lump _ _ _ Hok _ _ H) as (_ & ? & ? & _); done. }
  assert (Hsz : forall x, x mod 16 = 0 -> sz m' x = sz m x).
  { intros x Hx. unfold sz, hdr. destruct Hag as [_ Hag]. rewrite Hag; [done|].
    intros y t Hy _. destruct (Hal y t Hy) as [? ?]. dmlia. }
  split.
  - rewrite Hlen. apply Hok.
  - rewrite Hls by lia. apply Hok.
  - intros x s Hx. destruct (HF' _ _ Hx) as (? & ? & ? & ? & ? & ? & ?). rewrite Hsz by done.
    split_and!; try done; by apply (agree_acc _ _ _ _ Hag).
  - assert (Hsort : forall fl, (forall x, x ∈ fl -> x mod 16 = 0) ->
      StronglySorted (fun x y => sz m x <= sz m y) fl -> StronglySorted (fun x y => sz m' x <= sz m' y) fl).
    { intros fl Hfl. apply StronglySorted_ext. intros a b Ha Hb. rewrite !Hsz by auto. done. }
    intros c' Hc'. destruct (decide (c' = c)) as [->|Hne].
    + destruct Hlist as (hd & fl & H1 & H2 & H3 & H4 & H5). exists hd, fl. split_and!; try done.
      apply Hsort; [|done]. intros x Hx. apply H4 in Hx as (s & Hs & _). by destruct (HF' _ _ Hs) as (_ & _ & ? & _).
    + destruct (fl_list _ _ _ c' Hok Hc') as (hd & fl & H1 & H2 & H3 & H4 & H5 & H6 & H7). exists hd, fl.
      rewrite Hls by done. split_and!; try done; [| |apply Hsort; [|done]; intros x Hx; by apply H4].
      * eapply dseg_ext; [|done]. intros y Hy. destruct (H4 y Hy) as [? ?]. apply H6 in Hy as (t & Ht & Hct).
        destruct Hag as [_ Hag]. split; apply Hag; intros z u Hz Hu; destruct (Hal z u Hz) as [? ?];
          (split; [intros E|intros E]); try (exfalso; dmlia).
        all: assert (y = z) as -> by lia; destruct Hz as [Hz|Hz]; [apply Hother in Ht; [congruence|congruence]|congruence].
      * intros x. rewrite H6. split; intros (s & Hs & Hcs); exists s; split; try done; apply Hother; congruence.
Qed.

Section FreeListOps.
Context (fuel : nat) (m : memory) (ls : list Z) (F : gmap Z Z).
Hypothesis (Hok : fl_ok m ls F) (Hfuel : (size F <= fuel)%nat).

Lemma walk_of l size hd : dseg m 0 hd l 0 -> (forall x, x ∈ l -> is_Some (F !! x)) -> (length l <= fuel)%nat ->
  exists l1 l2, l = l1 ++ l2 /\ walk_list fuel m size 0 hd = Ok (lastd 0 l1, hd0 l2) /\
    (forall x, x ∈ l1 -> sz m x < size) /\ (forall x, head l2 = Some x -> size <= sz m x).
Proof.
  intros Hd Hin Hf. eapply walk_list_spec; [|done|done|done].
  intros x s Hx. destruct (fo_lump _ _ _ Hok _ _ Hx) as (_ & _ & _ & ? & ? & ? & ?). done.
Qed.

Lemma class_index s : good_size s -> 0 <= cls s < 81.
Proof. intros [_ H]%size_class_ok. lia. Qed.

Lemma assert_class_ok s : good_size s -> assert_class s (cls s) = Ok tt.
Proof. intros [E _]%size_class_ok. unfold assert_class. rewrite E. cbn. by rewrite Z.eqb_refl. Qed.

Lemma fl_acc x s : F !! x = Some s -> acc m x /\ acc m (x + 4).
Proof. intros Hx. by destruct (fo_lump _ _ _ Hok _ _ Hx) as (_ & _ & _ & _ & _ & ? & ?). Qed.

(** The head of the list of class [c] after a change at its front. *)
Definition relist (c : Z) (l1 : list Z) (v : Z) : list Z := if decide (l1 = []) then <[Z.to_nat c := v]> ls else ls.

Lemma relist_lookup c l1 v hd c' : 0 <= c < 81 -> zlookup ls c = Some hd ->
  zlookup (relist c l1 v) c' = if c =? c' then Some (if decide (l1 = []) then v else hd) else zlookup ls c'.
Proof.
  intros Hc Hhd. unfold relist. destruct (decide (l1 = [])).
  - apply zlookup_zstore, zstore_is_Some. rewrite (fo_len _ _ _ Hok). lia.
  - destruct (Z.eqb_spec c c') as [<-|]; done.
Qed.

Lemma set_list_ok c v : 0 <= c < 81 -> set_list ls c v = Ok (<[Z.to_nat c := v]> ls).
Proof. intros Hc. unfold set_list. rewrite zstore_is_Some by (rewrite (fo_len _ _ _ Hok); lia). done. Qed.

Lemma insert_runs x s l1 l2 hd : good_size s -> sz m x = s -> acc m (x - 4) -> acc m x -> acc m (x + 4) ->
  aligned (l1 ++ x :: l2) -> NoDup (l1 ++ x :: l2) -> zlookup ls (cls s) = Some hd ->
  walk_list fuel m s 0 hd = Ok (lastd 0 l1, hd0 l2) -> (forall y, y ∈ l1 ++ l2 -> is_Some (F !! y)) ->
  insert_sized fuel m ls x s = Ok (link_mem m l1 x l2, relist (cls s) l1 x).
Proof.
  intros Hs Hsz A1 A2 A3 Hal Hnd Hhd Hw HF. pose proof (class_index s Hs) as Hc.
  assert (Hacc : forall y, y ∈ l1 ++ l2 -> acc m y /\ acc m (y + 4)).
  { intros y [t Ht]%HF. by eapply fl_acc. }
  unfold insert_sized. destruct (size_class_ok s Hs) as [-> Hb]. cbn [mbind res_bind]. unfold insert_freelump.
  rewrite SIZE_acc by done. cbn [mbind res_bind]. unfold massert, assert_or.
  change SIZE_CLASSES with 81. change (2 * MEMALIGN) with 16.
  destruct (Z.ltb_spec (cls s) 81); [|lia]. rewrite Hsz. pose proof Hs as [_ Hm]. rewrite Hm. cbn [mbind res_bind Z.eqb].
  rewrite assert_class_ok by done. cbn [mbind res_bind]. unfold list_at. rewrite Hhd. cbn [of_option mbind res_bind].
  rewrite Hw. cbn [mbind res_bind]. unfold set_PREV, set_NEXT. rewrite st_acc by done. cbn [mbind res_bind].
  rewrite st_acc by done. cbn [mbind res_bind]. unfold link_mem, relist.
  pose proof (last_zero l1 x l2 Hal Hnd) as ZL.
  assert (Hhead : forall m', ranges m' = ranges m ->
    (if negb (hd0 l2 =? 0) then st m' (hd0 l2 + 4) x else Ok m') = Ok (if hd0 l2 =? 0 then m' else upd m' (hd0 l2 + 4) x)).
  { intros m' Hr. destruct (hd0 l2 =? 0) eqn:Eh; [done|]. cbn [negb]. apply st_acc. unfold acc. rewrite Hr.
    apply (Hacc (hd0 l2)), elem_of_app. right. apply hd0_in. intros ->. done. }
  destruct (decide (l1 = [])) as [Hl1|Hl1].
  - rewrite (proj2 ZL Hl1), set_list_ok by done. cbn [mbind res_bind]. by rewrite Hhead.
  - destruct (lastd 0 l1 =? 0) eqn:El; [by destruct Hl1; apply ZL|].
    rewrite st_acc by (apply (Hacc (lastd 0 l1)), elem_of_app; left; by apply lastd_in).
    cbn [mbind res_bind]. by rewrite Hhead.
Qed.

Lemma insert_spec x s : F !! x = None -> good_size s -> 0 < x -> x mod 16 = 0 -> sz m x = s ->
  acc m (x - 4) -> acc m x -> acc m (x + 4) ->
  exists m' ls', insert_sized fuel m ls x s = Ok (m', ls') /\
    agree (fun a => ~ is_link (<[x := s]> F) a) m m' /\ fl_ok m' ls' (<[x := s]> F).
Proof.
  intros Hx Hs Hx0 Hxa Hsz A1 A2 A3. pose proof (class_index s Hs) as Hc.
  destruct (fl_list _ _ _ (cls s) Hok Hc) as (hd & fl & Hhd & Hd & Hnd & Hal & Hlen & Hin & Hsort).
  assert (HF : forall y, y ∈ fl -> is_Some (F !! y)) by (intros y (t & Ht & _)%Hin; by exists t).
  destruct (walk_of fl s hd) as (l1 & l2 & -> & Hw & Hlt & Hge); [done|done|lia|].
  assert (Hxn : x ∉ l1 ++ l2) by (intros [t Ht]%HF; congruence).
  assert (Hal' : aligned (l1 ++ x :: l2)).
  { intros y Hy. destruct (decide (y = x)) as [->|]; [done|]. apply Hal. set_solver. }
  assert (Hnd' : NoDup (l1 ++ x :: l2)).
  { apply NoDup_app in Hnd as (? & ? & ?). apply NoDup_app. split_and!; [done| |apply NoDup_cons]; set_solver. }
  assert (Hmem : forall y, y ∈ l1 ++ x :: l2 <-> exists t, <[x := s]> F !! y = Some t /\ cls t = cls s).
  { intros y. destruct (decide (y = x)) as [->|Hne].
    - rewrite lookup_insert_eq. split; [eauto|set_solver].
    - rewrite lookup_insert_ne by done. rewrite <- Hin. set_solver. }
  exists (link_mem m l1 x l2), (relist (cls s) l1 x). split; [by eapply insert_runs|split].
  - apply link_agree; [done|done|]. intros a y Ha (t & Ht & _)%Hmem. split; intros ->; apply Ha; exists y, t; auto.
  - apply (fl_ok_relink m _ ls _ F _ (cls s)); try done.
    + unfold relist. destruct (decide (l1 = [])); [by rewrite length_insert|done].
    + intros y t. destruct (decide (y = x)) as [->|Hne].
      * rewrite lookup_insert_eq. intros [= <-]. done.
      * rewrite lookup_insert_ne by done. apply Hok.
    + intros y t Ht. destruct (decide (y = x)) as [->|Hne]; [|by rewrite lookup_insert_ne].
      rewrite lookup_insert_eq, Hx. split; [intros [= <-]; done|done].
    + apply link_agree; [done|done|]. intros a y Ha (t & Ht & Hct)%Hmem. apply (Ha y t); auto.
    + intros c' Hc'. erewrite relist_lookup by done. by destruct (Z.eqb_spec (cls s) c').
    + exists (if decide (l1 = []) then x else hd), (l1 ++ x :: l2). erewrite relist_lookup by done. rewrite Z.eqb_refl.
      split_and!; [done|by apply dseg_link|done|exact Hmem|].
      apply StronglySorted_app_iff in Hsort as (S1 & S2 & S3). apply StronglySorted_app_iff. split_and!; [done| |].
      * constructor; [done|]. apply Forall_forall. intros y Hy. rewrite Hsz. destruct l2 as [|h l2]; [set_solver|].
        specialize (Hge h eq_refl). apply StronglySorted_inv in S2 as [_ S2]. rewrite Forall_forall in S2.
        apply elem_of_cons in Hy as [->|Hy]; [done|]. specialize (S2 y Hy). lia.
      * intros a b Ha [->|Hb]%elem_of_cons; [rewrite Hsz; specialize (Hlt a Ha); lia|auto].
Qed.

Lemma remove_spec x s : F !! x = Some s ->
  exists m' ls', remove_sized m ls x = Ok (m', ls') /\
    agree (fun a => ~ is_link F a) m m' /\ fl_ok m' ls' (delete x F).
Proof.
  intros Hx. destruct (fo_lump _ _ _ Hok _ _ Hx) as (Hs & Hx0 & Hxa & Hsz & A1 & A2 & A3).
  pose proof (class_index s Hs) as Hc.
  destruct (fl_list _ _ _ (cls s) Hok Hc) as (hd & fl & Hhd & Hd & Hnd & Hal & Hlen & Hin & Hsort).
  assert (x ∈ fl) as (l1 & l2 & ->)%list_elem_of_split by (apply Hin; eauto).
  assert (Hacc : forall y, y ∈ l1 ++ x :: l2 -> acc m y /\ acc m (y + 4)).
  { intros y (t & Ht & _)%Hin. by eapply fl_acc. }
  pose proof (x_facts l1 x l2 Hal Hnd) as (_ & _ & X1 & X2).
  destruct (dseg_unlink m l1 x l2 Hal Hnd hd Hd) as (Hd' & Hnx & Hpx).
  assert (Hmem : forall y, y ∈ l1 ++ l2 <-> exists t, delete x F !! y = Some t /\ cls t = cls s).
  { intros y. destruct (decide (y = x)) as [->|Hne].
    - rewrite lookup_delete_eq. split; [set_solver|intros (? & ? & _); done].
    - rewrite lookup_delete_ne by done. rewrite <- Hin. set_solver. }
  exists (unlink_mem m l1 l2), (relist (cls s) l1 (hd0 l2)). split; [|split].
  - unfold remove_sized. rewrite SIZE_acc, Hsz by done. cbn [mbind res_bind].
    destruct (size_class_ok s Hs) as [-> Hb]. cbn [mbind res_bind]. unfold remove_freelump.
    unfold massert, assert_or. change SIZE_CLASSES with 81. change (2 * MEMALIGN) with 16.
    destruct (Z.ltb_spec (cls s) 81); [|lia]. cbn [mbind res_bind]. rewrite SIZE_acc, Hsz by done. cbn [mbind res_bind].
    pose proof Hs as [_ Hm]. rewrite Hm. cbn [mbind res_bind Z.eqb]. rewrite assert_class_ok by done. cbn [mbind res_bind].
    unfold PREV, NEXT, set_NEXT, set_PREV. rewrite !ld_acc by done. cbn [mbind res_bind]. rewrite Hnx, Hpx.
    unfold unlink_mem, relist. pose proof (last_zero l1 x l2 Hal Hnd) as ZL. pose proof (head_zero l1 x l2 Hal Hnd) as ZH.
    assert (Hhead : forall m', ranges m' = ranges m -> rd m' x = hd0 l2 -> rd m' (x + 4) = lastd 0 l1 ->
      (next ← ld m' x; if negb (next =? 0) then prev ← ld m' (x + 4); st m' (next + 4) prev else Ok m') =
      Ok (if hd0 l2 =? 0 then m' else upd m' (hd0 l2 + 4) (lastd 0 l1))).
    { intros m' Hr R1 R2. unfold acc in *. rewrite !ld_acc by (unfold acc; by rewrite Hr). rewrite R1, R2.
      cbn [mbind res_bind]. destruct (hd0 l2 =? 0) eqn:Eh; [done|]. cbn [negb]. apply st_acc. unfold acc. rewrite Hr.
      apply (Hacc (hd0 l2)), elem_of_app. right. right. apply hd0_in. intros ->. done. }
    destruct (decide (l1 = [])) as [Hl1|Hl1].
    + rewrite (proj2 ZL Hl1), set_list_ok by done. cbn [mbind res_bind].
      specialize (Hhead m eq_refl Hnx Hpx). unfold mbind in Hhead |- *. cbn in Hhead |- *.
      rewrite !ld_acc in * by done. cbn in *. rewrite Hnx in *. rewrite Hhead. done.
    + destruct (lastd 0 l1 =? 0) eqn:El; [by destruct Hl1; apply ZL|].
      pose proof (last_facts l1 x l2 Hal Hnd Hl1) as (L1 & L2 & L3 & L4 & L5).
      rewrite st_acc by (apply (Hacc (lastd 0 l1)), elem_of_app; by left). cbn [mbind res_bind].
      specialize (Hhead (upd m (lastd 0 l1) (hd0 l2)) eq_refl).
      rewrite !rd_upd_ne in Hhead by (done || dmlia). specialize (Hhead Hnx Hpx).
      rewrite !ld_acc in Hhead |- * by done. cbn [mbind res_bind] in Hhead |- *. rewrite Hhead. done.
  - eapply unlink_agree; [done|done|]. intros a y Ha (t & Ht & _)%Hin. split; intros ->; apply Ha; exists y, t; auto.
  - apply (fl_ok_relink m _ ls _ F _ (cls s)); try done.
    + unfold relist. destruct (decide (l1 = [])); [by rewrite length_insert|done].
    + intros y t [_ Hy]%lookup_delete_Some. by apply Hok.
    + intros y t Ht. destruct (decide (y = x)) as [->|Hne]; [|by rewrite lookup_delete_ne].
      rewrite lookup_delete_eq, Hx. split; [done|intros [= <-]; done].
    + eapply unlink_agree; [done|done|]. intros a y Ha (t & Ht & Hct)%Hin. apply (Ha y t); auto.
    + intros c' Hc'. erewrite relist_lookup by done. by destruct (Z.eqb_spec (cls s) c').
    + exists (if decide (l1 = []) then hd0 l2 else hd), (l1 ++ l2). erewrite relist_lookup by done. rewrite Z.eqb_refl.
      split_and!; [done|done| |exact Hmem|].
      * apply NoDup_app in Hnd as (? & ? & [? ?]%NoDup_cons). apply NoDup_app. set_solver.
      * apply StronglySorted_app_iff in Hsort as (S1 & [S2 _]%StronglySorted_inv & S3). apply StronglySorted_app_iff.
        split_and!; [done|done|]. intros a b Ha Hb. apply S3; [done|by right].
Qed.

Lemma next_class_spec n : forall c fuel', 0 <= c -> c + Z.of_nat n = 81 -> (n <= fuel')%nat ->
  exists c' hd, next_class fuel' ls c = Ok c' /\ c <= c' <= 81 /\ zlookup ls c' = Some hd /\ hd <> 0 /\
    forall d, c <= d < c' -> zlookup ls d = Some 0.
Proof.
  induction n as [|n IH]; intros c fuel' Hc Hn Hf.
  - assert (c = 81) as -> by lia. exists 81, SIZECLASS_SENTINEL. pose proof (fo_sent _ _ _ Hok) as Hs.
    split_and!; try lia; try done. destruct fuel'; cbn [next_class]; unfold list_at; by rewrite Hs.
  - destruct (fl_list _ _ _ c Hok ltac:(lia)) as (hd & fl & Hhd & _). destruct fuel' as [|fuel']; [lia|].
    cbn [next_class]. unfold list_at. rewrite Hhd. cbn [of_option mbind res_bind].
    destruct (Z.eqb_spec hd 0) as [->|Hne]; [|exists c, hd; split_and!; try lia; done].
    destruct (IH (c + 1) fuel') as (c' & hd' & -> & Hr & Hl & Hz & Hb); [lia..|].
    exists c', hd'. split_and!; try lia; try done. intros d Hd.
    destruct (Z.eq_dec d c) as [->|]; [done|apply Hb; lia].
Qed.

(** An empty list belongs to a class no free lump is of; the head of a list is
    the smallest lump of its class. *)
Lemma class_empty c x s : 0 <= c < 81 -> zlookup ls c = Some 0 -> F !! x = Some s -> cls s <> c.
Proof.
  intros Hc Hz Hx <-. destruct (fl_list _ _ _ (cls s) Hok Hc) as (hd & fl & Hhd & Hd & _ & _ & _ & Hin & _).
  assert (hd = 0) as -> by congruence. destruct fl as [|y fl]; [|by destruct Hd as (<- & ? & _)].
  assert (x ∈ ([] : list Z)) by (apply Hin; eauto). set_solver.
Qed.

Lemma class_head c hd : 0 <= c < 81 -> zlookup ls c = Some hd -> hd <> 0 -> exists s, F !! hd = Some s /\ cls s = c /\
  forall x s', F !! x = Some s' -> cls s' = c -> s <= s'.
Proof.
  intros Hc Hz Hne. destruct (fl_list _ _ _ c Hok Hc) as (hd' & fl & Hhd & Hd & _ & _ & _ & Hin & Hsort).
  assert (hd' = hd) as -> by congruence. destruct fl as [|y fl]; [done|]. destruct Hd as (<- & _).
  assert (hd ∈ hd :: fl) as (s & Hs & Hcs)%Hin by set_solver. exists s. split_and!; [done|done|].
  intros x s' Hx Hcx. assert (x ∈ hd :: fl) as Hxin by (apply Hin; eauto).
  destruct (fo_lump _ _ _ Hok _ _ Hs) as (_ & _ & _ & <- & _), (fo_lump _ _ _ Hok _ _ Hx) as (_ & _ & _ & <- & _).
  apply StronglySorted_inv in Hsort as [_ Hsort]. rewrite Forall_forall in Hsort.
  apply elem_of_cons in Hxin as [->|Hxin]; [done|by apply Hsort].
Qed.

(** A smallest sufficient lump, or none is sufficient. *)
Definition best_fit (size r : Z) : Prop :=
  r = 0 /\ (forall x s, F !! x = Some s -> s < size) \/
  r <> 0 /\ exists s, F !! r = Some s /\ size <= s /\ forall x s', F !! x = Some s' -> size <= s' -> s <= s'.

Lemma cls_lt s s' : good_size s -> good_size s' -> cls s < cls s' -> s < s'.
Proof. intros H1 H2 Hlt. destruct (Z.lt_ge_cases s s'); [done|]. pose proof (cls_mono s' s H2 H1). lia. Qed.

Lemma find_spec size : good_size size -> exists r, find_freelump fuel m ls size (cls size) = Ok r /\ best_fit size r.
Proof.
  intros Hs. pose proof (class_index size Hs) as Hc. unfold find_freelump, massert, assert_or.
  change SIZE_CLASSES with 81. change (2 * MEMALIGN) with 16. destruct (Z.ltb_spec (cls size) 81); [|lia].
  cbn [mbind res_bind]. pose proof Hs as [_ Hm]. rewrite Hm. cbn [mbind res_bind Z.eqb].
  rewrite assert_class_ok by done. cbn [mbind res_bind].
  destruct (fl_list _ _ _ (cls size) Hok Hc) as (hd & fl & Hhd & Hd & _ & Hal & Hlen & Hin & Hsort).
  assert (list_at ls (cls size) = Ok hd) as -> by (unfold list_at; by rewrite Hhd). cbn [mbind res_bind].
  destruct (walk_of fl size hd) as (l1 & l2 & -> & -> & Hlt & Hge); [done| |lia|].
  { intros y (t & Ht & _)%Hin. by exists t. }
  cbn [mbind res_bind]. assert (Hgood : forall x s, F !! x = Some s -> good_size s /\ sz m x = s).
  { intros x s Hx. by destruct (fo_lump _ _ _ Hok _ _ Hx) as (? & _ & _ & ? & _). }
  assert (Hsmall : forall x s, F !! x = Some s -> cls s = cls size -> size <= s -> x ∈ l2).
  { intros x s Hx Hcx Hle. assert (x ∈ l1 ++ l2) as [H1|H2]%elem_of_app by (apply Hin; eauto); [|done].
    apply Hlt in H1. destruct (Hgood _ _ Hx) as [_ <-]. lia. }
  destruct l2 as [|h l2].
  - change (hd0 []) with 0. cbn [Z.eqb negb]. change (Z.to_nat 81) with 81%nat.
    destruct (next_class_spec (Z.to_nat (80 - cls size)) (cls size + 1) 81%nat) as (c & hd' & E & Hr & Hl & Hne & Hb);
      [lia..|]. rewrite E. cbn [mbind res_bind].
    assert (Hno : forall x s, F !! x = Some s -> size <= s -> c <= cls s).
    { intros x s Hx Hle. destruct (Hgood _ _ Hx) as [Hg _]. pose proof (cls_mono _ _ Hs Hg Hle).
      destruct (Z.le_gt_cases c (cls s)) as [|Hgt]; [done|]. exfalso.
      destruct (Z.eq_dec (cls s) (cls size)) as [Hcs|Hcs]; [by apply Hsmall in Hx; [apply not_elem_of_nil in Hx|..]|].
      apply (class_empty (cls s) x s); [by apply class_index|apply Hb; lia|done|done]. }
    destruct (Z.ltb_spec c 81).
    + unfold list_at. rewrite Hl. exists hd'. split; [done|right]. split; [done|].
      destruct (class_head c hd' ltac:(lia) Hl Hne) as (s & Hs' & Hcs & Hmin). exists s. split; [done|].
      destruct (Hgood _ _ Hs') as [Hg _]. split; [apply Z.lt_le_incl, cls_lt; [done|done|lia]|].
      intros x s' Hx Hle. specialize (Hno _ _ Hx Hle). destruct (Hgood _ _ Hx) as [Hg' _].
      destruct (Z.eq_dec (cls s') c) as [|Hcn]; [by eapply Hmin|]. apply Z.lt_le_incl, cls_lt; [done|done|lia].
    + exists 0. split; [done|left]. split; [done|]. intros x s Hx. destruct (Z.lt_ge_cases s size); [done|].
      destruct (Hgood _ _ Hx) as [Hg _]. pose proof (class_index s Hg). specialize (Hno _ _ Hx ltac:(lia)). lia.
  - change (hd0 (h :: l2)) with h. assert (h ∈ l1 ++ h :: l2) as Hh by set_solver.
    destruct (Hal h Hh) as [Hh0 _]. destruct (Z.eqb_spec h 0); [lia|]. exists h. split; [done|right]. split; [lia|].
    apply Hin in Hh as (s & Hs' & Hcs). destruct (Hgood _ _ Hs') as [Hg Hsz]. exists s. split; [done|].
    split; [rewrite <- Hsz; by apply Hge|]. intros x s' Hx Hle. destruct (Hgood _ _ Hx) as [Hg' Hsz'].
    pose proof (cls_mono _ _ Hs Hg' Hle). destruct (Z.eq_dec (cls s') (cls size)) as [Hcx|].
    + specialize (Hsmall _ _ Hx Hcx Hle). apply StronglySorted_app_iff in Hsort as (_ & [_ S2]%StronglySorted_inv & _).
      rewrite Forall_forall in S2. rewrite <- Hsz, <- Hsz'. apply elem_of_cons in Hsmall as [->|Hx2]; [done|by apply S2].
    + apply Z.lt_le_incl, cls_lt; [done|done|lia].
Qed.

End FreeListOps.

Lemma fl_ok_ext m m' ls F : fl_ok m ls F -> ranges m' = ranges m ->
  (forall x s, F !! x = Some s -> rd m' x = rd m x /\ rd m' (x + 4) = rd m (x + 4) /\ sz m' x = sz m x) ->
  fl_ok m' ls F.
Proof.
  intros Hok Hr Hx. split; [apply Hok|apply Hok| |].
  - intros x s Hs. destruct (fo_lump _ _ _ Hok _ _ Hs) as (? & ? & ? & ? & ? & ? & ?).
    destruct (Hx _ _ Hs) as (_ & _ & ->). unfold acc in *. by rewrite Hr.
  - intros c Hc. destruct (fo_lists _ _ _ Hok c Hc) as (hd & fl & H1 & H2 & H3 & H4 & H5).
    exists hd, fl. split_and!; try done.
    + eapply dseg_ext; [|done]. intros y (s & Hs & _)%H4. by destruct (Hx _ _ Hs) as (? & ? & _).
    + eapply StronglySorted_ext; [|done]. intros a b (s & Hs & _)%H4 (t & Ht & _)%H4.
      destruct (Hx _ _ Hs) as (_ & _ & ->), (Hx _ _ Ht) as (_ & _ & ->). done.
Qed.

(** ** Tilings *)

(** The lumps of a heap: address, size, and whether it is free. *)
Abbreviation lumps := (gmap Z (Z * bool)).

Definition free_of (L : lumps) : gmap Z Z := omap (fun '(s, f) => if f : bool then Some s else None) L.

Lemma free_of_lookup L x s : free_of L !! x = Some s <-> L !! x = Some (s, true).
Proof.
  unfold free_of. rewrite lookup_omap. destruct (L !! x) as [[t f]|]; [destruct f|]; simpl; split; congruence.
Qed.

(** [E] holds the addresses after the last lump of each region of [R], where a
    dummy object stands. *)
Record tiling (m : memory) (L : lumps) (E : gset Z) (R : list (Z * Z)) : Prop := {
  ti_R lo hi : (lo, hi) ∈ R -> (lo, hi) ∈ ranges m /\ hi - lo <= max_lump;
  ti_Rdisj r r' : r ∈ R -> r' ∈ R -> r = r' \/ snd r <= fst r' \/ snd r' <= fst r;
  ti_lump p s f : L !! p = Some (s, f) -> good_size s /\ 0 < p /\ p mod 16 = 0 /\ sz m p = s /\
    exists lo hi, (lo, hi) ∈ R /\ lo + 16 <= p /\ p + s + 16 <= hi;
  ti_foot p s : L !! p = Some (s, true) -> rd m (p + s - 8) = s;
  ti_next p s f : L !! p = Some (s, f) -> is_Some (L !! (p + s)) \/ p + s ∈ E;
  ti_bit p s f : L !! p = Some (s, f) -> pbit (hdr m (p + s)) = negb f;
  ti_first p s f : L !! p = Some (s, f) -> pbit (hdr m p) = true \/ exists q sq, L !! q = Some (sq, true) /\ q + sq = p;
  ti_disj p s f q t g : L !! p = Some (s, f) -> L !! q = Some (t, g) -> p < q -> p + s <= q;
  ti_end e : e ∈ E -> e mod 16 = 0 /\ sz m e = 8 /\ pbit (rd m (e + 4)) = true /\
    exists lo hi, (lo, hi) ∈ R /\ lo + 16 <= e /\ e + 16 <= hi;
  ti_enddisj e p s f : e ∈ E -> L !! p = Some (s, f) -> p + s <= e \/ e + 16 <= p }.

(** Adjacent free lumps have been merged. *)
Definition coalesced (L : lumps) : Prop :=
  forall p s t, L !! p = Some (s, true) -> L !! (p + s) = Some (t, true) -> False.

(** The invariant of a heap. *)
Record heap_ok (h : heap) (L : lumps) (E : gset Z) (R : list (Z * Z)) : Prop := {
  ho_tiling : tiling (hmem h) L E R;
  ho_lists : fl_ok (hmem h) (lists h) (free_of L);
  ho_coalesced : coalesced L }.

Lemma mapped_in rs lo hi a : (lo, hi) ∈ rs -> lo <= a -> a + 4 <= hi -> a mod 4 = 0 -> mapped rs a = true.
Proof.
  intros Hin H1 H2 H3. unfold mapped. rewrite H3. simpl. apply existsb_exists. exists (lo, hi).
  split; [by apply list_elem_of_In|]. apply andb_true_iff. split; apply Z.leb_le; lia.
Qed.

Section Tiling.
Context (m : memory) (L : lumps) (E : gset Z) (R : list (Z * Z)).
Hypothesis (Ht : tiling m L E R).

Lemma lump_acc p s f a : L !! p = Some (s, f) -> p - 16 <= a -> a < p + s + 8 -> a mod 4 = 0 -> acc m a.
Proof.
  intros Hp H1 H2 H3. destruct (ti_lump _ _ _ _ Ht _ _ _ Hp) as (_ & _ & Hm & _ & lo & hi & Hin & Hlo & Hhi).
  apply (ti_R _ _ _ _ Ht) in Hin as [Hin _]. apply (mapped_in _ lo hi); [done|lia| |done].
  destruct (ti_lump _ _ _ _ Ht _ _ _ Hp) as ([_ Hs] & _). clear -H2 H3 Hhi Hm Hs. dmlia.
Qed.

Lemma end_acc e a : e ∈ E -> e - 16 <= a -> a + 4 <= e + 16 -> a mod 4 = 0 -> acc m a.
Proof.
  intros He H1 H2 H3. destruct (ti_end _ _ _ _ Ht _ He) as (_ & _ & _ & lo & hi & Hin & Hlo & Hhi).
  apply (ti_R _ _ _ _ Ht) in Hin as [Hin _]. apply (mapped_in _ lo hi); [done|lia|lia|done].
Qed.

Lemma lumps_apart p s f q t g : L !! p = Some (s, f) -> L !! q = Some (t, g) -> p <> q -> p + s <= q \/ q + t <= p.
Proof.
  intros Hp Hq Hne. destruct (Z.lt_total p q) as [H|[H|H]]; [left|done|right].
  - by eapply (ti_disj _ _ _ _ Ht).
  - by eapply (ti_disj _ _ _ _ Ht).
Qed.

(** Adjacent lumps lie in one region, so they can be merged. *)
Lemma adjacent_good p s f t g : L !! p = Some (s, f) -> L !! (p + s) = Some (t, g) ->
  good_size (s + t) /\ exists lo hi, (lo, hi) ∈ R /\ lo + 16 <= p /\ p + (s + t) + 16 <= hi.
Proof.
  intros Hp Hq. destruct (ti_lump _ _ _ _ Ht _ _ _ Hp) as ([[Hs _] Hms] & _ & _ & _ & lo & hi & Hin & Hlo & Hhi).
  destruct (ti_lump _ _ _ _ Ht _ _ _ Hq) as ([[Hs' _] Hms'] & _ & _ & _ & lo' & hi' & Hin' & Hlo' & Hhi').
  destruct (ti_Rdisj _ _ _ _ Ht _ _ Hin Hin') as [[= <- <-]|[H|H]]; simpl in *; [|lia|lia].
  apply (ti_R _ _ _ _ Ht) in Hin as Hm. destruct Hm as [_ Hm]. split; [split; [lia|]|exists lo, hi; split_and!; [done|lia|lia]].
  clear -Hms Hms'. dmlia.
Qed.

Lemma next_hdr_acc p s f : L !! p = Some (s, f) -> acc m (p + s - 4).
Proof.
  intros Hp. destruct (ti_lump _ _ _ _ Ht _ _ _ Hp) as ([? ?] & ? & ? & _).
  eapply lump_acc; [exact Hp|lia|lia|]. clear Hp. dmlia.
Qed.

(** The header of the next lump or of the dummy. *)
Lemma next_sz p s f : L !! p = Some (s, f) -> sz m (p + s) = 8 \/ exists t g, L !! (p + s) = Some (t, g) /\ sz m (p + s) = t.
Proof.
  intros Hp. destruct (ti_next _ _ _ _ Ht _ _ _ Hp) as [[[t g] Hq]|He].
  - right. exists t, g. split; [done|]. by destruct (ti_lump _ _ _ _ Ht _ _ _ Hq) as (_ & _ & _ & ? & _).
  - left. by destruct (ti_end _ _ _ _ Ht _ He) as (_ & ? & _).
Qed.

End Tiling.

(** [m'] has the tags of [m] for the lumps [L], but perhaps the previous bit of
    the header at [x]. *)
Record same_tags (L : lumps) (E : gset Z) (x : Z) (m m' : memory) : Prop := {
  sg_ranges : ranges m' = ranges m;
  sg_lump q s f : L !! q = Some (s, f) -> sz m' q = sz m q /\ (q <> x -> pbit (hdr m' q) = pbit (hdr m q));
  sg_end e : e ∈ E -> sz m' e = sz m e /\ (e <> x -> pbit (hdr m' e) = pbit (hdr m e)) /\ rd m' (e + 4) = rd m (e + 4);
  sg_foot q s : L !! q = Some (s, true) -> rd m' (q + s - 8) = rd m (q + s - 8) }.

Lemma tiling_ext m m' L E R : tiling m L E R -> same_tags L E 0 m m' -> tiling m' L E R.
Proof.
  intros Ht [Hr Hl He Hf].
  assert (Hh : forall q s f, L !! q = Some (s, f) -> pbit (hdr m' q) = pbit (hdr m q)).
  { intros q s f Hq. destruct (ti_lump _ _ _ _ Ht _ _ _ Hq) as (_ & ? & _). apply (Hl _ _ _ Hq). lia. }
  split; try apply Ht.
  - rewrite Hr. apply Ht.
  - intros p s f Hp. destruct (Hl _ _ _ Hp) as [-> _]. by apply Ht in Hp.
  - intros p s Hp. rewrite (Hf _ _ Hp). by apply Ht.
  - intros p s f Hp. rewrite <- (ti_bit _ _ _ _ Ht _ _ _ Hp). destruct (ti_lump _ _ _ _ Ht _ _ _ Hp) as ([? _] & ? & _).
    destruct (ti_next _ _ _ _ Ht _ _ _ Hp) as [[[t g] Hq]|Hq]; [by eapply Hh|apply He; [done|lia]].
  - intros p s f Hp. rewrite (Hh _ _ _ Hp). by eapply (ti_first _ _ _ _ Ht).
  - intros e Hin. destruct (He e Hin) as (-> & _ & ->). by apply Ht.
Qed.

(** The next header of a lump whose tags are kept. *)
Lemma next_pbit m m' L L' E R x q s f : tiling m L E R -> same_tags L' E x m m' -> L !! q = Some (s, f) -> q + s <> x ->
  (forall v, L !! (q + s) = Some v -> L' !! (q + s) = Some v) -> pbit (hdr m' (q + s)) = negb f.
Proof.
  intros Ht Hs Hq Hne Hsub. rewrite <- (ti_bit _ _ _ _ Ht _ _ _ Hq).
  destruct (ti_next _ _ _ _ Ht _ _ _ Hq) as [[[t g] Hn]|Hn].
  - apply (sg_lump _ _ _ _ _ Hs _ _ _ (Hsub _ Hn)). done.
  - apply (sg_end _ _ _ _ _ Hs _ Hn). done.
Qed.

Lemma tiling_end_ext m m' L L' E R x e : tiling m L E R -> same_tags L' E x m m' -> e ∈ E ->
  e mod 16 = 0 /\ sz m' e = 8 /\ pbit (rd m' (e + 4)) = true /\
  exists lo hi, (lo, hi) ∈ R /\ lo + 16 <= e /\ e + 16 <= hi.
Proof. intros Ht Hs He. destruct (sg_end _ _ _ _ _ Hs e He) as (-> & _ & ->). by apply Ht. Qed.

(** A lump changes hands. *)
Lemma tiling_flip m m' L E R p s f f' : tiling m L E R -> L !! p = Some (s, f) ->
  same_tags (delete p L) E (p + s) m m' -> sz m' p = s -> pbit (hdr m' p) = pbit (hdr m p) ->
  pbit (hdr m' (p + s)) = negb f' -> (f' = true -> rd m' (p + s - 8) = s) ->
  tiling m' (<[p := (s, f')]> L) E R.
Proof.
  intros Ht Hp Hs Hsz Hpb Hnb Hft.
  destruct (ti_lump _ _ _ _ Ht _ _ _ Hp) as (Hg & Hp0 & Hpm & _ & Hreg). pose proof Hg as [Hr _].
  assert (Hap : forall q t g, q <> p -> L !! q = Some (t, g) -> p + s <= q \/ q + t <= p).
  { intros q t g Hne Hq. by eapply lumps_apart. }
  assert (Hold : forall q t g, <[p := (s, f')]> L !! q = Some (t, g) ->
    q = p /\ t = s /\ g = f' \/ q <> p /\ L !! q = Some (t, g)).
  { intros q t g [[-> [= <- <-]]|[Hne Hq]]%lookup_insert_Some; [by left|right]. done. }
  split.
  - rewrite (sg_ranges _ _ _ _ _ Hs). apply Ht.
  - apply Ht.
  - intros q t g [(-> & -> & ->)|[Hne Hq]]%Hold; [done|].
    destruct (sg_lump _ _ _ _ _ Hs q t g) as [-> _]; [by rewrite lookup_delete_ne|]. by eapply (ti_lump _ _ _ _ Ht).
  - intros q t [(-> & -> & <-)|[Hne Hq]]%Hold; [by apply Hft|].
    rewrite (sg_foot _ _ _ _ _ Hs q t); [by apply Ht|by rewrite lookup_delete_ne].
  - intros q t g H. assert (exists g', L !! q = Some (t, g')) as [g' Hq].
    { destruct (Hold _ _ _ H) as [(-> & -> & _)|[_ ?]]; eauto. }
    destruct (ti_next _ _ _ _ Ht _ _ _ Hq) as [Hn|Hn]; [left|by right].
    destruct (decide (q + t = p)) as [->|]; [by rewrite lookup_insert_eq|by rewrite lookup_insert_ne].
  - intros q t g [(-> & -> & ->)|[Hne Hq]]%Hold; [done|]. destruct (Hap _ _ _ Hne Hq) as [H|H].
    + destruct (ti_lump _ _ _ _ Ht _ _ _ Hq) as ([? _] & _).
      apply (next_pbit _ _ _ _ _ _ _ _ _ _ Ht Hs Hq); [lia|]. intros v Hv. by rewrite lookup_delete_ne by lia.
    + destruct (decide (q + t = p)) as [Hqp|Hnq].
      * rewrite Hqp, Hpb, <- Hqp. by apply (ti_bit _ _ _ _ Ht).
      * apply (next_pbit _ _ _ _ _ _ _ _ _ _ Ht Hs Hq); [lia|]. intros v Hv. by rewrite lookup_delete_ne by lia.
  - intros q t g [(-> & -> & ->)|[Hne Hq]]%Hold.
    + rewrite Hpb. destruct (ti_first _ _ _ _ Ht _ _ _ Hp) as [|(r & u & Hru & Hrp)]; [by left|right].
      destruct (ti_lump _ _ _ _ Ht _ _ _ Hru) as ([? _] & _). exists r, u. rewrite lookup_insert_ne by lia. done.
    + destruct (decide (q = p + s)) as [->|Hn].
      * rewrite Hnb. destruct f'; [right; exists p, s; by rewrite lookup_insert_eq|by left].
      * destruct (sg_lump _ _ _ _ _ Hs q t g) as [_ ->]; [by rewrite lookup_delete_ne| |done].
        destruct (ti_first _ _ _ _ Ht _ _ _ Hq) as [|(r & u & Hru & Hrp)]; [by left|right].
        exists r, u. rewrite lookup_insert_ne; [done|]. intros <-. rewrite Hp in Hru. congruence.
  - intros q t g q' t' g' H1 H2 Hlt. assert (exists g1, L !! q = Some (t, g1)) as [g1 Hq1].
    { destruct (Hold _ _ _ H1) as [(-> & -> & _)|[_ ?]]; eauto. }
    assert (exists g2, L !! q' = Some (t', g2)) as [g2 Hq2].
    { destruct (Hold _ _ _ H2) as [(-> & -> & _)|[_ ?]]; eauto. }
    by eapply (ti_disj _ _ _ _ Ht).
  - intros e He. by eapply tiling_end_ext.
  - intros e q t g He H. assert (exists g', L !! q = Some (t, g')) as [g' Hq].
    { destruct (Hold _ _ _ H) as [(-> & -> & _)|[_ ?]]; eauto. }
    by eapply (ti_enddisj _ _ _ _ Ht).
Qed.

(** Two adjacent lumps become one; the result is free exactly if the second was. *)
Lemma tiling_merge m m' L E R p s f t g : tiling m L E R -> L !! p = Some (s, f) -> L !! (p + s) = Some (t, g) ->
  same_tags (delete p (delete (p + s) L)) E 0 m m' -> sz m' p = s + t -> pbit (hdr m' p) = pbit (hdr m p) ->
  (g = true -> rd m' (p + (s + t) - 8) = s + t) ->
  tiling m' (<[p := (s + t, g)]> (delete (p + s) L)) E R.
Proof.
  intros Ht Hp Hp2 Hs Hsz Hpb Hft. destruct (adjacent_good _ _ _ _ Ht _ _ _ _ _ Hp Hp2) as [Hg Hreg].
  destruct (ti_lump _ _ _ _ Ht _ _ _ Hp) as ([Hr _] & Hp0 & Hpm & _).
  destruct (ti_lump _ _ _ _ Ht _ _ _ Hp2) as ([Hr2 _] & _).
  assert (Hold : forall q u b, <[p := (s + t, g)]> (delete (p + s) L) !! q = Some (u, b) ->
    q = p /\ u = s + t /\ b = g \/ q <> p /\ q <> p + s /\ L !! q = Some (u, b) /\
      delete p (delete (p + s) L) !! q = Some (u, b) /\ (p + (s + t) <= q \/ q + u <= p) /\ 0 < q /\ 16 <= u).
  { intros q u b [[-> [= <- <-]]|[Hne [Hne2 Hq]%lookup_delete_Some]]%lookup_insert_Some; [by left|right].
    destruct (ti_lump _ _ _ _ Ht _ _ _ Hq) as ([? _] & ? & _).
    assert (q <> p) by congruence. assert (q <> p + s) by congruence.
    pose proof (lumps_apart _ _ _ _ Ht _ _ _ _ _ _ Hp Hq). pose proof (lumps_apart _ _ _ _ Ht _ _ _ _ _ _ Hp2 Hq).
    split_and!; [done|done|done| |lia|lia|lia]. by rewrite !lookup_delete_ne. }
  assert (Hstay : forall q v, L !! q = Some v -> q <> p + s -> is_Some (<[p := (s + t, g)]> (delete (p + s) L) !! q)).
  { intros q v Hq Hne. destruct (decide (q = p)) as [->|]; [by rewrite lookup_insert_eq|].
    by rewrite lookup_insert_ne, lookup_delete_ne, Hq. }
  split.
  - rewrite (sg_ranges _ _ _ _ _ Hs). apply Ht.
  - apply Ht.
  - intros q u b [(-> & -> & ->)|(Hne & Hne2 & Hq & Hd & _)]%Hold; [done|].
    destruct (sg_lump _ _ _ _ _ Hs _ _ _ Hd) as [-> _]. by eapply (ti_lump _ _ _ _ Ht).
  - intros q u [(-> & -> & <-)|(Hne & Hne2 & Hq & Hd & _)]%Hold; [by apply Hft|].
    rewrite (sg_foot _ _ _ _ _ Hs _ _ Hd). by apply Ht.
  - intros q u b [(-> & -> & ->)|(Hne & Hne2 & Hq & Hd & Hap & Hq0 & Hu)]%Hold.
    + destruct (ti_next _ _ _ _ Ht _ _ _ Hp2) as [[v Hn]|Hn]; [left|right; by rewrite Z.add_assoc].
      rewrite Z.add_assoc. eapply Hstay; [exact Hn|lia].
    + destruct (ti_next _ _ _ _ Ht _ _ _ Hq) as [[v Hn]|Hn]; [left|by right]. eapply Hstay; [exact Hn|lia].
  - intros q u b [(-> & -> & ->)|(Hne & Hne2 & Hq & Hd & Hap & Hq0 & Hu)]%Hold.
    + rewrite Z.add_assoc. apply (next_pbit _ _ _ _ _ _ _ _ _ _ Ht Hs Hp2); [lia|].
      intros v Hv. by rewrite !lookup_delete_ne by lia.
    + destruct (decide (q + u = p)) as [Hqp|Hnq].
      * rewrite Hqp, Hpb, <- Hqp. by apply (ti_bit _ _ _ _ Ht).
      * apply (next_pbit _ _ _ _ _ _ _ _ _ _ Ht Hs Hq); [lia|]. intros v Hv. by rewrite !lookup_delete_ne by lia.
  - intros q u b [(-> & -> & ->)|(Hne & Hne2 & Hq & Hd & Hap & Hq0 & Hu)]%Hold.
    + rewrite Hpb. destruct (ti_first _ _ _ _ Ht _ _ _ Hp) as [|(r & v & Hru & Hrp)]; [by left|right].
      destruct (ti_lump _ _ _ _ Ht _ _ _ Hru) as ([? _] & _). exists r, v.
      rewrite lookup_insert_ne, lookup_delete_ne by lia. done.
    + destruct (sg_lump _ _ _ _ _ Hs _ _ _ Hd) as [_ ->]; [|lia].
      destruct (ti_first _ _ _ _ Ht _ _ _ Hq) as [|(r & v & Hru & Hrp)]; [by left|right].
      destruct (decide (r = p + s)) as [->|Hr1].
      * exists p, (s + t). rewrite lookup_insert_eq. assert (v = t /\ g = true) as [-> ->] by naive_solver. split; [done|lia].
      * exists r, v. rewrite lookup_insert_ne, lookup_delete_ne; [done|done|]. intros <-.
        assert (v = s) by congruence. lia.
  - intros q u b q' u' b' [(-> & -> & ->)|(Hne & Hne2 & Hq & Hd & Hap & Hq0 & Hu)]%Hold
      [(-> & -> & ->)|(Hne' & Hne2' & Hq' & Hd' & Hap' & Hq0' & Hu')]%Hold; try lia.
    intros Hlt. by eapply (ti_disj _ _ _ _ Ht).
  - intros e He. by eapply tiling_end_ext.
  - intros e q u b He [(-> & -> & ->)|(Hne & Hne2 & Hq & _)]%Hold; [|by eapply (ti_enddisj _ _ _ _ Ht)].
    pose proof (ti_enddisj _ _ _ _ Ht _ _ _ _ He Hp). pose proof (ti_enddisj _ _ _ _ Ht _ _ _ _ He Hp2). lia.
Qed.

(** A free lump is cut in two: the front is used, the rest is free. *)
Lemma tiling_carve m m' L E R p s a : tiling m L E R -> L !! p = Some (s, true) -> good_size a -> good_size (s - a) ->
  same_tags (delete p L) E 0 m m' -> sz m' p = a -> pbit (hdr m' p) = pbit (hdr m p) ->
  sz m' (p + a) = s - a -> pbit (hdr m' (p + a)) = true -> rd m' (p + s - 8) = s - a ->
  tiling m' (<[p + a := (s - a, true)]> (<[p := (a, false)]> L)) E R.
Proof.
  intros Ht Hp Ha Hb Hs Hsz Hpb Hsz2 Hpb2 Hft.
  destruct (ti_lump _ _ _ _ Ht _ _ _ Hp) as ([Hr _] & Hp0 & Hpm & _ & lo & hi & Hin & Hlo & Hhi).
  pose proof Ha as [Ha1 Ha2]. pose proof Hb as [Hb1 _].
  assert (Hold : forall q u b, <[p + a := (s - a, true)]> (<[p := (a, false)]> L) !! q = Some (u, b) ->
    q = p /\ u = a /\ b = false \/ q = p + a /\ u = s - a /\ b = true \/
    q <> p /\ L !! q = Some (u, b) /\ delete p L !! q = Some (u, b) /\ (p + s <= q \/ q + u <= p) /\ 0 < q /\ 16 <= u).
  { intros q u b [[<- [= <- <-]]|[_ [[<- [= <- <-]]|[Hne Hq]]%lookup_insert_Some]]%lookup_insert_Some; [tauto|tauto|].
    right. right. destruct (ti_lump _ _ _ _ Ht _ _ _ Hq) as ([? _] & ? & _).
    pose proof (lumps_apart _ _ _ _ Ht _ _ _ _ _ _ Hp Hq). split_and!; try lia; [done|by rewrite lookup_delete_ne]. }
  assert (Hstay : forall q v, L !! q = Some v -> is_Some (<[p + a := (s - a, true)]> (<[p := (a, false)]> L) !! q)).
  { intros q v Hq. destruct (decide (q = p + a)) as [->|]; [by rewrite lookup_insert_eq|].
    rewrite lookup_insert_ne by done. destruct (decide (q = p)) as [->|]; [by rewrite lookup_insert_eq|].
    by rewrite lookup_insert_ne, Hq. }
  split.
  - rewrite (sg_ranges _ _ _ _ _ Hs). apply Ht.
  - apply Ht.
  - intros q u b [(-> & -> & ->)|[(-> & -> & ->)|(Hne & Hq & Hd & _)]]%Hold.
    + split_and!; try done. exists lo, hi. split_and!; [done|lia|lia].
    + split_and!; try done; [lia|clear -Hpm Ha2; dmlia|]. exists lo, hi. split_and!; [done|lia|lia].
    + destruct (sg_lump _ _ _ _ _ Hs _ _ _ Hd) as [-> _]. by eapply (ti_lump _ _ _ _ Ht).
  - intros q u [(-> & -> & ?)|[(-> & -> & _)|(Hne & Hq & Hd & _)]]%Hold; [done|by rewrite <- Hft; f_equal; lia|].
    rewrite (sg_foot _ _ _ _ _ Hs _ _ Hd). by apply Ht.
  - intros q u b [(-> & -> & ->)|[(-> & -> & ->)|(Hne & Hq & Hd & Hap & _)]]%Hold.
    + left. by rewrite lookup_insert_eq.
    + replace (p + a + (s - a)) with (p + s) by lia.
      destruct (ti_next _ _ _ _ Ht _ _ _ Hp) as [[v Hn]|Hn]; [left|by right]. by eapply Hstay.
    + destruct (ti_next _ _ _ _ Ht _ _ _ Hq) as [[v Hn]|Hn]; [left|by right]. by eapply Hstay.
  - intros q u b [(-> & -> & ->)|[(-> & -> & ->)|(Hne & Hq & Hd & Hap & Hq0 & Hu)]]%Hold.
    + done.
    + replace (p + a + (s - a)) with (p + s) by lia. apply (next_pbit _ _ _ _ _ _ _ _ _ _ Ht Hs Hp); [lia|].
      intros v Hv. by rewrite lookup_delete_ne by lia.
    + destruct (decide (q + u = p)) as [Hqp|Hnq].
      * rewrite Hqp, Hpb, <- Hqp. by apply (ti_bit _ _ _ _ Ht).
      * apply (next_pbit _ _ _ _ _ _ _ _ _ _ Ht Hs Hq); [lia|]. intros v Hv. by rewrite lookup_delete_ne by lia.
  - intros q u b [(-> & -> & ->)|[(-> & -> & ->)|(Hne & Hq & Hd & Hap & Hq0 & Hu)]]%Hold.
    + rewrite Hpb. destruct (ti_first _ _ _ _ Ht _ _ _ Hp) as [|(r & v & Hru & Hrp)]; [by left|right].
      destruct (ti_lump _ _ _ _ Ht _ _ _ Hru) as ([? _] & _). exists r, v.
      rewrite !lookup_insert_ne by lia. done.
    + by left.
    + destruct (sg_lump _ _ _ _ _ Hs _ _ _ Hd) as [_ ->]; [|lia].
      destruct (ti_first _ _ _ _ Ht _ _ _ Hq) as [|(r & v & Hru & Hrp)]; [by left|right].
      destruct (decide (r = p)) as [->|Hr1].
      * exists (p + a), (s - a). rewrite lookup_insert_eq. assert (v = s) as -> by congruence. split; [done|lia].
      * destruct (ti_lump _ _ _ _ Ht _ _ _ Hru) as ([? _] & _).
        pose proof (lumps_apart _ _ _ _ Ht _ _ _ _ _ _ Hp Hru).
        exists r, v. rewrite !lookup_insert_ne by lia. done.
  - intros q u b q' u' b' [(-> & -> & ->)|[(-> & -> & ->)|(Hne & Hq & Hd & Hap & Hq0 & Hu)]]%Hold
      [(-> & -> & ->)|[(-> & -> & ->)|(Hne' & Hq' & Hd' & Hap' & Hq0' & Hu')]]%Hold; try lia.
    intros Hlt. by eapply (ti_disj _ _ _ _ Ht).
  - intros e He. by eapply tiling_end_ext.
  - intros e q u b He [(-> & -> & ->)|[(-> & -> & ->)|(Hne & Hq & _)]]%Hold; [| |by eapply (ti_enddisj _ _ _ _ Ht)];
      pose proof (ti_enddisj _ _ _ _ Ht _ _ _ _ He Hp); pose proof (ti_end _ _ _ _ Ht _ He) as (He' & _); clear -H Ha1 Hb1 Ha2 Hpm He'; lia.
Qed.
