(* ===== verification/GcAlloc.v ===== *)
(** * Allocation, release and expansion of a manually managed heap

    The operations of [GcHeap] take a heap that satisfies the invariant of
    [GcTiling] to one that does, never fail an assertion on the way, and do to
    the lumps what an allocator promises. *)

From S2P Require Import Prelude GcHeap GcTiling.

(** ** The map of free lumps *)

Lemma free_of_used (L : lumps) p s : free_of (<[p := (s, false)]> L) = delete p (free_of L).
Proof. unfold free_of. by rewrite omap_insert_None. Qed.

Lemma free_of_free (L : lumps) p s : free_of (<[p := (s, true)]> L) = <[p := s]> (free_of L).
Proof. unfold free_of. by rewrite (omap_insert_Some _ _ _ _ s). Qed.

Lemma free_of_delete (L : lumps) p : free_of (delete p L) = delete p (free_of L).
Proof. unfold free_of. by rewrite omap_delete. Qed.

(** ** Writes that keep the tags *)

Section Frames.
Context (m : memory) (L : lumps) (E : gset Z) (R : list (Z * Z)).
Hypothesis (Ht : tiling m L E R).

(** Links are at other remainders than headers and footers. *)
Lemma links_off_tags (F : gmap Z Z) a : (forall x s, F !! x = Some s -> x mod 16 = 0) ->
  a mod 16 = 8 \/ a mod 16 = 12 -> ~ is_link F a.
Proof. intros HF Ha (x & s & Hx%HF & [->| ->]); destruct Ha; dmlia. Qed.

Lemma links_off_end (F : gmap Z Z) e : (forall x s, F !! x = Some s -> x mod 16 = 0 /\ x <> e) ->
  e mod 16 = 0 -> ~ is_link F (e + 4).
Proof. intros HF Ha (x & s & [Hx ?]%HF & [Hxe|?]); [dmlia|lia]. Qed.

(** The words outside the lumps of [L'] and their headers. *)
Definition tag_word (L' : lumps) (a : Z) : Prop :=
  (exists q s f, L' !! q = Some (s, f) /\ a = q - 4) \/ (exists e, e ∈ E /\ (a = e - 4 \/ a = e + 4)) \/
  (exists q s, L' !! q = Some (s, true) /\ a = q + s - 8).

Lemma same_tags_agree L' m' : agree (tag_word L') m m' -> same_tags L' E 0 m m'.
Proof.
  intros [Hr Hag]. split; [done| | |].
  - intros q s f Hq. unfold sz, hdr. rewrite Hag; [done|]. left. eauto.
  - intros e He. unfold sz, hdr. rewrite !Hag; [done|right; left; eauto..].
  - intros q s Hq. apply Hag. right. right. eauto.
Qed.

(** The tags of the other lumps are outside a lump. *)
Lemma tag_outside p s f L' a : L !! p = Some (s, f) -> (forall q v, L' !! q = Some v -> L !! q = Some v /\ q <> p) ->
  tag_word L' a -> (a < p - 4 \/ p + s - 4 <= a) /\ a mod 4 = 0.
Proof.
  intros Hp Hsub [(q & t & g & Hq & ->)|[(e & He & Ha)|(q & t & Hq & ->)]].
  - apply Hsub in Hq as [Hq Hne]. destruct (ti_lump _ _ _ _ Ht _ _ _ Hq) as ([? _] & _ & Hm & _).
    pose proof (lumps_apart _ _ _ _ Ht _ _ _ _ _ _ Hp Hq). split; [lia|]. clear -Hm. dmlia.
  - pose proof (ti_enddisj _ _ _ _ Ht _ _ _ _ He Hp). destruct (ti_end _ _ _ _ Ht _ He) as (Hm & _).
    split; [lia|]. clear -Hm Ha. dmlia.
  - apply Hsub in Hq as [Hq Hne]. destruct (ti_lump _ _ _ _ Ht _ _ _ Hq) as ([? Hs] & _ & Hm & _).
    pose proof (lumps_apart _ _ _ _ Ht _ _ _ _ _ _ Hp Hq). split; [lia|]. clear -Hm Hs. dmlia.
Qed.

Lemma tag_not_link (F : gmap Z Z) L' a : (forall q v, L' !! q = Some v -> L !! q = Some v) ->
  (forall x s, F !! x = Some s -> x mod 16 = 0 /\ x ∉ E) -> tag_word L' a -> ~ is_link F a.
Proof.
  intros Hsub HF [(q & t & g & Hq%Hsub & ->)|[(e & He & Ha)|(q & t & Hq%Hsub & ->)]].
  - destruct (ti_lump _ _ _ _ Ht _ _ _ Hq) as (_ & _ & Hm & _). apply links_off_tags; [by intros x s []%HF|].
    right. clear -Hm. dmlia.
  - destruct (ti_end _ _ _ _ Ht _ He) as (Hm & _). destruct Ha as [->| ->].
    + apply links_off_tags; [by intros x s []%HF|]. right. clear -Hm. dmlia.
    + apply links_off_end; [|done]. intros x s [Hx Hn]%HF. split; [done|]. by intros ->.
  - destruct (ti_lump _ _ _ _ Ht _ _ _ Hq) as ([_ Hs] & _ & Hm & _). apply links_off_tags; [by intros x s []%HF|].
    left. clear -Hm Hs. dmlia.
Qed.

Lemma lump_not_end p s f : L !! p = Some (s, f) -> p ∉ E.
Proof.
  intros Hp He. pose proof (ti_enddisj _ _ _ _ Ht _ _ _ _ He Hp).
  destruct (ti_lump _ _ _ _ Ht _ _ _ Hp) as ([? _] & _). lia.
Qed.

Lemma free_links x s : free_of L !! x = Some s -> x mod 16 = 0 /\ x ∉ E.
Proof.
  intros Hx%free_of_lookup. split; [by destruct (ti_lump _ _ _ _ Ht _ _ _ Hx) as (_ & _ & ? & _)|by eapply lump_not_end].
Qed.

End Frames.

(** The end of [mem_allocate]: the next lump is told, and the memory cleared. *)
Lemma clear_spec m p a : good_size a -> p mod 16 = 0 ->
  (forall b, p - 4 <= b < p + a -> b mod 4 = 0 -> acc m b) -> sz m p = a ->
  exists m', (s ← SIZE m p; _ ← massert (a =? s); n ← NEXT_LUMP m p; w ← HEADER m n;
              m ← set_HEADER m n (Z.lor w PREV_BIT); memset0 m p (a - GC_HEAD)) = Ok m' /\
    agree (fun b => b < p \/ p + a <= b) m m' /\ rd m' (p + a - 4) = Z.lor (hdr m (p + a)) PREV_BIT /\
    forall b, p <= b < p + a - 4 -> b mod 4 = 0 -> rd m' b = 0.
Proof.
  intros [Ha Hm] Hp Hacc Hsz. rewrite SIZE_acc, Hsz by (apply Hacc; [lia|dmlia]). cbn [mbind res_bind].
  unfold massert. rewrite Z.eqb_refl. cbn [assert_or mbind res_bind].
  rewrite NEXT_LUMP_acc, Hsz by (apply Hacc; [lia|dmlia]). cbn [mbind res_bind].
  assert (Hn : acc m (p + a - 4)) by (apply Hacc; [lia|dmlia]).
  rewrite HEADER_acc by done. cbn [mbind res_bind]. unfold set_HEADER, GC_HEAD. rewrite st_acc by done.
  cbn [mbind res_bind]. unfold memset0.
  destruct (zero_words_spec (Z.to_nat ((a - 4) / 4)) (upd m (p + a - 4) (Z.lor (hdr m (p + a)) PREV_BIT)) p)
    as (m' & -> & Hag & Hz).
  { intros i Hi. apply Hacc; dmlia. }
  assert (Hlen : 4 * Z.of_nat (Z.to_nat ((a - 4) / 4)) = a - 4) by dmlia. rewrite Hlen in Hag.
  exists m'. split; [done|]. split; [|split].
  - eapply agree_trans; [apply agree_upd|eapply agree_weaken; [exact Hag|]]; cbn; lia.
  - destruct Hag as [_ Hag]. rewrite Hag by lia. apply rd_upd_eq.
  - intros b Hb Hb4. replace b with (p + 4 * ((b - p) / 4)) by (clear -Hb4 Hp; dmlia). apply Hz. clear -Hb Hm Hlen Hp Hb4. dmlia.
Qed.

(** The lumps after [a] bytes of the free lump [p] have been taken. *)
Definition carve (L : lumps) (p s a : Z) : lumps :=
  if a <? s then <[p + a := (s - a, true)]> (<[p := (a, false)]> L) else <[p := (s, false)]> L.

Section Allocate.
Context (fuel : nat) (m : memory) (L : lumps) (E : gset Z) (R : list (Z * Z)).
Hypothesis (Ht : tiling m L E R) (Hfuel : (size (free_of L) <= fuel)%nat).

Lemma free_carve p s a : L !! p = Some (s, true) -> 16 <= a <= s ->
  free_of (carve L p s a) = if a <? s then <[p + a := s - a]> (delete p (free_of L)) else delete p (free_of L).
Proof.
  intros Hp Ha. unfold carve. destruct (a <? s); [|apply free_of_used]. by rewrite free_of_free, free_of_used.
Qed.

(** The free lumps other than [p] are apart from it. *)
Lemma other_free p s x t : L !! p = Some (s, true) -> delete p (free_of L) !! x = Some t ->
  L !! x = Some (t, true) /\ x <> p /\ 0 < x /\ x mod 16 = 0 /\ good_size t /\ (p + s <= x \/ x + t <= p).
Proof.
  intros Hp [Hne Hx%free_of_lookup]%lookup_delete_Some.
  destruct (ti_lump _ _ _ _ Ht _ _ _ Hx) as (? & ? & ? & _).
  split_and!; try done. eapply lumps_apart; [done..|congruence].
Qed.

Lemma split_spec m1 l1 p s a : L !! p = Some (s, true) -> good_size a -> a <= s ->
  agree (fun b => ~ is_link (free_of L) b) m m1 -> fl_ok m1 l1 (delete p (free_of L)) ->
  exists m5 l5, split_lump fuel m1 l1 p a = Ok (m5, l5) /\ fl_ok m5 l5 (free_of (carve L p s a)) /\
    sz m5 p = a /\ pbit (hdr m5 p) = pbit (hdr m p) /\
    agree (fun b => ~ is_link (free_of L) b /\ (b < p - 4 \/ p + s - 4 <= b)) m m5 /\
    (a < s -> sz m5 (p + a) = s - a /\ rd m5 (p + s - 8) = s - a).
Proof.
  intros Hp Ha Has Hag Hfl. destruct (ti_lump _ _ _ _ Ht _ _ _ Hp) as (Hs & Hp0 & Hpm & Hsz & _).
  pose proof Ha as [Ha1 Ha2]. pose proof Hs as [Hs1 Hs2].
  assert (Hnl : forall b, b mod 16 = 8 \/ b mod 16 = 12 -> rd m1 b = rd m b).
  { intros b Hb. apply Hag. eapply links_off_tags; [|done]. intros x t Hx. by eapply free_links. }
  assert (Hh : hdr m1 p = hdr m p) by (apply Hnl; right; clear -Hpm; dmlia).
  assert (Hsz1 : sz m1 p = s) by (unfold sz; by rewrite Hh).
  assert (Hacc : forall b, p - 16 <= b -> b < p + s + 8 -> b mod 4 = 0 -> acc m1 b).
  { intros b H1 H2 H3. apply (agree_acc _ _ _ _ Hag). by eapply lump_acc. }
  unfold split_lump. rewrite SIZE_acc, Hsz1 by (apply Hacc; [lia|lia|clear -Hpm; dmlia]). cbn [mbind res_bind].
  rewrite free_carve by (done || lia). destruct (Z.ltb_spec a s) as [Hlt|Hge].
  2:{ assert (a = s) as -> by lia. exists m1, l1. rewrite Hh. split_and!; try done; [|lia].
      eapply agree_weaken; [exact Hag|tauto]. }
  assert (Hsa : (s - a) mod 16 = 0) by (clear -Ha2 Hs2; dmlia).
  assert (Hgood : good_size (s - a)) by (split; [clear -Hs1 Ha1 Hlt Hsa; dmlia|done]).
  unfold set_FOOTER, set_HEADER, GC_HEAD. replace (p + a + (s - a) - 2 * 4) with (p + s - 8) by lia.
  rewrite st_acc by (apply Hacc; [lia|lia|clear -Hpm Hs2; dmlia]). cbn [mbind res_bind].
  rewrite st_acc by (apply Hacc; [lia|lia|clear -Hpm Ha2; dmlia]). cbn [mbind res_bind].
  set (m3 := upd (upd m1 (p + s - 8) (s - a)) (p + a - 4) (s - a)).
  assert (Hfl3 : fl_ok m3 l1 (delete p (free_of L))).
  { eapply fl_ok_ext; [exact Hfl|done|]. intros x t Hx.
    destruct (other_free _ _ _ _ Hp Hx) as (_ & Hne & Hx0 & Hxm & [Ht1 _] & Hap).
    unfold m3, sz, hdr. rewrite !rd_upd_ne by (clear -Hpm Hs2 Ha2 Hxm Hap Ha1 Hlt Hs1 Ht1; dmlia). done. }
  assert (Hsz3 : sz m3 (p + a) = s - a).
  { unfold m3, sz, hdr. rewrite rd_upd_eq. apply mask_size_id. clear -Hsa. dmlia. }
  destruct (insert_spec fuel m3 l1 (delete p (free_of L)) Hfl3) with (x := p + a) (s := s - a)
    as (m4 & l4 & -> & Hag4 & Hfl4).
  { etransitivity; [|exact Hfuel]. apply subseteq_size || (rewrite <- !size_dom; apply subseteq_size; set_solver). }
  { destruct (delete p (free_of L) !! (p + a)) as [t|] eqn:Hx; [|done].
    destruct (other_free _ _ _ _ Hp Hx) as (_ & _ & _ & _ & [? _] & Hap). lia. }
  { done. } { lia. } { clear -Hpm Ha2. dmlia. } { done. }
  { apply Hacc; [lia|lia|clear -Hpm Ha2; dmlia]. } { apply Hacc; [lia|lia|clear -Hpm Ha2; dmlia]. }
  { apply Hacc; [lia|lia|clear -Hpm Ha2; dmlia]. }
  cbn [mbind res_bind]. assert (Hacc4 : forall b, p - 16 <= b -> b < p + s + 8 -> b mod 4 = 0 -> acc m4 b).
  { intros b H1 H2 H3. apply (agree_acc _ _ _ _ Hag4). by apply Hacc. }
  assert (Hlk : forall x t, <[p + a := s - a]> (delete p (free_of L)) !! x = Some t ->
    x = p + a /\ t = s - a \/ delete p (free_of L) !! x = Some t).
  { intros x t [[<- [= <-]]|[_ Hx]]%lookup_insert_Some; auto. }
  assert (Hnl4 : forall b, b mod 16 = 8 \/ b mod 16 = 12 -> rd m4 b = rd m3 b).
  { intros b Hb. apply Hag4. eapply links_off_tags; [|done]. intros x t [[-> _]|Hx]%Hlk; [clear -Hpm Ha2; dmlia|].
    by destruct (other_free _ _ _ _ Hp Hx) as (_ & _ & _ & ? & _). }
  assert (Hh4 : hdr m4 p = hdr m p).
  { unfold hdr. rewrite Hnl4 by (right; clear -Hpm; dmlia). unfold m3.
    rewrite !rd_upd_ne by (clear -Ha1 Hs1; lia). apply Hh. }
  rewrite HEADER_acc, Hh4 by (apply Hacc4; [lia|lia|clear -Hpm; dmlia]). cbn [mbind res_bind].
  rewrite st_acc by (apply Hacc4; [lia|lia|clear -Hpm; dmlia]). cbn [mbind res_bind].
  eexists _, l4. split; [done|].
  assert (H8 : a mod 8 = 0) by (clear -Ha2; dmlia).
  split_and!.
  - eapply fl_ok_ext; [exact Hfl4|done|]. intros x t Hx. unfold sz, hdr.
    assert (x mod 16 = 0 /\ x <> p) as [Hxm Hxp].
    { destruct (Hlk _ _ Hx) as [[-> _]|Hx2]; [split; [clear -Hpm Ha2; dmlia|lia]|].
      by destruct (other_free _ _ _ _ Hp Hx2) as (_ & ? & _ & ? & _). }
    rewrite !rd_upd_ne by (clear -Hpm Hxm Hxp; dmlia). done.
  - unfold sz, hdr. rewrite rd_upd_eq. by apply header_size.
  - unfold hdr at 1. rewrite rd_upd_eq. by apply header_pbit.
  - split; [exact (eq_trans (proj1 Hag4) (proj1 Hag))|]. intros b [Hb1 Hb2]. rewrite rd_upd_ne by lia.
    destruct Hag4 as [_ Hag4]. rewrite Hag4; [unfold m3; rewrite !rd_upd_ne by lia; by apply Hag|].
    intros (x & t & Hx & Hbx). destruct (Hlk _ _ Hx) as [[-> _]|Hx2]; [destruct Hgood as [[? _] _]; lia|].
    apply Hb1. exists x, t. by apply lookup_delete_Some in Hx2 as [_ ?].
  - intros _. split.
    + unfold sz, hdr. rewrite rd_upd_ne by lia. rewrite Hnl4 by (right; clear -Hpm Ha2; dmlia). exact Hsz3.
    + rewrite rd_upd_ne by lia. rewrite Hnl4 by (left; clear -Hpm Hs2; dmlia). unfold m3.
      rewrite rd_upd_ne by (clear -Hpm Ha2 Hs2; dmlia). apply rd_upd_eq.
Qed.

(** What the memory holds after the rest of the allocation. *)
Lemma carve_tiling m5 m7 p s a : L !! p = Some (s, true) -> good_size a -> a <= s ->
  sz m5 p = a -> pbit (hdr m5 p) = pbit (hdr m p) ->
  agree (fun b => ~ is_link (free_of L) b /\ (b < p - 4 \/ p + s - 4 <= b)) m m5 ->
  (a < s -> sz m5 (p + a) = s - a /\ rd m5 (p + s - 8) = s - a) ->
  agree (fun b => b < p \/ p + a <= b) m5 m7 -> rd m7 (p + a - 4) = Z.lor (hdr m5 (p + a)) PREV_BIT ->
  tiling m7 (carve L p s a) E R.
Proof.
  intros Hp Ha Has Hsz Hpb Hag Hrest Hag7 Hn7. destruct (ti_lump _ _ _ _ Ht _ _ _ Hp) as (Hs & Hp0 & Hpm & _).
  pose proof Ha as [Ha1 Ha2]. pose proof Hs as [Hs1 Hs2].
  assert (Hhp : hdr m7 p = hdr m5 p) by (apply Hag7; lia).
  assert (Hsub : forall q v, delete p L !! q = Some v -> L !! q = Some v /\ q <> p).
  { intros q v [? ?]%lookup_delete_Some. done. }
  assert (Htag : forall b, tag_word E (delete p L) b -> b <> p + s - 4 -> rd m7 b = rd m b).
  { intros b Hb Hne. destruct (tag_outside _ _ _ _ Ht _ _ _ _ _ Hp Hsub Hb) as [Hout Hb4].
    destruct Hag7 as [_ Hag7]. rewrite Hag7 by (clear -Hout Hne Has Ha2 Hs2 Hpm Hb4; dmlia).
    apply Hag. split; [|done]. eapply tag_not_link; [exact Ht| | |exact Hb]; [by intros q v []%Hsub|exact (free_links _ _ _ _ Ht)]. }
  assert (Hr : ranges m7 = ranges m) by (transitivity (ranges m5); [apply Hag7|apply Hag]).
  unfold carve. destruct (Z.ltb_spec a s) as [Hlt|Hge].
  - destruct (Hrest Hlt) as [Hsz2 Hft]. assert (Hsa : (s - a) mod 16 = 0) by (clear -Ha2 Hs2; dmlia).
    destruct (set_pbit (hdr m5 (p + a))) as [Hset1 Hset2].
    apply (tiling_carve m); try done.
    + split; [clear -Hs1 Ha1 Hlt Hsa; dmlia|done].
    + apply same_tags_agree. split; [done|]. intros b Hb. destruct (decide (b = p + s - 4)) as [->|Hne]; [|by apply Htag].
      destruct Hag7 as [_ Hag7]. rewrite Hag7 by (clear -Hlt Hsa Ha1; dmlia). apply Hag. split; [|lia].
      eapply tag_not_link; [exact Ht| | |exact Hb]; [by intros q v []%Hsub|exact (free_links _ _ _ _ Ht)].
    + unfold sz. by rewrite Hhp.
    + by rewrite Hhp.
    + unfold sz, hdr. by rewrite Hn7, Hset1.
    + unfold hdr. by rewrite Hn7.
    + destruct Hag7 as [_ Hag7]. rewrite Hag7; [done|]. clear -Hlt Hsa Ha1. dmlia.
  - assert (a = s) as -> by lia. clear Hrest. destruct (set_pbit (hdr m5 (p + s))) as [Hset1 Hset2].
    assert (Hh5 : forall q, q mod 16 = 0 -> p + s <= q -> hdr m5 q = hdr m q).
    { intros q Hq Hle. apply Hag. split; [|lia]. eapply links_off_tags; [by intros x t []%(free_links _ _ _ _ Ht)|].
      right. clear -Hq. dmlia. }
    assert (Hps : (p + s) mod 16 = 0) by (clear -Hpm Hs2; dmlia).
    assert (Hsz7 : sz m7 (p + s) = sz m (p + s)).
    { unfold sz. unfold hdr at 1. by rewrite Hn7, Hset1, Hh5. }
    apply (tiling_flip m _ _ _ _ _ _ true); try done.
    + split; [done| | |].
      * intros q t g Hq. destruct (decide (q = p + s)) as [->|Hne]; [split; [done|by intros []]|].
        unfold sz, hdr. rewrite Htag; [done|left; eauto|lia].
      * intros e He. assert (Hen : rd m7 (e + 4) = rd m (e + 4)).
        { apply Htag; [right; left; eauto|]. destruct (ti_end _ _ _ _ Ht _ He) as (Hem & _). clear -Hem Hps. dmlia. }
        destruct (decide (e = p + s)) as [->|Hne]; [split; [done|]; split; [by intros []|done]|].
        unfold sz, hdr. rewrite Htag; [done|right; left; eauto|lia].
      * intros q t Hq. apply Htag; [right; right; eauto|]. apply Hsub in Hq as [Hq _].
        destruct (ti_lump _ _ _ _ Ht _ _ _ Hq) as ([_ ?] & _ & Hqm & _). clear -H Hqm Hps. dmlia.
    + unfold sz. by rewrite Hhp.
    + by rewrite Hhp.
    + unfold hdr. by rewrite Hn7.
Qed.

End Allocate.

Lemma carve_coalesced m L E R p s a : tiling m L E R -> coalesced L -> L !! p = Some (s, true) -> 16 <= a <= s ->
  coalesced (carve L p s a).
Proof.
  intros Ht Hc Hp Ha. unfold carve. destruct (Z.ltb_spec a s).
  - intros q u t [[<- [= <-]]|[Hn1 [[<- [=]]|[Hn2 Hq]]%lookup_insert_Some]]%lookup_insert_Some.
    + replace (p + a + (s - a)) with (p + s) by lia. intros [[? _]|[_ [[? _]|[_ Hq]]%lookup_insert_Some]]%lookup_insert_Some; [lia|lia|].
      exact (Hc _ _ _ Hp Hq).
    + intros [[He [= <-]]|[_ [[_ [=]]|[_ Hq']]%lookup_insert_Some]]%lookup_insert_Some; [|exact (Hc _ _ _ Hq Hq')].
      pose proof (lumps_apart _ _ _ _ Ht _ _ _ _ _ _ Hp Hq Hn2). destruct (ti_lump _ _ _ _ Ht _ _ _ Hq) as ([? _] & _). lia.
  - intros q u t [[<- [=]]|[Hn2 Hq]]%lookup_insert_Some [[_ [=]]|[_ Hq']]%lookup_insert_Some. exact (Hc _ _ _ Hq Hq').
Qed.

(** Rounding a request to the size of a lump. *)
Lemma lump_size_spec n : 0 <= n <= max_lump - 32 -> good_size (lump_size n) /\ n + 12 <= lump_size n < n + 28.
Proof.
  intros Hn. unfold max_lump in Hn. unfold lump_size, MEMALIGN, GC_HEAD.
  assert (H32 : forall x, 0 <= x < 2 ^ 26 -> u32 x = x) by (intros x Hx; apply wrapu_small; unfold in_u; lia).
  rewrite (H32 (n + 8)), (H32 (n + 8 + 4)), H32 by lia. change (- (2 * 8)) with (- 2 ^ 4). rewrite land_neg_pow2 by lia.
  unfold good_size, max_lump. change (2 ^ 4) with 16. split; [split|]; dmlia.
Qed.

(** What stays: the words outside the free lumps and the headers behind them. *)
Definition outside_free (L : lumps) (b : Z) : Prop :=
  forall q s, L !! q = Some (s, true) -> b < q - 4 \/ q + s <= b.

Lemma outside_not_link L b m E R : tiling m L E R -> outside_free L b -> ~ is_link (free_of L) b.
Proof.
  intros Ht Hb (x & s & Hx%free_of_lookup & Hbx). destruct (Hb _ _ Hx) as [?|?].
  - lia.
  - destruct (ti_lump _ _ _ _ Ht _ _ _ Hx) as ([? _] & _). lia.
Qed.

Lemma mem_allocate_spec fuel h L E R n : heap_ok h L E R -> (size (free_of L) <= fuel)%nat -> 0 <= n <= max_lump - 32 ->
  let a := lump_size n in
  mem_allocate fuel h n = Ok (h, 0) /\ (forall q s, L !! q = Some (s, true) -> s < a) \/
  exists h' p s, mem_allocate fuel h n = Ok (h', p) /\ L !! p = Some (s, true) /\ a <= s /\
    (forall q t, L !! q = Some (t, true) -> a <= t -> s <= t) /\
    heap_ok h' (carve L p s a) E R /\
    hsize h' = hsize h /\ halloc h' = u32 (halloc h + a) /\
    (forall b, p <= b < p + a - 4 -> b mod 4 = 0 -> rd (hmem h') b = 0) /\
    agree (outside_free L) (hmem h) (hmem h').
Proof.
  intros [Ht Hfl Hc] Hfuel Hn a. destruct (lump_size_spec n Hn) as [Ha _]. fold a in Ha.
  destruct (find_spec fuel _ _ _ Hfl Hfuel a Ha) as (r & Hr & Hbest).
  unfold mem_allocate. fold a. destruct (size_class_ok a Ha) as [-> _]. cbn [mbind res_bind]. rewrite Hr. cbn [mbind res_bind].
  destruct Hbest as [[-> Hnone]|[Hr0 (s & Hs & Has & Hbest)]].
  { left. cbn [Z.eqb]. split; [done|]. intros q t Hq. eapply Hnone. by apply free_of_lookup. }
  right. destruct (Z.eqb_spec r 0); [done|]. apply free_of_lookup in Hs as Hp.
  destruct (ti_lump _ _ _ _ Ht _ _ _ Hp) as (Hgs & Hr1 & Hrm & Hsz & _). pose proof Ha as [Ha1 Ha2]. pose proof Hgs as [Hs1 Hs2].
  assert (Hacc : forall b, r - 16 <= b -> b < r + s + 8 -> b mod 4 = 0 -> acc (hmem h) b) by (intros; by eapply lump_acc).
  rewrite NEXT_LUMP_acc, Hsz by (apply Hacc; [lia|lia|clear -Hrm; dmlia]). cbn [mbind res_bind].
  rewrite HEADER_acc by (apply Hacc; [lia|lia|clear -Hrm Hs2; dmlia]). cbn [mbind res_bind].
  unfold massert at 1. rewrite test_pbit, (ti_bit _ _ _ _ Ht _ _ _ Hp). cbn [negb assert_or mbind res_bind].
  rewrite SIZE_acc, Hsz by (apply Hacc; [lia|lia|clear -Hrm; dmlia]). cbn [mbind res_bind].
  unfold massert at 1. destruct (Z.leb_spec a s); [|lia]. cbn [assert_or mbind res_bind].
  destruct (remove_spec fuel _ _ _ Hfl Hfuel r s Hs) as (m1 & l1 & -> & Hag1 & Hfl1). cbn [mbind res_bind].
  destruct (split_spec fuel _ _ _ _ Ht Hfuel m1 l1 r s a Hp Ha Has Hag1 Hfl1) as (m5 & l5 & -> & Hfl5 & Hsz5 & Hpb5 & Hag5 & Hrest).
  cbn [mbind res_bind].
  destruct (clear_spec m5 r a Ha Hrm) as (m7 & Hrun & Hag7 & Hn7 & Hz7); [|done|].
  { intros b Hb Hb4. apply (agree_acc _ _ _ _ Hag5). apply Hacc; [lia|lia|done]. }
  assert (Hrun' : forall {B} (k : memory -> res failure B),
    (s0 ← SIZE m5 r; _ ← massert (a =? s0); n0 ← NEXT_LUMP m5 r; w ← HEADER m5 n0;
     m ← set_HEADER m5 n0 (Z.lor w PREV_BIT); m ← memset0 m r (a - GC_HEAD); k m) = k m7).
  { intros B k. revert Hrun. generalize (SIZE m5 r). intros [s0|]; cbn; [|done]. destruct (massert _); cbn; [|done].
    destruct (NEXT_LUMP m5 r); cbn; [|done]. destruct (HEADER m5 _); cbn; [|done].
    destruct (set_HEADER _ _ _); cbn; [|done]. intros ->. done. }
  rewrite Hrun'. eexists _, r, s. split; [done|]. split; [done|]. split; [done|]. split.
  { intros q t Hq. apply (Hbest q). by apply free_of_lookup. }
  split; [split; cbn [hmem lists add_alloc]|split; [done|split; [done|split; [done|]]]].
  - eapply carve_tiling; done.
  - eapply fl_ok_ext; [exact Hfl5|apply Hag7|]. intros x t Hx. rewrite (free_carve _ _ _ _ Hp) in Hx by lia.
    assert (x mod 16 = 0 /\ (r + a <= x \/ x + 16 <= r)) as [Hxm Hxa].
    { destruct (a <? s); [apply lookup_insert_Some in Hx as [[<- _]|[_ Hx]]; [split; [clear -Hrm Ha2; dmlia|lia]|]|];
        destruct (other_free _ _ _ _ Ht _ _ _ _ Hp Hx) as (_ & _ & _ & ? & [? _] & ?); (split; [done|lia]). }
    destruct Hag7 as [_ Hag7]. rewrite !Hag7 by lia. split_and!; [done|done|].
    unfold sz, hdr. destruct (decide (x = r + a)) as [->|Hne].
    + rewrite Hn7. destruct (set_pbit (hdr m5 (r + a))) as [-> _]. done.
    + rewrite Hag7; [done|]. clear -Hxm Hxa Hrm Ha2 Hne. dmlia.
  - eapply carve_coalesced; [exact Ht|done|done|lia].
  - split; [transitivity (ranges m5); [apply Hag7|apply Hag5]|]. intros b Hb. cbn [hmem add_alloc].
    destruct (Hb _ _ Hp) as [H1|H1]; (destruct Hag7 as [_ Hag7]; rewrite Hag7 by lia; apply Hag5;
      split; [by eapply outside_not_link|lia]).
Qed.

(** ** Release *)

(** The end of [mem_free]: footer, previous bit of the next header, free list. *)
Lemma finish_free fuel m l F p u : fl_ok m l F -> (size F <= fuel)%nat -> F !! p = None -> good_size u -> 0 < p -> p mod 16 = 0 ->
  (forall x s, F !! x = Some s -> x + s <= p \/ p + u <= x) ->
  (forall b, p - 4 <= b < p + u -> b mod 4 = 0 -> acc m b) -> sz m p = u ->
  exists m' l', (s ← SIZE m p; m ← set_FOOTER m p s s; n ← NEXT_LUMP m p; w ← HEADER m n;
                 m ← set_HEADER m n (Z.land w (Z.lnot PREV_BIT)); insert_sized fuel m l p s) = Ok (m', l') /\
    fl_ok m' l' (<[p := u]> F) /\ hdr m' p = hdr m p /\ rd m' (p + u - 8) = u /\
    rd m' (p + u - 4) = Z.land (hdr m (p + u)) (Z.lnot PREV_BIT) /\
    agree (fun b => ~ is_link (<[p := u]> F) b /\ b <> p + u - 8 /\ b <> p + u - 4) m m'.
Proof.
  intros Hfl Hfuel Hp Hu Hp0 Hpm Hap Hacc Hsz. pose proof Hu as [Hu1 Hu2].
  assert (A0 : acc m (p - 4)) by (apply Hacc; [lia|clear -Hpm; dmlia]).
  assert (A1 : acc m (p + u - 8)) by (apply Hacc; [lia|clear -Hpm Hu2; dmlia]).
  assert (A2 : acc m (p + u - 4)) by (apply Hacc; [lia|clear -Hpm Hu2; dmlia]).
  rewrite SIZE_acc, Hsz by done. cbn [mbind res_bind]. unfold set_FOOTER, GC_HEAD. change (2 * 4) with 8.
  rewrite st_acc by done. cbn [mbind res_bind]. set (m3 := upd m (p + u - 8) u).
  assert (Hsz3 : sz m3 p = u) by (unfold m3, sz, hdr; rewrite rd_upd_ne by lia; exact Hsz).
  rewrite NEXT_LUMP_acc, Hsz3 by done. cbn [mbind res_bind]. rewrite HEADER_acc by done. cbn [mbind res_bind].
  assert (Hn3 : hdr m3 (p + u) = hdr m (p + u)) by (unfold m3, hdr; by rewrite rd_upd_ne by lia).
  unfold set_HEADER, GC_HEAD. rewrite st_acc by done. cbn [mbind res_bind]. rewrite Hn3.
  set (m4 := upd m3 (p + u - 4) (Z.land (hdr m (p + u)) (Z.lnot PREV_BIT))).
  assert (Hal : forall x s, F !! x = Some s -> x mod 16 = 0 /\ 16 <= s).
  { intros x s Hx. by destruct (fo_lump _ _ _ Hfl _ _ Hx) as ([[? _] _] & _ & ? & _). }
  assert (Hfl4 : fl_ok m4 l F).
  { eapply fl_ok_ext; [exact Hfl|done|]. intros x s Hx. destruct (Hal _ _ Hx) as [Hxm Hs]. specialize (Hap _ _ Hx).
    unfold m4, m3. rewrite !(rd_upd_ne _ _ _ x) by (clear -Hpm Hu2 Hxm; dmlia).
    rewrite !(rd_upd_ne _ _ _ (x + 4)) by (clear -Hpm Hu2 Hxm; dmlia). split_and!; [done|done|].
    unfold sz. unfold hdr at 1. rewrite rd_upd. destruct (Z.eqb_spec (p + u - 4) (x - 4)) as [Heq|Hne].
    - assert (x = p + u) as -> by lia. by destruct (clear_pbit (hdr m (p + u))) as [-> _].
    - rewrite rd_upd_ne by (clear -Hpm Hu2 Hxm; dmlia). done. }
  assert (Hh4 : hdr m4 p = hdr m p) by (unfold m4, m3, hdr; rewrite !rd_upd_ne by lia; done).
  destruct (insert_spec fuel m4 l F Hfl4 Hfuel p u) as (m5 & l5 & -> & Hag & Hfl5); try done.
  { unfold sz. by rewrite Hh4. } { apply Hacc; [lia|clear -Hpm; dmlia]. } { apply Hacc; [lia|clear -Hpm; dmlia]. }
  assert (Hnl : forall b, b mod 16 = 8 \/ b mod 16 = 12 -> rd m5 b = rd m4 b).
  { intros b Hb. apply Hag. eapply links_off_tags; [|done]. intros x s [[<- _]|[_ Hx]]%lookup_insert_Some; [done|by apply (Hal x s)]. }
  exists m5, l5. split_and!; try done.
  - unfold hdr. rewrite Hnl by (right; clear -Hpm; dmlia). exact Hh4.
  - rewrite Hnl by (left; clear -Hpm Hu2; dmlia). unfold m4, m3. rewrite rd_upd_ne by lia. apply rd_upd_eq.
  - rewrite Hnl by (right; clear -Hpm Hu2; dmlia). apply rd_upd_eq.
  - split; [apply Hag|]. intros b (Hb1 & Hb2 & Hb3). destruct Hag as [_ Hag]. rewrite Hag by done.
    unfold m4, m3. by rewrite !rd_upd_ne by congruence.
Qed.

(** The headers but the one of [p] keep their bits, the previous bit apart. *)
Definition same_headers (p : Z) (m m' : memory) : Prop :=
  forall b, b mod 16 = 12 -> b <> p - 4 -> rd m' b = rd m b \/ rd m' b = Z.land (rd m b) (Z.lnot PREV_BIT).

Section Release.
Context (fuel : nat) (m : memory) (l : list Z) (L : lumps) (E : gset Z) (R : list (Z * Z)).
Hypothesis (Ht : tiling m L E R) (Hfl : fl_ok m l (free_of L)) (Hfuel : (size (free_of L) <= fuel)%nat).

Lemma free_size_delete p : (size (delete p (free_of L)) <= fuel)%nat.
Proof. etransitivity; [|exact Hfuel]. rewrite <- !size_dom. apply subseteq_size. set_solver. Qed.

Lemma free_fuel_mono (F : gmap Z Z) : (forall x s, F !! x = Some s -> is_Some (free_of L !! x)) -> (size F <= fuel)%nat.
Proof.
  intros H. etransitivity; [|exact Hfuel]. rewrite <- !size_dom. apply subseteq_size. intros x [s Hx]%elem_of_dom.
  apply elem_of_dom. by eapply H.
Qed.

(** The lumps and their neighbours before a release. *)
Lemma no_free_before p s f : L !! p = Some (s, f) -> pbit (hdr m p) = true ->
  forall q t, L !! q = Some (t, true) -> q + t <> p.
Proof. intros Hp Hb q t Hq <-. rewrite (ti_bit _ _ _ _ Ht _ _ _ Hq) in Hb. done. Qed.

Lemma merge_prev_spec p s : coalesced L -> L !! p = Some (s, false) ->
  exists m1 l1 L1 p1 s1, merge_prev m l p = Ok (m1, l1, p1) /\ tiling m1 L1 E R /\ fl_ok m1 l1 (free_of L1) /\
    coalesced L1 /\ L1 !! p1 = Some (s1, false) /\ (forall q t, L1 !! q = Some (t, true) -> q + t <> p1) /\
    agree (outside_free L) m m1 /\ same_headers p1 m m1 /\ p1 + s1 = p + s /\
    (p1 = p /\ L1 = L \/ exists t, p1 + t = p /\ L !! p1 = Some (t, true) /\ L1 = <[p1 := (s1, false)]> (delete p L)).
Proof.
  intros Hc Hp. destruct (ti_lump _ _ _ _ Ht _ _ _ Hp) as ([Hs1 Hs2] & Hp0 & Hpm & Hsz & _).
  assert (Hacc : acc m (p - 4)) by (eapply lump_acc; [exact Ht|done|lia|lia|clear -Hpm; dmlia]).
  unfold merge_prev. rewrite HEADER_acc by done. cbn [mbind res_bind]. rewrite test_pbit.
  destruct (pbit (hdr m p)) eqn:Hb; cbn [negb].
  { exists m, l, L, p, s. split_and!; try done; [by eapply no_free_before|by intros b; left|by left]. }
  destruct (ti_first _ _ _ _ Ht _ _ _ Hp) as [?|(q & t & Hq & Hqp)]; [congruence|].
  destruct (ti_lump _ _ _ _ Ht _ _ _ Hq) as (Ht0 & Hq0 & Hqm & Hsq & _). pose proof Ht0 as [Ht1 Ht2].
  assert (Hp' : L !! (q + t) = Some (s, false)) by (by rewrite Hqp).
  destruct (adjacent_good _ _ _ _ Ht _ _ _ _ _ Hq Hp') as [Hg _].
  unfold PREV_LUMP, GC_HEAD. change (2 * 4) with 8.
  rewrite ld_acc by (eapply lump_acc; [exact Ht|exact Hp|lia|lia|clear -Hpm; dmlia]). cbn [mbind res_bind].
  pose proof (ti_foot _ _ _ _ Ht _ _ Hq) as Hf. rewrite Hqp in Hf. rewrite Hf. replace (p - t) with q by lia.
  assert (Hqf : free_of L !! q = Some t) by (by apply free_of_lookup).
  destruct (remove_spec fuel m l (free_of L) Hfl Hfuel q t Hqf) as (m1 & l1 & -> & Hag & Hfl1).
  cbn [mbind res_bind]. assert (Hnl : forall b, b mod 16 = 8 \/ b mod 16 = 12 -> rd m1 b = rd m b).
  { intros b Hb'. apply Hag. eapply links_off_tags; [|done]. by intros x u []%(free_links _ _ _ _ Ht). }
  assert (Hhq : hdr m1 q = hdr m q) by (apply Hnl; right; clear -Hqm; dmlia).
  assert (Hhp : hdr m1 p = hdr m p) by (apply Hnl; right; clear -Hpm; dmlia).
  assert (Aq : acc m1 (q - 4)).
  { apply (agree_acc _ _ _ _ Hag). eapply lump_acc; [exact Ht|exact Hq|lia|lia|clear -Hqm; dmlia]. }
  assert (Ap : acc m1 (p - 4)) by (by apply (agree_acc _ _ _ _ Hag)).
  rewrite !SIZE_acc, HEADER_acc by done. cbn [mbind res_bind]. unfold set_HEADER, GC_HEAD. rewrite st_acc by done.
  cbn [mbind res_bind]. unfold sz at 1 2. rewrite Hhq, Hhp. fold (sz m q). fold (sz m p). rewrite Hsq, Hsz.
  assert (H8 : (t + s) mod 8 = 0) by (clear -Ht2 Hs2; dmlia).
  set (m2 := upd m1 (q - 4) (Z.lor (t + s) (Z.land (hdr m q) 7))).
  assert (Hsub : forall x v, delete q (delete p L) !! x = Some v -> L !! x = Some v /\ x <> q).
  { intros x v [? [? ?]%lookup_delete_Some]%lookup_delete_Some. done. }
  assert (Hag2 : agree (tag_word E (delete q (delete p L))) m m2).
  { split; [exact (proj1 Hag)|]. intros b Hb'. destruct (tag_outside _ _ _ _ Ht _ _ _ _ _ Hq Hsub Hb') as [Hout _].
    unfold m2. rewrite rd_upd_ne by lia. apply Hag.
    eapply tag_not_link; [exact Ht| |exact (free_links _ _ _ _ Ht)|exact Hb']. by intros x v []%Hsub. }
  exists m2, l1, (<[q := (t + s, false)]> (delete p L)), q, (t + s). split; [done|].
  assert (Hfo : free_of (<[q := (t + s, false)]> (delete p L)) = delete q (free_of L)).
  { rewrite free_of_used, free_of_delete. rewrite (delete_id (free_of L) p); [done|].
    destruct (free_of L !! p) as [u|] eqn:Hu; [|done]. apply free_of_lookup in Hu. congruence. }
  split.
  { rewrite <- Hqp in *. eapply (tiling_merge m); [exact Ht|exact Hq|exact Hp|by apply same_tags_agree| | |done].
    - unfold m2, sz, hdr. rewrite rd_upd_eq. by apply header_size.
    - unfold m2, hdr at 1. rewrite rd_upd_eq. by apply header_pbit. }
  split.
  { rewrite Hfo. eapply fl_ok_ext; [exact Hfl1|done|]. intros x u [Hxq Hx%free_of_lookup]%lookup_delete_Some.
    destruct (ti_lump _ _ _ _ Ht _ _ _ Hx) as (_ & _ & Hxm & _). unfold m2, sz, hdr.
    rewrite !rd_upd_ne by (clear -Hxm Hqm Hxq; dmlia). done. }
  split.
  { intros x u v [[_ [=]]|[_ [_ Hx]%lookup_delete_Some]]%lookup_insert_Some
      [[_ [=]]|[_ [_ Hy]%lookup_delete_Some]]%lookup_insert_Some. exact (Hc _ _ _ Hx Hy). }
  split; [by rewrite lookup_insert_eq|]. split.
  { intros x u [[_ [=]]|[_ [_ Hx]%lookup_delete_Some]]%lookup_insert_Some Hxq. subst q. exact (Hc _ _ _ Hx Hq). }
  split.
  { split; [exact (proj1 Hag)|]. intros b Hb'. unfold m2. destruct (Hb' _ _ Hq).
    - rewrite rd_upd_ne by lia. apply Hag. by eapply outside_not_link.
    - rewrite rd_upd_ne by lia. apply Hag. by eapply outside_not_link. }
  split; [intros b Hb1 Hb2; left; unfold m2; rewrite rd_upd_ne by congruence; apply Hnl; by right|].
  split; [lia|]. right. exists t. done.
Qed.

(** The lump after [p] is merged if it is free. *)
Lemma merge_next_spec p s : L !! p = Some (s, false) ->
  (exists t, L !! (p + s) = Some (t, true) /\ exists m1 l1, merge_next m l p = Ok (m1, l1) /\
     agree (fun b => ~ is_link (free_of L) b /\ b <> p - 4) m m1 /\ fl_ok m1 l1 (delete (p + s) (free_of L)) /\
     sz m1 p = s + t /\ pbit (hdr m1 p) = pbit (hdr m p)) \/
  (forall t, L !! (p + s) <> Some (t, true)) /\ merge_next m l p = Ok (m, l).
Proof.
  intros Hp. destruct (ti_lump _ _ _ _ Ht _ _ _ Hp) as ([Hs1 Hs2] & Hp0 & Hpm & Hsz & _).
  assert (Ap : acc m (p - 4)) by (eapply lump_acc; [exact Ht|done|lia|lia|clear -Hpm; dmlia]).
  assert (An : acc m (p + s - 4)) by (by eapply next_hdr_acc).
  unfold merge_next. rewrite NEXT_LUMP_acc, Hsz by done. cbn [mbind res_bind].
  rewrite NEXT_LUMP_acc by done. cbn [mbind res_bind].
  destruct (ti_next _ _ _ _ Ht _ _ _ Hp) as [[[t g] Hn]|He].
  2:{ right. destruct (ti_end _ _ _ _ Ht _ He) as (Hem & -> & Hb & _). split.
      - intros t Hn. by eapply lump_not_end in Hn.
      - rewrite HEADER_acc by (eapply end_acc; [exact Ht|exact He|lia|lia|clear -Hem; dmlia]). cbn [mbind res_bind].
        rewrite test_pbit. unfold hdr. replace (p + s + 8 - 4) with (p + s + 4) by lia. by rewrite Hb. }
  destruct (ti_lump _ _ _ _ Ht _ _ _ Hn) as ([Ht1 Ht2] & Hn0 & Hnm & Hsn & _). rewrite Hsn.
  rewrite HEADER_acc by (by eapply next_hdr_acc). cbn [mbind res_bind]. rewrite test_pbit, (ti_bit _ _ _ _ Ht _ _ _ Hn).
  destruct g; cbn [negb]; [left|right; split; [congruence|done]]. exists t. split; [done|].
  assert (Hnf : free_of L !! (p + s) = Some t) by (by apply free_of_lookup).
  destruct (remove_spec fuel m l (free_of L) Hfl Hfuel _ _ Hnf) as (m1 & l1 & -> & Hag & Hfl1). cbn [mbind res_bind].
  assert (Hnl : forall b, b mod 16 = 8 \/ b mod 16 = 12 -> rd m1 b = rd m b).
  { intros b Hb'. apply Hag. eapply links_off_tags; [|done]. by intros x u []%(free_links _ _ _ _ Ht). }
  assert (Hhp : hdr m1 p = hdr m p) by (apply Hnl; right; clear -Hpm; dmlia).
  assert (Hhn : hdr m1 (p + s) = hdr m (p + s)) by (apply Hnl; right; clear -Hnm; dmlia).
  rewrite !SIZE_acc, HEADER_acc by (by apply (agree_acc _ _ _ _ Hag)). cbn [mbind res_bind].
  unfold set_HEADER, GC_HEAD. rewrite st_acc by (by apply (agree_acc _ _ _ _ Hag)). cbn [mbind res_bind].
  unfold sz at 1 2. rewrite Hhp, Hhn. fold (sz m p). fold (sz m (p + s)). rewrite Hsz, Hsn.
  assert (H8 : (s + t) mod 8 = 0) by (clear -Ht2 Hs2; dmlia).
  eexists _, l1. split; [done|]. split_and!.
  - split; [apply Hag|]. intros b [Hb1 Hb2]. rewrite rd_upd_ne by congruence. by apply Hag.
  - eapply fl_ok_ext; [exact Hfl1|done|]. intros x u [Hxq Hx%free_of_lookup]%lookup_delete_Some.
    destruct (ti_lump _ _ _ _ Ht _ _ _ Hx) as (_ & _ & Hxm & _). assert (x <> p) by congruence. unfold sz, hdr.
    rewrite !rd_upd_ne by (clear -Hxm Hpm H; dmlia). done.
  - unfold sz, hdr. rewrite rd_upd_eq. by apply header_size.
  - unfold hdr at 1. rewrite rd_upd_eq. by apply header_pbit.
Qed.

Definition free_tail (m : memory) (l : list Z) (p : Z) : res failure (memory * list Z) :=
  s ← SIZE m p; m ← set_FOOTER m p s s; n ← NEXT_LUMP m p; w ← HEADER m n;
  m ← set_HEADER m n (Z.land w (Z.lnot PREV_BIT)); insert_sized fuel m l p s.

(** The lumps after the used lump [p] has been given back and merged with the
    next one. *)
Definition giveback (p s u : Z) : lumps :=
  if s <? u then <[p := (u, true)]> (delete (p + s) L) else <[p := (s, true)]> L.

Lemma release_rest p s : coalesced L -> L !! p = Some (s, false) -> (forall q t, L !! q = Some (t, true) -> q + t <> p) ->
  exists m' l' u, ('(m, l) ← merge_next m l p; free_tail m l p) = Ok (m', l') /\
    tiling m' (giveback p s u) E R /\ fl_ok m' l' (free_of (giveback p s u)) /\ coalesced (giveback p s u) /\
    (u = s /\ (forall t, L !! (p + s) <> Some (t, true)) \/ s < u /\ L !! (p + s) = Some (u - s, true)) /\
    agree (fun b => outside_free L b /\ (b < p - 4 \/ p + s <= b)) m m' /\ same_headers p m m'.
Proof.
  intros Hc Hp Hbefore. destruct (ti_lump _ _ _ _ Ht _ _ _ Hp) as (Hg & Hp0 & Hpm & Hsz & _). pose proof Hg as [Hs1 Hs2].
  assert (Hpf : free_of L !! p = None).
  { destruct (free_of L !! p) as [u|] eqn:Hu; [|done]. apply free_of_lookup in Hu. congruence. }
  assert (Hap : forall x u, free_of L !! x = Some u -> x + u <= p \/ p + s <= x).
  { intros x u Hx%free_of_lookup. assert (x <> p) by congruence.
    pose proof (lumps_apart _ _ _ _ Ht _ _ _ _ _ _ Hx Hp). tauto. }
  destruct (merge_next_spec p s Hp) as [(t & Hn & m1 & l1 & -> & Hag & Hfl1 & Hsz1 & Hpb1)|[Hno ->]]; cbn [mbind res_bind].
  - destruct (adjacent_good _ _ _ _ Ht _ _ _ _ _ Hp Hn) as [Hgt _].
    destruct (ti_lump _ _ _ _ Ht _ _ _ Hn) as ([Ht1 Ht2] & _ & Hnm & _).
    destruct (finish_free fuel m1 l1 (delete (p + s) (free_of L)) p (s + t) Hfl1) as (m' & l' & Hrun & Hfl' & Hh & Hf & Hb & Hag');
      try done.
    { apply free_size_delete. } { by rewrite lookup_delete_ne by lia. }
    { intros x u [Hx1 Hx2]%lookup_delete_Some. specialize (Hap _ _ Hx2). apply free_of_lookup in Hx2.
      destruct (ti_lump _ _ _ _ Ht _ _ _ Hx2) as ([? _] & _).
      pose proof (lumps_apart _ _ _ _ Ht _ _ _ _ _ _ Hn Hx2). lia. }
    { intros b Hb' Hb4. apply (agree_acc _ _ _ _ Hag). destruct (Z.lt_ge_cases b (p + s - 4)).
      - eapply lump_acc; [exact Ht|exact Hp|lia|lia|done].
      - eapply lump_acc; [exact Ht|exact Hn|lia|lia|done]. }
    exists m', l', (s + t). unfold free_tail. split; [exact Hrun|]. unfold giveback. destruct (Z.ltb_spec s (s + t)); [|lia].
    assert (Hsub : forall x v, delete p (delete (p + s) L) !! x = Some v -> L !! x = Some v /\ x <> p /\ x <> p + s).
    { intros x v [? [? ?]%lookup_delete_Some]%lookup_delete_Some. done. }
    assert (HF' : forall x v, <[p := s + t]> (delete (p + s) (free_of L)) !! x = Some v -> x mod 16 = 0 /\ x ∉ E).
    { intros x v [[<- _]|[_ [_ Hx]%lookup_delete_Some]]%lookup_insert_Some; [split; [done|by eapply lump_not_end]|].
      by eapply free_links. }
    assert (Htag : forall b, tag_word E (delete p (delete (p + s) L)) b -> b <> p + s + t - 4 -> rd m' b = rd m b).
    { intros b Hb' Hbn. destruct (tag_outside _ _ _ _ Ht _ _ _ _ _ Hp (fun q v H => conj (proj1 (Hsub q v H)) (proj1 (proj2 (Hsub q v H)))) Hb') as [Ho1 _].
      destruct (tag_outside _ _ _ _ Ht _ _ _ _ _ Hn (fun q v H => conj (proj1 (Hsub q v H)) (proj2 (proj2 (Hsub q v H)))) Hb') as [Ho2 _].
      destruct Hag' as [_ Hag']. rewrite Hag'.
      - apply Hag. split; [|lia]. eapply tag_not_link; [exact Ht| |exact (free_links _ _ _ _ Ht)|exact Hb']. by intros x v []%Hsub.
      - split; [|lia]. eapply tag_not_link; [exact Ht| |exact HF'|exact Hb']. by intros x v []%Hsub. }
    assert (Hnn : hdr m1 (p + (s + t)) = hdr m (p + (s + t))).
    { apply Hag. split; [|lia]. eapply links_off_tags; [by intros x v []%(free_links _ _ _ _ Ht)|]. right. clear -Hpm Hs2 Ht2. dmlia. }
    assert (Hbit : pbit (hdr m (p + (s + t))) = false) by (rewrite Z.add_assoc; by apply (ti_bit _ _ _ _ Ht _ _ _ Hn)).
    assert (Hhn : sz m' (p + (s + t)) = sz m (p + (s + t)) /\ pbit (hdr m' (p + (s + t))) = pbit (hdr m (p + (s + t)))).
    { unfold sz, hdr at 1 3. replace (p + (s + t) - 4) with (p + (s + t) - 4) by lia. rewrite Hb, Hnn.
      destruct (clear_pbit (hdr m (p + (s + t)))) as [-> ->]. by rewrite Hbit. }
    split; [|split; [|split; [|split; [right; split; [lia|by replace (s + t - s) with t by lia]|split]]]].
    + apply (tiling_merge m _ _ _ _ _ _ false); try done.
      * split; [transitivity (ranges m1); [apply Hag'|apply Hag]| | |].
        -- intros q u g Hq. destruct (decide (q = p + (s + t))) as [->|Hne]; [destruct Hhn; by split|].
           unfold sz, hdr. rewrite Htag; [done|left; eauto|lia].
        -- intros e He. destruct (ti_end _ _ _ _ Ht _ He) as (Hem & _). assert (Hen : rd m' (e + 4) = rd m (e + 4)).
           { apply Htag; [right; left; eauto|]. clear -Hem Hpm Hs2 Ht2. dmlia. }
           destruct (decide (e = p + (s + t))) as [->|Hne]; [destruct Hhn; by split|].
           unfold sz, hdr. rewrite Htag; [done|right; left; eauto|lia].
        -- intros q u Hq. apply Htag; [right; right; eauto|]. apply Hsub in Hq as [Hq _].
           destruct (ti_lump _ _ _ _ Ht _ _ _ Hq) as ([_ Hu] & _ & Hqm & _). clear -Hu Hqm Hpm Hs2 Ht2. dmlia.
      * unfold sz. rewrite Hh. exact Hsz1.
      * by rewrite Hh.
    + by rewrite free_of_free, free_of_delete.
    + intros x u v [[<- [= <-]]|[Hxp [Hxn Hx]%lookup_delete_Some]]%lookup_insert_Some.
      * intros [[? _]|[_ [_ Hy]%lookup_delete_Some]]%lookup_insert_Some; [lia|]. rewrite Z.add_assoc in Hy. exact (Hc _ _ _ Hn Hy).
      * intros [[Hy _]|[_ [_ Hy]%lookup_delete_Some]]%lookup_insert_Some; [by eapply Hbefore|exact (Hc _ _ _ Hx Hy)].
    + split; [transitivity (ranges m1); [apply Hag'|apply Hag]|]. intros b [Hb1 Hb2]. destruct Hag' as [_ Hag'].
      assert (Hbl : ~ is_link (free_of L) b) by (by eapply outside_not_link). pose proof (Hb1 _ _ Hn) as Hb3.
      rewrite Hag'; [apply Hag; split; [done|lia]|]. split; [|lia].
      intros (x & v & [[<- _]|[_ [_ Hx]%lookup_delete_Some]]%lookup_insert_Some & Hbx); [lia|]. apply Hbl. exists x, v. done.
    + intros b Hb1 Hb2. destruct (decide (b = p + (s + t) - 4)) as [->|Hne]; [right; rewrite Hb; by rewrite Hnn|left].
      destruct Hag' as [_ Hag']. rewrite Hag'.
      * apply Hag. split; [|lia]. eapply links_off_tags; [by intros x v []%(free_links _ _ _ _ Ht)|by right].
      * split; [eapply links_off_tags; [by intros x v []%HF'|by right]|]. split; [clear -Hb1 Hpm Hs2 Ht2; dmlia|done].
  - destruct (finish_free fuel m l (free_of L) p s Hfl Hfuel Hpf Hg) as (m' & l' & Hrun & Hfl' & Hh & Hf & Hb & Hag'); try done.
    { intros b Hb' Hb4. eapply lump_acc; [exact Ht|exact Hp|lia|lia|done]. }
    exists m', l', s. unfold free_tail. split; [exact Hrun|]. unfold giveback. rewrite Z.ltb_irrefl.
    assert (Hsub : forall x v, delete p L !! x = Some v -> L !! x = Some v /\ x <> p).
    { intros x v [? ?]%lookup_delete_Some. done. }
    assert (HF' : forall x v, <[p := s]> (free_of L) !! x = Some v -> x mod 16 = 0 /\ x ∉ E).
    { intros x v [[<- _]|[_ Hx]]%lookup_insert_Some; [split; [done|by eapply lump_not_end]|]. by eapply free_links. }
    assert (Htag : forall b, tag_word E (delete p L) b -> b <> p + s - 4 -> rd m' b = rd m b).
    { intros b Hb' Hbn. destruct (tag_outside _ _ _ _ Ht _ _ _ _ _ Hp Hsub Hb') as [Ho1 _].
      apply Hag'. split; [|lia]. eapply tag_not_link; [exact Ht| |exact HF'|exact Hb']. by intros x v []%Hsub. }
    destruct (clear_pbit (hdr m (p + s))) as [Hc1 Hc2].
    assert (Hszn : sz m' (p + s) = sz m (p + s)) by (unfold sz; unfold hdr at 1; by rewrite Hb, Hc1).
    split; [|split; [|split; [|split; [by left|split]]]].
    + apply (tiling_flip m _ _ _ _ _ _ false); try done.
      * split; [apply Hag'| | |].
        -- intros q u g Hq. destruct (decide (q = p + s)) as [->|Hne]; [split; [done|by intros []]|].
           unfold sz, hdr. rewrite Htag; [done|left; eauto|lia].
        -- intros e He. destruct (ti_end _ _ _ _ Ht _ He) as (Hem & _). assert (Hen : rd m' (e + 4) = rd m (e + 4)).
           { apply Htag; [right; left; eauto|]. clear -Hem Hpm Hs2. dmlia. }
           destruct (decide (e = p + s)) as [->|Hne]; [split; [done|]; split; [by intros []|done]|].
           unfold sz, hdr. rewrite Htag; [done|right; left; eauto|lia].
        -- intros q u Hq. apply Htag; [right; right; eauto|]. apply Hsub in Hq as [Hq _].
           destruct (ti_lump _ _ _ _ Ht _ _ _ Hq) as ([_ Hu] & _ & Hqm & _). clear -Hu Hqm Hpm Hs2. dmlia.
      * unfold sz. rewrite Hh. exact Hsz.
      * by rewrite Hh.
      * unfold hdr. by rewrite Hb.
    + by rewrite free_of_free.
    + intros x u v [[<- [= <-]]|[Hxp Hx]]%lookup_insert_Some.
      * intros [[? _]|[_ Hy]]%lookup_insert_Some; [lia|]. by eapply Hno.
      * intros [[Hy _]|[_ Hy]]%lookup_insert_Some; [by eapply Hbefore|exact (Hc _ _ _ Hx Hy)].
    + split; [apply Hag'|]. intros b [Hb1 Hb2]. apply Hag'. split; [|lia].
      intros (x & v & [[<- _]|[_ Hx]]%lookup_insert_Some & Hbx); [lia|].
      eapply outside_not_link; [exact Ht|exact Hb1|]. exists x, v. done.
    + intros b Hb1 Hb2. destruct (decide (b = p + s - 4)) as [->|Hne]; [by right|left]. apply Hag'.
      split; [eapply links_off_tags; [by intros x v []%HF'|by right]|]. split; [clear -Hb1 Hpm Hs2; dmlia|done].
Qed.

End Release.

(** [L'] is [L] with the used lump [p] given back and merged into the free
    lump [q] of size [u], which swallowed only [p] and free lumps. *)
Definition given_back (L L' : lumps) (p s q u : Z) : Prop :=
  L' !! q = Some (u, true) /\ q <= p /\ p + s <= q + u /\
  (forall x, x <> q -> L' !! x = if decide (q < x < q + u) then None else L !! x) /\
  (forall x t f, L !! x = Some (t, f) -> q <= x < q + u -> x = p \/ f = true).

Lemma giveback_given_back m L E R p s u : tiling m L E R -> L !! p = Some (s, false) ->
  (u = s /\ (forall t, L !! (p + s) <> Some (t, true)) \/ s < u /\ L !! (p + s) = Some (u - s, true)) ->
  given_back L (giveback L p s u) p s p u.
Proof.
  intros Ht Hp Hu. destruct (ti_lump _ _ _ _ Ht _ _ _ Hp) as ([? _] & _).
  assert (Hin : forall x t f, L !! x = Some (t, f) -> p < x < p + u -> x = p + s /\ s < u).
  { intros x t f Hx Hr. destruct (ti_lump _ _ _ _ Ht _ _ _ Hx) as ([? _] & _).
    pose proof (lumps_apart _ _ _ _ Ht _ _ _ _ _ _ Hp Hx ltac:(lia)).
    destruct Hu as [[-> _]|[Hlt Hn]]; [lia|]. split; [|done]. destruct (decide (x = p + s)) as [|Hne]; [done|].
    pose proof (lumps_apart _ _ _ _ Ht _ _ _ _ _ _ Hn Hx ltac:(lia)). lia. }
  unfold given_back, giveback. destruct Hu as [[-> Hno]|[Hlt Hn]].
  - rewrite Z.ltb_irrefl, lookup_insert_eq. split_and!; try done; try lia.
    + intros x Hx. rewrite lookup_insert_ne by done. destruct (decide (p < x < p + s)) as [Hr|]; [|done].
      destruct (L !! x) as [[t f]|] eqn:E1; [|done]. destruct (Hin _ _ _ E1 Hr). lia.
    + intros x t f Hx Hr. left. destruct (decide (x = p)) as [|Hne]; [done|]. destruct (Hin _ _ _ Hx ltac:(lia)). lia.
  - destruct (Z.ltb_spec s u); [|lia]. rewrite lookup_insert_eq. split_and!; try done; try lia.
    + intros x Hx. rewrite lookup_insert_ne by done. destruct (decide (x = p + s)) as [->|Hne].
      * rewrite lookup_delete_eq, decide_True by lia. done.
      * rewrite lookup_delete_ne by done. destruct (decide (p < x < p + u)) as [Hr|]; [|done].
        destruct (L !! x) as [[t f]|] eqn:E1; [|done]. by destruct (Hin _ _ _ E1 Hr).
    + intros x t f Hx Hr. destruct (decide (x = p)) as [|Hne]; [by left|right].
      destruct (Hin _ _ _ Hx ltac:(lia)) as [-> _]. congruence.
Qed.

Lemma mem_free_spec fuel h L E R p s : heap_ok h L E R -> (size (free_of L) <= fuel)%nat -> L !! p = Some (s, false) ->
  exists h' L' q u, mem_free fuel h p = Ok h' /\ heap_ok h' L' E R /\ given_back L L' p s q u /\
    hsize h' = hsize h /\ halloc h' = halloc h /\
    agree (fun b => outside_free L b /\ (b < p - 4 \/ p + s <= b)) (hmem h) (hmem h') /\
    forall x t, L !! x = Some (t, false) -> x <> p -> Z.testbit (hdr (hmem h') x) 0 = Z.testbit (hdr (hmem h) x) 0.
Proof.
  intros [Ht Hfl Hc] Hfuel Hp. destruct (ti_lump _ _ _ _ Ht _ _ _ Hp) as ([Hs1 Hs2] & Hp0 & Hpm & Hsz & _).
  assert (Ap : acc (hmem h) (p - 4)) by (eapply lump_acc; [exact Ht|done|lia|lia|clear -Hpm; dmlia]).
  unfold mem_free. destruct (Z.eqb_spec p 0); [lia|]. rewrite SIZE_acc, Hsz by done. cbn [mbind res_bind].
  change (2 * MEMALIGN) with 16. rewrite Hs2. unfold massert at 1. cbn [assert_or Z.eqb mbind res_bind].
  rewrite NEXT_LUMP_acc, Hsz by done. cbn [mbind res_bind]. rewrite HEADER_acc by (by eapply next_hdr_acc).
  cbn [mbind res_bind]. unfold massert at 1. rewrite test_pbit, (ti_bit _ _ _ _ Ht _ _ _ Hp). cbn [assert_or negb mbind res_bind].
  destruct (merge_prev_spec fuel _ _ _ _ _ Ht Hfl Hfuel p s Hc Hp)
    as (m1 & l1 & L1 & p1 & s1 & -> & Ht1 & Hfl1 & Hc1 & Hp1 & Hb1 & Hag1 & Hh1 & Hps & Hcase).
  cbn [mbind res_bind]. assert (Hfuel1 : (size (free_of L1) <= fuel)%nat).
  { eapply free_fuel_mono; [exact Hfuel|]. intros x v Hx%free_of_lookup.
    destruct Hcase as [[-> ->]|(t & _ & _ & ->)]; [by exists v; apply free_of_lookup|].
    apply lookup_insert_Some in Hx as [[_ [=]]|[_ [_ Hx]%lookup_delete_Some]]. exists v. by apply free_of_lookup. }
  destruct (release_rest fuel _ _ _ _ _ Ht1 Hfl1 Hfuel1 p1 s1 Hc1 Hp1 Hb1) as (m' & l' & u & Hrun & Ht' & Hfl' & Hc' & Hu & Hag' & Hh').
  exists (mkHeap m' l' (hsize h) (halloc h)), (giveback L1 p1 s1 u), p1, u.
  pose proof (giveback_given_back _ _ _ _ _ _ _ Ht1 Hp1 Hu) as Hgb. split_and!; try done.
  - revert Hrun. unfold free_tail. destruct (merge_next m1 l1 p1) as [[m2 l2]|]; cbn; [|done].
    destruct (SIZE m2 p1); cbn; [|done]. destruct (set_FOOTER _ _ _ _); cbn; [|done]. destruct (NEXT_LUMP _ _); cbn; [|done].
    destruct (HEADER _ _); cbn; [|done]. destruct (set_HEADER _ _ _); cbn; [|done]. intros ->. done.
  - destruct Hcase as [[-> ->]|(t & Htp & Hq & ->)]; [assert (s1 = s) as -> by lia; done|].
    destruct (ti_lump _ _ _ _ Ht _ _ _ Hq) as ([? _] & _). subst p.
    destruct Hgb as (G1 & G2 & G3 & G4 & G5). split_and!; try done; try lia.
    + intros x Hx. rewrite G4 by done. destruct (decide (p1 < x < p1 + u)); [done|].
      rewrite lookup_insert_ne by congruence. rewrite lookup_delete_ne; [done|]. lia.
    + intros x v f Hx Hr. destruct (decide (x = p1)) as [->|Hne]; [right; congruence|].
      destruct (decide (x = p1 + t)) as [->|Hne2]; [by left|].
      destruct (G5 x v f) as [?|?]; [by rewrite lookup_insert_ne, lookup_delete_ne|done|done|by right].
  - destruct Hag1 as [R1 Hag1]. destruct Hag' as [R2 Hag']. split; [cbn; congruence|]. intros b [Hb2 Hb3]. cbn [hmem].
    rewrite Hag'; [by apply Hag1|]. destruct Hcase as [[-> ->]|(t & Htp & Hq & ->)]; [split; [done|lia]|].
    pose proof (Hb2 _ _ Hq). split; [|lia]. intros x v [[_ [=]]|[_ [_ Hx]%lookup_delete_Some]]%lookup_insert_Some. by apply Hb2.
  - intros x t Hx Hne. destruct (ti_lump _ _ _ _ Ht _ _ _ Hx) as (_ & _ & Hxm & _).
    assert (Hx1 : x <> p1) by (destruct Hcase as [[-> _]|(? & _ & Hq & _)]; [done|intros ->; congruence]).
    assert (Hb : forall m m', same_headers p1 m m' -> Z.testbit (hdr m' x) 0 = Z.testbit (hdr m x) 0).
    { intros m m'' Hs. unfold hdr. destruct (Hs (x - 4)) as [-> | ->]; [clear -Hxm; dmlia|lia|done|].
      rewrite Z.land_spec. change (Z.testbit (Z.lnot PREV_BIT) 0) with true. apply andb_true_r. }
    cbn [hmem]. rewrite (Hb _ _ Hh'). exact (Hb _ _ Hh1).
Qed.
