(* ===== verification/GcFixed.v ===== *)
(** * Regions and the explicitly managed heap

    The region table is searched correctly, a heap grows by whole regions
    without losing its invariant, and [gc_malloc_fixed] and [gc_free] behave as
    an allocator. *)

From S2P Require Import Prelude GcHeap GcTiling GcAlloc.

(** ** The region table *)

Definition sorted_table (t : list region) : Prop :=
  StronglySorted (fun a b => rend a <= rstart b) t /\ Forall (fun r => rstart r < rend r) t.

Lemma table_order t i j a b : sorted_table t -> zlookup t i = Some a -> zlookup t j = Some b -> i < j -> rend a <= rstart b.
Proof.
  intros [Hs _] [Hi0 Hi]%zlookup_Some [Hj0 Hj]%zlookup_Some Hij. revert Hi Hj.
  assert (Hlt : (Z.to_nat i < Z.to_nat j)%nat) by lia. revert Hlt.
  generalize (Z.to_nat i), (Z.to_nat j). clear -Hs. induction Hs as [|x t Hs IH Hx]; intros i j Hlt; [done|].
  destruct j as [|j]; [lia|]. destruct i as [|i]; simpl; [|intros; eapply (IH i j); [lia|done|done]].
  intros [= <-] Hj. rewrite Forall_forall in Hx. apply Hx. by eapply list_elem_of_lookup_2.
Qed.

Lemma region_search_spec t p : sorted_table t -> forall fuel lo hi, 0 <= lo <= hi -> hi < Z.of_nat (length t) ->
  hi - lo <= Z.of_nat fuel ->
  (forall i r, zlookup t i = Some r -> rstart r <= p < rend r -> lo <= i <= hi) ->
  exists i, region_search fuel t p lo hi = Ok (i, i) /\ 0 <= i < Z.of_nat (length t) /\
    forall j r, zlookup t j = Some r -> rstart r <= p < rend r -> j = i.
Proof.
  intros Hs. induction fuel as [|fuel IH]; intros lo hi Hlo Hhi Hf Hin; cbn [region_search].
  - assert (lo = hi) as -> by lia. rewrite Z.ltb_irrefl. exists hi. split_and!; [done|lia|lia|].
    intros j r Hj Hr. specialize (Hin j r Hj Hr). lia.
  - destruct (Z.ltb_spec lo hi).
    2:{ assert (lo = hi) as -> by lia. exists hi. split_and!; [done|lia|lia|].
        intros j r Hj Hr. specialize (Hin j r Hj Hr). lia. }
    set (mid := (lo + hi + 1) / 2). assert (lo < mid <= hi) by (unfold mid; dmlia).
    destruct (zlookup_is_Some t mid) as [r Hr]; [lia|]. unfold region_at. rewrite Hr. cbn [of_option mbind res_bind].
    destruct (Z.ltb_spec p (rstart r)).
    + apply IH; [lia|lia|unfold mid in *; dmlia|]. intros i r' Hi Hr'. specialize (Hin i r' Hi Hr').
      destruct (Z.le_gt_cases i (mid - 1)); [lia|]. exfalso. destruct (Z.eq_dec i mid) as [->|].
      * rewrite Hr in Hi. injection Hi as <-. lia.
      * pose proof (table_order t mid i r r' Hs Hr Hi ltac:(lia)). destruct Hs as [_ Hs]. rewrite Forall_forall in Hs.
        apply zlookup_Some in Hr as [_ Hr]. apply list_elem_of_lookup_2 in Hr. specialize (Hs _ Hr). simpl in Hs. lia.
    + apply IH; [lia|lia|unfold mid in *; dmlia|]. intros i r' Hi Hr'. specialize (Hin i r' Hi Hr').
      destruct (Z.le_gt_cases mid i); [lia|]. exfalso.
      pose proof (table_order t i mid r' r Hs Hi Hr ltac:(lia)). lia.
Qed.

(** The binary search of [region_find] finds the region that contains an
    address exactly when there is one, in a table of disjoint regions sorted by
    address; it needs the table not to be empty. *)
Lemma region_find_spec (t : list region) (p : Z) (Hs : sorted_table t) (Hne : t <> []) :
  exists o, region_find t p = Ok o /\
    forall r, o = Some r <-> r ∈ t /\ rstart r <= p < rend r.
Proof.
  assert (Hlen : 0 < Z.of_nat (length t)) by (destruct t; [done|simpl; lia]).
  destruct (region_search_spec t p Hs (length t) 0 (Z.of_nat (length t) - 1)) as (i & Hrun & Hi & Huniq); [lia|lia|lia| |].
  { intros i r Hi _. apply zlookup_bound in Hi. lia. }
  unfold region_find. rewrite Hrun. cbn [mbind res_bind]. unfold massert. rewrite Z.eqb_refl. cbn [assert_or mbind res_bind].
  destruct (zlookup_is_Some t i) as [r Hr]; [lia|]. unfold region_at. rewrite Hr. cbn [of_option mbind res_bind].
  assert (Hat : forall r', r' ∈ t -> rstart r' <= p < rend r' -> r' = r).
  { intros r' [j Hj]%list_elem_of_lookup Hin. specialize (Huniq (Z.of_nat j) r'). rewrite zlookup_nat in Huniq.
    rewrite <- (Huniq Hj Hin), zlookup_nat in Hr. congruence. }
  eexists. split; [done|]. intros r'. destruct ((rstart r <=? p) && (p <? rend r)) eqn:Hb; split.
  - intros [= <-]. split; [|lia]. apply zlookup_Some in Hr as [_ Hr]. by eapply list_elem_of_lookup_2.
  - intros [Hin Hp]. by rewrite (Hat r').
  - done.
  - intros [Hin Hp]. rewrite (Hat r') in Hp by done. lia.
Qed.

(** ** Growing a heap *)

(** More of the address space does not hurt. *)
Lemma mapped_more rs r a : mapped rs a = true -> mapped (r :: rs) a = true.
Proof.
  unfold mapped. rewrite !andb_true_iff. intros [H1 H2]. split; [done|]. simpl. by rewrite H2, orb_true_r.
Qed.

Definition add_range (m : memory) (r : Z * Z) : memory := mkMem (words m) (r :: ranges m).

Lemma fl_ok_more m ls F r : fl_ok m ls F -> fl_ok (add_range m r) ls F.
Proof.
  intros [H1 H2 H3 H4]. split; [done|done| |].
  2:{ intros c Hc. destruct (H4 c Hc) as (hd & fl & ? & ? & ? & ? & ?). exists hd, fl. split_and!; try done.
      by apply (dseg_ext m). }
  intros x s Hx. destruct (H3 _ _ Hx) as (? & ? & ? & ? & ? & ? & ?).
  unfold acc in *. split_and!; try done; by apply mapped_more.
Qed.

(** A region of a single free lump joins the heap. *)
Lemma tiling_region m m' L E R start rs : tiling m L E R -> 0 < start -> start mod 16 = 0 -> good_size (rs - 48) ->
  rs <= max_lump -> (forall lo hi, (lo, hi) ∈ R -> hi <= start \/ start + rs <= lo) ->
  (start, start + rs) ∈ ranges m' -> (forall r, r ∈ ranges m -> r ∈ ranges m') ->
  (forall b, tag_word E L b -> rd m' b = rd m b) ->
  let p := start + 16 in let u := rs - 48 in let e := p + u in
  sz m' p = u -> pbit (hdr m' p) = true -> rd m' (p + u - 8) = u ->
  sz m' e = 8 -> pbit (hdr m' e) = false -> pbit (rd m' (e + 4)) = true ->
  tiling m' (<[p := (u, true)]> L) ({[e]} ∪ E) ((start, start + rs) :: R).
Proof.
  intros Ht Hst Hsm Hg Hmax Hdis Hin Hsub Htag p u e Hp1 Hp2 Hp3 He1 He2 He3. pose proof Hg as [Hu1 Hu2].
  fold u in Hu1, Hu2, Hg.
  assert (Hle : forall q s f, L !! q = Some (s, f) -> q + s + 16 <= start \/ start + rs + 16 <= q).
  { intros q s f Hq. destruct (ti_lump _ _ _ _ Ht _ _ _ Hq) as ([? _] & _ & _ & _ & lo & hi & Hr & ? & ?).
    destruct (Hdis _ _ Hr); lia. }
  assert (Hee : forall x, x ∈ E -> x + 16 <= start \/ start + rs + 16 <= x).
  { intros x Hx. destruct (ti_end _ _ _ _ Ht _ Hx) as (_ & _ & _ & lo & hi & Hr & ? & ?). destruct (Hdis _ _ Hr); lia. }
  assert (Hold : forall q s f, <[p := (u, true)]> L !! q = Some (s, f) ->
    q = p /\ s = u /\ f = true \/ q <> p /\ L !! q = Some (s, f)).
  { intros q s f [[<- [= <- <-]]|[? ?]]%lookup_insert_Some; auto. }
  assert (Hhdr : forall q s f, L !! q = Some (s, f) -> hdr m' q = hdr m q) by (intros; apply Htag; left; eauto).
  assert (Hpn : forall q s f, L !! q = Some (s, f) -> q <> p) by
    (intros q s f Hq ->; destruct (ti_lump _ _ _ _ Ht _ _ _ Hq) as ([? _] & _), (Hle _ _ _ Hq); unfold p, u in *; lia).
  split.
  - intros lo hi [[= -> ->]|Hr]%elem_of_cons; [split; [done|lia]|]. apply Ht in Hr as [? ?]. auto.
  - intros r r' [->|Hr]%elem_of_cons [->|Hr']%elem_of_cons; [by left| | |by eapply (ti_Rdisj _ _ _ _ Ht)].
    + destruct r' as [lo hi]. simpl. right. destruct (Hdis _ _ Hr'); lia.
    + destruct r as [lo hi]. simpl. right. destruct (Hdis _ _ Hr); lia.
  - intros q s f [(-> & -> & ->)|[Hne Hq]]%Hold.
    + split_and!; try done; [unfold p; lia|unfold p; clear -Hsm; dmlia|].
      exists start, (start + rs). split; [by left|]. unfold p, u. lia.
    + unfold sz. rewrite (Hhdr _ _ _ Hq). destruct (ti_lump _ _ _ _ Ht _ _ _ Hq) as (? & ? & ? & ? & lo & hi & ? & ? & ?).
      split_and!; try done. exists lo, hi. split_and!; [by right|done|done].
  - intros q s [(-> & -> & _)|[Hne Hq]]%Hold; [done|]. rewrite Htag; [by apply Ht|]. right. right. eauto.
  - intros q s f [(-> & -> & _)|[Hne Hq]]%Hold; [right; unfold e; set_solver|].
    destruct (ti_next _ _ _ _ Ht _ _ _ Hq) as [[v Hn]|Hn]; [left|right; set_solver].
    exists v. rewrite lookup_insert_ne; [done|]. destruct v as [t g]. apply Hpn in Hn. congruence.
  - intros q s f [(-> & -> & ->)|[Hne Hq]]%Hold; [done|]. rewrite <- (ti_bit _ _ _ _ Ht _ _ _ Hq).
    destruct (ti_next _ _ _ _ Ht _ _ _ Hq) as [[[t g] Hn]|Hn]; [by rewrite (Hhdr _ _ _ Hn)|].
    unfold hdr. rewrite Htag; [done|]. right. left. eauto.
  - intros q s f [(-> & -> & ->)|[Hne Hq]]%Hold; [by left|]. rewrite (Hhdr _ _ _ Hq).
    destruct (ti_first _ _ _ _ Ht _ _ _ Hq) as [|(r & v & Hr & Hrq)]; [by left|right]. exists r, v.
    rewrite lookup_insert_ne; [done|]. apply Hpn in Hr. congruence.
  - intros q s f q' s' f' [(-> & -> & ->)|[Hne Hq]]%Hold [(-> & -> & ->)|[Hne' Hq']]%Hold; [lia| | |by eapply (ti_disj _ _ _ _ Ht)].
    + destruct (Hle _ _ _ Hq'); destruct (ti_lump _ _ _ _ Ht _ _ _ Hq') as ([? _] & _); unfold p, u in *; lia.
    + destruct (Hle _ _ _ Hq); destruct (ti_lump _ _ _ _ Ht _ _ _ Hq) as ([? _] & _); unfold p, u in *; lia.
  - intros x [->%elem_of_singleton|Hx]%elem_of_union.
    + split; [unfold e, p; clear -Hsm Hu2; dmlia|]. split_and!; try done. exists start, (start + rs). split; [by left|].
      unfold e, p, u. lia.
    + unfold sz, hdr. rewrite !Htag by (right; left; eauto).
      destruct (ti_end _ _ _ _ Ht _ Hx) as (? & ? & ? & lo & hi & ? & ? & ?). split_and!; try done. exists lo, hi. split_and!; [by right|done|done].
  - intros x q s f [->%elem_of_singleton|Hx]%elem_of_union [(-> & -> & ->)|[Hne Hq]]%Hold.
    + left. unfold e. lia.
    + destruct (Hle _ _ _ Hq); unfold e, p, u; lia.
    + destruct (Hee _ Hx); unfold p, u; lia.
    + by eapply (ti_enddisj _ _ _ _ Ht).
Qed.

Lemma region_coalesced m L E R start rs : tiling m L E R -> coalesced L ->
  (forall lo hi, (lo, hi) ∈ R -> hi <= start \/ start + rs <= lo) -> 64 <= rs ->
  coalesced (<[start + 16 := (rs - 48, true)]> L).
Proof.
  intros Ht Hc Hdis Hrs. assert (Hle : forall q s f, L !! q = Some (s, f) -> q + s + 16 <= start \/ start + rs + 16 <= q).
  { intros q s f Hq. destruct (ti_lump _ _ _ _ Ht _ _ _ Hq) as ([? _] & _ & _ & _ & lo & hi & Hr & ? & ?).
    destruct (Hdis _ _ Hr); lia. }
  intros q s t [[<- [= <-]]|[_ Hq]]%lookup_insert_Some [[He [= <-]]|[_ Hq']]%lookup_insert_Some; [lia| | |exact (Hc _ _ _ Hq Hq')].
  - destruct (ti_lump _ _ _ _ Ht _ _ _ Hq') as ([? _] & _). destruct (Hle _ _ _ Hq'); lia.
  - destruct (ti_lump _ _ _ _ Ht _ _ _ Hq) as ([? _] & _). destruct (Hle _ _ _ Hq); lia.
Qed.

(** ** The system *)

(** [sbrk] as documented: it returns the old break and moves it, or fails and
    leaves it; giving memory back does not fail. *)
Class System (os : Type) (sbrk : os -> Z -> os * option Z) (brk : os -> Z) : Prop := {
  sbrk_grow o n o' a : sbrk o n = (o', Some a) -> a = brk o /\ brk o' = brk o + n;
  sbrk_fail o n o' : sbrk o n = (o', None) -> brk o' = brk o;
  sbrk_shrink o n : n <= 0 -> exists o' a, sbrk o n = (o', Some a) }.

(** The break, the regions of the heap below it, and the table. *)
Record world_ok {os} (brk : os -> Z) (w : @world os) (R : list (Z * Z)) : Prop := {
  wo_brk : 0 < brk (sys w);
  wo_R lo hi : (lo, hi) ∈ R -> hi <= brk (sys w);
  wo_sorted : sorted_table (regions (table w));
  wo_below r : r ∈ regions (table w) -> rend r <= brk (sys w);
  wo_pool : Z.of_nat (length (regions (table w))) + Z.of_nat (length (free_regions (table w))) = GC_REGION_TABLE_SIZE }.

Section Grow.
Context {os : Type} (sbrk : os -> Z -> os * option Z) (brk : os -> Z) {Hsys : System os sbrk brk}.

(** The loop that aligns the break needs one more turn at most. *)
Lemma sbrk_aligned_spec o size : 0 < brk o -> GC_BLOCKSIZE <= size ->
  exists o' r, sbrk_aligned sbrk 2 o size = Ok (o', r) /\
  match r with
  | Some a => brk o <= a /\ a mod GC_BLOCKSIZE = 0 /\ brk o' = a + size
  | None => brk o <= brk o'
  end.
Proof.
  intros Hb Hs. cbn [sbrk_aligned]. destruct (sbrk o size) as [o1 [a|]] eqn:E1.
  2:{ apply (sbrk_fail (brk := brk)) in E1. exists o1, None. split; [done|lia]. }
  apply (sbrk_grow (brk := brk)) in E1 as [-> E1]. unfold GC_BLOCKSIZE in *.
  destruct (Z.eqb_spec (4096 - brk o mod 4096) 4096) as [Ha|Ha].
  { exists o1, (Some (brk o)). split; [done|]. lia. }
  set (miss := 4096 - brk o mod 4096). assert (Hmiss : 0 < miss < 4096) by (unfold miss; dmlia).
  destruct (sbrk_shrink (brk := brk) o1 (- size + miss)) as (o2 & b & E2); [lia|]. rewrite E2. cbn [fst].
  apply (sbrk_grow (brk := brk)) in E2 as [_ E2].
  assert (Hal : brk o2 mod 4096 = 0) by (rewrite E2, E1; unfold miss; dmlia).
  destruct (sbrk o2 size) as [o3 [c|]] eqn:E3.
  - apply (sbrk_grow (brk := brk)) in E3 as [-> E3]. rewrite Hal. cbn. exists o3, (Some (brk o2)). split; [done|]. lia.
  - apply (sbrk_fail (brk := brk)) in E3. exists o3, None. split; [done|lia].
Qed.

Lemma insert_region_last e t : (forall r, r ∈ t -> rstart r <= rstart e) -> insert_region e t = t ++ [e].
Proof.
  intros H. unfold insert_region. assert (Hr : insert_rev e (rev t) = e :: rev t).
  { destruct (rev t) as [|x r] eqn:E; [done|]. simpl. destruct (Z.ltb_spec (rstart e) (rstart x)); [|done].
    assert (x ∈ t) as Hx%H by (apply list_elem_of_In, in_rev; rewrite E; left; done). lia. }
  rewrite Hr. simpl. by rewrite rev_involutive.
Qed.

Lemma region_allocate_spec w R m memsize size type : world_ok brk w R -> 0 < size -> size mod GC_REGIONSIZE = 0 ->
  Z.of_nat (length (regions (table w))) < GC_REGION_TABLE_SIZE ->
  exists w' m' o, region_allocate sbrk w m memsize size type = Ok (w', m', o) /\ others w' = others w /\
  match o with
  | None => m' = m /\ world_ok brk w' R
  | Some r => brk (sys w) <= rstart r /\ rstart r mod GC_BLOCKSIZE = 0 /\ rend r = rstart r + size /\
      m' = add_range m (rstart r, rstart r + size) /\ world_ok brk w' ((rstart r, rstart r + size) :: R)
  end.
Proof.
  intros [Wb WR Ws Wt Wp] Hs Hm Hn. unfold region_allocate, massert, assert_or.
  destruct (Z.ltb_spec 0 size); [|lia]. rewrite Hm. cbn [mbind res_bind Z.eqb].
  destruct (Z.ltb_spec (Z.of_nat (length (regions (table w)))) GC_REGION_TABLE_SIZE); [|lia]. cbn [mbind res_bind].
  destruct (gc_heap_limit w <? u32 (size + memsize)); [exists w, m, None; split_and!; done|].
  destruct (sbrk_aligned_spec (sys w) size Wb) as (o' & r & -> & Hr); [unfold GC_BLOCKSIZE, GC_REGIONSIZE in *; dmlia|].
  cbn [mbind res_bind]. destruct r as [a|].
  2:{ eexists _, m, None. split; [done|]. split; [done|]. split; [done|]. split; cbn; try done; [lia| |].
      - intros lo hi Hin. specialize (WR _ _ Hin). lia.
      - intros x Hx. specialize (Wt _ Hx). lia. }
  destruct Hr as (Ha & Ham & Ho'). destruct (free_regions (table w)) as [|id free] eqn:Ef; [simpl in Wp; lia|].
  eexists _, _, (Some _). split; [done|]. cbn. split; [done|]. split_and!; try done.
  destruct Ws as [Ws1 Ws2]. rewrite Forall_forall in Ws2.
  rewrite insert_region_last by (intros x Hx; cbn; specialize (Wt _ Hx); specialize (Ws2 _ Hx); simpl in Ws2; lia).
  split; cbn.
  - lia.
  - intros lo hi [[= -> ->]|Hin]%elem_of_cons; [lia|]. specialize (WR _ _ Hin). lia.
  - split.
    + apply StronglySorted_app_iff. split_and!; [done|repeat constructor|].
      intros x y Hx ->%list_elem_of_singleton. cbn. specialize (Wt _ Hx). lia.
    + apply Forall_app. split; [by apply Forall_forall|]. constructor; [cbn; lia|constructor].
  - intros x [Hx| ->%list_elem_of_singleton]%elem_of_app; [specialize (Wt _ Hx); lia|cbn; lia].
  - rewrite length_app. simpl in *. lia.
Qed.

(** The region size for a request, and the lump it gives. *)
Definition region_size (n : Z) : Z := ROUNDUPREGIONSIZE (u32 (n + 6 * MEMALIGN)).

Lemma region_size_spec n : 0 <= n <= max_lump - 48 ->
  n + 48 <= region_size n <= max_lump /\ region_size n mod GC_REGIONSIZE = 0 /\ GC_REGIONSIZE <= region_size n.
Proof.
  intros Hn. unfold max_lump in *. unfold region_size, ROUNDUPREGIONSIZE, MEMALIGN.
  assert (H32 : forall x, 0 <= x < 2 ^ 27 -> u32 x = x) by (intros x Hx; apply wrapu_small; unfold in_u; lia).
  unfold GC_REGIONSIZE. change (2 * 1024 * 1024) with (2 ^ 21).
  rewrite (H32 (n + 6 * 8)), H32 by lia. rewrite land_neg_pow2 by lia.
  change (2 ^ 25) with (2 ^ 21 * 16) in *. change (2 ^ 21) with 2097152 in *. split_and!; dmlia.
Qed.

Lemma mem_expand_spec fuel w h L E R type n : heap_ok h L E R -> world_ok brk w R ->
  (size (free_of L) <= fuel)%nat -> 0 <= n <= max_lump - 48 ->
  Z.of_nat (length (regions (table w))) < GC_REGION_TABLE_SIZE ->
  exists w' r, mem_expand sbrk fuel w h type n = Ok (w', r) /\
  match r with
  | None => world_ok brk w' R
  | Some h' => exists start, let rs := region_size n in
      brk (sys w) <= start /\ world_ok brk w' ((start, start + rs) :: R) /\
      heap_ok h' (<[start + 16 := (rs - 48, true)]> L) ({[start + 16 + (rs - 48)]} ∪ E) ((start, start + rs) :: R) /\
      L !! (start + 16) = None /\ (forall q s f, L !! q = Some (s, f) -> q + s + 16 <= start) /\
      (forall b, b < start -> outside_free L b -> rd (hmem h') b = rd (hmem h) b)
  end.
Proof.
  intros [Ht Hfl Hc] Hw Hfuel Hn Htab. destruct (region_size_spec n Hn) as (Hrs & Hrm & Hr2).
  unfold mem_expand. fold (region_size n). set (rs := region_size n) in *.
  assert (HG : GC_REGIONSIZE = 2097152) by done.
  destruct (region_allocate_spec w R (hmem h) (u32 (others w + hsize h)) rs type Hw) as (w' & m' & o & -> & _ & Ho); [lia|done|done|].
  cbn [mbind res_bind]. destruct o as [r|]; [|destruct Ho as [-> Ho]; by exists w', None].
  destruct Ho as (Ha & Ham & Hend & -> & Hw'). set (start := rstart r) in *.
  assert (Hs0 : 0 < start) by (pose proof (wo_brk _ _ _ Hw); lia).
  assert (Hsm : start mod 16 = 0) by (unfold GC_BLOCKSIZE in Ham; clear -Ham; dmlia).
  assert (Hrs16 : rs mod 16 = 0) by (rewrite HG in Hrm; clear -Hrm; dmlia).
  assert (Hg : good_size (rs - 48)) by (split; [lia|clear -Hrs16; dmlia]).
  assert (Hdis : forall lo hi, (lo, hi) ∈ R -> hi <= start \/ start + rs <= lo).
  { intros lo hi Hin. left. pose proof (wo_R _ _ _ Hw _ _ Hin). lia. }
  assert (Hle : forall q s f, L !! q = Some (s, f) -> q + s + 16 <= start).
  { intros q s f Hq. destruct (ti_lump _ _ _ _ Ht _ _ _ Hq) as ([? _] & _ & _ & _ & lo & hi & Hr & ? & ?).
    pose proof (wo_R _ _ _ Hw _ _ Hr). lia. }
  assert (Hnone : L !! (start + 16) = None).
  { destruct (L !! (start + 16)) as [[s f]|] eqn:Eq; [|done]. pose proof (Hle _ _ _ Eq).
    destruct (ti_lump _ _ _ _ Ht _ _ _ Eq) as ([? _] & _). lia. }
  set (m0 := add_range (hmem h) (start, start + rs)).
  assert (Hacc : forall b, start <= b -> b + 4 <= start + rs -> b mod 4 = 0 -> mapped (ranges m0) b = true).
  { intros b H1 H2 H3. eapply mapped_in; [by left|done|done|done]. }
  unfold set_HEADER, set_FOOTER, MEMALIGN, GC_HEAD. change (2 * 8) with 16. change (6 * 8) with 48. change (2 * 4) with 8.
  rewrite st_acc by (apply Hacc; [lia|lia|clear -Hsm; dmlia]). cbn [mbind res_bind].
  rewrite st_acc by (apply Hacc; [lia|lia|clear -Hsm Hrs16; dmlia]). cbn [mbind res_bind].
  set (m2 := upd (upd m0 _ _) _ _).
  assert (Hrd2 : forall b, b < start -> rd m2 b = rd (hmem h) b) by (intros b Hb; unfold m2; rewrite !rd_upd_ne by lia; done).
  assert (Hp2 : hdr m2 (start + 16) = Z.lor (rs - 48) PREV_BIT).
  { unfold m2, hdr. rewrite rd_upd_ne by lia. apply rd_upd_eq. }
  destruct (set_pbit (rs - 48)) as [Hset1 Hset2].
  assert (H8 : (rs - 48) mod 8 = 0) by (clear -Hrs16; dmlia).
  assert (Hsz2 : sz m2 (start + 16) = rs - 48) by (unfold sz; rewrite Hp2, Hset1; by apply mask_size_id).
  assert (Hfl2 : fl_ok m2 (lists h) (free_of L)).
  { eapply fl_ok_ext; [by apply fl_ok_more|done|]. intros x s Hx%free_of_lookup. pose proof (Hle _ _ _ Hx).
    destruct (ti_lump _ _ _ _ Ht _ _ _ Hx) as ([? _] & _). unfold sz, hdr. rewrite !Hrd2 by lia. done. }
  destruct (insert_spec fuel m2 (lists h) (free_of L) Hfl2 Hfuel (start + 16) (rs - 48)) as (m3 & l3 & -> & Hag3 & Hfl3); try done.
  { destruct (free_of L !! (start + 16)) as [s|] eqn:Eq; [apply free_of_lookup in Eq; congruence|done]. }
  { lia. } { clear -Hsm. dmlia. } { apply Hacc; [lia|lia|clear -Hsm; dmlia]. } { apply Hacc; [lia|lia|clear -Hsm; dmlia]. }
  { apply Hacc; [lia|lia|clear -Hsm; dmlia]. }
  cbn [mbind res_bind].
  assert (HF3 : forall x s, <[start + 16 := rs - 48]> (free_of L) !! x = Some s -> x mod 16 = 0 /\ (x = start + 16 \/ x + 16 <= start)).
  { intros x s [[<- _]|[_ Hx%free_of_lookup]]%lookup_insert_Some; [split; [clear -Hsm; dmlia|by left]|].
    destruct (ti_lump _ _ _ _ Ht _ _ _ Hx) as ([? _] & _ & ? & _). split; [done|]. pose proof (Hle _ _ _ Hx). lia. }
  assert (Hnl : forall b, b mod 16 = 8 \/ b mod 16 = 12 -> rd m3 b = rd m2 b).
  { intros b Hb. apply Hag3. eapply links_off_tags; [by intros x s [? _]%HF3|done]. }
  assert (Hacc3 : forall b, start <= b -> b + 4 <= start + rs -> b mod 4 = 0 -> acc m3 b).
  { intros b H1 H2 H3. apply (agree_acc _ _ _ _ Hag3). by apply Hacc. }
  assert (Hh3 : hdr m3 (start + 16) = Z.lor (rs - 48) PREV_BIT).
  { unfold hdr. rewrite Hnl by (right; clear -Hsm; dmlia). exact Hp2. }
  rewrite NEXT_LUMP_acc by (apply Hacc3; [lia|lia|clear -Hsm; dmlia]). cbn [mbind res_bind].
  unfold sz. rewrite Hh3, Hset1, (mask_size_id _ H8). set (e := start + 16 + (rs - 48)).
  rewrite st_acc by (apply Hacc3; unfold e; [lia|lia|clear -Hsm Hrs16; dmlia]). cbn [mbind res_bind].
  rewrite NEXT_LUMP_acc by (apply Hacc3; unfold e; [lia|lia|clear -Hsm Hrs16; dmlia]). cbn [mbind res_bind].
  unfold sz, hdr. rewrite rd_upd_eq. change (mask_size 8) with 8.
  rewrite st_acc by (apply Hacc3; unfold e; [lia|lia|clear -Hsm Hrs16; dmlia]). cbn [mbind res_bind].
  unfold massert. destruct (Z.ltb_spec e (rend r)); [|unfold e in *; lia]. cbn [assert_or mbind res_bind].
  set (m5 := upd (upd m3 (e - 4) 8) (e + 8 - 4) PREV_BIT).
  assert (Hrd5 : forall b, b <> e - 4 -> b <> e + 4 -> rd m5 b = rd m3 b) by (intros b H1 H2; unfold m5; rewrite !rd_upd_ne by lia; done).
  eexists w', (Some _). split; [done|]. exists start. cbn [hmem lists]. split; [done|]. split; [done|].
  split; [split; cbn [hmem lists]|split; [done|split; [done|]]].
  - apply (tiling_region (hmem h)); try done; try lia.
    + unfold m5. cbn. rewrite (proj1 Hag3). by left.
    + intros x Hx. unfold m5. cbn. rewrite (proj1 Hag3). by right.
    + intros b Hb. assert (Hbs : b < start).
      { destruct Hb as [(q & s & f & Hq & ->)|[(x & Hx & Hb)|(q & s & Hq & ->)]].
        - pose proof (Hle _ _ _ Hq). destruct (ti_lump _ _ _ _ Ht _ _ _ Hq) as ([? _] & _). lia.
        - destruct (ti_end _ _ _ _ Ht _ Hx) as (_ & _ & _ & lo & hi & Hr & ? & ?). pose proof (wo_R _ _ _ Hw _ _ Hr). lia.
        - pose proof (Hle _ _ _ Hq). lia. }
      rewrite Hrd5 by (unfold e; lia). destruct Hag3 as [_ Hag3]. rewrite Hag3; [by apply Hrd2|].
      eapply (tag_not_link (hmem h)); [exact Ht|by intros q v Hq; exact Hq| |exact Hb].
      intros x s [[<- _]|[_ Hx]]%lookup_insert_Some; [|by eapply free_links]. split; [clear -Hsm; dmlia|].
      intros Hx. destruct (ti_end _ _ _ _ Ht _ Hx) as (_ & _ & _ & lo & hi & Hr & ? & ?). pose proof (wo_R _ _ _ Hw _ _ Hr). lia.
    + unfold sz, hdr. rewrite Hrd5 by (unfold e; lia). fold (hdr m3 (start + 16)). rewrite Hh3, Hset1. by apply mask_size_id.
    + unfold hdr. rewrite Hrd5 by (unfold e; lia). fold (hdr m3 (start + 16)). by rewrite Hh3.
    + rewrite Hrd5 by (unfold e; clear -Hsm; dmlia). rewrite Hnl by (left; clear -Hsm Hrs16; dmlia). apply rd_upd_eq.
    + unfold sz, hdr, m5. rewrite rd_upd_ne by (unfold e; lia). fold e. rewrite rd_upd_eq. done.
    + unfold hdr, m5. rewrite rd_upd_ne by (unfold e; lia). fold e. rewrite rd_upd_eq. done.
    + unfold m5. fold e. replace (e + 4) with (e + 8 - 4) by lia. rewrite rd_upd_eq. done.
  - rewrite free_of_free. eapply fl_ok_ext; [exact Hfl3|done|]. intros x s Hx. destruct (HF3 _ _ Hx) as [Hxm Hxs].
    assert (H16 : (e - 4) mod 16 = 12 /\ e mod 16 = 0) by (unfold e; clear -Hsm Hrs16; dmlia).
    unfold sz, hdr. rewrite !Hrd5; [done|unfold e in *; clear -Hxs H16 Hxm Hrs Hr2 HG; dmlia..].
  - eapply region_coalesced; [exact Ht|done|done|lia].
  - intros b Hb Hout. rewrite Hrd5 by (unfold e; lia). destruct Hag3 as [_ Hag3]. rewrite Hag3; [by apply Hrd2|].
    intros (x & s & [[<- _]|[_ Hx]]%lookup_insert_Some & Hbx); [lia|].
    eapply outside_not_link; [exact Ht|exact Hout|]. by exists x, s.
Qed.

End Grow.

(** ** Used lumps keep their contents *)

Lemma used_outside_free m L E R q s b : tiling m L E R -> L !! q = Some (s, false) -> q <= b < q + s - 4 -> outside_free L b.
Proof.
  intros Ht Hq Hb x t Hx. assert (q <> x) by congruence.
  pose proof (lumps_apart _ _ _ _ Ht _ _ _ _ _ _ Hq Hx). lia.
Qed.

Lemma carve_used m L E R p s a q t : tiling m L E R -> L !! p = Some (s, true) -> 16 <= a <= s -> L !! q = Some (t, false) ->
  carve L p s a !! q = Some (t, false) /\ (p + a <= q \/ q + t <= p).
Proof.
  intros Ht Hp Ha Hq. assert (Hne : q <> p) by congruence.
  pose proof (lumps_apart _ _ _ _ Ht _ _ _ _ _ _ Hp Hq). destruct (ti_lump _ _ _ _ Ht _ _ _ Hq) as ([? _] & _).
  split; [|lia]. unfold carve. destruct (Z.ltb_spec a s); by rewrite !lookup_insert_ne by lia.
Qed.

Lemma carve_lookup L p s a : 16 <= a <= s -> carve L p s a !! p = Some (a, false).
Proof.
  intros Ha. unfold carve. destruct (Z.ltb_spec a s).
  - by rewrite lookup_insert_ne, lookup_insert_eq by lia.
  - rewrite lookup_insert_eq. by replace s with a by lia.
Qed.

Lemma set_mark_spec h L E R p s : heap_ok h L E R -> L !! p = Some (s, false) ->
  exists h', set_mark h p = Ok h' /\ heap_ok h' L E R /\ agree (fun b => b <> p - 4) (hmem h) (hmem h').
Proof.
  intros [Ht Hfl Hc] Hp. destruct (ti_lump _ _ _ _ Ht _ _ _ Hp) as ([? _] & Hp0 & Hpm & _).
  assert (Ap : acc (hmem h) (p - 4)) by (eapply lump_acc; [exact Ht|done|lia|lia|clear -Hpm; dmlia]).
  unfold set_mark. rewrite HEADER_acc by done. cbn [mbind res_bind]. unfold set_HEADER, GC_HEAD.
  rewrite st_acc by done. cbn [mbind res_bind]. eexists. split; [done|].
  destruct (set_markbit (hdr (hmem h) p)) as [Hm1 Hm2].
  split; [split; cbn [hmem lists]|apply agree_upd; intros Hb; by apply Hb].
  - eapply tiling_ext; [exact Ht|]. split; [done| | |].
    + intros q t f Hq. destruct (decide (q = p)) as [->|Hne].
      * assert (Hh : hdr (upd (hmem h) (p - 4) (Z.lor (hdr (hmem h) p) MARK_BIT)) p = Z.lor (hdr (hmem h) p) MARK_BIT)
          by (apply rd_upd_eq).
        unfold sz. by rewrite Hh, Hm1, Hm2.
      * unfold sz, hdr. rewrite !rd_upd_ne by lia. done.
    + intros e He. destruct (ti_end _ _ _ _ Ht _ He) as (Hem & _). assert (e <> p) by (intros ->; by eapply lump_not_end in Hp).
      unfold sz, hdr. rewrite !rd_upd_ne by (clear -Hem Hpm H0; dmlia). done.
    + intros q t Hq. destruct (ti_lump _ _ _ _ Ht _ _ _ Hq) as ([_ Hs] & _ & Hqm & _). rewrite rd_upd_ne; [done|]. clear -Hs Hqm Hpm. dmlia.
  - eapply fl_ok_ext; [exact Hfl|done|]. intros x t Hx%free_of_lookup. assert (x <> p) by congruence.
    destruct (ti_lump _ _ _ _ Ht _ _ _ Hx) as (_ & _ & Hxm & _). unfold sz, hdr. rewrite !rd_upd_ne by (clear -Hxm Hpm H0; dmlia). done.
  - done.
Qed.

(** A new heap is empty. *)
Lemma mem_init_ok m s a : heap_ok (mem_init m s a) ∅ ∅ [].
Proof.
  split; cbn [hmem lists mem_init].
  - split; set_solver.
  - split; [done|done|set_solver|]. intros c Hc. exists 0, []. split_and!; [|done|constructor|set_solver|constructor].
    rewrite zlookup_Some. split; [lia|]. rewrite lookup_app_l by (rewrite length_replicate; change SIZE_CLASSES with 81; lia).
    apply lookup_replicate. split; [done|]. change SIZE_CLASSES with 81. lia.
  - intros p t u Hp. set_solver.
Qed.

(** C17: [mem_allocate] is best fit.  In a heap that satisfies the invariant it
    returns NULL, changing nothing, exactly when no free lump is large enough;
    otherwise it returns the address of a free lump of the smallest sufficient
    size, cut to the rounded size, zeroed, with the invariant restored; words
    outside the free lumps (every allocated object among them) keep their
    contents.  No assertion fails and no loop runs out of fuel. *)
Theorem mem_allocate_best_fit (fuel : nat) (h : heap) (L : lumps) (E : gset Z) (R : list (Z * Z)) (n : Z)
    (Hok : heap_ok h L E R) (Hfuel : (size (free_of L) <= fuel)%nat) (Hn : 0 <= n <= max_lump - 32) :
  exists h' p, mem_allocate fuel h n = Ok (h', p) /\
    (p = 0 <-> forall q s, L !! q = Some (s, true) -> s < lump_size n) /\
    (p = 0 -> h' = h) /\
    (p <> 0 -> exists s, L !! p = Some (s, true) /\ lump_size n <= s /\
       (forall q t, L !! q = Some (t, true) -> lump_size n <= t -> s <= t) /\
       heap_ok h' (carve L p s (lump_size n)) E R /\
       (forall b, p <= b < p + lump_size n - 4 -> b mod 4 = 0 -> rd (hmem h') b = 0) /\
       (forall b, outside_free L b -> rd (hmem h') b = rd (hmem h) b)).
Proof.
  destruct (mem_allocate_spec fuel h L E R n Hok Hfuel Hn) as [[Hr Hnone]|(h' & p & s & Hr & Hp & Has & Hbest & Hok' & _ & _ & Hz & Hag)].
  - exists h, 0. split_and!; [done|done|done|done].
  - destruct (ti_lump _ _ _ _ (ho_tiling _ _ _ _ Hok) _ _ _ Hp) as (_ & Hp0 & _). exists h', p. split_and!; [done| |lia|].
    + split; [lia|]. intros H. specialize (H _ _ Hp). lia.
    + intros _. exists s. split_and!; try done. apply Hag.
Qed.

(** C16: [gc_free] gives a lump back.  Called with the address of an allocated
    lump it returns, the lump is merged with the free lumps around it into one
    free lump that swallowed nothing else, no two free lumps are adjacent, the
    other lumps are as before and the allocated ones keep their contents. *)
Theorem gc_free_correct (fuel : nat) (h : heap) (L : lumps) (E : gset Z) (R : list (Z * Z)) (p s : Z)
    (Hok : heap_ok h L E R) (Hfuel : (size (free_of L) <= fuel)%nat) (Hp : L !! p = Some (s, false)) :
  exists h' L' q u, gc_free fuel h p = Ok h' /\ heap_ok h' L' E R /\ given_back L L' p s q u /\ coalesced L' /\
    forall x t, L !! x = Some (t, false) -> x <> p ->
      L' !! x = Some (t, false) /\ forall b, x <= b < x + t - 4 -> rd (hmem h') b = rd (hmem h) b.
Proof.
  destruct (mem_free_spec fuel h L E R p s Hok Hfuel Hp) as (h' & L' & q & u & Hr & Hok' & Hgb & _ & _ & Hag & _).
  exists h', L', q, u. pose proof (ho_tiling _ _ _ _ Hok) as Ht. split_and!; [done|done|done|apply Hok'|].
  intros x t Hx Hne. destruct Hgb as (G1 & G2 & G3 & G4 & G5).
  assert (Hout : ~ q <= x < q + u) by (intros Hin; destruct (G5 _ _ _ Hx Hin); congruence).
  destruct (ti_lump _ _ _ _ Ht _ _ _ Hp) as ([? _] & _). split.
  - rewrite G4, decide_False; [done|lia|]. intros ->. lia.
  - intros b Hb. apply Hag. split; [by eapply used_outside_free|].
    pose proof (lumps_apart _ _ _ _ Ht _ _ _ _ _ _ Hp Hx ltac:(congruence)). lia.
Qed.

Section Fixed.
Context {os : Type} (sbrk : os -> Z -> os * option Z) (brk : os -> Z) {Hsys : System os sbrk brk}.

Lemma free_le_lumps (L : lumps) : (size (free_of L) <= size L)%nat.
Proof.
  rewrite <- !size_dom. apply subseteq_size. intros x [s Hx]%elem_of_dom. apply free_of_lookup in Hx. by eapply elem_of_dom_2.
Qed.

(** What a caller sees of an allocation: the lump [p] is new, those of [L] are kept. *)
Definition allocated (n : Z) (h : heap) (L : lumps) (w' : world) (h' : heap) (p : Z) : Prop :=
  exists L' E' R', heap_ok h' L' E' R' /\ world_ok brk w' R' /\ L' !! p = Some (lump_size n, false) /\
    (forall b, p <= b < p + lump_size n - 4 -> b mod 4 = 0 -> rd (hmem h') b = 0) /\
    forall q t, L !! q = Some (t, false) -> L' !! q = Some (t, false) /\ (p + lump_size n <= q \/ q + t <= p) /\
      forall b, q <= b < q + t - 4 -> rd (hmem h') b = rd (hmem h) b.

Lemma mark_fresh n h L w1 h1 L1 E1 R1 h2 p s : 0 <= n <= max_lump - 48 -> heap_ok h1 L1 E1 R1 -> world_ok brk w1 R1 ->
  L1 !! p = Some (s, true) -> lump_size n <= s -> heap_ok h2 (carve L1 p s (lump_size n)) E1 R1 ->
  (forall b, p <= b < p + lump_size n - 4 -> b mod 4 = 0 -> rd (hmem h2) b = 0) ->
  agree (outside_free L1) (hmem h1) (hmem h2) ->
  (forall q t, L !! q = Some (t, false) -> L1 !! q = Some (t, false) /\
     forall b, q <= b < q + t - 4 -> rd (hmem h1) b = rd (hmem h) b) ->
  exists h3, set_mark h2 p = Ok h3 /\ allocated n h L w1 h3 p.
Proof.
  intros Hn Hok1 Hw1 Hp Hs Hok2 Hz Hag Hkeep. pose proof (ho_tiling _ _ _ _ Hok1) as Ht1.
  destruct (lump_size_spec n) as [[Ha1 _] _]; [lia|].
  assert (Hpl : carve L1 p s (lump_size n) !! p = Some (lump_size n, false)) by (apply carve_lookup; lia).
  destruct (set_mark_spec h2 _ _ _ p _ Hok2 Hpl) as (h3 & Hm & Hok3 & Hag3). exists h3. split; [done|].
  exists (carve L1 p s (lump_size n)), E1, R1. split_and!; try done.
  - intros b Hb Hb4. destruct Hag3 as [_ Hag3]. rewrite Hag3 by lia. by apply Hz.
  - intros q t Hq. destruct (Hkeep _ _ Hq) as [Hq1 Hc].
    destruct (carve_used _ _ _ _ _ _ (lump_size n) _ _ Ht1 Hp ltac:(lia) Hq1) as [Hq2 Hap].
    split_and!; [done|done|]. intros b Hb. destruct Hag3 as [_ Hag3]. rewrite Hag3 by lia.
    rewrite (proj2 Hag) by (by eapply used_outside_free). by apply Hc.
Qed.

(** C15: [gc_malloc_fixed] is an allocator.  Under the invariants of the heap and
    of the region table, and when a new region would be large enough for the
    rounded request, it either raises OutOfMemoryError or returns a zeroed lump
    of the rounded size, apart from every lump that was allocated before; those
    are still allocated, with their contents, and the invariants hold again. *)
Theorem gc_malloc_fixed_correct (fuel : nat) (w : world) (h : heap) (L : lumps) (E : gset Z) (R : list (Z * Z)) (n : Z)
    (Hok : heap_ok h L E R) (Hw : world_ok brk w R) (Hfuel : (size L < fuel)%nat) (Hn : 0 <= n <= max_lump - 48)
    (Htab : Z.of_nat (length (regions (table w))) < GC_REGION_TABLE_SIZE)
    (Hfits : lump_size n <= region_size n - 48) :
  match gc_malloc_fixed sbrk fuel w h n with
  | Ok (w', h', p) => allocated n h L w' h' p
  | Err e => e = OutOfMemoryError
  end.
Proof.
  assert (Hfree := free_le_lumps L). pose proof (ho_tiling _ _ _ _ Hok) as Ht.
  unfold gc_malloc_fixed, with_expansion.
  destruct (mem_allocate_spec fuel h L E R n Hok ltac:(lia) ltac:(lia)) as [[Hr Hnone]|(h' & p & s & Hr & Hp & Has & _ & Hok' & _ & _ & Hz & Hag)];
    rewrite Hr; cbn [mbind res_bind].
  2:{ destruct (ti_lump _ _ _ _ Ht _ _ _ Hp) as (_ & Hp0 & _). destruct (Z.eqb_spec p 0); [lia|]. cbn [mbind res_bind].
      destruct (mark_fresh n h L w h L E R h' p s) as (h3 & -> & Hres); try done. }
  cbn [Z.eqb]. destruct (mem_expand_spec sbrk brk fuel w h L E R GC_REGION_FIXED n Hok Hw ltac:(lia) ltac:(lia) Htab)
    as (w1 & r & -> & Hx). cbn [mbind res_bind]. destruct r as [h1|]; [|done].
  destruct Hx as (start & Hst & Hw1 & Hok1 & Hnew & Hbelow & Hkeep). set (L1 := <[start + 16 := (region_size n - 48, true)]> L) in *.
  assert (Hfuel1 : (size (free_of L1) <= fuel)%nat).
  { etransitivity; [apply free_le_lumps|]. unfold L1. rewrite map_size_insert_None by done. lia. }
  destruct (mem_allocate_spec fuel h1 L1 _ _ n Hok1 Hfuel1 ltac:(lia)) as [[_ Hnone1]|(h' & p & s & -> & Hp & Has & _ & Hok' & _ & _ & Hz & Hag)].
  { specialize (Hnone1 (start + 16) (region_size n - 48)). unfold L1 in Hnone1. rewrite lookup_insert_eq in Hnone1.
    specialize (Hnone1 eq_refl). lia. }
  cbn [mbind res_bind]. destruct (ti_lump _ _ _ _ (ho_tiling _ _ _ _ Hok1) _ _ _ Hp) as (_ & Hp0 & _).
  destruct (Z.eqb_spec p 0); [lia|]. unfold massert. cbn [negb assert_or mbind res_bind].
  destruct (mark_fresh n h L w1 h1 L1 _ _ h' p s ltac:(lia) Hok1 Hw1 Hp Has Hok' Hz Hag) as (h3 & -> & Hres); [|done].
  intros q t Hq. split.
  - unfold L1. rewrite lookup_insert_ne; [done|]. intros <-. congruence.
  - intros b Hb. specialize (Hbelow _ _ _ Hq). apply Hkeep; [lia|by eapply used_outside_free].
Qed.

End Fixed.

(** ** An example *)

(** A system whose break only moves. *)
Definition bump (o n : Z) : Z * option Z := (o + n, Some o).

#[export] Instance bump_system : System Z bump id.
Proof. split; unfold bump; intros; simplify_eq; eauto. Qed.

Definition ex_world : world := mkWorld 5000 region_init (512 * 1024 * 1024) 0.
Definition ex_heap : heap := mem_init (mkMem ∅ []) 0 0.

Lemma ex_world_ok : world_ok id ex_world [].
Proof. split; [done|set_solver|split; constructor|set_solver|vm_compute; reflexivity]. Qed.

(** A heap of one region, made by [mem_expand]. *)
Lemma ex_region : exists h start E R, heap_ok h {[ start + 16 := (2097104, true) ]} E R.
Proof.
  destruct (mem_expand_spec bump id 10 ex_world ex_heap ∅ ∅ [] GC_REGION_FIXED 100 (mem_init_ok _ _ _) ex_world_ok)
    as (w & r & Hr & Hx); [vm_compute; lia|unfold max_lump; lia|vm_compute; reflexivity|].
  assert (Hrr : match mem_expand bump 10 ex_world ex_heap GC_REGION_FIXED 100 with
                | Ok (_, Some h) => true | _ => false end = true) by (vm_compute; reflexivity).
  rewrite Hr in Hrr. destruct r as [h|]; [|done]. destruct Hx as (start & _ & _ & Hok & _).
  change (region_size 100 - 48) with 2097104 in Hok. eexists h, start, _, _. exact Hok.
Qed.

(** The same heap with an allocated lump. *)
Lemma ex_fixed_used : exists h L E R p, heap_ok h L E R /\ (size (free_of L) <= 10)%nat /\ L !! p = Some (112, false).
Proof.
  destruct ex_region as (h & start & E & R & Hok).
  destruct (mem_allocate_spec 10 h _ E R 100 Hok) as [[_ Hnone]|(h' & p & s & _ & Hp & Hs & _ & Hok' & _)].
  - unfold free_of. rewrite omap_singleton. simpl. rewrite map_size_singleton. lia.
  - unfold max_lump. lia.
  - specialize (Hnone (start + 16) 2097104). rewrite lookup_singleton_eq in Hnone. specialize (Hnone eq_refl).
    vm_compute in Hnone. done.
  - apply lookup_singleton_Some in Hp as [<- [= <-]]. change (lump_size 100) with 112 in *.
    eexists h', _, E, R, (start + 16). split; [exact Hok'|]. split; [|by apply carve_lookup].
    rewrite (free_carve _ _ 2097104 112) by (lia || by rewrite lookup_singleton_eq). change (112 <? 2097104) with true. cbv iota.
    rewrite map_size_insert. unfold free_of. rewrite omap_singleton. simpl. rewrite delete_singleton_eq.
    rewrite lookup_empty, map_size_empty. lia.
Qed.

Lemma mem_allocate_best_fit_witness : exists h L E R h' p,
  heap_ok h L E R /\ mem_allocate 10 h 100 = Ok (h', p) /\ p <> 0.
Proof.
  destruct ex_region as (h & start & E & R & Hok).
  destruct (mem_allocate_best_fit 10 h _ E R 100 Hok) as (h' & p & Hr & Hz & _).
  - unfold free_of. rewrite omap_singleton. simpl. rewrite map_size_singleton. lia.
  - unfold max_lump. lia.
  - eexists h, _, E, R, h', p. split; [exact Hok|]. split; [done|]. intros H0. pose proof (proj1 Hz H0 (start + 16) 2097104) as H1.
    rewrite lookup_singleton_eq in H1. specialize (H1 eq_refl). vm_compute in H1. done.
Defined.

Lemma gc_free_correct_witness : exists h L E R p h' L' q u,
  heap_ok h L E R /\ L !! p = Some (112, false) /\ gc_free 10 h p = Ok h' /\ given_back L L' p 112 q u.
Proof.
  destruct ex_fixed_used as (h & L & E & R & p & Hok & Hf & Hp).
  destruct (gc_free_correct 10 h L E R p 112 Hok Hf Hp) as (h' & L' & q & u & Hr & _ & Hg & _).
  exists h, L, E, R, p, h', L', q, u. done.
Defined.

Lemma gc_malloc_fixed_correct_witness :
  is_ok (gc_malloc_fixed bump 10 ex_world ex_heap 100) = true /\
  match gc_malloc_fixed bump 10 ex_world ex_heap 100 with
  | Ok (w', h', p) => allocated id 100 ex_heap ∅ w' h' p
  | Err e => e = OutOfMemoryError
  end.
Proof.
  split; [vm_compute; reflexivity|].
  apply (gc_malloc_fixed_correct bump id 10 ex_world ex_heap ∅ ∅ [] 100 (mem_init_ok _ _ _) ex_world_ok).
  - vm_compute. lia.
  - unfold max_lump. lia.
  - vm_compute. reflexivity.
  - vm_compute. congruence.
Defined.

(** The outcome of a call, without its state. *)
Definition failed {A} (r : res failure A) : option failure := match r with Ok _ => None | Err e => Some e end.

(** Two families of requests that memory could satisfy kill the process.
    The region for a request does not account for the rounding of the lump and
    the header, so a request up to 48 bytes short of a multiple of the region
    size finds its new region too small and fails the assertion after the
    expansion; and the size classes end one too early, so a request between 32
    and 64 megabytes fails an assertion of [size_class]. *)
Theorem gc_malloc_fixed_asserts :
  failed (gc_malloc_fixed bump 10 ex_world ex_heap (2 * 1024 * 1024 - 48)) = Some AssertionFailed /\
  failed (gc_malloc_fixed bump 10 ex_world ex_heap (40 * 1024 * 1024)) = Some AssertionFailed /\
  failed (gc_malloc_fixed bump 10 ex_world ex_heap 1000) = None.
Proof. split_and!; vm_compute; reflexivity. Qed.
