(* ===== verification/GcWrite.v ===== *)
(** * Writing to allocated lumps

    The invariant of a heap does not depend on the contents of its allocated
    lumps, nor on the mark bits of their headers. *)

From S2P Require Import Prelude GcHeap GcTiling GcAlloc GcFixed.

(** The header and the contents of an allocated lump. *)
Definition in_used (L : lumps) (b : Z) : Prop := exists p s, L !! p = Some (s, false) /\ p - 4 <= b < p + s - 4.

Section Write.
Context (h : heap) (L : lumps) (E : gset Z) (R : list (Z * Z)).
Hypothesis (Hok : heap_ok h L E R).

Lemma free_not_used q t b : L !! q = Some (t, true) -> q - 4 <= b < q + t - 4 -> ~ in_used L b.
Proof.
  intros Hq Hb (p & s & Hp & Hr). pose proof (ho_tiling _ _ _ _ Hok) as Ht.
  pose proof (lumps_apart _ _ _ _ Ht _ _ _ _ _ _ Hp Hq). assert (p <> q) by congruence. lia.
Qed.

Lemma end_not_used e b : e ∈ E -> e - 4 <= b < e + 12 -> ~ in_used L b.
Proof.
  intros He Hb (p & s & Hp & Hr). destruct (ti_enddisj _ _ _ _ (ho_tiling _ _ _ _ Hok) _ _ _ _ He Hp); lia.
Qed.

Lemma heap_ok_change m' : ranges m' = ranges (hmem h) ->
  (forall p s, L !! p = Some (s, false) -> sz m' p = sz (hmem h) p /\ pbit (hdr m' p) = pbit (hdr (hmem h) p)) ->
  (forall b, ~ in_used L b -> rd m' b = rd (hmem h) b) -> heap_ok (with_memory m' h) L E R.
Proof.
  intros Hr Hh Hrd. destruct Hok as [Ht Hfl Hc].
  assert (Hfree : forall q t, L !! q = Some (t, true) -> 16 <= t /\ rd m' (q - 4) = rd (hmem h) (q - 4)).
  { intros q t Hq. destruct (ti_lump _ _ _ _ Ht _ _ _ Hq) as ([? _] & _). split; [lia|]. apply Hrd. eapply free_not_used; [exact Hq|lia]. }
  split; cbn [hmem lists with_memory]; [|eapply fl_ok_ext; [exact Hfl|exact Hr|]|done].
  - eapply tiling_ext; [exact Ht|]. split; [exact Hr| | |].
    + intros q s [|] Hq; [|by destruct (Hh _ _ Hq)]. destruct (Hfree _ _ Hq) as [_ E1]. unfold sz, hdr. by rewrite E1.
    + intros e He. unfold sz, hdr. rewrite !Hrd; [done|eapply end_not_used; [exact He|lia]..].
    + intros q s Hq. destruct (Hfree _ _ Hq). apply Hrd. eapply free_not_used; [exact Hq|lia].
  - intros x s Hx%free_of_lookup. destruct (Hfree _ _ Hx) as [? E1]. unfold sz, hdr.
    rewrite E1, !Hrd; [done|eapply free_not_used; [exact Hx|lia]..].
Qed.

(** Only contents are written. *)
Lemma heap_ok_write m' : agree (fun b => ~ exists p s, L !! p = Some (s, false) /\ p <= b < p + s - 4) (hmem h) m' ->
  heap_ok (with_memory m' h) L E R.
Proof.
  intros [Hr Hag]. apply heap_ok_change; [exact Hr| |].
  - intros p s Hp. unfold sz, hdr. rewrite Hag; [done|]. intros (q & t & Hq & Hb).
    destruct (decide (p = q)) as [->|Hne]; [lia|].
    destruct (ti_lump _ _ _ _ (ho_tiling _ _ _ _ Hok) _ _ _ Hp) as ([? _] & _).
    pose proof (lumps_apart _ _ _ _ (ho_tiling _ _ _ _ Hok) _ _ _ _ _ _ Hp Hq Hne). lia.
  - intros b Hb. apply Hag. intros (p & s & Hp & Hr'). apply Hb. exists p, s. split; [exact Hp|lia].
Qed.

End Write.
