(* ===== verification/GcMark.v ===== *)
(** * The mark phase of the collector (src/runtime/gc.c, lines 1401-1440,
    1977-2260, 2424-2470, 2573-2898 and the walk functions after 3072)

    The collector's view of memory (regions, block usage tables, the hash table
    of large objects, classes, roots, thread stacks), the test for being an
    object, the walk functions, the bounded mark stack with its three states,
    and the mark phase.  The model is the executable code; what it computes is
    proved in [GcReach] and [GcObjects]. *)

From S2P Require Import Prelude GcHeap.

(** ** What the collector reads *)

(** The functions a class's [walk] pointer can hold.  [Walk_object] stands for
    the walker made for the class, which marks its reference fields. *)
Inductive walker := Walk_null | Walk_ref_array | Walk_class | Walk_object.

(** The part of [Field] the walkers use; [f_is_class] is [type == ClassClass]. *)
Record field := mkField { f_isref : bool; f_boffset : Z; f_addr : Z; f_is_class : bool }.

(** The part of [Hjava_lang_Class] the walkers use; the constant pool is the
    list of its tags and data. *)
Record jclass := mkClass {
  c_walk : walker;
  c_superclass : Z;
  c_state : Z;
  c_loader : Z;
  c_constants : list (Z * Z);
  c_fields : list field;
  c_nsfields : Z }.

Definition CSTATE_PREPARED := 4.
Definition CONSTANT_ResolvedString := 24.
Definition FREE_BIT := 2.
Definition GC_REGION_SMALL := 1.
Definition GC_REGION_LARGE := 2.
Definition LARGE_SET_SIZE := 16381.
Definition GC_MAX_SMALL_OBJECT_SIZE := 1024.

(** [usage] is the block usage table, [region->data], of a small region by its
    entry; [large_objects] is the address of the hash table; a thread without
    [PrivateInfo] has no stack to walk, and the other ones have the pair of
    [restorePoint] and [stackEnd]. *)
Record gc_env := mkEnv {
  region_table : list region;
  small_regions : list region;
  usage : gmap Z (list Z);
  large_objects : Z;
  dtable_class : gmap Z Z;
  classes : gmap Z jclass;
  roots : list (list (Z * walker));
  out_of_memory_error : Z;
  live_threads : list (Z * option (Z * Z)) }.

(** ** The large object set *)

Definition node_object (m : memory) (n : Z) : res failure Z := ld m n.
Definition node_prev (m : memory) (n : Z) : res failure Z := ld m (n + 4).
Definition node_next (m : memory) (n : Z) : res failure Z := ld m (n + 8).
Definition set_node_object (m : memory) (n v : Z) : res failure memory := st m n v.
Definition set_node_prev (m : memory) (n v : Z) : res failure memory := st m (n + 4) v.
Definition set_node_next (m : memory) (n v : Z) : res failure memory := st m (n + 8) v.

Definition large_set_hash (p : Z) : Z := u32 p / MEMALIGN.

Definition large_node (base i : Z) : Z := base + 12 * i.

Definition large_bucket (base p : Z) : Z := large_node base (large_set_hash p mod LARGE_SET_SIZE).

Fixpoint init_sentinels (n : nat) (m : memory) (base i : Z) : res failure memory :=
  match n with
  | O => Ok m
  | S n' =>
      m ← set_node_object m (large_node base i) 0;
      m ← set_node_next m (large_node base i) (large_node base i);
      m ← set_node_prev m (large_node base i) (large_node base i);
      init_sentinels n' m base (i + 1)
  end.

Definition large_set_init (m : memory) (base : Z) : res failure memory :=
  init_sentinels (Z.to_nat LARGE_SET_SIZE) m base 0.

Fixpoint chain_find (fuel : nat) (m : memory) (node p : Z) : res failure bool :=
  o ← node_object m node;
  if o =? 0 then Ok false
  else if o =? p then Ok true
  else match fuel with
       | O => Err OutOfFuel
       | S fuel' => n ← node_next m node; chain_find fuel' m n p
       end.

Definition large_set_exists (fuel : nat) (m : memory) (base p : Z) : res failure bool :=
  n ← node_next m (large_bucket base p);
  chain_find fuel m n p.

(** [((uintp)p + size + align - 1) & -align], for the alignment 4 of the node. *)
Definition large_set_node (p size : Z) : Z := Z.land (u32 (u32 p + size + 4 - 1)) (- 4).

Definition large_set_add (m : memory) (base p size : Z) : res failure memory :=
  let head := large_bucket base p in
  let node := large_set_node p size in
  m ← set_node_object m node p;
  m ← set_node_prev m node head;
  n ← node_next m head;
  m ← set_node_next m node n;
  n ← node_next m head;
  m ← set_node_prev m n node;
  set_node_next m head node.

(** ** Objects of the small area *)

Definition ROUNDDOWNBLOCKSIZE (v : Z) : Z := Z.land v (Z.lnot (GC_BLOCKSIZE - 1)).

(** A region has 512 blocks, and a block at most 511 chunks. *)
Definition BLOCK_FUEL : nat := 512.

(** [table[index] & (1 << offset)] for the block at [pos] of a region. *)
Definition block_used (e : gc_env) (r : region) (pos : Z) : res failure bool :=
  t ← of_option BadAccess (usage e !! rid r);
  w ← of_option BadAccess (zlookup t (pos / 32));
  Ok (negb (Z.land w (Z.shiftl 1 (pos mod 32)) =? 0)).

(** The size of the chunk at [header], with the assertions on it. *)
Definition chunk_size (m : memory) (header : Z) : res failure Z :=
  w ← ld m header;
  let size := mask_size w in
  _ ← massert (0 <? size);
  _ ← massert (size mod MEMALIGN =? 0);
  Ok size.

Fixpoint find_header (fuel : nat) (m : memory) (header bound : Z) : res failure Z :=
  if header <? bound then
    size ← chunk_size m header;
    match fuel with O => Err OutOfFuel | S fuel' => find_header fuel' m (header + size) bound end
  else Ok header.

Definition is_small_object (e : gc_env) (m : memory) (p : Z) (r : region) : res failure bool :=
  if (p =? 0) || negb (Z.land p (MEMALIGN - 1) =? 0) then Ok false else
  used ← block_used e r ((p - rstart r) / GC_BLOCKSIZE);
  if negb used then Ok false else
  let bound := p - GC_HEAD in
  header ← find_header BLOCK_FUEL m (ROUNDDOWNBLOCKSIZE p + (MEMALIGN - GC_HEAD)) bound;
  if header =? bound then w ← ld m header; Ok (Z.land w FREE_BIT =? 0) else Ok false.

Section Mark.
(** [fuel] bounds the chains of the large object set, the superclass chains and
    the loops over the mark stack. *)
Context (fuel : nat) (e : gc_env).

Definition is_object (m : memory) (p : Z) : res failure bool :=
  r ← region_find (region_table e) p;
  match r with
  | None => Ok false
  | Some r =>
      if rtype r =? GC_REGION_SMALL then is_small_object e m p r
      else if rtype r =? GC_REGION_LARGE then large_set_exists fuel m (large_objects e) p
      else Ok false
  end.

(** ** The mark stack *)

Inductive mark_state_t := MARK_STATE_COLLECT | MARK_STATE_NORMAL | MARK_STATE_OVERFLOW.

#[export] Instance mark_state_eq_dec : EqDecision mark_state_t.
Proof. solve_decision. Defined.

(** The pointers into the stack are indices; [&mark_stack[-1]] is [-1].  The
    array has [mark_stack_size] entries. *)
Record mark_st := mkMark {
  mem : memory;
  mark_stack : list Z;
  mark_top : Z;
  mark_cursor : Z;
  mark_bound : Z;
  mark_save_cursor : Z;
  mark_state : mark_state_t }.

Definition mark_stack_size (s : mark_st) : Z := Z.of_nat (length (mark_stack s)).

Definition set_mem (m : memory) (s : mark_st) : mark_st :=
  mkMark m (mark_stack s) (mark_top s) (mark_cursor s) (mark_bound s) (mark_save_cursor s) (mark_state s).
Definition set_state (t : mark_state_t) (s : mark_st) : mark_st :=
  mkMark (mem s) (mark_stack s) (mark_top s) (mark_cursor s) (mark_bound s) (mark_save_cursor s) t.
Definition set_cursor (c : Z) (s : mark_st) : mark_st :=
  mkMark (mem s) (mark_stack s) (mark_top s) c (mark_bound s) (mark_save_cursor s) (mark_state s).
Definition set_top (t : Z) (s : mark_st) : mark_st :=
  mkMark (mem s) (mark_stack s) t (mark_cursor s) (mark_bound s) (mark_save_cursor s) (mark_state s).

(** [mark_top++; *mark_top = p;] *)
Definition push (p : Z) (s : mark_st) : res failure mark_st :=
  stack ← of_option BadAccess (zstore (mark_stack s) (mark_top s + 1) p);
  Ok (mkMark (mem s) stack (mark_top s + 1) (mark_cursor s) (mark_bound s) (mark_save_cursor s) (mark_state s)).

Definition mark (p : Z) (s : mark_st) : res failure mark_st :=
  if p =? 0 then Ok s else
  w ← HEADER (mem s) p;
  if negb (Z.land w MARK_BIT =? 0) then Ok s else
  b ← is_object (mem s) p;
  _ ← massert b;
  m ← set_HEADER (mem s) p (Z.lor w MARK_BIT);
  let s := set_mem m s in
  if mark_top s <? mark_bound s then push p s
  else match mark_state s with
       | MARK_STATE_COLLECT =>
           push p (mkMark (mem s) (mark_stack s) (mark_top s) (mark_top s + 2) (mark_stack_size s - 1)
                     (mark_cursor s) MARK_STATE_NORMAL)
       | _ => Ok (set_state MARK_STATE_OVERFLOW s)
       end.

Definition mark_potential (p : Z) (s : mark_st) : res failure mark_st :=
  b ← is_object (mem s) p;
  if (b : bool) then mark p s else Ok s.

(** ** Walk functions *)

(** A loop that applies [f] to each element in turn. *)
Fixpoint each {A} (f : A -> mark_st -> res failure mark_st) (l : list A) (s : mark_st) : res failure mark_st :=
  match l with
  | [] => Ok s
  | x :: l' => s ← f x s; each f l' s
  end.

(** [f] of the word at [a] as it is now. *)
Definition at_word (f : Z -> mark_st -> res failure mark_st) (a : Z) (s : mark_st) : res failure mark_st :=
  v ← ld (mem s) a; f v s.

(** The addresses of [n] successive words. *)
Definition word_range (a n : Z) : list Z := map (fun i => a + 4 * i) (seqZ 0 n).

Definition ARRAY_SIZE (m : memory) (p : Z) : res failure Z := ld m (p + 8).
Definition OBJARRAY_DATA (p : Z) : Z := p + 16.

Definition gc_walk_ref_array (p : Z) (s : mark_st) : res failure mark_st :=
  n ← ARRAY_SIZE (mem s) p;
  each (at_word mark) (word_range (OBJARRAY_DATA p) n) s.

Definition CLASS_SFIELDS (c : jclass) : list field := take (Z.to_nat (c_nsfields c)) (c_fields c).
Definition CLASS_IFIELDS (c : jclass) : list field := drop (Z.to_nat (c_nsfields c)) (c_fields c).

Definition gc_walk_class (p : Z) (s : mark_st) : res failure mark_st :=
  c ← of_option BadAccess (classes e !! p);
  s ← mark (c_loader c) s;
  if CSTATE_PREPARED <=? c_state c then
    s ← each (fun (x : Z * Z) s => let '(tag, data) := x in if tag =? CONSTANT_ResolvedString then mark data s else Ok s)
             (tail (c_constants c)) s;
    each (fun fld s => if f_isref fld && negb (f_is_class fld) then at_word mark (f_addr fld) s else Ok s)
         (CLASS_SFIELDS c) s
  else Ok s.

Definition gc_walk_null (p : Z) (s : mark_st) : res failure mark_st := Ok s.

Definition gc_walk_conservative (base size : Z) (s : mark_st) : res failure mark_st :=
  each (at_word mark_potential) (word_range base ((size + 3) / 4)) s.

Definition gc_walk_thread (stack : option (Z * Z)) (s : mark_st) : res failure mark_st :=
  match stack with
  | None => Ok s
  | Some (restorePoint, stackEnd) => gc_walk_conservative restorePoint (u32 (stackEnd - restorePoint)) s
  end.

(** The reference fields of a class and its superclasses, from the last one of
    each class to its first. *)
Fixpoint object_walker_from (n : nat) (c object : Z) (s : mark_st) : res failure mark_st :=
  if c =? 0 then Ok s else
  k ← of_option BadAccess (classes e !! c);
  s ← each (fun fld s => if f_isref fld then at_word mark (object + f_boffset fld) s else Ok s)
           (rev (CLASS_IFIELDS k)) s;
  match n with O => Err OutOfFuel | S n' => object_walker_from n' (c_superclass k) object s end.

(** [dtable->class] of an object. *)
Definition OBJECT_CLASS (m : memory) (p : Z) : res failure Z :=
  d ← ld m p; of_option BadAccess (dtable_class e !! d).

Definition object_walker (p : Z) (s : mark_st) : res failure mark_st :=
  c ← OBJECT_CLASS (mem s) p;
  object_walker_from fuel c p s.

Definition walk_with (w : walker) (p : Z) (s : mark_st) : res failure mark_st :=
  match w with
  | Walk_null => gc_walk_null p s
  | Walk_ref_array => gc_walk_ref_array p s
  | Walk_class => gc_walk_class p s
  | Walk_object => object_walker p s
  end.

Definition WALK (p : Z) (s : mark_st) : res failure mark_st :=
  c ← OBJECT_CLASS (mem s) p;
  k ← of_option BadAccess (classes e !! c);
  walk_with (c_walk k) p s.

(** [if (HEADER(p)[0] & MARK_BIT) WALK(p);] *)
Definition walk_if_marked (p : Z) (s : mark_st) : res failure mark_st :=
  w ← HEADER (mem s) p;
  if negb (Z.land w MARK_BIT =? 0) then WALK p s else Ok s.

(** ** Walking the whole heap *)

Fixpoint walk_chain (n : nat) (head node : Z) (s : mark_st) : res failure mark_st :=
  o ← node_object (mem s) node;
  if o =? 0 then Ok s else
  _ ← massert (negb (node =? 0));
  _ ← massert (negb (node =? head));
  prev ← node_prev (mem s) node;
  _ ← massert (negb (prev =? 0));
  next ← node_next (mem s) node;
  _ ← massert (negb (next =? 0));
  s ← walk_if_marked o s;
  match n with
  | O => Err OutOfFuel
  | S n' => next ← node_next (mem s) node; walk_chain n' head next s
  end.

Definition walk_large_objects (s : mark_st) : res failure mark_st :=
  each (fun i s => n ← node_next (mem s) (large_node (large_objects e) i);
                   walk_chain fuel (large_node (large_objects e) i) n s)
       (seqZ 0 LARGE_SET_SIZE) s.

Fixpoint walk_chunks (n : nat) (header bound : Z) (s : mark_st) : res failure mark_st :=
  if header <? bound then
    size ← chunk_size (mem s) header;
    s ← walk_if_marked (header + GC_HEAD) s;
    match n with O => Err OutOfFuel | S n' => walk_chunks n' (header + size) bound s end
  else Ok s.

Definition walk_block (r : region) (pos : Z) (s : mark_st) : res failure mark_st :=
  used ← block_used e r pos;
  if negb used then Ok s else
  let block := rstart r + GC_BLOCKSIZE * pos in
  walk_chunks BLOCK_FUEL (block + (MEMALIGN - GC_HEAD)) (block + (GC_BLOCKSIZE - GC_HEAD)) s.

(** The blocks of a region from its start on, while [block < region->end]. *)
Definition region_blocks (r : region) : list Z :=
  seqZ 0 ((rend r - rstart r + GC_BLOCKSIZE - 1) / GC_BLOCKSIZE).

Definition walk_small_objects (s : mark_st) : res failure mark_st :=
  each (fun r s => each (walk_block r) (region_blocks r) s) (small_regions e) s.

Definition handle_stack_overflow (s : mark_st) : res failure mark_st :=
  s ← walk_large_objects s; walk_small_objects s.

(** ** The mark phase *)

Definition walk_roots (s : mark_st) : res failure mark_st :=
  s ← each (each (fun (x : Z * walker) s => walk_with x.2 x.1 s)) (roots e) s;
  s ← mark (out_of_memory_error e) s;
  each (fun (x : Z * option (Z * Z)) s => s ← mark x.1 s; gc_walk_thread x.2 s) (live_threads e) s.

Definition stack_at (s : mark_st) (i : Z) : res failure Z := of_option BadAccess (zlookup (mark_stack s) i).

Fixpoint collect_loop (n : nat) (s : mark_st) : res failure mark_st :=
  if mark_cursor s <=? mark_top s then
    p ← stack_at s (mark_cursor s);
    s ← WALK p s;
    match n with O => Err OutOfFuel | S n' => collect_loop n' (set_cursor (mark_cursor s + 1) s) end
  else Ok s.

(** [memmove(mark_stack, mark_save_cursor, ...)] and the new top. *)
Definition move_stack (s : mark_st) : mark_st :=
  let n := mark_top s - mark_save_cursor s in
  let stack := mark_stack s in
  let moved := take (Z.to_nat (n + 1)) (drop (Z.to_nat (mark_save_cursor s)) stack) in
  mkMark (mem s) (moved ++ drop (Z.to_nat (n + 1)) stack) n (mark_cursor s) (mark_bound s)
         (mark_save_cursor s) (mark_state s).

Fixpoint drain (n : nat) (s : mark_st) : res failure mark_st :=
  if 0 <=? mark_top s then
    p ← stack_at s (mark_top s);
    s ← WALK p (set_top (mark_top s - 1) s);
    match n with O => Err OutOfFuel | S n' => drain n' s end
  else Ok s.

Fixpoint mark_rounds (n : nat) (s : mark_st) : res failure mark_st :=
  s ← drain fuel s;
  if bool_decide (mark_state s = MARK_STATE_OVERFLOW) then
    s ← handle_stack_overflow (set_state MARK_STATE_NORMAL s);
    match n with O => Err OutOfFuel | S n' => mark_rounds n' s end
  else
    _ ← massert (bool_decide (mark_state s = MARK_STATE_NORMAL));
    Ok s.

Definition walk_mark_stack (s : mark_st) : res failure mark_st :=
  if bool_decide (mark_state s = MARK_STATE_COLLECT) then
    s ← collect_loop fuel s;
    if bool_decide (mark_state s = MARK_STATE_COLLECT) then Ok s else
    _ ← massert (bool_decide (mark_state s = MARK_STATE_NORMAL));
    _ ← massert (mark_bound s =? mark_stack_size s - 1);
    mark_rounds fuel (move_stack s)
  else mark_rounds fuel s.

Definition mark_stack_suggest_bound (stack_size heap_size : Z) : Z :=
  let b := u32 (Z.quot (s32 heap_size) 128) in
  if u32 stack_size <=? u32 (2 * b) then stack_size / 2 else b.

(** ** Finalization *)

(** A [finalize_node] at its address, with its object. *)
Record finalize_node := mkFinal { fn_node : Z; fn_object : Z }.

(** The nodes are linked at the head of the one list or of the other. *)
Fixpoint split_finals (m : memory) (l has_final do_final : list finalize_node) :
    res failure (list finalize_node * list finalize_node) :=
  match l with
  | [] => Ok (has_final, do_final)
  | node :: next =>
      w ← HEADER m (fn_node node);
      if negb (Z.land w MARK_BIT =? 0) then split_finals m next (node :: has_final) do_final
      else split_finals m next has_final (node :: do_final)
  end.

Record finals := mkFinals { has_final : list finalize_node; do_final : list finalize_node }.

Definition walk_finals (f : finals) (s : mark_st) : res failure (finals * mark_st) :=
  '(has, doit) ← split_finals (mem s) (has_final f) [] (do_final f);
  s ← each (fun node => mark (fn_object node)) doit s;
  s ← walk_mark_stack s;
  Ok (mkFinals has doit, s).

(** [heap_size] is [HEAPSIZE(gc_stats)]. *)
Definition start_mark (s : mark_st) : mark_st :=
  mkMark (mem s) (mark_stack s) (-1) (mark_cursor s) (mark_stack_size s - 1) (mark_save_cursor s) MARK_STATE_NORMAL.

Definition choose_state (heap_size : Z) (s : mark_st) : res failure mark_st :=
  let bound := mark_stack_suggest_bound (mark_stack_size s) heap_size in
  _ ← massert (bound <? mark_bound s);
  let s := if mark_top s <? bound
           then mkMark (mem s) (mark_stack s) (mark_top s) 0 bound (mark_save_cursor s) MARK_STATE_COLLECT
           else s in
  _ ← massert (mark_bound s <? mark_stack_size s);
  Ok s.

Definition mark_phase (heap_size : Z) (f : finals) (s : mark_st) : res failure (finals * mark_st) :=
  s ← walk_roots (start_mark s);
  s ← choose_state heap_size s;
  s ← walk_mark_stack s;
  walk_finals f s.

End Mark.
