(* ===== verification/GcLarge.v ===== *)
(** * The set of large objects (src/runtime/gc.c, lines 2032-2145)

    The hash table of circular doubly-linked chains threaded through the large
    objects, as the set of the objects that were added to it. *)

From S2P Require Import Prelude GcHeap GcTiling GcAlloc GcMark.

(** [l] are the nodes from [x], exclusive, to [y], exclusive, linked both ways. *)
Fixpoint linked (m : memory) (x : Z) (l : list Z) (y : Z) : Prop :=
  match l with
  | [] => rd m (x + 8) = y /\ rd m (y + 4) = x
  | n :: l' => rd m (x + 8) = n /\ rd m (n + 4) = x /\ linked m n l' y
  end.

Definition node_acc (m : memory) (n : Z) : Prop := acc m n /\ acc m (n + 4) /\ acc m (n + 8).

(** The 12 bytes of two nodes do not overlap. *)
Definition apart (n n' : Z) : Prop := n + 12 <= n' \/ n' + 12 <= n.

(** The set whose chain [i] has the nodes [C i]. *)
Record large_set (m : memory) (base : Z) (C : Z -> list Z) : Prop := {
  ls_table i : 0 <= i < LARGE_SET_SIZE -> node_acc m (large_node base i) /\ rd m (large_node base i) = 0;
  ls_linked i : 0 <= i < LARGE_SET_SIZE -> linked m (large_node base i) (C i) (large_node base i);
  ls_node i n : 0 <= i < LARGE_SET_SIZE -> n ∈ C i ->
    node_acc m n /\ rd m n <> 0 /\ large_set_hash (rd m n) mod LARGE_SET_SIZE = i;
  ls_outside i n : 0 <= i < LARGE_SET_SIZE -> n ∈ C i -> n + 12 <= base \/ base + 12 * LARGE_SET_SIZE <= n;
  ls_apart i j n n' : 0 <= i < LARGE_SET_SIZE -> 0 <= j < LARGE_SET_SIZE -> n ∈ C i -> n' ∈ C j -> n = n' \/ apart n n';
  ls_nodup i : 0 <= i < LARGE_SET_SIZE -> NoDup (C i) }.

(** The objects in the set. *)
Definition members (m : memory) (C : Z -> list Z) (p : Z) : Prop :=
  exists n, n ∈ C (large_set_hash p mod LARGE_SET_SIZE) /\ rd m n = p.

Lemma large_hash_range p : 0 <= large_set_hash p mod LARGE_SET_SIZE < LARGE_SET_SIZE.
Proof. by apply Z.mod_pos_bound. Qed.

Lemma heads_apart base i j : i <> j -> apart (large_node base i) (large_node base j).
Proof. unfold apart, large_node. lia. Qed.

(** ** Initialization *)

Definition in_table (base lo hi a : Z) : Prop := base + 12 * lo <= a < base + 12 * hi.

Lemma init_sentinels_spec n : forall m base i,
  (forall j, i <= j < i + Z.of_nat n -> node_acc m (large_node base j)) ->
  exists m', init_sentinels n m base i = Ok m' /\
    agree (fun a => ~ in_table base i (i + Z.of_nat n) a) m m' /\
    forall j, i <= j < i + Z.of_nat n -> rd m' (large_node base j) = 0 /\
      rd m' (large_node base j + 4) = large_node base j /\ rd m' (large_node base j + 8) = large_node base j.
Proof.
  induction n as [|n IH]; intros m base i Ha; cbn [init_sentinels].
  - exists m. split_and!; [done|apply agree_refl|lia].
  - destruct (Ha i) as (A0 & A4 & A8); [lia|]. unfold set_node_object, set_node_next, set_node_prev.
    set (h := large_node base i) in *.
    rewrite st_acc by done. cbn [mbind res_bind]. rewrite st_acc by done. cbn [mbind res_bind].
    rewrite st_acc by done. cbn [mbind res_bind].
    set (m1 := upd _ _ _). destruct (IH m1 base (i + 1)) as (m' & -> & Hag & Hz).
    { intros j Hj. apply (Ha j). lia. }
    exists m'. split_and!; [done| |].
    + eapply agree_trans; [|eapply agree_weaken; [exact Hag|]].
      2: { unfold in_table. lia. }
      unfold m1. eapply agree_trans; [|eapply agree_trans]; apply agree_upd; unfold in_table, h, large_node; lia.
    + intros j Hj. destruct (Z.eq_dec j i) as [->|Hne]; [|apply Hz; lia].
      destruct Hag as [_ Hag]. fold h. rewrite !Hag by (unfold in_table, h, large_node; lia).
      unfold m1. rewrite !rd_upd. zcmps.
Qed.

Lemma large_set_init_spec m base : (forall i, 0 <= i < LARGE_SET_SIZE -> node_acc m (large_node base i)) ->
  exists m', large_set_init m base = Ok m' /\ large_set m' base (fun _ => []) /\
    agree (fun a => ~ in_table base 0 LARGE_SET_SIZE a) m m'.
Proof.
  intros Ha. unfold large_set_init.
  destruct (init_sentinels_spec (Z.to_nat LARGE_SET_SIZE) m base 0) as (m' & -> & Hag & Hz).
  { intros j Hj. apply Ha. lia. }
  rewrite Z2Nat.id in * by (unfold LARGE_SET_SIZE; lia).
  exists m'. split_and!; [done| |exact Hag]. split; try (intros; by apply elem_of_nil in H0); try (intros; by apply elem_of_nil in H1).
  - intros i Hi. split; [|apply Hz; lia]. destruct (Ha i Hi) as (? & ? & ?).
    unfold node_acc. by rewrite !(agree_acc _ _ _ _ Hag).
  - intros i Hi. cbn. split; apply Hz; lia.
  - constructor.
Qed.

(** ** Search *)

Lemma linked_first m x l y : linked m x l y -> rd m (x + 8) = hd y l.
Proof. destruct l; cbn; tauto. Qed.

Lemma chain_find_linked m head p : acc m head -> rd m head = 0 -> forall l x k, linked m x l head ->
  (forall n, n ∈ l -> node_acc m n /\ rd m n <> 0) -> (length l <= k)%nat ->
  chain_find k m (hd head l) p = Ok (bool_decide (p ∈ rd m <$> l)).
Proof.
  intros Ha H0. induction l as [|n l IH]; intros x k Hl Hn Hk; cbn [hd].
  - destruct k; cbn [chain_find]; unfold node_object; rewrite ld_acc by done; cbn [mbind res_bind]; by rewrite H0.
  - destruct (Hn n ltac:(constructor)) as ((A0 & A4 & A8) & Hne).
    destruct k as [|k]; cbn in Hk; [lia|]. cbn [chain_find]. unfold node_object. rewrite ld_acc by done. cbn [mbind res_bind].
    rewrite (proj2 (Z.eqb_neq _ _) Hne). destruct (Z.eqb_spec (rd m n) p) as [<-|Hp].
    + rewrite bool_decide_true; [done|]. cbn. constructor.
    + unfold node_next. rewrite ld_acc by done. cbn [mbind res_bind]. cbn [linked] in Hl. destruct Hl as (_ & _ & Hl).
      rewrite (linked_first _ _ _ _ Hl), (IH n) by (try done; try lia; intros; apply Hn; by constructor).
      f_equal. apply bool_decide_ext. cbn. rewrite elem_of_cons. split; [tauto|]. by intros [->|].
Qed.

Lemma elem_of_members m C p : p ∈ rd m <$> C (large_set_hash p mod LARGE_SET_SIZE) <-> members m C p.
Proof. unfold members. rewrite list_elem_of_fmap. split; intros (n & ? & ?); by exists n. Qed.

Lemma large_set_exists_spec fuel m base C p : large_set m base C ->
  (length (C (large_set_hash p mod LARGE_SET_SIZE)%Z) <= fuel)%nat ->
  exists b, large_set_exists fuel m base p = Ok b /\ (b = true <-> members m C p).
Proof.
  intros [T L N O A D] Hf. pose proof (large_hash_range p) as Hr. destruct (T _ Hr) as ((A0 & A4 & A8) & H0).
  unfold large_set_exists, node_next. unfold large_bucket. rewrite ld_acc by done. cbn [mbind res_bind].
  rewrite (linked_first _ _ _ _ (L _ Hr)).
  erewrite chain_find_linked; [|done|done|by apply L| |done].
  - eexists. split; [done|]. by rewrite bool_decide_eq_true, elem_of_members.
  - intros n Hn. destruct (N _ n Hr Hn) as (? & ? & _). done.
Qed.

(** ** Insertion *)

Lemma linked_agree (P : Z -> Prop) m m' y : agree P m m' -> P (y + 4) -> forall l x, linked m x l y -> P (x + 8) ->
  (forall n, n ∈ l -> P (n + 4) /\ P (n + 8)) -> linked m' x l y.
Proof.
  intros [_ Hag] Hy. induction l as [|n l IH]; cbn [linked]; intros x Hl Hx Hn.
  - by rewrite !Hag.
  - destruct (Hn n ltac:(constructor)) as [H4 H8]. rewrite !Hag by done. destruct Hl as (? & ? & ?). split_and!; [done..|].
    apply IH; [done..|]. intros n' Hn'. apply Hn. by constructor.
Qed.

(** A node whose words are none of the set's. *)
Definition fresh_node (base : Z) (C : Z -> list Z) (n : Z) : Prop :=
  (n + 12 <= base \/ base + 12 * LARGE_SET_SIZE <= n) /\
  forall i n', 0 <= i < LARGE_SET_SIZE -> n' ∈ C i -> apart n n'.

Definition with_node (C : Z -> list Z) (i n : Z) : Z -> list Z := fun j => if j =? i then n :: C j else C j.

(** Five words change: the node, the back link of the first node, and the
    forward link of the sentinel. *)
Definition add_words (m : memory) (head node p : Z) : memory :=
  let first := rd m (head + 8) in
  upd (upd (upd (upd (upd m node p) (node + 4) head) (node + 8) first) (first + 4) node) (head + 8) node.

Lemma add_words_agree m head node p :
  agree (fun a => (a < node \/ node + 12 <= a) /\ a <> rd m (head + 8) + 4 /\ a <> head + 8) m (add_words m head node p).
Proof.
  unfold add_words. repeat (eapply agree_trans; [|apply agree_upd; lia]). apply agree_refl.
Qed.

Section Add.
Context (m : memory) (base : Z) (C : Z -> list Z) (p node : Z).
Hypothesis (Hls : large_set m base C) (Hacc : node_acc m node) (Hfresh : fresh_node base C node) (Hp : p <> 0).

Let i := large_set_hash p mod LARGE_SET_SIZE.
Let head := large_node base i.
Let first := rd m (head + 8).
Let m' := add_words m head node p.

Lemma add_first : (first = head /\ C i = [] \/ exists l, C i = first :: l) /\ node_acc m first /\ (first + 12 <= node \/ node + 12 <= first).
Proof.
  pose proof (large_hash_range p) as Hi. fold i in Hi. pose proof (ls_linked _ _ _ Hls i Hi) as Hl. fold head in Hl.
  pose proof (linked_first _ _ _ _ Hl) as Hfirst. fold first in Hfirst. destruct Hfresh as [Hout Hap].
  destruct (C i) as [|n l] eqn:HC; cbn in Hfirst; rewrite Hfirst.
  - split_and!; [by left|by apply (ls_table _ _ _ Hls)|]. unfold head, large_node in *. lia.
  - assert (n ∈ C i) as Hn by (rewrite HC; constructor). split_and!; [right; by exists l|by apply (ls_node _ _ _ Hls i)|].
    destruct (Hap i n Hi Hn); lia.
Qed.

(** The words of the table and of the old nodes that keep their contents. *)
Lemma add_head_words j : 0 <= j < LARGE_SET_SIZE ->
  rd m' (large_node base j) = rd m (large_node base j) /\
  (j <> i -> rd m' (large_node base j + 8) = rd m (large_node base j + 8)) /\
  (j <> i \/ first <> head -> rd m' (large_node base j + 4) = rd m (large_node base j + 4)).
Proof.
  intros Hj. pose proof (large_hash_range p) as Hi. fold i in Hi. destruct Hfresh as [Hout _].
  destruct add_first as (Hf & _ & _).
  assert (first = head \/ (first + 12 <= base \/ base + 12 * LARGE_SET_SIZE <= first)) as Hf'.
  { destruct Hf as [[Hfh _]|[l Hl]]; [by left|right]. apply (ls_outside _ _ _ Hls i); [done|]. rewrite Hl. constructor. }
  destruct (add_words_agree m head node p) as [_ Hag]. fold m' first in Hag.
  unfold head, large_node in *. split_and!; intros; apply Hag; lia.
Qed.

Lemma add_node_words j n : 0 <= j < LARGE_SET_SIZE -> n ∈ C j ->
  rd m' n = rd m n /\ rd m' (n + 8) = rd m (n + 8) /\ (n <> first -> rd m' (n + 4) = rd m (n + 4)).
Proof.
  intros Hj Hn. pose proof (large_hash_range p) as Hi. fold i in Hi. destruct Hfresh as [_ Hap].
  pose proof (Hap j n Hj Hn) as Hnn. pose proof (ls_outside _ _ _ Hls j n Hj Hn) as Hno. destruct add_first as (Hf & _ & _).
  assert (n = first \/ apart n first) as Hnf.
  { destruct Hf as [[Hfh _]|[l Hl]]; [right; rewrite Hfh; unfold apart, head, large_node; lia|].
    apply (ls_apart _ _ _ Hls j i); try done. rewrite Hl. constructor. }
  destruct (add_words_agree m head node p) as [_ Hag]. fold m' first in Hag.
  unfold apart, head, large_node in *. split_and!; intros; apply Hag; lia.
Qed.

Lemma add_linked j l x : 0 <= j < LARGE_SET_SIZE -> linked m x l (large_node base j) -> (forall n, n ∈ l -> n ∈ C j /\ n <> first) ->
  (j <> i \/ first <> head) -> rd m' (x + 8) = rd m (x + 8) -> linked m' x l (large_node base j).
Proof.
  intros Hj Hl Hn Hne Hx. destruct (add_head_words j Hj) as (_ & _ & H4). specialize (H4 Hne).
  apply (linked_agree (fun a => rd m' a = rd m a) m); try done.
  intros n Hin. destruct (Hn n Hin) as [Hin' Hnf]. destruct (add_node_words j n Hj Hin') as (_ & ? & ?). auto.
Qed.

Lemma first_elsewhere j n : 0 <= j < LARGE_SET_SIZE -> j <> i -> n ∈ C j -> n <> first.
Proof.
  intros Hj Hne Hn E. pose proof (large_hash_range p) as Hi. fold i in Hi. destruct add_first as ([[Hf _]|[l Hl]] & _ & _).
  - pose proof (ls_outside _ _ _ Hls j n Hj Hn). rewrite E, Hf in *. unfold head, large_node in *. lia.
  - destruct (ls_node _ _ _ Hls j n Hj Hn) as (_ & _ & Hj').
    destruct (ls_node _ _ _ Hls i n Hi) as (_ & _ & Hi'); [rewrite Hl, E; constructor|]. congruence.
Qed.

Lemma add_linked_all j : 0 <= j < LARGE_SET_SIZE -> linked m' (large_node base j) (with_node C i node j) (large_node base j).
Proof.
  intros Hj. pose proof (ls_linked _ _ _ Hls j Hj) as Hl. unfold with_node.
  destruct (Z.eqb_spec j i) as [->|Hne].
  2: { destruct (add_head_words j Hj) as (_ & H8 & _). apply add_linked; [done|done| |tauto|by apply H8].
       intros n Hn. split; [done|]. by apply (first_elsewhere j). }
  fold head in Hl |- *. destruct add_first as (Hf & _ & Hfn). destruct Hfresh as [Hout Hap].
  assert (head + 12 <= node \/ node + 12 <= head) as Hhn by (unfold head, large_node in *; lia).
  assert (rd m' (head + 8) = node /\ rd m' (node + 4) = head /\ rd m' (node + 8) = first /\ rd m' (first + 4) = node) as (E1 & E2 & E3 & E4).
  { assert (first = head \/ apart first head) as Hfh.
    { destruct Hf as [[Hfh _]|[l Hfl]]; [by left|right]. pose proof (ls_outside _ _ _ Hls i first Hj ltac:(rewrite Hfl; constructor)).
      unfold apart, head, large_node in *. lia. }
    unfold apart in *. unfold m', add_words. fold first. rewrite !rd_upd. zcmps. }
  cbn [linked]. split_and!; [done|done|].
  destruct Hf as [[Hfh HC]|[l HC]]; rewrite HC in *; cbn [linked].
  - rewrite E3, <- Hfh. by rewrite Hfh in *.
  - split_and!; [done|done|]. cbn [linked] in Hl. destruct Hl as (_ & _ & Hl).
    pose proof (ls_nodup _ _ _ Hls i Hj) as Hnd. rewrite HC in Hnd. apply NoDup_cons in Hnd as [Hni _].
    apply add_linked; [done|done| | |].
    + intros n Hn. split; [rewrite HC; by constructor|]. by intros ->.
    + right. intros E. pose proof (ls_outside _ _ _ Hls i first Hj ltac:(rewrite HC; constructor)). unfold head, large_node in *. lia.
    + apply (add_node_words i); [done|]. rewrite HC. constructor.
Qed.

Lemma add_large_set : large_set m' base (with_node C i node).
Proof.
  pose proof (large_hash_range p) as Hi. fold i in Hi. destruct Hfresh as [Hout Hap].
  assert (forall a, acc m' a <-> acc m a) as Hacc' by done.
  assert (rd m' node = p) as Hnode.
  { destruct add_first as (_ & _ & ?). unfold m', add_words, head, large_node in *. fold first. rewrite !rd_upd. zcmps. }
  assert (forall j n, n ∈ with_node C i node j -> n = node /\ j = i \/ n ∈ C j) as Hin.
  { intros j n. unfold with_node. destruct (Z.eqb_spec j i); [|auto]. intros [?|?]%elem_of_cons; auto. }
  split.
  - intros j Hj. destruct (ls_table _ _ _ Hls j Hj) as [? ?]. destruct (add_head_words j Hj) as [-> _]. done.
  - apply add_linked_all.
  - intros j n Hj [[-> ->]|Hn]%Hin; [by rewrite Hnode|]. destruct (add_node_words j n Hj Hn) as [-> _]. by apply (ls_node _ _ _ Hls).
  - intros j n Hj [[-> ->]|Hn]%Hin; [done|]. by apply (ls_outside _ _ _ Hls j).
  - intros j k n n' Hj Hk [[-> ->]|Hn]%Hin [[-> ->]|Hn']%Hin; [by left|right|right|by apply (ls_apart _ _ _ Hls j k)].
    + by apply (Hap k).
    + unfold apart. destruct (Hap j n Hj Hn); lia.
  - intros j Hj. pose proof (ls_nodup _ _ _ Hls j Hj). unfold with_node. destruct (Z.eqb_spec j i); [|done].
    constructor; [|done]. intros Hn. destruct (Hap j node Hj Hn); lia.
Qed.

Lemma add_members q : members m' (with_node C i node) q <-> q = p \/ members m C q.
Proof.
  pose proof (large_hash_range q) as Hq. destruct add_large_set as [_ _ N _ _ _].
  assert (rd m' node = p) as Hnode.
  { destruct Hfresh. destruct add_first as (_ & _ & ?). pose proof (large_hash_range p) as Hi. fold i in Hi.
    unfold m', add_words, head, large_node in *. fold first. rewrite !rd_upd. zcmps. }
  unfold members, with_node. split.
  - intros (n & Hn & Hrd). destruct (Z.eqb_spec (large_set_hash q mod LARGE_SET_SIZE) i).
    + apply elem_of_cons in Hn as [->|Hn]; [left; congruence|]. right. exists n. split; [done|].
      by destruct (add_node_words _ n Hq Hn) as [<- _].
    + right. exists n. split; [done|]. by destruct (add_node_words _ n Hq Hn) as [<- _].
  - intros [->|(n & Hn & Hrd)].
    + exists node. fold i. rewrite Z.eqb_refl. split; [constructor|done].
    + exists n. destruct (add_node_words _ n Hq Hn) as [-> _]. split; [|done].
      destruct (_ =? i); [by constructor|done].
Qed.

End Add.

Lemma large_set_add_run m base C p size : large_set m base C -> node_acc m (large_set_node p size) ->
  fresh_node base C (large_set_node p size) ->
  large_set_add m base p size =
    Ok (add_words m (large_node base (large_set_hash p mod LARGE_SET_SIZE)) (large_set_node p size) p).
Proof.
  intros Hls Ha Hfr. destruct (add_first m base C p _ Hls Hfr) as (_ & (F0 & F4 & F8) & Hfn).
  destruct Ha as (A0 & A4 & A8), Hfr as [Hout Hap]. pose proof (large_hash_range p) as Hi.
  destruct (ls_table _ _ _ Hls _ Hi) as ((B0 & B4 & B8) & _).
  unfold large_set_add, set_node_object, set_node_prev, set_node_next, node_next, large_bucket.
  set (node := large_set_node p size) in *. set (head := large_node base _) in *.
  assert (head + 12 <= node \/ node + 12 <= head) as Hhn by (unfold head, large_node in *; lia).
  rewrite st_acc by done. cbn [mbind res_bind]. rewrite st_acc by done. cbn [mbind res_bind].
  rewrite ld_acc by done. cbn [mbind res_bind]. rewrite !rd_upd_ne by lia.
  rewrite st_acc by done. cbn [mbind res_bind]. rewrite ld_acc by done. cbn [mbind res_bind]. rewrite !rd_upd_ne by lia.
  rewrite st_acc by done. cbn [mbind res_bind]. by rewrite st_acc.
Qed.

(** C39: the hash table of large objects is a set.  Adding an object [p], whose
    links go into the unused words behind it, succeeds and restores the table
    of circular doubly-linked chains; afterwards [large_set_exists] answers,
    for every address, whether it is [p] or was in the set before. *)
Theorem large_set_add_correct (fuel : nat) (m : memory) (base : Z) (C : Z -> list Z) (p size : Z)
    (Hls : large_set m base C) (Ha : node_acc m (large_set_node p size))
    (Hfr : fresh_node base C (large_set_node p size)) (Hp : p <> 0)
    (Hf : forall i, 0 <= i < LARGE_SET_SIZE -> (length (C i) < fuel)%nat) :
  exists m' C', large_set_add m base p size = Ok m' /\ large_set m' base C' /\
    forall q, exists b, large_set_exists fuel m' base q = Ok b /\ (b = true <-> q = p \/ members m C q).
Proof.
  eexists _, _. split_and!; [by eapply large_set_add_run|by apply add_large_set|].
  intros q. pose proof (large_hash_range q) as Hq.
  edestruct (large_set_exists_spec fuel _ base _ q (add_large_set m base C p _ Hls Ha Hfr Hp)) as (b & -> & Hb).
  - specialize (Hf _ Hq). unfold with_node. destruct (_ =? _); cbn; lia.
  - exists b. split; [done|]. by rewrite Hb, add_members.
Qed.

(** The links of a large object fit behind it: in the lump that
    [gc_malloc_large] asks for ([size] and the 12 bytes of the node), the
    aligned node ends before the header of the next lump. *)
Theorem large_set_node_fits (p size : Z) (Hp : 0 < p) (Hal : p mod 8 = 0) (Hs : 0 <= size)
    (Hb : p + lump_size (size + 12) <= 2 ^ 32) (Hm : size + 12 <= max_lump - 48) :
  p + size <= large_set_node p size /\ large_set_node p size mod 4 = 0 /\
  large_set_node p size + 12 <= p + lump_size (size + 12) - GC_HEAD.
Proof.
  destruct (lump_size_spec (size + 12)) as ([? ?] & ?); [lia|].
  unfold large_set_node, max_lump in *. change (- 4) with (- 2 ^ 2).
  rewrite land_neg_pow2 by lia. rewrite (wrapu_small 32 p) by (unfold in_u; lia).
  rewrite (wrapu_small 32 (p + size + 4 - 1)) by (unfold in_u; lia).
  unfold GC_HEAD. change (2 ^ 2) with 4. split_and!; [dmlia|dmlia|dmlia].
Qed.

(** ** Concrete inputs *)

Lemma acc_one lo hi m a : ranges m = [(lo, hi)] -> lo <= a -> a + 4 <= hi -> a mod 4 = 0 -> acc m a.
Proof. intros Hr H1 H2 H3. unfold acc. eapply mapped_in; [rewrite Hr; constructor|done..]. Qed.

Definition ex_blank : memory := mkMem ∅ [(65536, 1048576)].

Lemma ex_table : exists m, large_set_init ex_blank 65536 = Ok m /\ large_set m 65536 (fun _ => []) /\ ranges m = [(65536, 1048576)].
Proof.
  destruct (large_set_init_spec ex_blank 65536) as (m & Hm & Hls & Hr & _).
  - intros i Hi. unfold LARGE_SET_SIZE in Hi.
    unfold node_acc, large_node. split_and!; (eapply acc_one; [done|lia|lia|dmlia]).
  - exists m. split_and!; [exact Hm|exact Hls|exact Hr].
Qed.

Lemma large_set_add_correct_witness : exists m m' C', large_set_init ex_blank 65536 = Ok m /\
  large_set_add m 65536 524288 100 = Ok m' /\ large_set m' 65536 C' /\
  exists b, large_set_exists 5 m' 65536 524288 = Ok b /\ (b = true <-> 524288 = 524288 \/ members m (fun _ => []) 524288).
Proof.
  destruct ex_table as (m & Hm & Hls & Hr).
  destruct (large_set_add_correct 5 m 65536 (fun _ => []) 524288 100) as (m' & C' & Ha & Hls' & Hex).
  - exact Hls.
  - change (large_set_node 524288 100) with 524388. unfold node_acc.
    split_and!; (eapply acc_one; [exact Hr|lia|lia|done]).
  - change (large_set_node 524288 100) with 524388. split; [right; vm_compute; discriminate|]. intros i n' _ Hn. inversion Hn.
  - done.
  - intros i _. cbn. lia.
  - exists m, m', C'. split_and!; [exact Hm|exact Ha|exact Hls'|apply Hex].
Defined.

Lemma large_set_node_fits_witness :
  0 < 65544 /\ 65544 + 2001 <= large_set_node 65544 2001 /\ large_set_node 65544 2001 mod 4 = 0 /\
  large_set_node 65544 2001 + 12 <= 65544 + lump_size (2001 + 12) - GC_HEAD.
Proof.
  split; [done|]. apply (large_set_node_fits 65544 2001); [done|done|done|by vm_compute|by vm_compute].
Defined.
