(* ===== verification/GcReach.v ===== *)
(** * The mark phase marks what is reachable

    The marking algorithm of [GcMark] (mark stack, collecting state, overflow
    rounds) proved against an interface to the heap, [MarkHeap]: which addresses
    are objects, what each refers to, and that the walk functions mark exactly
    that.  [GcObjects] shows that a well-formed heap provides the interface. *)

From S2P Require Import Prelude GcHeap GcTiling GcMark.

(** ** Memories that differ in mark bits only *)

Definition marked (m : memory) (p : Z) : Prop := Z.testbit (hdr m p) 0 = true.

#[export] Instance marked_dec m p : Decision (marked m p).
Proof. unfold marked. apply _. Defined.

(** Equal but for bit 0 of the headers of [objs]. *)
Record same_but_marks (objs : list Z) (m0 m : memory) : Prop := {
  sb_ranges : ranges m = ranges m0;
  sb_rest a : a + 4 ∉ objs -> rd m a = rd m0 a;
  sb_bits a i : 1 <= i -> Z.testbit (rd m a) i = Z.testbit (rd m0 a) i }.

Lemma same_but_marks_refl objs m : same_but_marks objs m m.
Proof. by split. Qed.

#[export] Instance same_but_marks_preorder objs : PreOrder (same_but_marks objs).
Proof.
  split; [intros m; apply same_but_marks_refl|]. intros a b c [R1 E1 B1] [R2 E2 B2]. split; intros.
  - congruence.
  - by rewrite E2, E1.
  - by rewrite B2, B1.
Qed.

Lemma sb_acc objs m0 m a : same_but_marks objs m0 m -> acc m0 a -> acc m a.
Proof. intros H Ha. unfold acc in *. by rewrite (sb_ranges _ _ _ H). Qed.

Lemma mark_bit_test w : (Z.land w MARK_BIT =? 0) = negb (Z.testbit w 0).
Proof. rewrite <- (land_pow2_testbit w 0) by lia. change MARK_BIT with (2 ^ 0). by rewrite negb_involutive. Qed.

Lemma set_mark_same objs m0 m p : same_but_marks objs m0 m -> p ∈ objs ->
  same_but_marks objs m0 (upd m (p - 4) (Z.lor (hdr m p) MARK_BIT)).
Proof.
  intros [R E B] Hp. split; [done| |].
  - intros a Ha. rewrite rd_upd_ne; [by apply E|]. intros <-. by replace (p - 4 + 4) with p in Ha by lia.
  - intros a i Hi. rewrite rd_upd. destruct (Z.eqb_spec (p - 4) a) as [<-|]; [|by apply B].
    rewrite Z.lor_spec. change MARK_BIT with (2 ^ 0). rewrite Z.pow2_bits_false, orb_false_r by lia.
    by apply B.
Qed.

Lemma set_mark_marked m p q : marked (upd m (p - 4) (Z.lor (hdr m p) MARK_BIT)) q <-> marked m q \/ q = p.
Proof.
  unfold marked, hdr. rewrite rd_upd. destruct (Z.eqb_spec (p - 4) (q - 4)).
  - replace q with p by lia. rewrite Z.lor_spec. change (Z.testbit MARK_BIT 0) with true. rewrite orb_true_r. tauto.
  - split; [tauto|]. intros [|]; [done|lia].
Qed.

Lemma list_filter_ext_in {A} (P P' : A -> Prop) `{!forall x, Decision (P x), !forall x, Decision (P' x)} (l : list A) :
  (forall x, x ∈ l -> P x <-> P' x) -> filter P l = filter P' l.
Proof.
  induction l as [|x l IH]; [done|]. intros Hx. rewrite !filter_cons.
  rewrite IH by (intros; apply Hx; by constructor). pose proof (Hx x ltac:(constructor)).
  by destruct (decide (P x)), (decide (P' x)); try tauto.
Qed.

Lemma length_filter_remove {A} (P P' : A -> Prop) `{!forall x, Decision (P x), !forall x, Decision (P' x)} (l : list A) p :
  NoDup l -> p ∈ l -> P p -> ~ P' p -> (forall x, x <> p -> P' x <-> P x) ->
  length (filter P l) = S (length (filter P' l)).
Proof.
  intros Hnd Hp HP HP' Hext. induction Hnd as [|x l Hx Hnd IH]; [by apply elem_of_nil in Hp|].
  apply elem_of_cons in Hp as [->|Hp].
  - rewrite filter_cons_True, filter_cons_False by done. cbn. f_equal.
    f_equal. apply list_filter_ext_in. intros y Hy. symmetry. apply Hext. by intros ->.
  - assert (x <> p) by (by intros ->). specialize (IH Hp). rewrite !filter_cons.
    destruct (decide (P x)) as [Hx1|Hx1], (decide (P' x)) as [Hx2|Hx2]; cbn; rewrite ?IH; try done.
    + destruct Hx2. by apply Hext.
    + destruct Hx1. by apply Hext.
Qed.

Section Reach.
Context (fuel : nat) (e : gc_env) (m0 : memory) (objs : list Z) (refs : Z -> list Z) (root_refs : list Z).

(** A reference the collector may meet: null, an object of the collected heap,
    or memory of the explicitly managed heap, which is always marked. *)
Definition ref_ok (r : Z) : Prop :=
  r = 0 \/ r ∈ objs \/ (r ∉ objs /\ acc m0 (r - 4) /\ marked m0 r).

(** What the mark phase relies on: [objs] are the objects, [refs] what each of
    them refers to and [root_refs] what the roots refer to, however far the
    marking has got. *)
Class MarkHeap : Prop := {
  mh_nodup : NoDup objs;
  mh_not_null p : p ∈ objs -> p <> 0;
  mh_acc p : p ∈ objs -> acc m0 (p - 4);
  mh_is_object m p : same_but_marks objs m0 m -> p ∈ objs -> is_object fuel e m p = Ok true;
  mh_walk s p : same_but_marks objs m0 (mem s) -> p ∈ objs -> WALK fuel e p s = each (mark fuel e) (refs p) s;
  mh_refs p r : p ∈ objs -> r ∈ refs p -> ref_ok r;
  mh_overflow s : same_but_marks objs m0 (mem s) ->
    handle_stack_overflow fuel e s = each (walk_if_marked fuel e) objs s;
  mh_walk_roots s : same_but_marks objs m0 (mem s) -> walk_roots fuel e s = each (mark fuel e) root_refs s;
  mh_root_refs r : r ∈ root_refs -> ref_ok r }.

Context `{MarkHeap}.

Abbreviation mark := (mark fuel e).
Abbreviation N := (Z.of_nat (length objs)).

Definition elems (s : mark_st) : list Z := take (Z.to_nat (mark_top s + 1)) (mark_stack s).
Definition todo (s : mark_st) : nat := length (filter (fun p => ~ marked (mem s) p) objs).

Record stack_ok (s : mark_st) : Prop := {
  so_mem : same_but_marks objs m0 (mem s);
  so_top : -1 <= mark_top s <= mark_bound s;
  so_bound : mark_bound s < mark_stack_size s;
  so_collect : mark_state s = MARK_STATE_COLLECT ->
    mark_bound s < mark_stack_size s - 1 /\ 0 <= mark_cursor s <= mark_top s + 1;
  so_normal : mark_state s <> MARK_STATE_COLLECT -> mark_bound s = mark_stack_size s - 1;
  so_elems p : p ∈ elems s -> p ∈ objs /\ marked (mem s) p;
  so_nodup : NoDup (elems s) }.

Lemma elems_length s : stack_ok s -> Z.of_nat (length (elems s)) = mark_top s + 1.
Proof.
  intros [_ Ht Hb _ _ _ _]. unfold elems, mark_stack_size in *. rewrite length_take. lia.
Qed.

(** Every entry of the stack is a marked object, and none is there twice. *)
Lemma elems_todo s : stack_ok s -> (length (elems s) + todo s <= length objs)%nat.
Proof.
  intros [_ _ _ _ _ He Hn]. unfold todo.
  rewrite <- length_app. apply submseteq_length, NoDup_submseteq.
  - apply NoDup_app. split_and!; [done| |by apply NoDup_filter, mh_nodup].
    intros x Hx [Hu _]%list_elem_of_filter. by apply Hu, He.
  - intros x [Hx|Hx]%elem_of_app; [by apply He|]. by apply list_elem_of_filter in Hx as [_ ?].
Qed.

(** The effect of marking the references [l]. *)
Record marks (l : list Z) (s s' : mark_st) : Prop := {
  mk_ok : stack_ok s';
  mk_marked p : p ∈ objs -> marked (mem s') p <-> marked (mem s) p \/ p ∈ l;
  mk_elems : exists new, elems s' = elems s ++ new /\
    (mark_state s' <> MARK_STATE_OVERFLOW -> forall p, p ∈ objs -> marked (mem s') p -> marked (mem s) p \/ p ∈ new);
  mk_todo : (todo s' + length (elems s') <= todo s + length (elems s))%nat;
  mk_size : mark_stack_size s' = mark_stack_size s;
  mk_overflow : mark_state s' = MARK_STATE_OVERFLOW ->
    mark_state s = MARK_STATE_OVERFLOW \/
    ((todo s' < todo s)%nat /\ mark_stack_size s < N /\ mark_top s' = mark_bound s');
  mk_state : match mark_state s with
    | MARK_STATE_NORMAL => mark_state s' <> MARK_STATE_COLLECT
    | MARK_STATE_OVERFLOW => mark_state s' = MARK_STATE_OVERFLOW
    | MARK_STATE_COLLECT => True
    end;
  mk_cursor : mark_cursor s <= mark_cursor s';
  mk_cursors :
    if bool_decide (mark_state s = MARK_STATE_COLLECT) then
      if bool_decide (mark_state s' = MARK_STATE_COLLECT)
      then mark_cursor s' = mark_cursor s /\ mark_bound s' = mark_bound s
      else mark_save_cursor s' = mark_cursor s /\ mark_bound s' = mark_stack_size s' - 1
    else mark_bound s' = mark_bound s /\ mark_cursor s' = mark_cursor s /\ mark_save_cursor s' = mark_save_cursor s }.


(** ** [mark] *)

Lemma elems_push s p stack : stack_ok s -> zstore (mark_stack s) (mark_top s + 1) p = Some stack ->
  take (Z.to_nat (mark_top s + 1 + 1)) stack = elems s ++ [p].
Proof.
  intros Hs Hst. pose proof (so_top _ Hs). apply zstore_Some in Hst as (Hi & ->). unfold elems.
  replace (Z.to_nat (mark_top s + 1 + 1)) with (S (Z.to_nat (mark_top s + 1))) by lia.
  rewrite (take_S_r _ _ p); [|apply list_lookup_insert_eq; lia]. by rewrite take_insert_ge by lia.
Qed.

(** The memory after [*HEADER(p) |= MARK_BIT]. *)
Definition marking (m : memory) (p : Z) : memory := upd m (p - 4) (Z.lor (hdr m p) MARK_BIT).

Lemma marking_todo s s' p : p ∈ objs -> ~ marked (mem s) p -> mem s' = marking (mem s) p -> todo s = S (todo s').
Proof.
  intros Hp Hu Hm. unfold todo. apply (length_filter_remove _ _ objs p); [apply mh_nodup|done|done| |].
  - rewrite Hm. intros Hc. apply Hc, set_mark_marked. by right.
  - intros x Hx. rewrite Hm. unfold marking. rewrite set_mark_marked. tauto.
Qed.

Lemma stack_ok_marking s s' p : stack_ok s -> p ∈ objs -> mem s' = marking (mem s) p ->
  elems s' = elems s \/ (elems s' = elems s ++ [p] /\ ~ marked (mem s) p) ->
  same_but_marks objs m0 (mem s') /\ (forall q, q ∈ elems s' -> q ∈ objs /\ marked (mem s') q) /\ NoDup (elems s').
Proof.
  intros [Hm _ _ _ _ He Hn] Hp -> Hel. split; [by apply set_mark_same|]. unfold marking.
  assert (forall q, q ∈ elems s -> q ∈ objs /\ (marked (mem s) q \/ q = p)) as Hold by (intros q Hq; split; [|left]; by apply He).
  destruct Hel as [->|[-> Hu]]; split.
  - intros q Hq. rewrite set_mark_marked. auto.
  - done.
  - intros q [Hq|Hq]%elem_of_app; rewrite set_mark_marked; [auto|]. apply list_elem_of_singleton in Hq as ->. auto.
  - apply NoDup_app. split_and!; [done| |apply NoDup_singleton].
    intros q Hq ->%list_elem_of_singleton. by apply Hu, He.
Qed.

(** Marking a reference there is nothing to do for. *)
Lemma marks_nothing s r : stack_ok s -> (r ∈ objs -> marked (mem s) r) -> marks [r] s s.
Proof.
  intros Hs Hr. split; try done.
  - intros p Hp. rewrite list_elem_of_singleton. split; [tauto|]. by intros [| ->]; auto.
  - exists []. rewrite app_nil_r. split; [done|]. tauto.
  - tauto.
  - by destruct (mark_state s).
  - by destruct (mark_state s).
Qed.

(** Marking and pushing [r], without or with the change of state. *)
Lemma marks_push s r s' stack : stack_ok s -> r ∈ objs -> ~ marked (mem s) r ->
  zstore (mark_stack s) (mark_top s + 1) r = Some stack ->
  mem s' = marking (mem s) r -> mark_stack s' = stack -> mark_top s' = mark_top s + 1 ->
  (mark_cursor s' = mark_cursor s /\ mark_bound s' = mark_bound s /\ mark_save_cursor s' = mark_save_cursor s /\
   mark_state s' = mark_state s /\ mark_top s < mark_bound s \/
   mark_cursor s' = mark_top s + 2 /\ mark_bound s' = mark_stack_size s - 1 /\ mark_save_cursor s' = mark_cursor s /\
   mark_state s' = MARK_STATE_NORMAL /\ mark_state s = MARK_STATE_COLLECT) ->
  marks [r] s s'.
Proof.
  intros Hs Hr Hu Hst Hm Hstk Htop Hrest. pose proof (so_top _ Hs) as Ht. pose proof (so_bound _ Hs) as Hb.
  pose proof (so_collect _ Hs) as Hc.
  assert (elems s' = elems s ++ [r]) as Hel.
  { unfold elems at 1. rewrite Hstk, Htop. by apply elems_push. }
  destruct (stack_ok_marking s s' r Hs Hr Hm (or_intror (conj Hel Hu))) as (Hmem & Hes & Hnd).
  assert (mark_stack_size s' = mark_stack_size s) as Hsz.
  { unfold mark_stack_size. rewrite Hstk. by erewrite zstore_length. }
  pose proof (marking_todo s s' r Hr Hu Hm) as Htodo.
  split; try done.
  - split; [done| | | | |done|done].
    + rewrite Htop. destruct Hrest as [(_ & -> & _ & _ & ?)|(_ & -> & _ & _ & Hst')]; [lia|].
      specialize (Hc Hst'). lia.
    + rewrite Hsz. destruct Hrest as [(_ & -> & _)|(_ & -> & _)]; lia.
    + rewrite Hsz, Htop. destruct Hrest as [(-> & -> & _ & -> & _)|(_ & _ & _ & -> & _)]; [|done].
      intros Hcs. specialize (Hc Hcs). lia.
    + rewrite Hsz. destruct Hrest as [(_ & -> & _ & -> & _)|(_ & -> & _)]; [apply (so_normal _ Hs)|done].
  - intros p Hp. rewrite Hm, list_elem_of_singleton. apply set_mark_marked.
  - exists [r]. split; [done|]. intros _ p Hp. rewrite Hm, list_elem_of_singleton. apply set_mark_marked.
  - rewrite Hel, length_app. cbn. lia.
  - intros Ho. left. destruct Hrest as [(_ & _ & _ & <- & _)|(_ & _ & _ & E & _)]; [done|congruence].
  - destruct Hrest as [(_ & _ & _ & -> & _)|(_ & _ & _ & -> & ->)]; [by destruct (mark_state s)|done].
  - destruct Hrest as [(-> & _)|(-> & _ & _ & _ & Hcs)]; [lia|]. specialize (Hc Hcs). lia.
  - destruct Hrest as [(-> & -> & -> & -> & _)|(-> & -> & -> & -> & Hcs)].
    + by case_bool_decide.
    + rewrite !bool_decide_true, bool_decide_false by done. by rewrite Hsz.
Qed.

(** Marking [r] when there is no room for it. *)
Lemma marks_overflow s r : stack_ok s -> r ∈ objs -> ~ marked (mem s) r -> mark_state s <> MARK_STATE_COLLECT ->
  mark_bound s <= mark_top s ->
  marks [r] s (set_state MARK_STATE_OVERFLOW (set_mem (marking (mem s) r) s)).
Proof.
  intros Hs Hr Hu Hst Htb. set (s' := set_state _ _).
  destruct (stack_ok_marking s s' r Hs Hr eq_refl (or_introl eq_refl)) as (Hmem & Hes & Hnd).
  pose proof (marking_todo s s' r Hr Hu eq_refl) as Htodo.
  pose proof (so_top _ Hs). pose proof (so_bound _ Hs). pose proof (elems_length _ Hs). pose proof (elems_todo _ Hs).
  pose proof (so_normal _ Hs Hst) as Hn. split; try done.
  - intros p Hp. rewrite list_elem_of_singleton. apply set_mark_marked.
  - exists []. by rewrite app_nil_r.
  - change (elems s') with (elems s). lia.
  - intros _. right. split_and!; cbn; lia.
  - by destruct (mark_state s).
  - by rewrite bool_decide_false.
Qed.

Lemma mark_header_acc m p : acc m (p - 4) -> HEADER m p = Ok (hdr m p).
Proof. intros Ha. by apply ld_acc. Qed.

Lemma marked_off_objs m p : same_but_marks objs m0 m -> p ∉ objs -> marked m p <-> marked m0 p.
Proof.
  intros Hm Hp. unfold marked, hdr. rewrite (sb_rest _ _ _ Hm); [done|]. by replace (p - 4 + 4) with p by lia.
Qed.

Lemma mark_spec s r : stack_ok s -> ref_ok r -> exists s', mark r s = Ok s' /\ marks [r] s s'.
Proof.
  intros Hs Hr. pose proof (so_mem _ Hs) as Hm. pose proof (so_top _ Hs). pose proof (so_bound _ Hs).
  pose proof (so_collect _ Hs) as Hc. unfold GcMark.mark. destruct (Z.eqb_spec r 0) as [->|Hr0].
  { exists s. split; [done|]. apply marks_nothing; [done|]. by intros ?%mh_not_null. }
  assert (acc (mem s) (r - 4)) as Ha.
  { apply (sb_acc objs m0); [done|]. destruct Hr as [|[?|(_ & ? & _)]]; [done|by apply mh_acc|done]. }
  rewrite mark_header_acc by done. cbn [mbind res_bind]. rewrite mark_bit_test, negb_involutive.
  destruct (Z.testbit (hdr (mem s) r) 0) eqn:Ht.
  { exists s. split; [done|]. by apply marks_nothing. }
  assert (~ marked (mem s) r) as Hu by (unfold marked; by rewrite Ht).
  destruct Hr as [|[Hr|(Hr & _ & Hmk)]]; [done| |by rewrite marked_off_objs in Hu].
  rewrite (mh_is_object (mem s) r) by done. cbn [mbind res_bind massert assert_or].
  unfold set_HEADER, GC_HEAD. rewrite st_acc by done. cbn [mbind res_bind]. fold (marking (mem s) r).
  set (s1 := set_mem (marking (mem s) r) s). cbn zeta.
  assert (forall c b sv t, mark_top s + 1 < mark_stack_size s ->
    exists stack, zstore (mark_stack s) (mark_top s + 1) r = Some stack /\
      push r (mkMark (mem s1) (mark_stack s) (mark_top s) c b sv t) =
        Ok (mkMark (mem s1) stack (mark_top s + 1) c b sv t)) as Hpush.
  { intros c b sv t Hlt. eexists. split; [apply zstore_is_Some; unfold mark_stack_size in *; lia|].
    unfold push. cbn [mark_stack mark_top]. by rewrite zstore_is_Some by (unfold mark_stack_size in *; lia). }
  change (mark_top s1) with (mark_top s). change (mark_bound s1) with (mark_bound s). change (mark_state s1) with (mark_state s).
  destruct (Z.ltb_spec (mark_top s) (mark_bound s)) as [Hlt|Hge].
  - edestruct (Hpush (mark_cursor s)) as (stack & Hst & Hp); [lia|].
    eexists. split; [exact Hp|]. eapply marks_push; try done. left. by split_and!.
  - destruct (mark_state s) eqn:Est.
    + specialize (Hc eq_refl). edestruct (Hpush (mark_top s + 2)) as (stack & Hst & Hp); [lia|].
      eexists. split; [exact Hp|]. eapply marks_push; try done. right. by split_and!.
    + eexists. split; [done|]. apply marks_overflow; try done. by rewrite Est.
    + eexists. split; [done|]. apply marks_overflow; try done. by rewrite Est.
Qed.

Lemma marks_refl s : stack_ok s -> marks [] s s.
Proof.
  intros Hs. split; try done.
  - intros p _. rewrite elem_of_nil. tauto.
  - exists []. rewrite app_nil_r. tauto.
  - tauto.
  - by destruct (mark_state s).
  - by destruct (mark_state s).
Qed.

Lemma marks_top l s s' : stack_ok s -> marks l s s' -> mark_top s <= mark_top s'.
Proof.
  intros Hs Hm. destruct (mk_elems _ _ _ Hm) as (new & Hel & _). apply (f_equal length) in Hel.
  rewrite length_app in Hel. pose proof (elems_length _ Hs). pose proof (elems_length _ (mk_ok _ _ _ Hm)). lia.
Qed.

Lemma marks_trans l1 l2 s s1 s2 : stack_ok s -> marks l1 s s1 -> marks l2 s1 s2 -> marks (l1 ++ l2) s s2.
Proof.
  intros Hs M1 M2. pose proof (marks_top _ _ _ (mk_ok _ _ _ M1) M2) as Htop.
  destruct M1 as [O1 K1 (n1 & E1 & N1) T1 Z1 V1 S1 C1 R1], M2 as [O2 K2 (n2 & E2 & N2) T2 Z2 V2 S2 C2 R2].
  assert (mark_state s1 = MARK_STATE_OVERFLOW -> mark_state s2 = MARK_STATE_OVERFLOW) as Hov.
  { intros E. by rewrite E in S2. }
  split.
  - done.
  - intros p Hp. rewrite K2, K1, elem_of_app by done. tauto.
  - exists (n1 ++ n2). split; [by rewrite E2, E1, app_assoc|]. intros Hno p Hp Hmk.
    rewrite elem_of_app. destruct (N2 Hno p Hp Hmk) as [Hmk1|]; [|tauto].
    destruct (N1 (fun E => Hno (Hov E)) p Hp Hmk1); tauto.
  - lia.
  - congruence.
  - intros Ho. destruct (V2 Ho) as [Ho1|(Hlt & Hsz & Heq)].
    + destruct (V1 Ho1) as [|(? & ? & Heq1)]; [by left|]. right.
      assert (mark_bound s2 = mark_bound s1) as Hb2 by (rewrite bool_decide_false in R2 by congruence; apply R2).
      split_and!; [|done|].
      * rewrite E2, length_app in T2. lia.
      * pose proof (so_top _ O2). lia.
    + right. rewrite E1, length_app in T1. split_and!; [lia|lia|done].
  - destruct (mark_state s) eqn:Es, (mark_state s1) eqn:Es1; try done; congruence.
  - lia.
  - destruct (mark_state s) eqn:Es, (mark_state s1) eqn:Es1, (mark_state s2) eqn:Es2;
      repeat first [rewrite bool_decide_true in * by done | rewrite bool_decide_false in * by done]; try done;
      destruct_and?; split_and?; congruence.
Qed.

Lemma each_mark_spec l : forall s, stack_ok s -> (forall r, r ∈ l -> ref_ok r) ->
  exists s', each mark l s = Ok s' /\ marks l s s'.
Proof.
  induction l as [|r l IH]; intros s Hs Hl; cbn [each].
  - exists s. split; [done|by apply marks_refl].
  - destruct (mark_spec s r Hs (Hl r ltac:(constructor))) as (s1 & -> & M1). cbn [mbind res_bind].
    destruct (IH s1 (mk_ok _ _ _ M1)) as (s2 & E2 & M2); [intros; apply Hl; by constructor|].
    exists s2. split; [done|]. by apply (marks_trans [r] l s s1 s2).
Qed.

Lemma walk_spec s p : stack_ok s -> p ∈ objs -> exists s', WALK fuel e p s = Ok s' /\ marks (refs p) s s'.
Proof.
  intros Hs Hp. rewrite mh_walk by (done || apply Hs). apply each_mark_spec; [done|].
  intros r Hr. by apply (mh_refs p).
Qed.

(** ** Reachability and the invariant of marking *)

Inductive reach (rs : list Z) : Z -> Prop :=
| reach_root p : p ∈ rs -> p ∈ objs -> reach rs p
| reach_ref p q : reach rs p -> q ∈ refs p -> q ∈ objs -> reach rs q.

Lemma reach_objs rs p : reach rs p -> p ∈ objs.
Proof. by destruct 1. Qed.

Lemma reach_mono rs rs' p : (forall q, q ∈ rs -> q ∈ rs') -> reach rs p -> reach rs' p.
Proof.
  intros Hsub. induction 1 as [p Hp Ho|p q Hp IH Hq Ho]; [by apply reach_root; [apply Hsub|]|by eapply reach_ref].
Qed.

Definition closed (s : mark_st) (p : Z) : Prop := forall q, q ∈ refs p -> q ∈ objs -> marked (mem s) q.

(** What is marked is reachable; the roots are marked; what is marked is among
    the pending objects [P] or has its references marked, unless an overflow
    has to be dealt with. *)
Record inv (rs P : list Z) (s : mark_st) : Prop := {
  iv_ok : stack_ok s;
  iv_sound p : p ∈ objs -> marked (mem s) p -> reach rs p;
  iv_roots p : p ∈ rs -> p ∈ objs -> marked (mem s) p;
  iv_closed : mark_state s <> MARK_STATE_OVERFLOW -> forall p, p ∈ objs -> marked (mem s) p -> p ∈ P \/ closed s p }.

Lemma marks_not_overflow l s s' : marks l s s' -> mark_state s' <> MARK_STATE_OVERFLOW -> mark_state s <> MARK_STATE_OVERFLOW.
Proof. intros Hm Hno E. apply Hno. pose proof (mk_state _ _ _ Hm) as Hs. by rewrite E in Hs. Qed.

Lemma closed_marks l s s' p : marks l s s' -> closed s p -> closed s' p.
Proof. intros Hm Hc q Hq Ho. apply (mk_marked _ _ _ Hm); [done|]. left. by apply Hc. Qed.

(** With nothing pending and no overflow, marked means reachable. *)
Lemma inv_done rs s : inv rs [] s -> mark_state s <> MARK_STATE_OVERFLOW ->
  forall p, p ∈ objs -> marked (mem s) p <-> reach rs p.
Proof.
  intros Hi Hno p Hp. split; [by apply (iv_sound _ _ _ Hi)|]. clear Hp.
  induction 1 as [p Hr Ho|p q Hp IH Hq Ho]; [by apply (iv_roots _ _ _ Hi)|].
  destruct (iv_closed _ _ _ Hi Hno p (reach_objs _ _ Hp) IH) as [[]%elem_of_nil|Hc]. by apply Hc.
Qed.

Lemma inv_weaken rs P P' s : inv rs P s ->
  (forall p, p ∈ P -> marked (mem s) p -> p ∈ P' \/ closed s p) -> inv rs P' s.
Proof.
  intros [O S R C] HP. split; [done..|]. intros Hno p Hp Hm. destruct (C Hno p Hp Hm) as [Hin|]; [by apply HP|by right].
Qed.

(** Marking references to reachable objects makes the newly pushed ones pending. *)
Lemma inv_marks rs rs' P l s s' : inv rs P s -> marks l s s' -> (forall q, q ∈ rs -> q ∈ rs') ->
  (forall r, r ∈ l -> r ∈ objs -> reach rs' r) -> (forall r, r ∈ rs' -> r ∈ rs \/ r ∈ l) ->
  exists new, elems s' = elems s ++ new /\ inv rs' (P ++ new) s'.
Proof.
  intros [O S R C] Hm Hsub Hl Hrs. destruct (mk_elems _ _ _ Hm) as (new & Hel & Hnew). exists new. split; [done|].
  pose proof (mk_marked _ _ _ Hm) as K. split.
  - apply (mk_ok _ _ _ Hm).
  - intros p Hp [Hmk|Hin]%K; [|by apply Hl|done]. eapply reach_mono; [exact Hsub|by apply S].
  - intros p Hp Ho. apply K; [done|]. destruct (Hrs p Hp); [left; by apply R|by right].
  - intros Hno p Hp Hmk. rewrite elem_of_app. destruct (Hnew Hno p Hp Hmk) as [Hold|]; [|tauto].
    destruct (C (marks_not_overflow _ _ _ Hm Hno) p Hp Hold); [tauto|]. right. by eapply closed_marks.
Qed.

(** Walking a marked object takes it off the pending ones. *)
Lemma inv_walk rs P P' p s : inv rs P s -> p ∈ objs -> marked (mem s) p -> (forall q, q ∈ P -> q = p \/ q ∈ P') ->
  exists s' new, WALK fuel e p s = Ok s' /\ marks (refs p) s s' /\ elems s' = elems s ++ new /\ inv rs (P' ++ new) s'.
Proof.
  intros Hi Hp Hmk HP. destruct (walk_spec s p (iv_ok _ _ _ Hi) Hp) as (s' & Hw & Hm).
  pose proof (iv_sound _ _ _ Hi p Hp Hmk) as Hr.
  destruct (inv_marks rs rs P (refs p) s s' Hi Hm) as (new & Hel & Hi'); [done| |tauto|].
  { intros r Hin Ho. by eapply reach_ref. }
  exists s', new. split_and!; [done..|]. eapply inv_weaken; [done|].
  intros q. rewrite !elem_of_app. intros [Hq|]; [|tauto]. destruct (HP q Hq) as [->|]; [|tauto].
  intros _. right. intros r Hin Ho. apply (mk_marked _ _ _ Hm); tauto.
Qed.

(** ** Emptying the stack *)

Lemma elems_pop s : stack_ok s -> 0 <= mark_top s -> exists p,
  stack_at s (mark_top s) = Ok p /\ elems s = elems (set_top (mark_top s - 1) s) ++ [p].
Proof.
  intros Hs Ht. pose proof (so_top _ Hs). pose proof (so_bound _ Hs). unfold mark_stack_size in *.
  destruct (zlookup_is_Some (mark_stack s) (mark_top s)) as [p Hp]; [lia|].
  exists p. unfold stack_at. rewrite Hp. split; [done|]. unfold elems. cbn.
  replace (Z.to_nat (mark_top s + 1)) with (S (Z.to_nat (mark_top s - 1 + 1))) by lia.
  apply take_S_r. apply zlookup_Some in Hp as [_ Hp]. by replace (Z.to_nat (mark_top s - 1 + 1)) with (Z.to_nat (mark_top s)) by lia.
Qed.

Lemma stack_ok_pop s p : stack_ok s -> 0 <= mark_top s -> mark_state s <> MARK_STATE_COLLECT ->
  elems s = elems (set_top (mark_top s - 1) s) ++ [p] -> stack_ok (set_top (mark_top s - 1) s).
Proof.
  intros [Om Ot Ob Oc On Oe Od] Ht Hst Hel. split; cbn; try done; try lia.
  - intros q Hq. apply Oe. rewrite Hel, elem_of_app. by left.
  - rewrite Hel in Od. by apply NoDup_app in Od as [? _].
Qed.

(** What a stage of marking leaves: the sizes, the progress made, and why an
    overflow can have happened. *)
Record progress (s s' : mark_st) : Prop := {
  pr_size : mark_stack_size s' = mark_stack_size s;
  pr_todo : (todo s' <= todo s)%nat;
  pr_overflow : mark_state s' = MARK_STATE_OVERFLOW ->
    mark_state s = MARK_STATE_OVERFLOW \/ ((todo s' < todo s)%nat /\ mark_stack_size s < N) }.

#[local] Instance progress_preorder : PreOrder progress.
Proof.
  split; [intros s; split; auto|]. intros a b c [Z1 T1 V1] [Z2 T2 V2]. split; [congruence|lia|].
  intros Ho. destruct (V2 Ho) as [Ho1|[? ?]]; [|right; split; lia]. destruct (V1 Ho1) as [|[? ?]]; [by left|right; split; lia].
Qed.

Lemma marks_progress l s s' : marks l s s' -> progress s s'.
Proof.
  intros Hm. pose proof (mk_todo _ _ _ Hm). destruct (mk_elems _ _ _ Hm) as (new & Hel & _).
  apply (f_equal length) in Hel. rewrite length_app in Hel. split.
  - apply (mk_size _ _ _ Hm).
  - lia.
  - intros Ho. destruct (mk_overflow _ _ _ Hm Ho) as [|(? & ? & _)]; auto.
Qed.

Lemma drain_spec rs : forall n s, inv rs (elems s) s -> mark_state s <> MARK_STATE_COLLECT ->
  (length (elems s) + todo s <= n)%nat ->
  exists s', drain fuel e n s = Ok s' /\ inv rs [] s' /\ mark_state s' <> MARK_STATE_COLLECT /\ elems s' = [] /\ progress s s'.
Proof.
  induction n as [|n IH]; intros s Hi Hst Hn; pose proof (elems_length _ (iv_ok _ _ _ Hi)) as Hlen;
    pose proof (so_top _ (iv_ok _ _ _ Hi)) as Htop.
  all: destruct (Z.leb_spec 0 (mark_top s)) as [Ht|Ht].
  all: try (exists s; assert (elems s = []) as He by (apply length_zero_iff_nil; lia); rewrite He in Hi;
    cbn [drain]; rewrite (proj2 (Z.leb_gt _ _) Ht); by split_and!).
  { lia. }
  cbn [drain]. rewrite (proj2 (Z.leb_le _ _) Ht).
  destruct (elems_pop s (iv_ok _ _ _ Hi) Ht) as (p & -> & Hel). cbn [mbind res_bind].
  set (s1 := set_top (mark_top s - 1) s) in *. change (mark_state s1) with (mark_state s) in *.
  assert (stack_ok s1) as O1 by (by eapply stack_ok_pop; [apply Hi| | |]).
  destruct (so_elems _ (iv_ok _ _ _ Hi) p) as [Hp Hmk]; [rewrite Hel, elem_of_app, list_elem_of_singleton; tauto|].
  assert (inv rs (elems s) s1) as Hi1 by (destruct Hi; by split).
  destruct (inv_walk rs (elems s) (elems s1) p s1 Hi1 Hp Hmk) as (s2 & new & -> & Hm & Hel2 & Hi2).
  { intros q. rewrite Hel, elem_of_app, list_elem_of_singleton. tauto. }
  cbn [mbind res_bind]. rewrite <- Hel2 in Hi2. pose proof (mk_todo _ _ _ Hm) as Htd. change (todo s1) with (todo s) in Htd.
  rewrite Hel, length_app in Hn. cbn in Hn.
  assert (mark_state s2 <> MARK_STATE_COLLECT) as Hst2.
  { pose proof (mk_state _ _ _ Hm) as Hms. change (mark_state s1) with (mark_state s) in Hms. destruct (mark_state s); congruence. }
  destruct (IH s2 Hi2 Hst2) as (s' & -> & Hi' & Hst' & He' & Hpr); [lia|].
  exists s'. split_and!; try done. transitivity s2; [|done]. destruct (marks_progress _ s1 s2 Hm). by split.
Qed.

(** ** Overflow *)

Lemma walk_if_marked_spec rs l p s : inv rs (elems s ++ p :: l) s -> p ∈ objs -> mark_state s <> MARK_STATE_COLLECT ->
  exists s', walk_if_marked fuel e p s = Ok s' /\ inv rs (elems s' ++ l) s' /\ mark_state s' <> MARK_STATE_COLLECT /\ progress s s'.
Proof.
  intros Hi Hp Hst. unfold walk_if_marked.
  rewrite mark_header_acc by (eapply sb_acc; [apply Hi|by apply mh_acc]). cbn [mbind res_bind].
  rewrite mark_bit_test, negb_involutive. destruct (Z.testbit (hdr (mem s) p) 0) eqn:Ht.
  - destruct (inv_walk rs (elems s ++ p :: l) (elems s ++ l) p s) as (s' & new & -> & Hm & Hel & Hi'); try done.
    { intros q. rewrite !elem_of_app, elem_of_cons. tauto. }
    exists s'. split_and!; [done| | |by eapply marks_progress].
    + eapply inv_weaken; [done|]. intros q. rewrite Hel, !elem_of_app. tauto.
    + pose proof (mk_state _ _ _ Hm). destruct (mark_state s); congruence.
  - exists s. split_and!; [done| |done|done]. eapply inv_weaken; [done|].
    intros q. rewrite !elem_of_app, elem_of_cons. intros [|[->|]]; [tauto| |tauto]. unfold marked. by rewrite Ht.
Qed.

Lemma each_walk_if_marked rs l : forall s, inv rs (elems s ++ l) s -> (forall p, p ∈ l -> p ∈ objs) ->
  mark_state s <> MARK_STATE_COLLECT ->
  exists s', each (walk_if_marked fuel e) l s = Ok s' /\ inv rs (elems s') s' /\ mark_state s' <> MARK_STATE_COLLECT /\ progress s s'.
Proof.
  induction l as [|p l IH]; intros s Hi Hl Hst; cbn [each].
  - exists s. rewrite app_nil_r in Hi. by split_and!.
  - destruct (walk_if_marked_spec rs l p s Hi) as (s1 & -> & Hi1 & Hst1 & Hp1); [apply Hl; by constructor|done|].
    cbn [mbind res_bind]. destruct (IH s1 Hi1) as (s' & -> & Hi' & Hst' & Hp'); [intros; apply Hl; by constructor|done|].
    exists s'. split_and!; try done. by transitivity s1.
Qed.

Lemma overflow_spec rs P s : inv rs P s -> mark_state s = MARK_STATE_OVERFLOW ->
  exists s', handle_stack_overflow fuel e (set_state MARK_STATE_NORMAL s) = Ok s' /\
    inv rs (elems s') s' /\ mark_state s' <> MARK_STATE_COLLECT /\ progress (set_state MARK_STATE_NORMAL s) s'.
Proof.
  intros [[Om Ot Ob Oc On Oe Od] S R C] Hst. rewrite mh_overflow by done. apply each_walk_if_marked; [|done..].
  split; [|done|done|].
  - split; try done. intros _. apply On. by rewrite Hst.
  - intros _ p Hp _. left. rewrite elem_of_app. by right.
Qed.

Definition overflowed (s : mark_st) : nat := if bool_decide (mark_state s = MARK_STATE_OVERFLOW) then 1 else 0.

Lemma progress_overflowed s s' : progress s s' -> (todo s' + overflowed s' <= todo s + overflowed s)%nat.
Proof.
  intros [_ Ht Hv]. unfold overflowed. repeat case_bool_decide; try lia. destruct Hv; [done|done|lia].
Qed.

Lemma mark_rounds_spec rs : (length objs <= fuel)%nat -> forall n s, inv rs (elems s) s -> mark_state s <> MARK_STATE_COLLECT ->
  (todo s + overflowed s <= n)%nat ->
  exists s', mark_rounds fuel e n s = Ok s' /\ inv rs [] s' /\ mark_state s' = MARK_STATE_NORMAL /\ elems s' = [] /\
    mark_stack_size s' = mark_stack_size s.
Proof.
  intros Hfuel n. induction n as [|n IH]; intros s Hi Hst Hn; cbn [mark_rounds];
    pose proof (elems_todo _ (iv_ok _ _ _ Hi));
    (destruct (drain_spec rs fuel s Hi Hst) as (s1 & -> & Hi1 & Hst1 & He1 & Hp1); [lia|]); cbn [mbind res_bind];
    pose proof (progress_overflowed _ _ Hp1) as Hov; unfold overflowed at 1 in Hov; case_bool_decide as Ho.
  2, 4: exists s1; assert (mark_state s1 = MARK_STATE_NORMAL) as E by (by destruct (mark_state s1));
    rewrite bool_decide_true by done; split_and!; try done; apply Hp1.
  { lia. }
  destruct (overflow_spec rs _ s1 Hi1 Ho) as (s2 & -> & Hi2 & Hst2 & Hp2). cbn [mbind res_bind].
  pose proof (progress_overflowed _ _ Hp2) as Hov2. change (overflowed (set_state MARK_STATE_NORMAL s1)) with 0%nat in Hov2.
  change (todo (set_state MARK_STATE_NORMAL s1)) with (todo s1) in Hov2.
  destruct (IH s2 Hi2 Hst2) as (s' & -> & Hi' & Hst' & He' & Hz'); [lia|].
  exists s'. split_and!; try done. rewrite Hz', (pr_size _ _ Hp2). apply (pr_size _ _ Hp1).
Qed.

(** ** Collecting the live objects *)

Definition collecting (s : mark_st) : bool := bool_decide (mark_state s = MARK_STATE_COLLECT).

(** The first entry of the stack that has not been walked, or the one from which
    the stack is walked again after collecting was given up. *)
Definition start (s : mark_st) : Z := if collecting s then mark_cursor s else mark_save_cursor s.

(** While collecting, the stack holds every marked object. *)
Definition all_in_stack (s : mark_st) : Prop :=
  mark_state s = MARK_STATE_COLLECT -> forall p, p ∈ objs -> marked (mem s) p -> p ∈ elems s.

Record collect_inv (rs : list Z) (s : mark_st) : Prop := {
  ci_inv : inv rs (drop (Z.to_nat (start s)) (elems s)) s;
  ci_start : 0 <= start s <= mark_top s + 1;
  ci_cursor : 0 <= mark_cursor s;
  ci_all : all_in_stack s }.

Lemma all_in_stack_marks l s s' : all_in_stack s -> marks l s s' -> all_in_stack s'.
Proof.
  intros Ha Hm Hc p Hp Hmk. destruct (mk_elems _ _ _ Hm) as (new & -> & Hnew). rewrite elem_of_app.
  destruct (Hnew ltac:(congruence) p Hp Hmk) as [Hold|]; [|tauto]. left. apply Ha; [|done..].
  pose proof (mk_state _ _ _ Hm). destruct (mark_state s); congruence.
Qed.

Lemma stack_entry s i : stack_ok s -> 0 <= i <= mark_top s -> exists p, stack_at s i = Ok p /\ elems s !! Z.to_nat i = Some p.
Proof.
  intros Hs Hi. pose proof (so_top _ Hs). pose proof (so_bound _ Hs). unfold mark_stack_size in *.
  destruct (zlookup_is_Some (mark_stack s) i) as [p Hp]; [lia|].
  exists p. unfold stack_at. rewrite Hp. split; [done|]. apply zlookup_Some in Hp as [_ Hp].
  unfold elems. by rewrite lookup_take_lt by lia.
Qed.

Lemma stack_ok_cursor s c : stack_ok s -> (mark_state s = MARK_STATE_COLLECT -> 0 <= c <= mark_top s + 1) ->
  stack_ok (set_cursor c s).
Proof. intros [Om Ot Ob Oc On Oe Od] Hc. split; try done. intros Hst. split; [by apply Oc|by apply Hc]. Qed.

Lemma collect_step rs s : collect_inv rs s -> mark_cursor s <= mark_top s ->
  exists p s', stack_at s (mark_cursor s) = Ok p /\ WALK fuel e p s = Ok s' /\ marks (refs p) s s' /\
    collect_inv rs (set_cursor (mark_cursor s' + 1) s').
Proof.
  intros [Hi Hst Hcur Hall] Hle. pose proof (iv_ok _ _ _ Hi) as Hs. pose proof (elems_length _ Hs) as Hlen.
  destruct (stack_entry s (mark_cursor s) Hs) as (p & Hat & Hlk); [lia|].
  destruct (so_elems _ Hs p) as [Hp Hmk]; [by eapply list_elem_of_lookup_2|].
  destruct (inv_walk rs _ (drop (Z.to_nat (start s) + if collecting s then 1 else 0) (elems s)) p s Hi Hp Hmk)
    as (s' & new & Hw & Hm & Hel & Hi').
  { intros q. unfold start. destruct (collecting s); rewrite ?Nat.add_0_r; [|tauto].
    rewrite Nat.add_1_r, (drop_S _ _ _ Hlk), elem_of_cons. tauto. }
  exists p, s'. split_and!; [done..|].
  pose proof (mk_cursors _ _ _ Hm) as Hcs. pose proof (marks_top _ _ _ Hs Hm) as Htop.
  pose proof (mk_cursor _ _ _ Hm) as Hcu. pose proof (mk_state _ _ _ Hm) as Hms.
  assert (collecting s' = true -> collecting s = true) as Hcoll.
  { unfold collecting. rewrite !bool_decide_eq_true. destruct (mark_state s); congruence. }
  assert (start s + (if collecting s then 1 else 0) <= mark_top s + 1) as Hsb.
  { unfold start in *. destruct (collecting s); lia. }
  assert (start s + (if collecting s' then 1 else 0) <= mark_top s + 1) as Hsb'.
  { destruct (collecting s'); [by rewrite Hcoll in Hsb|lia]. }
  set (s2 := set_cursor _ s').
  assert (start s2 = start s + (if collecting s' then 1 else 0)) as Hst2.
  { unfold start, collecting in *. change (mark_state s2) with (mark_state s'). unfold s2. cbn.
    destruct (mark_state s) eqn:E1, (mark_state s') eqn:E2;
      repeat first [rewrite bool_decide_true in * by done | rewrite bool_decide_false in * by done]; try done; lia. }
  split.
  - assert (stack_ok s2) as O2.
    { apply stack_ok_cursor; [apply (mk_ok _ _ _ Hm)|]. intros Hc'. unfold collecting, start in *.
      destruct (mark_state s) eqn:E1; rewrite Hc' in *; try done. rewrite !bool_decide_true in Hcs by done. lia. }
    apply (inv_weaken rs (drop (Z.to_nat (start s) + (if collecting s then 1 else 0)) (elems s) ++ new)).
    { destruct Hi' as [O S R C]. by split. }
    intros q Hq _. left. change (elems s2) with (elems s'). rewrite Hel, Hst2, drop_app_le by lia.
    rewrite elem_of_app in *. destruct Hq as [Hq|]; [left|by right]. destruct (collecting s') eqn:E'.
    + by rewrite (Hcoll eq_refl), Nat.add_1_r, <- Z2Nat.inj_succ in Hq by lia.
    + rewrite Z.add_0_r. rewrite <- drop_drop in Hq. eapply list_elem_of_lookup in Hq as [i Hq].
      rewrite lookup_drop in Hq. by eapply list_elem_of_lookup_2.
  - rewrite Hst2. change (mark_top s2) with (mark_top s'). destruct (collecting s') eqn:E'; [|lia].
    specialize (Hcoll eq_refl). rewrite Hcoll in *. lia.
  - unfold s2. cbn. lia.
  - apply (all_in_stack_marks _ _ _ Hall) in Hm. exact Hm.
Qed.

Lemma collect_loop_spec rs : forall n s, collect_inv rs s ->
  (Z.to_nat (mark_top s + 1 - mark_cursor s) + todo s <= n)%nat ->
  exists s', collect_loop fuel e n s = Ok s' /\ collect_inv rs s' /\ mark_top s' < mark_cursor s' /\ progress s s'.
Proof.
  induction n as [|n IH]; intros s Hc Hn; cbn [collect_loop]; destruct (Z.leb_spec (mark_cursor s) (mark_top s)) as [Hle|Hgt].
  all: try (exists s; by split_and!).
  { lia. }
  destruct (collect_step rs s Hc Hle) as (p & s1 & -> & Hw & Hm & Hc1). cbn [mbind res_bind]. rewrite Hw. cbn [mbind res_bind].
  pose proof (mk_todo _ _ _ Hm). pose proof (mk_cursor _ _ _ Hm).
  pose proof (elems_length _ (iv_ok _ _ _ (ci_inv _ _ Hc))). pose proof (elems_length _ (mk_ok _ _ _ Hm)).
  pose proof (pr_todo _ _ (marks_progress _ _ _ Hm)).
  destruct (IH _ Hc1) as (s' & -> & Hc' & Hend & Hp).
  { cbn. change (todo (set_cursor (mark_cursor s1 + 1) s1)) with (todo s1). lia. }
  exists s'. split_and!; try done. transitivity s1; [by eapply marks_progress|]. destruct Hp. by split.
Qed.

(** ** [walk_mark_stack] *)

Definition pending (s : mark_st) : list Z :=
  if collecting s then drop (Z.to_nat (mark_cursor s)) (elems s) else elems s.

Record walk_inv (rs : list Z) (s : mark_st) : Prop := {
  wi_inv : inv rs (pending s) s;
  wi_all : all_in_stack s }.

Record walked (rs : list Z) (s : mark_st) : Prop := {
  wd_inv : inv rs [] s;
  wd_pending : pending s = [];
  wd_state : mark_state s <> MARK_STATE_OVERFLOW;
  wd_all : all_in_stack s }.

Lemma move_stack_spec rs s : collect_inv rs s -> mark_state s = MARK_STATE_NORMAL ->
  inv rs (elems (move_stack s)) (move_stack s) /\ mark_stack_size (move_stack s) = mark_stack_size s.
Proof.
  intros [Hi Hst _ _] Hn. pose proof (iv_ok _ _ _ Hi) as Hs. destruct Hs as [Om Ot Ob Oc On Oe Od].
  unfold start, collecting in *. rewrite bool_decide_false in * by congruence. unfold mark_stack_size in Ob.
  assert (Z.of_nat (length (take (Z.to_nat (mark_top s - mark_save_cursor s + 1))
    (drop (Z.to_nat (mark_save_cursor s)) (mark_stack s)))) = mark_top s - mark_save_cursor s + 1) as Hlen.
  { rewrite length_take, length_drop. lia. }
  assert (elems (move_stack s) = drop (Z.to_nat (mark_save_cursor s)) (elems s)) as Hel.
  { unfold elems, move_stack. cbn [mark_stack mark_top]. rewrite take_app_le by lia. rewrite take_ge by lia.
    rewrite skipn_firstn_comm. f_equal. lia. }
  assert (mark_stack_size (move_stack s) = mark_stack_size s) as Hsz.
  { unfold mark_stack_size, move_stack. cbn [mark_stack]. rewrite length_app, length_drop. lia. }
  split; [|done]. rewrite Hel. destruct Hi as [_ S R C]. split; [|done..]. rewrite <- Hel in *.
  split; try done; try (rewrite Hsz); cbn; try done; try lia.
  - intros E. congruence.
  - intros q Hq. apply Oe. rewrite Hel in Hq. apply list_elem_of_lookup in Hq as [i Hq].
    rewrite lookup_drop in Hq. by eapply list_elem_of_lookup_2.
  - rewrite Hel. rewrite <- (take_drop (Z.to_nat (mark_save_cursor s)) (elems s)) in Od. by apply NoDup_app in Od as (_ & _ & ?).
Qed.

Lemma rounds_walked rs s : (length objs < fuel)%nat -> inv rs (elems s) s -> mark_state s <> MARK_STATE_COLLECT ->
  exists s', mark_rounds fuel e fuel s = Ok s' /\ walked rs s' /\ mark_stack_size s' = mark_stack_size s.
Proof.
  intros Hf Hi Hst. pose proof (elems_todo _ (iv_ok _ _ _ Hi)).
  destruct (mark_rounds_spec rs ltac:(lia) fuel s Hi Hst) as (s' & -> & Hi' & Hst' & He' & Hz').
  { unfold overflowed. case_bool_decide; lia. }
  exists s'. split_and!; try done. split; [done| |congruence|].
  - unfold pending, collecting. by rewrite bool_decide_false by congruence.
  - intros E. congruence.
Qed.

Lemma walk_mark_stack_spec rs s : (length objs < fuel)%nat -> walk_inv rs s ->
  (exists s', walk_mark_stack fuel e s = Ok s' /\ walked rs s' /\ mark_stack_size s' = mark_stack_size s) \/
  (walk_mark_stack fuel e s = Err AssertionFailed /\ mark_stack_size s < N).
Proof.
  intros Hf [Hi Hall]. unfold walk_mark_stack. unfold pending, collecting in Hi. case_bool_decide as Hc.
  2: { left. by apply rounds_walked. }
  pose proof (iv_ok _ _ _ Hi) as Hs. destruct (so_collect _ Hs Hc) as [_ Hcur].
  pose proof (elems_length _ Hs). pose proof (elems_todo _ Hs).
  assert (collecting s = true) as Hcs by (by apply bool_decide_eq_true).
  assert (start s = mark_cursor s) as Hst by (unfold start; by rewrite Hcs).
  destruct (collect_loop_spec rs fuel s) as (s1 & -> & Hc1 & Hend & Hp).
  { split; rewrite ?Hst; try done; lia. }
  { lia. }
  cbn [mbind res_bind]. case_bool_decide as Hc'.
  - left. exists s1. split_and!; [done| |apply Hp]. destruct Hc1 as [Hi1 Hst1 _ Hall1].
    assert (collecting s1 = true) as Hcs1 by (by apply bool_decide_eq_true).
    pose proof (elems_length _ (iv_ok _ _ _ Hi1)).
    assert (drop (Z.to_nat (mark_cursor s1)) (elems s1) = []) as Hd by (apply drop_ge; lia).
    unfold start in Hi1. rewrite Hcs1, Hd in Hi1. split; [done| |congruence|done]. unfold pending. by rewrite Hcs1.
  - case_bool_decide as Hn; cbn [massert assert_or mbind res_bind].
    + rewrite (so_normal _ (iv_ok _ _ _ (ci_inv _ _ Hc1))) by done. rewrite Z.eqb_refl. cbn [assert_or mbind res_bind].
      destruct (move_stack_spec rs s1 Hc1 Hn) as [Hi2 Hz2]. left.
      destruct (rounds_walked rs (move_stack s1) Hf Hi2 Hc') as (s' & -> & Hw & Hz').
      exists s'. split_and!; [done|done|]. rewrite Hz', Hz2. apply Hp.
    + right. split; [done|]. assert (mark_state s1 = MARK_STATE_OVERFLOW) as Ho by (by destruct (mark_state s1)).
      destruct (pr_overflow _ _ Hp Ho) as [|[_ ?]]; [congruence|done].
Qed.

(** Marking more references after the stack has been walked. *)
Lemma walked_marks rs rs' l s s' : walked rs s -> marks l s s' -> (forall p, p ∈ rs' <-> p ∈ rs \/ p ∈ l) -> walk_inv rs' s'.
Proof.
  intros [Hi Hpe Hno Hall] Hm Hrs.
  destruct (inv_marks rs rs' [] l s s' Hi Hm) as (new & Hel & Hi').
  { intros q Hq. apply Hrs. by left. }
  { intros r Hr Ho. apply reach_root; [apply Hrs; by right|done]. }
  { intros r. by rewrite Hrs. }
  split; [|by eapply all_in_stack_marks]. eapply inv_weaken; [done|]. intros q Hq _. left. cbn in Hq.
  unfold pending, collecting in *. pose proof (mk_cursors _ _ _ Hm) as Hcs. pose proof (mk_state _ _ _ Hm) as Hms.
  pose proof (elems_length _ (iv_ok _ _ _ Hi)) as Hlen. rewrite Hel.
  destruct (decide (mark_state s' = MARK_STATE_COLLECT)) as [Hc'|Hc'];
    [rewrite (bool_decide_true _ Hc') in *|rewrite (bool_decide_false _ Hc'), elem_of_app; tauto].
  assert (mark_state s = MARK_STATE_COLLECT) as Hc by (destruct (mark_state s); congruence).
  destruct (so_collect _ (iv_ok _ _ _ Hi) Hc) as [_ Hcur].
  rewrite (bool_decide_true _ Hc) in *. destruct Hcs as [-> _].
  apply (f_equal length) in Hpe. rewrite length_drop in Hpe. cbn in Hpe. by rewrite drop_app_le, (drop_ge (elems s)) by lia.
Qed.

(** ** Finalizers and the whole phase *)

Definition final_ok (f : finalize_node) : Prop := acc m0 (fn_node f - 4).

(** The nodes that are kept, and the ones whose objects are to be finalized. *)
Definition kept (m : memory) (l : list finalize_node) : list finalize_node := filter (fun f => marked m (fn_node f)) l.
Definition doomed (m : memory) (l : list finalize_node) : list finalize_node := filter (fun f => ~ marked m (fn_node f)) l.

Lemma split_finals_spec m l : same_but_marks objs m0 m -> Forall final_ok l -> forall has doit,
  split_finals m l has doit = Ok (rev (kept m l) ++ has, rev (doomed m l) ++ doit).
Proof.
  intros Hm Hl. induction Hl as [|f l Hf Hl IH]; intros has doit; cbn [split_finals]; [done|].
  rewrite mark_header_acc by (by eapply sb_acc). cbn [mbind res_bind]. rewrite mark_bit_test, negb_involutive.
  unfold kept, doomed in *. destruct (Z.testbit (hdr m (fn_node f)) 0) eqn:Ht.
  - rewrite IH, filter_cons_True, filter_cons_False by (unfold marked; rewrite Ht; auto). cbn. by rewrite <- app_assoc.
  - rewrite IH, filter_cons_False, filter_cons_True by (unfold marked; rewrite Ht; auto). cbn. by rewrite <- app_assoc.
Qed.

Lemma each_fmap {A B} (g : A -> B) (f : B -> mark_st -> res failure mark_st) l : forall s,
  each (fun x => f (g x)) l s = each f (map g l) s.
Proof.
  induction l as [|x l IH]; intros s; [done|]. cbn [each map]. destruct (f (g x) s); [apply IH|done].
Qed.

(** What the mark phase leaves. *)
Record phase_done (rs : list Z) (s : mark_st) : Prop := {
  pd_mem : same_but_marks objs m0 (mem s);
  pd_marked p : p ∈ objs -> marked (mem s) p <-> reach rs p;
  pd_collect : mark_state s = MARK_STATE_COLLECT -> elems s ≡ₚ filter (fun p => marked (mem s) p) objs;
  pd_state : mark_state s <> MARK_STATE_OVERFLOW;
  pd_top : -1 <= mark_top s < mark_stack_size s }.

Lemma walked_phase_done rs s : walked rs s -> phase_done rs s.
Proof.
  intros [Hi _ Hno Hall]. destruct (iv_ok _ _ _ Hi) as [_ Ht Hb _ _ _ _].
  split; [apply Hi|by apply inv_done| |done|lia]. intros Hc. apply NoDup_Permutation.
  - apply Hi.
  - apply NoDup_filter, mh_nodup.
  - intros p. rewrite list_elem_of_filter. split; [intros Hp; by apply and_comm, Hi|]. intros [??]. by apply Hall.
Qed.

Lemma suggest_bound_range size hs : 3 <= size < 2 ^ 31 -> 0 <= hs < 2 ^ 31 ->
  0 <= mark_stack_suggest_bound size hs < size - 1.
Proof.
  intros Hz Hh. unfold mark_stack_suggest_bound. rewrite (wraps_small 32 hs) by (unfold in_s; lia).
  rewrite Z.quot_div_nonneg by lia. assert (0 <= hs / 128 < 2 ^ 24) by dmlia.
  rewrite (wrapu_small 32 (hs / 128)), (wrapu_small 32 size), (wrapu_small 32 (2 * _)) by (unfold in_u; lia).
  case_test; dmlia.
Qed.

Lemma start_mark_inv s : mem s = m0 -> (forall p, p ∈ objs -> ~ marked m0 p) -> 1 <= mark_stack_size s ->
  inv [] (elems (start_mark s)) (start_mark s).
Proof.
  intros Hm Hu Hz. assert (elems (start_mark s) = []) as He by done.
  unfold start_mark, mark_stack_size in *. split; cbn.
  - split; cbn; try done; try lia.
    + rewrite Hm. apply same_but_marks_refl.
    + unfold mark_stack_size. cbn. lia.
    + intros p Hp. by apply elem_of_nil in Hp.
    + constructor.
  - intros p Hp Hmk. rewrite Hm in Hmk. by apply Hu in Hp.
  - intros p Hp. by apply elem_of_nil in Hp.
  - intros _ p Hp Hmk. rewrite Hm in Hmk. by apply Hu in Hp.
Qed.

Lemma walk_roots_spec s : mem s = m0 -> (forall p, p ∈ objs -> ~ marked m0 p) -> 1 <= mark_stack_size s ->
  exists s', walk_roots fuel e (start_mark s) = Ok s' /\ inv root_refs (elems s') s' /\
    mark_stack_size s' = mark_stack_size s /\ mark_bound s' = mark_stack_size s - 1 /\ mark_state s' <> MARK_STATE_COLLECT /\
    (mark_state s' = MARK_STATE_OVERFLOW -> mark_top s' = mark_bound s') /\
    (mark_state s' <> MARK_STATE_OVERFLOW -> forall p, p ∈ objs -> marked (mem s') p -> p ∈ elems s').
Proof.
  intros Hm Hu Hz. pose proof (start_mark_inv s Hm Hu Hz) as Hi. set (s0 := start_mark s) in *.
  rewrite mh_walk_roots by apply Hi.
  destruct (each_mark_spec root_refs s0 (iv_ok _ _ _ Hi) mh_root_refs) as (s' & -> & M).
  destruct (inv_marks [] root_refs (elems s0) root_refs s0 s' Hi M) as (new & Hel & Hi'); [by intros ? ?%elem_of_nil| |tauto|].
  { intros r Hr Ho. by apply reach_root. }
  exists s'. rewrite <- Hel in Hi'. split_and!; [done|done|apply (mk_size _ _ _ M)|apply (mk_cursors _ _ _ M)|apply (mk_state _ _ _ M)| |].
  - intros Ho. by destruct (mk_overflow _ _ _ M Ho) as [|(_ & _ & ?)].
  - intros Hno p Hp Hmk. destruct (mk_elems _ _ _ M) as (new' & Hel' & Hnew'). rewrite Hel'.
    destruct (Hnew' Hno p Hp Hmk) as [Hold|]; [|rewrite elem_of_app; tauto].
    change (mem s0) with (mem s) in Hold. rewrite Hm in Hold. by apply Hu in Hold.
Qed.

Lemma choose_state_spec hs s : 3 <= mark_stack_size s < 2 ^ 31 -> 0 <= hs < 2 ^ 31 -> inv root_refs (elems s) s ->
  mark_bound s = mark_stack_size s - 1 -> mark_state s <> MARK_STATE_COLLECT ->
  (mark_state s = MARK_STATE_OVERFLOW -> mark_top s = mark_bound s) ->
  (mark_state s <> MARK_STATE_OVERFLOW -> forall p, p ∈ objs -> marked (mem s) p -> p ∈ elems s) ->
  exists s', choose_state hs s = Ok s' /\ walk_inv root_refs s' /\ mark_stack_size s' = mark_stack_size s.
Proof.
  intros Hz Hh Hi Hb Hnc Hov Hall. unfold choose_state. pose proof (suggest_bound_range _ hs Hz Hh) as Hr.
  destruct (Z.ltb_spec (mark_stack_suggest_bound (mark_stack_size s) hs) (mark_bound s)) as [Hlt|]; [|lia].
  cbn [massert assert_or mbind res_bind].
  destruct (Z.ltb_spec (mark_top s) (mark_stack_suggest_bound (mark_stack_size s) hs)) as [Ht|Ht].
  - set (s1 := mkMark _ _ _ _ _ _ _). change (mark_stack_size s1) with (mark_stack_size s).
    change (mark_bound s1) with (mark_stack_suggest_bound (mark_stack_size s) hs).
    rewrite (proj2 (Z.ltb_lt _ _)) by lia. exists s1. split_and!; [done| |done].
    assert (mark_state s <> MARK_STATE_OVERFLOW) as Hno by (intros Ho; specialize (Hov Ho); lia).
    destruct Hi as [[Om Ot Ob Oc On Oe Od] S R C]. split.
    + split; [|done|done|].
      * change (elems s) with (elems s1) in *. unfold mark_stack_size in *.
        split; unfold mark_stack_size; cbn; try done; try lia.
      * intros _. by apply C.
    + intros _. by apply Hall.
  - rewrite Hb, (proj2 (Z.ltb_lt _ _)) by lia. exists s. split_and!; [done| |done]. split; [|intros E; congruence].
    unfold pending, collecting. by rewrite bool_decide_false.
Qed.

Lemma mark_phase_spec hs f s : (length objs < fuel)%nat -> 3 <= mark_stack_size s < 2 ^ 31 -> 0 <= hs < 2 ^ 31 ->
  mem s = m0 -> (forall p, p ∈ objs -> ~ marked m0 p) ->
  Forall final_ok (has_final f) -> Forall (fun n => ref_ok (fn_object n)) (has_final f ++ do_final f) ->
  match mark_phase fuel e hs f s with
  | Ok (f', s') => exists m1, same_but_marks objs m0 m1 /\
      f' = mkFinals (rev (kept m1 (has_final f))) (rev (doomed m1 (has_final f)) ++ do_final f) /\
      (forall p, p ∈ objs -> marked m1 p <-> reach root_refs p) /\
      phase_done (root_refs ++ map fn_object (do_final f')) s'
  | Err x => x = AssertionFailed /\ mark_stack_size s < N
  end.
Proof.
  intros Hf Hz Hh Hm Hu Hfin Hobj. unfold mark_phase.
  destruct (walk_roots_spec s Hm Hu) as (s1 & -> & Hi1 & Hz1 & Hb1 & Hc1 & Hov1 & Hall1); [lia|]. cbn [mbind res_bind].
  destruct (choose_state_spec hs s1) as (s2 & -> & Hw2 & Hz2); try done; try lia. cbn [mbind res_bind].
  destruct (walk_mark_stack_spec root_refs s2 Hf Hw2) as [(s3 & -> & Hw3 & Hz3)|[-> ?]]; cbn [mbind res_bind]; [|split; [done|lia]].
  assert (same_but_marks objs m0 (mem s3)) as Hm3 by apply Hw3.
  unfold walk_finals. rewrite split_finals_spec by done. cbn [mbind res_bind]. rewrite app_nil_r.
  set (doit := rev (doomed (mem s3) (has_final f)) ++ do_final f).
  rewrite (each_fmap fn_object).
  destruct (each_mark_spec (map fn_object doit) s3 (iv_ok _ _ _ (wd_inv _ _ Hw3))) as (s4 & -> & M4).
  { intros r (n & -> & Hn)%list_elem_of_fmap. rewrite Forall_forall in Hobj. apply Hobj. unfold doit in Hn.
    rewrite elem_of_app, list_elem_of_In, <- in_rev, <- list_elem_of_In in Hn. unfold doomed in Hn.
    rewrite list_elem_of_filter in Hn. rewrite elem_of_app. tauto. }
  cbn [mbind res_bind]. pose proof (mk_size _ _ _ M4) as Hz4.
  assert (walk_inv (root_refs ++ map fn_object doit) s4) as Hw4.
  { eapply walked_marks; [exact Hw3|exact M4|]. intros p. by rewrite elem_of_app. }
  destruct (walk_mark_stack_spec _ s4 Hf Hw4) as [(s5 & -> & Hw5 & Hz5)|[-> ?]]; cbn [mbind res_bind]; [|split; [done|lia]].
  exists (mem s3). split_and!; [done|done| |by apply walked_phase_done].
  apply inv_done; apply Hw3.
Qed.

End Reach.
