(* ===== verification/GcObjects.v ===== *)
(** * Objects, references and the heap the collector walks

    What a well-formed collected heap looks like in memory (blocks tiled by
    chunks, chains of large objects, fields inside their objects), that
    [is_object] recognizes exactly its objects, that the walk functions visit
    exactly its references, and the correctness of the mark phase on it. *)

From S2P Require Import Prelude GcHeap GcTiling GcAlloc GcFixed GcMark GcLarge GcReach.

(** ** Lists of lists *)

Lemma NoDup_flat_map {A B} (f : A -> list B) l : NoDup l -> (forall x, x ∈ l -> NoDup (f x)) ->
  (forall x y z, x ∈ l -> y ∈ l -> z ∈ f x -> z ∈ f y -> x = y) -> NoDup (flat_map f l).
Proof.
  intros Hl Hf Hd. induction Hl as [|x l Hx Hl IH]; cbn; [constructor|]. apply NoDup_app. split_and!.
  - apply Hf. by constructor.
  - intros z Hz Hin. apply list_elem_of_In, in_flat_map in Hin as (y & Hy & Hzy).
    apply list_elem_of_In in Hy, Hzy. apply Hx. rewrite (Hd x y z); [done|by constructor..|done|done].
  - apply IH; intros; [apply Hf|eapply Hd]; by try constructor.
Qed.

Lemma elem_of_flat_map {A B} (f : A -> list B) l z : z ∈ flat_map f l <-> exists x, x ∈ l /\ z ∈ f x.
Proof. rewrite list_elem_of_In, in_flat_map. by setoid_rewrite list_elem_of_In. Qed.

(** ** The objects of a block *)

(** The headers of the chunks in [header .. bound). *)
Fixpoint chunk_list (n : nat) (m : memory) (header bound : Z) : list Z :=
  match n with
  | O => []
  | S n' => if header <? bound then header :: chunk_list n' m (header + mask_size (rd m header)) bound else []
  end.

Definition is_free_word (w : Z) : bool := Z.testbit w 1.

(** The chunks tile the memory from [header] to [bound], which they reach. *)
Inductive tiled (m : memory) (bound : Z) : Z -> list Z -> Prop :=
| tiled_end : tiled m bound bound []
| tiled_chunk h l : acc m h -> 0 < mask_size (rd m h) -> h < bound ->
    tiled m bound (h + mask_size (rd m h)) l -> tiled m bound h (h :: l).

Lemma tiled_le m bound h l : tiled m bound h l -> h + 8 * Z.of_nat (length l) <= bound.
Proof.
  induction 1 as [|h l Ha Hs Hb Ht IH]; cbn [length]; [lia|]. rewrite mask_size_spec in *. lia.
Qed.

Lemma tiled_chunk_list m bound h l n : tiled m bound h l -> (length l <= n)%nat -> chunk_list n m h bound = l.
Proof.
  intros Ht. revert n. induction Ht as [|h l Ha Hs Hb Ht IH]; intros n Hn.
  - destruct n; [done|]. cbn. by rewrite Z.ltb_irrefl.
  - destruct n; cbn in Hn; [lia|]. cbn. rewrite (proj2 (Z.ltb_lt _ _)) by lia. rewrite IH by lia. done.
Qed.

Lemma tiled_range m bound h l x : tiled m bound h l -> x ∈ l -> h <= x <= bound - 8 /\ (x - h) mod 8 = 0 /\ acc m x.
Proof.
  intros Ht. induction Ht as [|h l Ha Hs Hb Ht IH]; [by intros ?%elem_of_nil|].
  pose proof (tiled_le _ _ _ _ Ht) as Hle. rewrite mask_size_spec in *. intros [->|Hx]%elem_of_cons.
  - rewrite Z.sub_diag. split_and!; [lia|lia|done|done].
  - destruct (IH Hx) as (? & ? & ?). split_and!; [lia|lia|dmlia|done].
Qed.

Lemma tiled_nodup m bound h l : tiled m bound h l -> NoDup l.
Proof.
  induction 1 as [|h l Ha Hs Hb Ht IH]; constructor; [|done]. intros Hin.
  destruct (tiled_range _ _ _ _ _ Ht Hin) as [? _]. lia.
Qed.

Lemma chunk_size_ok m h : acc m h -> 0 < mask_size (rd m h) -> chunk_size m h = Ok (mask_size (rd m h)).
Proof.
  intros Ha Hs. unfold chunk_size. rewrite ld_acc by done. cbn [mbind res_bind].
  rewrite (proj2 (Z.ltb_lt _ _)) by done. cbn [massert assert_or mbind res_bind].
  assert (mask_size (rd m h) mod MEMALIGN = 0) as -> by (rewrite mask_size_spec; unfold MEMALIGN; dmlia). done.
Qed.

(** The search for the header before [p] stops at the first chunk that does
    not start before it. *)
Lemma find_header_spec m bound h l : tiled m bound h l -> forall n x, (length l <= n)%nat -> x <= bound ->
  exists y, find_header n m h x = Ok y /\ (h <= x -> (y = x <-> x ∈ l \/ x = bound)) /\ (x < h -> y = h) /\ (y = x -> x ∈ l -> acc m x).
Proof.
  induction 1 as [|h l Ha Hs Hb Ht IH]; intros n x Hn Hx.
  - exists bound. destruct n; cbn [find_header]; rewrite (proj2 (Z.ltb_ge _ _)) by lia; split_and!; try done;
      try (intros; by apply elem_of_nil in H0); intros; rewrite elem_of_nil; intuition lia.
  - destruct n as [|n]; cbn [length] in Hn; [lia|]. cbn [find_header]. destruct (Z.ltb_spec h x).
    + rewrite chunk_size_ok by done. cbn [mbind res_bind].
      destruct (IH n x) as (y & Hy & Hiff & Hlt & Hacc); [lia|lia|]. exists y.
      pose proof (tiled_range _ _ _ _ x Ht) as Hr.
      split_and!; [done| |lia|].
      * intros _. rewrite elem_of_cons. destruct (Z.lt_ge_cases x (h + mask_size (rd m h))) as [Hlt'|Hge].
        -- specialize (Hlt Hlt'). split; [lia|]. intros [[|Hin]|]; [lia| |].
           ++ specialize (Hr Hin). lia.
           ++ pose proof (tiled_le _ _ _ _ Ht). lia.
        -- rewrite Hiff by lia. intuition lia.
      * intros -> [->|Hin]%elem_of_cons; [lia|]. by apply Hr.
    + exists h. split_and!; [done| |done|].
      * intros. assert (x = h) as -> by lia. split; [intros _; left; by constructor|done].
      * by intros ->.
Qed.

(** ** The layout of a heap *)

Section Layout.
Context (fuel : nat) (e : gc_env) (m0 : memory).

Definition block_start (r : region) (pos : Z) : Z := rstart r + GC_BLOCKSIZE * pos.

Definition used (r : region) (pos : Z) : bool := match block_used e r pos with Ok b => b | Err _ => false end.

Definition block_chunks (r : region) (pos : Z) : list Z :=
  chunk_list BLOCK_FUEL m0 (block_start r pos + 4) (block_start r pos + 4092).

Definition block_objects (r : region) (pos : Z) : list Z :=
  if used r pos then (fun h => h + 4) <$> filter (fun h => is_free_word (rd m0 h) = false) (block_chunks r pos) else [].

Definition small_objects : list Z := flat_map (fun r => flat_map (block_objects r) (region_blocks r)) (small_regions e).

(** The nodes of a chain of the large object set, up to the sentinel. *)
Fixpoint chain_nodes (n : nat) (node : Z) : list Z :=
  match n with
  | O => []
  | S n' => if rd m0 node =? 0 then [] else node :: chain_nodes n' (rd m0 (node + 8))
  end.

Definition chain_head (i : Z) : Z := large_node (large_objects e) i.

Definition chain_objects (i : Z) : list Z := rd m0 <$> (chain_nodes fuel (rd m0 (chain_head i + 8))).

Definition large_objs : list Z := flat_map chain_objects (seqZ 0 LARGE_SET_SIZE).

Definition objects : list Z := large_objs ++ small_objects.

(** A word that marking does not change. *)
Definition stable (a : Z) : Prop := acc m0 a /\ a + 4 ∉ objects.

Inductive chained (head : Z) : Z -> list Z -> Prop :=
| chained_end : stable head -> rd m0 head = 0 -> chained head head []
| chained_node n l : stable n -> stable (n + 4) -> stable (n + 8) -> rd m0 n <> 0 -> n <> 0 -> n <> head ->
    rd m0 (n + 4) <> 0 -> rd m0 (n + 8) <> 0 -> chained head (rd m0 (n + 8)) l -> chained head n (n :: l).

(** The regions, blocks and chains of a heap before marking. *)
Record areas_ok : Prop := {
  ao_table : sorted_table (region_table e);
  ao_some : region_table e <> [];
  ao_small r : r ∈ small_regions e <-> r ∈ region_table e /\ rtype r = GC_REGION_SMALL;
  ao_nodup : NoDup (small_regions e);
  ao_region r : r ∈ small_regions e -> 0 < rstart r /\ rstart r mod GC_BLOCKSIZE = 0 /\ rend r = rstart r + GC_REGIONSIZE /\
    exists t, usage e !! rid r = Some t /\ length t = 16%nat;
  ao_block r pos : r ∈ small_regions e -> used r pos = true -> exists l,
    tiled m0 (block_start r pos + 4092) (block_start r pos + 4) l /\
    forall h, h ∈ l -> is_free_word (rd m0 h) = true -> ~ marked m0 (h + 4);
  ao_chain i : 0 <= i < LARGE_SET_SIZE -> stable (chain_head i + 8) /\ exists l,
    (length l < fuel)%nat /\ chained (chain_head i) (rd m0 (chain_head i + 8)) l /\ NoDup (rd m0 <$> l) /\
    forall n, n ∈ l -> large_set_hash (rd m0 n) mod LARGE_SET_SIZE = i /\ acc m0 (rd m0 n - 4) /\
      exists r, r ∈ region_table e /\ rtype r = GC_REGION_LARGE /\ rstart r <= rd m0 n < rend r }.

Context (Hao : areas_ok).

(** *** Blocks *)

Lemma region_blocks_spec r pos : r ∈ small_regions e -> pos ∈ region_blocks r <-> 0 <= pos < 512.
Proof.
  intros Hr. unfold region_blocks. rewrite elem_of_seqZ. destruct (ao_region Hao r Hr) as (_ & _ & -> & _).
  unfold GC_REGIONSIZE, GC_BLOCKSIZE.
  replace ((rstart r + 2 * 1024 * 1024 - rstart r + 4096 - 1) / 4096) with 512; [lia|].
  replace (rstart r + 2 * 1024 * 1024 - rstart r + 4096 - 1) with (4095 + 512 * 4096) by lia.
  by rewrite Z.div_add.
Qed.

Lemma block_used_spec r pos : r ∈ small_regions e -> 0 <= pos < 512 -> block_used e r pos = Ok (used r pos).
Proof.
  intros Hr Hp. unfold used, block_used. destruct (ao_region Hao r Hr) as (_ & _ & _ & t & -> & Ht).
  cbn [of_option mbind res_bind].
  destruct (zlookup_is_Some t (pos / 32)) as [w ->]; [|done]. split; [dmlia|]. rewrite Ht. dmlia.
Qed.

(** The tiling of a used block, and its objects. *)
Lemma block_tiled r pos : r ∈ small_regions e -> used r pos = true -> exists l,
  tiled m0 (block_start r pos + 4092) (block_start r pos + 4) l /\ (length l <= BLOCK_FUEL)%nat /\
  (forall h, h ∈ l -> is_free_word (rd m0 h) = true -> ~ marked m0 (h + 4)) /\
  block_objects r pos = (fun h => h + 4) <$> filter (fun h => is_free_word (rd m0 h) = false) l.
Proof.
  intros Hr Hu. destruct (ao_block Hao r pos Hr Hu) as (l & Ht & Hf). exists l.
  pose proof (tiled_le _ _ _ _ Ht) as Hle. assert (length l <= BLOCK_FUEL)%nat as Hn by (unfold BLOCK_FUEL; lia).
  split_and!; try done. unfold block_objects, block_chunks. by rewrite Hu, (tiled_chunk_list _ _ _ l).
Qed.

Lemma block_objects_range r pos p : r ∈ small_regions e -> p ∈ block_objects r pos ->
  block_start r pos + 8 <= p <= block_start r pos + 4088 /\ p mod 8 = 0 /\ acc m0 (p - 4).
Proof.
  intros Hr. destruct (used r pos) eqn:Hu; [|unfold block_objects; rewrite Hu; by intros ?%elem_of_nil].
  destruct (block_tiled r pos Hr Hu) as (l & Ht & _ & _ & ->). intros (h & -> & Hh)%list_elem_of_fmap.
  apply list_elem_of_filter in Hh as [_ Hh]. destruct (tiled_range _ _ _ _ _ Ht Hh) as (? & Hmod & Hacc).
  destruct (ao_region Hao r Hr) as (_ & Hal & _). unfold block_start, GC_BLOCKSIZE in *.
  replace (h + 4 - 4) with h by lia. split_and!; [lia|lia|dmlia|done].
Qed.

Lemma block_unique r r' pos pos' p : r ∈ small_regions e -> r' ∈ small_regions e -> 0 <= pos < 512 -> 0 <= pos' < 512 ->
  p ∈ block_objects r pos -> p ∈ block_objects r' pos' -> r = r' /\ pos = pos'.
Proof.
  intros Hr Hr' Hp Hp' Hin Hin'. destruct (block_objects_range r pos p Hr Hin) as (H1 & _).
  destruct (block_objects_range r' pos' p Hr' Hin') as (H2 & _).
  destruct (ao_region Hao r Hr) as (_ & _ & He & _). destruct (ao_region Hao r' Hr') as (_ & _ & He' & _).
  apply (ao_small Hao) in Hr as [Hr _], Hr' as [Hr' _].
  destruct (region_find_spec (region_table e) p (ao_table Hao) (ao_some Hao)) as (o & _ & Ho).
  unfold block_start, GC_BLOCKSIZE, GC_REGIONSIZE in *.
  pose proof (proj2 (Ho r) ltac:(split; [done|lia])). pose proof (proj2 (Ho r') ltac:(split; [done|lia])).
  assert (r = r') as <- by congruence. split; [done|]. lia.
Qed.

Lemma elem_of_small p : p ∈ small_objects <-> exists r pos, r ∈ small_regions e /\ 0 <= pos < 512 /\ p ∈ block_objects r pos.
Proof.
  unfold small_objects. rewrite elem_of_flat_map. split.
  - intros (r & Hr & (pos & Hpos & Hp)%elem_of_flat_map). exists r, pos. by rewrite region_blocks_spec in Hpos.
  - intros (r & pos & Hr & Hpos & Hp). exists r. split; [done|]. apply elem_of_flat_map. exists pos.
    by rewrite region_blocks_spec.
Qed.

Lemma small_objects_nodup : NoDup small_objects.
Proof.
  apply NoDup_flat_map; [apply (ao_nodup Hao)| |].
  - intros r Hr. apply NoDup_flat_map; [apply NoDup_seqZ| |].
    + intros pos Hpos. unfold block_objects. destruct (used r pos) eqn:Hu; [|constructor].
      apply NoDup_fmap_2; [intros ???; lia|]. apply NoDup_filter. unfold block_chunks.
      destruct (ao_block Hao r pos Hr Hu) as (l & Ht & _). pose proof (tiled_le _ _ _ _ Ht).
      rewrite (tiled_chunk_list _ _ _ l); [by eapply tiled_nodup|done|unfold BLOCK_FUEL; lia].
    + intros x y z Hx Hy Hzx Hzy. rewrite region_blocks_spec in Hx, Hy by done. apply (block_unique r r x y z); assumption.
  - intros r r' z Hr Hr' (pos & Hpos & Hz)%elem_of_flat_map (pos' & Hpos' & Hz')%elem_of_flat_map.
    rewrite region_blocks_spec in Hpos, Hpos' by done. apply (block_unique r r' pos pos' z); assumption.
Qed.

Lemma LARGE_SET_SIZE_pos : 0 < LARGE_SET_SIZE.
Proof. done. Qed.

Lemma block_unused r pos : used r pos = false -> block_objects r pos = [].
Proof. intros Hu. unfold block_objects. by rewrite Hu. Qed.

#[local] Opaque BLOCK_FUEL LARGE_SET_SIZE block_objects.

(** *** Chains *)

Lemma chained_nodes head n l : chained head n l -> forall k, (length l < k)%nat -> chain_nodes k n = l.
Proof.
  induction 1 as [Hs H0|n l _ _ _ Hn _ _ _ _ Hc IH]; intros k Hk.
  - destruct k; [done|]. cbn. by rewrite H0.
  - destruct k; cbn in Hk; [lia|]. cbn. apply Z.eqb_neq in Hn. rewrite Hn, IH by lia. done.
Qed.

Lemma chain_spec i : 0 <= i < LARGE_SET_SIZE -> exists l,
  (length l < fuel)%nat /\ chained (chain_head i) (rd m0 (chain_head i + 8)) l /\ NoDup (rd m0 <$> l) /\
  chain_objects i = rd m0 <$> l /\ stable (chain_head i + 8).
Proof.
  intros Hi. destruct (ao_chain Hao i Hi) as (Hst & l & Hl & Hc & Hn & _). exists l. split_and!; try done; [|apply Hst..].
  unfold chain_objects. by rewrite (chained_nodes (chain_head i) _ l).
Qed.

Lemma chain_objects_spec i p : 0 <= i < LARGE_SET_SIZE -> p ∈ chain_objects i ->
  large_set_hash p mod LARGE_SET_SIZE = i /\ acc m0 (p - 4) /\
  (exists r, r ∈ region_table e /\ rtype r = GC_REGION_LARGE /\ rstart r <= p < rend r) /\ p <> 0.
Proof.
  intros Hi. destruct (ao_chain Hao i Hi) as (_ & l & Hl & Hc & _ & Hn). unfold chain_objects.
  rewrite (chained_nodes (chain_head i) _ l) by done. intros (n & -> & Hin)%list_elem_of_fmap. destruct (Hn n Hin) as (? & ? & ?).
  split_and!; try done. clear -Hc Hin. induction Hc; [by apply elem_of_nil in Hin|].
  apply elem_of_cons in Hin as [->|]; auto.
Qed.

#[local] Opaque chain_objects.

Lemma elem_of_large p : p ∈ large_objs <-> p ∈ chain_objects (large_set_hash p mod LARGE_SET_SIZE).
Proof.
  unfold large_objs. rewrite elem_of_flat_map. setoid_rewrite elem_of_seqZ. split.
  - intros (i & Hi & Hp). destruct (chain_objects_spec i p) as [-> _]; [lia|done|done].
  - intros Hp. eexists. split; [|done]. pose proof (Z.mod_pos_bound (large_set_hash p) _ LARGE_SET_SIZE_pos). lia.
Qed.

Lemma large_objs_nodup : NoDup large_objs.
Proof.
  apply NoDup_flat_map; [apply NoDup_seqZ| |].
  - intros i Hi%elem_of_seqZ. destruct (chain_spec i) as (l & _ & _ & Hn & -> & _); [lia|done].
  - intros i j p Hi%elem_of_seqZ Hj%elem_of_seqZ Hp Hp'. destruct (chain_objects_spec i p) as [<- _]; [lia|done|].
    destruct (chain_objects_spec j p) as [<- _]; [lia|done|done].
Qed.

(** *** Objects are in the regions of their area *)

Lemma small_in_region p : p ∈ small_objects -> exists r, r ∈ region_table e /\ rtype r = GC_REGION_SMALL /\
  rstart r <= p < rend r /\ r ∈ small_regions e /\ p ∈ block_objects r ((p - rstart r) / GC_BLOCKSIZE).
Proof.
  intros (r & pos & Hr & Hpos & Hp)%elem_of_small. exists r. destruct (block_objects_range r pos p Hr Hp) as (Hran & _).
  destruct (ao_region Hao r Hr) as (_ & _ & He & _). pose proof Hr as Hr0. apply (ao_small Hao) in Hr as [Hr Ht].
  rewrite He. unfold block_start, GC_BLOCKSIZE, GC_REGIONSIZE in *.
  split_and!; [exact Hr|exact Ht|lia|lia|exact Hr0|]. replace ((p - rstart r) / 4096) with pos by dmlia. exact Hp.
Qed.

Lemma large_in_region p : p ∈ large_objs -> exists r, r ∈ region_table e /\ rtype r = GC_REGION_LARGE /\ rstart r <= p < rend r.
Proof.
  intros Hp%elem_of_large. pose proof (Z.mod_pos_bound (large_set_hash p) _ LARGE_SET_SIZE_pos).
  by destruct (chain_objects_spec _ p H Hp) as (_ & _ & ? & _).
Qed.

Lemma region_unique p r r' : r ∈ region_table e -> r' ∈ region_table e -> rstart r <= p < rend r -> rstart r' <= p < rend r' -> r = r'.
Proof.
  intros Hr Hr' Hp Hp'. destruct (region_find_spec (region_table e) p (ao_table Hao) (ao_some Hao)) as (o & _ & Ho).
  pose proof (proj2 (Ho r) (conj Hr Hp)). pose proof (proj2 (Ho r') (conj Hr' Hp')). congruence.
Qed.

Lemma objects_nodup : NoDup objects.
Proof.
  apply NoDup_app. split_and!; [apply large_objs_nodup| |apply small_objects_nodup].
  intros p (r & Hr & Ht & Hp)%large_in_region (r' & Hr' & Ht' & Hp' & _)%small_in_region.
  assert (r = r') as -> by (by eapply region_unique). rewrite Ht in Ht'. discriminate Ht'.
Qed.

Lemma objects_acc p : p ∈ objects -> acc m0 (p - 4) /\ p <> 0.
Proof.
  intros [Hp|Hp]%elem_of_app.
  - apply elem_of_large in Hp. pose proof (Z.mod_pos_bound (large_set_hash p) _ LARGE_SET_SIZE_pos).
    by destruct (chain_objects_spec _ p H Hp) as (_ & ? & _ & ?).
  - apply elem_of_small in Hp as (r & pos & Hr & Hpos & Hp). destruct (block_objects_range r pos p Hr Hp) as (Hran & _ & ?).
    split; [done|]. destruct (ao_region Hao r Hr) as (? & _). unfold block_start, GC_BLOCKSIZE in *. lia.
Qed.

(** ** [is_object] *)

#[local] Infix "≈" := (same_but_marks objects) (at level 70).

Lemma sb_size m a : m0 ≈ m -> mask_size (rd m a) = mask_size (rd m0 a).
Proof. intros Hm. apply mask_size_eq. intros i Hi. apply (sb_bits _ _ _ Hm). lia. Qed.

Lemma sb_stable m a : m0 ≈ m -> stable a -> acc m a /\ rd m a = rd m0 a.
Proof. intros Hm [Ha Ho]. split; [by eapply sb_acc|by apply (sb_rest _ _ _ Hm)]. Qed.

Lemma ld_stable m a : m0 ≈ m -> stable a -> ld m a = Ok (rd m0 a).
Proof. intros Hm Ha. destruct (sb_stable m a Hm Ha) as [? <-]. by apply ld_acc. Qed.

Lemma tiled_sb m bound h l : m0 ≈ m -> tiled m0 bound h l -> tiled m bound h l.
Proof.
  intros Hm. induction 1 as [|h l Ha Hs Hb Ht IH]; [constructor|].
  rewrite <- (sb_size m h Hm) in *. constructor; try done. by eapply sb_acc.
Qed.

Lemma free_bit_test w : (Z.land w FREE_BIT =? 0) = negb (is_free_word w).
Proof. unfold is_free_word. rewrite <- (land_pow2_testbit w 1) by lia. change FREE_BIT with (2 ^ 1). by rewrite negb_involutive. Qed.

Lemma is_small_object_spec m p r : m0 ≈ m -> r ∈ small_regions e -> rstart r <= p < rend r ->
  is_small_object e m p r = Ok (bool_decide (p ∈ block_objects r ((p - rstart r) / GC_BLOCKSIZE))).
Proof.
  intros Hm Hr Hp. destruct (ao_region Hao r Hr) as (H0 & Hal & He & _). unfold is_small_object.
  set (pos := (p - rstart r) / GC_BLOCKSIZE). rewrite (proj2 (Z.eqb_neq p 0)) by lia.
  assert (0 <= pos < 512) as Hpos by (unfold pos, GC_BLOCKSIZE, GC_REGIONSIZE in *; dmlia).
  change (MEMALIGN - 1) with (Z.ones 3). rewrite Z.land_ones by lia. change (2 ^ 3) with 8. cbn [orb].
  destruct (Z.eqb_spec (p mod 8) 0) as [Hp8|Hp8]; cbn [negb].
  2: { rewrite bool_decide_false; [done|]. by intros (_ & ? & _)%block_objects_range; [|done]. }
  rewrite block_used_spec by done. cbn [mbind res_bind].
  destruct (used r pos) eqn:Hu; cbn [negb].
  2: { rewrite block_unused by done. by rewrite bool_decide_false by (apply not_elem_of_nil). }
  destruct (block_tiled r pos Hr Hu) as (l & Ht & Hl & _ & ->). apply (tiled_sb m) in Ht as Htm; [|done].
  assert (ROUNDDOWNBLOCKSIZE p = block_start r pos) as ->.
  { unfold ROUNDDOWNBLOCKSIZE, block_start, pos. change (Z.lnot (GC_BLOCKSIZE - 1)) with (- 2 ^ 12).
    rewrite land_neg_pow2 by lia. unfold GC_BLOCKSIZE in *. dmlia. }
  unfold GC_HEAD, MEMALIGN. change (8 - 4) with 4.
  assert (block_start r pos <= p <= block_start r pos + 4088) as Hrange.
  { unfold block_start, pos, GC_BLOCKSIZE in *. dmlia. }
  destruct (find_header_spec m _ _ l Htm BLOCK_FUEL (p - 4)) as (y & -> & Hge & Hlt & _); [done|lia|].
  cbn [mbind res_bind]. destruct (Z.eqb_spec y (p - 4)) as [->|Hne].
  - assert (p - 4 ∈ l) as Hin.
    { destruct (Z.lt_ge_cases (p - 4) (block_start r pos + 4)) as [Hb|Hb]; [specialize (Hlt Hb); lia|].
      destruct (proj1 (Hge Hb) eq_refl); [done|lia]. }
    destruct (tiled_range _ _ _ _ _ Htm Hin) as (_ & _ & Hacc). rewrite ld_acc by done. cbn [mbind res_bind].
    rewrite free_bit_test. f_equal. assert (is_free_word (rd m (p - 4)) = is_free_word (rd m0 (p - 4))) as ->.
    { apply (sb_bits _ _ _ Hm). lia. }
    symmetry. destruct (is_free_word (rd m0 (p - 4))) eqn:Hf; cbn [negb].
    + apply bool_decide_eq_false. intros (h & Hh & Hin')%list_elem_of_fmap. apply list_elem_of_filter in Hin' as [Hff _].
      replace (p - 4) with h in Hf by lia. congruence.
    + apply bool_decide_eq_true, list_elem_of_fmap. exists (p - 4). split; [lia|]. by apply list_elem_of_filter.
  - rewrite bool_decide_false; [done|]. intros (h & Hh & [_ Hin]%list_elem_of_filter)%list_elem_of_fmap.
    destruct (tiled_range _ _ _ _ _ Htm Hin) as (? & _ & _). apply Hne, Hge; [lia|]. left. by replace (p - 4) with h by lia.
Qed.

Lemma chain_find_spec m p head n l : m0 ≈ m -> chained head n l -> forall k, (length l <= k)%nat ->
  chain_find k m n p = Ok (bool_decide (p ∈ rd m0 <$> l)).
Proof.
  intros Hm. induction 1 as [Hs H0|n l Hs1 Hs2 Hs3 Hn _ _ _ _ Hc IH]; intros k Hk.
  - destruct k; cbn [chain_find]; unfold node_object; rewrite (ld_stable m) by done; cbn [mbind res_bind]; by rewrite H0.
  - destruct k as [|k]; cbn in Hk; [lia|]. cbn [chain_find]. unfold node_object. rewrite (ld_stable m) by done.
    cbn [mbind res_bind]. rewrite (proj2 (Z.eqb_neq _ _)) by done.
    destruct (Z.eqb_spec (rd m0 n) p) as [Heq|Hne].
    + rewrite bool_decide_true; [done|]. cbn. rewrite Heq. constructor.
    + unfold node_next. rewrite (ld_stable m) by done. cbn [mbind res_bind]. rewrite IH by (done || lia).
      f_equal. apply bool_decide_ext. cbn. rewrite elem_of_cons. split; [tauto|]. by intros [->|].
Qed.

Lemma is_object_spec m p : m0 ≈ m -> is_object fuel e m p = Ok (bool_decide (p ∈ objects)).
Proof.
  intros Hm. unfold is_object. destruct (region_find_spec (region_table e) p (ao_table Hao) (ao_some Hao)) as (o & -> & Ho).
  cbn [mbind res_bind].
  assert (forall r r', o = Some r -> r' ∈ region_table e -> rstart r' <= p < rend r' -> r' = r) as Huniq.
  { intros r r' -> Hr' Hp'. assert (Some r = Some r') by (by apply Ho). congruence. }
  destruct o as [r|].
  2: { rewrite bool_decide_false; [done|]. intros [Hp|Hp]%elem_of_app.
       - apply large_in_region in Hp as (r & Hr & _ & Hp). by assert (None = Some r) by (by apply Ho).
       - apply small_in_region in Hp as (r & Hr & _ & Hp & _). by assert (None = Some r) by (by apply Ho). }
  destruct (proj1 (Ho r) eq_refl) as [Hr Hp]. destruct (Z.eqb_spec (rtype r) GC_REGION_SMALL) as [Ht|Ht].
  - assert (r ∈ small_regions e) as Hrs by (by apply (ao_small Hao)).
    rewrite is_small_object_spec by done. f_equal. apply bool_decide_ext. unfold objects. rewrite elem_of_app. split.
    + intros Hin. right. apply elem_of_small. eexists r, _. split_and!; [done| | |exact Hin];
        destruct (ao_region Hao r Hrs) as (_ & _ & He & _); unfold GC_BLOCKSIZE, GC_REGIONSIZE in *; dmlia.
    + intros [Hl|Hs].
      * apply large_in_region in Hl as (r' & Hr' & Ht' & Hp'). rewrite (Huniq r r') in Ht' by done. rewrite Ht in Ht'. discriminate.
      * apply small_in_region in Hs as (r' & Hr' & _ & Hp' & _ & Hb). by rewrite (Huniq r r') in Hb by done.
  - assert (p ∉ small_objects) as Hns.
    { intros (r' & Hr' & Ht' & Hp' & _)%small_in_region. apply Ht. by rewrite <- (Huniq r r') by done. }
    destruct (Z.eqb_spec (rtype r) GC_REGION_LARGE) as [Htl|Htl].
    + pose proof (Z.mod_pos_bound (large_set_hash p) _ LARGE_SET_SIZE_pos) as Hb.
      destruct (chain_spec _ Hb) as (l & Hl & Hc & _ & Hobj & Hst).
      unfold large_set_exists, node_next, large_bucket. fold (chain_head (large_set_hash p mod LARGE_SET_SIZE)).
      rewrite (ld_stable m) by done. cbn [mbind res_bind].
      rewrite (chain_find_spec m p (chain_head (large_set_hash p mod LARGE_SET_SIZE)) _ l) by (done || lia).
      f_equal. apply bool_decide_ext. rewrite <- Hobj, <- elem_of_large. unfold objects. rewrite elem_of_app. tauto.
    + rewrite bool_decide_false; [done|]. intros [Hl|Hs]%elem_of_app; [|done].
      apply large_in_region in Hl as (r' & Hr' & Ht' & Hp'). apply Htl. by rewrite <- (Huniq r r') by done.
Qed.

(** ** What the walk functions mark *)

(** A value that is marked, a word whose content is marked, and a word whose
    content is marked if it happens to be an object. *)
Inductive slot := Val (v : Z) | At (a : Z) | Maybe (a : Z).

Definition slot_ref (x : slot) : Z :=
  match x with
  | Val v => v
  | At a => rd m0 a
  | Maybe a => if bool_decide (rd m0 a ∈ objects) then rd m0 a else 0
  end.

Definition slot_ok (x : slot) : Prop :=
  match x with
  | Val v => ref_ok m0 objects v
  | At a => stable a /\ ref_ok m0 objects (rd m0 a)
  | Maybe a => stable a
  end.

Fixpoint object_slots (n : nat) (c p : Z) : option (list slot) :=
  if c =? 0 then Some [] else
  k ← classes e !! c;
  match n with
  | O => None
  | S n' =>
      rest ← object_slots n' (c_superclass k) p;
      Some (((fun fld => At (p + f_boffset fld)) <$> filter (fun fld => f_isref fld = true) (rev (CLASS_IFIELDS k))) ++ rest)
  end.

Definition class_slots (c : jclass) : list slot :=
  Val (c_loader c) ::
  (if CSTATE_PREPARED <=? c_state c then
     ((fun x => Val x.2) <$> filter (fun x => x.1 = CONSTANT_ResolvedString) (tail (c_constants c))) ++
     ((fun fld => At (f_addr fld)) <$> filter (fun fld => f_isref fld && negb (f_is_class fld) = true) (CLASS_SFIELDS c))
   else []).

(** The slots a walk function visits, with the words it reads to find them. *)
Definition walk_slots (w : walker) (p : Z) : option (list Z * list slot) :=
  match w with
  | Walk_null => Some ([], [])
  | Walk_ref_array => Some ([p + 8], At <$> word_range (OBJARRAY_DATA p) (rd m0 (p + 8)))
  | Walk_class => c ← classes e !! p; Some ([], class_slots c)
  | Walk_object => c ← dtable_class e !! rd m0 p; l ← object_slots fuel c p; Some ([p], l)
  end.

Definition slots_of (p : Z) : option (list Z * list slot) :=
  c ← dtable_class e !! rd m0 p; k ← classes e !! c;
  '(reads, l) ← walk_slots (c_walk k) p; Some (p :: reads, l).

Definition walk_ok (o : option (list Z * list slot)) : Prop :=
  exists reads l, o = Some (reads, l) /\ Forall stable reads /\ Forall slot_ok l.

Definition slots (o : option (list Z * list slot)) : list Z := slot_ref <$> from_option snd [] o.

Definition thread_slots (t : Z * option (Z * Z)) : list slot :=
  Val t.1 :: match t.2 with
             | None => []
             | Some (lo, hi) => Maybe <$> word_range lo ((u32 (hi - lo) + 3) / 4)
             end.

Definition root_objects : list (Z * walker) := flat_map (fun bundle => bundle) (roots e).

Definition refs_of (p : Z) : list Z := slots (slots_of p).

Definition roots_of : list Z :=
  flat_map (fun x => slots (walk_slots x.2 x.1)) root_objects ++
  out_of_memory_error e :: flat_map (fun t => slot_ref <$> thread_slots t) (live_threads e).

(** The heap the collector can walk. *)
Record heap_layout : Prop := {
  hl_objects p : p ∈ objects -> walk_ok (slots_of p);
  hl_roots x : x ∈ root_objects -> walk_ok (walk_slots x.2 x.1);
  hl_error : ref_ok m0 objects (out_of_memory_error e);
  hl_threads t : t ∈ live_threads e -> Forall slot_ok (thread_slots t) }.

Context (Hhl : heap_layout).

Abbreviation mark := (mark fuel e).
Abbreviation mark_potential := (mark_potential fuel e).

Definition run_slot (x : slot) : mark_st -> res failure mark_st :=
  match x with Val v => mark v | At a => at_word mark a | Maybe a => at_word mark_potential a end.

(** *** Loops under an invariant *)

Definition keeps (f : mark_st -> res failure mark_st) : Prop :=
  forall s s', m0 ≈ mem s -> f s = Ok s' -> m0 ≈ mem s'.

Definition same_on (f g : mark_st -> res failure mark_st) : Prop := forall s, m0 ≈ mem s -> f s = g s.

Lemma keeps_bind f g : keeps f -> keeps g -> keeps (fun s => s ← f s; g s).
Proof. intros Hf Hg s s' Hm E. inv_res. eapply Hg; [|done]. by eapply Hf. Qed.

Lemma keeps_each {A} (f : A -> mark_st -> res failure mark_st) l : (forall x, x ∈ l -> keeps (f x)) -> keeps (each f l).
Proof.
  induction l as [|x l IH]; intros Hf; cbn [each].
  - intros s s' Hm [= <-]. done.
  - apply keeps_bind; [apply Hf; constructor|]. apply IH. intros y Hy. apply Hf. by constructor.
Qed.

Lemma same_on_each {A} (f g : A -> mark_st -> res failure mark_st) l :
  (forall x, x ∈ l -> same_on (f x) (g x) /\ keeps (g x)) -> same_on (each f l) (each g l).
Proof.
  induction l as [|x l IH]; intros Hfg s Hm; cbn [each]; [done|].
  destruct (Hfg x ltac:(constructor)) as [Hx Hk]. rewrite Hx by done. destruct (g x s) as [s1|] eqn:E; [|done]. cbn [mbind res_bind].
  apply IH; [|by eapply Hk]. intros y Hy. apply Hfg. by constructor.
Qed.

Lemma each_app {A} (f : A -> mark_st -> res failure mark_st) l1 l2 s : each f (l1 ++ l2) s = (s ← each f l1 s; each f l2 s).
Proof. revert s. induction l1 as [|x l1 IH]; intros s; [done|]. cbn [each app]. destruct (f x s); [apply IH|done]. Qed.

Lemma each_flat_map {A B} (g : A -> list B) (f : B -> mark_st -> res failure mark_st) l : forall s,
  each (fun x => each f (g x)) l s = each f (flat_map g l) s.
Proof.
  induction l as [|x l IH]; intros s; [done|]. cbn [each flat_map]. rewrite each_app. destruct (each f (g x) s); [apply IH|done].
Qed.

Lemma each_map {A B} (g : A -> B) (f : B -> mark_st -> res failure mark_st) l s :
  each (fun x => f (g x)) l s = each f (g <$> l) s.
Proof. apply each_fmap. Qed.

Lemma each_filter {A} (P : A -> Prop) `{!forall x, Decision (P x)} (f g : A -> mark_st -> res failure mark_st) l :
  (forall x s, P x -> f x s = g x s) -> (forall x s, ~ P x -> f x s = Ok s) -> forall s, each f l s = each g (filter P l) s.
Proof.
  intros Hp Hn. induction l as [|x l IH]; intros s; [done|]. rewrite filter_cons. destruct (decide (P x)) as [Hx|Hx]; cbn [each].
  - rewrite Hp by done. destruct (g x s); [apply IH|done].
  - rewrite Hn by done. cbn. apply IH.
Qed.

(** *** [mark] and the slots *)

Lemma keeps_mark r : keeps (mark r).
Proof.
  intros s s' Hm E. unfold GcMark.mark in E. destruct (r =? 0); [by injection E as <-|].
  destruct (HEADER (mem s) r) as [w|] eqn:Ew; cbn [mbind res_bind] in E; [|done].
  destruct (negb (Z.land w MARK_BIT =? 0)); [by injection E as <-|].
  rewrite is_object_spec in E by done. cbn [mbind res_bind] in E.
  destruct (bool_decide (r ∈ objects)) eqn:Hr; cbn [massert assert_or mbind res_bind] in E; [|done].
  apply bool_decide_eq_true in Hr. unfold set_HEADER, GC_HEAD in E.
  assert (acc (mem s) (r - 4)) as Ha by (eapply sb_acc; [done|]; by apply objects_acc).
  rewrite mark_header_acc in Ew by done. injection Ew as <-.
  rewrite st_acc in E by done. cbn [mbind res_bind] in E. pose proof (set_mark_same objects m0 (mem s) r Hm Hr) as Hm'.
  assert (forall s0, mem s0 = upd (mem s) (r - 4) (Z.lor (hdr (mem s) r) MARK_BIT) -> push r s0 = Ok s' -> m0 ≈ mem s') as Hpush.
  { intros s0 Hs0 Hpu. unfold push in Hpu. inv_res. cbn. by rewrite Hs0. }
  case_test_in E; [by eapply Hpush; [|exact E]|].
  destruct (mark_state _); [by eapply Hpush; [|exact E]|by injection E as <-..].
Qed.

Lemma run_slot_spec x : slot_ok x -> same_on (run_slot x) (mark (slot_ref x)).
Proof.
  intros Hx s Hm. destruct x as [v|a|a]; cbn [run_slot slot_ref slot_ok] in *; [done| |]; unfold at_word.
  - rewrite (ld_stable (mem s)) by (done || apply Hx). done.
  - rewrite (ld_stable (mem s)) by done. cbn [mbind res_bind]. unfold GcMark.mark_potential.
    rewrite is_object_spec by done. cbn [mbind res_bind]. by case_bool_decide.
Qed.

Lemma each_slots l : Forall slot_ok l -> same_on (each run_slot l) (each mark (slot_ref <$> l)).
Proof.
  intros Hl s Hm. rewrite <- (each_map slot_ref mark). apply same_on_each; [|done]. intros x Hx.
  rewrite Forall_forall in Hl. split; [apply run_slot_spec; by apply Hl|apply keeps_mark].
Qed.

Lemma object_walker_slots n : forall c p s l, object_slots n c p = Some l ->
  object_walker_from fuel e n c p s = each run_slot l s.
Proof.
  induction n as [|n IH]; intros c p s l; cbn [object_slots object_walker_from]; destruct (c =? 0); try (by intros [= <-]);
    destruct (classes e !! c) as [k|] eqn:Ek; try done. cbn [mbind option_bind of_option res_bind].
  destruct (object_slots n (c_superclass k) p) as [rest|] eqn:Er; [|done]. intros [= <-].
  rewrite each_app, <- each_map.
  rewrite <- (each_filter (fun fld => f_isref fld = true)
    (fun fld s => if f_isref fld then at_word mark (p + f_boffset fld) s else Ok s) (fun fld => run_slot (At (p + f_boffset fld)))).
  - destruct (each _ _ s); [|done]. cbn [mbind res_bind]. by apply IH.
  - intros fld s' ->. done.
  - intros fld s' Hf. by destruct (f_isref fld).
Qed.

Lemma class_walker_slots c p s : classes e !! p = Some c -> gc_walk_class fuel e p s = each run_slot (class_slots c) s.
Proof.
  intros Hc. unfold gc_walk_class, class_slots. rewrite Hc. cbn [of_option mbind res_bind each run_slot].
  destruct (mark (c_loader c) s) as [s1|]; [|done]. cbn [mbind res_bind]. destruct (CSTATE_PREPARED <=? c_state c); [|done].
  rewrite each_app, <- !each_map.
  rewrite <- (each_filter (fun x : Z * Z => x.1 = CONSTANT_ResolvedString)
    (fun x s => let '(tag, data) := x in if tag =? CONSTANT_ResolvedString then mark data s else Ok s) (fun x => run_slot (Val x.2))).
  - destruct (each _ _ s1) as [s2|]; [|done]. cbn [mbind res_bind]. rewrite <- each_map.
    rewrite <- (each_filter (fun fld => f_isref fld && negb (f_is_class fld) = true)
      (fun fld s => if f_isref fld && negb (f_is_class fld) then at_word mark (f_addr fld) s else Ok s)
      (fun fld => run_slot (At (f_addr fld)))); [done| |].
    + intros fld s' ->. done.
    + intros fld s' Hf. by destruct (_ && _).
  - intros [tag data] s' Ht. cbn in *. subst. by rewrite Z.eqb_refl.
  - intros [tag data] s' Ht. cbn in *. by apply Z.eqb_neq in Ht as ->.
Qed.

Lemma walk_with_slots w p : walk_ok (walk_slots w p) -> same_on (walk_with fuel e w p) (each mark (slots (walk_slots w p))).
Proof.
  intros (reads & l & Hw & Hr & Hl) s Hm. unfold slots. rewrite Hw. cbn [from_option snd]. rewrite <- each_slots by done.
  destruct w; cbn [walk_slots walk_with] in *.
  - by injection Hw as <- <-.
  - injection Hw as <- <-. unfold gc_walk_ref_array, ARRAY_SIZE. rewrite (ld_stable (mem s)) by (by inversion Hr || done).
    cbn [mbind res_bind]. by rewrite <- each_map.
  - destruct (classes e !! p) as [c|] eqn:Hc; [|done]. injection Hw as <- <-. by apply class_walker_slots.
  - destruct (dtable_class e !! rd m0 p) as [c|] eqn:Hc; [|done]. cbn [mbind option_bind] in Hw.
    destruct (object_slots fuel c p) as [l'|] eqn:Hl'; [|done]. injection Hw as <- <-.
    unfold object_walker, OBJECT_CLASS. rewrite (ld_stable (mem s)) by (by inversion Hr || done). cbn [mbind res_bind].
    rewrite Hc. cbn [of_option mbind res_bind]. by apply object_walker_slots.
Qed.

Lemma WALK_slots p : p ∈ objects -> same_on (WALK fuel e p) (each mark (refs_of p)).
Proof.
  intros Hp s Hm. destruct (hl_objects Hhl p Hp) as (reads & l & Hw & Hr & Hl). unfold refs_of. rewrite Hw.
  unfold slots_of in Hw. destruct (dtable_class e !! rd m0 p) as [c|] eqn:Hc; [|done]. cbn [mbind option_bind] in Hw.
  destruct (classes e !! c) as [k|] eqn:Hk; [|done]. cbn [mbind option_bind] in Hw. destruct (walk_slots (c_walk k) p) as [[reads' l']|] eqn:Hws; [|done].
  injection Hw as <- <-. inversion Hr as [|? ? Hpr Hr']; subst.
  unfold WALK, OBJECT_CLASS. rewrite (ld_stable (mem s)) by done. cbn [mbind res_bind]. rewrite Hc. cbn [of_option mbind res_bind].
  rewrite Hk. cbn [of_option mbind res_bind].
  rewrite walk_with_slots by (done || (rewrite Hws; by exists reads', l')). by rewrite Hws.
Qed.

(** *** The roots *)

Lemma keeps_each_mark l : keeps (each mark l).
Proof. apply keeps_each. intros r _. apply keeps_mark. Qed.

Lemma thread_walk t : Forall slot_ok (thread_slots t) ->
  same_on (fun s => s ← mark t.1 s; gc_walk_thread fuel e t.2 s) (each mark (slot_ref <$> thread_slots t)).
Proof.
  intros Ht s Hm. rewrite <- each_slots by done. unfold thread_slots. cbn [each run_slot].
  destruct (mark t.1 s) as [s1|]; [|done]. cbn [mbind res_bind]. destruct t as [tid [[lo hi]|]]; [|done]. cbn [snd].
  by rewrite <- each_map.
Qed.

Lemma walk_roots_refs : same_on (walk_roots fuel e) (each mark roots_of).
Proof.
  intros s Hm. unfold walk_roots, roots_of. rewrite each_app, (each_flat_map (fun bundle => bundle)). fold root_objects.
  assert (same_on (each (fun x s => walk_with fuel e x.2 x.1 s) root_objects)
    (each mark (flat_map (fun x => slots (walk_slots x.2 x.1)) root_objects))) as Hr.
  { intros s1 Hm1. rewrite <- each_flat_map. apply same_on_each; [|done]. intros x Hx.
    split; [by apply walk_with_slots, (hl_roots Hhl)|apply keeps_each_mark]. }
  rewrite Hr by done. destruct (each mark _ s) as [s1|] eqn:E1; [|done]. cbn [mbind res_bind each].
  apply keeps_each_mark in E1; [|done]. destruct (mark (out_of_memory_error e) s1) as [s2|] eqn:E2; [|done]. cbn [mbind res_bind].
  apply keeps_mark in E2; [|done]. rewrite <- each_flat_map. apply same_on_each; [|done]. intros t Ht.
  split; [by apply thread_walk, (hl_threads Hhl)|apply keeps_each_mark].
Qed.

Lemma slots_ref_ok l r : Forall slot_ok l -> r ∈ slot_ref <$> l -> ref_ok m0 objects r.
Proof.
  rewrite Forall_forall. intros Hl (x & -> & Hx)%list_elem_of_fmap. specialize (Hl x Hx).
  destruct x; cbn in *; [done|by destruct Hl|]. case_bool_decide; [by right; left|by left].
Qed.

Lemma slots_of_ref_ok o r : walk_ok o -> r ∈ slots o -> ref_ok m0 objects r.
Proof. intros (reads & l & -> & _ & Hl). by apply slots_ref_ok. Qed.

Lemma roots_ref_ok r : r ∈ roots_of -> ref_ok m0 objects r.
Proof.
  unfold roots_of. rewrite elem_of_app, elem_of_cons, !elem_of_flat_map.
  intros [(x & Hx & Hr)|[->|(t & Ht & Hr)]].
  - eapply slots_of_ref_ok; [by apply (hl_roots Hhl)|done].
  - apply (hl_error Hhl).
  - eapply slots_ref_ok; [by apply (hl_threads Hhl)|done].
Qed.

(** *** Walking the heap after an overflow *)

Abbreviation walk_if_marked := (walk_if_marked fuel e).

Lemma keeps_walk_if_marked p : p ∈ objects -> keeps (walk_if_marked p).
Proof.
  intros Hp s s' Hm E. unfold GcMark.walk_if_marked in E. destruct (HEADER _ _); cbn [mbind res_bind] in E; [|done].
  case_test_in E; [|by injection E as <-]. rewrite WALK_slots in E by done. by eapply keeps_each_mark.
Qed.

Lemma keeps_walk_all l : (forall p, p ∈ l -> p ∈ objects) -> keeps (each walk_if_marked l).
Proof. intros Hl. apply keeps_each. intros p Hp. by apply keeps_walk_if_marked, Hl. Qed.

Lemma walk_chain_spec head n l : chained head n l -> (forall x, x ∈ l -> rd m0 x ∈ objects) -> forall k, (length l <= k)%nat ->
  same_on (walk_chain fuel e k head n) (each walk_if_marked (rd m0 <$> l)).
Proof.
  induction 1 as [Hs H0|n l Hs1 Hs2 Hs3 Hn Hn0 Hnh Hp Hx Hc IH]; intros Hobj k Hk s Hm.
  - destruct k; cbn [walk_chain]; unfold node_object; rewrite (ld_stable (mem s)) by done; cbn [mbind res_bind]; by rewrite H0.
  - destruct k as [|k]; cbn in Hk; [lia|]. cbn [walk_chain fmap list_fmap each].
    unfold node_object, node_prev, node_next. rewrite (ld_stable (mem s) n), (ld_stable (mem s) (n + 4)), (ld_stable (mem s) (n + 8)) by done.
    cbn [mbind res_bind]. rewrite !(proj2 (Z.eqb_neq _ _)) by done. cbn [negb massert assert_or mbind res_bind].
    destruct (walk_if_marked (rd m0 n) s) as [s1|] eqn:E; [|done]. cbn [mbind res_bind].
    apply keeps_walk_if_marked in E; [|apply Hobj; by constructor|done].
    rewrite (ld_stable (mem s1)) by done. cbn [mbind res_bind]. apply IH; [|lia|done]. intros x Hin. apply Hobj. by constructor.
Qed.

Lemma walk_large_spec : same_on (walk_large_objects fuel e) (each walk_if_marked large_objs).
Proof.
  intros s Hm. unfold walk_large_objects, large_objs. rewrite <- each_flat_map. apply same_on_each; [|done].
  intros i Hi%elem_of_seqZ. destruct (chain_spec i) as (l & Hl & Hc & _ & Hobj & Hst); [lia|].
  assert (forall p, p ∈ chain_objects i -> p ∈ objects) as Hin.
  { intros p Hp. apply elem_of_app. left. apply elem_of_flat_map. exists i. split; [|done]. apply elem_of_seqZ. lia. }
  split; [|by apply keeps_walk_all]. intros s1 Hm1. fold (chain_head i). unfold node_next.
  rewrite (ld_stable (mem s1)) by done. cbn [mbind res_bind]. rewrite Hobj. eapply walk_chain_spec; [done| |lia|done].
  intros x Hx. apply Hin. rewrite Hobj. apply list_elem_of_fmap. by exists x.
Qed.

Lemma walk_chunks_spec bound h l : tiled m0 bound h l ->
  (forall x, x ∈ l -> is_free_word (rd m0 x) = true -> ~ marked m0 (x + 4) /\ x + 4 ∉ objects) ->
  (forall x, x ∈ l -> is_free_word (rd m0 x) = false -> x + 4 ∈ objects) -> forall k, (length l <= k)%nat ->
  same_on (walk_chunks fuel e k h bound)
    (each walk_if_marked ((fun x => x + 4) <$> filter (fun x => is_free_word (rd m0 x) = false) l)).
Proof.
  induction 1 as [|h l Ha Hs Hb Ht IH]; intros Hfree Hobj k Hk s Hm.
  - destruct k; cbn [walk_chunks]; by rewrite Z.ltb_irrefl.
  - destruct k as [|k]; cbn in Hk; [lia|]. cbn [walk_chunks]. rewrite (proj2 (Z.ltb_lt _ _)) by done.
    assert (acc (mem s) h) as Ham by (by eapply sb_acc).
    rewrite chunk_size_ok by (done || by rewrite sb_size). cbn [mbind res_bind]. unfold GC_HEAD.
    assert (same_on (walk_chunks fuel e k (h + mask_size (rd m0 h)) bound)
      (each walk_if_marked ((fun x => x + 4) <$> filter (fun x => is_free_word (rd m0 x) = false) l))) as IH'.
    { apply IH; [| |lia]; intros x Hx; [apply Hfree|apply Hobj]; by constructor. }
    rewrite sb_size by done. destruct (is_free_word (rd m0 h)) eqn:Hf.
    + rewrite filter_cons_False by congruence. destruct (Hfree h ltac:(constructor) Hf) as [Hnm Hno].
      unfold GcMark.walk_if_marked at 1. rewrite mark_header_acc by (by replace (h + 4 - 4) with h by lia). cbn [mbind res_bind].
      rewrite mark_bit_test, negb_involutive. rewrite <- (marked_off_objs m0 objects (mem s)) in Hnm by done.
      unfold marked in Hnm. destruct (Z.testbit (hdr (mem s) (h + 4)) 0); [done|]. cbn [mbind res_bind]. by apply IH'.
    + rewrite filter_cons_True by done. cbn [fmap list_fmap each].
      destruct (walk_if_marked (h + 4) s) as [s1|] eqn:E; [|done]. cbn [mbind res_bind]. apply IH'.
      eapply keeps_walk_if_marked; [|done|done]. apply Hobj; [constructor|done].
Qed.

Lemma block_chunk_object r pos l x : r ∈ small_regions e -> 0 <= pos < 512 -> used r pos = true ->
  tiled m0 (block_start r pos + 4092) (block_start r pos + 4) l ->
  block_objects r pos = (fun h => h + 4) <$> filter (fun h => is_free_word (rd m0 h) = false) l -> x ∈ l ->
  x + 4 ∈ objects <-> is_free_word (rd m0 x) = false.
Proof.
  intros Hr Hpos Hu Ht Hb Hx. split.
  - intros Hin. destruct (tiled_range _ _ _ _ _ Ht Hx) as (Hran & _). destruct (ao_region Hao r Hr) as (_ & _ & He & _).
    pose proof Hr as Hr0. apply (ao_small Hao) in Hr0 as [Hrt Hty].
    assert (rstart r <= x + 4 < rend r) as Hxr by (unfold block_start, GC_BLOCKSIZE, GC_REGIONSIZE in *; lia).
    apply elem_of_app in Hin as [Hl|Hs].
    + apply large_in_region in Hl as (r' & Hr' & Hty' & Hp'). rewrite (region_unique (x + 4) r r') in Hty by done.
      rewrite Hty in Hty'. discriminate.
    + apply small_in_region in Hs as (r' & Hr' & _ & Hp' & _ & Hs). rewrite (region_unique (x + 4) r' r) in Hs by done.
      replace ((x + 4 - rstart r) / GC_BLOCKSIZE) with pos in Hs by (unfold block_start, GC_BLOCKSIZE in *; dmlia).
      rewrite Hb in Hs. apply list_elem_of_fmap in Hs as (h & Hh & [Hf _]%list_elem_of_filter).
      by replace x with h by lia.
  - intros Hf. apply elem_of_app. right. apply elem_of_small. exists r, pos. split_and!; try done; try lia.
    rewrite Hb. apply list_elem_of_fmap. exists x. split; [done|]. by apply list_elem_of_filter.
Qed.

Lemma walk_small_spec : same_on (walk_small_objects fuel e) (each walk_if_marked small_objects).
Proof.
  intros s Hm. unfold walk_small_objects, small_objects. rewrite <- each_flat_map. apply same_on_each; [|done].
  intros r Hr.
  assert (forall pos p, pos ∈ region_blocks r -> p ∈ block_objects r pos -> p ∈ objects) as Hobj.
  { intros pos p Hpos Hp. rewrite region_blocks_spec in Hpos by done. apply elem_of_app. right. apply elem_of_small.
    by exists r, pos. }
  split.
  2: { apply keeps_walk_all. intros p (pos & Hpos & Hp)%elem_of_flat_map. by eapply Hobj. }
  intros s1 Hm1. rewrite <- each_flat_map. apply same_on_each; [|done]. intros pos Hpos.
  split; [|apply keeps_walk_all; intros p; by apply Hobj]. rewrite region_blocks_spec in Hpos by done. intros s2 Hm2.
  unfold walk_block. rewrite block_used_spec by done. cbn [mbind res_bind]. destruct (used r pos) eqn:Hu; cbn [negb].
  2: { by rewrite block_unused. }
  destruct (block_tiled r pos Hr Hu) as (l & Ht & Hl & Hf & Hb). rewrite Hb. unfold GC_HEAD, MEMALIGN.
  apply walk_chunks_spec; [done| | |done|done]; intros x Hx Hfx.
  - split; [by apply Hf|]. rewrite (block_chunk_object r pos l) by done. congruence.
  - by rewrite (block_chunk_object r pos l).
Qed.

#[export] Instance layout_mark_heap : MarkHeap fuel e m0 objects refs_of roots_of.
Proof.
  split.
  - apply objects_nodup.
  - intros p Hp. by apply objects_acc.
  - intros p Hp. by apply objects_acc.
  - intros m p Hm Hp. rewrite is_object_spec by done. by rewrite bool_decide_true.
  - intros s p Hm Hp. by apply WALK_slots.
  - intros p r Hp Hr. eapply slots_of_ref_ok; [|done]. by apply (hl_objects Hhl).
  - intros s Hm. unfold handle_stack_overflow, objects. rewrite each_app, walk_large_spec by done.
    destruct (each walk_if_marked large_objs s) as [s1|] eqn:E; [|done]. cbn [mbind res_bind]. apply walk_small_spec.
    eapply keeps_walk_all; [|done|done]. intros p Hp. apply elem_of_app. by left.
  - intros s Hm. by apply walk_roots_refs.
  - apply roots_ref_ok.
Qed.

End Layout.

(** ** The mark phase *)

Section Phase.
Context (fuel : nat) (e : gc_env) (m0 : memory) (heap_size : Z) (f : finals) (s : mark_st).

(** The collector starts on a heap it can walk, with nothing marked, a mark
    stack of a reasonable size, and enough fuel. *)
Record phase_start : Prop := {
  ps_areas : areas_ok fuel e m0;
  ps_layout : heap_layout fuel e m0;
  ps_fuel : (length (objects fuel e m0) < fuel)%nat;
  ps_size : 3 <= mark_stack_size s < 2 ^ 31;
  ps_heap_size : 0 <= heap_size < 2 ^ 31;
  ps_mem : mem s = m0;
  ps_unmarked p : p ∈ objects fuel e m0 -> ~ marked m0 p;
  ps_finals : Forall (final_ok m0) (has_final f);
  ps_final_objects : Forall (fun n => ref_ok m0 (objects fuel e m0) (fn_object n)) (has_final f ++ do_final f) }.

(** What can be reached from the roots and the objects to be finalized. *)
Definition live (f' : finals) : Z -> Prop :=
  reach (objects fuel e m0) (refs_of fuel e m0) (roots_of fuel e m0 ++ map fn_object (do_final f')).

Lemma phase_spec : phase_start ->
  match mark_phase fuel e heap_size f s with
  | Ok (f', s') => exists m1, same_but_marks (objects fuel e m0) m0 m1 /\
      f' = mkFinals (rev (kept m1 (has_final f))) (rev (doomed m1 (has_final f)) ++ do_final f) /\
      phase_done m0 (objects fuel e m0) (refs_of fuel e m0) (roots_of fuel e m0 ++ map fn_object (do_final f')) s'
  | Err x => x = AssertionFailed /\ mark_stack_size s < Z.of_nat (length (objects fuel e m0))
  end.
Proof.
  intros [Hao Hhl Hf Hz Hh Hm Hu Hfin Hobj]. pose proof (layout_mark_heap fuel e m0 Hao Hhl).
  pose proof (mark_phase_spec fuel e m0 (objects fuel e m0) (refs_of fuel e m0) (roots_of fuel e m0) heap_size f s
    Hf Hz Hh Hm Hu Hfin Hobj) as Hp.
  destruct (mark_phase fuel e heap_size f s) as [[f' s']|x]; [|done].
  destruct Hp as (m1 & ? & ? & _ & ?). by exists m1.
Qed.

End Phase.

(** C1: the mark phase is a correct garbage detector.  On a heap whose blocks
    are tiled by chunks, whose large objects are chained and whose fields hold
    references, it returns with exactly the objects marked that are reachable
    from the roots, the thread stacks and the objects to be finalized, whatever
    overflows of the mark stack happened on the way; nothing but mark bits has
    changed, and when it ends in the collecting state the stack holds each
    marked object once.  The one way to fail is an assertion, and then there
    are more objects than entries in the mark stack. *)
Theorem mark_phase_correct (fuel : nat) (e : gc_env) (m0 : memory) (heap_size : Z) (f : finals) (s : mark_st)
    (Hs : phase_start fuel e m0 heap_size f s) :
  match mark_phase fuel e heap_size f s with
  | Ok (f', s') => same_but_marks (objects fuel e m0) m0 (mem s') /\
      (forall p, p ∈ objects fuel e m0 -> marked (mem s') p <-> live fuel e m0 f' p) /\
      (mark_state s' = MARK_STATE_COLLECT -> elems s' ≡ₚ filter (fun p => marked (mem s') p) (objects fuel e m0))
  | Err x => x = AssertionFailed /\ mark_stack_size s < Z.of_nat (length (objects fuel e m0))
  end.
Proof.
  pose proof (phase_spec fuel e m0 heap_size f s Hs) as Hp.
  destruct (mark_phase fuel e heap_size f s) as [[f' s']|x]; [|done]. by destruct Hp as (m1 & _ & -> & [? ? ? _ _]).
Qed.

(** C40: unreachable objects with finalizers are never finalized.
    [walk_finals] tests the mark bit of the list node, which is memory of the
    explicitly managed heap and always marked, not that of the object: no node
    moves to [do_final], and the unreachable objects stay unmarked, to be swept
    with their nodes still on the list. *)
Theorem finalizable_objects_are_lost (fuel : nat) (e : gc_env) (m0 : memory) (heap_size : Z) (f f' : finals) (s s' : mark_st)
    (Hs : phase_start fuel e m0 heap_size f s)
    (Hfixed : Forall (fun n => fn_node n ∉ objects fuel e m0 /\ marked m0 (fn_node n)) (has_final f))
    (Hrun : mark_phase fuel e heap_size f s = Ok (f', s')) :
  has_final f' = rev (has_final f) /\ do_final f' = do_final f /\
  forall n, n ∈ has_final f' -> fn_object n ∈ objects fuel e m0 -> ~ live fuel e m0 f (fn_object n) ->
    ~ marked (mem s') (fn_object n).
Proof.
  pose proof (phase_spec fuel e m0 heap_size f s Hs) as Hp. rewrite Hrun in Hp. destruct Hp as (m1 & Hm1 & -> & [_ Hmk _ _ _]).
  assert (kept m1 (has_final f) = has_final f /\ doomed m1 (has_final f) = []) as [Ek Ed].
  { rewrite Forall_forall in Hfixed. assert (forall n, n ∈ has_final f -> marked m1 (fn_node n)) as Hall.
    { intros n Hn. destruct (Hfixed n Hn). by apply (marked_off_objs m0 (objects fuel e m0)). }
    unfold kept, doomed. clear -Hall. induction (has_final f) as [|n l IH]; [done|].
    rewrite filter_cons_True, filter_cons_False by (try intros Hn; try apply Hn; apply Hall; constructor).
    destruct IH as [-> ->]; [intros; apply Hall; by constructor|done]. }
  cbn [has_final do_final] in *. rewrite Ek, Ed in *. cbn [rev app] in *. split_and!; [done|done|].
  intros n _ Hn Hl Hmn. apply Hl. by apply (Hmk _ Hn).
Qed.

(** ** A concrete heap

    One small region whose first block holds five objects of a class with three
    reference fields: [A], [B], [C] and [D] are reachable from a thread stack,
    [E] is not, but has a finalizer.  The rest of the block is a free chunk, and the
    rest of the region a group of free blocks. *)

Definition ex_words : list (Z * Z) := [
  (4096, 2097160); (4100, 12345); (4108, 17);
  (2097156, 24); (2097160, 100); (2097168, 2097184); (2097172, 2097208); (2097176, 2097232);
  (2097180, 24); (2097184, 100); (2097192, 2097160);
  (2097204, 24); (2097208, 100);
  (2097228, 24); (2097232, 100);
  (2097252, 24); (2097256, 100); (2097264, 2097160);
  (2097276, 3970); (2101248, 2093056)].

Definition ex_ranges : list (Z * Z) := [(65536, 262144); (2097152, 4194304); (4096, 8192)].

Definition write_all (l : list (Z * Z)) (m : memory) : memory := foldr (fun x m => upd m x.1 x.2) m l.

Definition get_memory (r : res failure memory) : memory := match r with Ok m => m | Err _ => mkMem ∅ [] end.

Definition ex_sentinels : memory := get_memory (large_set_init (mkMem ∅ ex_ranges) 65536).

Definition ex_start : memory := write_all ex_words ex_sentinels.

Definition ex_class : jclass :=
  mkClass Walk_object 0 10 0 [] [mkField true 8 0 false; mkField true 12 0 false; mkField true 16 0 false] 0.

Definition ex_env : gc_env :=
  mkEnv [mkRegion 0 2097152 4194304 1] [mkRegion 0 2097152 4194304 1] {[ 0 := 1 :: replicate 15 0 ]} 65536
    {[ 100 := 200 ]} {[ 200 := ex_class ]} [] 0 [(0, Some (4096, 4104))].

Definition ex_objects : list Z := [2097160; 2097184; 2097208; 2097232; 2097256].

Definition ex_finals : finals := mkFinals [mkFinal 4112 2097256] [].

Definition ex_stack (n : nat) : mark_st := mkMark ex_start (replicate n 0) 0 0 0 0 MARK_STATE_NORMAL.

Lemma write_all_outside l m lo hi a : forallb (fun x => (x.1 <? lo) || (hi <=? x.1)) l = true -> lo <= a < hi ->
  rd (write_all l m) a = rd m a.
Proof.
  intros Hl Ha. induction l as [|x l IH]; [done|]. cbn [forallb] in Hl. apply andb_true_iff in Hl as [Hx Hl].
  cbn [write_all foldr]. rewrite rd_upd_ne by lia. by apply IH.
Qed.

Lemma write_all_ranges l m : ranges (write_all l m) = ranges m.
Proof. induction l as [|x l IH]; [done|]. exact IH. Qed.

Lemma ex_sentinels_spec : ranges ex_sentinels = ex_ranges /\
  (forall i, 0 <= i < LARGE_SET_SIZE -> rd ex_sentinels (large_node 65536 i) = 0 /\
    rd ex_sentinels (large_node 65536 i + 8) = large_node 65536 i).
Proof.
  unfold ex_sentinels. destruct (large_set_init_spec (mkMem ∅ ex_ranges) 65536) as (m & -> & Hls & Hr & _).
  { intros i Hi. change LARGE_SET_SIZE with 16381 in Hi. unfold node_acc, large_node, acc.
    split_and!; (eapply mapped_in; [constructor|lia|lia|dmlia]). }
  split; [exact Hr|]. intros i Hi. destruct (ls_table _ _ _ Hls i Hi) as [_ H0].
  pose proof (ls_linked _ _ _ Hls i Hi) as [H8 _]. split; assumption.
Qed.

#[local] Opaque ex_sentinels.

Lemma ex_start_spec : ranges ex_start = ex_ranges /\
  (forall i, 0 <= i < LARGE_SET_SIZE -> rd ex_start (large_node 65536 i) = 0 /\
    rd ex_start (large_node 65536 i + 8) = large_node 65536 i).
Proof.
  destruct ex_sentinels_spec as [Hr Hz]. unfold ex_start. rewrite write_all_ranges. split; [exact Hr|].
  intros i Hi. destruct (Hz i Hi) as [H0 H8]. change LARGE_SET_SIZE with 16381 in Hi. unfold large_node in *.
  assert (forall a, 65536 <= a < 262144 -> rd (write_all ex_words ex_sentinels) a = rd ex_sentinels a) as Hw.
  { intros a Ha. apply (write_all_outside _ _ 65536 262144); [vm_compute; reflexivity|exact Ha]. }
  split; (etransitivity; [apply Hw; lia|assumption]).
Qed.

#[local] Opaque ex_start LARGE_SET_SIZE.

Lemma ex_acc a lo hi : (lo, hi) ∈ ex_ranges -> lo <= a -> a + 4 <= hi -> a mod 4 = 0 -> acc ex_start a.
Proof. intros Hin H1 H2 H3. unfold acc. rewrite (proj1 ex_start_spec). by eapply mapped_in. Qed.

Lemma ex_small_objects : small_objects ex_env ex_start = ex_objects.
Proof. vm_compute. reflexivity. Qed.

Lemma ex_chain i : 0 <= i < LARGE_SET_SIZE -> chain_objects 10 ex_env ex_start i = [].
Proof.
  intros Hi. destruct (proj2 ex_start_spec i Hi) as [H0 H8]. unfold chain_objects, chain_head. cbn [large_objects ex_env].
  rewrite H8. cbn [chain_nodes]. by rewrite H0.
Qed.

Lemma ex_objects_spec : objects 10 ex_env ex_start = ex_objects.
Proof.
  unfold objects. rewrite ex_small_objects. unfold large_objs.
  assert (forall l, (forall i, i ∈ l -> 0 <= i < LARGE_SET_SIZE) -> flat_map (chain_objects 10 ex_env ex_start) l = []) as ->; [|done|].
  - induction l as [|i l IH]; [done|]. intros Hl. cbn [flat_map]. rewrite ex_chain by (apply Hl; constructor).
    apply IH. intros j Hj. apply Hl. by constructor.
  - intros i Hi%elem_of_seqZ. lia.
Qed.

(** Checks that evaluate the hypotheses on the heap. *)
Definition stable_b (a : Z) : bool := mapped ex_ranges a && negb (bool_decide (a + 4 ∈ ex_objects)).
Definition ref_b (v : Z) : bool := (v =? 0) || bool_decide (v ∈ ex_objects).
Definition slot_b (x : slot) : bool :=
  match x with Val v => ref_b v | At a => stable_b a && ref_b (rd ex_start a) | Maybe a => stable_b a end.
Definition walk_b (o : option (list Z * list slot)) : bool :=
  match o with Some (reads, l) => forallb stable_b reads && forallb slot_b l | None => false end.

Fixpoint tiled_b (n : nat) (m : memory) (bound h : Z) : bool :=
  if h =? bound then true else
  match n with
  | O => false
  | S n' => mapped (ranges m) h && (0 <? mask_size (rd m h)) && (h <? bound) && tiled_b n' m bound (h + mask_size (rd m h))
  end.

Lemma tiled_b_sound n m bound : forall h, tiled_b n m bound h = true -> tiled m bound h (chunk_list n m h bound).
Proof.
  induction n as [|n IH]; intros h; cbn [tiled_b chunk_list]; (destruct (Z.eqb_spec h bound) as [->|Hne]; [intros _|]); try done.
  - constructor.
  - rewrite Z.ltb_irrefl. constructor.
  - intros [[[Ha Hs]%andb_true_iff Hb]%andb_true_iff Ht]%andb_true_iff. rewrite Hb. constructor; [exact Ha|lia|lia|by apply IH].
Qed.

Lemma stable_b_sound a : stable_b a = true -> stable 10 ex_env ex_start a.
Proof.
  intros [Ha Ho]%andb_true_iff. split; [unfold acc; by rewrite (proj1 ex_start_spec)|]. rewrite ex_objects_spec.
  by apply negb_true_iff, bool_decide_eq_false in Ho.
Qed.

Lemma ref_b_sound v : ref_b v = true -> ref_ok ex_start (objects 10 ex_env ex_start) v.
Proof.
  rewrite ex_objects_spec. intros [->%Z.eqb_eq|Hv%bool_decide_eq_true]%orb_true_iff; [by left|by right; left].
Qed.

Lemma slot_b_sound x : slot_b x = true -> slot_ok 10 ex_env ex_start x.
Proof.
  destruct x; cbn [slot_b slot_ok].
  - apply ref_b_sound.
  - intros [Ha Hr]%andb_true_iff. split; [exact (stable_b_sound _ Ha)|exact (ref_b_sound _ Hr)].
  - apply stable_b_sound.
Qed.

Lemma forallb_Forall {A} (f : A -> bool) (P : A -> Prop) l : (forall x, f x = true -> P x) -> forallb f l = true -> Forall P l.
Proof. intros HP. induction l; cbn; [constructor|]. intros [? ?]%andb_true_iff. constructor; auto. Qed.

Lemma walk_b_sound o : walk_b o = true -> walk_ok 10 ex_env ex_start o.
Proof.
  destruct o as [[reads l]|]; [|done]. intros [Hr Hl]%andb_true_iff. exists reads, l. split_and!; [done| |].
  - by eapply forallb_Forall; [apply stable_b_sound|].
  - by eapply forallb_Forall; [apply slot_b_sound|].
Qed.

Lemma ex_used pos : used ex_env (mkRegion 0 2097152 4194304 1) pos = true -> pos = 0.
Proof.
  unfold used, block_used. cbn [usage ex_env rid]. rewrite lookup_singleton_eq. cbn [of_option mbind res_bind].
  destruct (zlookup _ (pos / 32)) as [w|] eqn:Hz; [|done]. cbn [of_option mbind res_bind].
  pose proof (zlookup_bound _ _ _ Hz) as Hb. cbn in Hb.
  assert (pos ∈ seqZ 0 512) as Hin by (apply elem_of_seqZ; dmlia). revert Hz. intros Hz Hu.
  assert (forallb (fun pos => match zlookup (1 :: replicate 15 0) (pos / 32) with
    | Some w => negb (negb (Z.land w (Z.shiftl 1 (pos mod 32)) =? 0)) || (pos =? 0) | None => true end) (seqZ 0 512) = true) as Hall
    by (vm_compute; reflexivity).
  rewrite forallb_forall in Hall. specialize (Hall pos (proj1 (list_elem_of_In _ _) Hin)). rewrite Hz, Hu in Hall.
  cbn in Hall. lia.
Qed.

Lemma ex_areas : areas_ok 10 ex_env ex_start.
Proof.
  split; cbn [region_table small_regions ex_env].
  - split; repeat constructor.
  - done.
  - intros r. rewrite list_elem_of_singleton. split; [by intros ->|tauto].
  - apply NoDup_singleton.
  - intros r ->%list_elem_of_singleton. split_and!; [done|done|done|]. eexists. split; [apply lookup_singleton_eq|done].
  - intros r pos ->%list_elem_of_singleton ->%ex_used. change (block_start _ 0) with 2097152.
    exists (chunk_list 10 ex_start (2097152 + 4) (2097152 + 4092)). split.
    + apply tiled_b_sound. vm_compute. reflexivity.
    + assert (forallb (fun h => negb (is_free_word (rd ex_start h)) || negb (Z.testbit (hdr ex_start (h + 4)) 0))
        (chunk_list 10 ex_start (2097152 + 4) (2097152 + 4092)) = true) as Hall by (vm_compute; reflexivity).
      rewrite forallb_forall in Hall. intros h Hh Hf. specialize (Hall h (proj1 (list_elem_of_In _ _) Hh)).
      rewrite Hf in Hall. unfold marked. by apply negb_true_iff in Hall as ->.
  - intros i Hi. unfold chain_head. cbn [large_objects ex_env].
    assert (forall k, k = 0 \/ k = 8 -> stable 10 ex_env ex_start (large_node 65536 i + k)) as Hst.
    { change LARGE_SET_SIZE with 16381 in Hi. unfold large_node. intros k Hk. clear -Hi Hk. split.
      - apply (ex_acc _ 65536 262144); [constructor|lia|lia|destruct Hk; subst; dmlia].
      - rewrite ex_objects_spec. unfold ex_objects. rewrite !elem_of_cons, elem_of_nil. lia. }
    destruct (proj2 ex_start_spec i Hi) as [H0 H8]. rewrite H8.
    split; [apply Hst; right; reflexivity|]. exists [].
    split; [apply Nat.lt_0_succ|]. split; [|split; [constructor|intros n Hn; inversion Hn]].
    apply chained_end; [|exact H0]. rewrite <- (Z.add_0_r (large_node 65536 i)). apply Hst. left. reflexivity.
Qed.

Lemma ex_layout : heap_layout 10 ex_env ex_start.
Proof.
  split.
  - rewrite ex_objects_spec. apply Forall_forall. eapply forallb_Forall; [intros p; apply walk_b_sound|]. vm_compute. reflexivity.
  - intros x Hx. by apply elem_of_nil in Hx.
  - by left.
  - intros t ->%list_elem_of_singleton. eapply forallb_Forall; [apply slot_b_sound|]. vm_compute. reflexivity.
Qed.

Lemma ex_phase_start n : 3 <= Z.of_nat n < 2 ^ 31 -> phase_start 10 ex_env ex_start 1000000 ex_finals (ex_stack n).
Proof.
  intros Hn. split.
  - apply ex_areas.
  - apply ex_layout.
  - rewrite ex_objects_spec. cbn. lia.
  - unfold mark_stack_size, ex_stack. cbn [mark_stack]. by rewrite length_replicate.
  - done.
  - done.
  - rewrite ex_objects_spec. apply Forall_forall. eapply (forallb_Forall (fun p => negb (Z.testbit (hdr ex_start p) 0))).
    + intros p Hp%negb_true_iff. unfold marked. by rewrite Hp.
    + vm_compute. reflexivity.
  - constructor; [|constructor]. unfold final_ok. cbn [fn_node]. apply (ex_acc (4112 - 4) 4096 8192); [apply list_elem_of_In; cbn; tauto|discriminate..|reflexivity].
  - constructor; [|constructor]. by apply ref_b_sound.
Qed.

Lemma ex_start_facts : 3 <= Z.of_nat 8 < 2 ^ 31 /\ 3 <= Z.of_nat 3 < 2 ^ 31.
Proof. vm_compute. split; split; congruence. Qed.

(** What a run of the mark phase on the example leaves. *)
Definition ex_run (n : nat) : res failure (finals * mark_st) := mark_phase 10 ex_env 1000000 ex_finals (ex_stack n).

Definition ex_marks (n : nat) : res failure (list bool * mark_state_t) :=
  '(_, s) ← ex_run n; Ok (map (fun p => bool_decide (marked (mem s) p)) ex_objects, mark_state s).

Lemma mark_phase_correct_witness : exists f' s', ex_run 8 = Ok (f', s') /\
  ex_marks 8 = Ok ([true; true; true; true; false], MARK_STATE_COLLECT) /\
  forall p, p ∈ objects 10 ex_env ex_start -> marked (mem s') p <-> live 10 ex_env ex_start f' p.
Proof.
  pose proof (mark_phase_correct 10 ex_env ex_start 1000000 ex_finals (ex_stack 8) (ex_phase_start 8 (proj1 ex_start_facts))) as Hp.
  assert (is_ok (ex_run 8) = true) as Hok by (vm_compute; reflexivity).
  change (mark_phase 10 ex_env 1000000 ex_finals (ex_stack 8)) with (ex_run 8) in Hp.
  destruct (ex_run 8) as [[f' s']|x]; [|discriminate Hok]. exists f', s'.
  split; [reflexivity|]. split; [vm_compute; reflexivity|exact (proj1 (proj2 Hp))].
Defined.

Lemma finalizable_objects_are_lost_witness : exists f' s', ex_run 8 = Ok (f', s') /\ do_final f' = [] /\ has_final f' = [mkFinal 4112 2097256].
Proof.
  assert (is_ok (ex_run 8) = true) as Hok by (vm_compute; reflexivity).
  destruct (ex_run 8) as [[f' s']|x] eqn:E; [|discriminate Hok]. exists f', s'. split; [reflexivity|].
  destruct (finalizable_objects_are_lost 10 ex_env ex_start 1000000 ex_finals f' (ex_stack 8) s'
    (ex_phase_start 8 (proj1 ex_start_facts))) as (Hh & Hd & _).
  - constructor; [|constructor]. split; [rewrite ex_objects_spec|].
    + apply (bool_decide_eq_false (4112 ∈ ex_objects)). vm_compute. reflexivity.
    + unfold marked. vm_compute. reflexivity.
  - exact E.
  - split; [exact Hd|exact Hh].
Defined.

(** An overflow of the mark stack while the live objects are being
    collected is not handled: with a mark stack of three entries and four live
    objects, [A] referring to the three others, collecting is given up for lack
    of room, one more object overflows the stack in the same walk, and the
    assertion that the state is [MARK_STATE_NORMAL] fails.  (With the stack of
    256K entries the code allocates, it takes an array of that many references.) *)
Theorem collecting_overflow_asserts :
  3 <= mark_stack_size (ex_stack 3) /\ match ex_run 3 with Err AssertionFailed => true | _ => false end = true.
Proof. split; [discriminate|vm_compute; reflexivity]. Qed.
