(* ===== verification/GcSort.v ===== *)
(** * Sorting the live objects (src/runtime/gc.c, lines 1442-1514)

    The radix sort that orders the collected set of live objects by address
    before the small object area is swept selectively. *)

From S2P Require Import Prelude GcHeap.

Definition RADIX_SIZE := 2048.
Definition RADIX_BITS := 11.
Definition RADIX_MASK := 0x7ff.

Definition at_index (a : list Z) (i : Z) : res failure Z := of_option BadAccess (zlookup a i).
Definition put_index (a : list Z) (i x : Z) : res failure (list Z) := of_option BadAccess (zstore a i x).

(** [((uintp)x >> shift) & RADIX_MASK] *)
Definition radix (shift x : Z) : Z := Z.land (Z.shiftr (u32 x) shift) RADIX_MASK.

(** [for (i = j; i < j + n; i++)] *)
Fixpoint for_loop {S} (f : Z -> S -> res failure S) (n : nat) (j : Z) (s : S) : res failure S :=
  match n with
  | O => Ok s
  | Datatypes.S n' => s ← f j s; for_loop f n' (j + 1) s
  end.

(** The array holds [set] and its copy; both are indices. *)
Definition count_radix (a : list Z) (set shift j : Z) (counts : list Z) : res failure (list Z) :=
  x ← at_index a (set + j);
  c ← at_index counts (radix shift x);
  put_index counts (radix shift x) (c + 1).

Definition set_position (j : Z) (s : list Z * Z) : res failure (list Z * Z) :=
  let '(counts, m) := s in
  count ← at_index counts j;
  counts ← put_index counts j m;
  Ok (counts, m + count).

Definition place_object (set dump shift j : Z) (s : list Z * list Z) : res failure (list Z * list Z) :=
  let '(a, counts) := s in
  x ← at_index a (set + j);
  c ← at_index counts (radix shift x);
  a ← put_index a (dump + c) x;
  counts ← put_index counts (radix shift x) (c + 1);
  Ok (a, counts).

Definition sort_pass (a : list Z) (set dump n shift : Z) : res failure (list Z) :=
  counts ← for_loop (count_radix a set shift) (Z.to_nat n) 0 (replicate (Z.to_nat RADIX_SIZE) 0);
  '(counts, _) ← for_loop set_position (Z.to_nat RADIX_SIZE) 0 (counts, 0);
  '(a, _) ← for_loop (place_object set dump shift) (Z.to_nat n) 0 (a, counts);
  Ok a.

(** [for (shift = 0; shift < 32; shift += RADIX_BITS)], the arrays exchanged
    after each pass; four tests of the condition are enough. *)
Fixpoint sort_passes (fuel : nat) (a : list Z) (set dump n shift : Z) : res failure (list Z * Z) :=
  if shift <? 32 then
    match fuel with
    | O => Err OutOfFuel
    | S fuel' => a ← sort_pass a set dump n shift; sort_passes fuel' a dump set n (shift + RADIX_BITS)
    end
  else Ok (a, set).

Definition sort_objects (a : list Z) (set n : Z) : res failure (list Z * Z) := sort_passes 3 a set (set + n) n 0.

(** ** Bucket sort on lists *)

Section Bucket.
Context (key : Z -> Z).

Definition bucket (l : list Z) (r : Z) : list Z := filter (fun x => key x = r) l.
Definition below (l : list Z) (r : Z) : list Z := filter (fun x => key x < r) l.

Definition cnt (l : list Z) (r : Z) : Z := Z.of_nat (length (bucket l r)).
Definition start (l : list Z) (r : Z) : Z := Z.of_nat (length (below l r)).

Definition bucket_sort (l : list Z) (n : Z) : list Z := flat_map (bucket l) (seqZ 0 n).

Lemma bucket_app l1 l2 r : bucket (l1 ++ l2) r = bucket l1 r ++ bucket l2 r.
Proof. apply filter_app. Qed.

Lemma start_succ l r : start l (r + 1) = start l r + cnt l r.
Proof.
  unfold start, cnt, below, bucket. induction l as [|x l IH]; [done|]. rewrite !filter_cons.
  repeat (case_decide; try lia); cbn [length]; lia.
Qed.

Lemma start_mono l r r' : r <= r' -> start l r <= start l r'.
Proof.
  unfold start, below. intros Hr. induction l as [|x l IH]; [done|]. rewrite !filter_cons.
  repeat (case_decide; try lia); cbn [length]; lia.
Qed.

Lemma bucket_sort_succ l n : 0 <= n -> bucket_sort l (n + 1) = bucket_sort l n ++ bucket l n.
Proof.
  intros Hn. unfold bucket_sort. rewrite seqZ_app by lia. rewrite flat_map_app. rewrite Z.add_0_l.
  change (seqZ n 1) with ([n]). cbn. by rewrite app_nil_r.
Qed.

Lemma below_succ l r : below l (r + 1) ≡ₚ below l r ++ bucket l r.
Proof.
  unfold below, bucket. induction l as [|x l IH]; [done|]. rewrite !filter_cons.
  destruct (decide (key x < r + 1)), (decide (key x < r)), (decide (key x = r)); try lia; cbn.
  - by rewrite IH.
  - rewrite IH. apply Permutation_middle.
  - done.
Qed.

Lemma bucket_sort_perm l n : (forall x, x ∈ l -> 0 <= key x < n) -> bucket_sort l n ≡ₚ l.
Proof.
  intros Hk. destruct (Z.le_gt_cases 0 n) as [Hn|Hn].
  2: { destruct l as [|x l]; [|specialize (Hk x ltac:(constructor)); lia]. unfold bucket_sort. by rewrite seqZ_nil by lia. }
  assert (forall m, 0 <= m -> bucket_sort l m ≡ₚ below l m) as Hb.
  { intros m Hm. pattern m. apply natlike_ind; [| |done].
    - unfold bucket_sort, below. cbn. clear Hn. induction l as [|x l IH]; [done|]. rewrite filter_cons, decide_False.
      + apply IH. intros y Hy. apply Hk. by constructor.
      + specialize (Hk x ltac:(constructor)). lia.
    - intros k Hk0 IH. unfold Z.succ. by rewrite bucket_sort_succ, below_succ, IH. }
  rewrite Hb by done. unfold below. clear -Hk. induction l as [|x l IH]; [done|]. rewrite filter_cons_True.
  - constructor. apply IH. intros y Hy. apply Hk. by constructor.
  - apply Hk. constructor.
Qed.

Lemma start_none l r : (forall x, r <= key x) -> start l r = 0.
Proof.
  intros Hk. unfold start, below. induction l as [|x l IH]; [done|]. rewrite filter_cons_False; [done|]. specialize (Hk x). lia.
Qed.

Lemma start_all l r : (forall x, key x < r) -> start l r = Z.of_nat (length l).
Proof.
  intros Hk. unfold start, below. induction l as [|x l IH]; [done|]. rewrite filter_cons_True by done. cbn [length]. lia.
Qed.

(** A list whose parts hold the buckets is the bucket sort. *)
Lemma bucket_sort_positions l d n : 0 <= n ->
  (forall r i, 0 <= r < n -> (i < length (bucket l r))%nat -> d !! (Z.to_nat (start l r) + i)%nat = bucket l r !! i) ->
  start l 0 = 0 -> take (Z.to_nat (start l n)) d = bucket_sort l n.
Proof.
  intros Hn Hd H0. revert Hd. pattern n. apply natlike_ind; [| |done].
  - intros _. rewrite H0. done.
  - intros k Hk IH Hd. unfold Z.succ in *. rewrite bucket_sort_succ, <- IH by (try done; intros; apply Hd; lia).
    rewrite start_succ. unfold cnt. rewrite Z2Nat.inj_add, Nat2Z.id by (unfold start; lia).
    apply list_eq. intros i. destruct (Nat.lt_ge_cases i (Z.to_nat (start l k))) as [Hi|Hi].
    + rewrite lookup_take_lt by lia. destruct (Nat.lt_ge_cases i (length (take (Z.to_nat (start l k)) d))) as [Hlt|Hge].
      * rewrite lookup_app_l by done. by rewrite lookup_take_lt.
      * rewrite length_take in Hge. rewrite lookup_ge_None_2 by lia.
        destruct (bucket l k) as [|x b] eqn:Hb.
        -- rewrite app_nil_r. symmetry. apply lookup_ge_None_2. rewrite length_take. lia.
        -- specialize (Hd k 0%nat ltac:(lia)). rewrite Hb in Hd. cbn in Hd. specialize (Hd ltac:(lia)).
           apply lookup_lt_Some in Hd. lia.
    + destruct (Nat.lt_ge_cases i (Z.to_nat (start l k) + length (bucket l k))) as [Hlt|Hge].
      * rewrite lookup_take_lt by lia. assert (length (take (Z.to_nat (start l k)) d) = Z.to_nat (start l k)) as Hlen.
        { destruct (bucket l k) as [|x b] eqn:Hb; [cbn in Hlt; lia|]. specialize (Hd k 0%nat ltac:(lia)).
          rewrite Hb in Hd. cbn in Hd. specialize (Hd ltac:(lia)). apply lookup_lt_Some in Hd. rewrite length_take. lia. }
        rewrite lookup_app_r by lia. rewrite Hlen, <- Hd by lia. f_equal. lia.
      * rewrite lookup_take_ge by lia. symmetry. apply lookup_ge_None_2. rewrite length_app, length_take. lia.
Qed.

(** Sorting by the key a list that is sorted by [low]. *)
Lemma bucket_sort_sorted low l n : StronglySorted (fun x y => low x <= low y) l ->
  StronglySorted (fun x y => key x < key y \/ (key x = key y /\ low x <= low y)) (bucket_sort l n).
Proof.
  intros Hl. destruct (Z.le_gt_cases 0 n) as [Hn|Hn]; [|unfold bucket_sort; rewrite seqZ_nil by lia; constructor].
  assert (forall r, StronglySorted (fun x y => key x < key y \/ key x = key y /\ low x <= low y) (bucket l r)) as Hb.
  { intros r. unfold bucket. induction Hl as [|x l Hl IH Hx]; [constructor|]. rewrite filter_cons. case_decide; [|done].
    constructor; [done|]. apply Forall_forall. intros y [Hy Hin]%list_elem_of_filter. right. split; [congruence|].
    rewrite Forall_forall in Hx. by apply Hx. }
  pattern n. apply natlike_ind; [constructor| |done]. intros k Hk IH. unfold Z.succ.
  rewrite bucket_sort_succ by done. apply StronglySorted_app_iff. split_and!; [done|done|].
  intros x y Hx Hy. left. unfold bucket in Hy. apply list_elem_of_filter in Hy as [-> _].
  unfold bucket_sort in Hx. rewrite list_elem_of_In, in_flat_map in Hx. destruct Hx as (r & Hr & Hx).
  rewrite <- list_elem_of_In, elem_of_seqZ in Hr. apply list_elem_of_In, list_elem_of_filter in Hx as [-> _]. lia.
Qed.

End Bucket.

(** ** The loops *)

Lemma for_loop_inv {S} (I : Z -> S -> Prop) (f : Z -> S -> res failure S) n : forall j s, I j s ->
  (forall i s, j <= i < j + Z.of_nat n -> I i s -> exists s', f i s = Ok s' /\ I (i + 1) s') ->
  exists s', for_loop f n j s = Ok s' /\ I (j + Z.of_nat n) s'.
Proof.
  induction n as [|n IH]; intros j s Hi Hf; cbn [for_loop].
  - exists s. rewrite Z.add_0_r. done.
  - destruct (Hf j s ltac:(lia) Hi) as (s1 & -> & Hi1). cbn [mbind res_bind].
    destruct (IH (j + 1) s1 Hi1) as (s' & -> & Hi'); [intros; apply Hf; [lia|done]|].
    exists s'. split; [done|]. by replace (j + Z.of_nat (Datatypes.S n)) with (j + 1 + Z.of_nat n) by lia.
Qed.

Section Pass.
Context (a : list Z) (set dump shift : Z) (l : list Z).
Let n := Z.of_nat (length l).
Hypothesis (Hset : forall j x, zlookup l j = Some x -> zlookup a (set + j) = Some x).
Hypothesis (Hshift : 0 <= shift).

Let key := radix shift.

Lemma radix_range x : 0 <= radix shift x < RADIX_SIZE.
Proof.
  unfold radix. change RADIX_MASK with (Z.ones 11). rewrite Z.land_ones by lia. change RADIX_SIZE with (2 ^ 11).
  apply Z.mod_pos_bound. lia.
Qed.

Lemma take_snoc j x : zlookup l j = Some x -> take (Z.to_nat (j + 1)) l = take (Z.to_nat j) l ++ [x].
Proof.
  intros [Hj Hx]%zlookup_Some. replace (Z.to_nat (j + 1)) with (S (Z.to_nat j)) by lia. by apply take_S_r.
Qed.

Lemma bucket_snoc k j x r : zlookup l j = Some x ->
  bucket k (take (Z.to_nat (j + 1)) l) r = bucket k (take (Z.to_nat j) l) r ++ (if decide (k x = r) then [x] else []).
Proof. intros Hx. rewrite (take_snoc j x Hx). unfold bucket. by rewrite filter_app, filter_cons, filter_nil. Qed.

Lemma cnt_snoc k j x r : zlookup l j = Some x ->
  cnt k (take (Z.to_nat (j + 1)) l) r = cnt k (take (Z.to_nat j) l) r + (if decide (k x = r) then 1 else 0).
Proof.
  intros Hx. unfold cnt. rewrite (bucket_snoc k j x r Hx), length_app. case_decide; cbn; lia.
Qed.

Definition counts_are (f : Z -> Z) (counts : list Z) : Prop :=
  length counts = Z.to_nat RADIX_SIZE /\ forall r, 0 <= r < RADIX_SIZE -> zlookup counts r = Some (f r).

Lemma counts_read f counts r : counts_are f counts -> 0 <= r < RADIX_SIZE -> at_index counts r = Ok (f r).
Proof. intros [_ H] Hr. unfold at_index. by rewrite H. Qed.

Lemma counts_write f g counts r v : counts_are f counts -> 0 <= r < RADIX_SIZE -> g r = v ->
  (forall r', r' <> r -> 0 <= r' < RADIX_SIZE -> g r' = f r') ->
  exists counts', put_index counts r v = Ok counts' /\ counts_are g counts'.
Proof.
  intros [Hl H] Hr Hv Hg. unfold put_index. destruct (zlookup_bound _ _ _ (H r Hr)) as [_ Hb].
  rewrite zstore_is_Some by lia. eexists. split; [done|]. split; [by rewrite length_insert|].
  intros r' Hr'. rewrite (zlookup_zstore counts _ r r' v) by (by apply zstore_is_Some; lia).
  destruct (Z.eqb_spec r r') as [<-|]; [by rewrite Hv|]. rewrite H by done. f_equal. symmetry. by apply Hg.
Qed.

Lemma read_set j : 0 <= j < n -> exists x, zlookup l j = Some x /\ at_index a (set + j) = Ok x.
Proof.
  intros Hj. destruct (zlookup_is_Some l j) as [x Hx]; [lia|]. exists x. split; [done|].
  unfold at_index. by rewrite (Hset j x Hx).
Qed.

Lemma count_spec : exists counts,
  for_loop (count_radix a set shift) (length l) 0 (replicate (Z.to_nat RADIX_SIZE) 0) = Ok counts /\ counts_are (cnt key l) counts.
Proof.
  destruct (for_loop_inv (fun j counts => counts_are (cnt key (take (Z.to_nat j) l)) counts) (count_radix a set shift) (length l) 0
    (replicate (Z.to_nat RADIX_SIZE) 0)) as (counts & -> & Hc).
  - split; [by rewrite length_replicate|]. intros r Hr. apply zlookup_Some. split; [lia|].
    apply lookup_replicate. split; [done|lia].
  - intros j counts Hj Hc. unfold count_radix. destruct (read_set j) as (x & Hx & ->); [lia|]. cbn [mbind res_bind].
    rewrite (counts_read _ _ _ Hc) by apply radix_range. cbn [mbind res_bind].
    eapply counts_write; [exact Hc|apply radix_range| |].
    + rewrite (cnt_snoc _ j x) by done. fold key. by rewrite decide_True.
    + intros r' Hr' _. rewrite (cnt_snoc _ j x) by done. fold key. rewrite decide_False by (intros E; by apply Hr'). lia.
  - exists counts. split; [done|]. by rewrite Z.add_0_l, Nat2Z.id, firstn_all in Hc.
Qed.

Lemma start_0 : start key l 0 = 0.
Proof. apply start_none. intros x. apply radix_range. Qed.

Lemma start_size : start key l RADIX_SIZE = n.
Proof. apply start_all. intros x. apply radix_range. Qed.

Lemma position_spec counts : counts_are (cnt key l) counts -> exists counts' m,
  for_loop set_position (Z.to_nat RADIX_SIZE) 0 (counts, 0) = Ok (counts', m) /\ counts_are (start key l) counts'.
Proof.
  intros Hc. destruct (for_loop_inv (fun j s => s.2 = start key l j /\
    counts_are (fun r => if r <? j then start key l r else cnt key l r) s.1) set_position (Z.to_nat RADIX_SIZE) 0 (counts, 0))
    as ([counts' m] & -> & _ & Hc').
  - cbn. split; [by rewrite start_0|]. destruct Hc as [Hl Hc]. split; [done|]. intros r Hr. rewrite Hc by done. by zcmps.
  - intros j [cs m] Hj [Hm Hcs]. cbn [fst snd] in *. subst m. unfold set_position.
    rewrite (counts_read _ _ _ Hcs) by lia. cbn [mbind res_bind]. rewrite Z.ltb_irrefl.
    destruct (counts_write _ (fun r => if r <? j + 1 then start key l r else cnt key l r) cs j (start key l j) Hcs) as (cs' & -> & Hcs').
    + lia.
    + zcmps.
    + intros r' Hr' _. zcmps.
    + cbn [mbind res_bind]. exists (cs', start key l j + cnt key l j). split; [done|]. split; [by rewrite start_succ|done].
  - exists counts', m. split; [done|]. cbn in Hc'. destruct Hc' as [Hl Hc']. split; [done|].
    intros r Hr. rewrite Hc' by done. change RADIX_SIZE with 2048 in *. zcmps.
Qed.

Hypothesis (Hdump : 0 <= dump /\ dump + n <= Z.of_nat (length a)) (Hpos : 0 <= set)
  (Hapart : set + n <= dump \/ dump + n <= set).

(** The state of the last loop after [j] objects. *)
Record placed (j : Z) (s : list Z * list Z) : Prop := {
  pl_length : length s.1 = length a;
  pl_outside i : i < dump \/ dump + n <= i -> zlookup s.1 i = zlookup a i;
  pl_counts : counts_are (fun r => start key l r + cnt key (take (Z.to_nat j) l) r) s.2;
  pl_placed r i : 0 <= r < RADIX_SIZE -> (i < length (bucket key (take (Z.to_nat j) l) r))%nat ->
    zlookup s.1 (dump + start key l r + Z.of_nat i) = bucket key l r !! i }.

Lemma bucket_take j x : zlookup l j = Some x ->
  bucket key l (key x) !! length (bucket key (take (Z.to_nat j) l) (key x)) = Some x.
Proof.
  intros Hx. pose proof (bucket_app key (take (Z.to_nat (j + 1)) l) (drop (Z.to_nat (j + 1)) l) (key x)) as Hb.
  rewrite take_drop in Hb. rewrite Hb, (bucket_snoc _ j x), decide_True by done.
  rewrite <- app_assoc. by apply list_lookup_middle.
Qed.

Lemma bucket_fits j x : zlookup l j = Some x -> start key l (key x) + cnt key (take (Z.to_nat j) l) (key x) < start key l (key x + 1).
Proof.
  intros Hx. rewrite start_succ. pose proof (lookup_lt_Some _ _ _ (bucket_take j x Hx)). unfold cnt. lia.
Qed.

Lemma start_range r : r < RADIX_SIZE -> 0 <= start key l r /\ start key l (r + 1) <= n.
Proof. intros Hr. rewrite <- start_size. split; [unfold start; lia|apply start_mono; lia]. Qed.

Lemma place_step j s : 0 <= j < n -> placed j s -> exists s', place_object set dump shift j s = Ok s' /\ placed (j + 1) s'.
Proof.
  destruct s as [a' counts]. intros Hj [Hlen Hout Hc Hp]. cbn [fst snd] in *. unfold place_object.
  destruct (read_set j Hj) as (x & Hx & _).
  assert (at_index a' (set + j) = Ok x) as -> by (unfold at_index; rewrite Hout by lia; by rewrite (Hset j x Hx)).
  cbn [of_option mbind res_bind]. fold key. rewrite (counts_read _ _ _ Hc) by apply radix_range. cbn [mbind res_bind].
  set (r := key x). set (c := start key l r + cnt key (take (Z.to_nat j) l) r).
  pose proof (bucket_fits j x Hx) as Hfit. fold r c in Hfit. destruct (start_range r) as [Hs0 Hsn]; [apply radix_range|].
  assert (0 <= c) as Hc0 by (unfold c, cnt; lia).
  assert (0 <= dump + c < Z.of_nat (length a')) as Hin by (rewrite Hlen; lia).
  set (a1 := <[Z.to_nat (dump + c) := x]> a').
  assert (put_index a' (dump + c) x = Ok a1) as -> by (unfold put_index; by rewrite zstore_is_Some by exact Hin).
  cbn [of_option mbind res_bind]. assert (forall i, zlookup a1 i = if dump + c =? i then Some x else zlookup a' i) as Hl1.
  { intros i. apply (zlookup_zstore a' a1 (dump + c) i x). by apply zstore_is_Some. }
  destruct (counts_write _ (fun r => start key l r + cnt key (take (Z.to_nat (j + 1)) l) r) counts r (c + 1) Hc) as (counts' & -> & Hc').
  - apply radix_range.
  - rewrite (cnt_snoc _ j x) by done. rewrite decide_True by done. unfold c. lia.
  - intros r' Hr' _. rewrite (cnt_snoc _ j x), decide_False by (done || (intros E; by apply Hr')). lia.
  - cbn [mbind res_bind]. exists (a1, counts'). split; [done|]. split; cbn [fst snd]; [by unfold a1; rewrite length_insert| |done|].
    + intros i Hi. rewrite Hl1. destruct (Z.eqb_spec (dump + c) i); [lia|by apply Hout].
    + intros r' i Hr'. rewrite (bucket_snoc _ j x) by done. intros Hi. rewrite Hl1.
      destruct (Z.eqb_spec (dump + c) (dump + start key l r' + Z.of_nat i)) as [E|E].
      * assert (r' = r) as ->.
        { pose proof (start_succ key l r'). pose proof (start_succ key l r).
          assert (Z.of_nat i < cnt key l r' \/ r' = r) as Hcase.
          { destruct (decide (key x = r')) as [<-|Hne]; [by right|left]. rewrite app_nil_r in Hi.
            pose proof (bucket_app key (take (Z.to_nat j) l) (drop (Z.to_nat j) l) r') as Hb. rewrite take_drop in Hb.
            unfold cnt. rewrite Hb, length_app. lia. }
          assert (0 <= cnt key (take (Z.to_nat j) l) r < cnt key l r) as Hcr by (pose proof (start_succ key l r); unfold c, cnt in *; lia).
          destruct Hcase as [Hlt|]; [|done]. destruct (Z.lt_trichotomy r' r) as [Hlt'|[|Hlt']]; [|done|].
          - pose proof (start_mono key l (r' + 1) r ltac:(lia)). unfold c in *. lia.
          - pose proof (start_mono key l (r + 1) r' ltac:(lia)). unfold c in *. lia. }
        assert (i = length (bucket key (take (Z.to_nat j) l) r)) as -> by (unfold c, cnt in E; lia).
        symmetry. by apply bucket_take.
      * destruct (decide (key x = r')) as [<-|Hne].
        -- rewrite length_app in Hi. cbn in Hi. apply Hp; [done|].
           destruct (Nat.eq_dec i (length (bucket key (take (Z.to_nat j) l) (key x)))) as [->|]; [|lia].
           unfold c, cnt, r in E. lia.
        -- rewrite app_nil_r in Hi. by apply Hp.
Qed.

(** A pass leaves the bucket sort of the list in the other array. *)
Lemma sort_pass_spec : exists a', sort_pass a set dump n shift = Ok a' /\ length a' = length a /\
  (forall i, i < dump \/ dump + n <= i -> zlookup a' i = zlookup a i) /\
  forall j, 0 <= j < n -> zlookup a' (dump + j) = zlookup (bucket_sort key l RADIX_SIZE) j.
Proof.
  unfold sort_pass. unfold n. rewrite Nat2Z.id. destruct count_spec as (counts & -> & Hc). cbn [mbind res_bind].
  destruct (position_spec counts Hc) as (counts' & m & -> & Hc'). cbn [mbind res_bind].
  destruct (for_loop_inv placed (place_object set dump shift) (length l) 0 (a, counts')) as ([a' counts''] & -> & Hp).
  - split; cbn [fst snd]; [done|done| |].
    + destruct Hc' as [Hl Hc']. split; [done|]. intros r Hr. rewrite Hc' by done.
      assert (cnt key (take (Z.to_nat 0) l) r = 0) as -> by done. by rewrite Z.add_0_r.
    + intros r i _ Hi. by apply Nat.nlt_0_r in Hi.
  - intros j s Hj. apply place_step. unfold n. lia.
  - cbn [mbind res_bind]. exists a'. destruct Hp as [Hlen Hout _ Hpl]. cbn [fst snd] in *. split_and!; [done|done|done|].
    rewrite Z.add_0_l, Nat2Z.id, firstn_all in Hpl.
    pose proof (bucket_sort_positions key l (drop (Z.to_nat dump) a') RADIX_SIZE ltac:(done)) as Hb.
    rewrite start_size, start_0 in Hb. specialize (fun H => Hb H eq_refl).
    intros j Hj. rewrite <- Hb.
    + unfold zlookup. rewrite !(proj2 (Z.ltb_ge _ _)) by lia. rewrite lookup_take_lt by (unfold n in *; lia).
      rewrite lookup_drop. f_equal. lia.
    + intros r i Hr Hi. rewrite lookup_drop, <- Hpl by done. unfold zlookup.
      destruct (start_range r) as [? _]; [lia|]. rewrite (proj2 (Z.ltb_ge _ _)) by lia. f_equal. lia.
Qed.

End Pass.

(** ** Three passes *)

(** [l] is at index [set] of the array. *)
Definition holds_at (a : list Z) (set : Z) (l : list Z) : Prop :=
  forall j x, zlookup l j = Some x -> zlookup a (set + j) = Some x.

Lemma radix_split shift x : in_u 32 x -> 0 <= shift ->
  x mod 2 ^ (shift + 11) = radix shift x * 2 ^ shift + x mod 2 ^ shift.
Proof.
  intros Hx Hs. unfold radix. rewrite wrapu_small by done. change RADIX_MASK with (Z.ones 11).
  rewrite Z.land_ones, Z.shiftr_div_pow2 by lia. change (2 ^ 11) with 2048. rewrite Z.pow_add_r by lia. change (2 ^ 11) with 2048.
  pose proof (Z.pow_pos_nonneg 2 shift ltac:(lia) Hs). rewrite Z.rem_mul_r by lia. lia.
Qed.

Lemma pass_sorts shift l : (forall x, x ∈ l -> in_u 32 x) -> 0 <= shift ->
  StronglySorted (fun x y => x mod 2 ^ shift <= y mod 2 ^ shift) l ->
  StronglySorted (fun x y => x mod 2 ^ (shift + 11) <= y mod 2 ^ (shift + 11)) (bucket_sort (radix shift) l RADIX_SIZE) /\
  bucket_sort (radix shift) l RADIX_SIZE ≡ₚ l.
Proof.
  intros Hl Hs Hsort. assert (bucket_sort (radix shift) l RADIX_SIZE ≡ₚ l) as Hp.
  { apply bucket_sort_perm. intros x _. by apply radix_range. }
  split; [|done]. eapply StronglySorted_ext; [|exact (bucket_sort_sorted (radix shift) (fun x => x mod 2 ^ shift) l RADIX_SIZE Hsort)].
  intros x y Hx Hy Hxy. cbn beta in Hxy. rewrite !radix_split; [|apply Hl; by rewrite <- Hp|done|apply Hl; by rewrite <- Hp|done].
  pose proof (Z.pow_pos_nonneg 2 shift ltac:(lia) Hs).
  pose proof (Z.mod_pos_bound x (2 ^ shift) ltac:(lia)). pose proof (Z.mod_pos_bound y (2 ^ shift) ltac:(lia)). nia.
Qed.

Lemma sort_pass_holds a set dump l shift : holds_at a set l -> 0 <= set -> 0 <= dump -> 0 <= shift ->
  dump + Z.of_nat (length l) <= Z.of_nat (length a) ->
  (set + Z.of_nat (length l) <= dump \/ dump + Z.of_nat (length l) <= set) ->
  exists a', sort_pass a set dump (Z.of_nat (length l)) shift = Ok a' /\ length a' = length a /\
    (forall i, i < dump \/ dump + Z.of_nat (length l) <= i -> zlookup a' i = zlookup a i) /\
    holds_at a' dump (bucket_sort (radix shift) l RADIX_SIZE).
Proof.
  intros Hh H1 H2 H3 H4 H5. destruct (sort_pass_spec a set dump shift l Hh (conj H2 H4) H1 H5) as (a' & Hr & Hlen & Hout & Hp).
  exists a'. split_and!; [done..|]. intros j x Hj. rewrite Hp; [done|].
  apply zlookup_bound in Hj. erewrite Permutation_length in Hj; [done|].
  apply bucket_sort_perm. intros y _. by apply radix_range.
Qed.

Lemma sort_objects_runs (a : list Z) (set : Z) (l : list Z)
    (Hset : 0 <= set) (Hh : holds_at a set l) (Hl : forall x, x ∈ l -> in_u 32 x)
    (Hroom : set + 2 * Z.of_nat (length l) <= Z.of_nat (length a)) :
  exists a' set' l', sort_objects a set (Z.of_nat (length l)) = Ok (a', set') /\
    holds_at a' set' l' /\ l' ≡ₚ l /\ StronglySorted Z.le l' /\ length a' = length a /\
    (forall i, i < set \/ set + 2 * Z.of_nat (length l) <= i -> zlookup a' i = zlookup a i).
Proof.
  set (n := Z.of_nat (length l)) in *. assert (0 <= n) by (unfold n; lia).
  assert (StronglySorted (fun x y => x mod 2 ^ 0 <= y mod 2 ^ 0) l) as S0.
  { clear. induction l as [|x l IH]; constructor; [done|]. apply Forall_forall. intros y _. by rewrite !Z.mod_1_r. }
  destruct (pass_sorts 0 l Hl ltac:(lia) S0) as [S1 P1]. set (l1 := bucket_sort _ l _) in *.
  assert (forall x, x ∈ l1 -> in_u 32 x) as Hl1 by (intros x; rewrite P1; apply Hl).
  destruct (pass_sorts 11 l1 Hl1 ltac:(lia) S1) as [S2 P2]. set (l2 := bucket_sort _ l1 _) in *.
  assert (forall x, x ∈ l2 -> in_u 32 x) as Hl2 by (intros x; rewrite P2; apply Hl1).
  destruct (pass_sorts 22 l2 Hl2 ltac:(lia) S2) as [S3 P3]. set (l3 := bucket_sort _ l2 _) in *.
  assert (Z.of_nat (length l1) = n) as N1 by (unfold n; by rewrite P1).
  assert (Z.of_nat (length l2) = n) as N2 by (rewrite <- N1; by rewrite P2).
  unfold sort_objects. cbn [sort_passes]. change RADIX_BITS with 11. change (0 <? 32) with true. cbn match.
  destruct (sort_pass_holds a set (set + n) l 0) as (a1 & E1 & L1 & O1 & H1); [done|lia..|].
  fold n in E1, O1. rewrite E1. cbn [mbind res_bind].
  change (0 + 11 <? 32) with true. cbn match. fold l1 in H1.
  destruct (sort_pass_holds a1 (set + n) set l1 11) as (a2 & E2 & L2 & O2 & H2); [done|lia..|]. rewrite N1 in E2, O2.
  change (0 + 11) with 11. rewrite E2. cbn [mbind res_bind].
  change (11 + 11 <? 32) with true. cbn match. fold l2 in H2.
  destruct (sort_pass_holds a2 set (set + n) l2 22) as (a3 & E3 & L3 & O3 & H3); [done|lia..|]. rewrite N2 in E3, O3.
  change (11 + 11) with 22. rewrite E3. cbn [mbind res_bind]. change (22 + 11 <? 32) with false. cbn match.
  exists a3, (set + n), l3. split_and!; [done|done|by rewrite P3, P2, P1| |congruence|].
  - eapply StronglySorted_ext; [|exact S3]. intros x y Hx Hy. cbn beta.
    assert (forall z, z ∈ l3 -> z mod 2 ^ 33 = z) as Hz.
    { intros z Hz. apply Z.mod_small. rewrite P3 in Hz. specialize (Hl2 z Hz). unfold in_u in Hl2. lia. }
    change (22 + 11) with 33. by rewrite (Hz x Hx), (Hz y Hy).
  - intros i Hi. rewrite O3, O2, O1 by lia. done.
Qed.

(** ** Without room for the copy *)

Lemma zlookup_app_l {A} (l t : list A) i x : zlookup l i = Some x -> zlookup (l ++ t) i = Some x.
Proof. rewrite !zlookup_Some. intros [Hi Hx]. split; [done|]. by apply lookup_app_l_Some. Qed.

Lemma zstore_app_l {A} (l l' t : list A) i x : zstore l i x = Some l' -> zstore (l ++ t) i x = Some (l' ++ t).
Proof.
  intros [Hi ->]%zstore_Some. rewrite zstore_is_Some by (rewrite length_app; lia). f_equal. apply insert_app_l. lia.
Qed.

Lemma at_index_app a t i x : at_index a i = Ok x -> at_index (a ++ t) i = Ok x.
Proof. unfold at_index. destruct (zlookup a i) eqn:E; [|done]. intros [= ->]. by rewrite (zlookup_app_l _ _ _ _ E). Qed.

Lemma put_index_app a a' t i x : put_index a i x = Ok a' -> put_index (a ++ t) i x = Ok (a' ++ t).
Proof. unfold put_index. destruct (zstore a i x) eqn:E; [|done]. intros [= ->]. by rewrite (zstore_app_l _ _ _ _ _ E). Qed.

Lemma for_loop_sim {S T} (rel : S -> T -> Prop) (f : Z -> S -> res failure S) (g : Z -> T -> res failure T) :
  (forall j s t s', rel s t -> f j s = Ok s' -> exists t', g j t = Ok t' /\ rel s' t') ->
  forall n j s t s', rel s t -> for_loop f n j s = Ok s' -> exists t', for_loop g n j t = Ok t' /\ rel s' t'.
Proof.
  intros Hstep. induction n as [|n IH]; intros j s t s' Hr; cbn [for_loop]; [intros [= <-]; eauto|].
  destruct (f j s) as [s1|] eqn:E; [|done]. cbn [mbind res_bind]. destruct (Hstep _ _ _ _ Hr E) as (t1 & -> & Hr1).
  cbn [mbind res_bind]. by apply IH.
Qed.

(** The only failure is an access outside the array. *)
Definition overruns {A} (r : res failure A) : Prop := forall x, r = Err x -> x = BadAccess.

Lemma overruns_ok {A} (a : A) : overruns (Ok a).
Proof. done. Qed.

Lemma overruns_bind {A B} (r : res failure A) (f : A -> res failure B) : overruns r -> (forall a, overruns (f a)) -> overruns (a ← r; f a).
Proof. intros Hr Hf x. destruct r as [a|y]; cbn [mbind res_bind]; [apply Hf|]. intros [= <-]. by apply Hr. Qed.

Lemma overruns_option {A} (o : option A) : overruns (of_option BadAccess o).
Proof. intros x. destruct o; cbn; congruence. Qed.

Lemma for_loop_overruns {S} (f : Z -> S -> res failure S) : (forall j s, overruns (f j s)) -> forall n j s, overruns (for_loop f n j s).
Proof. intros Hf. induction n as [|n IH]; intros j s; cbn [for_loop]; [apply overruns_ok|apply overruns_bind; auto]. Qed.

(** A pass that succeeds does the same when there is more behind the array. *)
Lemma sort_pass_frame a t set dump n shift a' : sort_pass a set dump n shift = Ok a' -> sort_pass (a ++ t) set dump n shift = Ok (a' ++ t).
Proof.
  assert (Hcount : forall j s s0 s', s = s0 -> count_radix a set shift j s = Ok s' ->
    exists t', count_radix (a ++ t) set shift j s0 = Ok t' /\ s' = t').
  { intros j s s0 s' <-. unfold count_radix. destruct (at_index a (set + j)) eqn:Ea; [|done]. rewrite (at_index_app _ t _ _ Ea). eauto. }
  assert (Hplace : forall j s s0 s', s0 = (s.1 ++ t, s.2) -> place_object set dump shift j s = Ok s' ->
    exists t', place_object set dump shift j s0 = Ok t' /\ t' = (s'.1 ++ t, s'.2)).
  { intros j [a0 c0] s0 [a2 c2] ->. cbn [fst snd]. unfold place_object. destruct (at_index a0 (set + j)) as [x|] eqn:Ea; [|done].
    rewrite (at_index_app _ t _ _ Ea). cbn [mbind res_bind]. destruct (at_index c0 _) as [c|]; [|done]. cbn [mbind res_bind].
    destruct (put_index a0 (dump + c) x) as [a3|] eqn:Ep; [|done]. rewrite (put_index_app _ _ t _ _ Ep). cbn [mbind res_bind].
    destruct (put_index c0 _ _); [|done]. cbn [mbind res_bind]. intros [= <- <-]. eauto. }
  unfold sort_pass. destruct (for_loop (count_radix a set shift) _ _ _) as [counts|] eqn:E1; [|done]. cbn [mbind res_bind].
  destruct (for_loop_sim eq _ _ Hcount _ _ _ _ _ eq_refl E1) as (c' & -> & <-).
  cbn [mbind res_bind]. destruct (for_loop set_position _ _ _) as [[cs m]|]; [|done]. cbn [mbind res_bind].
  destruct (for_loop (place_object set dump shift) _ _ (a, cs)) as [[a1 cs1]|] eqn:E2; [|done]. cbn [mbind res_bind]. intros [= <-].
  by destruct (for_loop_sim (fun s s' => s' = (s.1 ++ t, s.2)) _ _ Hplace _ _ (a, cs) (a ++ t, cs) _ eq_refl E2) as (s' & -> & ->).
Qed.

Lemma sort_pass_error a set dump n shift : overruns (sort_pass a set dump n shift).
Proof.
  unfold sort_pass. apply overruns_bind; [apply for_loop_overruns|intros counts; apply overruns_bind; [apply for_loop_overruns|]].
  - intros j s. repeat (apply overruns_bind; [apply overruns_option|intros ?]). apply overruns_option.
  - intros j [s m]. repeat (apply overruns_bind; [apply overruns_option|intros ?]). apply overruns_ok.
  - intros [cs m]. apply overruns_bind; [apply for_loop_overruns|intros []; apply overruns_ok].
    intros j [s c]. repeat (apply overruns_bind; [apply overruns_option|intros ?]). apply overruns_ok.
Qed.

(** With less room than two copies of the set take, the first pass writes past
    the end of the array. *)
Lemma sort_objects_overruns (a : list Z) (set : Z) (l : list Z) : 0 <= set -> holds_at a set l -> (forall x, x ∈ l -> in_u 32 x) -> l <> [] ->
  Z.of_nat (length a) < set + 2 * Z.of_nat (length l) -> sort_objects a set (Z.of_nat (length l)) = Err BadAccess.
Proof.
  intros Hset Hh Hl Hne Hroom. unfold sort_objects. cbn [sort_passes]. change (0 <? 32) with true. cbn match.
  set (n := Z.of_nat (length l)) in *. assert (0 < n) by (unfold n; destruct l; [done|cbn; lia]).
  destruct (sort_pass a set (set + n) n 0) as [a'|x] eqn:E; cbn [mbind res_bind]; [exfalso|f_equal; by eapply sort_pass_error].
  set (t := replicate (Z.to_nat (set + 2 * n - Z.of_nat (length a))) (-1)).
  pose proof (sort_pass_frame _ t _ _ _ _ _ E) as Ef.
  destruct (sort_pass_holds (a ++ t) set (set + n) l 0) as (a2 & E2 & Hlen & _ & Hh2); fold n; try lia.
  { intros j x Hj. apply zlookup_app_l. by apply Hh. }
  { rewrite length_app. unfold t. rewrite length_replicate. lia. }
  fold n in E2. rewrite Ef in E2. injection E2 as <-. rewrite !length_app in Hlen.
  assert (Hperm : bucket_sort (radix 0) l RADIX_SIZE ≡ₚ l) by (apply bucket_sort_perm; intros x _; by apply radix_range).
  pose proof (Permutation_length Hperm) as Hpl.
  destruct (zlookup_is_Some (bucket_sort (radix 0) l RADIX_SIZE) (n - 1) ltac:(lia)) as [x Hx].
  assert (Hin : x ∈ l) by (rewrite <- Hperm; apply zlookup_Some in Hx as [_ Hx]; by eapply list_elem_of_lookup_2).
  specialize (Hh2 _ _ Hx). apply zlookup_Some in Hh2 as [_ Hh2]. rewrite lookup_app_r in Hh2 by lia.
  apply list_elem_of_lookup_2, elem_of_replicate in Hh2 as [-> _]. specialize (Hl _ Hin). unfold in_u in Hl. lia.
Qed.

(** C36: [sort_objects] sorts.  Given room for two copies of the set, it returns
    the index of an array of the same addresses in increasing order, and
    changes nothing outside the two copies. *)
Theorem sort_objects_correct (a : list Z) (set : Z) (l : list Z)
    (Hset : 0 <= set) (Hh : holds_at a set l) (Hl : forall x, x ∈ l -> in_u 32 x)
    (Hroom : set + 2 * Z.of_nat (length l) <= Z.of_nat (length a)) :
  exists a' set' l', sort_objects a set (Z.of_nat (length l)) = Ok (a', set') /\
    holds_at a' set' l' /\ l' ≡ₚ l /\ StronglySorted Z.le l' /\ length a' = length a /\
    (forall i, i < set \/ set + 2 * Z.of_nat (length l) <= i -> zlookup a' i = zlookup a i).
Proof. by apply sort_objects_runs. Qed.

Lemma sort_objects_correct_witness : exists a' set' l', sort_objects [77; 4096; 5; 4294967295; 8; 5; 0; 0; 0; 0; 0; 1] 1 5 = Ok (a', set') /\
  holds_at a' set' l' /\ l' ≡ₚ [4096; 5; 4294967295; 8; 5] /\ StronglySorted Z.le l'.
Proof.
  destruct (sort_objects_correct [77; 4096; 5; 4294967295; 8; 5; 0; 0; 0; 0; 0; 1] 1 [4096; 5; 4294967295; 8; 5])
    as (a' & set' & l' & Hr & Hh & Hp & Hs & _).
  - done.
  - intros j x Hj. pose proof (zlookup_bound _ _ _ Hj) as Hb. cbn in Hb.
    assert (j = 0 \/ j = 1 \/ j = 2 \/ j = 3 \/ j = 4) as Hc by lia. destruct Hc as [->|[->|[->|[->| ->]]]]; exact Hj.
  - apply Forall_forall. repeat constructor; vm_compute; congruence.
  - vm_compute. congruence.
  - exists a', set', l'. split_and!; [exact Hr|exact Hh|exact Hp|exact Hs].
Defined.
