(* ===== verification/GcSmall.v ===== *)
(** * The small object area (src/runtime/gc.c, lines 936-1395 and 1516-1970)

    Allocation by moving a cursor through the current free area, the lists of
    free chunks and of free blocks it is refilled from, the growth of the area,
    the preparation of a collection and the two ways to sweep.  Memory is the
    store of [GcHeap]; the nodes of both lists are in the free memory itself.
    Interrupts stay disabled throughout, so [LOCK] and [UNLOCK] do nothing here. *)

From S2P Require Import Prelude GcHeap GcMark GcSort.

Definition SMALL_BLOCKS_TABLE_SIZE := 128 * (GC_REGIONSIZE / (GC_BLOCKSIZE * 4 * 8)).
Definition SMALL_CHUNKS_LIST_INDEX_SIZE := GC_BLOCKSIZE / MEMALIGN.
Definition ROUNDUPBLOCKSIZE (v : Z) : Z := Z.land (u32 (v + GC_BLOCKSIZE - 1)) (- GC_BLOCKSIZE).

(** The words of a node, of chunks and of groups of blocks alike. *)
Definition node_size (m : memory) (a : Z) : res failure Z := ld m a.
Definition next (m : memory) (a : Z) : res failure Z := ld m (a + 4).
Definition set_size (m : memory) (a v : Z) : res failure memory := st m a v.
Definition set_next (m : memory) (a v : Z) : res failure memory := st m (a + 4) v.

(** The header of [size] bytes of free memory. *)
Definition free_header (size : Z) : Z := Z.lor size FREE_BIT.

(** [size & ~FREE_BIT] of a chunk on the list. *)
Definition plain_size (w : Z) : Z := Z.land w (Z.lnot FREE_BIT).

(** ** The state *)

(** [fixed] is the explicitly managed heap, with the memory; the regions are in
    the order of their list, and [tables] has the block usage table of a region
    by its entry.  [HEAPSIZE(gc_stats)] is the world's [others]. *)
Record small := mkSmall {
  fixed : heap;
  small_cursor : Z;
  small_bound : Z;
  small_chunks : Z;
  small_blocks : Z;
  small_regions_head : list region;
  tables : gmap Z (list Z);
  table_pos : Z;
  heap_size : Z;
  small_alloc : Z }.

Definition smem (s : small) : memory := hmem (fixed s).

Definition set_smem (m : memory) (s : small) : small :=
  mkSmall (with_memory m (fixed s)) (small_cursor s) (small_bound s) (small_chunks s) (small_blocks s)
    (small_regions_head s) (tables s) (table_pos s) (heap_size s) (small_alloc s).
Definition set_area (cursor bound : Z) (s : small) : small :=
  mkSmall (fixed s) cursor bound (small_chunks s) (small_blocks s)
    (small_regions_head s) (tables s) (table_pos s) (heap_size s) (small_alloc s).
Definition set_lists (chunks blocks : Z) (s : small) : small :=
  mkSmall (fixed s) (small_cursor s) (small_bound s) chunks blocks
    (small_regions_head s) (tables s) (table_pos s) (heap_size s) (small_alloc s).
Definition set_tables (t : gmap Z (list Z)) (s : small) : small :=
  mkSmall (fixed s) (small_cursor s) (small_bound s) (small_chunks s) (small_blocks s)
    (small_regions_head s) t (table_pos s) (heap_size s) (small_alloc s).
Definition add_small_alloc (n : Z) (s : small) : small :=
  mkSmall (fixed s) (small_cursor s) (small_bound s) (small_chunks s) (small_blocks s)
    (small_regions_head s) (tables s) (table_pos s) (heap_size s) (u32 (small_alloc s + n)).

(** ** Allocation *)

Definition get_small_block (s : small) : res failure (Z * small) :=
  let block := small_blocks s in
  let m := smem s in
  _ ← massert (negb (block =? 0));
  size ← node_size m block;
  _ ← massert (0 <? size);
  _ ← massert (size mod GC_BLOCKSIZE =? 0);
  _ ← massert (block mod GC_BLOCKSIZE =? 0);
  n ← next m block;
  if size =? GC_BLOCKSIZE then Ok (block, set_lists (small_chunks s) n s)
  else
    let rest := block + GC_BLOCKSIZE in
    m ← set_size m rest (size - GC_BLOCKSIZE);
    m ← set_next m rest n;
    Ok (block, set_lists (small_chunks s) rest (set_smem m s)).

(** The free memory [get_small_chunk] takes next, as a cursor and a bound. *)
Definition next_area (size : Z) (s : small) : res failure (option (Z * Z * small)) :=
  let c := small_chunks s in
  fits ← (if c =? 0 then Ok false else w ← node_size (smem s) c; Ok (size <=? plain_size w));
  if fits : bool then
    w ← node_size (smem s) c;
    n ← next (smem s) c;
    Ok (Some (c, c + plain_size w, set_lists n (small_blocks s) s))
  else if negb (small_blocks s =? 0) then
    '(block, s) ← get_small_block s;
    Ok (Some (block + (MEMALIGN - GC_HEAD), block + (GC_BLOCKSIZE - GC_HEAD), s))
  else Ok None.

Definition get_small_chunk (size : Z) (s : small) : res failure (Z * small) :=
  _ ← massert (0 <? size);
  _ ← massert (size mod MEMALIGN =? 0);
  a ← next_area size s;
  match a with
  | None => Ok (0, s)
  | Some (cursor, bound, s) => Ok (cursor, add_small_alloc (bound - cursor) (set_area (cursor + size) bound s))
  end.

(** The current free area becomes a free chunk, if there is any of it left. *)
Definition close_area (s : small) : res failure small :=
  if small_cursor s <? small_bound s then
    let n := small_bound s - small_cursor s in
    m ← st (smem s) (small_cursor s) (free_header n);
    Ok (add_small_alloc (- n) (set_smem m s))
  else Ok s.

Section Allocate.
(** A bound on the length of a free list of the explicitly managed heap, the
    system, and the collector, which other threads run. *)
Context {os : Type} (sbrk : os -> Z -> os * option Z) (fuel : nat).
Context (gc_invoke : @world os -> small -> res failure (@world os * small)).

Definition add_small_size (n : Z) (w : @world os) : @world os :=
  mkWorld (sys w) (table w) (gc_heap_limit w) (u32 (others w + n)).

(** The usage table of the next region: a part of the current table of tables,
    or of a new one. *)
Definition next_table (w : @world os) (s : small) : res failure (@world os * heap * Z) :=
  if SMALL_BLOCKS_TABLE_SIZE <=? table_pos s then
    '(w, h, _) ← gc_malloc_fixed sbrk fuel w (fixed s) (SMALL_BLOCKS_TABLE_SIZE * 4); Ok (w, h, 0)
  else Ok (w, fixed s, table_pos s).

Definition expand_small_area (w : @world os) (s : small) : res failure (@world os * small) :=
  _ ← massert (small_blocks s =? 0);
  '(w, m, r) ← region_allocate sbrk w (smem s) (u32 (others w + hsize (fixed s))) GC_REGIONSIZE GC_REGION_SMALL;
  match r with
  | None => Ok (w, set_smem m s)
  | Some region =>
      '(w, h, pos) ← next_table w (set_smem m s);
      let regions := insert_region region (small_regions_head s) in
      m ← set_size (hmem h) (rstart region) GC_REGIONSIZE;
      m ← set_next m (rstart region) 0;
      Ok (add_small_size GC_REGIONSIZE w,
          mkSmall (with_memory m h) (small_cursor s) (small_bound s) (small_chunks s) (rstart region)
            regions (<[rid region := replicate 16 0]> (tables s))
            (pos + GC_REGIONSIZE / (GC_BLOCKSIZE * 8)) (heap_size s) (small_alloc s))
  end.

(** More memory for the area, when there was no chunk of the size. *)
Definition expand_and_get (size : Z) (w : @world os) (s : small) : res failure (@world os * small * Z) :=
  '(w, s) ← expand_small_area w s;
  '(p, s) ← get_small_chunk size s;
  if p =? 0 then Err OutOfMemoryError else Ok (w, s, p).

Definition slow_small_allocate (size : Z) (w : @world os) (s : small) : res failure (@world os * small * Z) :=
  _ ← massert (0 <? size);
  _ ← massert (size mod MEMALIGN =? 0);
  s ← close_area s;
  '(p, s) ← get_small_chunk size s;
  '(w, s, p) ←
    (if p =? 0 then
       if u32 (others w + GC_REGIONSIZE) <=? heap_size s then expand_and_get size w s
       else
         '(w, s) ← gc_invoke w (set_area 0 0 s);
         s ← close_area s;
         '(p, s) ← get_small_chunk size s;
         if p =? 0 then expand_and_get size w s else Ok (w, s, p)
     else Ok (w, s, p));
  _ ← massert (negb (p =? 0));
  Ok (w, s, p).

Definition gc_malloc_small (size : Z) (w : @world os) (s : small) : res failure (@world os * small * Z) :=
  _ ← massert (0 <? size);
  _ ← massert (size mod MEMALIGN =? 0);
  _ ← massert (size <? GC_MAX_SMALL_OBJECT_SIZE);
  let tmp := small_cursor s in
  '(w, s, tmp) ←
    (if small_bound s <? tmp + size then slow_small_allocate size w s
     else Ok (w, set_area (tmp + size) (small_bound s) s, tmp));
  m ← memset0 (smem s) tmp size;
  m ← st m tmp size;
  Ok (w, set_smem m s, tmp + 4).

End Allocate.

(** ** Preparation of a collection *)

(** [table[index] &= ~(1 << offset)] for the block at [pos]. *)
Definition clear_block (t : list Z) (pos : Z) : res failure (list Z) :=
  w ← of_option BadAccess (zlookup t (pos / 32));
  of_option BadAccess (zstore t (pos / 32) (Z.land w (Z.lnot (Z.shiftl 1 (pos mod 32))))).

(** [for (i = 0; i < block->size; i += GC_BLOCKSIZE)] from the block at [pos] on. *)
Fixpoint clear_blocks (n : nat) (t : list Z) (pos : Z) : res failure (list Z) :=
  match n with O => Ok t | S n' => t ← clear_block t pos; clear_blocks n' t (pos + 1) end.

(** The groups of free blocks of one region; the first group of the next one. *)
Fixpoint clear_groups (fuel : nat) (m : memory) (r : region) (t : list Z) (block : Z) : res failure (list Z * Z) :=
  if (rstart r <=? block) && (block <? rend r) then
    match fuel with
    | O => Err OutOfFuel
    | S fuel' =>
        size ← node_size m block;
        t ← clear_blocks (Z.to_nat ((size + GC_BLOCKSIZE - 1) / GC_BLOCKSIZE)) t ((block - rstart r) / GC_BLOCKSIZE);
        block ← next m block;
        clear_groups fuel' m r t block
    end
  else Ok (t, block).

Fixpoint clear_regions (m : memory) (l : list region) (ts : gmap Z (list Z)) (block : Z) : res failure (gmap Z (list Z)) :=
  match l with
  | [] => Ok ts
  | r :: l' =>
      '(t, block) ← clear_groups BLOCK_FUEL m r (replicate 16 0xFFFFFFFF) block;
      clear_regions m l' (<[rid r := t]> ts) block
  end.

Definition prepare_gc_small (s : small) : res failure small :=
  s ← close_area s;
  let s := set_area 0 0 s in
  ts ← clear_regions (smem s) (small_regions_head s) (tables s) (small_blocks s);
  Ok (set_tables ts s).

(** ** Free lists while sweeping *)

(** Where a [next] that is to be set is: in the head of the list, in the entry
    of the index, or in a chunk. *)
Inductive place := Dummy | Entry (i : Z) | Chunk (a : Z).

(** What the sweep works on: the index with the [next] of each [head_chunk] and
    each [tail], the list of free blocks with its tail ([None] is the dummy),
    and the counts of [gc_stats]. *)
Record sweep := mkSweep {
  sw_mem : memory;
  index : list (Z * place);
  dummy_block : Z;
  tail_block : option Z;
  small_marked : Z;
  small_freed : Z }.

Definition init_freeindex : list (Z * place) :=
  (fun i => (0, Entry i)) <$> seqZ 0 SMALL_CHUNKS_LIST_INDEX_SIZE.

Definition entry_at (t : list (Z * place)) (i : Z) : res failure (Z * place) := of_option BadAccess (zlookup t i).

(** [p->next = v] for a place of the index. *)
Definition put_next (p : place) (v : Z) (t : list (Z * place)) (m : memory) : res failure (list (Z * place) * memory) :=
  match p with
  | Dummy => Err Undefined
  | Entry i => e ← entry_at t i; t ← of_option BadAccess (zstore t i (v, e.2)); Ok (t, m)
  | Chunk a => m ← set_next m a v; Ok (t, m)
  end.

Definition set_sweep (m : memory) (t : list (Z * place)) (s : sweep) : sweep :=
  mkSweep m t (dummy_block s) (tail_block s) (small_marked s) (small_freed s).
Definition add_freed (n : Z) (s : sweep) : sweep :=
  mkSweep (sw_mem s) (index s) (dummy_block s) (tail_block s) (small_marked s) (u32 (small_freed s + n)).
Definition add_marked (n : Z) (s : sweep) : sweep :=
  mkSweep (sw_mem s) (index s) (dummy_block s) (tail_block s) (u32 (small_marked s + n)) (small_freed s).

Definition insert_freechunk (chunk size : Z) (s : sweep) : res failure sweep :=
  _ ← massert (negb (chunk =? 0));
  _ ← massert ((0 <? size) && (size <? GC_BLOCKSIZE));
  _ ← massert (size mod MEMALIGN =? 0);
  let i := size / MEMALIGN in
  _ ← massert (i <? SMALL_CHUNKS_LIST_INDEX_SIZE);
  e ← entry_at (index s) i;
  '(t, m) ← put_next e.2 chunk (index s) (sw_mem s);
  e ← entry_at t i;
  t ← of_option BadAccess (zstore t i (e.1, Chunk chunk));
  m ← set_size m chunk (free_header size);
  w ← ld m chunk;
  _ ← massert (w =? free_header size);
  Ok (set_sweep m t s).

(** The next entry's list behind what has been merged; [head] is [dummy.next]. *)
Definition merge_entry (i : Z) (st : Z * place * list (Z * place) * memory) :
    res failure (Z * place * list (Z * place) * memory) :=
  let '(head, tail, t, m) := st in
  e ← entry_at t i;
  if negb (e.1 =? 0) then
    match tail with
    | Dummy => Ok (e.1, e.2, t, m)
    | _ => '(t, m) ← put_next tail e.1 t m; Ok (head, e.2, t, m)
    end
  else Ok (head, tail, t, m).

(** [for (i = SMALL_CHUNKS_LIST_INDEX_SIZE-1; i > 0; i--)] *)
Fixpoint merge_entries (n : nat) (st : Z * place * list (Z * place) * memory) :
    res failure (Z * place * list (Z * place) * memory) :=
  match n with O => Ok st | S n' => st ← merge_entry (Z.of_nat n) st; merge_entries n' st end.

Definition merge_freeindex (t : list (Z * place)) (m : memory) : res failure (Z * memory) :=
  '(head, tail, t, m) ← merge_entries (Z.to_nat (SMALL_CHUNKS_LIST_INDEX_SIZE - 1)) (0, Dummy, t, m);
  match tail with
  | Dummy => Ok (0, m)
  | _ => '(_, m) ← put_next tail 0 t m; Ok (head, m)
  end.

(** A group of blocks at the end of the list of free blocks. *)
Definition append_block (block size : Z) (s : sweep) : res failure sweep :=
  m ← set_size (sw_mem s) block size;
  m ← set_next m block 0;
  '(d, m) ← match tail_block s with
            | None => Ok (block, m)
            | Some t => m ← set_next m t block; Ok (dummy_block s, m)
            end;
  Ok (mkSweep m (index s) d (Some block) (small_marked s) (small_freed s)).

(** ** The normal sweep *)

(** [table[ind] & (1 << off)] for the block at [pos] of a region. *)
Definition block_bit (ts : gmap Z (list Z)) (r : region) (pos : Z) : res failure bool :=
  t ← of_option BadAccess (ts !! rid r);
  w ← of_option BadAccess (zlookup t (pos / 32));
  Ok (negb (Z.land w (Z.shiftl 1 (pos mod 32)) =? 0)).

(** A marked object ends the slack before it. *)
Definition keep_object (header size w slack slack_size : Z) (s : sweep) : res failure sweep :=
  _ ← massert (size <? GC_MAX_SMALL_OBJECT_SIZE);
  _ ← massert (Z.land w FREE_BIT =? 0);
  s ← (if 0 <? slack_size then s ← insert_freechunk slack slack_size s; Ok (add_freed slack_size s) else Ok s);
  let s := add_marked size s in
  w ← ld (sw_mem s) header;
  m ← st (sw_mem s) header (Z.land w (Z.lnot MARK_BIT));
  Ok (set_sweep m (index s) s).

(** The chunks of a block: the header reached, and the slack before it. *)
Fixpoint sweep_chunks (n : nat) (header bound slack slack_size : Z) (s : sweep) : res failure (Z * Z * Z * sweep) :=
  if header <? bound then
    size ← chunk_size (sw_mem s) header;
    w ← ld (sw_mem s) header;
    match n with
    | O => Err OutOfFuel
    | S n' =>
        if negb (Z.land w MARK_BIT =? 0) then
          s ← keep_object header size w slack slack_size s;
          sweep_chunks n' (header + size) bound (header + size) 0 s
        else sweep_chunks n' (header + size) bound slack (slack_size + size) s
    end
  else Ok (header, slack, slack_size, s).

(** The free blocks so far, if any, as a group. *)
Definition flush_blocks (slack_block slack_block_size : Z) (s : sweep) : res failure sweep :=
  if 0 <? slack_block_size then
    s ← append_block slack_block slack_block_size s; Ok (add_freed slack_block_size s)
  else Ok s.

Definition sweep_block (ts : gmap Z (list Z)) (r : region) (pos : Z) (st : Z * Z * sweep) : res failure (Z * Z * sweep) :=
  let '(slack_block, slack_block_size, s) := st in
  let block := rstart r + GC_BLOCKSIZE * pos in
  used ← block_bit ts r pos;
  if negb used then Ok (slack_block, slack_block_size + GC_BLOCKSIZE, s)
  else
    let first := block + (MEMALIGN - GC_HEAD) in
    let bound := block + (GC_BLOCKSIZE - GC_HEAD) in
    '(header, slack, slack_size, s) ← sweep_chunks BLOCK_FUEL first bound first 0 s;
    '(slack_block, slack_block_size, s) ←
      (if (0 <? slack_size) && (slack =? first) then Ok (slack_block, slack_block_size + GC_BLOCKSIZE, s)
       else
         s ← (if 0 <? slack_size then s ← insert_freechunk slack slack_size s; Ok (add_freed slack_size s) else Ok s);
         s ← flush_blocks slack_block slack_block_size s;
         Ok (block + GC_BLOCKSIZE, 0, s));
    _ ← massert (header =? bound);
    Ok (slack_block, slack_block_size, s).

Fixpoint sweep_blocks (ts : gmap Z (list Z)) (r : region) (l : list Z) (st : Z * Z * sweep) : res failure (Z * Z * sweep) :=
  match l with [] => Ok st | pos :: l' => st ← sweep_block ts r pos st; sweep_blocks ts r l' st end.

Definition sweep_region (ts : gmap Z (list Z)) (r : region) (s : sweep) : res failure sweep :=
  '(slack_block, slack_block_size, s) ← sweep_blocks ts r (region_blocks r) (rstart r, 0, s);
  flush_blocks slack_block slack_block_size s.

Fixpoint sweep_regions (f : region -> sweep -> res failure sweep) (l : list region) (s : sweep) : res failure sweep :=
  match l with [] => Ok s | r :: l' => s ← f r s; sweep_regions f l' s end.

(** What both sweeps end with: the two lists. *)
Definition finish_sweep (s : sweep) : res failure (memory * Z * Z * Z * Z) :=
  '(chunks, m) ← merge_freeindex (index s) (sw_mem s);
  Ok (m, chunks, dummy_block s, small_marked s, small_freed s).

Definition sweep_small_normal (ts : gmap Z (list Z)) (l : list region) (m : memory) : res failure (memory * Z * Z * Z * Z) :=
  s ← sweep_regions (sweep_region ts) l (mkSweep m init_freeindex 0 None 0 0);
  finish_sweep s.

(** ** The selective sweep *)

Definition insert_freemem (start end_ : Z) (s : sweep) : res failure sweep :=
  let start := if start mod GC_BLOCKSIZE =? MEMALIGN - GC_HEAD then start - (MEMALIGN - GC_HEAD)
               else if start mod GC_BLOCKSIZE =? GC_BLOCKSIZE - GC_HEAD then start + GC_HEAD else start in
  let end_ := if end_ mod GC_BLOCKSIZE =? MEMALIGN - GC_HEAD then end_ - (MEMALIGN - GC_HEAD)
              else if end_ mod GC_BLOCKSIZE =? GC_BLOCKSIZE - GC_HEAD then end_ + GC_HEAD else end_ in
  if start =? end_ then Ok s else
  let cursor := start in
  let block_end := ROUNDUPBLOCKSIZE cursor in
  let '(first_start, first_end, cursor) :=
    if negb (cursor mod GC_BLOCKSIZE =? 0)
    then (cursor, if end_ <? block_end then end_ else block_end - GC_HEAD, block_end)
    else (0, 0, cursor) in
  let last := ROUNDDOWNBLOCKSIZE end_ in
  '(middle_start, middle_end, cursor) ←
    (if cursor <? last then _ ← massert (cursor mod GC_BLOCKSIZE =? 0); Ok (cursor, last, last) else Ok (0, 0, cursor));
  '(last_start, last_end) ←
    (if cursor <? end_ then
       _ ← massert (negb (end_ mod GC_BLOCKSIZE =? 0)); _ ← massert (cursor mod GC_BLOCKSIZE =? 0);
       Ok (cursor + GC_HEAD, end_)
     else Ok (0, 0));
  s ← (if first_start <? first_end then insert_freechunk first_start (first_end - first_start) s else Ok s);
  s ← (if middle_start <? middle_end then
         s ← append_block middle_start (middle_end - middle_start) s;
         _ ← massert ((middle_end - middle_start) mod GC_BLOCKSIZE =? 0);
         Ok s
       else Ok s);
  if last_start <? last_end then insert_freechunk last_start (last_end - last_start) s else Ok s.

(** [HEADER(object)[0] &= ~MARK_BIT] *)
Definition unmark (object : Z) (s : sweep) : res failure sweep :=
  w ← HEADER (sw_mem s) object;
  m ← set_HEADER (sw_mem s) object (Z.land w (Z.lnot MARK_BIT));
  Ok (set_sweep m (index s) s).

Section Selective.
(** The sorted objects, from index [base] of the array on. *)
Context (objects : list Z) (base : Z).

Definition object (i : Z) : res failure Z := at_index objects (base + i).

(** [while (objects[i] < region_start) i++;] *)
Fixpoint skip_objects (n : nat) (region_start i : Z) : res failure Z :=
  o ← object i;
  if o <? region_start then match n with O => Err OutOfFuel | S n' => skip_objects n' region_start (i + 1) end
  else Ok i.

(** The memory between two addresses, if there is any, and its statistics. *)
Definition free_between (a b : Z) (s : sweep) : res failure sweep :=
  if a <? b then s ← insert_freemem a b s; Ok (add_freed (b - a) s) else Ok s.

Definition assert_inside (region_start region_end o : Z) : res failure unit :=
  _ ← massert (region_start <? o); massert (o <? region_end).

(** [while (objects[i+1] < region_end)] *)
Fixpoint sweep_between (n : nat) (region_start region_end i : Z) (s : sweep) : res failure (Z * sweep) :=
  o' ← object (i + 1);
  if o' <? region_end then
    match n with
    | O => Err OutOfFuel
    | S n' =>
        o ← object i;
        _ ← massert (o <? o');
        _ ← assert_inside region_start region_end o;
        _ ← assert_inside region_start region_end o';
        s ← unmark o' s;
        size ← SIZE (sw_mem s) o;
        s ← free_between (o - GC_HEAD + size) (o' - GC_HEAD) s;
        sweep_between n' region_start region_end (i + 1) (add_marked size s)
    end
  else Ok (i, s).

(** One region, from the index of an object that is not before it on. *)
Definition sweep_region_selective (n : nat) (r : region) (st : Z * sweep) : res failure (Z * sweep) :=
  let '(i, s) := st in
  i ← skip_objects n (rstart r) i;
  o ← object i;
  if rend r <? o then
    s ← append_block (rstart r) (rend r - rstart r) s;
    Ok (i, add_freed (rend r - rstart r) s)
  else
    let region_first := rstart r + (MEMALIGN - GC_HEAD) in
    let region_last := rend r - GC_HEAD in
    _ ← assert_inside (rstart r) (rend r) o;
    s ← unmark o s;
    s ← free_between region_first (o - GC_HEAD) s;
    '(i, s) ← sweep_between n (rstart r) (rend r) i s;
    o ← object i;
    _ ← assert_inside (rstart r) (rend r) o;
    size ← SIZE (sw_mem s) o;
    s ← free_between (o - GC_HEAD + size) region_last s;
    Ok (i, add_marked size s).

Fixpoint sweep_regions_selective (n : nat) (l : list region) (st : Z * sweep) : res failure (Z * sweep) :=
  match l with [] => Ok st | r :: l' => st ← sweep_region_selective n r st; sweep_regions_selective n l' st end.

End Selective.

(** The live objects are the first [n] of the array, which has room for the two
    sentinels and the copy that sorting needs. *)
Definition sweep_small_selective (l : list region) (objects : list Z) (n : Z) (m : memory) :
    res failure (memory * Z * Z * Z * Z) :=
  objects ← put_index objects n 0;
  objects ← put_index objects (n + 1) 0xFFFFFFFF;
  let n := n + 2 in
  '(objects, base) ← sort_objects objects 0 n;
  '(i, s) ← sweep_regions_selective objects base (Z.to_nat n) l (0, mkSweep m init_freeindex 0 None 0 0);
  _ ← massert (i <? n);
  finish_sweep s.

Definition sweep_small (state : mark_state_t) (ts : gmap Z (list Z)) (l : list region) (objects : list Z) (n : Z) (m : memory) :
    res failure (memory * Z * Z * Z * Z) :=
  if bool_decide (state = MARK_STATE_COLLECT) then sweep_small_selective l objects n m
  else _ ← massert (bool_decide (state = MARK_STATE_NORMAL)); sweep_small_normal ts l m.
