(* ===== verification/GcChain.v ===== *)
(** * The free lists of the small object area in memory (src/runtime/gc.c)

    Null-terminated lists of two-word nodes, the index of free chunks by size
    that the sweep fills, its merge into one list, and the list of groups of
    free blocks. *)

From S2P Require Import Prelude GcHeap GcTiling GcMark GcSmall.

(** ** Lists in memory *)

(** The links between the nodes of [l], whatever the last one points to. *)
Fixpoint linked (m : memory) (l : list Z) : Prop :=
  match l with
  | a :: (b :: _) as l' => rd m (a + 4) = b /\ linked m l'
  | _ => True
  end.

Definition node_ok (m : memory) (a : Z) : Prop := a <> 0 /\ acc m a /\ acc m (a + 4).

(** The null-terminated list from [p] on. *)
Fixpoint chain (m : memory) (p : Z) (l : list Z) : Prop :=
  match l with
  | [] => p = 0
  | a :: l' => p = a /\ node_ok m a /\ chain m (rd m (a + 4)) l'
  end.

Lemma linked_ext m m' l : (forall a, a ∈ l -> rd m' (a + 4) = rd m (a + 4)) -> linked m l -> linked m' l.
Proof.
  induction l as [|a [|b l] IH]; intros He; simpl; [done|done|]. intros [<- Hl]. split.
  - apply He. left.
  - apply IH; [|done]. intros x Hx. apply He. by right.
Qed.

Lemma linked_app m l1 a b l2 : linked m (l1 ++ [a]) -> rd m (a + 4) = b -> linked m (b :: l2) -> linked m (l1 ++ a :: b :: l2).
Proof.
  intros H1 Hab H2. induction l1 as [|x [|y l1] IH]; simpl in *; [done|by destruct H1|]. destruct H1 as [? H1]. split; [done|]. by apply IH.
Qed.

Lemma linked_cons_inv m a l : linked m (a :: l) -> linked m l.
Proof. destruct l; [done|]. by intros [_ ?]. Qed.

Lemma chain_hd0 m p l : chain m p l -> p = hd0 l.
Proof. destruct l; [done|]. by intros [-> _]. Qed.

Lemma chain_iff m p l : chain m p l <->
  p = hd0 l /\ Forall (node_ok m) l /\ linked m l /\ (l <> [] -> rd m (lastd 0 l + 4) = 0).
Proof.
  revert p. induction l as [|a l IH]; intros p; [split; [by intros ->|by intros (-> & _)]|].
  cbn [chain]. rewrite IH. destruct l as [|b l].
  - unfold lastd, hd0. simpl. rewrite Forall_singleton. split.
    + intros (-> & Ha & Hz & _). done.
    + intros (-> & Ha & _ & Hz). specialize (Hz ltac:(done)). split_and!; try done; constructor.
  - rewrite (lastd_cons 0 a (b :: l)), (lastd_cons a b l), (lastd_cons 0 b l). simpl. split.
    + intros (-> & Ha & Hb & Hf & Hl & Hz). split_and!; try done; [by constructor|by intros _; apply Hz].
    + intros (-> & Hf & (Hb & Hl) & Hz). apply Forall_cons in Hf as [Ha Hf]. split_and!; try done. intros _. by apply Hz.
Qed.

Lemma chain_ext m m' p l : ranges m' = ranges m -> (forall a, a ∈ l -> rd m' (a + 4) = rd m (a + 4)) -> chain m p l -> chain m' p l.
Proof.
  intros Hr. revert p. induction l as [|a l IH]; intros p He; simpl; [done|].
  intros (-> & (Ha & A1 & A2) & Hc). split; [done|]. split; [unfold node_ok, acc in *; by rewrite Hr|].
  rewrite He by left. apply IH; [|done]. intros x Hx. apply He. by right.
Qed.

Lemma node_ok_ext m m' a : ranges m' = ranges m -> node_ok m a -> node_ok m' a.
Proof. unfold node_ok, acc. by intros ->. Qed.

(** ** Nodes apart from each other *)

Definition apart (a b : Z) : Prop := a + 8 <= b \/ b + 8 <= a.

Fixpoint separate (l : list Z) : Prop :=
  match l with [] => True | a :: l' => Forall (apart a) l' /\ separate l' end.

(** The words of the nodes of [l]. *)
Definition touched (l : list Z) (a : Z) : Prop := exists n, n ∈ l /\ n <= a < n + 8.

Lemma touched_app l1 l2 a : touched (l1 ++ l2) a <-> touched l1 a \/ touched l2 a.
Proof.
  unfold touched. setoid_rewrite elem_of_app. naive_solver.
Qed.

Lemma touched_cons n l a : touched (n :: l) a <-> n <= a < n + 8 \/ touched l a.
Proof.
  unfold touched. setoid_rewrite elem_of_cons. naive_solver.
Qed.

Lemma touched_perm l l' a : l ≡ₚ l' -> touched l a <-> touched l' a.
Proof. intros Hp. unfold touched. by setoid_rewrite Hp. Qed.

Lemma separate_perm l l' : l ≡ₚ l' -> separate l -> separate l'.
Proof.
  induction 1 as [|x l l' Hp IH|x y l|l l' l'' _ IH1 _ IH2]; simpl; [done| | |by auto].
  - intros [H1 H2]. split; [by rewrite <- Hp|by apply IH].
  - intros [H1 [H2 H3]]. apply Forall_cons in H1 as [H0 H1]. split_and!; try done.
    constructor; [|done]. unfold apart in *. lia.
Qed.

Lemma separate_app l1 l2 : separate (l1 ++ l2) <->
  separate l1 /\ separate l2 /\ forall a b, a ∈ l1 -> b ∈ l2 -> apart a b.
Proof.
  induction l1 as [|x l1 IH]; simpl.
  - split; [|tauto]. intros H. split_and!; try done. intros a b Ha. by apply elem_of_nil in Ha.
  - rewrite IH, Forall_app, !Forall_forall. setoid_rewrite elem_of_cons. naive_solver.
Qed.

Lemma separate_nodup l : separate l -> NoDup l.
Proof.
  induction l as [|a l IH]; simpl; [constructor|]. intros [H1 H2]. constructor; [|by apply IH].
  intros Hin. rewrite Forall_forall in H1. specialize (H1 _ Hin). unfold apart in H1. lia.
Qed.

(** Two nodes of a separate list are apart. *)
Lemma separate_apart l a b : separate l -> a ∈ l -> b ∈ l -> a <> b -> apart a b.
Proof.
  induction l as [|x l IH]; simpl; [by intros _ ?%elem_of_nil|]. rewrite Forall_forall, !elem_of_cons.
  intros [H1 H2] [->|Ha] [->|Hb] Hne; [done|by apply H1| |by apply IH].
  specialize (H1 _ Ha). unfold apart in *. lia.
Qed.

(** ** The index of free chunks *)

(** The chunks of entry [i] among [F], which lists chunks with their sizes. *)
Definition entry (F : list (Z * Z)) (i : Z) : list Z := (filter (fun c => c.2 / 8 = i) F).*1.

Definition tail_place (i : Z) (N : list Z) : place :=
  match last N with None => Entry i | Some a => Chunk a end.

Definition chunk_fits (s : Z) : Prop := 8 <= s < 4096 /\ s mod 8 = 0.

Record index_ok (m : memory) (t : list (Z * place)) (F : list (Z * Z)) : Prop := {
  ix_len : length t = 512%nat;
  ix_entry i : 1 <= i < 512 -> zlookup t i = Some (hd0 (entry F i), tail_place i (entry F i)) /\ linked m (entry F i);
  ix_chunk c : c ∈ F -> node_ok m c.1 /\ chunk_fits c.2 /\ rd m c.1 = free_header c.2 }.

Lemma entry_app F F' i : entry (F ++ F') i = entry F i ++ entry F' i.
Proof. unfold entry. by rewrite filter_app, fmap_app. Qed.

Lemma elem_of_entry F i a : a ∈ entry F i <-> exists s, (a, s) ∈ F /\ s / 8 = i.
Proof.
  unfold entry. rewrite list_elem_of_fmap. setoid_rewrite list_elem_of_filter. split.
  - intros ([b s] & -> & Hi & Hin). by exists s.
  - intros (s & Hin & Hi). by exists (a, s).
Qed.

Lemma entry_incl F i a : a ∈ entry F i -> a ∈ F.*1.
Proof. intros (s & Hin & _)%elem_of_entry. apply list_elem_of_fmap. by exists (a, s). Qed.

Lemma entry_nodup F i : NoDup F.*1 -> NoDup (entry F i).
Proof.
  induction F as [|c F IH]; [done|]. cbn [fmap list_fmap]. intros [Hc Hnd]%NoDup_cons. unfold entry. rewrite filter_cons.
  case_decide; [|by apply IH]. cbn [fmap list_fmap]. constructor; [|by apply IH]. intros Hin. apply Hc. by apply (entry_incl F i).
Qed.

Lemma init_index_ok m : index_ok m init_freeindex [].
Proof.
  assert (H512 : SMALL_CHUNKS_LIST_INDEX_SIZE = 512) by done. split.
  - unfold init_freeindex. by rewrite length_fmap, length_seqZ, H512.
  - intros i Hi. split; [|done]. unfold init_freeindex. rewrite H512.
    rewrite <- (Z2Nat.id i) at 1 by lia. rewrite zlookup_nat, list_lookup_fmap, lookup_seqZ_lt by lia.
    simpl. by rewrite Z2Nat.id by lia.
  - by intros c ?%elem_of_nil.
Qed.

(** What the links and headers of an index need of a later memory. *)
Lemma index_ok_ext m m' t F : ranges m' = ranges m ->
  (forall a, touched F.*1 a -> rd m' a = rd m a) -> index_ok m t F -> index_ok m' t F.
Proof.
  intros Hr He [H1 H2 H3]. assert (Ht : forall c : Z * Z, c ∈ F -> c.1 ∈ F.*1) by (intros c Hc; apply list_elem_of_fmap; by exists c).
  split; [done| |].
  - intros i Hi. destruct (H2 i Hi) as [E Hl]. split; [done|]. eapply linked_ext; [|done].
    intros a Ha. apply He. exists a. split; [by apply (entry_incl F i)|lia].
  - intros c Hc. destruct (H3 c Hc) as (N & S & E). split_and!; [by eapply node_ok_ext|done..|].
    rewrite He; [done|]. exists c.1. split; [by apply Ht|lia].
Qed.

Lemma free_header_size s : s mod 8 = 0 -> mask_size (free_header s) = s /\ Z.testbit (free_header s) 1 = true /\ Z.testbit (free_header s) 0 = false.
Proof.
  intros Hs. unfold free_header. split_and!.
  - rewrite <- (mask_size_id s Hs) at 2. apply mask_size_eq. intros i Hi.
    rewrite Z.lor_spec, (testbit_const_high FREE_BIT i) by (unfold FREE_BIT; lia). apply orb_false_r.
  - rewrite Z.lor_spec. apply orb_true_r.
  - rewrite Z.lor_spec, low_bits_small by (done || lia). done.
Qed.

(** ** The state of a sweep *)

Definition nodes (F B : list (Z * Z)) : list Z := F.*1 ++ B.*1.

(** [F] and [B] are the free chunks and the groups of free blocks so far, in
    the order in which they were found. *)
Record sweep_ok (s : sweep) (F B : list (Z * Z)) : Prop := {
  so_index : index_ok (sw_mem s) (index s) F;
  so_head : dummy_block s = hd0 B.*1;
  so_tail : tail_block s = last B.*1;
  so_links : linked (sw_mem s) B.*1;
  so_last : B <> [] -> rd (sw_mem s) (lastd 0 B.*1 + 4) = 0;
  so_block b : b ∈ B -> node_ok (sw_mem s) b.1 /\ rd (sw_mem s) b.1 = b.2;
  so_apart : separate (nodes F B) }.

Lemma init_sweep_ok m : sweep_ok (mkSweep m init_freeindex 0 None 0 0) [] [].
Proof. split; try done; [apply init_index_ok|by intros b ?%elem_of_nil]. Qed.

Lemma add_freed_ok n s F B : sweep_ok s F B -> sweep_ok (add_freed n s) F B.
Proof. by intros [? ? ? ? ? ? ?]. Qed.

Lemma add_marked_ok n s F B : sweep_ok s F B -> sweep_ok (add_marked n s) F B.
Proof. by intros [? ? ? ? ? ? ?]. Qed.

Lemma in_nodes_l F B c : c ∈ F -> c.1 ∈ nodes F B.
Proof. intros Hc. apply elem_of_app. left. apply list_elem_of_fmap. by exists c. Qed.

Lemma in_nodes_r F B b : b ∈ B -> b.1 ∈ nodes F B.
Proof. intros Hb. apply elem_of_app. right. apply list_elem_of_fmap. by exists b. Qed.

(** A change of other words than those of the nodes. *)
Lemma sweep_ok_ext s m' F B : agree (touched (nodes F B)) (sw_mem s) m' -> sweep_ok s F B ->
  sweep_ok (set_sweep m' (index s) s) F B.
Proof.
  intros [Hr He] [H1 H2 H3 H4 H5 H6 H7].
  assert (Hin : forall n, n ∈ nodes F B -> rd m' n = rd (sw_mem s) n /\ rd m' (n + 4) = rd (sw_mem s) (n + 4))
    by (intros n Hn; split; apply He; exists n; (split; [done|lia])).
  assert (HB : forall n, n ∈ B.*1 -> n ∈ nodes F B) by (intros n Hn; apply elem_of_app; by right).
  split; cbn; try done.
  - eapply index_ok_ext; [done| |done]. intros a Ha. apply He, touched_app. by left.
  - eapply linked_ext; [|done]. intros a Ha. by apply Hin, HB.
  - intros Hne. assert (B.*1 <> []) as Hl%lastd_in by (by destruct B). rewrite (proj2 (Hin _ (HB _ Hl))). by apply H5.
  - intros b Hb. destruct (H6 b Hb) as [N E]. split; [by eapply node_ok_ext|]. by rewrite (proj1 (Hin _ (in_nodes_r F B b Hb))).
Qed.

Lemma linked_snoc m m' N a : linked m N -> (forall x, last N = Some x -> rd m' (x + 4) = a) ->
  (forall x, x ∈ N -> last N <> Some x -> rd m' (x + 4) = rd m (x + 4)) -> NoDup N -> linked m' (N ++ [a]).
Proof.
  induction N as [|x [|y N] IH]; intros Hl Hlast He Hnd; [done|split; [by apply Hlast|done]|].
  destruct Hl as [<- Hl]. apply NoDup_cons in Hnd as [Hx Hnd].
  assert (last (x :: rd m (x + 4) :: N) = last (rd m (x + 4) :: N)) as E by done. rewrite E in *. split.
  - apply He; [left|]. intros Hlx. apply Hx. apply last_Some in Hlx as [l' ->]. apply elem_of_app. right. left.
  - apply IH; [done|done| |done]. intros z Hz. apply He. by right.
Qed.

Lemma zlookup_set {A} (t : list A) i j x : 0 <= i < Z.of_nat (length t) ->
  zlookup (<[Z.to_nat i := x]> t) j = if i =? j then Some x else zlookup t j.
Proof. intros Hi. by apply zlookup_zstore, zstore_is_Some. Qed.

(** The entry of the new chunk's size gets the chunk as its last. *)
Lemma index_insert m m' t F a n : index_ok m t F -> chunk_fits n -> separate (a :: F.*1) -> node_ok m a ->
  let N := entry F (n / 8) in
  ranges m' = ranges m -> rd m' a = free_header n -> (forall x, last N = Some x -> rd m' (x + 4) = a) ->
  (forall c, c ∈ F -> rd m' c.1 = rd m c.1) ->
  (forall x, x ∈ F.*1 -> last N <> Some x -> rd m' (x + 4) = rd m (x + 4)) ->
  index_ok m' (<[Z.to_nat (n / 8) := (hd0 (N ++ [a]), Chunk a)]> t) (F ++ [(a, n)]).
Proof.
  intros [H1 H2 H3] [Hn Hn8] Hs Ha N Hr Hh Hlast Hhd Hnext.
  assert (Hi : 1 <= n / 8 < 512) by dmlia.
  assert (Ee : forall i, entry (F ++ [(a, n)]) i = if decide (n / 8 = i) then entry F i ++ [a] else entry F i).
  { intros i. rewrite entry_app. unfold entry at 2. rewrite filter_cons, filter_nil. simpl.
    case_decide; [done|]. by rewrite app_nil_r. }
  destruct Hs as [Hsa Hs]. pose proof (separate_nodup _ Hs) as Hnd.
  pose proof (fun i => entry_nodup F i Hnd) as Hnde.
  split.
  - by rewrite length_insert.
  - intros i Hi'. destruct (H2 i Hi') as [E Hl]. rewrite Ee. case_decide as Hd.
    + subst i. split.
      * rewrite zlookup_set, Z.eqb_refl by (rewrite H1; lia). unfold tail_place. by rewrite last_snoc.
      * eapply linked_snoc; [exact Hl|done| |done]. intros x Hx. apply Hnext. by apply (entry_incl F (n / 8)).
    + split.
      * rewrite zlookup_set by (rewrite H1; lia). by destruct (Z.eqb_spec (n / 8) i).
      * eapply linked_ext; [|exact Hl]. intros x Hx. apply Hnext; [by apply (entry_incl F i)|].
        intros Hlx. apply last_Some in Hlx as [l' Hl']. assert (Hx' : x ∈ N) by (rewrite Hl'; apply elem_of_app; right; left).
        apply elem_of_entry in Hx as (s & Hin & Hs1). apply elem_of_entry in Hx' as (s' & Hin' & Hs2).
        apply Hd. rewrite <- Hs1, <- Hs2. f_equal.
        apply list_elem_of_lookup in Hin as [j Hj]. apply list_elem_of_lookup in Hin' as [j' Hj'].
        assert (j = j') as -> by (eapply NoDup_lookup; [exact Hnd|by rewrite list_lookup_fmap, Hj|by rewrite list_lookup_fmap, Hj']).
        congruence.
  - intros c [Hc| ->%list_elem_of_singleton]%elem_of_app; cbn.
    + destruct (H3 c Hc) as (C1 & C2 & C3). split_and!; [by eapply node_ok_ext|done..|]. by rewrite Hhd.
    + split_and!; [by eapply node_ok_ext|done..].
Qed.

Lemma last_in_touched F i x : last (entry F i) = Some x -> x ∈ F.*1.
Proof. intros [l' El]%last_Some. apply (entry_incl F i). rewrite El. apply elem_of_app. right. left. Qed.


(** [table[index].tail->next = node] *)
Lemma put_tail_spec m t F i a : index_ok m t F -> 1 <= i < 512 ->
  let N := entry F i in
  exists t1 pl, put_next (tail_place i N) a t m =
      Ok (t1, match last N with Some x => upd m (x + 4) a | None => m end) /\
    zlookup t1 i = Some (hd0 (N ++ [a]), pl) /\ length t1 = 512%nat /\
    forall x, <[Z.to_nat i := x]> t1 = <[Z.to_nat i := x]> t.
Proof.
  intros Hok Hi N. destruct (ix_entry _ _ _ Hok i Hi) as [E _]. fold N in E. pose proof (ix_len _ _ _ Hok) as Hlen.
  unfold tail_place in *. destruct (last N) as [x|] eqn:El; cbn [put_next].
  - assert (Hx : x ∈ F.*1) by (by apply (last_in_touched F i)). apply list_elem_of_fmap in Hx as (c & -> & Hc).
    destruct (ix_chunk _ _ _ Hok c Hc) as ((_ & _ & A) & _). unfold set_next. rewrite st_acc by done. cbn [mbind res_bind].
    exists t, (Chunk c.1). split_and!; try done. rewrite E. do 2 f_equal. destruct N; [done|done].
  - apply last_None in El. rewrite El in E. unfold entry_at. rewrite E. cbn [of_option mbind res_bind snd]. rewrite El.
    rewrite zstore_is_Some by (rewrite Hlen; lia). cbn [of_option mbind res_bind].
    eexists _, _. split; [done|]. split_and!.
    + by rewrite zlookup_set, Z.eqb_refl by (rewrite Hlen; lia).
    + by rewrite length_insert.
    + intros y. apply list_insert_insert_eq.
Qed.

(** The state after an insertion: the chunk is behind the others, and only
    nodes of the lists and the new node have changed. *)
Definition inserted (s s' : sweep) (F B F' B' : list (Z * Z)) : Prop :=
  sweep_ok s' F' B' /\ agree (fun b => ~ touched (nodes F' B') b) (sw_mem s) (sw_mem s').

Lemma insert_freechunk_spec s F B a n : sweep_ok s F B -> node_ok (sw_mem s) a -> chunk_fits n ->
  Forall (apart a) (nodes F B) ->
  exists s', insert_freechunk a n s = Ok s' /\ inserted s s' F B (F ++ [(a, n)]) B.
Proof.
  intros Hs Ha Hn Hap. destruct Hs as [H1 H2 H3 H4 H5 H6 H7]. pose proof Ha as (Ha0 & A1 & A2). pose proof Hn as [Hb Hm].
  assert (Hi : 1 <= n / 8 < 512) by dmlia. set (N := entry F (n / 8)).
  unfold insert_freechunk, massert, assert_or. destruct (Z.eqb_spec a 0); [done|]. cbn [negb mbind res_bind].
  change GC_BLOCKSIZE with 4096. change MEMALIGN with 8. change SMALL_CHUNKS_LIST_INDEX_SIZE with 512.
  destruct (Z.ltb_spec 0 n); [|lia]. destruct (Z.ltb_spec n 4096); [|lia]. rewrite Hm. cbn [andb mbind res_bind Z.eqb].
  destruct (Z.ltb_spec (n / 8) 512); [|lia]. cbn [mbind res_bind].
  destruct (ix_entry _ _ _ H1 _ Hi) as [E _]. unfold entry_at. rewrite E. cbn [of_option mbind res_bind snd].
  destruct (put_tail_spec _ _ _ _ a H1 Hi) as (t1 & pl & -> & E1 & L1 & Ht). cbn [mbind res_bind]. rewrite E1.
  cbn [of_option mbind res_bind fst]. rewrite zstore_is_Some by (rewrite L1; lia). rewrite Ht. cbn [of_option mbind res_bind].
  fold N. set (m1 := match last N with Some x => _ | None => _ end).
  assert (Hr1 : ranges m1 = ranges (sw_mem s)) by (unfold m1; by destruct (last N)).
  assert (A1' : acc m1 a) by (unfold acc; by rewrite Hr1). unfold set_size. rewrite st_acc by done. cbn [mbind res_bind].
  rewrite ld_acc by done. cbn [mbind res_bind]. rewrite rd_upd_eq, Z.eqb_refl. cbn [mbind res_bind].
  assert (HF : forall x, x ∈ F.*1 -> x ∈ nodes F B) by (intros x Hx; apply elem_of_app; by left).
  assert (Hsep : forall x, x ∈ nodes F B -> apart a x) by (by apply Forall_forall).
  assert (Hrd : forall b, b <> a -> (forall x, last N = Some x -> b <> x + 4) -> rd (upd m1 a (free_header n)) b = rd (sw_mem s) b).
  { intros b Hba Hx. rewrite rd_upd_ne by done. unfold m1. destruct (last N) as [x|]; [|done]. rewrite rd_upd_ne; [done|].
    intros <-. by apply (Hx x). }
  assert (HL : forall x, last N = Some x -> x ∈ nodes F B) by (intros x Hx; apply HF; by apply (last_in_touched F (n / 8))).
  assert (Hkeep : forall x, x ∈ nodes F B -> rd (upd m1 a (free_header n)) x = rd (sw_mem s) x /\
            (last N <> Some x -> rd (upd m1 a (free_header n)) (x + 4) = rd (sw_mem s) (x + 4))).
  { intros x Hx. pose proof (Hsep x Hx) as Hax. unfold apart in Hax. split.
    - apply Hrd; [lia|]. intros y Hy ->. pose proof (HL y Hy) as Hy'.
      destruct (separate_apart _ _ _ H7 Hy' Hx ltac:(lia)); lia.
    - intros Hne. apply Hrd; [lia|]. intros y Hy E'. apply Hne. assert (x = y) as -> by lia. done. }
  eexists. split; [done|]. unfold inserted. cbn [sw_mem index set_sweep]. split; [split; cbn|].
  - apply (index_insert (sw_mem s)); try done.
    + split; [|by apply separate_app in H7 as (? & _)]. apply Forall_forall. intros x Hx. by apply Hsep, HF.
    + apply rd_upd_eq.
    + intros x Hx. rewrite rd_upd_ne. { unfold m1. fold N in Hx. rewrite Hx. apply rd_upd_eq. }
      destruct (Hsep x (HL x Hx)); lia.
    + intros c Hc. by apply Hkeep, in_nodes_l.
    + intros x Hx Hne. by apply Hkeep; [apply HF|].
  - done.
  - done.
  - eapply linked_ext; [|exact H4]. intros x Hx. apply Hkeep; [apply elem_of_app; by right|]. intros Hlx.
    apply last_in_touched in Hlx. apply separate_app in H7 as (_ & _ & H7). destruct (H7 x x Hlx Hx); lia.
  - intros Hne. assert (B.*1 <> []) as Hl%lastd_in by (by destruct B). rewrite (proj2 (Hkeep _ (proj2 (elem_of_app _ _ _) (or_intror Hl)))).
    { by apply H5. } intros Hlx. apply last_in_touched in Hlx. apply separate_app in H7 as (_ & _ & H7). destruct (H7 _ _ Hlx Hl); lia.
  - intros b HbB. destruct (H6 b HbB) as [N1 N2]. split; [by eapply node_ok_ext|]. rewrite (proj1 (Hkeep _ (in_nodes_r F B b HbB))). done.
  - apply (separate_perm (a :: nodes F B)); [|done]. unfold nodes. rewrite fmap_app. cbn. rewrite <- app_assoc. apply Permutation_middle.
  - split; [done|]. intros b Hbt.
    assert (Hnt : ~ touched (a :: nodes F B) b).
    { intros Ht'. apply Hbt. eapply touched_perm; [|exact Ht']. unfold nodes. rewrite fmap_app. cbn. rewrite <- app_assoc.
      symmetry. apply Permutation_middle. }
    apply Hrd; [intros ->; apply Hnt, touched_cons; left; lia|]. intros x Hx ->. apply Hnt, touched_cons. right. exists x. split; [by apply HL|lia].
Qed.

Lemma append_block_spec s F B a n : sweep_ok s F B -> node_ok (sw_mem s) a -> Forall (apart a) (nodes F B) ->
  exists s', append_block a n s = Ok s' /\ inserted s s' F B F (B ++ [(a, n)]).
Proof.
  intros [H1 H2 H3 H4 H5 H6 H7] Ha Hap. pose proof Ha as (Ha0 & A1 & A2).
  assert (Hsep : forall x, x ∈ nodes F B -> apart a x) by (by apply Forall_forall).
  assert (HB : forall x, x ∈ B.*1 -> x ∈ nodes F B) by (intros x Hx; apply elem_of_app; by right).
  unfold append_block, set_size, set_next. rewrite st_acc by done. cbn [mbind res_bind]. rewrite st_acc by done.
  cbn [mbind res_bind]. rewrite H3.
  set (m2 := upd (upd (sw_mem s) a n) (a + 4) 0). set (m3 := match last B.*1 with Some t => upd m2 (t + 4) a | None => m2 end).
  assert (E : (match last B.*1 with None => Ok (a, m2)
      | Some t => m ← st m2 (t + 4) a; Ok (dummy_block s, m) end : res failure (Z * memory)) = Ok (hd0 (B.*1 ++ [a]), m3)).
  { unfold m3. destruct (last B.*1) as [t|] eqn:El.
    - assert (Ht : t ∈ B.*1) by (apply last_Some in El as [l' ->]; apply elem_of_app; right; left).
      apply list_elem_of_fmap in Ht as (b & -> & Hb). destruct (H6 b Hb) as [(_ & _ & Ab) _]. rewrite st_acc by done.
      cbn [mbind res_bind]. do 2 f_equal. rewrite H2. destruct B; [done|done].
    - apply last_None in El. by rewrite El. }
  rewrite E. cbn [mbind res_bind].
  assert (Hr3 : ranges m3 = ranges (sw_mem s)) by (unfold m3; by destruct (last B.*1)).
  assert (HL : forall x, last B.*1 = Some x -> x ∈ nodes F B).
  { intros x [l' El]%last_Some. apply HB. rewrite El. apply elem_of_app. right. left. }
  assert (Hrd : forall b, b <> a -> b <> a + 4 -> (forall x, last B.*1 = Some x -> b <> x + 4) -> rd m3 b = rd (sw_mem s) b).
  { intros b Hb1 Hb2 Hx. unfold m3, m2. destruct (last B.*1) as [x|].
    - specialize (Hx x eq_refl). by rewrite !rd_upd_ne by lia.
    - by rewrite !rd_upd_ne by lia. }
  assert (Hnew : rd m3 a = n /\ rd m3 (a + 4) = 0).
  { unfold m3, m2. destruct (last B.*1) as [x|]; [|rewrite !rd_upd; zcmps; try lia; done].
    destruct (Hsep x (HL x eq_refl)); rewrite !rd_upd; zcmps; lia. }
  assert (Hkeep : forall x, x ∈ nodes F B -> rd m3 x = rd (sw_mem s) x /\
            (last B.*1 <> Some x -> rd m3 (x + 4) = rd (sw_mem s) (x + 4))).
  { intros x Hx. pose proof (Hsep x Hx) as Hax. unfold apart in Hax. split.
    - apply Hrd; [lia|lia|]. intros y Hy ->. pose proof (HL y Hy) as Hy'.
      destruct (separate_apart _ _ _ H7 Hy' Hx ltac:(lia)); lia.
    - intros Hne. apply Hrd; [lia|lia|]. intros y Hy E'. apply Hne. assert (x = y) as -> by lia. done. }
  assert (HFl : forall x, x ∈ F.*1 -> last B.*1 <> Some x).
  { intros x Hx [l' El]%last_Some. apply separate_app in H7 as (_ & _ & H7).
    destruct (H7 x x Hx); [rewrite El; apply elem_of_app; right; left|lia|lia]. }
  assert (HlastB : forall x, last B.*1 = Some x -> rd m3 (x + 4) = a).
  { intros x Hx. unfold m3. rewrite Hx. apply rd_upd_eq. }
  eexists. split; [done|]. split; [split; cbn|].
  - eapply index_ok_ext; [exact Hr3| |exact H1]. intros b (x & Hx & Hb). apply Hrd.
    + intros ->. destruct (Hsep x); [apply elem_of_app; by left|lia|lia].
    + intros ->. destruct (Hsep x); [apply elem_of_app; by left|lia|lia].
    + intros y Hy ->. assert (Hxy : x <> y) by (intros ->; by apply (HFl y)).
      destruct (separate_apart _ _ _ H7 (HL y Hy) (proj2 (elem_of_app _ _ _) (or_introl Hx)) ltac:(done)); lia.
  - by rewrite fmap_app.
  - rewrite fmap_app. cbn. by rewrite last_snoc.
  - rewrite fmap_app. eapply linked_snoc; [exact H4|done| |].
    + intros x Hx Hne. by apply Hkeep; [apply HB|].
    + apply separate_app in H7 as (_ & H7 & _). by apply separate_nodup.
  - intros _. rewrite fmap_app. cbn. rewrite lastd_snoc. apply Hnew.
  - intros b [Hb| ->%list_elem_of_singleton]%elem_of_app.
    + destruct (H6 b Hb) as [N1 N2]. split; [by eapply node_ok_ext|]. by rewrite (proj1 (Hkeep _ (in_nodes_r F B b Hb))).
    + cbn. split; [by eapply node_ok_ext|apply Hnew].
  - apply (separate_perm (a :: nodes F B)); [|done]. unfold nodes. rewrite fmap_app. cbn. rewrite app_assoc. apply Permutation_cons_append.
  - split; [done|]. intros b Hbt.
    assert (Hnt : ~ touched (a :: nodes F B) b).
    { intros Ht'. apply Hbt. eapply touched_perm; [|exact Ht']. unfold nodes. rewrite fmap_app. cbn. rewrite app_assoc.
      symmetry. apply Permutation_cons_append. }
    apply Hrd; [intros ->; apply Hnt, touched_cons; left; lia|intros ->; apply Hnt, touched_cons; left; lia|].
    intros x Hx ->. apply Hnt, touched_cons. right. exists x. split; [by apply HL|lia].
Qed.

(** ** The merge of the index *)

(** [n, n - 1, ..., 1] *)
Fixpoint down (n : nat) : list Z := match n with O => [] | S n' => Z.of_nat n :: down n' end.

(** The chunks by decreasing entry. *)
Definition merged (F : list (Z * Z)) (n : nat) : list Z := flat_map (entry F) (down n).

Definition end_place (G : list Z) : place := match last G with None => Dummy | Some x => Chunk x end.

Lemma elem_of_down n i : i ∈ down n <-> 1 <= i <= Z.of_nat n.
Proof.
  induction n as [|n IH]; [split; [by intros ?%elem_of_nil|lia]|]. cbn [down]. rewrite elem_of_cons, IH. lia.
Qed.

Lemma elem_of_merged F n a : a ∈ merged F n <-> exists s, (a, s) ∈ F /\ 1 <= s / 8 <= Z.of_nat n.
Proof.
  unfold merged. rewrite list_elem_of_In, in_flat_map. split.
  - intros (i & Hi & Ha). apply list_elem_of_In in Hi, Ha. apply elem_of_down in Hi. apply elem_of_entry in Ha as (s & Hs & <-).
    by exists s.
  - intros (s & Hs & Hi). exists (s / 8). rewrite <- !list_elem_of_In. split; [by apply elem_of_down|].
    apply elem_of_entry. by exists s.
Qed.

Lemma hd0_app l1 l2 : hd0 (l1 ++ l2) = if decide (l1 = []) then hd0 l2 else hd0 l1.
Proof. by destruct l1. Qed.

Lemma last_app (l1 l2 : list Z) : last (l1 ++ l2) = match last l2 with Some x => Some x | None => last l1 end.
Proof.
  destruct l2 as [|x l2 _] using rev_ind; [by rewrite app_nil_r|]. by rewrite app_assoc, !last_snoc.
Qed.

(** Two linked lists, joined by the link of the first one's last node. *)
Lemma linked_join m m' G x N : linked m (G ++ [x]) -> linked m N -> N <> [] -> rd m' (x + 4) = hd0 N ->
  (forall y, y ∈ G ++ N -> rd m' (y + 4) = rd m (y + 4)) -> linked m' ((G ++ [x]) ++ N).
Proof.
  intros HG HN Hne Hx He. destruct N as [|b N]; [done|]. rewrite <- app_assoc. cbn [app].
  apply linked_app; [|done|].
  - clear - HG He. induction G as [|y [|z G] IH]; [done| |].
    + cbn in *. split; [|done]. destruct HG as [<- _]. apply He. left.
    + cbn [app] in *. destruct HG as [<- HG]. split; [apply He; left|]. apply IH; [done|]. intros w Hw. apply He. by right.
  - eapply linked_ext; [|exact HN]. intros y Hy. apply He, elem_of_app. by right.
Qed.

Section Merge.
Context (m : memory) (t : list (Z * place)) (F : list (Z * Z)).
Hypothesis (Hok : index_ok m t F) (Hsep : separate F.*1).

(** Only links of the merged chunks [G] have changed. *)
Record merging (m1 : memory) (G : list Z) : Prop := {
  mg_links : linked m1 G;
  mg_ranges : ranges m1 = ranges m;
  mg_rest a : (forall x, x ∈ G -> a <> x + 4) -> rd m1 a = rd m a;
  mg_nodup : NoDup G;
  mg_chunks x : x ∈ G -> x ∈ F.*1 }.

Lemma chunk_apart x y : x ∈ F.*1 -> y ∈ F.*1 -> x <> y -> x <> y + 4 /\ x + 4 <> y + 4 /\ x + 4 <> y.
Proof. intros Hx Hy Hne. destruct (separate_apart _ _ _ Hsep Hx Hy Hne); lia. Qed.

Lemma entry_hd0 i : hd0 (entry F i) = 0 -> entry F i = [].
Proof.
  destruct (entry F i) as [|a N] eqn:E; [done|]. unfold hd0. simpl. intros ->.
  assert (H0 : 0 ∈ entry F i) by (rewrite E; left). apply elem_of_entry in H0 as (s & Hs & _).
  by destruct (ix_chunk _ _ _ Hok _ Hs) as ((? & _) & _).
Qed.

Lemma merge_step i m1 G : 1 <= i < 512 -> merging m1 G -> (forall x, x ∈ entry F i -> x ∉ G) ->
  exists m2, merge_entry i (hd0 G, end_place G, t, m1) = Ok (hd0 (G ++ entry F i), end_place (G ++ entry F i), t, m2) /\
    merging m2 (G ++ entry F i).
Proof.
  intros Hi [G1 G2 G3 G5 G4] Hd. set (N := entry F i) in *. destruct (ix_entry _ _ _ Hok i Hi) as [E HN]. fold N in E, HN.
  assert (HNF : forall x, x ∈ N -> x ∈ F.*1) by (intros x Hx; by apply (entry_incl F i)).
  unfold merge_entry, entry_at. rewrite E. cbn [of_option mbind res_bind fst snd].
  destruct (Z.eqb_spec (hd0 N) 0) as [HN0|HN0]; cbn [negb].
  { unfold N in *. rewrite (entry_hd0 i HN0), app_nil_r. by exists m1. }
  assert (Hne : N <> []) by (intros HNe; by rewrite HNe in HN0).
  assert (Htail : tail_place i N = end_place (G ++ N)).
  { unfold tail_place, end_place. rewrite last_app. destruct (last N) eqn:El; [done|]. by apply last_None in El. }
  assert (HN1 : forall y, y ∈ N -> rd m1 (y + 4) = rd m (y + 4)).
  { intros y Hy. apply G3. intros x Hx ?. assert (x = y) by lia. subst x. by apply (Hd y). }
  destruct G as [|g G _] using rev_ind.
  { exists m1. cbn [app]. split; [by rewrite Htail|]. split; try done.
    - by eapply linked_ext.
    - intros a Ha. apply G3. by intros x ?%elem_of_nil.
    - apply entry_nodup, separate_nodup, Hsep. }
  assert (Hg : g ∈ F.*1) by (apply G4, elem_of_app; right; left).
  assert (Hx : exists s, (g, s) ∈ F) by (apply list_elem_of_fmap in Hg as ([g' s] & -> & ?); by exists s).
  destruct Hx as [sg Hgs]. destruct (ix_chunk _ _ _ Hok _ Hgs) as ((_ & _ & Ag) & _). cbn in Ag.
  assert (Hend : end_place (G ++ [g]) = Chunk g) by (unfold end_place; by rewrite last_snoc). rewrite Hend. cbn [put_next].
  unfold set_next. rewrite st_acc by (unfold acc in *; by rewrite G2). cbn [mbind res_bind].
  exists (upd m1 (g + 4) (hd0 N)). split.
  { rewrite Htail. do 4 f_equal. rewrite (hd0_app (G ++ [g]) N). by rewrite decide_False by (by destruct G). }
  apply NoDup_app in G5 as (G5 & G6 & _).
  assert (Hdiff : forall y, y ∈ G ++ N -> y <> g).
  { intros y [Hy|Hy]%elem_of_app ->; [apply (G6 g Hy); left|apply (Hd g Hy), elem_of_app; right; left]. }
  assert (Hlink : forall y, y ∈ G ++ N -> rd (upd m1 (g + 4) (hd0 N)) (y + 4) = rd m1 (y + 4)).
  { intros y Hy. specialize (Hdiff y Hy). apply rd_upd_ne. lia. }
  split.
  - eapply linked_join; [exact G1| |done|apply rd_upd_eq|done]. by eapply linked_ext.
  - done.
  - intros a Ha. rewrite rd_upd_ne; [apply G3|].
    + intros x Hx. apply Ha, elem_of_app. by left.
    + intros <-. apply (Ha g); [|done]. apply elem_of_app. left. apply elem_of_app. right. left.
  - apply NoDup_app. split_and!; [apply NoDup_app; split_and!; [done|done|apply NoDup_singleton]| |apply entry_nodup, separate_nodup, Hsep].
    intros x Hx HxN. by apply (Hd x).
  - intros x [Hx|Hx]%elem_of_app; [by apply G4|by apply HNF].
Qed.

Lemma merge_entries_spec n : forall m1 G, (n < 512)%nat -> merging m1 G -> (forall x, x ∈ merged F n -> x ∉ G) ->
  exists m2, merge_entries n (hd0 G, end_place G, t, m1) = Ok (hd0 (G ++ merged F n), end_place (G ++ merged F n), t, m2) /\
    merging m2 (G ++ merged F n).
Proof.
  induction n as [|n IH]; intros m1 G Hn HG Hd; [exists m1; by rewrite app_nil_r|].
  unfold merged in *. cbn [down flat_map merge_entries] in *.
  destruct (merge_step (Z.of_nat (S n)) m1 G) as (m2 & -> & H2); [lia|done|intros x Hx; apply Hd, elem_of_app; by left|].
  cbn [mbind res_bind]. rewrite app_assoc. apply IH; [lia|done|]. intros x Hx [HG'|HN]%elem_of_app.
  - apply (Hd x); [apply elem_of_app; by right|done].
  - apply elem_of_merged in Hx as (s & Hs & Hr). apply elem_of_entry in HN as (s' & Hs' & Hr').
    assert (s = s') as ->; [|lia]. pose proof (separate_nodup _ Hsep) as Hnd.
    apply list_elem_of_lookup in Hs as [j Hj]. apply list_elem_of_lookup in Hs' as [j' Hj'].
    assert (j = j') as -> by (eapply NoDup_lookup; [exact Hnd|by rewrite list_lookup_fmap, Hj|by rewrite list_lookup_fmap, Hj']).
    congruence.
Qed.

(** The merged list of the index: every chunk, by decreasing size. *)
Lemma merge_freeindex_spec : exists p m', merge_freeindex t m = Ok (p, m') /\ chain m' p (merged F 511) /\
  agree (fun a => forall x, x ∈ F.*1 -> a <> x + 4) m m'.
Proof.
  unfold merge_freeindex. change (Z.to_nat (SMALL_CHUNKS_LIST_INDEX_SIZE - 1)) with 511%nat.
  destruct (merge_entries_spec 511 m [] ltac:(lia)) as (m2 & E & [M1 M2 M3 M4 M5]).
  { split; try done; [constructor|by intros x ?%elem_of_nil]. }
  { by intros x _ ?%elem_of_nil. }
  cbn [app] in *. change (hd0 []) with 0 in E. change (end_place []) with Dummy in E. rewrite E. cbn [mbind res_bind].
  assert (Hnode : forall x, x ∈ merged F 511 -> node_ok m x).
  { intros x (s & Hs & _)%elem_of_merged. by destruct (ix_chunk _ _ _ Hok _ Hs) as (? & _). }
  unfold end_place. destruct (merged F 511) as [|g G _] eqn:EG using rev_ind.
  { exists 0, m2. split; [done|]. split; [done|]. split; [done|]. intros a _. apply M3. by intros x ?%elem_of_nil. }
  rewrite last_snoc. cbn [put_next]. assert (Hg : g ∈ G ++ [g]) by (apply elem_of_app; right; left).
  pose proof (Hnode g Hg) as (_ & _ & Ag). unfold set_next. rewrite st_acc by (unfold acc in *; by rewrite M2).
  cbn [mbind res_bind]. eexists _, _. split; [done|]. apply NoDup_app in M4 as (_ & M4 & _). split.
  - apply chain_iff. split_and!; [done| | |].
    + apply Forall_forall. intros x Hx. apply (node_ok_ext m); [done|by apply Hnode].
    + assert (Hl : linked m2 (G ++ [g])) by done. clear - Hl M4. induction G as [|y [|z G] IH]; [done| |].
      * cbn in *. split; [|done]. rewrite rd_upd_ne; [by destruct Hl|]. intros ?. assert (y = g) as -> by lia. apply (M4 g); left.
      * cbn [app linked] in *. destruct Hl as [<- Hl]. split.
        -- apply rd_upd_ne. intros ?. assert (y = g) as -> by lia. apply (M4 g); left.
        -- apply IH; [intros x Hx; apply M4; by right|done].
    + intros _. rewrite lastd_snoc. apply rd_upd_eq.
  - split; [done|]. intros a Ha. rewrite rd_upd_ne; [apply M3; intros x Hx; by apply Ha, M5|].
    intros <-. by apply (Ha g (M5 g Hg)).
Qed.

End Merge.
