(* ===== verification/GcGaps.v ===== *)
(** * Gaps between kept items

    The arithmetic that the sweep of the chunks of a block and the sweep of the
    blocks of a region share: adjacent free items become one free stretch. *)

From S2P Require Import Prelude.

(** The free stretches among items with their sizes, [true] for those that are
    kept: the stretches that end before a kept item, and the one at the end,
    which is empty after a kept item.  [z] bytes from [a] on are free before
    the items. *)
Fixpoint gaps (l : list (Z * bool)) (a z : Z) : list (Z * Z) * Z * Z :=
  match l with
  | [] => ([], a, z)
  | (n, true) :: l' => let '(c, b, y) := gaps l' (a + z + n) 0 in ((if 0 <? z then [(a, z)] else []) ++ c, b, y)
  | (n, false) :: l' => gaps l' a (z + n)
  end.

(** All of them. *)
Definition all_gaps (l : list (Z * bool)) (a z : Z) : list (Z * Z) :=
  let '(c, b, y) := gaps l a z in c ++ (if 0 <? y then [(b, y)] else []).

(** The items with the gaps merged, by address. *)
Fixpoint pieces (l : list (Z * bool)) (a z : Z) : list Z :=
  match l with
  | [] => if 0 <? z then [a] else []
  | (n, true) :: l' => (if 0 <? z then [a] else []) ++ a + z :: pieces l' (a + z + n) 0
  | (n, false) :: l' => pieces l' a (z + n)
  end.

(** The addresses of the kept items. *)
Fixpoint keeps_at (l : list (Z * bool)) (a : Z) : list (Z * Z) :=
  match l with
  | [] => []
  | (n, k) :: l' => (if k : bool then [(a, n)] else []) ++ keeps_at l' (a + n)
  end.

Fixpoint total (l : list (Z * bool)) : Z := match l with [] => 0 | (n, _) :: l' => n + total l' end.

Section Gaps.
(** The sizes are multiples of [k]. *)
Context (k : Z).

Definition sized (l : list (Z * bool)) : Prop := Forall (fun x => 0 < x.1 /\ (k | x.1)) l.

Lemma sized_total l : sized l -> 0 <= total l.
Proof. induction 1 as [|[n b] l [H _] _ IH]; simpl in *; lia. Qed.

(** Where gaps are: apart from each other and in order, and none is empty. *)
Lemma gaps_bounds l : forall a z, sized l -> 0 <= z -> (k | z) ->
  let '(c, b, y) := gaps l a z in
  b + y = a + z + total l /\ 0 <= y /\ (k | y) /\ a <= b /\ (k | b - a) /\
  (forall x n, (x, n) ∈ c -> a <= x /\ x + n < b /\ (k | x - a) /\ 0 < n /\ (k | n)) /\
  StronglySorted (fun g g' => g.1 + g.2 < g'.1) c.
Proof.
  induction l as [|[n [|]] l IH]; intros a z Hs Hz Hd; cbn [gaps total].
  - rewrite Z.sub_diag. split_and!; try lia; [done|apply Z.divide_0_r|by intros x n ?%elem_of_nil|constructor].
  - apply Forall_cons in Hs as [[Hn Hn'] Hs]. cbn in Hn, Hn'. specialize (IH (a + z + n) 0 Hs ltac:(lia) (Z.divide_0_r k)).
    destruct (gaps l (a + z + n) 0) as [[c b] y]. destruct IH as (I1 & I2 & I3 & I4 & I5 & I6 & I7).
    assert (Hazn : (k | z + n)) by (by apply Z.divide_add_r).
    assert (Hsh : forall u, (k | u - (a + z + n)) -> (k | u - a)).
    { intros u Hu. replace (u - a) with (u - (a + z + n) + (z + n)) by lia. by apply Z.divide_add_r. }
    split_and!; try lia; [done|by apply Hsh| |].
    + intros x m [Hx|Hx]%elem_of_app.
      * destruct (Z.ltb_spec 0 z); [|by apply elem_of_nil in Hx]. apply list_elem_of_singleton in Hx as [= -> ->].
        rewrite Z.sub_diag. split_and!; try lia; [apply Z.divide_0_r|done].
      * destruct (I6 x m Hx) as (? & ? & ? & ? & ?). split_and!; try lia; [by apply Hsh|done].
    + apply StronglySorted_app_iff. split_and!; [|done|].
      * destruct (0 <? z); repeat constructor.
      * intros [x m] [x' m'] Hx Hx'. destruct (Z.ltb_spec 0 z); [|by apply elem_of_nil in Hx].
        apply list_elem_of_singleton in Hx as [= -> ->]. destruct (I6 _ _ Hx') as (? & _). cbn. lia.
  - apply Forall_cons in Hs as [[Hn Hn'] Hs]. cbn in Hn, Hn'.
    specialize (IH a (z + n) Hs ltac:(lia) ltac:(by apply Z.divide_add_r)).
    destruct (gaps l a (z + n)) as [[c b] y]. destruct IH as (I1 & I2 & I3 & I4 & I5 & I6 & I7).
    split_and!; try lia; done.
Qed.

Lemma gaps_none l a z : Forall (fun x => x.2 = false) l -> gaps l a z = ([], a, z + total l).
Proof.
  intros H. revert a z. induction H as [|[n b] l Hb _ IH]; intros a z; cbn; [by rewrite Z.add_0_r|]. cbn in Hb. subst b.
  rewrite IH. by rewrite Z.add_assoc.
Qed.

Lemma gaps_some l a z : sized l -> 0 <= z -> (k | z) -> Exists (fun x => x.2 = true) l -> let '(_, b, _) := gaps l a z in a < b.
Proof.
  intros Hs Hz Hd He. revert a z Hs Hz Hd. induction He as [[n b] l Hb|[n b] l He IH]; intros a z [[Hn Hn'] Hs]%Forall_cons Hz Hd; cbn in *.
  - subst b. pose proof (gaps_bounds l (a + z + n) 0 Hs ltac:(lia) (Z.divide_0_r k)) as Hg.
    destruct (gaps l (a + z + n) 0) as [[c b] y]. destruct Hg as (_ & _ & _ & ? & _). lia.
  - destruct b.
    + specialize (IH (a + z + n) 0 Hs ltac:(lia) (Z.divide_0_r k)). destruct (gaps l (a + z + n) 0) as [[c b] y]. lia.
    + by apply IH; [|lia|apply Z.divide_add_r].
Qed.


Lemma divide_mod k' x : 0 < k' -> (k' | x) -> x mod k' = 0.
Proof. intros Hk Hd. by apply Z.mod_divide; [lia|]. Qed.

(** The same for all gaps at once. *)
Lemma all_gaps_bounds l a z : sized l -> 0 <= z -> (k | z) ->
  (forall x n, (x, n) ∈ all_gaps l a z -> a <= x /\ x + n <= a + z + total l /\ (k | x - a) /\ 0 < n /\ (k | n)) /\
  StronglySorted (fun g g' => g.1 + g.2 < g'.1) (all_gaps l a z).
Proof.
  intros Hs Hz Hd. pose proof (gaps_bounds l a z Hs Hz Hd) as Hg. unfold all_gaps.
  destruct (gaps l a z) as [[c b] y]. destruct Hg as (G1 & G2 & G3 & G4 & G5 & G6 & G7). split.
  - intros x n [Hx|Hx]%elem_of_app.
    + destruct (G6 x n Hx) as (? & ? & ? & ? & ?). split_and!; try done; lia.
    + destruct (Z.ltb_spec 0 y); [|by apply elem_of_nil in Hx]. apply list_elem_of_singleton in Hx as [= -> ->].
      split_and!; try done; lia.
  - apply StronglySorted_app_iff. split_and!; [done|destruct (0 <? y); repeat constructor|].
    intros [x n] g Hx Hg. destruct (0 <? y); [|by apply elem_of_nil in Hg]. apply list_elem_of_singleton in Hg as ->.
    destruct (G6 x n Hx) as (? & ? & _). cbn. lia.
Qed.

Lemma all_gaps_cons n b l a z : all_gaps ((n, b) :: l) a z =
  if b : bool then (if 0 <? z then [(a, z)] else []) ++ all_gaps l (a + z + n) 0 else all_gaps l a (z + n).
Proof.
  unfold all_gaps. destruct b; cbn [gaps]; [|done]. destruct (gaps l (a + z + n) 0) as [[c b] y]. by rewrite app_assoc.
Qed.

(** The items that are not kept, by address. *)
Fixpoint drops_at (l : list (Z * bool)) (a : Z) : list (Z * Z) :=
  match l with
  | [] => []
  | (n, b) :: l' => (if b : bool then [] else [(a, n)]) ++ drops_at l' (a + n)
  end.

(** What is free before the items is in a gap. *)
Lemma front_covered l : forall a z, sized l -> 0 < z -> exists g, g ∈ all_gaps l a z /\ g.1 <= a /\ a + z <= g.1 + g.2.
Proof.
  induction l as [|[n b] l IH]; intros a z Hs Hz.
  - exists (a, z). unfold all_gaps. cbn. destruct (Z.ltb_spec 0 z); [|lia]. split; [left|lia].
  - apply Forall_cons in Hs as [[Hn _] Hs]. cbn in Hn. rewrite all_gaps_cons. destruct b.
    + exists (a, z). destruct (Z.ltb_spec 0 z); [|lia]. split; [left|cbn; lia].
    + destruct (IH a (z + n) Hs ltac:(lia)) as (g & Hg & ? & ?). exists g. split; [done|lia].
Qed.

Lemma drops_covered l : forall a z y n, sized l -> 0 <= z -> (y, n) ∈ drops_at l (a + z) ->
  exists g, g ∈ all_gaps l a z /\ g.1 <= y /\ y + n <= g.1 + g.2.
Proof.
  induction l as [|[n' b] l IH]; intros a z y n Hs Hz Hy; [by apply elem_of_nil in Hy|].
  apply Forall_cons in Hs as [[Hn _] Hs]. cbn in Hn. rewrite all_gaps_cons. cbn [drops_at] in Hy. destruct b; cbn [app] in Hy.
  - destruct (IH (a + z + n') 0 y n Hs ltac:(lia)) as (g & Hg & ? & ?); [by rewrite Z.add_0_r|].
    exists g. split; [apply elem_of_app; by right|done].
  - apply elem_of_cons in Hy as [[= -> ->]|Hy].
    + destruct (front_covered l a (z + n') Hs ltac:(lia)) as (g & Hg & ? & ?). exists g. split; [done|lia].
    + apply IH; [done|lia|by rewrite Z.add_assoc].
Qed.

Lemma keeps_after l : forall a y n, sized l -> (y, n) ∈ keeps_at l a -> a <= y /\ y + n <= a + total l /\ 0 < n.
Proof.
  induction l as [|[n' b] l IH]; intros a y n Hs Hy; [by apply elem_of_nil in Hy|].
  apply Forall_cons in Hs as [[Hn _] Hs]. cbn in Hn. cbn [keeps_at total] in *. pose proof (sized_total l Hs). apply elem_of_app in Hy as [Hy|Hy].
  - destruct b; [|by apply elem_of_nil in Hy]. apply list_elem_of_singleton in Hy as [= -> ->]. lia.
  - destruct (IH _ _ _ Hs Hy) as (? & ? & ?). lia.
Qed.

Lemma keeps_apart l : forall a z y n g, sized l -> 0 <= z -> (k | z) -> (y, n) ∈ keeps_at l (a + z) -> g ∈ all_gaps l a z ->
  y + n <= g.1 \/ g.1 + g.2 <= y.
Proof.
  induction l as [|[n' b] l IH]; intros a z y n g Hs Hz Hd Hy Hg; [by apply elem_of_nil in Hy|].
  pose proof Hs as [[Hn Hn'] Hs']%Forall_cons. cbn in Hn, Hn'. rewrite all_gaps_cons in Hg. cbn [keeps_at] in Hy. destruct b; cbn [app] in Hy.
  - apply elem_of_app in Hg as [Hg|Hg].
    + destruct (Z.ltb_spec 0 z); [|by apply elem_of_nil in Hg]. apply list_elem_of_singleton in Hg as ->. cbn. right.
      apply elem_of_cons in Hy as [[= -> ->]|Hy]; [lia|]. destruct (keeps_after _ _ _ _ Hs' Hy) as (? & _). lia.
    + apply elem_of_cons in Hy as [[= -> ->]|Hy].
      * left. destruct g as [x m]. destruct (proj1 (all_gaps_bounds l (a + z + n') 0 Hs' ltac:(lia) (Z.divide_0_r k)) x m Hg) as (? & _). cbn. lia.
      * apply (IH (a + z + n') 0 y n g Hs'); [lia|apply Z.divide_0_r|by rewrite Z.add_0_r|done].
  - apply (IH a (z + n') y n g Hs'); [lia|by apply Z.divide_add_r|by rewrite Z.add_assoc|done].
Qed.

Lemma elem_of_pieces l : forall a z x, x ∈ pieces l a z <->
  (exists n, (x, n) ∈ all_gaps l a z) \/ (exists n, (x, n) ∈ keeps_at l (a + z)).
Proof.
  induction l as [|[n b] l IH]; intros a z x.
  - cbn [pieces keeps_at]. unfold all_gaps. cbn. split.
    + destruct (0 <? z); [|by intros ?%elem_of_nil]. intros ->%list_elem_of_singleton. left. exists z. left.
    + intros [[n Hn]|[n Hn]]; [|by apply elem_of_nil in Hn]. destruct (0 <? z); [|by apply elem_of_nil in Hn].
      apply list_elem_of_singleton in Hn as [= -> ->]. left.
  - rewrite all_gaps_cons. cbn [pieces keeps_at]. destruct b; cbn [app].
    + rewrite elem_of_app, elem_of_cons, IH, Z.add_0_r. setoid_rewrite elem_of_app. setoid_rewrite elem_of_cons.
      assert (E : x ∈ (if 0 <? z then [a] else []) <-> exists m, (x, m) ∈ (if 0 <? z then [(a, z)] else [])).
      { destruct (0 <? z).
        - split; [intros ->%list_elem_of_singleton; exists z; left|intros (m & [= -> ->]%list_elem_of_singleton); left].
        - split; [by intros ?%elem_of_nil|by intros (m & ?%elem_of_nil)]. }
      rewrite E. naive_solver.
    + by rewrite IH, Z.add_assoc.
Qed.

End Gaps.
