(* ===== verification/GcSweep.v ===== *)
(** * The normal sweep of the small object area (src/runtime/gc.c, 1836-1970)

    Block by block, the sweep keeps the marked objects, makes one free chunk of
    the memory between them, and one group of the blocks without any. *)

From S2P Require Import Prelude GcHeap GcTiling GcMark GcReach GcObjects GcSmall GcChain GcGaps.

Definition clear_mark (w : Z) : Z := Z.land w (Z.lnot MARK_BIT).

Lemma clear_mark_spec w : mask_size (clear_mark w) = mask_size w /\ Z.testbit (clear_mark w) 0 = false /\
  is_free_word (clear_mark w) = is_free_word w.
Proof.
  unfold clear_mark, is_free_word. split_and!.
  - apply mask_size_eq. intros i Hi. rewrite Z.land_spec, Z.lnot_spec, (testbit_const_high MARK_BIT i) by (unfold MARK_BIT; lia).
    apply andb_true_r.
  - rewrite Z.land_spec. apply andb_false_r.
  - rewrite Z.land_spec, Z.lnot_spec by lia. apply andb_true_r.
Qed.

Section Sweep.
Context (m0 : memory).

Definition mk (h : Z) : Prop := Z.testbit (rd m0 h) 0 = true.

#[export] Instance mk_dec h : Decision (mk h).
Proof. unfold mk. apply _. Defined.

(** [N] are the nodes the sweep has written, [K] the headers it has cleared. *)
Definition swept (N K : list Z) (m : memory) : Prop :=
  ranges m = ranges m0 /\ forall a, ~ touched N a -> rd m a = if decide (a ∈ K) then clear_mark (rd m0 a) else rd m0 a.

Lemma swept_inserted s s' F B F' B' K : swept (nodes F B) K (sw_mem s) -> inserted s s' F B F' B' ->
  (forall a, touched (nodes F B) a -> touched (nodes F' B') a) -> swept (nodes F' B') K (sw_mem s').
Proof.
  intros [H1 H2] [_ [H3 H4]] Hsub. split; [congruence|]. intros a Ha. rewrite H4 by done. apply H2. naive_solver.
Qed.

(** The words from [p] on are as they were. *)
Lemma swept_above N K m p a : swept N K m -> (forall x, x ∈ N -> x + 8 <= p) -> (forall k, k ∈ K -> k + 8 <= p) ->
  p <= a -> rd m a = rd m0 a.
Proof.
  intros [_ H] HN HK Ha. rewrite H.
  - rewrite decide_False; [done|]. intros Hk. specialize (HK _ Hk). lia.
  - intros (x & Hx & Hr). specialize (HN _ Hx). lia.
Qed.

(** ** One block *)

(** A chunk with its size, and whether it is a marked object. *)
Definition item (h : Z) : Z * bool := (mask_size (rd m0 h), Z.testbit (rd m0 h) 0).

Definition kept (l : list Z) : list Z := filter mk l.

Lemma kept_some l : kept l <> [] -> Exists (fun x => x.2 = true) (item <$> l).
Proof.
  intros H. destruct (kept l) as [|h l'] eqn:E; [done|]. apply Exists_fmap, Exists_exists. exists h.
  assert (Hin : h ∈ kept l) by (rewrite E; left). by apply list_elem_of_filter in Hin as [? ?].
Qed.

Lemma kept_none l : kept l = [] -> Forall (fun x => x.2 = false) (item <$> l).
Proof.
  intros H. apply Forall_fmap, Forall_forall. intros h Hh. cbn. destruct (Z.testbit (rd m0 h) 0) eqn:E; [|done].
  assert (Hin : h ∈ kept l) by (apply list_elem_of_filter; done). rewrite H in Hin. by apply elem_of_nil in Hin.
Qed.

(** What a marked chunk must be. *)
Definition object_ok (h : Z) : Prop :=
  mk h -> mask_size (rd m0 h) < GC_MAX_SMALL_OBJECT_SIZE /\ is_free_word (rd m0 h) = false.

(** The memory of a block can be accessed. *)
Definition accessible (lo hi : Z) : Prop := forall a, lo <= a < hi -> a mod 4 = 0 -> acc m0 a.

(** The nodes and headers written so far are below [p]. *)
Definition before (N K : list Z) (p : Z) : Prop := (forall x, x ∈ N -> x + 8 <= p) /\ (forall k, k ∈ K -> k + 8 <= p).

Record sweeping (s : sweep) (F B : list (Z * Z)) (K : list Z) (p : Z) : Prop := {
  sg_ok : sweep_ok s F B;
  sg_mem : swept (nodes F B) K (sw_mem s);
  sg_kept k : k ∈ K -> ~ touched (nodes F B) k;
  sg_before : before (nodes F B) K p }.

Lemma sweeping_mono s F B K p q : sweeping s F B K p -> p <= q -> sweeping s F B K q.
Proof. intros [H1 H2 Hk [H3 H4]] Hq. split; try done. split; intros x Hx; [specialize (H3 x Hx)|specialize (H4 x Hx)]; lia. Qed.

Lemma sweeping_freed n s F B K p : sweeping s F B K p -> sweeping (add_freed n s) F B K p.
Proof. intros [? ? ? ?]. split; [by apply add_freed_ok|done..]. Qed.

Lemma sweeping_marked n s F B K p : sweeping s F B K p -> sweeping (add_marked n s) F B K p.
Proof. intros [? ? ? ?]. split; [by apply add_marked_ok|done..]. Qed.

Lemma nodes_snoc_l F B c a : touched (nodes F B) a -> touched (nodes (F ++ [c]) B) a.
Proof.
  unfold nodes. rewrite fmap_app, !touched_app. naive_solver.
Qed.

Lemma elem_of_nodes_snoc F B c x : x ∈ nodes (F ++ [c]) B -> x ∈ nodes F B \/ x = c.1.
Proof. unfold nodes. rewrite fmap_app, !elem_of_app. cbn. rewrite list_elem_of_singleton. tauto. Qed.

(** Slack becomes a free chunk. *)
Lemma insert_slack s F B K slack sz : sweeping s F B K slack -> 0 < slack -> slack mod 4 = 0 -> chunk_fits sz ->
  accessible slack (slack + sz) ->
  exists s', insert_freechunk slack sz s = Ok s' /\ sweeping s' (F ++ [(slack, sz)]) B K (slack + sz).
Proof.
  intros [H1 H2 Hkt [H3 H4]] H0 Hal Hsz Hacc. pose proof Hsz as [Hz1 Hz2].
  assert (Hacc' : forall a, slack <= a < slack + sz -> a mod 4 = 0 -> acc (sw_mem s) a).
  { intros a Ha Ham. unfold acc. rewrite (proj1 H2). by apply Hacc. }
  destruct (insert_freechunk_spec s F B slack sz H1) as (s' & E & Hi); [|done| |].
  - split; [lia|]. split; apply Hacc'; [lia|done|lia|dmlia].
  - apply Forall_forall. intros x Hx. specialize (H3 x Hx). unfold apart. lia.
  - exists s'. split; [done|]. split; [apply Hi|eapply swept_inserted; [exact H2|exact Hi|by apply nodes_snoc_l]| |].
    { intros k Hk (x & [Hx| ->]%elem_of_nodes_snoc & Hr); [apply (Hkt k Hk); by exists x|]. specialize (H4 k Hk). cbn in Hr. lia. }
    split; [intros x [Hx| ->]%elem_of_nodes_snoc|intros k Hk]; [specialize (H3 x Hx)|cbn|specialize (H4 k Hk)]; lia.
Qed.

(** The mark of the object at [h] is cleared. *)
Lemma clear_header s F B K h n : sweeping s F B K h -> 8 <= n -> acc m0 h ->
  ld (sw_mem s) h = Ok (rd m0 h) /\
  exists m, st (sw_mem s) h (clear_mark (rd m0 h)) = Ok m /\ sweeping (set_sweep m (index s) s) F B (K ++ [h]) (h + n).
Proof.
  intros [H1 H2 Hkt [H3 H4]] Hn Ha.
  assert (Ha' : acc (sw_mem s) h) by (unfold acc; by rewrite (proj1 H2)).
  assert (Hrd : rd (sw_mem s) h = rd m0 h) by (eapply swept_above; [exact H2|done|done|lia]).
  assert (Hnt : ~ touched (nodes F B) h) by (intros (x & Hx & Hr); specialize (H3 x Hx); lia).
  rewrite ld_acc by done. split; [by rewrite Hrd|]. rewrite st_acc by done. eexists. split; [done|]. split.
  - apply sweep_ok_ext; [|done]. by apply agree_upd.
  - cbn. destruct H2 as [R2 H2]. split; [done|]. intros a Hta. rewrite rd_upd. destruct (Z.eqb_spec h a) as [<-|Hne].
    + rewrite decide_True; [done|]. apply elem_of_app. right. left.
    + rewrite H2 by done. destruct (decide (a ∈ K)) as [Hk|Hk].
      * rewrite decide_True; [done|]. apply elem_of_app. by left.
      * rewrite decide_False; [done|]. intros [?|E%list_elem_of_singleton]%elem_of_app; congruence.
  - intros k [Hk| ->%list_elem_of_singleton]%elem_of_app; [by apply Hkt|done].
  - split; [intros x Hx; specialize (H3 x Hx); lia|].
    intros k [Hk| ->%list_elem_of_singleton]%elem_of_app; [specialize (H4 k Hk)|]; lia.
Qed.

Lemma mark_test h : negb (Z.land (rd m0 h) MARK_BIT =? 0) = Z.testbit (rd m0 h) 0.
Proof. by rewrite mark_bit_test, negb_involutive. Qed.

(** A marked object, with the slack before it. *)
Lemma keep_object_spec s F B K slack sz h : sweeping s F B K slack -> 0 < slack -> slack mod 4 = 0 ->
  slack + sz = h -> (sz = 0 \/ chunk_fits sz) -> accessible slack (h + 4) -> 8 <= mask_size (rd m0 h) ->
  object_ok h -> mk h ->
  exists s', keep_object h (mask_size (rd m0 h)) (rd m0 h) slack sz s = Ok s' /\
    sweeping s' (F ++ (if 0 <? sz then [(slack, sz)] else [])) B (K ++ [h]) (h + mask_size (rd m0 h)).
Proof.
  intros Hs H0 Hal Hh Hsz Hacc Hn Hob Hm. destruct (Hob Hm) as [Hmax Hfree].
  unfold keep_object, massert, assert_or. destruct (Z.ltb_spec (mask_size (rd m0 h)) GC_MAX_SMALL_OBJECT_SIZE); [|lia].
  cbn [mbind res_bind]. rewrite free_bit_test, Hfree. cbn [negb mbind res_bind].
  assert (Hmod : h mod 4 = 0) by (destruct Hsz as [->|[_ ?]]; dmlia).
  assert (Hslack : exists s1, (if 0 <? sz then s ← insert_freechunk slack sz s; Ok (add_freed sz s) else Ok s) = Ok s1 /\
            sweeping s1 (F ++ (if 0 <? sz then [(slack, sz)] else [])) B K h).
  { destruct (Z.ltb_spec 0 sz).
    - destruct Hsz as [->|Hsz]; [lia|]. destruct (insert_slack s F B K slack sz Hs H0 Hal Hsz) as (s1 & -> & Hs1).
      { intros a Ha Ham. apply Hacc; [lia|done]. }
      cbn [mbind res_bind]. eexists. split; [done|]. apply sweeping_freed. by rewrite <- Hh.
    - exists s. split; [done|]. rewrite app_nil_r. eapply sweeping_mono; [exact Hs|]. destruct Hsz as [->|[? _]]; lia. }
  destruct Hslack as (s1 & -> & Hs1). cbn [mbind res_bind].
  apply (sweeping_marked (mask_size (rd m0 h))) in Hs1.
  destruct (clear_header _ _ _ _ h (mask_size (rd m0 h)) Hs1 Hn) as (-> & m & E & Hs2).
  { apply Hacc; [|done]. destruct Hsz as [->|[? _]]; lia. }
  cbn [mbind res_bind]. fold (clear_mark (rd m0 h)). rewrite E. cbn [mbind res_bind]. by eexists.
Qed.

Lemma tiled_sized bound h l : tiled m0 bound h l -> sized 8 (item <$> l) /\ h + total (item <$> l) = bound.
Proof.
  induction 1 as [|h l A N L T [IH1 IH2]]; [split; [constructor|cbn; lia]|]. rewrite fmap_cons. split.
  - constructor; [|done]. cbn. rewrite mask_size_spec in *. split; [lia|]. by exists (rd m0 h / 8); lia.
  - cbn. lia.
Qed.

Lemma sweep_chunks_spec B bound l : forall h k slack sz s F K, tiled m0 bound h l -> (length l <= k)%nat ->
  sweeping s F B K slack -> 0 < slack -> slack mod 4 = 0 -> slack + sz = h -> 0 <= sz -> sz mod 8 = 0 -> bound - slack < 4096 ->
  accessible slack bound -> Forall object_ok l ->
  let '(c, a, z) := gaps (item <$> l) slack sz in
  exists s', sweep_chunks k h bound slack sz s = Ok (bound, a, z, s') /\ sweeping s' (F ++ c) B (K ++ kept l) a.
Proof.
  induction l as [|h l IH]; intros h' k slack sz s F K Ht Hk Hs H0 Hal Hh Hz Hm Hb Hacc Hob; inversion Ht as [|? ? A N L T]; subst; clear Ht.
  - cbn. rewrite !app_nil_r. exists s. split; [|done]. destruct k; cbn; by rewrite Z.ltb_irrefl.
  - destruct k as [|k]; [simpl in Hk; lia|]. apply Forall_cons in Hob as [Hob Hobs]. rewrite fmap_cons. unfold item at 1. cbn [sweep_chunks gaps].
    set (h := slack + sz) in *. set (n := mask_size (rd m0 h)) in *.
    assert (Hn : n mod 8 = 0) by (unfold n; rewrite mask_size_spec; dmlia).
    pose proof (tiled_le _ _ _ _ T) as Hle. pose proof (sg_mem _ _ _ _ _ Hs) as Hmem.
    assert (Hrd : rd (sw_mem s) h = rd m0 h).
    { destruct (sg_before _ _ _ _ _ Hs) as [Hb1 Hb2]. eapply swept_above; [exact Hmem|exact Hb1|exact Hb2|lia]. }
    assert (Ha : acc (sw_mem s) h) by (unfold acc; by rewrite (proj1 Hmem)).
    destruct (Z.ltb_spec h bound); [|lia]. assert (chunk_size (sw_mem s) h = Ok n) as -> by (rewrite chunk_size_ok; [by rewrite Hrd|done|by rewrite Hrd]).
    cbn [mbind res_bind]. rewrite ld_acc, Hrd by done. cbn [mbind res_bind]. fold n. rewrite mark_test. unfold kept in *. rewrite filter_cons.
    fold (mk h) in *. destruct (Z.testbit (rd m0 h) 0) eqn:Emk.
    + assert (Hmk : mk h) by done. rewrite decide_True by done.
      destruct (keep_object_spec s F B K slack sz h) as (s1 & E1 & H1); try done.
      { destruct (Z.eq_dec sz 0) as [->|]; [by left|right]. split; [|done]. unfold h in *. dmlia. }
      { intros a Ha1 Ha2. apply Hacc; [|done]. dmlia. }
      { fold n. dmlia. }
      fold n in E1, H1. rewrite E1. cbn [mbind res_bind].
      specialize (IH (h + n) k (h + n) 0 s1 _ _ T ltac:(simpl in Hk; lia) H1).
      destruct (gaps (item <$> l) (h + n) 0) as [[c a] z]. destruct IH as (s' & -> & Hs'); try lia; try done.
      { unfold h in *. dmlia. }
      { intros b Hb1 Hb2. apply Hacc; [unfold h in *; lia|done]. }
      exists s'. split; [done|]. by rewrite <- !app_assoc in Hs'.
    + rewrite decide_False by (unfold mk; congruence).
      specialize (IH (h + n) k slack (sz + n) s F K T ltac:(simpl in Hk; lia) Hs H0 Hal).
      destruct (gaps (item <$> l) slack (sz + n)) as [[c a] z]. apply IH; try done; [unfold h; lia|lia|dmlia].
Qed.

(** ** The blocks of a region *)

Context (ts : gmap Z (list Z)).

Definition block_list (b : Z) : list Z := chunk_list BLOCK_FUEL m0 (b + 4) (b + 4092).

#[local] Opaque block_list BLOCK_FUEL.

Definition in_use (r : region) (pos : Z) : bool := match block_bit ts r pos with Ok b => b | Err _ => false end.

(** The marked objects of a block, and whether there are any. *)
Definition block_kept (r : region) (pos : Z) : list Z := if in_use r pos then kept (block_list (block_start r pos)) else [].
Definition live_block (r : region) (pos : Z) : bool := negb (bool_decide (block_kept r pos = [])).

(** The free chunks of a block that is not free as a whole. *)
Definition block_gaps (r : region) (pos : Z) : list (Z * Z) :=
  if live_block r pos then all_gaps (item <$> block_list (block_start r pos)) (block_start r pos + 4) 0 else [].

Definition block_item (r : region) (pos : Z) : Z * bool := (4096, live_block r pos).

(** A region before the sweep. *)
Record region_ok (r : region) : Prop := {
  ro_start : 0 < rstart r /\ rstart r mod 4096 = 0 /\ rend r = rstart r + GC_REGIONSIZE;
  ro_acc : accessible (rstart r) (rend r);
  ro_table pos : 0 <= pos < 512 -> exists b, block_bit ts r pos = Ok b;
  ro_block pos : 0 <= pos < 512 -> in_use r pos = true ->
    let b := block_start r pos in
    tiled m0 (b + 4092) (b + 4) (block_list b) /\ (length (block_list b) <= BLOCK_FUEL)%nat /\ Forall object_ok (block_list b) }.

Lemma live_kept r pos : live_block r pos = true -> in_use r pos = true /\ Exists (fun x => x.2 = true) (item <$> block_list (block_start r pos)).
Proof.
  unfold live_block, block_kept. generalize (block_list (block_start r pos)). intros l. destruct (in_use r pos); [|done].
  intros H%negb_true_iff%bool_decide_eq_false. split; [done|]. by apply kept_some.
Qed.

Lemma dead_kept r pos : live_block r pos = false -> in_use r pos = true -> block_kept r pos = [] /\
  Forall (fun x => x.2 = false) (item <$> block_list (block_start r pos)).
Proof.
  unfold live_block, block_kept. generalize (block_list (block_start r pos)). intros l H%negb_false_iff%bool_decide_eq_true Hu.
  rewrite Hu in *. split; [done|]. by apply kept_none.
Qed.

(** A stretch of free blocks becomes a group. *)
Lemma flush_spec s F B K sb sbs p : sweeping s F B K p -> 0 < sb -> sb mod 4 = 0 -> 0 <= sbs -> sbs mod 4096 = 0 ->
  accessible sb (sb + sbs) -> sb + sbs <= p ->
  (forall x, x ∈ nodes F B ++ K -> x + 8 <= sb \/ sb + sbs <= x) ->
  exists s', flush_blocks sb sbs s = Ok s' /\ sweeping s' F (B ++ (if 0 <? sbs then [(sb, sbs)] else [])) K p.
Proof.
  intros Hs H0 H4 Hz Hm Hacc Hp Hap. unfold flush_blocks. destruct (Z.ltb_spec 0 sbs) as [Hpos|].
  2:{ exists s. by rewrite app_nil_r. }
  assert (H8 : 8 <= sbs) by dmlia. destruct Hs as [S1 S2 S3 [S4 S5]].
  destruct (append_block_spec s F B sb sbs S1) as (s' & -> & Hi).
  - assert (Ha : forall a, sb <= a < sb + sbs -> a mod 4 = 0 -> acc (sw_mem s) a).
    { intros a Ha Ham. unfold acc. rewrite (proj1 S2). by apply Hacc. }
    split; [lia|]. split; apply Ha; [lia|done|lia|dmlia].
  - apply Forall_forall. intros x Hx. unfold apart. destruct (Hap x); [apply elem_of_app; by left|lia|lia].
  - cbn [mbind res_bind]. eexists. split; [done|].
    assert (En : forall x, x ∈ nodes F (B ++ [(sb, sbs)]) <-> x ∈ nodes F B \/ x = sb).
    { intros x. unfold nodes. rewrite fmap_app, !elem_of_app. cbn. rewrite list_elem_of_singleton. tauto. }
    apply sweeping_freed. split; [apply Hi|eapply swept_inserted; [exact S2|exact Hi|]| |].
    + intros a (x & Hx & Hr). exists x. split; [|done]. apply En. by left.
    + intros k Hk (x & [Hx| ->]%En & Hr); [apply (S3 k Hk); by exists x|].
      destruct (Hap k); [apply elem_of_app; by right|lia|lia].
    + split; [|done]. intros x [Hx| ->]%En; [by apply S4|lia].
Qed.

(** The chunks of a used block and the slack at its end. *)
Lemma sweep_used_block r pos s F B K sb : region_ok r -> 0 <= pos < 512 -> in_use r pos = true ->
  let b := block_start r pos in let l := item <$> block_list b in
  sweeping s F B K sb -> rstart r <= sb <= b ->
  exists c a z s1, gaps l (b + 4) 0 = (c, a, z) /\
    sweep_chunks BLOCK_FUEL (b + 4) (b + 4092) (b + 4) 0 s = Ok (b + 4092, a, z, s1) /\
    sweeping s1 (F ++ c) B (K ++ block_kept r pos) a /\
    a + z = b + 4092 /\ 0 <= z /\ (8 | z) /\ b + 4 <= a /\ (8 | a - (b + 4)) /\
    (forall x n, (x, n) ∈ c -> b + 4 <= x /\ x + n < a) /\
    (live_block r pos = true -> b + 4 < a) /\ (live_block r pos = false -> c = [] /\ a = b + 4 /\ block_kept r pos = []).
Proof.
  intros Hr Hp Hu b l Hs Hsb. destruct (ro_start _ Hr) as (R1 & R2 & R3). destruct (ro_block _ Hr pos Hp Hu) as (Ht & Hlen & Hob).
  fold b in Ht, Hlen, Hob. destruct (tiled_sized _ _ _ Ht) as [Hsz Htot]. fold l in Hsz, Htot.
  assert (Hb : rstart r <= b /\ b + 4096 <= rend r /\ b mod 4096 = 0).
  { unfold b, block_start, GC_BLOCKSIZE. rewrite R3. unfold GC_REGIONSIZE. split_and!; [lia|lia|dmlia]. }
  pose proof (gaps_bounds 8 l (b + 4) 0 Hsz ltac:(lia) (Z.divide_0_r 8)) as Hg.
  pose proof (sweep_chunks_spec B (b + 4092) (block_list b) (b + 4) BLOCK_FUEL (b + 4) 0 s F K Ht Hlen) as Hc.
  fold l in Hc. assert (Hk : block_kept r pos = kept (block_list b)) by (unfold block_kept; by rewrite Hu). rewrite Hk.
  assert (Hlive : live_block r pos = true -> let '(_, a, _) := gaps l (b + 4) 0 in b + 4 < a).
  { intros Hl. apply (gaps_some 8); [done|lia|apply Z.divide_0_r|by apply live_kept]. }
  assert (Hdead : live_block r pos = false -> gaps l (b + 4) 0 = ([], b + 4, 0 + total l) /\ kept (block_list b) = []).
  { intros Hl. destruct (dead_kept r pos Hl Hu) as [H1 H2]. split; [by apply gaps_none|]. by rewrite <- Hk. }
  destruct (gaps l (b + 4) 0) as [[c a] z]. destruct Hg as (G1 & G2 & G3 & G4 & G5 & G6 & _).
  destruct Hc as (s1 & E & Hs1); try done; try lia.
  { eapply sweeping_mono; [exact Hs|lia]. }
  { dmlia. }
  { intros x Hx1 Hx2. apply (ro_acc _ Hr); [lia|done]. }
  exists c, a, z, s1. split; [done|]. split; [exact E|]. split; [exact Hs1|]. split_and!; try done; [lia| |].
  - intros x n Hx. destruct (G6 x n Hx) as (? & ? & _). lia.
  - intros Hl. destruct (Hdead Hl) as [[= -> -> _] ->]. done.
Qed.

Lemma block_gaps_bounds r pos x n : region_ok r -> 0 <= pos < 512 -> (x, n) ∈ block_gaps r pos ->
  block_start r pos + 4 <= x /\ x + n <= block_start r pos + 4092 /\ chunk_fits n /\ x mod 8 = 4.
Proof.
  intros Hr Hp. unfold block_gaps. destruct (live_block r pos) eqn:Hl; [|by intros ?%elem_of_nil].
  destruct (live_kept r pos Hl) as [Hu _]. destruct (ro_block _ Hr pos Hp Hu) as (Ht & _).
  destruct (ro_start _ Hr) as (R1 & R2 & R3). destruct (tiled_sized _ _ _ Ht) as [Hsz Htot]. unfold all_gaps.
  assert (Hb8 : block_start r pos mod 8 = 0) by (unfold block_start, GC_BLOCKSIZE; dmlia).
  set (b := block_start r pos) in *. set (l := item <$> block_list b) in *.
  pose proof (gaps_bounds 8 l (b + 4) 0 Hsz ltac:(lia) (Z.divide_0_r 8)) as Hg.
  pose proof (gaps_some 8 l (b + 4) 0 Hsz ltac:(lia) (Z.divide_0_r 8) (proj2 (live_kept r pos Hl))) as Hlv.
  destruct (gaps l (b + 4) 0) as [[c a] z]. destruct Hg as (G1 & G2 & G3 & G4 & G5 & G6 & _).
  apply divide_mod in G3, G5; [|lia..]. unfold chunk_fits. intros [Hx|Hx]%elem_of_app.
  - destruct (G6 x n Hx) as (X1 & X2 & X3 & X4 & X5). apply divide_mod in X3, X5; [|lia..]. split_and!; try lia; [dmlia|dmlia].
  - destruct (Z.ltb_spec 0 z); [|by apply elem_of_nil in Hx]. apply list_elem_of_singleton in Hx as [= -> ->].
    split_and!; try lia; dmlia.
Qed.

(** The end of a block's chunks and what follows it in the code. *)
Lemma insert_tail s F B K a z : sweeping s F B K a -> 0 < a -> a mod 4 = 0 -> 0 <= z -> (z = 0 \/ chunk_fits z) -> accessible a (a + z) ->
  exists s', (if 0 <? z then s ← insert_freechunk a z s; Ok (add_freed z s) else Ok s) = Ok s' /\
    sweeping s' (F ++ (if 0 <? z then [(a, z)] else [])) B K (a + z).
Proof.
  intros Hs H0 Hal Hz Hfit Hacc. destruct (Z.ltb_spec 0 z).
  - destruct Hfit as [->|Hfit]; [lia|]. destruct (insert_slack s F B K a z Hs H0 Hal Hfit Hacc) as (s1 & -> & Hs1).
    cbn [mbind res_bind]. eexists. split; [done|]. by apply sweeping_freed.
  - exists s. rewrite app_nil_r. split; [done|]. eapply sweeping_mono; [exact Hs|lia].
Qed.

Definition next_start (r : region) (pos sb : Z) : Z := if live_block r pos then block_start r pos + 4096 else sb.

Lemma sweep_block_spec r pos s F B K sb sbs : region_ok r -> 0 <= pos < 512 -> let b := block_start r pos in
  sweeping s F B K sb -> sb + sbs = b -> 0 <= sbs -> sbs mod 4096 = 0 -> rstart r <= sb ->
  exists s', sweep_block ts r pos (sb, sbs, s) =
      Ok (next_start r pos sb, if live_block r pos then 0 else sbs + 4096, s') /\
    sweeping s' (F ++ block_gaps r pos) (B ++ (if live_block r pos && (0 <? sbs) then [(sb, sbs)] else []))
      (K ++ block_kept r pos) (next_start r pos sb).
Proof.
  intros Hr Hp b Hs Hsb Hz Hm Hstart. destruct (ro_start _ Hr) as (R1 & R2 & R3). destruct (ro_table _ Hr pos Hp) as (u & Eu).
  assert (Hu : in_use r pos = u) by (unfold in_use; by rewrite Eu).
  assert (Hb : b + 4096 <= rend r /\ b mod 4096 = 0).
  { unfold b, block_start, GC_BLOCKSIZE. rewrite R3. unfold GC_REGIONSIZE. split; [lia|dmlia]. }
  unfold sweep_block, next_start. rewrite Eu. cbn [mbind res_bind]. change GC_BLOCKSIZE with 4096. change (rstart r + 4096 * pos) with b.
  change (MEMALIGN - GC_HEAD) with 4. change (4096 - GC_HEAD) with 4092. destruct u; cbn [negb].
  2:{ assert (Hl : live_block r pos = false) by (unfold live_block, block_kept; by rewrite Hu).
      unfold block_gaps, block_kept. rewrite Hl, Hu, !app_nil_r. by exists s. }
  destruct (sweep_used_block r pos s F B K sb Hr Hp Hu Hs ltac:(fold b; lia)) as
    (c & a & z & s1 & Eg & Ech & Hs1 & Haz & Hz0 & Hz8 & Ha & Ha8 & Hc & Hlv & Hdd).
  fold b in Eg, Ech, Haz, Ha, Ha8, Hc, Hlv, Hdd. rewrite Ech. cbn [mbind res_bind]. apply divide_mod in Hz8, Ha8; [|lia..].
  unfold block_gaps. destruct (live_block r pos) eqn:Hl.
  - assert (E : (0 <? z) && (a =? b + 4) = false) by (destruct (Z.eqb_spec a (b + 4)); [specialize (Hlv eq_refl); lia|apply andb_false_r]).
    rewrite E. fold b. unfold all_gaps. rewrite Eg.
    destruct (insert_tail s1 _ _ _ a z Hs1) as (s2 & -> & Hs2); [lia|dmlia|done| | |].
    { destruct (Z.eq_dec z 0); [by left|right; split; [specialize (Hlv eq_refl); dmlia|done]]. }
    { intros x Hx1 Hx2. apply (ro_acc _ Hr); [lia|done]. }
    cbn [mbind res_bind].
    destruct (flush_spec s2 _ _ _ sb sbs (a + z) Hs2) as (s3 & -> & Hs3); [lia|dmlia|done|done| |lia| |].
    { intros x Hx1 Hx2. apply (ro_acc _ Hr); [lia|done]. }
    { destruct (sg_before _ _ _ _ _ Hs) as [N1 N2]. intros x [[Hx|Hx]%elem_of_app|[Hx|Hx]%elem_of_app]%elem_of_app.
      - apply list_elem_of_fmap in Hx as ([y n] & -> & Hy). rewrite <- app_assoc in Hy. apply elem_of_app in Hy as [Hy|[Hy|Hy]%elem_of_app].
        + left. apply N1. apply (in_nodes_l F B (y, n) Hy).
        + right. destruct (Hc y n Hy). cbn. lia.
        + right. destruct (Z.ltb_spec 0 z); [|by apply elem_of_nil in Hy]. apply list_elem_of_singleton in Hy as [= -> ->]. cbn. lia.
      - left. apply N1, elem_of_app. by right.
      - left. by apply N2.
      - right. unfold block_kept in Hx. rewrite Hu in Hx. apply list_elem_of_filter in Hx as [_ Hx]. fold b in Hx.
        destruct (ro_block _ Hr pos Hp Hu) as (Ht & _). destruct (tiled_range _ _ _ _ _ Ht Hx) as (? & _). fold b in H. lia. }
    cbn [mbind res_bind]. unfold massert, assert_or. rewrite Z.eqb_refl. cbn [mbind res_bind andb]. exists s3. split; [done|].
    rewrite <- app_assoc in Hs3. eapply sweeping_mono; [exact Hs3|lia].
  - destruct (Hdd eq_refl) as (-> & -> & Hk). assert (E : (0 <? z) && (b + 4 =? b + 4) = true) by (rewrite Z.eqb_refl; destruct (Z.ltb_spec 0 z); [done|lia]).
    rewrite E. cbn [mbind res_bind andb]. unfold massert, assert_or. rewrite Z.eqb_refl. cbn [mbind res_bind]. exists s1. split; [done|].
    rewrite !app_nil_r in *. split; try apply Hs1. rewrite Hk, app_nil_r. apply Hs.
Qed.

Definition region_gaps (r : region) (l : list Z) : list (Z * Z) := flat_map (block_gaps r) l.
Definition region_kept (r : region) (l : list Z) : list Z := flat_map (block_kept r) l.
Definition groups (r : region) : list (Z * Z) := all_gaps (block_item r <$> region_blocks r) (rstart r) 0.

Lemma block_items_sized r l : sized 4096 (block_item r <$> l).
Proof. apply Forall_fmap, Forall_forall. intros pos _. cbn. split; [lia|by exists 1]. Qed.

Lemma block_items_total r l : total (block_item r <$> l) = 4096 * Z.of_nat (length l).
Proof. induction l as [|pos l IH]; [done|]. rewrite fmap_cons. cbn [total length]. unfold block_item at 1. rewrite IH. lia. Qed.

Lemma sweep_blocks_spec r : region_ok r -> forall n pos s F B K sb sbs, 0 <= pos -> pos + Z.of_nat n <= 512 ->
  sweeping s F B K sb -> sb + sbs = block_start r pos -> 0 <= sbs -> sbs mod 4096 = 0 -> rstart r <= sb ->
  let l := seqZ pos (Z.of_nat n) in
  let '(c, a, z) := gaps (block_item r <$> l) sb sbs in
  exists s', sweep_blocks ts r l (sb, sbs, s) = Ok (a, z, s') /\
    sweeping s' (F ++ region_gaps r l) (B ++ c) (K ++ region_kept r l) a.
Proof.
  intros Hr n. unfold region_gaps, region_kept. induction n as [|n IH]; intros pos s F B K sb sbs Hp Hn Hs Hb Hz Hm Hst; cbv zeta.
  - rewrite seqZ_nil by lia. cbn. rewrite !app_nil_r. by exists s.
  - rewrite seqZ_cons by lia. replace (Z.pred (Z.of_nat (S n))) with (Z.of_nat n) by lia.
    destruct (sweep_block_spec r pos s F B K sb sbs Hr ltac:(lia) Hs Hb Hz Hm Hst) as (s1 & E1 & H1).
    cbn [sweep_blocks flat_map]. rewrite E1. cbn [mbind res_bind]. rewrite fmap_cons. unfold block_item at 1. unfold next_start in *.
    rewrite !app_assoc. set (b := block_start r pos) in *.
    assert (Hnext : b + 4096 = block_start r (Z.succ pos)) by (unfold b, block_start, GC_BLOCKSIZE; lia).
    destruct (live_block r pos) eqn:Hl; cbn [gaps andb] in *.
    + specialize (IH (Z.succ pos) s1 _ _ _ (b + 4096) 0 ltac:(lia) ltac:(lia) H1). rewrite Hb.
      destruct (gaps (block_item r <$> seqZ (Z.succ pos) (Z.of_nat n)) (b + 4096) 0) as [[c a] z].
      rewrite !app_assoc. apply IH; [lia|lia|done|lia].
    + rewrite app_nil_r in H1. specialize (IH (Z.succ pos) s1 _ _ _ sb (sbs + 4096) ltac:(lia) ltac:(lia) H1).
      destruct (gaps (block_item r <$> seqZ (Z.succ pos) (Z.of_nat n)) sb (sbs + 4096)) as [[c a] z].
      apply IH; [lia|lia|dmlia|done].
Qed.

Lemma region_blocks_seq r : region_ok r -> region_blocks r = seqZ 0 512.
Proof.
  intros Hr. unfold region_blocks. destruct (ro_start _ Hr) as (_ & _ & ->). f_equal.
  replace (rstart r + GC_REGIONSIZE - rstart r) with GC_REGIONSIZE by lia. reflexivity.
Qed.

Lemma sweep_region_spec r s F B K : region_ok r -> sweeping s F B K (rstart r) ->
  exists s', sweep_region ts r s = Ok s' /\
    sweeping s' (F ++ region_gaps r (region_blocks r)) (B ++ groups r) (K ++ region_kept r (region_blocks r)) (rend r).
Proof.
  intros Hr Hs. unfold sweep_region, groups, all_gaps. rewrite (region_blocks_seq r Hr). destruct (ro_start _ Hr) as (R1 & R2 & R3).
  pose proof (sweep_blocks_spec r Hr 512 0 s F B K (rstart r) 0 ltac:(lia) ltac:(lia) Hs) as Hb.
  change (Z.of_nat 512) with 512 in Hb.
  pose proof (gaps_bounds 4096 (block_item r <$> seqZ 0 512) (rstart r) 0 (block_items_sized r _) ltac:(lia) (Z.divide_0_r _)) as Hg.
  rewrite block_items_total, length_seqZ in Hg. cbv zeta in Hb.
  destruct (gaps (block_item r <$> seqZ 0 512) (rstart r) 0) as [[c a] z]. destruct Hg as (G1 & G2 & G3 & G4 & G5 & _).
  change (4096 * Z.of_nat (Z.to_nat 512)) with GC_REGIONSIZE in G1. apply divide_mod in G3, G5; [|lia..].
  destruct Hb as (s1 & -> & H1); [unfold block_start; lia|lia|done|lia|]. cbn [mbind res_bind]. rewrite app_assoc.
  apply flush_spec; [eapply sweeping_mono; [exact H1|lia]|lia|dmlia|done|done| |lia|].
  - intros x Hx1 Hx2. apply (ro_acc _ Hr); [lia|done].
  - destruct (sg_before _ _ _ _ _ H1) as [N1 N2]. intros x [Hx|Hx]%elem_of_app; left; [by apply N1|by apply N2].
Qed.

(** The regions in the order of their list. *)
Definition regions_ok (l : list region) : Prop :=
  Forall region_ok l /\ StronglySorted (fun r r' => rend r <= rstart r') l.

Definition all_chunks (l : list region) : list (Z * Z) := flat_map (fun r => region_gaps r (region_blocks r)) l.
Definition all_groups (l : list region) : list (Z * Z) := flat_map groups l.
Definition all_kept (l : list region) : list Z := flat_map (fun r => region_kept r (region_blocks r)) l.

Lemma sweep_regions_spec l : regions_ok l -> forall s F B K p, sweeping s F B K p -> Forall (fun r => p <= rstart r) l ->
  exists s' q, sweep_regions (sweep_region ts) l s = Ok s' /\ sweeping s' (F ++ all_chunks l) (B ++ all_groups l) (K ++ all_kept l) q.
Proof.
  unfold all_chunks, all_groups, all_kept.
  intros [Hl Hs]. induction Hs as [|r l Hs IH Hr]; intros s F B K p Hsw Hp; cbn [flat_map sweep_regions].
  - rewrite !app_nil_r. by exists s, p.
  - apply Forall_cons in Hl as [Hok Hl], Hp as [Hp _].
    destruct (sweep_region_spec r s F B K Hok) as (s1 & -> & H1); [by eapply sweeping_mono|]. cbn [mbind res_bind].
    rewrite !app_assoc. eapply IH; [done|exact H1|done].
Qed.

(** The sweep on memory is the sweep on lists: it clears the marks of the kept
    objects, links exactly the stretches between them, and writes nothing else. *)
Record swept_to (l : list region) (m' : memory) (chunks blocks : Z) : Prop := {
  st_chunks : chain m' chunks (merged (all_chunks l) 511);
  st_blocks : chain m' blocks (all_groups l).*1;
  st_mem : swept (nodes (all_chunks l) (all_groups l)) (all_kept l) m';
  st_kept k : k ∈ all_kept l -> ~ touched (nodes (all_chunks l) (all_groups l)) k;
  st_chunk c : c ∈ all_chunks l -> rd m' c.1 = free_header c.2;
  st_group b : b ∈ all_groups l -> rd m' b.1 = b.2;
  st_separate : separate (nodes (all_chunks l) (all_groups l)) }.

(** What the state of a sweep must be in the end. *)
Lemma finish_sweep_spec l s : sweep_ok s (all_chunks l) (all_groups l) -> swept (nodes (all_chunks l) (all_groups l)) (all_kept l) (sw_mem s) ->
  (forall k, k ∈ all_kept l -> ~ touched (nodes (all_chunks l) (all_groups l)) k) ->
  exists m' chunks blocks marked freed, finish_sweep s = Ok (m', chunks, blocks, marked, freed) /\ swept_to l m' chunks blocks.
Proof.
  intros S1 S2 S3. unfold finish_sweep.
  set (F := all_chunks l) in *. set (B := all_groups l) in *. set (K := all_kept l) in *.
  destruct S1 as [I1 I2 I3 I4 I5 I6 I7]. pose proof I7 as (SF & SB & SFB)%separate_app.
  destruct (merge_freeindex_spec _ _ F I1 SF) as (p & m' & -> & Hc & Hag). cbn [mbind res_bind].
  assert (HB : forall b, b ∈ B.*1 -> rd m' b = rd (sw_mem s) b /\ rd m' (b + 4) = rd (sw_mem s) (b + 4)).
  { intros b Hb. split; apply Hag; intros x Hx; destruct (SFB x b Hx Hb); lia. }
  eexists _, _, _, _, _. split; [done|]. split; [exact Hc| | |exact S3| | |exact I7].
  - apply (chain_ext (sw_mem s)); [apply Hag|intros b Hb; by apply HB|]. apply chain_iff. split_and!; [done| |done|].
    + apply Forall_forall. intros b Hb. apply list_elem_of_fmap in Hb as (x & -> & Hx). by apply I6.
    + intros Hne. apply I5. intros HBe. apply Hne. fold B. by rewrite HBe.
  - destruct S2 as [R2 S2]. split; [by rewrite (proj1 Hag)|]. intros a Ha. rewrite (proj2 Hag); [by apply S2|].
    intros x Hx ->. apply Ha. exists x. split; [apply elem_of_app; by left|lia].
  - intros c HcF. rewrite (proj2 Hag); [by apply (ix_chunk _ _ _ I1)|]. intros x Hx E'.
    assert (Hc1 : c.1 ∈ F.*1) by (apply list_elem_of_fmap; by exists c).
    destruct (decide (x = c.1)) as [->|Hne]; [lia|]. destruct (separate_apart _ _ _ SF Hx Hc1 Hne); lia.
  - intros b Hb. rewrite (proj1 (HB b.1 ltac:(apply list_elem_of_fmap; by exists b))). by apply I6.
Qed.

Lemma start_sweeping : sweeping (mkSweep m0 init_freeindex 0 None 0 0) [] [] [] 0.
Proof.
  split; [apply init_sweep_ok| | |].
  - split; [done|]. intros a _. by rewrite decide_False by (by intros ?%elem_of_nil).
  - by intros k ?%elem_of_nil.
  - split; intros x ?%elem_of_nil; done.
Qed.

Lemma sweep_normal_spec l : regions_ok l ->
  exists m' chunks blocks marked freed, sweep_small_normal ts l m0 = Ok (m', chunks, blocks, marked, freed) /\ swept_to l m' chunks blocks.
Proof.
  intros Hl. destruct (sweep_regions_spec l Hl _ _ _ _ _ start_sweeping) as (s & q & E & [S1 S2 S3 _]).
  { apply Forall_forall. intros r Hr. destruct Hl as [Hl _]. rewrite Forall_forall in Hl. destruct (ro_start _ (Hl r Hr)) as (? & _). lia. }
  unfold sweep_small_normal. rewrite E. cbn [mbind res_bind app] in *. by apply finish_sweep_spec.
Qed.

End Sweep.
