(* ===== verification/GcArea.v ===== *)
(** * The state of the small object area (src/runtime/gc.c)

    What the memory of the area looks like between operations: free blocks in
    groups, used blocks tiled by objects and free chunks, a list of free chunks
    by decreasing size.  The sweep establishes it with exactly the marked
    objects. *)

From S2P Require Import Prelude GcHeap GcTiling GcMark GcReach GcObjects GcSmall GcChain GcGaps GcSweep.

#[local] Opaque block_list BLOCK_FUEL.

(** A block is free when it is in a group. *)
Definition in_group (B : list (Z * Z)) (b : Z) : Prop := exists g, g ∈ B /\ g.1 <= b < g.1 + g.2.

(** Regions in the order of their addresses. *)
Record regions_shape (l : list region) : Prop := {
  rs_region r : r ∈ l -> 0 < rstart r /\ rstart r mod 4096 = 0 /\ rend r = rstart r + GC_REGIONSIZE;
  rs_sorted : StronglySorted (fun r r' => rend r <= rstart r') l }.

(** A block that is not free. *)
Definition used_block (l : list region) (B : list (Z * Z)) (b : Z) : Prop :=
  exists r pos, r ∈ l /\ 0 <= pos < 512 /\ b = block_start r pos /\ ~ in_group B b.

(** [C] are the free chunks on the list, [B] the groups of free blocks. *)
Record area (m : memory) (l : list region) (C B : list (Z * Z)) : Prop := {
  ar_shape : regions_shape l;
  ar_acc r : r ∈ l -> accessible m (rstart r) (rend r);
  ar_group g : g ∈ B -> exists r, r ∈ l /\ rstart r <= g.1 /\ g.1 + g.2 <= rend r /\
    g.1 mod 4096 = 0 /\ 0 < g.2 /\ g.2 mod 4096 = 0 /\ rd m g.1 = g.2;
  ar_groups : StronglySorted (fun g g' => g.1 + g.2 <= g'.1) B;
  ar_block b : used_block l B b -> tiled m (b + 4092) (b + 4) (block_list m b);
  ar_head b h : used_block l B b -> h ∈ block_list m b ->
    Z.testbit (rd m h) 0 = false /\ (is_free_word (rd m h) = true \/ mask_size (rd m h) < GC_MAX_SMALL_OBJECT_SIZE);
  ar_chunk c : c ∈ C -> exists b, used_block l B b /\ c.1 ∈ block_list m b /\ rd m c.1 = free_header c.2 /\ chunk_fits c.2;
  ar_chunks : StronglySorted (fun c c' => c'.2 <= c.2) C;
  ar_nodup : NoDup C.*1 }.

(** [p] is an object of the area. *)
Definition is_obj (m : memory) (l : list region) (B : list (Z * Z)) (p : Z) : Prop :=
  exists b, used_block l B b /\ p - 4 ∈ block_list m b /\ is_free_word (rd m (p - 4)) = false.

(** ** Blocks *)

Lemma block_length m b l : tiled m (b + 4092) (b + 4) l -> (length l <= BLOCK_FUEL)%nat.
Proof. intros Ht. pose proof (tiled_le _ _ _ _ Ht). change BLOCK_FUEL with 512%nat. lia. Qed.

#[local] Transparent block_list.
Lemma block_list_tiled m b l : tiled m (b + 4092) (b + 4) l -> block_list m b = l.
Proof. intros Ht. unfold block_list. apply tiled_chunk_list; [done|by eapply block_length]. Qed.
#[local] Opaque block_list.

Lemma shape_unique l r r' x : regions_shape l -> r ∈ l -> r' ∈ l -> rstart r <= x < rend r -> rstart r' <= x < rend r' -> r = r'.
Proof.
  intros [_ Hs] Hr Hr' Hx Hx'. induction Hs as [|r0 l Hs IH Hf]; [by apply elem_of_nil in Hr|].
  rewrite Forall_forall in Hf. apply elem_of_cons in Hr as [->|Hr], Hr' as [->|Hr'].
  - done.
  - specialize (Hf _ Hr'). lia.
  - specialize (Hf _ Hr). lia.
  - by apply IH.
Qed.

Lemma block_in_region l r pos : regions_shape l -> r ∈ l -> 0 <= pos < 512 -> let b := block_start r pos in
  rstart r <= b /\ b + 4096 <= rend r /\ b mod 4096 = 0 /\ 0 < b.
Proof.
  intros Hs Hr Hp b. destruct (rs_region _ Hs r Hr) as (R1 & R2 & R3). unfold b, block_start, GC_BLOCKSIZE.
  rewrite R3. unfold GC_REGIONSIZE. split_and!; [lia|lia|dmlia|lia].
Qed.

Lemma used_bounds l B b : regions_shape l -> used_block l B b -> b mod 4096 = 0 /\ 0 < b /\
  exists r, r ∈ l /\ rstart r <= b /\ b + 4096 <= rend r.
Proof.
  intros Hs (r & pos & Hr & Hp & -> & _). destruct (block_in_region l r pos Hs Hr Hp) as (? & ? & ? & ?).
  split_and!; [done|done|]. by exists r.
Qed.

(** Every block of a region, used or free. *)
Lemma block_of l r b : regions_shape l -> r ∈ l -> rstart r <= b < rend r -> b mod 4096 = 0 ->
  exists pos, 0 <= pos < 512 /\ b = block_start r pos.
Proof.
  intros Hs Hr Hb Hm. destruct (rs_region _ Hs r Hr) as (R1 & R2 & R3). exists ((b - rstart r) / 4096).
  unfold block_start, GC_BLOCKSIZE. rewrite R3 in Hb. unfold GC_REGIONSIZE in Hb. split; dmlia.
Qed.

(** Words of different blocks are different. *)
Lemma blocks_apart b b' a : b mod 4096 = 0 -> b' mod 4096 = 0 -> b <= a < b + 4096 -> b' <= a < b' + 4096 -> b = b'.
Proof. intros. dmlia. Qed.

(** A node of a group is in no used block. *)
Lemma group_apart m l C B b g : area m l C B -> used_block l B b -> g ∈ B -> g.1 + 8 <= b \/ b + 4096 <= g.1.
Proof.
  intros Ha Hu Hg. destruct (ar_group _ _ _ _ Ha g Hg) as (r & Hr & G1 & G2 & G3 & G4 & G5 & _).
  destruct (used_bounds _ _ _ (ar_shape _ _ _ _ Ha) Hu) as (Hb & _). destruct Hu as (r' & pos & _ & _ & -> & Hn).
  destruct (Z.lt_ge_cases (block_start r' pos) (g.1 + g.2)) as [Hlt|]; [|dmlia].
  destruct (Z.lt_ge_cases (block_start r' pos) g.1) as [|Hge]; [dmlia|]. destruct Hn. by exists g.
Qed.

(** ** Tilings after the merge of gaps *)

Lemma pieces_tiled m bound l : forall a z, sized 8 l -> 0 <= z -> a + z + total l = bound ->
  (forall x n, (x, n) ∈ all_gaps l a z -> acc m x /\ mask_size (rd m x) = n) ->
  (forall x n, (x, n) ∈ keeps_at l (a + z) -> acc m x /\ mask_size (rd m x) = n) -> tiled m bound a (pieces l a z).
Proof.
  induction l as [|[n b] l IH]; intros a z Hs Hz Hb Hg Hk.
  - cbn [pieces total] in *. unfold all_gaps in Hg. cbn [gaps app] in Hg. destruct (Z.ltb_spec 0 z).
    + destruct (Hg a z ltac:(left)) as [A1 A2]. constructor; [done|lia|lia|]. rewrite A2.
      replace (a + z) with bound by lia. constructor.
    + replace a with bound by lia. constructor.
  - apply Forall_cons in Hs as [[Hn _] Hs]. cbn in Hn. pose proof (sized_total 8 l Hs).
    cbn [pieces total keeps_at] in *. setoid_rewrite all_gaps_cons in Hg. destruct b.
    + assert (Hrest : tiled m bound (a + z) (a + z :: pieces l (a + z + n) 0)).
      { destruct (Hk (a + z) n ltac:(left)) as [A1 A2]. constructor; [done|lia|lia|]. rewrite A2. apply IH; [done|lia|lia| |].
        - intros x m' Hx. apply Hg, elem_of_app. by right.
        - intros x m' Hx. apply Hk, elem_of_app. right. by rewrite Z.add_0_r in Hx. }
      destruct (Z.ltb_spec 0 z).
      * destruct (Hg a z ltac:(left)) as [A1 A2]. cbn [app]. constructor; [done|lia|lia|]. by rewrite A2.
      * replace z with 0 in * by lia. cbn [app]. by rewrite Z.add_0_r in *.
    + apply IH; [done|lia|lia|done|]. intros x m' Hx. apply Hk. by rewrite Z.add_assoc in Hx.
Qed.

Lemma tiled_keeps m0 bound h l : tiled m0 bound h l ->
  keeps_at (item m0 <$> l) h = (fun h => (h, mask_size (rd m0 h))) <$> kept m0 l.
Proof.
  unfold kept. induction 1 as [|h l A N L T IH]; [done|]. rewrite fmap_cons, filter_cons. unfold item at 1. cbn [keeps_at]. rewrite IH.
  destruct (Z.testbit (rd m0 h) 0) eqn:E.
  - rewrite decide_True by done. done.
  - rewrite decide_False by (unfold mk; congruence). done.
Qed.

(** ** The merged list with its sizes *)

Definition merged_chunks (F : list (Z * Z)) (n : nat) : list (Z * Z) := flat_map (fun i => filter (fun c => c.2 / 8 = i) F) (down n).

Lemma merged_fst F n : (merged_chunks F n).*1 = merged F n.
Proof.
  unfold merged_chunks, merged. induction (down n) as [|i l IH]; [done|]. cbn [flat_map]. rewrite fmap_app, IH. done.
Qed.

Lemma elem_of_merged_chunks F n c : c ∈ merged_chunks F n <-> c ∈ F /\ 1 <= c.2 / 8 <= Z.of_nat n.
Proof.
  unfold merged_chunks. rewrite elem_of_flat_map. split.
  - intros (i & Hi%elem_of_down & [<- Hc]%list_elem_of_filter). done.
  - intros [Hc Hi]. exists (c.2 / 8). rewrite elem_of_down, list_elem_of_filter. done.
Qed.

(** Chunks of decreasing size. *)
Lemma merged_sorted F n : (forall c, c ∈ F -> c.2 mod 8 = 0) -> StronglySorted (fun c c' => c'.2 <= c.2) (merged_chunks F n).
Proof.
  intros HF. unfold merged_chunks. induction n as [|n IH]; [constructor|]. cbn [down flat_map]. apply StronglySorted_app_iff. split_and!; [|done|].
  - set (i := Z.of_nat (S n)). assert (Hall : forall c, c ∈ filter (fun c => c.2 / 8 = i) F -> c.2 = 8 * i).
    { intros c [Hi Hc]%list_elem_of_filter. specialize (HF c Hc). dmlia. }
    induction (filter (fun c => c.2 / 8 = i) F) as [|c l IHl]; constructor.
    + apply IHl. intros c' Hc'. apply Hall. by right.
    + apply Forall_forall. intros c' Hc'. rewrite (Hall c), (Hall c'); [lia|by right|left].
  - intros c c' [Hi Hc]%list_elem_of_filter Hc'. apply elem_of_merged_chunks in Hc' as [Hc' Hi'].
    pose proof (HF c Hc). pose proof (HF c' Hc'). dmlia.
Qed.

Lemma merged_nodup F n : NoDup F.*1 -> NoDup (merged_chunks F n).*1.
Proof.
  intros Hnd. rewrite merged_fst. unfold merged. apply NoDup_flat_map.
  - induction n as [|n IH]; constructor; [|done]. rewrite elem_of_down. lia.
  - intros i _. by apply entry_nodup.
  - intros i j a _ _ (s & Hs & <-)%elem_of_entry (s' & Hs' & <-)%elem_of_entry. f_equal.
    apply list_elem_of_lookup in Hs as [u Hu]. apply list_elem_of_lookup in Hs' as [v Hv].
    assert (u = v) as -> by (eapply NoDup_lookup; [exact Hnd|by rewrite list_lookup_fmap, Hu|by rewrite list_lookup_fmap, Hv]).
    congruence.
Qed.

(** ** After a sweep *)

Section Swept.
Context (m0 : memory) (ts : gmap Z (list Z)) (l : list region).
Hypothesis (Hreg : regions_ok m0 ts l).

Abbreviation F := (all_chunks m0 ts l).
Abbreviation B := (all_groups m0 ts l).
Abbreviation K := (all_kept m0 ts l).
Abbreviation live := (live_block m0 ts).

Lemma swept_region r : r ∈ l -> region_ok m0 ts r.
Proof. destruct Hreg as [Hl _]. rewrite Forall_forall in Hl. apply Hl. Qed.

Lemma swept_shape : regions_shape l.
Proof. split; [intros r Hr; by apply (swept_region r)|apply Hreg]. Qed.

Lemma items_at r n : forall p pos, p <= pos < p + Z.of_nat n -> let items := block_item m0 ts r <$> seqZ p (Z.of_nat n) in
  (live r pos = true -> (block_start r pos, 4096) ∈ keeps_at items (block_start r p)) /\
  (live r pos = false -> (block_start r pos, 4096) ∈ drops_at items (block_start r p)).
Proof.
  induction n as [|n IH]; intros p pos Hp; [lia|]. cbv zeta. rewrite seqZ_cons by lia. replace (Z.pred (Z.of_nat (S n))) with (Z.of_nat n) by lia.
  rewrite fmap_cons. unfold block_item at 1 3. cbn [keeps_at drops_at].
  replace (block_start r p + 4096) with (block_start r (Z.succ p)) by (unfold block_start, GC_BLOCKSIZE; lia).
  destruct (decide (pos = p)) as [->|Hne].
  - split; intros ->; apply elem_of_app; left; left.
  - destruct (IH (Z.succ p) pos ltac:(lia)) as [H1 H2]. split; intros Hl; apply elem_of_app; right; auto.
Qed.

Lemma groups_bounds r : r ∈ l -> (forall g, g ∈ groups m0 ts r -> rstart r <= g.1 /\ g.1 + g.2 <= rend r /\
    g.1 mod 4096 = 0 /\ 0 < g.2 /\ g.2 mod 4096 = 0) /\ StronglySorted (fun g g' => g.1 + g.2 < g'.1) (groups m0 ts r).
Proof.
  intros Hr. pose proof (swept_region r Hr) as Hok. destruct (ro_start _ _ _ Hok) as (R1 & R2 & R3). unfold groups.
  rewrite (region_blocks_seq _ _ _ Hok).
  destruct (all_gaps_bounds 4096 (block_item m0 ts r <$> seqZ 0 512) (rstart r) 0 (block_items_sized _ _ r _) ltac:(lia) (Z.divide_0_r _)) as [G1 G2].
  rewrite block_items_total, length_seqZ in G1. change (4096 * Z.of_nat (Z.to_nat 512)) with GC_REGIONSIZE in G1.
  split; [|done]. intros [x n] Hx. destruct (G1 x n Hx) as (X1 & X2 & X3 & X4 & X5). apply divide_mod in X3, X5; [|lia..]. cbn.
  split_and!; try lia; dmlia.
Qed.

Lemma elem_of_groups g : g ∈ B <-> exists r, r ∈ l /\ g ∈ groups m0 ts r.
Proof. apply elem_of_flat_map. Qed.

(** A block is in a group exactly if it has no marked object. *)
Lemma in_group_iff r pos : r ∈ l -> 0 <= pos < 512 -> in_group B (block_start r pos) <-> live r pos = false.
Proof.
  intros Hr Hp. pose proof (swept_region r Hr) as Hok. pose proof (block_in_region l r pos swept_shape Hr Hp) as (B1 & B2 & B3 & B4).
  destruct (items_at r 512 0 pos ltac:(lia)) as [Hkeep Hdrop]. change (Z.of_nat 512) with 512 in *.
  replace (block_start r 0) with (rstart r) in * by (unfold block_start, GC_BLOCKSIZE; lia). split.
  - intros (g & Hg & Hin). apply elem_of_groups in Hg as (r' & Hr' & Hg). destruct (proj1 (groups_bounds r' Hr') g Hg) as (? & ? & _).
    assert (r' = r) as -> by (apply (shape_unique l r' r (block_start r pos) swept_shape Hr' Hr); lia).
    destruct (live r pos); [|done]. exfalso. unfold groups in Hg. rewrite (region_blocks_seq _ _ _ Hok) in Hg.
    assert (Hap : block_start r pos + 4096 <= g.1 \/ g.1 + g.2 <= block_start r pos); [|lia].
    apply (keeps_apart 4096 (block_item m0 ts r <$> seqZ 0 512) (rstart r) 0); [apply block_items_sized|lia|apply Z.divide_0_r| |done].
    rewrite Z.add_0_r. by apply Hkeep.
  - intros Hl. destruct (drops_covered 4096 (block_item m0 ts r <$> seqZ 0 512) (rstart r) 0 (block_start r pos) 4096) as (g & Hg & ? & ?);
      [apply block_items_sized|lia|rewrite Z.add_0_r; by apply Hdrop|].
    exists g. split; [|lia]. apply elem_of_groups. exists r. split; [done|]. unfold groups. by rewrite (region_blocks_seq _ _ _ Hok).
Qed.

Lemma used_live b : used_block l B b <-> exists r pos, r ∈ l /\ 0 <= pos < 512 /\ b = block_start r pos /\ live r pos = true.
Proof.
  split; intros (r & pos & Hr & Hp & -> & H); exists r, pos; (split; [done|]); (split; [done|]); (split; [done|]).
  - rewrite in_group_iff in H by done. destruct (live r pos); [done|by destruct H].
  - rewrite in_group_iff by done. congruence.
Qed.

Lemma elem_of_chunks c : c ∈ F <-> exists r pos, r ∈ l /\ 0 <= pos < 512 /\ c ∈ block_gaps m0 ts r pos.
Proof.
  unfold all_chunks, region_gaps. rewrite elem_of_flat_map. split.
  - intros (r & Hr & Hc). apply elem_of_flat_map in Hc as (pos & Hp & Hc). exists r, pos. split; [done|]. split; [|done].
    rewrite (region_blocks_seq _ _ _ (swept_region r Hr)), elem_of_seqZ in Hp. lia.
  - intros (r & pos & Hr & Hp & Hc). exists r. split; [done|]. apply elem_of_flat_map. exists pos.
    rewrite (region_blocks_seq _ _ _ (swept_region r Hr)), elem_of_seqZ. split; [lia|done].
Qed.

Lemma elem_of_kept k : k ∈ K <-> exists r pos, r ∈ l /\ 0 <= pos < 512 /\ k ∈ block_kept m0 ts r pos.
Proof.
  unfold all_kept, region_kept. rewrite elem_of_flat_map. split.
  - intros (r & Hr & Hc). apply elem_of_flat_map in Hc as (pos & Hp & Hc). exists r, pos. split; [done|]. split; [|done].
    rewrite (region_blocks_seq _ _ _ (swept_region r Hr)), elem_of_seqZ in Hp. lia.
  - intros (r & pos & Hr & Hp & Hc). exists r. split; [done|]. apply elem_of_flat_map. exists pos.
    rewrite (region_blocks_seq _ _ _ (swept_region r Hr)), elem_of_seqZ. split; [lia|done].
Qed.

Context (m' : memory).
Hypothesis (Hsw : swept m0 (nodes F B) K m') (Huntouched : forall k, k ∈ K -> ~ touched (nodes F B) k).
Hypothesis (Hchunk : forall c, c ∈ F -> rd m' c.1 = free_header c.2) (Hgroup : forall b, b ∈ B -> rd m' b.1 = b.2)
  (Hsep : separate (nodes F B)).

Lemma swept_acc a : acc m' a <-> acc m0 a.
Proof. unfold acc. by rewrite (proj1 Hsw). Qed.

Lemma kept_header k : k ∈ K -> rd m' k = clear_mark (rd m0 k).
Proof. intros Hk. rewrite (proj2 Hsw) by (by apply Huntouched). by rewrite decide_True. Qed.

(** The chunks of a block that is not free, after the sweep. *)
Definition new_list (b : Z) : list Z := pieces (item m0 <$> block_list m0 b) (b + 4) 0.

Lemma live_block_tiled r pos : r ∈ l -> 0 <= pos < 512 -> live r pos = true -> let b := block_start r pos in
  tiled m0 (b + 4092) (b + 4) (block_list m0 b) /\ Forall (object_ok m0) (block_list m0 b) /\ in_use ts r pos = true.
Proof.
  intros Hr Hp Hl b. destruct (live_kept _ _ _ _ Hl) as [Hu _]. by destruct (ro_block _ _ _ (swept_region r Hr) pos Hp Hu) as (? & _ & ?).
Qed.

Lemma gap_chunk r pos x n : live r pos = true -> (x, n) ∈ all_gaps (item m0 <$> block_list m0 (block_start r pos)) (block_start r pos + 4) 0 <->
  (x, n) ∈ block_gaps m0 ts r pos.
Proof. intros Hl. unfold block_gaps. by rewrite Hl. Qed.

Lemma kept_in_use r pos h : in_use ts r pos = true -> h ∈ kept m0 (block_list m0 (block_start r pos)) -> h ∈ block_kept m0 ts r pos.
Proof. intros Hu. unfold block_kept. by rewrite Hu. Qed.

Lemma new_list_tiled r pos : r ∈ l -> 0 <= pos < 512 -> live r pos = true -> let b := block_start r pos in
  tiled m' (b + 4092) (b + 4) (new_list b).
Proof.
  intros Hr Hp Hl b. destruct (live_block_tiled r pos Hr Hp Hl) as (Ht & _ & Hu). fold b in Ht.
  destruct (tiled_sized _ _ _ _ Ht) as [Hsz Htot]. pose proof (swept_region r Hr) as Hok.
  destruct (block_in_region l r pos swept_shape Hr Hp) as (B1 & B2 & B3 & B4). fold b in B1, B2, B3, B4.
  unfold new_list. apply pieces_tiled; [done|lia|lia| |].
  - intros x n Hx. apply (gap_chunk r pos x n Hl) in Hx.
    destruct (block_gaps_bounds _ _ _ _ _ _ Hok Hp Hx) as (X1 & X2 & [X3 X4] & X5). fold b in X1, X2. split.
    + apply swept_acc, (ro_acc _ _ _ Hok); [lia|dmlia].
    + assert (Hin : (x, n) ∈ F) by (apply elem_of_chunks; exists r, pos; done). specialize (Hchunk _ Hin). cbn in Hchunk.
      rewrite Hchunk. by apply free_header_size.
  - intros x n Hx. rewrite Z.add_0_r, (tiled_keeps _ _ _ _ Ht) in Hx. apply list_elem_of_fmap in Hx as (h & [= -> ->] & Hh).
    assert (HhK : h ∈ K) by (apply elem_of_kept; exists r, pos; split; [done|split; [done|by apply kept_in_use]]).
    apply list_elem_of_filter in Hh as [_ Hh]. destruct (tiled_range _ _ _ _ _ Ht Hh) as (_ & _ & Hacc).
    rewrite kept_header by done. split; [by apply swept_acc|apply clear_mark_spec].
Qed.

Lemma new_block r pos : r ∈ l -> 0 <= pos < 512 -> live r pos = true -> block_list m' (block_start r pos) = new_list (block_start r pos).
Proof. intros Hr Hp Hl. by apply block_list_tiled, new_list_tiled. Qed.

(** The new chunks are the free ones and the kept objects. *)
Lemma elem_of_new r pos h : r ∈ l -> 0 <= pos < 512 -> live r pos = true -> h ∈ new_list (block_start r pos) <->
  (exists n, (h, n) ∈ block_gaps m0 ts r pos) \/ h ∈ kept m0 (block_list m0 (block_start r pos)).
Proof.
  intros Hr Hp Hl. destruct (live_block_tiled r pos Hr Hp Hl) as (Ht & _ & _). unfold new_list.
  rewrite elem_of_pieces, Z.add_0_r, (tiled_keeps _ _ _ _ Ht). setoid_rewrite (fun x n => gap_chunk r pos x n Hl).
  assert (E : (exists n, (h, n) ∈ (fun h => (h, mask_size (rd m0 h))) <$> kept m0 (block_list m0 (block_start r pos))) <->
              h ∈ kept m0 (block_list m0 (block_start r pos))).
  { split.
    - intros (n & (h' & [= -> ->] & Hh')%list_elem_of_fmap). done.
    - intros Hh. exists (mask_size (rd m0 h)). apply list_elem_of_fmap. by exists h. }
  by rewrite E.
Qed.

Lemma swept_area : area m' l (merged_chunks F 511) B.
Proof.
  assert (HF8 : forall c, c ∈ F -> chunk_fits c.2 /\ exists r pos, r ∈ l /\ 0 <= pos < 512 /\ c ∈ block_gaps m0 ts r pos /\ live r pos = true).
  { intros [x n] (r & pos & Hr & Hp & Hc)%elem_of_chunks. split; [by apply (block_gaps_bounds m0 ts r pos x n (swept_region r Hr) Hp)|].
    exists r, pos. split; [done|]. split; [done|]. split; [done|]. unfold block_gaps in Hc. destruct (live r pos); [done|by apply elem_of_nil in Hc]. }
  split.
  - apply swept_shape.
  - intros r Hr a Ha Hm. apply swept_acc. by apply (ro_acc _ _ _ (swept_region r Hr)).
  - intros g Hg. pose proof Hg as (r & Hr & Hgr)%elem_of_groups. destruct (proj1 (groups_bounds r Hr) g Hgr) as (? & ? & ? & ? & ?).
    exists r. split_and!; try done. by apply Hgroup.
  - unfold all_groups. pose proof swept_shape as [_ Hs].
    assert (Hall : forall r, r ∈ l -> (forall g, g ∈ groups m0 ts r -> rstart r <= g.1 /\ g.1 + g.2 <= rend r) /\
                   StronglySorted (fun g g' => g.1 + g.2 < g'.1) (groups m0 ts r)).
    { intros r Hr. destruct (groups_bounds r Hr) as [G1 G2]. split; [|done]. intros g Hg. by destruct (G1 g Hg) as (? & ? & _). }
    clear - Hs Hall. induction Hs as [|r l Hs IH Hf]; [constructor|]. cbn [flat_map]. apply StronglySorted_app_iff. split_and!.
    + destruct (Hall r ltac:(left)) as [_ G]. clear - G. induction G as [|g L G IH Hf]; constructor; [done|].
      eapply Forall_impl; [exact Hf|]. cbn. lia.
    + apply IH. intros r' Hr'. apply Hall. by right.
    + intros g g' Hg Hg'. apply elem_of_flat_map in Hg' as (r' & Hr' & Hg'). rewrite Forall_forall in Hf. specialize (Hf r' Hr').
      destruct (Hall r ltac:(left)) as [G _], (Hall r' ltac:(by right)) as [G' _]. destruct (G g Hg), (G' g' Hg'). lia.
  - intros b (r & pos & Hr & Hp & -> & Hl)%used_live. rewrite (new_block r pos) by done. by apply new_list_tiled.
  - intros b h (r & pos & Hr & Hp & -> & Hl)%used_live. rewrite (new_block r pos) by done. intros Hh.
    apply (elem_of_new r pos h Hr Hp Hl) in Hh as [[n Hn]|Hh].
    + destruct (block_gaps_bounds _ _ _ _ _ _ (swept_region r Hr) Hp Hn) as (_ & _ & [_ X4] & _).
      assert (Hin : (h, n) ∈ F) by (apply elem_of_chunks; exists r, pos; done). specialize (Hchunk _ Hin). cbn in Hchunk. rewrite Hchunk.
      destruct (free_header_size n X4) as (_ & ? & ?). split; [done|by left].
    + destruct (live_block_tiled r pos Hr Hp Hl) as (Ht & Hob & Hu). rewrite Forall_forall in Hob.
      assert (HhK : h ∈ K) by (apply elem_of_kept; exists r, pos; split; [done|split; [done|by apply kept_in_use]]).
      apply list_elem_of_filter in Hh as [Hmk Hh]. rewrite kept_header by done. destruct (clear_mark_spec (rd m0 h)) as (-> & ? & ?).
      split; [done|]. right. by apply (Hob h Hh).
  - intros c [Hc _]%elem_of_merged_chunks. destruct (HF8 c Hc) as (Hfit & r & pos & Hr & Hp & Hcb & Hl).
    exists (block_start r pos). split; [apply used_live; by exists r, pos|]. split; [|split; [by apply Hchunk|done]].
    rewrite new_block by done. apply elem_of_new; [done..|]. left. exists c.2. by destruct c.
  - apply merged_sorted. intros c Hc. by destruct (HF8 c Hc) as ([_ ?] & _).
  - apply merged_nodup. apply separate_app in Hsep as (HF & _). by apply separate_nodup.
Qed.

(** The objects after the sweep are the marked ones. *)
Lemma swept_objects p : is_obj m' l B p <-> p - 4 ∈ K.
Proof.
  rewrite elem_of_kept. unfold is_obj. split.
  - intros (b & (r & pos & Hr & Hp & -> & Hl)%used_live & Hin & Hfree). exists r, pos. split; [done|]. split; [done|].
    rewrite (new_block r pos) in Hin by done. apply (elem_of_new r pos _ Hr Hp Hl) in Hin as [[n Hn]|Hin].
    + destruct (block_gaps_bounds _ _ _ _ _ _ (swept_region r Hr) Hp Hn) as (_ & _ & [_ X4] & _).
      assert (Hc : (p - 4, n) ∈ F) by (apply elem_of_chunks; exists r, pos; done). specialize (Hchunk _ Hc). cbn in Hchunk.
      unfold is_free_word in Hfree. rewrite Hchunk in Hfree. destruct (free_header_size n X4) as (_ & Hf & _). congruence.
    + destruct (live_kept _ _ _ _ Hl) as [Hu _]. by apply kept_in_use.
  - intros (r & pos & Hr & Hp & Hk). assert (Hl : live r pos = true).
    { unfold live_block. apply negb_true_iff, bool_decide_eq_false. intros E. rewrite E in Hk. by apply elem_of_nil in Hk. }
    exists (block_start r pos). split; [apply used_live; by exists r, pos|]. destruct (live_block_tiled r pos Hr Hp Hl) as (_ & Hob & Hu).
    assert (HkK : p - 4 ∈ K) by (apply elem_of_kept; by exists r, pos). unfold block_kept in Hk. rewrite Hu in Hk. rewrite new_block by done.
    split; [apply elem_of_new; [done..|by right]|]. rewrite kept_header by done. destruct (clear_mark_spec (rd m0 (p - 4))) as (_ & _ & ->).
    apply list_elem_of_filter in Hk as [Hmk Hk]. rewrite Forall_forall in Hob. by apply (Hob (p - 4) Hk).
Qed.

Lemma tiled_apart m bound h L x y : tiled m bound h L -> x ∈ L -> y ∈ L -> x < y -> x + mask_size (rd m x) <= y.
Proof.
  induction 1 as [|h L A N Hb T IH]; intros Hx Hy Hlt; [by apply elem_of_nil in Hx|].
  apply elem_of_cons in Hx as [->|Hx], Hy as [->|Hy]; [lia| | |by apply IH].
  - destruct (tiled_range _ _ _ _ _ T Hy). lia.
  - destruct (tiled_range _ _ _ _ _ T Hx). lia.
Qed.

(** A kept object's words are as they were, up to its mark. *)
Lemma swept_contents k a : k ∈ K -> k < a < k + mask_size (rd m0 k) -> a mod 4 = 0 -> rd m' a = rd m0 a.
Proof.
  intros (r & pos & Hr & Hp & Hk)%elem_of_kept Ha Ham. set (b := block_start r pos) in *.
  assert (Hu : in_use ts r pos = true) by (unfold block_kept in Hk; destruct (in_use ts r pos); [done|by apply elem_of_nil in Hk]).
  assert (Hl : live r pos = true).
  { unfold live_block. apply negb_true_iff, bool_decide_eq_false. intros E. rewrite E in Hk. by apply elem_of_nil in Hk. }
  unfold block_kept in Hk. rewrite Hu in Hk. fold b in Hk. destruct (live_block_tiled r pos Hr Hp Hl) as (Ht & _). fold b in Ht.
  pose proof Hk as [Hmk Hkl]%list_elem_of_filter. destruct (tiled_range _ _ _ _ _ Ht Hkl) as (Hkr & Hk8 & _).
  destruct (tiled_sized _ _ _ _ Ht) as [Hsz Htot]. destruct (block_in_region l r pos swept_shape Hr Hp) as (B1 & B2 & B3 & B4).
  fold b in B1, B2, B3, B4.
  assert (Hend : k + mask_size (rd m0 k) <= b + 4092).
  { assert (Hin : (k, mask_size (rd m0 k)) ∈ keeps_at (item m0 <$> block_list m0 b) (b + 4)).
    { rewrite (tiled_keeps _ _ _ _ Ht). apply list_elem_of_fmap. by exists k. }
    destruct (keeps_after 8 _ _ _ _ Hsz Hin) as (_ & ? & _). lia. }
  rewrite (proj2 Hsw).
  - rewrite decide_False; [done|]. intros (r' & pos' & Hr' & Hp' & Hk')%elem_of_kept.
    unfold block_kept in Hk'. destruct (in_use ts r' pos') eqn:Hu'; [|by apply elem_of_nil in Hk'].
    apply list_elem_of_filter in Hk' as [_ Hk']. destruct (ro_block _ _ _ (swept_region r' Hr') pos' Hp' Hu') as (Ht' & _).
    destruct (tiled_range _ _ _ _ _ Ht' Hk') as (? & _). destruct (block_in_region l r' pos' swept_shape Hr' Hp') as (_ & _ & B3' & _).
    assert (Eb : b = block_start r' pos') by (apply (blocks_apart _ _ a); [done|done|lia|lia]). rewrite <- Eb in *.
    pose proof (tiled_apart _ _ _ _ k a Ht Hkl Hk'). lia.
  - intros (x & [Hx|Hx]%elem_of_app & Hxa).
    + apply list_elem_of_fmap in Hx as ([x' n] & -> & Hc). cbn in Hxa. apply elem_of_chunks in Hc as (r' & pos' & Hr' & Hp' & Hc).
      destruct (block_gaps_bounds _ _ _ _ _ _ (swept_region r' Hr') Hp' Hc) as (X1 & X2 & [X3 X4] & _).
      destruct (block_in_region l r' pos' swept_shape Hr' Hp') as (_ & _ & B3' & _).
      assert (Eb : b = block_start r' pos') by (apply (blocks_apart _ _ a); [done|done|lia|lia]).
      assert (r = r') as <-.
      { apply (shape_unique l r r' b swept_shape Hr Hr'); [lia|]. destruct (block_in_region l r' pos' swept_shape Hr' Hp'). lia. }
      assert (pos = pos') as <- by (unfold b, block_start, GC_BLOCKSIZE in Eb; lia). apply (gap_chunk r pos x' n Hl) in Hc. fold b in Hc.
      assert (Hin : (k, mask_size (rd m0 k)) ∈ keeps_at (item m0 <$> block_list m0 b) (b + 4 + 0)).
      { rewrite Z.add_0_r, (tiled_keeps _ _ _ _ Ht). apply list_elem_of_fmap. by exists k. }
      destruct (keeps_apart 8 _ (b + 4) 0 k _ (x', n) Hsz ltac:(lia) (Z.divide_0_r 8) Hin Hc); cbn in *; lia.
    + apply list_elem_of_fmap in Hx as (g & -> & Hg).
      assert (Hub : used_block l B b) by (apply used_live; by exists r, pos). destruct (group_apart m' l _ B b g swept_area Hub Hg); lia.
Qed.

End Swept.

(** ** The normal sweep *)

(** [p] is a marked object of a block in use. *)
Definition marked_obj (m : memory) (ts : gmap Z (list Z)) (l : list region) (p : Z) : Prop :=
  exists r pos, r ∈ l /\ 0 <= pos < 512 /\ in_use ts r pos = true /\ p - 4 ∈ block_list m (block_start r pos) /\ mk m (p - 4).

Lemma kept_marked m ts l p : regions_ok m ts l -> p - 4 ∈ all_kept m ts l <-> marked_obj m ts l p.
Proof.
  intros Hreg. rewrite elem_of_kept by done. unfold block_kept. split; intros (r & pos & Hr & Hp & H); exists r, pos.
  - destruct (in_use ts r pos); [|by apply elem_of_nil in H]. apply list_elem_of_filter in H as [? ?]. done.
  - destruct H as (-> & ? & ?). split; [done|]. split; [done|]. by apply list_elem_of_filter.
Qed.

(** The objects of [m] that satisfy [P] have the same contents in [m'], and the
    same headers but for the mark. *)
Definition same_objects (P : Z -> Prop) (m m' : memory) : Prop :=
  forall p, P p -> rd m' (p - 4) = clear_mark (rd m (p - 4)) /\
    forall a, p <= a < p - 4 + mask_size (rd m (p - 4)) -> a mod 4 = 0 -> rd m' a = rd m a.

(** No free chunk of a used block is missing on the list. *)
Definition nothing_lost (m : memory) (l : list region) (C B : list (Z * Z)) : Prop :=
  forall b h, used_block l B b -> h ∈ block_list m b -> is_free_word (rd m h) = true -> h ∈ C.*1.

Lemma swept_nothing_lost m0 ts l m' : regions_ok m0 ts l -> swept m0 (nodes (all_chunks m0 ts l) (all_groups m0 ts l)) (all_kept m0 ts l) m' ->
  (forall k, k ∈ all_kept m0 ts l -> ~ touched (nodes (all_chunks m0 ts l) (all_groups m0 ts l)) k) ->
  (forall c, c ∈ all_chunks m0 ts l -> rd m' c.1 = free_header c.2) ->
  nothing_lost m' l (merged_chunks (all_chunks m0 ts l) 511) (all_groups m0 ts l).
Proof.
  intros Hreg Hsw Hk Hc b h (r & pos & Hr & Hp & -> & Hl)%used_live; [|done]. rewrite (new_block m0 ts l) by done. intros Hh Hf.
  apply (elem_of_new m0 ts l Hreg r pos h Hr Hp Hl) in Hh as [[n Hn]|Hh].
  - assert (Hin : (h, n) ∈ all_chunks m0 ts l) by (apply elem_of_chunks; [done|by exists r, pos]).
    apply list_elem_of_fmap. exists (h, n). split; [done|]. apply elem_of_merged_chunks. split; [done|].
    destruct (block_gaps_bounds _ _ _ _ _ _ (swept_region _ _ _ Hreg r Hr) Hp Hn) as (_ & _ & [? ?] & _). cbn. dmlia.
  - destruct (live_block_tiled m0 ts l Hreg r pos Hr Hp Hl) as (_ & Hob & Hu). rewrite Forall_forall in Hob.
    assert (HhK : h ∈ all_kept m0 ts l) by (apply elem_of_kept; [done|exists r, pos; split; [done|split; [done|by apply kept_in_use]]]).
    apply list_elem_of_filter in Hh as [Hmk Hh]. rewrite (kept_header m0 ts l m') in Hf by done.
    destruct (clear_mark_spec (rd m0 h)) as (_ & _ & E). rewrite E in Hf. destruct (Hob h Hh Hmk) as [_ ?]. congruence.
Qed.

(** What a sweep establishes: the objects are the marked ones, and the rest is
    on the two lists. *)
Record sweep_result (m : memory) (ts : gmap Z (list Z)) (l : list region) (m' : memory) (chunks blocks : Z) (C B : list (Z * Z)) : Prop := {
  sr_chunks : chain m' chunks C.*1;
  sr_blocks : chain m' blocks B.*1;
  sr_area : area m' l C B;
  sr_lost : nothing_lost m' l C B;
  sr_objects p : is_obj m' l B p <-> marked_obj m ts l p;
  sr_same : same_objects (marked_obj m ts l) m m' }.

Lemma swept_result m ts l m' chunks blocks : regions_ok m ts l -> swept_to m ts l m' chunks blocks ->
  sweep_result m ts l m' chunks blocks (merged_chunks (all_chunks m ts l) 511) (all_groups m ts l).
Proof.
  intros Hreg [H1 H2 H3 H4 H5 H6 H7]. split; [by rewrite merged_fst|done|by apply swept_area|by apply swept_nothing_lost| |].
  - intros p. rewrite <- kept_marked by done. by apply swept_objects.
  - intros p Hp%kept_marked; [|done]. rewrite (kept_header m ts l m') by done. split; [done|].
    intros a Ha Ham. eapply (swept_contents m ts l); [done..|exact Hp|lia|done].
Qed.

(** C5: The normal sweep never fails: afterwards the objects of the area are
    exactly the objects that were marked, with their contents and without the
    mark, and everything else is on one of the two lists: the free chunks by
    decreasing size, the groups of free blocks by address. *)
Theorem sweep_small_normal_correct (ts : gmap Z (list Z)) (l : list region) (m : memory) (Hreg : regions_ok m ts l) :
  exists m' chunks blocks marked freed C B, sweep_small_normal ts l m = Ok (m', chunks, blocks, marked, freed) /\
    sweep_result m ts l m' chunks blocks C B.
Proof.
  destruct (sweep_normal_spec m ts l Hreg) as (m' & chunks & blocks & marked & freed & E & Hsw).
  eexists m', chunks, blocks, marked, freed, _, _. split; [exact E|by apply swept_result].
Qed.
