(* ===== verification/GcCut.v ===== *)
(** * Local changes of the small object area (src/runtime/gc.c, lines 1060-1341)

    The area with its current free area as one more free chunk; a chunk that
    is cut into an object and the rest; a free block that becomes a used one;
    a region that is added. *)

From S2P Require Import Prelude GcHeap GcTiling GcFixed GcMark GcReach GcObjects GcSmall GcChain GcGaps GcSweep GcArea.

#[local] Opaque block_list BLOCK_FUEL.

(** ** Tilings that change in one chunk *)

Lemma tiled_ext m m' bound a L : (forall h, h ∈ L -> acc m' h /\ mask_size (rd m' h) = mask_size (rd m h)) ->
  tiled m bound a L -> tiled m' bound a L.
Proof.
  intros He Ht. induction Ht as [|h l A N Hb T IH]; [constructor|]. destruct (He h ltac:(left)) as [A' E].
  constructor; [done|by rewrite E|done|]. rewrite E. apply IH. intros x Hx. apply He. by right.
Qed.

Lemma tiled_end_le m bound a L x : tiled m bound a L -> x ∈ L -> x + mask_size (rd m x) <= bound.
Proof.
  induction 1 as [|h l A N Hb T IH]; [by intros ?%elem_of_nil|]. intros [->|Hx]%elem_of_cons; [|by apply IH].
  pose proof (tiled_le _ _ _ _ T). lia.
Qed.

Lemma tiled_positive m bound a L x : tiled m bound a L -> x ∈ L -> 0 < mask_size (rd m x).
Proof. induction 1 as [|h l A N Hb T IH]; [by intros ?%elem_of_nil|]. by intros [->|?]%elem_of_cons; [|apply IH]. Qed.

(** The chunk [c] of [n] bytes, cut after [k] bytes. *)
Definition cut (c k n : Z) (L : list Z) : list Z :=
  flat_map (fun h => if h =? c then (if k <? n then [c; c + k] else [c]) else [h]) L.

Lemma cut_id c k n L : c ∉ L -> cut c k n L = L.
Proof.
  unfold cut. induction L as [|h L IH]; [done|]. intros [Hne Hin]%not_elem_of_cons. cbn [flat_map].
  destruct (Z.eqb_spec h c); [congruence|]. cbn [app]. by rewrite IH.
Qed.

Lemma elem_of_cut c k n L x : c ∈ L -> x ∈ cut c k n L <-> x ∈ L \/ (k < n /\ x = c + k).
Proof.
  intros Hc. unfold cut. rewrite elem_of_flat_map. split.
  - intros (h & Hh & Hx). destruct (Z.eqb_spec h c) as [->|]; [|by apply list_elem_of_singleton in Hx as ->; left].
    destruct (Z.ltb_spec k n).
    + apply elem_of_cons in Hx as [->|Hx]; [by left|]. apply list_elem_of_singleton in Hx as ->. by right.
    + apply list_elem_of_singleton in Hx as ->. by left.
  - intros [Hx|[Hk ->]].
    + exists x. split; [done|]. destruct (Z.eqb_spec x c) as [->|]; [|by apply list_elem_of_singleton].
      destruct (k <? n); left.
    + exists c. split; [done|]. rewrite Z.eqb_refl. destruct (Z.ltb_spec k n); [|lia]. right. left.
Qed.

Lemma tiled_cut m m' bound a L c k n : tiled m bound a L -> c ∈ L -> mask_size (rd m c) = n -> 0 < k <= n ->
  ranges m' = ranges m -> (forall x, ~ (c <= x < c + n) -> rd m' x = rd m x) -> mask_size (rd m' c) = k ->
  (k < n -> acc m' (c + k) /\ mask_size (rd m' (c + k)) = n - k) -> tiled m' bound a (cut c k n L).
Proof.
  intros Ht Hc Hn Hk Hr He H1 H2. assert (Hacc : forall x, acc m x -> acc m' x) by (unfold acc; by rewrite Hr).
  induction Ht as [|h l A N Hb T IH]; [by apply elem_of_nil in Hc|]. apply elem_of_cons in Hc as [->|Hc].
  - assert (Htail : tiled m' bound (h + n) l).
    { rewrite <- Hn. eapply tiled_ext; [|exact T]. intros x Hx. destruct (tiled_range _ _ _ _ _ T Hx) as (? & _ & ?).
      split; [by apply Hacc|]. by rewrite He by lia. }
    assert (Hni : h ∉ l) by (intros Hx; destruct (tiled_range _ _ _ _ _ T Hx); lia).
    unfold cut. cbn [flat_map]. rewrite Z.eqb_refl. fold (cut h k n l). rewrite (cut_id h k n l Hni).
    destruct (Z.ltb_spec k n) as [Hlt|Hge]; cbn [app].
    + destruct (H2 Hlt) as [A2 E2]. pose proof (tiled_le _ _ _ _ Htail). constructor; [by apply Hacc|lia|done|]. rewrite H1.
      constructor; [done|lia|lia|]. rewrite E2. by replace (h + k + (n - k)) with (h + n) by lia.
    + constructor; [by apply Hacc|lia|done|]. rewrite H1. by replace k with n by lia.
  - unfold cut. cbn [flat_map]. fold (cut c k n l). destruct (tiled_range _ _ _ _ _ T Hc) as (Hrange & _).
    destruct (Z.eqb_spec h c); [lia|]. cbn [app]. constructor; [by apply Hacc| |done|]; rewrite He by lia; [done|by apply IH].
Qed.

(** ** Used blocks *)

(** The headers of the chunks of a used block, when no collection is running. *)
Definition head_ok (w : Z) : Prop :=
  Z.testbit w 0 = false /\ (is_free_word w = true \/ mask_size w < GC_MAX_SMALL_OBJECT_SIZE).

Definition block_ok (m : memory) (b : Z) : Prop :=
  exists L, tiled m (b + 4092) (b + 4) L /\ forall h, h ∈ L -> head_ok (rd m h).

Definition same_block (m m' : memory) (b : Z) : Prop :=
  forall a, b + 4 <= a < b + 4092 -> rd m' a = rd m a.

Definition more_acc (m m' : memory) : Prop := forall a, acc m a -> acc m' a.

Lemma block_ok_same m m' b : block_ok m b -> more_acc m m' -> same_block m m' b ->
  block_ok m' b /\ block_list m' b = block_list m b.
Proof.
  intros (L & Ht & Hh) Ha Hs. assert (He : forall h, h ∈ L -> rd m' h = rd m h).
  { intros h Hin. destruct (tiled_range _ _ _ _ _ Ht Hin). apply Hs. lia. }
  assert (Ht' : tiled m' (b + 4092) (b + 4) L).
  { eapply tiled_ext; [|exact Ht]. intros h Hin. rewrite He by done. split; [|done].
    destruct (tiled_range _ _ _ _ _ Ht Hin) as (_ & _ & ?). by apply Ha. }
  split; [exists L; split; [done|]|by rewrite (block_list_tiled m b L), (block_list_tiled m' b L)].
  intros h Hin. rewrite He by done. by apply Hh.
Qed.

Lemma area_block_ok m l C B b : area m l C B -> used_block l B b -> block_ok m b.
Proof. intros Ha Hu. exists (block_list m b). split; [by apply (ar_block _ _ _ _ Ha)|]. intros h Hh. by apply (ar_head _ _ _ _ Ha b). Qed.

(** A free chunk of [n] bytes at [c]. *)
Definition chunk_at (m : memory) (l : list region) (B : list (Z * Z)) (c n : Z) : Prop :=
  exists b, used_block l B b /\ c ∈ block_list m b /\ rd m c = free_header n /\ chunk_fits n.

Definition group_ok (m : memory) (l : list region) (g : Z * Z) : Prop :=
  exists r, r ∈ l /\ rstart r <= g.1 /\ g.1 + g.2 <= rend r /\ g.1 mod 4096 = 0 /\ 0 < g.2 /\ g.2 mod 4096 = 0 /\ rd m g.1 = g.2.

Lemma area_intro m l C B : regions_shape l -> (forall r, r ∈ l -> accessible m (rstart r) (rend r)) ->
  (forall g, g ∈ B -> group_ok m l g) -> StronglySorted (fun g g' => g.1 + g.2 <= g'.1) B ->
  (forall b, used_block l B b -> block_ok m b) -> (forall c, c ∈ C -> chunk_at m l B c.1 c.2) ->
  StronglySorted (fun c c' => c'.2 <= c.2) C -> NoDup C.*1 -> area m l C B.
Proof.
  intros H1 H2 H3 H4 H5 H6 H7 H8. split; try done.
  - intros b Hu. destruct (H5 b Hu) as (L & Ht & _). by rewrite (block_list_tiled m b L Ht).
  - intros b h Hu Hh. destruct (H5 b Hu) as (L & Ht & Hhd). rewrite (block_list_tiled m b L Ht) in Hh. by apply Hhd.
Qed.

(** Two chunks of used blocks. *)
Lemma chunks_apart m l C B b b' x y : area m l C B -> used_block l B b -> used_block l B b' -> x ∈ block_list m b ->
  y ∈ block_list m b' -> x <> y -> x + mask_size (rd m x) <= y \/ y + mask_size (rd m y) <= x.
Proof.
  intros Ha Hu Hu' Hx Hy Hne. destruct (used_bounds _ _ _ (ar_shape _ _ _ _ Ha) Hu) as (Hb & _), (used_bounds _ _ _ (ar_shape _ _ _ _ Ha) Hu') as (Hb' & _).
  pose proof (ar_block _ _ _ _ Ha b Hu) as Ht. pose proof (ar_block _ _ _ _ Ha b' Hu') as Ht'.
  destruct (tiled_range _ _ _ _ _ Ht Hx) as (? & _), (tiled_range _ _ _ _ _ Ht' Hy) as (? & _).
  pose proof (tiled_end_le _ _ _ _ _ Ht Hx). pose proof (tiled_end_le _ _ _ _ _ Ht' Hy).
  destruct (Z.lt_trichotomy b b') as [|[<-|]]; [dmlia| |dmlia].
  destruct (Z.lt_trichotomy x y) as [|[|]]; [left; by eapply tiled_apart|done|right; by eapply tiled_apart].
Qed.

(** ** The lists of an area *)

Record lists_ok (m : memory) (l : list region) (C B : list (Z * Z)) (chunks blocks : Z) : Prop := {
  lo_area : area m l C B;
  lo_chunks : chain m chunks C.*1;
  lo_blocks : chain m blocks B.*1 }.

Definition all_objects : Z -> Prop := fun _ => True.

(** Objects that satisfy [P] survive a change with their headers and contents. *)
Definition survive (P : Z -> Prop) (m : memory) (l : list region) (B : list (Z * Z))
    (m' : memory) (l' : list region) (B' : list (Z * Z)) : Prop :=
  forall p, P p -> is_obj m l B p -> is_obj m' l' B' p /\
    forall a, p - 4 <= a < p - 4 + mask_size (rd m (p - 4)) -> a mod 4 = 0 -> rd m' a = rd m a.

Lemma obj_header m l C B p : area m l C B -> is_obj m l B p -> (p - 4) mod 4 = 0 /\ 0 < mask_size (rd m (p - 4)) /\ acc m (p - 4).
Proof.
  intros Ha (b & Hu & Hin & _). pose proof (ar_block _ _ _ _ Ha b Hu) as Ht. destruct (used_bounds _ _ _ (ar_shape _ _ _ _ Ha) Hu) as (Hb & _).
  destruct (tiled_range _ _ _ _ _ Ht Hin) as (? & ? & ?). split_and!; [dmlia|by eapply tiled_positive|done].
Qed.

Lemma survive_refl P m l B : survive P m l B m l B.
Proof. intros p _ Hp. split; [exact Hp|]. intros a _ _. reflexivity. Qed.

Lemma survive_trans P m l C B m1 l1 B1 m2 l2 B2 : area m l C B -> survive P m l B m1 l1 B1 -> survive P m1 l1 B1 m2 l2 B2 ->
  survive P m l B m2 l2 B2.
Proof.
  intros Ha H1 H2 p Hp Ho. destruct (obj_header _ _ _ _ _ Ha Ho) as (Hm & Hs & _). destruct (H1 p Hp Ho) as [O1 E1]. destruct (H2 p Hp O1) as [O2 E2].
  split; [done|]. intros a Hr Hm4. rewrite E2; [by apply E1| |done]. by rewrite E1 by (done || lia).
Qed.

(** What is used stays used, with the same contents of its blocks. *)
Lemma survive_same P m l C B m' l' B' : area m l C B -> more_acc m m' -> (forall b, used_block l B b -> used_block l' B' b /\ same_block m m' b) ->
  survive P m l B m' l' B'.
Proof.
  intros Ha Hacc Hb p _ (b & Hu & Hin & Hf). destruct (Hb b Hu) as [Hu' Hs].
  destruct (block_ok_same _ _ _ (area_block_ok _ _ _ _ _ Ha Hu) Hacc Hs) as [_ E].
  pose proof (ar_block _ _ _ _ Ha b Hu) as Ht. destruct (tiled_range _ _ _ _ _ Ht Hin) as (? & _).
  pose proof (tiled_end_le _ _ _ _ _ Ht Hin). split.
  - exists b. split; [done|]. rewrite E, Hs by lia. exact (conj Hin Hf).
  - intros a Ha' _. apply Hs. lia.
Qed.

(** ** The current free area *)

(** With its header written, the free area from [c] on is a chunk of a used
    block that is not on the list. *)
Record ready (m : memory) (l : list region) (C B : list (Z * Z)) (chunks blocks c n : Z) : Prop := {
  re_lists : lists_ok (upd m c (free_header n)) l C B chunks blocks;
  re_block : exists b, used_block l B b /\ c ∈ block_list (upd m c (free_header n)) b;
  re_fits : chunk_fits n;
  re_listed : c ∉ C.*1 }.

Definition closed (m : memory) (cursor bound : Z) : memory :=
  if cursor <? bound then upd m cursor (free_header (bound - cursor)) else m.

Definition open_ok (m : memory) (l : list region) (C B : list (Z * Z)) (chunks blocks cursor bound : Z) : Prop :=
  if cursor <? bound then ready m l C B chunks blocks cursor (bound - cursor) else lists_ok m l C B chunks blocks.

Lemma open_lists m l C B chunks blocks cursor bound : open_ok m l C B chunks blocks cursor bound ->
  lists_ok (closed m cursor bound) l C B chunks blocks.
Proof. unfold open_ok, closed. destruct (cursor <? bound); [intros H; apply H|done]. Qed.

Lemma object_word k : 8 <= k < 1024 -> k mod 8 = 0 -> mask_size k = k /\ is_free_word k = false /\ head_ok k.
Proof.
  intros Hk Hm. unfold head_ok, is_free_word. rewrite (mask_size_id k Hm), !low_bits_small by (done || lia).
  split_and!; [done|done|done|right; unfold GC_MAX_SMALL_OBJECT_SIZE; lia].
Qed.

Lemma free_word n : chunk_fits n -> mask_size (free_header n) = n /\ is_free_word (free_header n) = true /\ head_ok (free_header n).
Proof. intros [_ Hm]. destruct (free_header_size n Hm) as (H1 & H2 & H3). unfold head_ok, is_free_word. auto. Qed.

Section Cut.
Context (m : memory) (l : list region) (C B : list (Z * Z)) (chunks blocks c n : Z).
Hypothesis (Hre : ready m l C B chunks blocks c n).
Abbreviation mr := (upd m c (free_header n)).

Lemma cut_area : area mr l C B.
Proof. apply Hre. Qed.

Lemma cut_size : mask_size (rd mr c) = n.
Proof. rewrite rd_upd_eq. apply free_word, Hre. Qed.

Lemma cut_bounds b : used_block l B b -> c ∈ block_list mr b -> b mod 4096 = 0 /\ b + 4 <= c /\ c + n <= b + 4092 /\ (c - b) mod 8 = 4.
Proof.
  intros Hu Hin. destruct (used_bounds _ _ _ (ar_shape _ _ _ _ cut_area) Hu) as (Hb & _). pose proof (ar_block _ _ _ _ cut_area b Hu) as Ht.
  destruct (tiled_range _ _ _ _ _ Ht Hin) as (? & ? & _). pose proof (tiled_end_le _ _ _ _ _ Ht Hin) as He. rewrite cut_size in He.
  split_and!; [done|lia|lia|dmlia].
Qed.

(** The new object is apart from those there were. *)
Lemma cut_apart q : is_obj mr l B q -> q - 4 + mask_size (rd mr (q - 4)) <= c \/ c + n <= q - 4.
Proof.
  intros (b & Hu & Hin & Hf). destruct (re_block _ _ _ _ _ _ _ _ Hre) as (b0 & Hu0 & Hc0).
  assert (Hne : q - 4 <> c) by (intros E; rewrite E, rd_upd_eq in Hf; destruct (free_word n (re_fits _ _ _ _ _ _ _ _ Hre)) as (_ & ? & _); congruence).
  pose proof (chunks_apart _ _ _ _ _ _ _ _ cut_area Hu Hu0 Hin Hc0 Hne) as Hap. rewrite cut_size in Hap. exact Hap.
Qed.

Context (k : Z) (m2 : memory).
Hypothesis (Hk : 8 <= k <= n) (Hk8 : k mod 8 = 0) (Hsmall : k < 1024).
Hypothesis (Hr2 : ranges m2 = ranges m) (Hc2 : rd m2 c = k) (Hout2 : forall x, ~ (c <= x < c + n) -> rd m2 x = rd m x).

Abbreviation m' := (closed m2 (c + k) (c + n)).

Lemma cut_ranges : ranges m' = ranges mr.
Proof. unfold closed. destruct (_ <? _); done. Qed.

Lemma cut_outside x : ~ (c <= x < c + n) -> rd m' x = rd mr x.
Proof.
  intros Hx. rewrite (rd_upd_ne m) by lia. unfold closed. destruct (Z.ltb_spec (c + k) (c + n)); [rewrite rd_upd_ne by lia|]; by apply Hout2.
Qed.

Lemma cut_head : rd m' c = k.
Proof. unfold closed. destruct (_ <? _); [rewrite rd_upd_ne by lia|]; done. Qed.

Lemma cut_rest : k < n -> rd m' (c + k) = free_header (n - k) /\ chunk_fits (n - k).
Proof.
  intros Hlt. unfold closed. destruct (Z.ltb_spec (c + k) (c + n)); [|lia]. rewrite rd_upd_eq.
  destruct (re_fits _ _ _ _ _ _ _ _ Hre) as [H1 H2]. split; [f_equal; lia|split; dmlia].
Qed.

Lemma cut_acc : more_acc mr m'.
Proof. intros a. unfold acc. by rewrite cut_ranges. Qed.

Lemma cut_tiled b : used_block l B b -> c ∈ block_list mr b -> tiled m' (b + 4092) (b + 4) (cut c k n (block_list mr b)).
Proof.
  intros Hu Hin. pose proof (ar_block _ _ _ _ cut_area b Hu) as Ht. destruct (cut_bounds b Hu Hin) as (Hb & ? & ? & ?).
  eapply tiled_cut; [exact Ht|exact Hin|exact cut_size|lia|exact cut_ranges|exact cut_outside| |].
  - rewrite cut_head. apply object_word; [lia|done].
  - intros Hlt. destruct (cut_rest Hlt) as [-> Hfit]. split; [|by apply free_word]. apply cut_acc.
    destruct (used_bounds _ _ _ (ar_shape _ _ _ _ cut_area) Hu) as (_ & _ & r & Hr & ? & ?).
    apply (ar_acc _ _ _ _ cut_area r Hr); [lia|dmlia].
Qed.

Lemma cut_other b b' : used_block l B b -> c ∈ block_list mr b -> used_block l B b' -> b' <> b -> same_block mr m' b'.
Proof.
  intros Hu Hin Hu' Hne a Ha. apply cut_outside. destruct (cut_bounds b Hu Hin) as (Hb & ? & ? & _).
  destruct (used_bounds _ _ _ (ar_shape _ _ _ _ cut_area) Hu') as (Hb' & _). intros Hc. apply Hne. apply (blocks_apart _ _ a); [done|done|lia|lia].
Qed.

(** The chunks other than [c] are where they were. *)
Lemma cut_member b x : used_block l B b -> x ∈ block_list mr b -> x ∈ block_list m' b /\
  (x <> c -> forall a, x <= a < x + mask_size (rd mr x) -> rd m' a = rd mr a).
Proof.
  intros Hu Hx. destruct (re_block _ _ _ _ _ _ _ _ Hre) as (b0 & Hu0 & Hc0). split.
  - destruct (Z.eq_dec b b0) as [->|Hne].
    + rewrite (block_list_tiled _ _ _ (cut_tiled b0 Hu Hc0)). apply elem_of_cut; [exact Hc0|]. left. exact Hx.
    + destruct (block_ok_same mr m' b) as [_ ->]; [by eapply area_block_ok, Hu; apply cut_area|apply cut_acc|by eapply cut_other|]. exact Hx.
  - intros Hne a Ha. apply cut_outside. pose proof (chunks_apart _ _ _ _ _ _ _ _ cut_area Hu Hu0 Hx Hc0 Hne) as Hap. rewrite cut_size in Hap. lia.
Qed.

Lemma cut_block_ok b : used_block l B b -> block_ok m' b.
Proof.
  intros Hu. destruct (re_block _ _ _ _ _ _ _ _ Hre) as (b0 & Hu0 & Hc0). destruct (Z.eq_dec b b0) as [->|Hne].
  - exists (cut c k n (block_list mr b0)). split; [by apply cut_tiled|]. intros h [Hh|[Hlt ->]]%elem_of_cut; [| |exact Hc0].
    + destruct (Z.eq_dec h c) as [->|Hne]; [rewrite cut_head; apply object_word; [lia|done]|].
      destruct (cut_member b0 h Hu Hh) as [_ He]. destruct (tiled_range _ _ _ _ _ (ar_block _ _ _ _ cut_area b0 Hu) Hh) as (? & _).
      pose proof (tiled_positive _ _ _ _ _ (ar_block _ _ _ _ cut_area b0 Hu) Hh).
      rewrite He by (done || lia). by apply (ar_head _ _ _ _ cut_area b0).
    + destruct (cut_rest Hlt) as [-> Hfit]. by apply free_word.
  - destruct (block_ok_same mr m' b) as [? _]; [by eapply area_block_ok, Hu; apply cut_area|apply cut_acc|by eapply cut_other|]. done.
Qed.

Lemma cut_lists : lists_ok m' l C B chunks blocks.
Proof.
  pose proof cut_area as Ha. assert (Hnode : forall x, x ∈ C.*1 -> rd m' x = rd mr x /\ rd m' (x + 4) = rd mr (x + 4)).
  { intros x ([y s] & -> & Hc)%list_elem_of_fmap. destruct (ar_chunk _ _ _ _ Ha _ Hc) as (b & Hu & Hin & E & Hf). cbn in *.
    destruct (cut_member b y Hu Hin) as [_ He]. rewrite E in He. destruct (free_word s Hf) as (Es & _). rewrite Es in He. destruct Hf as [? ?].
    assert (y <> c) by (intros ->; apply (re_listed _ _ _ _ _ _ _ _ Hre); apply list_elem_of_fmap; by exists (c, s)).
    rewrite !He by (done || lia). done. }
  assert (Hgroup : forall g, g ∈ B -> rd m' g.1 = rd mr g.1 /\ rd m' (g.1 + 4) = rd mr (g.1 + 4)).
  { intros g Hg. destruct (re_block _ _ _ _ _ _ _ _ Hre) as (b0 & Hu0 & Hc0). destruct (cut_bounds b0 Hu0 Hc0) as (Hb & ? & ? & _).
    destruct (group_apart _ _ _ _ _ _ Ha Hu0 Hg); rewrite !cut_outside by lia; done. }
  split.
  - apply area_intro; try apply Ha.
    + intros r Hr a Hra Hm. apply cut_acc. by apply (ar_acc _ _ _ _ Ha r Hr).
    + intros g Hg. destruct (ar_group _ _ _ _ Ha g Hg) as (r & ? & ? & ? & ? & ? & ? & Er). exists r. destruct (Hgroup g Hg) as [-> _]. split_and!; done.
    + apply cut_block_ok.
    + intros [x s] Hc. destruct (ar_chunk _ _ _ _ Ha _ Hc) as (b & Hu & Hin & E & Hf). exists b. cbn in *.
      destruct (Hnode x) as [-> _]; [apply list_elem_of_fmap; by exists (x, s)|]. split; [exact Hu|]. split; [by apply cut_member|done].
  - eapply chain_ext; [exact cut_ranges| |apply Hre]. intros a Hin. by apply Hnode.
  - eapply chain_ext; [exact cut_ranges| |apply Hre]. intros a (g & -> & Hg)%list_elem_of_fmap. by apply Hgroup.
Qed.

Lemma cut_open : open_ok m2 l C B chunks blocks (c + k) (c + n).
Proof.
  pose proof cut_lists as Hl. unfold open_ok, closed in *. destruct (Z.ltb_spec (c + k) (c + n)) as [Hlt|]; [|exact Hl].
  destruct (cut_rest ltac:(lia)) as [E Hfit]. replace (c + n - (c + k)) with (n - k) in * by lia.
  destruct (re_block _ _ _ _ _ _ _ _ Hre) as (b & Hu & Hc). pose proof (cut_tiled b Hu Hc) as Ht.
  assert (Hin : c + k ∈ cut c k n (block_list mr b)) by (apply elem_of_cut; [exact Hc|]; right; lia).
  split; [exact Hl| |exact Hfit|].
  - exists b. split; [exact Hu|]. unfold closed in Ht. destruct (Z.ltb_spec (c + k) (c + n)); [|lia].
    replace (c + n - (c + k)) with (n - k) in Ht by lia. by rewrite (block_list_tiled _ _ _ Ht).
  - intros ([x s] & Ex & Hx)%list_elem_of_fmap. cbn in Ex. subst x. destruct (ar_chunk _ _ _ _ cut_area _ Hx) as (b' & Hu' & Hin' & Ex & Hf). cbn in *.
    assert (Hne : c + k <> c) by lia. pose proof (chunks_apart _ _ _ _ _ _ _ _ cut_area Hu' Hu Hin' Hc Hne) as Hap.
    rewrite Ex, cut_size in Hap. destruct (free_word s Hf) as (Es & _). rewrite Es in Hap. destruct Hf. lia.
Qed.

Lemma cut_object : is_obj m' l B (c + 4).
Proof.
  destruct (re_block _ _ _ _ _ _ _ _ Hre) as (b & Hu & Hc). exists b. replace (c + 4 - 4) with c by lia. rewrite cut_head.
  split; [exact Hu|]. split; [by apply cut_member|]. by apply object_word; [lia|].
Qed.

Lemma cut_survive : survive all_objects mr l B m' l B.
Proof.
  intros p _ (b & Hu & Hin & Hf). destruct (cut_member b _ Hu Hin) as [Hin' He].
  assert (Hne : p - 4 <> c) by (intros E; rewrite E, rd_upd_eq in Hf; destruct (free_word n (re_fits _ _ _ _ _ _ _ _ Hre)) as (_ & ? & _); congruence).
  destruct (obj_header mr l C B p cut_area) as (_ & Hpos & _); [exists b; split; [exact Hu|exact (conj Hin Hf)]|]. split.
  - exists b. rewrite (He Hne) by lia. split; [exact Hu|exact (conj Hin' Hf)].
  - intros a Ha _. by apply He.
Qed.

End Cut.

(** ** Changes outside the used blocks *)

Lemma chain_more m m' p L : more_acc m m' -> (forall a, a ∈ L -> rd m' (a + 4) = rd m (a + 4)) -> chain m p L -> chain m' p L.
Proof.
  intros Hacc. revert p. induction L as [|a L IH]; intros p He; simpl; [done|].
  intros (-> & (Ha & A1 & A2) & Hc). split; [done|]. split; [split; [done|split; by apply Hacc]|].
  rewrite He by left. apply IH; [|done]. intros x Hx. apply He. by right.
Qed.

Lemma chunk_node m l C B x : area m l C B -> x ∈ C.*1 -> exists b, used_block l B b /\ x ∈ block_list m b /\ b + 4 <= x /\ x + 8 <= b + 4092.
Proof.
  intros Ha ([y s] & -> & Hc)%list_elem_of_fmap. destruct (ar_chunk _ _ _ _ Ha _ Hc) as (b & Hu & Hin & _). cbn in *.
  destruct (tiled_range _ _ _ _ _ (ar_block _ _ _ _ Ha b Hu) Hin) as (? & _). exists b. split; [exact Hu|]. split; [exact Hin|lia].
Qed.

Lemma chain_same m l C B m' p : area m l C B -> more_acc m m' -> (forall b, used_block l B b -> same_block m m' b) ->
  chain m p C.*1 -> chain m' p C.*1.
Proof.
  intros Ha Hacc Hs. apply chain_more; [done|]. intros x (b & Hu & _ & ? & ?)%(chunk_node _ _ _ _ _ Ha). apply (Hs b Hu). lia.
Qed.

Lemma chunk_at_same m l C B m' l' B' c : area m l C B -> more_acc m m' -> c ∈ C ->
  (forall b, used_block l B b -> used_block l' B' b /\ same_block m m' b) -> chunk_at m' l' B' c.1 c.2.
Proof.
  intros Ha Hacc Hc Hs. destruct (ar_chunk _ _ _ _ Ha _ Hc) as (b & Hu & Hin & E & Hf). destruct (Hs b Hu) as [Hu' Hsame]. exists b.
  destruct (block_ok_same m m' b (area_block_ok _ _ _ _ _ Ha Hu) Hacc Hsame) as [_ ->].
  destruct (tiled_range _ _ _ _ _ (ar_block _ _ _ _ Ha b Hu) Hin) as (? & _). rewrite (Hsame c.1) by lia. done.
Qed.

(** A chunk is taken from the list. *)
Lemma take_chunk m l c n C B chunks blocks : lists_ok m l ((c, n) :: C) B chunks blocks ->
  ready m l C B (rd m (c + 4)) blocks c n /\ survive all_objects m l B (upd m c (free_header n)) l B.
Proof.
  intros [Ha Hc Hb]. cbn in Hc. destruct Hc as (-> & Hn & Hc). destruct (ar_chunk _ _ _ _ Ha (c, n) ltac:(left)) as (b & Hu & Hin & E & Hf). cbn in *.
  assert (Hrd : forall a, rd (upd m c (free_header n)) a = rd m a) by (intros a; rewrite rd_upd; destruct (Z.eqb_spec c a) as [->|]; done).
  assert (Hsame : forall b, used_block l B b -> used_block l B b /\ same_block m (upd m c (free_header n)) b) by (intros b' Hu'; split; [exact Hu'|intros a _; apply Hrd]).
  assert (Hacc : more_acc m (upd m c (free_header n))) by (intros a; exact id).
  pose proof (ar_nodup _ _ _ _ Ha) as Hnd. cbn in Hnd. apply NoDup_cons in Hnd as [Hni Hnd].
  pose proof (ar_chunks _ _ _ _ Ha) as Hsort. apply StronglySorted_inv in Hsort as [Hsort _]. split; [split; [split| |exact Hf|exact Hni]|].
  - apply area_intro; try apply Ha; try done.
    + intros g Hg. destruct (ar_group _ _ _ _ Ha g Hg) as (r & Hr). exists r. by rewrite Hrd.
    + intros b' Hu'. destruct (block_ok_same _ _ _ (area_block_ok _ _ _ _ _ Ha Hu') Hacc (proj2 (Hsame b' Hu'))) as [H _]. exact H.
    + intros c' Hc'. apply (chunk_at_same m l ((c, n) :: C) B); [exact Ha|exact Hacc|by right|exact Hsame].
  - eapply chain_more; [exact Hacc| |exact Hc]. intros a _. apply Hrd.
  - eapply chain_more; [exact Hacc| |exact Hb]. intros a _. apply Hrd.
  - exists b. split; [exact Hu|]. destruct (block_ok_same _ _ _ (area_block_ok _ _ _ _ _ Ha Hu) Hacc (proj2 (Hsame b Hu))) as [_ ->]. exact Hin.
  - by eapply survive_same.
Qed.

(** ** A block is taken from a group *)

Section NewBlock.
Context (m : memory) (l : list region) (C : list (Z * Z)) (g n : Z) (B : list (Z * Z)) (chunks blocks : Z).
Hypothesis (Hl : lists_ok m l C ((g, n) :: B) chunks blocks).
Context (m1 : memory) (B1 : list (Z * Z)) (blocks1 : Z).

(** What [get_small_block] leaves of the group. *)
Hypothesis (Hrest : (n = 4096 /\ m1 = m /\ B1 = B /\ blocks1 = rd m (g + 4)) \/
  (4096 < n /\ m1 = upd (upd m (g + 4096) (n - 4096)) (g + 4096 + 4) (rd m (g + 4)) /\
   B1 = (g + 4096, n - 4096) :: B /\ blocks1 = g + 4096)).

Abbreviation Bg := ((g, n) :: B).
Abbreviation mf := (upd m1 (g + 4) (free_header 4088)).

Lemma taken_area : area m l C Bg.
Proof. apply Hl. Qed.

Lemma taken_group : exists r, r ∈ l /\ rstart r <= g /\ g + n <= rend r /\ g mod 4096 = 0 /\ 4096 <= n /\ n mod 4096 = 0 /\ rd m g = n /\ 0 < g.
Proof.
  clear m1 B1 blocks1 Hrest.
  destruct (ar_group _ _ _ _ taken_area (g, n) ltac:(left)) as (r & Hr & ? & ? & ? & ? & ? & ?). cbn in *.
  destruct (rs_region _ (ar_shape _ _ _ _ taken_area) r Hr) as (? & _). exists r. split; [exact Hr|]. split_and!; try done; dmlia.
Qed.

Lemma taken_after g' : g' ∈ B -> g + n <= g'.1.
Proof.
  clear m1 B1 blocks1 Hrest.
  intros Hg. pose proof (ar_groups _ _ _ _ taken_area) as Hs. apply StronglySorted_inv in Hs as [_ Hf].
  rewrite Forall_forall in Hf. by apply (Hf g').
Qed.

Lemma taken_rd a : a <> g + 4 -> (a < g + 4096 \/ g + n <= a) -> rd mf a = rd m a.
Proof.
  intros H1 H2. rewrite rd_upd_ne by lia. destruct taken_group as (r & Hr & ? & ? & ? & ? & ? & ? & ?).
  destruct Hrest as [(-> & -> & _)|(Hn & -> & _)]; [done|]. rewrite !rd_upd_ne by dmlia. done.
Qed.

Lemma taken_more : more_acc m mf.
Proof. intros a. unfold acc. destruct Hrest as [(_ & -> & _)|(_ & -> & _)]; exact id. Qed.

Lemma taken_in_group b : b mod 4096 = 0 -> in_group B1 b <-> in_group Bg b /\ b <> g.
Proof.
  intros Hb. destruct taken_group as (r & _ & ? & ? & Hg & Hn & Hn' & _). unfold in_group. split.
  - intros (x & Hx & Hr). assert (Hcase : x ∈ B \/ x = (g + 4096, n - 4096)).
    { destruct Hrest as [(_ & _ & -> & _)|(_ & _ & -> & _)]; [by left|]. apply elem_of_cons in Hx as [->|Hx]; [by right|by left]. }
    destruct Hcase as [Hx'| ->]; [pose proof (taken_after x Hx')|cbn in *].
    + split; [exists x; split; [by right|exact Hr]|lia].
    + split; [exists (g, n); split; [left|cbn; lia]|lia].
  - intros [(x & [->|Hx]%elem_of_cons & Hr) Hne]; cbn in *.
    + destruct Hrest as [(-> & _)|(Hlt & _ & -> & _)]; [dmlia|]. exists (g + 4096, n - 4096). split; [left|cbn; dmlia].
    + exists x. split; [|exact Hr]. destruct Hrest as [(_ & _ & -> & _)|(_ & _ & -> & _)]; [done|by right].
Qed.

Lemma taken_used b : used_block l B1 b <-> used_block l Bg b \/ b = g.
Proof.
  destruct taken_group as (r & Hr & ? & ? & Hg & Hn & Hn' & _). split.
  - intros (r' & pos & Hr' & Hp & -> & Hni). destruct (block_in_region l r' pos (ar_shape _ _ _ _ taken_area) Hr' Hp) as (_ & _ & Hm & _).
    destruct (Z.eq_dec (block_start r' pos) g) as [->|Hne]; [by right|]. left. exists r', pos. split_and!; try done; [lia..|].
    intros Hin. apply Hni. by apply taken_in_group.
  - intros [(r' & pos & Hr' & Hp & -> & Hni)| ->].
    + destruct (block_in_region l r' pos (ar_shape _ _ _ _ taken_area) Hr' Hp) as (_ & _ & Hm & _). exists r', pos. split_and!; try done; [lia..|].
      intros Hin. apply Hni. by apply taken_in_group in Hin as [? _].
    + destruct (block_of l r g (ar_shape _ _ _ _ taken_area) Hr) as (pos & Hp & E); [lia|done|]. exists r, pos.
      split_and!; try done; [lia..|]. intros [_ ?]%taken_in_group; done.
Qed.

Lemma taken_same b : used_block l Bg b -> used_block l B1 b /\ same_block m mf b.
Proof.
  intros Hu. split; [apply taken_used; by left|]. destruct taken_group as (r & Hr & ? & ? & Hg & Hn & Hn' & _).
  destruct (used_bounds _ _ _ (ar_shape _ _ _ _ taken_area) Hu) as (Hb & _). destruct Hu as (r' & pos & _ & _ & _ & Hni).
  assert (~ (g <= b < g + n)) by (intros Hr'; apply Hni; exists (g, n); split; [left|exact Hr']).
  intros a Ha. apply taken_rd; dmlia.
Qed.

Lemma taken_fresh : tiled mf (g + 4092) (g + 4) [g + 4].
Proof.
  destruct taken_group as (r & Hr & ? & ? & Hg & Hn & Hn' & _). assert (Hf : chunk_fits 4088) by (split; [lia|done]).
  destruct (free_word 4088 Hf) as (Es & _). constructor; [|rewrite rd_upd_eq, Es; lia|lia|rewrite rd_upd_eq, Es].
  - apply taken_more, (ar_acc _ _ _ _ taken_area r Hr); [lia|dmlia].
  - replace (g + 4 + 4088) with (g + 4092) by lia. constructor.
Qed.

Lemma taken_groups : (forall x, x ∈ B1 -> group_ok mf l x) /\ StronglySorted (fun x y => x.1 + x.2 <= y.1) B1.
Proof.
  destruct taken_group as (r & Hr & ? & ? & Hg & Hn & Hn' & Eg & Hpos).
  pose proof (ar_groups _ _ _ _ taken_area) as Hs. apply StronglySorted_inv in Hs as [Hs Hf].
  assert (HB : forall x, x ∈ B -> group_ok mf l x).
  { intros x Hx. pose proof (taken_after x Hx). destruct (ar_group _ _ _ _ taken_area x ltac:(by right)) as (r' & ? & ? & ? & ? & ? & ? & ?).
    exists r'. rewrite taken_rd by lia. split_and!; done. }
  destruct Hrest as [(_ & _ & -> & _)|(Hlt & Em & -> & _)]; [done|]. split.
  - intros x [->|Hx]%elem_of_cons; [|by apply HB]. exists r. cbn [fst snd]. rewrite rd_upd_ne by lia. rewrite Em, rd_upd_ne, rd_upd_eq by lia.
    split_and!; try done; try lia; dmlia.
  - constructor; [done|]. apply Forall_forall. intros x Hx. pose proof (taken_after x Hx). cbn. lia.
Qed.

Lemma taken_chain : chain mf blocks1 B1.*1.
Proof.
  pose proof taken_more as Hmore.
  destruct taken_group as (r & Hr & ? & ? & Hg & Hn & Hn' & _ & Hpos). pose proof (lo_blocks _ _ _ _ _ _ Hl) as Hc. cbn in Hc. destruct Hc as (_ & _ & Hc).
  assert (HB : chain mf (rd m (g + 4)) B.*1).
  { eapply chain_more; [exact taken_more| |exact Hc]. intros a (x & -> & Hx)%list_elem_of_fmap. pose proof (taken_after x Hx). apply taken_rd; lia. }
  destruct Hrest as [(_ & _ & -> & ->)|(Hlt & Em & -> & ->)]; [exact HB|]. cbn. split; [done|].
  assert (E : rd mf (g + 4096 + 4) = rd m (g + 4)) by (rewrite rd_upd_ne by lia; rewrite Em; apply rd_upd_eq).
  split; [|by rewrite E]. split_and!; [lia| |]; apply Hmore, (ar_acc _ _ _ _ taken_area r Hr); try lia; dmlia.
Qed.

Lemma take_block : ready m1 l C B1 chunks blocks1 (g + 4) 4088 /\ survive all_objects m l Bg mf l B1.
Proof.
  pose proof taken_area as Ha. pose proof taken_more as Hacc. split; [|by eapply survive_same; [exact Ha|exact Hacc|exact taken_same]].
  split; [split| | |].
  - apply area_intro; try apply Ha; try apply taken_groups.
    + intros r Hr a Hra Hm. apply Hacc. by apply (ar_acc _ _ _ _ Ha r Hr).
    + intros b [Hu| ->]%taken_used; [|exists [g + 4]; split; [exact taken_fresh|]].
      * destruct (block_ok_same _ _ _ (area_block_ok _ _ _ _ _ Ha Hu) Hacc (proj2 (taken_same b Hu))) as [H _]. exact H.
      * intros h ->%list_elem_of_singleton. rewrite rd_upd_eq. apply free_word. split; [lia|done].
    + intros c Hc. eapply chunk_at_same; [exact Ha|exact Hacc|exact Hc|exact taken_same].
  - eapply chain_same; [exact Ha|exact Hacc|intros b Hu; by apply taken_same|apply Hl].
  - exact taken_chain.
  - exists g. split; [apply taken_used; by right|]. rewrite (block_list_tiled _ _ _ taken_fresh). left.
  - split; [lia|done].
  - intros (b & Hu & _ & ? & ?)%(chunk_node _ _ _ _ _ Ha). destruct taken_group as (r & _ & ? & ? & ? & ? & _).
    destruct (used_bounds _ _ _ (ar_shape _ _ _ _ Ha) Hu) as (Hb & _). destruct Hu as (_ & _ & _ & _ & _ & Hni).
    apply Hni. exists (g, n). split; [left|cbn; dmlia].
Qed.

End NewBlock.

(** ** A region is added *)

Lemma add_range_acc m r : more_acc m (add_range m r).
Proof. intros a. apply mapped_more. Qed.

Section NewRegion.
Context (m : memory) (l : list region) (C : list (Z * Z)) (chunks blocks : Z) (r : region).
Hypothesis (Hl : lists_ok m l C [] chunks blocks).
Hypothesis (Hr : 0 < rstart r /\ rstart r mod 4096 = 0 /\ rend r = rstart r + GC_REGIONSIZE).
Hypothesis (Hbelow : forall r', r' ∈ l -> rend r' <= rstart r).

Abbreviation start := (rstart r).
Abbreviation m1 := (upd (upd (add_range m (start, rend r)) start GC_REGIONSIZE) (start + 4) 0).
Abbreviation B1 := [(start, GC_REGIONSIZE)].

Lemma grown_more : more_acc m m1.
Proof. apply add_range_acc. Qed.

Lemma grown_acc : accessible m1 start (rend r).
Proof.
  destruct Hr as (_ & R2 & R3). unfold GC_REGIONSIZE in R3. intros a Ha Hm. eapply mapped_in; [by left|lia|dmlia|done].
Qed.

Lemma grown_rd a : a < start -> rd m1 a = rd m a.
Proof. intros Ha. rewrite !rd_upd_ne by lia. done. Qed.

Lemma grown_shape : regions_shape (l ++ [r]).
Proof.
  pose proof (ar_shape _ _ _ _ (lo_area _ _ _ _ _ _ Hl)) as [H1 H2]. split.
  - intros x [Hx| ->%list_elem_of_singleton]%elem_of_app; [by apply H1|done].
  - apply StronglySorted_app_iff. split_and!; [done|repeat constructor|]. intros x y Hx ->%list_elem_of_singleton. by apply Hbelow.
Qed.

Lemma grown_used b : used_block (l ++ [r]) B1 b <-> used_block l [] b.
Proof.
  destruct Hr as (R1 & R2 & R3). split.
  - intros (x & pos & [Hx| ->%list_elem_of_singleton]%elem_of_app & Hp & -> & Hni).
    + exists x, pos. split_and!; try done; [lia..|]. by intros (g & Hg%elem_of_nil & _).
    + destruct Hni. exists (start, GC_REGIONSIZE). split; [left|]. cbn. unfold block_start, GC_BLOCKSIZE, GC_REGIONSIZE. lia.
  - intros (x & pos & Hx & Hp & -> & Hni). exists x, pos. split_and!; try done; [apply elem_of_app; by left|lia..|].
    intros (g & ->%list_elem_of_singleton & Hg). cbn in Hg. specialize (Hbelow x Hx).
    destruct (block_in_region l x pos (ar_shape _ _ _ _ (lo_area _ _ _ _ _ _ Hl)) Hx Hp). lia.
Qed.

Lemma grown_same b : used_block l [] b -> used_block (l ++ [r]) B1 b /\ same_block m m1 b.
Proof.
  intros Hu. split; [by apply grown_used|]. destruct (used_bounds _ _ _ (ar_shape _ _ _ _ (lo_area _ _ _ _ _ _ Hl)) Hu) as (_ & _ & x & Hx & ? & ?).
  specialize (Hbelow x Hx). intros a Ha. apply grown_rd. lia.
Qed.

Lemma add_region : lists_ok m1 (l ++ [r]) C B1 chunks start /\ survive all_objects m l [] m1 (l ++ [r]) B1.
Proof.
  pose proof (lo_area _ _ _ _ _ _ Hl) as Ha. pose proof grown_more as Hacc. destruct Hr as (R1 & R2 & R3).
  split; [split|by eapply survive_same; [exact Ha|exact Hacc|exact grown_same]].
  - apply area_intro; try apply Ha; [exact grown_shape| | |repeat constructor| |].
    + intros x [Hx| ->%list_elem_of_singleton]%elem_of_app; [|exact grown_acc]. intros a Hra Hm. apply Hacc. by apply (ar_acc _ _ _ _ Ha x).
    + intros g ->%list_elem_of_singleton. exists r. cbn. rewrite rd_upd_ne, rd_upd_eq by lia. split_and!; try done; [apply elem_of_app; right; left|lia..].
    + intros b Hu%grown_used. destruct (block_ok_same _ _ _ (area_block_ok _ _ _ _ _ Ha Hu) Hacc (proj2 (grown_same b Hu))) as [H _]. exact H.
    + intros c Hc. eapply chunk_at_same; [exact Ha|exact Hacc|exact Hc|exact grown_same].
  - eapply chain_same; [exact Ha|exact Hacc|intros b Hu; by apply grown_same|apply Hl].
  - cbn. split; [done|]. rewrite rd_upd_eq. split; [|done].
    split; [lia|]. split; apply grown_acc; unfold GC_REGIONSIZE in *; try lia; dmlia.
Qed.

End NewRegion.
