(* ===== verification/GcSmallAlloc.v ===== *)
(** * Allocation in the small object area (src/runtime/gc.c, lines 1060-1341)

    The slow path and [gc_malloc_small] on top of the changes to the area, for
    any collector that keeps the live objects. *)

From S2P Require Import Prelude GcHeap GcTiling GcFixed GcMark GcReach GcObjects GcSmall GcChain GcGaps GcSweep GcArea GcCut.

#[local] Opaque block_list BLOCK_FUEL.

(** ** The slow path *)

Lemma massert_ok b : b = true -> massert b = Ok tt.
Proof. by intros ->. Qed.

Lemma plain_free n : chunk_fits n -> plain_size (free_header n) = n.
Proof.
  intros [_ Hm]. unfold plain_size, free_header. apply Z.bits_inj'. intros i Hi. rewrite Z.land_spec, Z.lnot_spec, Z.lor_spec by done.
  change FREE_BIT with (2 ^ 1). rewrite Z.pow2_bits_eqb by lia. destruct (Z.eqb_spec 1 i) as [<-|]; cbn [negb].
  - rewrite andb_false_r, low_bits_small by (done || lia). done.
  - by rewrite orb_false_r, andb_true_r.
Qed.

(** The area of a state whose current free area is a chunk like the others. *)
Definition shut (s : small) (C B : list (Z * Z)) : Prop :=
  lists_ok (smem s) (small_regions_head s) C B (small_chunks s) (small_blocks s).

(** A chunk of at least [size] bytes has been found at [p]: the cursor is behind
    its first [size] bytes. *)
Definition found (size p : Z) (s s' : small) (B C' B' : list (Z * Z)) (n : Z) : Prop :=
  p <> 0 /\ size <= n /\ small_cursor s' = p + size /\ small_bound s' = p + n /\
  small_regions_head s' = small_regions_head s /\
  ready (smem s') (small_regions_head s') C' B' (small_chunks s') (small_blocks s') p n /\
  survive all_objects (smem s) (small_regions_head s) B (upd (smem s') p (free_header n)) (small_regions_head s') B'.

Lemma get_small_block_runs s C g n B : shut s C ((g, n) :: B) -> exists s' B', get_small_block s = Ok (g, s') /\
  small_regions_head s' = small_regions_head s /\ small_chunks s' = small_chunks s /\ 0 < g /\
  ready (smem s') (small_regions_head s) C B' (small_chunks s) (small_blocks s') (g + 4) 4088 /\
  survive all_objects (smem s) (small_regions_head s) ((g, n) :: B) (upd (smem s') (g + 4) (free_header 4088)) (small_regions_head s) B'.
Proof.
  intros Hs. pose proof (taken_group _ _ _ _ _ _ _ _ Hs) as (r & Hr & R1 & R2 & Hg & Hn & Hn' & Eg & Hpos).
  pose proof (lo_blocks _ _ _ _ _ _ Hs) as Hc. cbn in Hc. destruct Hc as (E & (_ & A1 & A2) & _).
  pose proof (ar_acc _ _ _ _ (lo_area _ _ _ _ _ _ Hs) r Hr) as Hacc.
  unfold get_small_block. rewrite E. cbv zeta.
  rewrite (massert_ok (negb (g =? 0))) by (apply negb_true_iff, Z.eqb_neq; lia). cbn [mbind res_bind].
  unfold node_size, next. rewrite (ld_acc _ g A1), (ld_acc _ (g + 4) A2). cbn [mbind res_bind]. rewrite Eg.
  rewrite (massert_ok (0 <? n)) by (apply Z.ltb_lt; lia). cbn [mbind res_bind]. unfold GC_BLOCKSIZE.
  rewrite !massert_ok by (apply Z.eqb_eq; done). cbn [mbind res_bind].
  destruct (Z.eqb_spec n 4096) as [E4|Hne].
  - exists (set_lists (small_chunks s) (rd (smem s) (g + 4)) s), B. split_and!; try done; cbn.
    all: eapply take_block; [exact Hs|by left].
  - unfold set_size, set_next. rewrite st_acc by (apply Hacc; dmlia). cbn [mbind res_bind].
    rewrite st_acc by (apply Hacc; dmlia). cbn [mbind res_bind].
    exists (set_lists (small_chunks s) (g + 4096) (set_smem (upd (upd (smem s) (g + 4096) (n - 4096)) (g + 4096 + 4) (rd (smem s) (g + 4))) s)),
      ((g + 4096, n - 4096) :: B). split_and!; try done; cbn.
    all: eapply take_block; [exact Hs|right; split; [lia|]; split; [reflexivity|]; split; reflexivity].
Qed.

Lemma get_small_chunk_runs s C B size : shut s C B -> 8 <= size <= 4088 -> size mod 8 = 0 ->
  (get_small_chunk size s = Ok (0, s) /\ B = []) \/
  exists p s' C' B' n, get_small_chunk size s = Ok (p, s') /\ found size p s s' B C' B' n.
Proof.
  intros Hs Hsz Hm. unfold get_small_chunk. rewrite (massert_ok (0 <? size)) by (apply Z.ltb_lt; lia). cbn [mbind res_bind].
  unfold MEMALIGN. rewrite massert_ok by (by apply Z.eqb_eq). cbn [mbind res_bind]. unfold next_area.
  assert (Hblock : (if negb (small_blocks s =? 0) then '(block, s) ← get_small_block s;
             Ok (Some (block + (MEMALIGN - GC_HEAD), block + (GC_BLOCKSIZE - GC_HEAD), s)) else Ok None) = Ok None /\ B = [] \/
    exists p s' B' , (if negb (small_blocks s =? 0) then '(block, s) ← get_small_block s;
             Ok (Some (block + (MEMALIGN - GC_HEAD), block + (GC_BLOCKSIZE - GC_HEAD), s)) else Ok None) = Ok (Some (p, p + 4088, s')) /\
      found size p s (add_small_alloc (p + 4088 - p) (set_area (p + size) (p + 4088) s')) B C B' 4088).
  { destruct B as [|[g n] B].
    - left. pose proof (lo_blocks _ _ _ _ _ _ Hs) as E. cbn in E. rewrite E. done.
    - right. pose proof (lo_blocks _ _ _ _ _ _ Hs) as E. cbn in E. destruct E as (E & (Hne & _) & _). rewrite E.
      destruct (Z.eqb_spec g 0); [done|]. cbn [negb]. destruct (get_small_block_runs s C g n B Hs) as (s' & B' & -> & E1 & E2 & Hpos & H1 & H2).
      cbn [mbind res_bind]. exists (g + 4), s', B'. unfold GC_BLOCKSIZE, GC_HEAD. split; [do 2 f_equal; f_equal; f_equal; lia|].
      unfold found. cbn. rewrite E1, E2. split_and!; try done; lia. }
  destruct C as [|[c n] C].
  - pose proof (lo_chunks _ _ _ _ _ _ Hs) as E. cbn in E. rewrite E. cbn [Z.eqb mbind res_bind].
    destruct Hblock as [[-> HB]|(p & s' & B' & -> & Hf)]; cbn [mbind res_bind]; [by left|right]. by eexists _, _, _, _, _.
  - pose proof (lo_chunks _ _ _ _ _ _ Hs) as E. cbn in E. destruct E as (E & (Hne & A1 & A2) & _).
    destruct (ar_chunk _ _ _ _ (lo_area _ _ _ _ _ _ Hs) (c, n) ltac:(left)) as (b & Hu & Hin & Ew & Hf). cbn in Ew, Hf, Hin.
    rewrite E. destruct (Z.eqb_spec c 0); [done|]. cbn [negb]. unfold node_size, next. rewrite (ld_acc _ c A1), (ld_acc _ (c + 4) A2). cbn [mbind res_bind].
    rewrite Ew, (plain_free n Hf). destruct (Z.leb_spec size n) as [Hle|Hlt].
    + cbn [mbind res_bind]. right. destruct (take_chunk _ _ _ _ _ _ _ _ Hs) as [Hre Hsu].
      eexists _, _, C, B, n. split; [done|]. unfold found. cbn. split_and!; done.
    + destruct Hblock as [[-> HB]|(p & s' & B' & -> & Hfo)]; cbn [mbind res_bind]; [by left|right]. by eexists _, _, _, _, _.
Qed.

(** ** The allocator *)

Section Allocator.
Context {os : Type} (sbrk : os -> Z -> os * option Z) (brk : os -> Z) {Hsys : System os sbrk brk} (fuel : nat).

(** The system has the regions of the area. *)
Record small_world (w : @world os) (s : small) (R : list (Z * Z)) : Prop := {
  sw_world : world_ok brk w R;
  sw_regions r : r ∈ small_regions_head s -> (rstart r, rend r) ∈ R }.

(** Room for one more region and its usage table. *)
Definition has_room (w : @world os) (s : small) : Prop :=
  table_pos s < SMALL_BLOCKS_TABLE_SIZE /\ Z.of_nat (length (regions (table w))) < GC_REGION_TABLE_SIZE.

Lemma expand_small_area_runs w s R C : small_world w s R -> shut s C [] -> has_room w s ->
  (exists w', expand_small_area sbrk fuel w s = Ok (w', s) /\ small_world w' s R) \/
  exists w' s' R' start, expand_small_area sbrk fuel w s = Ok (w', s') /\ small_world w' s' R' /\ shut s' C [(start, GC_REGIONSIZE)] /\
    survive all_objects (smem s) (small_regions_head s) [] (smem s') (small_regions_head s') [(start, GC_REGIONSIZE)].
Proof.
  intros [Hw HR] Hs [Ht Hn]. unfold expand_small_area. pose proof (lo_blocks _ _ _ _ _ _ Hs) as E. cbn in E.
  rewrite E. cbn [massert Z.eqb assert_or mbind res_bind].
  destruct (region_allocate_spec sbrk brk w R (smem s) (u32 (others w + hsize (fixed s))) GC_REGIONSIZE GC_REGION_SMALL Hw)
    as (w' & m' & o & -> & _ & Ho); [done|done|done|]. cbn [mbind res_bind]. destruct o as [r|].
  2:{ destruct Ho as [-> Hw']. left. exists w'. split; [by destruct s as [[? ? ? ?]]|by split]. }
  right. destruct Ho as (Hge & Hm & He & -> & Hw'). unfold next_table. cbn [table_pos set_smem].
  destruct (Z.leb_spec SMALL_BLOCKS_TABLE_SIZE (table_pos s)); [lia|]. cbn [mbind res_bind].
  assert (Hbelow : forall r', r' ∈ small_regions_head s -> rend r' <= rstart r).
  { intros r' Hr'. pose proof (wo_R _ _ _ Hw _ _ (HR r' Hr')). lia. }
  assert (Hr : 0 < rstart r /\ rstart r mod 4096 = 0 /\ rend r = rstart r + GC_REGIONSIZE) by (pose proof (wo_brk _ _ _ Hw); split_and!; [lia|done|done]).
  destruct (add_region _ _ _ _ _ r Hs Hr Hbelow) as [H1 H2]. pose proof (grown_acc (smem s) r Hr) as Hacc. rewrite He in H1, H2, Hacc.
  cbn [hmem fixed set_smem with_memory]. unfold set_size, set_next. rewrite st_acc by (apply Hacc; unfold GC_REGIONSIZE in *; try lia; dmlia).
  cbn [mbind res_bind]. rewrite st_acc by (apply Hacc; unfold GC_REGIONSIZE in *; try lia; dmlia). cbn [mbind res_bind].
  assert (Ei : insert_region r (small_regions_head s) = small_regions_head s ++ [r]).
  { apply insert_region_last. intros x Hx. specialize (Hbelow x Hx).
    destruct (rs_region _ (ar_shape _ _ _ _ (lo_area _ _ _ _ _ _ Hs)) x Hx) as (_ & _ & Ex). unfold GC_REGIONSIZE in *. lia. }
  eexists _, _, ((rstart r, rstart r + GC_REGIONSIZE) :: R), (rstart r). split; [done|]. split; [split|split].
  - by destruct Hw'.
  - cbn. rewrite Ei. intros x [Hx| ->%list_elem_of_singleton]%elem_of_app; [right; by apply HR|]. rewrite He. left.
  - unfold shut. cbn. rewrite Ei. exact H1.
  - cbn. rewrite Ei. exact H2.
Qed.

(** The memory with the current free area as one more chunk, and the state
    between two operations. *)
Definition area_mem (s : small) : memory := closed (smem s) (small_cursor s) (small_bound s).

Definition small_ok (s : small) (C B : list (Z * Z)) : Prop :=
  open_ok (smem s) (small_regions_head s) C B (small_chunks s) (small_blocks s) (small_cursor s) (small_bound s).

(** Room at [p] for an object of [size] bytes, before it is initialised; since
    the memory [m] the objects that satisfy [P] have survived. *)
Definition room (P : Z -> Prop) (m : memory) (l : list region) (B : list (Z * Z)) (size p : Z) (s' : small) : Prop :=
  exists C' B' n, p <> 0 /\ size <= n /\ small_cursor s' = p + size /\ small_bound s' = p + n /\
    ready (smem s') (small_regions_head s') C' B' (small_chunks s') (small_blocks s') p n /\
    survive P m l B (upd (smem s') p (free_header n)) (small_regions_head s') B'.

Lemma survive_all P m l B m' l' B' : survive all_objects m l B m' l' B' -> survive P m l B m' l' B'.
Proof. intros H p _. by apply H. Qed.

Lemma found_room P m l C0 B0 size p s s' B C' B' n : area m l C0 B0 -> survive P m l B0 (smem s) (small_regions_head s) B ->
  found size p s s' B C' B' n -> room P m l B0 size p s'.
Proof.
  intros Ha H0 (H1 & H2 & H3 & H4 & _ & H5 & H6). exists C', B', n. do 5 (split; [done|]).
  eapply survive_trans; [exact Ha|exact H0|by apply survive_all].
Qed.

Lemma open_acc m l C B chunks blocks cursor bound : open_ok m l C B chunks blocks cursor bound -> cursor < bound -> acc m cursor.
Proof.
  unfold open_ok. intros Ho Hlt. destruct (Z.ltb_spec cursor bound); [|lia]. destruct (re_block _ _ _ _ _ _ _ _ Ho) as (b & Hu & Hin).
  destruct (tiled_range _ _ _ _ _ (ar_block _ _ _ _ (lo_area _ _ _ _ _ _ (re_lists _ _ _ _ _ _ _ _ Ho)) b Hu) Hin) as (_ & _ & H'). exact H'.
Qed.

Lemma close_area_runs s C B : small_ok s C B -> exists s', close_area s = Ok s' /\ smem s' = area_mem s /\ shut s' C B /\
  small_regions_head s' = small_regions_head s /\ table_pos s' = table_pos s.
Proof.
  intros Hs. pose proof (open_lists _ _ _ _ _ _ _ _ Hs) as Hl. pose proof (open_acc _ _ _ _ _ _ _ _ Hs) as Hacc.
  unfold close_area, area_mem, closed in *. destruct (Z.ltb_spec (small_cursor s) (small_bound s)) as [Hlt|].
  - rewrite (st_acc _ _ _ (Hacc Hlt)). cbn [mbind res_bind]. eexists. split; [done|]. split; [done|]. done.
  - exists s. done.
Qed.

(** What a collection promises: the live objects survive it, and the area is in
    order afterwards. *)
Class Collector (gc_invoke : @world os -> small -> res failure (@world os * small)) (live : Z -> Prop) : Prop :=
  collects : forall w s R C B, small_world w s R -> shut s C B -> small_cursor s = 0 -> small_bound s = 0 -> has_room w s ->
    exists w' s' R' C' B', gc_invoke w s = Ok (w', s') /\ small_world w' s' R' /\ small_ok s' C' B' /\ has_room w' s' /\
      survive live (smem s) (small_regions_head s) B (area_mem s') (small_regions_head s') B'.

Context (gc_invoke : @world os -> small -> res failure (@world os * small)) (live : Z -> Prop) {Hgc : Collector gc_invoke live}.

Lemma small_world_eq w s s' R : small_world w s R -> small_regions_head s' = small_regions_head s -> small_world w s' R.
Proof. intros [H1 H2] E. split; [done|]. by rewrite E. Qed.

Lemma has_room_eq w s s' : has_room w s -> table_pos s' = table_pos s -> has_room w s'.
Proof. intros [H1 H2] E. split; [by rewrite E|done]. Qed.

(** The outcomes of the slow path. *)
Definition served (P : Z -> Prop) (m : memory) (l : list region) (B : list (Z * Z)) (size : Z) (r : res failure (@world os * small * Z)) : Prop :=
  match r with
  | Ok (w', s', p) => exists R', small_world w' s' R' /\ room P m l B size p s'
  | Err e => e = OutOfMemoryError
  end.

Lemma expand_and_get_runs P m l C0 B0 w s R C size : area m l C0 B0 -> survive P m l B0 (smem s) (small_regions_head s) [] ->
  small_world w s R -> shut s C [] -> has_room w s -> 8 <= size <= 4088 -> size mod 8 = 0 ->
  served P m l B0 size (expand_and_get sbrk fuel size w s).
Proof.
  intros Ha H0 Hw Hs Hroom Hsz Hm. unfold expand_and_get.
  destruct (expand_small_area_runs w s R C Hw Hs Hroom) as [(w' & -> & Hw')|(w' & s' & R' & start & -> & Hw' & Hs' & Hsu)]; cbn [mbind res_bind].
  - destruct (get_small_chunk_runs s C [] size Hs Hsz Hm) as [[-> _]|(p & s' & C' & B' & n & -> & Hf)]; [done|]. cbn [mbind res_bind].
    pose proof Hf as (Hne & _ & _ & _ & E & _). destruct (Z.eqb_spec p 0); [done|]. exists R. split; [by eapply small_world_eq|by eapply found_room].
  - destruct (get_small_chunk_runs s' C _ size Hs' Hsz Hm) as [[_ ?]|(p & s2 & C' & B' & n & -> & Hf)]; [done|]. cbn [mbind res_bind].
    pose proof Hf as (Hne & _ & _ & _ & E & _). destruct (Z.eqb_spec p 0); [done|]. exists R'. split; [by eapply small_world_eq|].
    eapply found_room; [exact Ha| |exact Hf]. eapply survive_trans; [exact Ha|exact H0|by apply survive_all].
Qed.

Lemma slow_small_allocate_runs w s R C B size : small_world w s R -> small_ok s C B -> has_room w s -> 8 <= size <= 4088 -> size mod 8 = 0 ->
  served live (area_mem s) (small_regions_head s) B size (slow_small_allocate sbrk fuel gc_invoke size w s).
Proof.
  intros Hw Hs Hroom Hsz Hm. pose proof (lo_area _ _ _ _ _ _ (open_lists _ _ _ _ _ _ _ _ Hs)) as Ha. fold (area_mem s) in Ha.
  unfold slow_small_allocate. rewrite (massert_ok (0 <? size)) by (apply Z.ltb_lt; lia). cbn [mbind res_bind].
  unfold MEMALIGN. rewrite (massert_ok (_ =? 0)) by (by apply Z.eqb_eq). cbn [mbind res_bind].
  destruct (close_area_runs s C B Hs) as (s1 & -> & Em & Hs1 & El & Et). cbn [mbind res_bind].
  assert (H1 : survive live (area_mem s) (small_regions_head s) B (smem s1) (small_regions_head s1) B) by (rewrite Em, El; apply survive_refl).
  assert (Hw1 : small_world w s1 R) by (by eapply small_world_eq). assert (Hroom1 : has_room w s1) by (by eapply has_room_eq).
  assert (Hfinal : forall r, served live (area_mem s) (small_regions_head s) B size r ->
    served live (area_mem s) (small_regions_head s) B size ('(w, s, p) ← r; _ ← massert (negb (p =? 0)); Ok (w, s, p))).
  { intros [[[w' s'] p]|e]; [|done]. intros (R' & Hw' & Hr). cbn [mbind res_bind]. destruct Hr as (C' & B' & n & Hne & Hr).
    rewrite massert_ok by (by apply negb_true_iff, Z.eqb_neq). cbn. exists R'. split; [exact Hw'|]. by exists C', B', n. }
  destruct (get_small_chunk_runs s1 C B size Hs1 Hsz Hm) as [[-> ->]|(p & s' & C' & B' & n & -> & Hf)]; cbn [mbind res_bind].
  2:{ pose proof Hf as (Hne & _ & _ & _ & E & _). destruct (Z.eqb_spec p 0); [done|].
      apply (Hfinal (Ok (w, s', p))). exists R. split; [by eapply small_world_eq|by eapply found_room]. }
  rewrite Z.eqb_refl. apply Hfinal. destruct (_ <=? heap_size s1); [by eapply expand_and_get_runs|].
  destruct (collects (gc_invoke := gc_invoke) (live := live) w (set_area 0 0 s1) R C []) as (w2 & s2 & R2 & C2 & B2 & -> & Hw2 & Hs2 & Hroom2 & Hsu);
    [by eapply small_world_eq|done|done|done|done|].
  cbn [mbind res_bind]. cbn [smem set_area fixed small_regions_head] in Hsu. fold (smem s1) in Hsu.
  destruct (close_area_runs s2 C2 B2 Hs2) as (s3 & -> & Em3 & Hs3 & El3 & Et3). cbn [mbind res_bind].
  assert (H3 : survive live (area_mem s) (small_regions_head s) [] (smem s3) (small_regions_head s3) B2).
  { rewrite Em3, El3. by eapply survive_trans; [exact Ha|exact H1|]. }
  destruct (get_small_chunk_runs s3 C2 B2 size Hs3 Hsz Hm) as [[-> ->]|(p & s' & C' & B' & n & -> & Hf)]; cbn [mbind res_bind].
  - rewrite Z.eqb_refl. eapply expand_and_get_runs; [exact Ha|exact H3|by eapply small_world_eq|exact Hs3|by eapply has_room_eq|exact Hsz|exact Hm].
  - pose proof Hf as (Hne & _ & _ & _ & E & _). destruct (Z.eqb_spec p 0); [done|]. exists R2. split; [|by eapply found_room].
    eapply small_world_eq; [exact Hw2|]. by rewrite E.
Qed.

(** ** The allocator as a whole *)

(** A new object of [size] bytes at [p], zeroed, apart from the live ones. *)
Definition new_object (P : Z -> Prop) (s s' : small) (B B' : list (Z * Z)) (size p : Z) : Prop :=
  is_obj (area_mem s') (small_regions_head s') B' p /\ rd (area_mem s') (p - 4) = size /\
  (forall a, p <= a < p - 4 + size -> a mod 4 = 0 -> rd (area_mem s') a = 0) /\
  survive P (area_mem s) (small_regions_head s) B (area_mem s') (small_regions_head s') B' /\
  forall q, P q -> is_obj (area_mem s) (small_regions_head s) B q ->
    q - 4 + mask_size (rd (area_mem s) (q - 4)) <= p - 4 \/ p - 4 + size <= q - 4.

(** The header and the zeros are written into the room. *)
Lemma write_object P s s1 C0 B size p : area (area_mem s) (small_regions_head s) C0 B -> 8 <= size < 1024 -> size mod 8 = 0 ->
  room P (area_mem s) (small_regions_head s) B size p s1 ->
  exists m1 m2 C' B', memset0 (smem s1) p size = Ok m1 /\ st m1 p size = Ok m2 /\
    small_ok (set_smem m2 s1) C' B' /\ new_object P s (set_smem m2 s1) B B' size (p + 4).
Proof.
  intros Ha Hsz Hm (C' & B' & n & Hne & Hn & Ec & Eb & Hre & Hsu).
  pose proof (lo_area _ _ _ _ _ _ (re_lists _ _ _ _ _ _ _ _ Hre)) as Har.
  destruct (re_block _ _ _ _ _ _ _ _ Hre) as (b & Hu & Hin). destruct (cut_bounds _ _ _ _ _ _ _ _ Hre b Hu Hin) as (Hb & Hb1 & Hb2 & Hb8).
  destruct (used_bounds _ _ _ (ar_shape _ _ _ _ Har) Hu) as (_ & _ & r & Hr & ? & ?).
  assert (Hacc : forall a, p <= a < p + n -> a mod 4 = 0 -> acc (smem s1) a) by (intros a Hra Ham; apply (ar_acc _ _ _ _ Har r Hr); [lia|done]).
  destruct (zero_words_spec (Z.to_nat (size / 4)) (smem s1) p) as (m1 & E1 & Hag & Hz).
  { intros i Hi. apply Hacc; dmlia. }
  assert (Hacc1 : acc m1 p) by (apply (agree_acc _ _ _ _ Hag), Hacc; [lia|dmlia]).
  set (m2 := upd m1 p size).
  assert (Hr2 : ranges m2 = ranges (smem s1)) by apply Hag. assert (Hc2 : rd m2 p = size) by apply rd_upd_eq.
  assert (Hout2 : forall x, ~ (p <= x < p + n) -> rd m2 x = rd (smem s1) x).
  { intros x Hx. unfold m2. rewrite rd_upd_ne by lia. destruct Hag as [_ Hag]. apply Hag. clear -Hx Hsz Hm Hn. dmlia. }
  exists m1, m2, C', B'. split; [exact E1|]. split; [by apply st_acc|].
  assert (Em : area_mem (set_smem m2 s1) = closed m2 (p + size) (p + n)) by (unfold area_mem; cbn; by rewrite Ec, Eb).
  split; [|unfold new_object; rewrite Em; cbn [small_regions_head set_smem]; split_and!].
  - unfold small_ok. cbn. rewrite Ec, Eb. eapply cut_open; [exact Hre|lia|done|lia|exact Hr2|exact Hc2|exact Hout2].
  - eapply cut_object; [exact Hre|lia|done|lia|exact Hr2|exact Hc2|exact Hout2].
  - replace (p + 4 - 4) with p by lia. eapply cut_head; first [eassumption | lia].
  - intros a Hra Ham. assert (Ea : rd (closed m2 (p + size) (p + n)) a = rd m1 a).
    { unfold closed. destruct (_ <? _); [rewrite rd_upd_ne by lia|]; unfold m2; rewrite rd_upd_ne by lia; done. }
    rewrite Ea. replace a with (p + 4 * ((a - p) / 4)) by dmlia. apply Hz. dmlia.
  - eapply survive_trans; [exact Ha|exact Hsu|]. apply survive_all. eapply cut_survive; [exact Hre|lia|done|lia|exact Hr2|exact Hc2|exact Hout2].
  - intros q Hq Ho. destruct (Hsu q Hq Ho) as [Ho' E']. destruct (obj_header _ _ _ _ _ Ha Ho) as (Hq4 & Hpos & _).
    destruct (cut_apart _ _ _ _ _ _ _ _ Hre q Ho') as [Hap|Hap]; [rewrite E' in Hap by (lia || done)|]; lia.
Qed.

(** C3: [gc_malloc_small] with any collector that keeps the live objects:
    unless memory runs out it returns a new object of the size asked for,
    zeroed and apart from every live object, whose contents it leaves as they
    are; no assertion fails, and the area, its two lists of free memory and
    the current free area are in order again. *)
Theorem gc_malloc_small_correct (w : world) (s : small) (R : list (Z * Z)) (C B : list (Z * Z)) (size : Z)
    (Hw : small_world w s R) (Hs : small_ok s C B) (Hroom : has_room w s) (Hsize : 8 <= size < GC_MAX_SMALL_OBJECT_SIZE)
    (Hm : size mod MEMALIGN = 0) :
  match gc_malloc_small sbrk fuel gc_invoke size w s with
  | Ok (w', s', p) => exists R' C' B', small_world w' s' R' /\ small_ok s' C' B' /\ new_object live s s' B B' size p
  | Err e => e = OutOfMemoryError
  end.
Proof.
  unfold GC_MAX_SMALL_OBJECT_SIZE in Hsize. pose proof (lo_area _ _ _ _ _ _ (open_lists _ _ _ _ _ _ _ _ Hs)) as Ha. fold (area_mem s) in Ha.
  unfold gc_malloc_small. rewrite (massert_ok (0 <? size)) by (apply Z.ltb_lt; lia). cbn [mbind res_bind].
  rewrite (massert_ok (_ =? 0)) by (by apply Z.eqb_eq). cbn [mbind res_bind]. unfold GC_MAX_SMALL_OBJECT_SIZE.
  rewrite (massert_ok (size <? 1024)) by (apply Z.ltb_lt; lia). cbn [mbind res_bind].
  assert (Hserved : served live (area_mem s) (small_regions_head s) B size
    (if small_bound s <? small_cursor s + size then slow_small_allocate sbrk fuel gc_invoke size w s
     else Ok (w, set_area (small_cursor s + size) (small_bound s) s, small_cursor s))).
  { destruct (Z.ltb_spec (small_bound s) (small_cursor s + size)) as [|Hfit]; [by eapply slow_small_allocate_runs; try done; lia|].
    exists R. split; [by eapply small_world_eq|]. unfold small_ok, open_ok in Hs. unfold area_mem, closed.
    destruct (Z.ltb_spec (small_cursor s) (small_bound s)); [|lia]. exists C, B, (small_bound s - small_cursor s). cbn.
    split_and!; [|lia|lia|lia|exact Hs|apply survive_refl].
    destruct (re_block _ _ _ _ _ _ _ _ Hs) as (b & Hu & Hin). destruct (cut_bounds _ _ _ _ _ _ _ _ Hs b Hu Hin) as (? & ? & _).
    destruct (used_bounds _ _ _ (ar_shape _ _ _ _ (lo_area _ _ _ _ _ _ (re_lists _ _ _ _ _ _ _ _ Hs))) Hu) as (_ & ? & _). lia. }
  revert Hserved. set (r := if _ <? _ then _ else _). destruct r as [[[w1 s1] p]|e]; [|done]. intros (R' & Hw1 & Hr). cbn [mbind res_bind].
  destruct (write_object live s s1 C B size p Ha) as (m1 & m2 & C' & B' & -> & E2 & Hok & Hnew); [lia|done|exact Hr|].
  cbn [mbind res_bind]. rewrite E2. cbn [mbind res_bind]. exists R', C', B'. split; [by eapply small_world_eq|]. by split.
Qed.

End Allocator.
