(* ===== verification/GcPrepare.v ===== *)
(** * The preparation of a collection (src/runtime/gc.c, lines 1343-1392)

    The block usage tables: a block's bit is set exactly if the block is not in
    a group of free blocks. *)

From S2P Require Import Prelude GcHeap GcTiling GcMark GcReach GcObjects GcSmall GcChain GcGaps GcSweep GcArea GcCut GcSmallAlloc.

#[local] Opaque block_list BLOCK_FUEL.

(** ** Usage tables *)

Definition bit_of (t : list Z) (pos : Z) : bool := Z.testbit (default 0 (zlookup t (pos / 32))) (pos mod 32).

Lemma block_bit_of ts r t pos : ts !! rid r = Some t -> length t = 16%nat -> 0 <= pos < 512 -> block_bit ts r pos = Ok (bit_of t pos).
Proof.
  intros Et Hl Hp. unfold block_bit, bit_of. rewrite Et. cbn [of_option mbind res_bind].
  destruct (zlookup_is_Some t (pos / 32)) as [w ->]; [rewrite Hl; dmlia|]. cbn [of_option mbind res_bind default].
  by rewrite Z.shiftl_1_l, land_pow2_testbit by dmlia.
Qed.

Lemma all_ones pos : 0 <= pos < 512 -> bit_of (replicate 16 0xFFFFFFFF) pos = true.
Proof.
  intros Hp. assert (Hall : forallb (bit_of (replicate 16 0xFFFFFFFF)) (seqZ 0 512) = true) by (vm_compute; reflexivity).
  rewrite forallb_forall in Hall. apply Hall, list_elem_of_In, elem_of_seqZ. lia.
Qed.

Lemma clear_block_spec t pos : length t = 16%nat -> 0 <= pos < 512 -> exists t', clear_block t pos = Ok t' /\ length t' = 16%nat /\
  forall q, 0 <= q < 512 -> bit_of t' q = bit_of t q && negb (q =? pos).
Proof.
  intros Hl Hp. unfold clear_block. destruct (zlookup_is_Some t (pos / 32)) as [w Hw]; [rewrite Hl; dmlia|]. rewrite Hw. cbn [of_option mbind res_bind].
  set (v := Z.land w _). destruct (zstore t (pos / 32) v) as [t'|] eqn:E; [|rewrite zstore_is_Some in E by (rewrite Hl; dmlia); done].
  exists t'. split; [done|]. split; [by rewrite (zstore_length _ _ _ _ E)|]. intros q Hq. unfold bit_of. rewrite (zlookup_zstore _ _ _ (q / 32) _ E).
  assert (Hbit : Z.testbit v (q mod 32) = Z.testbit w (q mod 32) && negb (pos mod 32 =? q mod 32)).
  { unfold v. rewrite Z.land_spec, Z.lnot_spec, Z.shiftl_1_l, Z.pow2_bits_eqb by dmlia. done. }
  destruct (Z.eqb_spec (pos / 32) (q / 32)) as [He|Hne].
  - change (default 0 (Some v)) with v. rewrite Hbit, <- He, Hw. change (default 0 (Some w)) with w. do 2 f_equal. destruct (Z.eqb_spec (pos mod 32) (q mod 32)), (Z.eqb_spec q pos); dmlia.
  - destruct (Z.eqb_spec q pos) as [->|]; [done|]. by rewrite andb_true_r.
Qed.

Lemma clear_blocks_spec n : forall t pos, length t = 16%nat -> 0 <= pos -> pos + Z.of_nat n <= 512 ->
  exists t', clear_blocks n t pos = Ok t' /\ length t' = 16%nat /\
  forall q, 0 <= q < 512 -> bit_of t' q = bit_of t q && negb ((pos <=? q) && (q <? pos + Z.of_nat n)).
Proof.
  induction n as [|n IH]; intros t pos Hl Hp Hn; cbn [clear_blocks].
  - exists t. split; [done|]. split; [done|]. intros q Hq. destruct (Z.leb_spec pos q), (Z.ltb_spec q (pos + Z.of_nat 0)); try lia; by rewrite andb_true_r.
  - destruct (clear_block_spec t pos Hl) as (t1 & -> & Hl1 & H1); [lia|]. cbn [mbind res_bind].
    destruct (IH t1 (pos + 1) Hl1) as (t2 & -> & Hl2 & H2); [lia|lia|]. exists t2. split; [done|]. split; [done|].
    intros q Hq. rewrite H2, H1, <- andb_assoc by done. f_equal.
    destruct (Z.eqb_spec q pos), (Z.leb_spec (pos + 1) q), (Z.leb_spec pos q), (Z.ltb_spec q (pos + 1 + Z.of_nat n)), (Z.ltb_spec q (pos + Z.of_nat (S n))); try lia; done.
Qed.

(** ** The groups of a region *)

Definition group_in (m : memory) (r : region) (g : Z * Z) : Prop :=
  rstart r <= g.1 /\ g.1 + g.2 <= rend r /\ g.1 mod 4096 = 0 /\ 0 < g.2 /\ g.2 mod 4096 = 0 /\ rd m g.1 = g.2.

Definition ordered_groups : list (Z * Z) -> Prop := StronglySorted (fun g g' => g.1 + g.2 <= g'.1).

Lemma clear_groups_spec m r l : 0 < rstart r /\ rstart r mod 4096 = 0 /\ rend r = rstart r + GC_REGIONSIZE ->
  (forall r', r' ∈ l -> rend r <= rstart r') -> forall fuel Bs t block lo, chain m block Bs.*1 -> ordered_groups Bs ->
  (forall g, g ∈ Bs -> lo <= g.1 /\ exists r', r' ∈ r :: l /\ group_in m r' g) ->
  rstart r <= lo -> (rend r - lo) / 4096 <= Z.of_nat fuel -> length t = 16%nat ->
  exists t' B1 B2 block', clear_groups fuel m r t block = Ok (t', block') /\ Bs = B1 ++ B2 /\
    (forall g, g ∈ B1 -> group_in m r g) /\ (forall g, g ∈ B2 -> exists r', r' ∈ l /\ group_in m r' g) /\
    chain m block' B2.*1 /\ length t' = 16%nat /\
    forall pos, 0 <= pos < 512 -> bit_of t' pos = true <-> bit_of t pos = true /\ ~ in_group B1 (block_start r pos).
Proof.
  intros (R1 & R2 & R3) Hl. induction fuel as [|fuel IH]; intros Bs t block lo Hc Hs Hg Hlo Hf Ht; cbn [clear_groups].
  all: assert (Hout : forall block', (rstart r <=? block') && (block' <? rend r) = false -> chain m block' Bs.*1 ->
    (forall g, g ∈ Bs -> exists r', r' ∈ l /\ group_in m r' g) -> exists t' B1 B2 block'', Ok (t, block') = Ok (E := failure) (t', block'') /\ Bs = B1 ++ B2 /\
    (forall g, g ∈ B1 -> group_in m r g) /\ (forall g, g ∈ B2 -> exists r', r' ∈ l /\ group_in m r' g) /\
    chain m block'' B2.*1 /\ length t' = 16%nat /\
    forall pos, 0 <= pos < 512 -> bit_of t' pos = true <-> bit_of t pos = true /\ ~ in_group B1 (block_start r pos))
    by (intros block' _ Hc' Hall; exists t, [], Bs, block'; split_and!; try done; [by intros ? ?%elem_of_nil|];
        intros pos _; split; [intros Hb; split; [done|by intros (? & ?%elem_of_nil & _)]|by intros [? _]]).
  all: destruct Bs as [|[g n] Bs]; [cbn in Hc; subst block; assert (E : (rstart r <=? 0) && (0 <? rend r) = false) by lia; rewrite E;
    by apply Hout; [|cbn|intros ? ?%elem_of_nil]|].
  all: pose proof Hc as Hc0; cbn in Hc; destruct Hc as (-> & (Hne & A1 & A2) & Hc);
    destruct (Hg (g, n) ltac:(left)) as (Hlo' & r0 & [->|Hr0]%elem_of_cons & G1 & G2 & G3 & G4 & G5 & G6); cbn [fst snd] in *.
  all: try (assert (E : (rstart r <=? g) && (g <? rend r) = false) by (specialize (Hl r0 Hr0); lia); rewrite E; apply Hout; [exact E|exact Hc0|];
    intros x Hx; assert (Hge : g <= x.1) by (apply elem_of_cons in Hx as [->|Hx]; [cbn; lia|];
      apply StronglySorted_inv in Hs as [_ Hs]; rewrite Forall_forall in Hs; specialize (Hs x Hx); cbn in Hs; lia);
    destruct (Hg x Hx) as (_ & r' & [->|Hr']%elem_of_cons & Hx'); [destruct Hx' as (? & ? & _ & ? & _); specialize (Hl r0 Hr0); lia|by exists r']).
  all: assert (E : (rstart r <=? g) && (g <? rend r) = true) by lia; rewrite E.
  - exfalso. unfold GC_REGIONSIZE in R3. dmlia.
  - unfold node_size, next. rewrite (ld_acc _ _ A1). cbn [mbind res_bind]. rewrite G6. unfold GC_BLOCKSIZE.
    set (pos0 := (g - rstart r) / 4096). assert (Hpos0 : g = rstart r + 4096 * pos0 /\ 0 <= pos0) by (unfold pos0; dmlia).
    assert (Hcount : (n + 4096 - 1) / 4096 = n / 4096 /\ 4096 * (n / 4096) = n) by dmlia. destruct Hcount as [Hcount Hn]. rewrite Hcount.
    destruct (clear_blocks_spec (Z.to_nat (n / 4096)) t pos0 Ht) as (t1 & -> & Ht1 & Hb1); [lia|unfold GC_REGIONSIZE in R3; dmlia|]. cbn [mbind res_bind].
    rewrite (ld_acc _ _ A2). cbn [mbind res_bind]. apply StronglySorted_inv in Hs as [Hs Hsf]. rewrite Forall_forall in Hsf.
    destruct (IH Bs t1 (rd m (g + 4)) (g + n) Hc Hs) as (t2 & B1 & B2 & block' & -> & -> & H1 & H2 & H3 & H4 & H5); [|lia|dmlia|exact Ht1|].
    { intros x Hx. specialize (Hsf x Hx). cbn in Hsf. split; [lia|]. apply Hg. by right. }
    exists t2, ((g, n) :: B1), B2, block'. split_and!; try done.
    + intros x [->|Hx]%elem_of_cons; [|by apply H1]. unfold group_in. cbn. split_and!; done.
    + intros pos Hp. rewrite H5, Hb1 by done. rewrite andb_true_iff, negb_true_iff. rewrite Z2Nat.id by dmlia.
      assert (Hin : (pos0 <=? pos) && (pos <? pos0 + n / 4096) = false <-> ~ (g <= block_start r pos < g + n)).
      { unfold block_start, GC_BLOCKSIZE. destruct (Z.leb_spec pos0 pos), (Z.ltb_spec pos (pos0 + n / 4096)); cbn; (split; [intros; try done; lia|intros; try done; lia]). }
      rewrite Hin. split.
      * intros [[Hb Hn1] Hn2]. split; [exact Hb|]. intros (x & [->|Hx]%elem_of_cons & Hr'); [by apply Hn1|]. apply Hn2. by exists x.
      * intros [Hb Hn1]. split; [split; [exact Hb|]|]; intros Hr'; apply Hn1; [exists (g, n); split; [left|exact Hr']|].
        destruct Hr' as (x & Hx & Hr'). exists x. split; [by right|exact Hr'].
Qed.

Definition region_start_ok (r : region) : Prop := 0 < rstart r /\ rstart r mod 4096 = 0 /\ rend r = rstart r + GC_REGIONSIZE.

Lemma clear_regions_spec m l : forall ts Bs block, (forall r, r ∈ l -> region_start_ok r) -> StronglySorted (fun r r' => rend r <= rstart r') l ->
  NoDup (rid <$> l) -> chain m block Bs.*1 -> ordered_groups Bs -> (forall g, g ∈ Bs -> exists r, r ∈ l /\ group_in m r g) ->
  exists ts', clear_regions m l ts block = Ok ts' /\ (forall id, id ∉ rid <$> l -> ts' !! id = ts !! id) /\
  forall r, r ∈ l -> exists t, ts' !! rid r = Some t /\ length t = 16%nat /\
    forall pos, 0 <= pos < 512 -> bit_of t pos = true <-> ~ in_group Bs (block_start r pos).
Proof.
  induction l as [|r l IH]; intros ts Bs block Hr Hs Hid Hc Ho Hg; cbn [clear_regions].
  { exists ts. split; [done|]. split; [done|]. by intros r ?%elem_of_nil. }
  apply StronglySorted_inv in Hs as [Hs Hf]. rewrite Forall_forall in Hf. rewrite fmap_cons in Hid. apply NoDup_cons in Hid as [Hni Hid].
  pose proof (Hr r ltac:(left)) as Hrok. pose proof Hrok as (R1 & R2 & R3).
  destruct (clear_groups_spec m r l Hrok Hf BLOCK_FUEL Bs (replicate 16 0xFFFFFFFF) block (rstart r) Hc Ho)
    as (t & B1 & B2 & block' & -> & -> & H1 & H2 & Hc2 & Ht & Hb); [|lia| |done|].
  { intros g Hin. destruct (Hg g Hin) as (r' & Hr' & Hgr). split; [|by exists r']. destruct Hgr as (? & _).
    apply elem_of_cons in Hr' as [->|Hr']; [done|]. specialize (Hf r' Hr'). unfold GC_REGIONSIZE in R3. lia. }
  { change BLOCK_FUEL with 512%nat. unfold GC_REGIONSIZE in R3. dmlia. }
  cbn [mbind res_bind]. apply StronglySorted_app_iff in Ho as (Ho1 & Ho2 & Ho12).
  destruct (IH (<[rid r := t]> ts) B2 block') as (ts' & -> & He & Hall); try done; [intros r' Hr'; apply Hr; by right|].
  assert (Hsplit : forall r' pos, r' ∈ r :: l -> 0 <= pos < 512 -> rstart r' <= block_start r' pos < rend r').
  { intros r' pos Hr' Hp. destruct (Hr r' Hr') as (_ & _ & E). unfold block_start, GC_BLOCKSIZE, GC_REGIONSIZE in *. lia. }
  exists ts'. split; [done|]. split.
  - intros id Hn. rewrite fmap_cons in Hn. apply not_elem_of_cons in Hn as [Hne Hn]. rewrite He by done. by apply lookup_insert_ne.
  - intros r' Hr'. assert (Hcase : r' = r \/ r' ∈ l) by (by apply elem_of_cons). destruct Hcase as [->|Hr0].
    + exists t. rewrite He by done. rewrite lookup_insert_eq. split; [done|]. split; [done|]. intros pos Hp. rewrite Hb by done.
      rewrite (all_ones pos Hp). specialize (Hsplit r pos Hr' Hp). split.
      * intros [_ Hn1] (g & [Hin|Hin]%elem_of_app & Hrg); [apply Hn1; by exists g|]. destruct (H2 g Hin) as (r2 & Hr2 & ? & _).
        specialize (Hf r2 Hr2). lia.
      * intros Hn. split; [done|]. intros (g & Hin & Hrg). apply Hn. exists g. split; [apply elem_of_app; by left|done].
    + destruct (Hall r' Hr0) as (t' & E & Ht' & Hb'). exists t'. split; [done|]. split; [done|]. intros pos Hp. rewrite Hb' by done.
      specialize (Hsplit r' pos Hr' Hp). specialize (Hf r' Hr0). split.
      * intros Hn (g & [Hin|Hin]%elem_of_app & Hrg); [destruct (H1 g Hin) as (? & ? & _); lia|apply Hn; by exists g].
      * intros Hn (g & Hin & Hrg). apply Hn. exists g. split; [apply elem_of_app; by right|done].
Qed.

(** What the preparation leaves: the area as before, with the current area as one
    more free chunk, and the usage tables. *)
Record prepared (s s' : small) (C B : list (Z * Z)) : Prop := {
  pr_shut : shut s' C B;
  pr_cursor : small_cursor s' = 0 /\ small_bound s' = 0;
  pr_mem : smem s' = area_mem s;
  pr_regions : small_regions_head s' = small_regions_head s;
  pr_pos : table_pos s' = table_pos s;
  pr_table r pos : r ∈ small_regions_head s -> 0 <= pos < 512 ->
    exists b, block_bit (tables s') r pos = Ok b /\ (b = true <-> ~ in_group B (block_start r pos)) }.

Lemma prepare_runs s C B : small_ok s C B -> NoDup (rid <$> small_regions_head s) -> exists s', prepare_gc_small s = Ok s' /\ prepared s s' C B.
Proof.
  intros Hs Hids. destruct (close_area_runs s C B Hs) as (s1 & E1 & Em & Hs1 & El & Et). unfold prepare_gc_small. rewrite E1. cbn [mbind res_bind].
  pose proof (lo_area _ _ _ _ _ _ Hs1) as Ha. pose proof (ar_shape _ _ _ _ Ha) as [Hr Hsort].
  destruct (clear_regions_spec (smem s1) (small_regions_head s1) (tables s1) B (small_blocks s1) Hr Hsort) as (ts & E2 & _ & Hts).
  { by rewrite El. } { apply Hs1. } { apply Ha. }
  { intros g Hg. destruct (ar_group _ _ _ _ Ha g Hg) as (r & Hrg & H). exists r. split; [exact Hrg|]. unfold group_in. naive_solver. }
  change (clear_regions (smem (set_area 0 0 s1)) _ _ _) with (clear_regions (smem s1) (small_regions_head s1) (tables s1) (small_blocks s1)).
  cbv zeta. rewrite E2. cbn [mbind res_bind].
  eexists. split; [done|]. split; [exact Hs1|done|exact Em|exact El|exact Et|].
  intros r pos Hrr Hp. rewrite <- El in Hrr. destruct (Hts r Hrr) as (t & E & Hl & Hb). exists (bit_of t pos). cbn [tables set_tables].
  split; [by apply block_bit_of|by apply Hb].
Qed.

(** C6: [prepare_gc_small] writes the header of the current free area and
    fills in the usage tables: it never fails, the area and its lists are as
    before with the current area as one more free chunk, and the bit of a block
    is set exactly if the block is in no group of free blocks. *)
Theorem prepare_gc_small_correct (s : small) (C B : list (Z * Z)) (Hs : small_ok s C B) (Hids : NoDup (rid <$> small_regions_head s)) :
  exists s', prepare_gc_small s = Ok s' /\ prepared s s' C B.
Proof. by apply prepare_runs. Qed.
