(* ===== verification/GcIntervals.v ===== *)
(** * Free memory between live objects (generic part of the selective sweep)

    Both sweeps of gc.c divide a region into free chunks and groups of free
    blocks, one by looking at every chunk of every block, the other by looking
    at the memory between consecutive live objects.  Here: these are the same
    lists. *)

From S2P Require Import Prelude GcGaps.

(** The stretches between the items [ks] (address and size), from [x] to [e]. *)
Fixpoint between (x : Z) (ks : list (Z * Z)) (e : Z) : list (Z * Z) :=
  match ks with
  | [] => if x <? e then [(x, e - x)] else []
  | (k, n) :: ks' => (if x <? k then [(x, k - x)] else []) ++ between (k + n) ks' e
  end.

Lemma all_gaps_between k l : forall a z, sized k l -> 0 <= z -> all_gaps l a z = between a (keeps_at l (a + z)) (a + z + total l).
Proof.
  induction l as [|[n b] l IH]; intros a z Hs Hz.
  - unfold all_gaps. cbn. destruct (Z.ltb_spec 0 z), (Z.ltb_spec a (a + z + 0)); try lia; [|done]. do 2 f_equal. lia.
  - apply Forall_cons in Hs as [[Hn _] Hs]. cbn in Hn. rewrite all_gaps_cons. cbn [keeps_at total]. destruct b; cbn [app between].
    + rewrite IH by (done || lia). replace (a + z + n + 0) with (a + z + n) by lia. replace (a + z + n + total l) with (a + z + (n + total l)) by lia.
      f_equal. destruct (Z.ltb_spec 0 z), (Z.ltb_spec a (a + z)); try lia; [|done]. do 2 f_equal. lia.
    + rewrite IH by (done || lia). replace (a + (z + n)) with (a + z + n) by lia. replace (a + z + n + total l) with (a + z + (n + total l)) by lia. done.
Qed.

(** ** The memory between two objects *)

(** Addresses of headers and ends of objects are 4 modulo 8; the first of a
    block is at 4, and the last ends at 4092. *)
Definition mid (a : Z) : bool := negb (a mod 4096 =? 4) && negb (a mod 4096 =? 4092).

(** The first block boundary of the free memory from [a] on, and the last of
    that up to [b]. *)
Definition up (a : Z) : Z :=
  if a mod 4096 =? 4 then a - 4 else if a mod 4096 =? 4092 then a + 4 else a - a mod 4096 + 4096.
Definition dn (b : Z) : Z :=
  if b mod 4096 =? 4 then b - 4 else if b mod 4096 =? 4092 then b + 4 else b - b mod 4096.

Definition free_chunks (a b : Z) : list (Z * Z) :=
  if dn b <? up a then [(a, b - a)]
  else (if mid a then [(a, up a - 4 - a)] else []) ++ (if mid b then [(dn b + 4, b - (dn b + 4))] else []).
Definition free_groups (a b : Z) : list (Z * Z) := if up a <? dn b then [(up a, dn b - up a)] else [].

(** The same between all objects of a region. *)
Fixpoint sel_chunks (a : Z) (ks : list (Z * Z)) (e : Z) : list (Z * Z) :=
  match ks with
  | [] => if a <? e then free_chunks a e else []
  | (k, n) :: ks' => (if a <? k then free_chunks a k else []) ++ sel_chunks (k + n) ks' e
  end.
Fixpoint sel_groups (a : Z) (ks : list (Z * Z)) (e : Z) : list (Z * Z) :=
  match ks with
  | [] => if a <? e then free_groups a e else []
  | (k, n) :: ks' => (if a <? k then free_groups a k else []) ++ sel_groups (k + n) ks' e
  end.

(** Items one after the other between [a] and [e]. *)
Fixpoint laid (a : Z) (ks : list (Z * Z)) (e : Z) : Prop :=
  match ks with
  | [] => a <= e
  | (k, n) :: ks' => a <= k /\ k mod 8 = 4 /\ 0 < n /\ n mod 8 = 0 /\ laid (k + n) ks' e
  end.

Lemma laid_le a ks e : laid a ks e -> a <= e.
Proof. revert a. induction ks as [|[k n] ks IH]; intros a; cbn; [done|]. intros (? & _ & ? & _ & H). apply IH in H. lia. Qed.

(** Where the memory before an object of the block at [b] begins. *)
Lemma enter_block a k b : b mod 4096 = 0 -> a mod 8 = 4 -> k mod 8 = 4 -> b + 4 <= k < b + 4092 -> up a <= b ->
  (if a <? k then free_chunks a k else []) =
    (if mid a then [(a, up a - 4 - a)] else []) ++ (if b + 4 <? k then [(b + 4, k - (b + 4))] else []) /\
  (if a <? k then free_groups a k else []) = if up a <? b then [(up a, b - up a)] else [].
Proof.
  intros Hb Ha Hk Hr Hu. assert (Hd : dn k = b) by (unfold dn; repeat case_test; dmlia).
  assert (Hm : mid k = (b + 4 <? k)) by (unfold mid; destruct (Z.eqb_spec (k mod 4096) 4), (Z.eqb_spec (k mod 4096) 4092), (Z.ltb_spec (b + 4) k); cbn; try done; dmlia).
  assert (Hau : a <= up a + 4) by (unfold up; repeat case_test; dmlia).
  assert (Hau' : a <= up a \/ a = up a + 4 /\ mid a = false) by (unfold up, mid; repeat case_test; simpl; try (left; dmlia); right; split; [dmlia|done]).
  unfold free_chunks, free_groups. rewrite Hd, Hm. destruct (Z.ltb_spec a k).
  - destruct (Z.ltb_spec b (up a)); [lia|]. done.
  - destruct Hau' as [|[Hae ->]]; [lia|]. assert (Hub : up a = b) by lia. rewrite Hub.
    destruct (Z.ltb_spec (b + 4) k), (Z.ltb_spec b b); try lia. done.
Qed.

(** A block with its live objects. *)
Definition lblock : Type := Z * list (Z * Z).

(** Blocks with live objects, in order, from [x] to [e]. *)
Fixpoint lblocks (x : Z) (qs : list lblock) (e : Z) : Prop :=
  match qs with
  | [] => x <= e
  | (b, ks) :: qs' => x <= b /\ b mod 4096 = 0 /\ ks <> [] /\ laid (b + 4) ks (b + 4092) /\ lblocks (b + 4096) qs' e
  end.

Definition block_chunks_of (q : lblock) : list (Z * Z) := between (q.1 + 4) q.2 (q.1 + 4092).
Definition whole (q : lblock) : Z * Z := (q.1, 4096).

Lemma up_in b a : b mod 4096 = 0 -> a mod 8 = 4 -> b + 4 < a <= b + 4092 -> up a = b + 4096 /\ mid a = (a <? b + 4092).
Proof.
  intros Hb Ha Hr. unfold up, mid. destruct (Z.eqb_spec (a mod 4096) 4), (Z.eqb_spec (a mod 4096) 4092), (Z.ltb_spec a (b + 4092)); cbn; split; try done; dmlia.
Qed.

(** Two objects of the same block. *)
Lemma same_block_step b a k : b mod 4096 = 0 -> a mod 8 = 4 -> b + 4 < a -> a <= k < b + 4092 ->
  (if a <? k then free_chunks a k else []) = (if a <? k then [(a, k - a)] else []) /\ (if a <? k then free_groups a k else []) = [].
Proof.
  intros Hb Ha Hba Hk. destruct (up_in b a Hb Ha ltac:(lia)) as [Hu _]. unfold free_chunks, free_groups. rewrite Hu.
  destruct (Z.ltb_spec a k); [|done]. assert (dn k <= b) by (unfold dn; repeat case_test; dmlia).
  destruct (Z.ltb_spec (dn k) (b + 4096)), (Z.ltb_spec (b + 4096) (dn k)); try lia. done.
Qed.

(** From behind an object of the block at [b] on. *)
Lemma sel_block e (qs : list lblock) : forall b ks a, b mod 4096 = 0 -> e mod 4096 = 0 -> a mod 8 = 4 -> b + 4 < a -> laid a ks (b + 4092) ->
  lblocks (b + 4096) qs e ->
  sel_chunks a (ks ++ flat_map snd qs) (e - 4) = between a ks (b + 4092) ++ flat_map block_chunks_of qs /\
  sel_groups a (ks ++ flat_map snd qs) (e - 4) = between (b + 4096) (whole <$> qs) e.
Proof.
  induction qs as [|[b' ks'] qs IHq]; intros b ks a Hb He; revert a; induction ks as [|[k n] ks IHk]; intros a Ha Hba Hl Hq.
  - cbn in Hl, Hq. cbn [app flat_map sel_chunks sel_groups between fmap list_fmap]. destruct (up_in b a Hb Ha ltac:(lia)) as [Hu Hm].
    assert (Hd : dn (e - 4) = e) by (unfold dn; repeat case_test; dmlia). assert (Hm' : mid (e - 4) = false).
    { unfold mid. destruct (Z.eqb_spec ((e - 4) mod 4096) 4092); [by rewrite andb_false_r|dmlia]. }
    unfold free_chunks, free_groups. rewrite Hd, Hu, Hm, Hm'.
    destruct (Z.ltb_spec a (e - 4)), (Z.ltb_spec a (b + 4092)), (Z.ltb_spec e (b + 4096)), (Z.ltb_spec (b + 4096) e); try lia; rewrite ?app_nil_r; split; try done; do 2 f_equal; lia.
  - cbn in Hl. destruct Hl as (H1 & H2 & H3 & H4 & Hl). pose proof (laid_le _ _ _ Hl). cbn [app sel_chunks sel_groups between].
    destruct (IHk (k + n)) as [-> ->]; [dmlia|lia|exact Hl|exact Hq|]. destruct (same_block_step b a k Hb Ha) as [-> ->]; [lia..|]. by rewrite <- app_assoc.
  - cbn in Hl, Hq. destruct Hq as (H1 & H2 & H3 & H4 & Hq). destruct ks' as [|[k n] ks']; [done|]. cbn in H4. destruct H4 as (J1 & J2 & J3 & J4 & J5).
    pose proof (laid_le _ _ _ J5). cbn [app flat_map snd sel_chunks sel_groups]. destruct (up_in b a Hb Ha ltac:(lia)) as [Hu Hm].
    destruct (enter_block a k b' H2 Ha J2 ltac:(lia) ltac:(lia)) as [-> ->]. destruct (IHq b' ks' (k + n)) as [-> ->]; [done|done|dmlia|lia|done|done|].
    rewrite Hm, Hu. unfold block_chunks_of at 2. cbn [fst snd between fmap list_fmap whole]. rewrite <- !app_assoc. split; [|done]. f_equal.
    destruct (Z.ltb_spec a (b + 4092)); [|done]. do 2 f_equal. lia.
  - cbn in Hl. destruct Hl as (H1 & H2 & H3 & H4 & Hl). pose proof (laid_le _ _ _ Hl). cbn [app sel_chunks sel_groups between].
    destruct (IHk (k + n)) as [-> ->]; [dmlia|lia|exact Hl|exact Hq|]. destruct (same_block_step b a k Hb Ha) as [-> ->]; [lia..|]. by rewrite <- app_assoc.
Qed.

(** A whole region, from [x] to [e]: the chunks are those of its blocks with
    live objects, the groups what is between these blocks. *)
Lemma sel_region x e (qs : list lblock) : x mod 4096 = 0 -> e mod 4096 = 0 -> x < e -> lblocks x qs e ->
  sel_chunks (x + 4) (flat_map snd qs) (e - 4) = flat_map block_chunks_of qs /\
  sel_groups (x + 4) (flat_map snd qs) (e - 4) = between x (whole <$> qs) e.
Proof.
  intros Hx He Hlt Hq. assert (Hu : up (x + 4) = x) by (unfold up; case_test; dmlia).
  assert (Hm : mid (x + 4) = false) by (unfold mid; destruct (Z.eqb_spec ((x + 4) mod 4096) 4); [done|dmlia]).
  destruct qs as [|[b [|[k n] ks]] qs]; cbn in Hq.
  - cbn [flat_map sel_chunks sel_groups fmap list_fmap between]. assert (Hd : dn (e - 4) = e) by (unfold dn; repeat case_test; dmlia).
    assert (Hm' : mid (e - 4) = false) by (unfold mid; destruct (Z.eqb_spec ((e - 4) mod 4096) 4092); [by rewrite andb_false_r|dmlia]).
    unfold free_chunks, free_groups. rewrite Hu, Hd, Hm, Hm'. destruct (Z.ltb_spec (x + 4) (e - 4)), (Z.ltb_spec e x), (Z.ltb_spec x e); try lia; try done. dmlia.
  - by destruct Hq as (_ & _ & ? & _).
  - destruct Hq as (H1 & H2 & _ & (J1 & J2 & J3 & J4 & J5) & Hq). pose proof (laid_le _ _ _ J5). cbn [flat_map snd app sel_chunks sel_groups].
    destruct (enter_block (x + 4) k b H2 ltac:(dmlia) J2 ltac:(lia) ltac:(lia)) as [-> ->]. rewrite Hu, Hm.
    destruct (sel_block e qs b ks (k + n) H2 He ltac:(dmlia) ltac:(lia) J5 Hq) as [-> ->].
    unfold block_chunks_of at 2. cbn [fst snd between fmap list_fmap whole app]. by rewrite <- !app_assoc.
Qed.
