(* ===== verification/GcSelect.v ===== *)
(** * The selective sweep (src/runtime/gc.c, lines 1601-1834)

    When the mark stack has collected every live object, the sweep looks only at
    the memory between consecutive live objects.  Its result is that of the
    normal sweep. *)

From S2P Require Import Prelude GcHeap GcTiling GcMark GcReach GcObjects GcSort GcSmall GcChain GcGaps GcIntervals GcSweep GcArea GcCut.

#[local] Opaque block_list BLOCK_FUEL.

(** ** [insert_freemem] by cases *)

Lemma round_up_block a : 0 <= a -> a + 4095 < 2 ^ 32 -> a mod 4096 <> 0 -> ROUNDUPBLOCKSIZE a = a - a mod 4096 + 4096.
Proof.
  intros H0 H1 H2. unfold ROUNDUPBLOCKSIZE, GC_BLOCKSIZE, wrapu. change (Z.opp 4096) with (- 2 ^ 12). rewrite land_neg_pow2 by lia.
  rewrite Z.mod_small by lia. dmlia.
Qed.

Lemma round_down_block b : ROUNDDOWNBLOCKSIZE b = b - b mod 4096.
Proof.
  unfold ROUNDDOWNBLOCKSIZE. change (Z.lnot (GC_BLOCKSIZE - 1)) with (- 2 ^ 12). rewrite land_neg_pow2 by lia. dmlia.
Qed.

Definition norm (x : Z) : Z :=
  if x mod GC_BLOCKSIZE =? MEMALIGN - GC_HEAD then x - (MEMALIGN - GC_HEAD)
  else if x mod GC_BLOCKSIZE =? GC_BLOCKSIZE - GC_HEAD then x + GC_HEAD else x.

(** A boundary, or an address inside a block. *)
Lemma norm_start a : a mod 8 = 4 -> (mid a = true /\ norm a = a /\ a mod 4096 <> 0 /\ up a = a - a mod 4096 + 4096 /\ up a - 4084 <= a <= up a - 12) \/
  (mid a = false /\ norm a = up a /\ up a mod 4096 = 0 /\ up a <= a + 4).
Proof.
  intros Ha. unfold mid, norm, up. change GC_BLOCKSIZE with 4096. change (MEMALIGN - GC_HEAD) with 4. change (4096 - GC_HEAD) with 4092. change GC_HEAD with 4.
  destruct (Z.eqb_spec (a mod 4096) 4); [right; split_and!; [done|done|dmlia|lia]|].
  destruct (Z.eqb_spec (a mod 4096) 4092); [right; split_and!; [done|done|dmlia|lia]|]. left. split_and!; [done|done|dmlia|done|dmlia|dmlia].
Qed.

Lemma norm_end b : b mod 8 = 4 -> dn b = norm b - norm b mod 4096 /\
  ((mid b = true /\ norm b = b /\ b mod 4096 <> 0 /\ dn b + 12 <= b < dn b + 4092) \/ (mid b = false /\ norm b = dn b /\ b - 4 <= dn b)).
Proof.
  intros Hb. unfold mid, norm, dn. change GC_BLOCKSIZE with 4096. change (MEMALIGN - GC_HEAD) with 4. change (4096 - GC_HEAD) with 4092. change GC_HEAD with 4.
  destruct (Z.eqb_spec (b mod 4096) 4); [split; [dmlia|right; split_and!; [done|done|lia]]|].
  destruct (Z.eqb_spec (b mod 4096) 4092); [split; [dmlia|right; split_and!; [done|done|lia]]|]. split; [done|]. left. split_and!; [done|done|dmlia|dmlia|dmlia].
Qed.

Lemma up_bound a : a mod 8 = 4 -> a - 4 <= up a <= a + 4088 /\ up a mod 4096 = 0.
Proof. intros Ha. unfold up. repeat case_test; dmlia. Qed.

Lemma dn_bound b : b mod 8 = 4 -> b - 4088 <= dn b <= b + 4 /\ dn b mod 4096 = 0.
Proof. intros Hb. unfold dn. repeat case_test; dmlia. Qed.

Lemma insert_freemem_eq a b s : 0 < a < b -> b + 4096 < 2 ^ 32 -> a mod 8 = 4 -> b mod 8 = 4 -> insert_freemem a b s =
  if dn b <? up a then insert_freechunk a (b - a) s
  else
    s ← (if mid a then insert_freechunk a (up a - 4 - a) s else Ok s);
    s ← (if up a <? dn b then append_block (up a) (dn b - up a) s else Ok s);
    if mid b then insert_freechunk (dn b + 4) (b - (dn b + 4)) s else Ok s.
Proof.
  intros Hab H32 Ha Hb. destruct (up_bound a Ha) as [Hu Hu4], (dn_bound b Hb) as [Hd Hd4], (norm_end b Hb) as [Hdn Hcase].
  unfold insert_freemem. fold (norm a) (norm b). cbv zeta. rewrite round_down_block, <- Hdn. change GC_BLOCKSIZE with 4096. change GC_HEAD with 4.
  destruct (norm_start a Ha) as [(Hma & Hna & Ham & Hua & Hge & Hlt)|(Hma & Hna & _ & Hua)]; rewrite Hma, Hna.
  - rewrite round_up_block, <- Hua by lia. destruct (Z.eqb_spec (a mod 4096) 0); [done|]. cbn [negb].
    destruct Hcase as [(Hmb & Hnb & Hbm & Hbr)|(Hmb & Hnb & Hbd)]; rewrite Hmb, Hnb.
    + destruct (Z.eqb_spec a b); [lia|]. destruct (Z.ltb_spec b (up a)).
      * destruct (Z.ltb_spec (dn b) (up a)); [|lia]. destruct (Z.ltb_spec (up a) (dn b)); [lia|]. cbn [mbind res_bind].
        destruct (Z.ltb_spec (up a) b); [lia|]. cbn [mbind res_bind]. destruct (Z.ltb_spec a b); [|lia].
        destruct (insert_freechunk _ _ _); done.
      * assert (up a <= dn b) by dmlia. destruct (Z.ltb_spec (dn b) (up a)); [lia|]. destruct (Z.ltb_spec (up a) (dn b)).
        -- rewrite Hu4. cbn [massert Z.eqb assert_or mbind res_bind]. destruct (Z.ltb_spec (dn b) b); [|lia].
           destruct (Z.eqb_spec (b mod 4096) 0); [done|]. rewrite Hd4. cbn [massert negb Z.eqb assert_or mbind res_bind].
           destruct (Z.ltb_spec a (up a - 4)); [|lia]. destruct (insert_freechunk _ _ _) as [s1|]; [|done]. cbn [mbind res_bind].
           destruct (Z.ltb_spec (up a) (dn b)); [|lia]. destruct (append_block _ _ _) as [s2|]; [|done]. cbn [mbind res_bind].
           assert (Em : (dn b - up a) mod 4096 = 0) by dmlia. rewrite Em. cbn [massert Z.eqb assert_or mbind res_bind].
           destruct (Z.ltb_spec (dn b + 4) b); [done|lia].
        -- assert (up a = dn b) as Eq by lia. rewrite Eq in *. cbn [mbind res_bind]. destruct (Z.ltb_spec (dn b) b); [|lia].
           destruct (Z.eqb_spec (b mod 4096) 0); [done|]. rewrite Hd4. cbn [massert negb Z.eqb assert_or mbind res_bind].
           destruct (Z.ltb_spec a (dn b - 4)); [|lia]. destruct (insert_freechunk _ _ _) as [s1|]; [|done]. cbn [mbind res_bind].
           destruct (Z.ltb_spec (dn b + 4) b); [done|lia].
    + assert (up a <= dn b) by dmlia. destruct (Z.eqb_spec a (dn b)); [lia|]. destruct (Z.ltb_spec (dn b) (up a)); [lia|].
      destruct (Z.ltb_spec (up a) (dn b)).
      * rewrite Hu4. cbn [massert Z.eqb assert_or mbind res_bind]. rewrite Z.ltb_irrefl. cbn [mbind res_bind].
        destruct (Z.ltb_spec a (up a - 4)); [|lia]. destruct (insert_freechunk _ _ _) as [s1|]; [|done]. cbn [mbind res_bind].
        destruct (Z.ltb_spec (up a) (dn b)); [|lia]. destruct (append_block _ _ _) as [s2|]; [|done]. cbn [mbind res_bind].
        assert (Em : (dn b - up a) mod 4096 = 0) by dmlia. rewrite Em. done.
      * assert (up a = dn b) as Eq by lia. rewrite Eq in *. cbn [mbind res_bind]. rewrite !Z.ltb_irrefl. cbn [mbind res_bind].
        destruct (Z.ltb_spec a (dn b - 4)); [|lia]. destruct (insert_freechunk _ _ _) as [s1|]; done.
  - rewrite Hu4. cbn [Z.eqb negb]. assert (up a <= dn b) by dmlia. destruct (Z.ltb_spec (dn b) (up a)); [lia|].
    destruct Hcase as [(Hmb & Hnb & Hbm & Hbr)|(Hmb & Hnb & Hbd)]; rewrite Hmb, Hnb.
    + destruct (Z.eqb_spec (up a) b); [lia|]. destruct (Z.ltb_spec (up a) (dn b)).
      * rewrite ?Hu4. cbn [massert Z.eqb assert_or mbind res_bind]. destruct (Z.ltb_spec (dn b) b); [|lia].
        destruct (Z.eqb_spec (b mod 4096) 0); [done|]. rewrite Hd4. cbn [massert negb Z.eqb assert_or mbind res_bind Z.ltb Z.compare].
        destruct (Z.ltb_spec (up a) (dn b)); [|lia]. destruct (append_block _ _ _) as [s2|]; [|done]. cbn [mbind res_bind].
        assert (Em : (dn b - up a) mod 4096 = 0) by dmlia. rewrite Em. cbn [massert Z.eqb assert_or mbind res_bind].
        destruct (Z.ltb_spec (dn b + 4) b); [done|lia].
      * assert (up a = dn b) as Eq by lia. rewrite Eq in *. cbn [mbind res_bind]. destruct (Z.ltb_spec (dn b) b); [|lia].
        destruct (Z.eqb_spec (b mod 4096) 0); [done|]. rewrite Hd4. cbn [massert negb Z.eqb assert_or mbind res_bind Z.ltb Z.compare].
        destruct (Z.ltb_spec (dn b + 4) b); [done|lia].
    + destruct (Z.eqb_spec (up a) (dn b)) as [Eq|].
      * destruct (Z.ltb_spec (up a) (dn b)); [lia|]. done.
      * destruct (Z.ltb_spec (up a) (dn b)); [|lia]. rewrite ?Hu4. cbn [massert Z.eqb assert_or mbind res_bind]. rewrite !Z.ltb_irrefl. cbn [mbind res_bind Z.ltb Z.compare].
        destruct (Z.ltb_spec (up a) (dn b)); [|lia]. destruct (append_block _ _ _) as [s2|]; [|done]. cbn [mbind res_bind].
        assert (Em : (dn b - up a) mod 4096 = 0) by dmlia. rewrite Em. done.
Qed.

(** ** The state between two steps *)

Section Select.
Context (m0 : memory).

(** As for the normal sweep, but headers behind the lists may be written too. *)
Record selecting (s : sweep) (F B : list (Z * Z)) (K : list Z) (p : Z) : Prop := {
  se_ok : sweep_ok s F B;
  se_mem : swept m0 (nodes F B) K (sw_mem s);
  se_kept k : k ∈ K -> ~ touched (nodes F B) k;
  se_before x : x ∈ nodes F B -> x + 8 <= p }.

Lemma selecting_mono s F B K p q : selecting s F B K p -> p <= q -> selecting s F B K q.
Proof. intros [H1 H2 H3 H4] Hq. split; try done. intros x Hx. specialize (H4 x Hx). lia. Qed.

Lemma selecting_freed n s F B K p : selecting s F B K p -> selecting (add_freed n s) F B K p.
Proof. intros [? ? ? ?]. split; [by apply add_freed_ok|done..]. Qed.

Lemma selecting_marked n s F B K p : selecting s F B K p -> selecting (add_marked n s) F B K p.
Proof. intros [? ? ? ?]. split; [by apply add_marked_ok|done..]. Qed.

(** A node at [a], which no header overlaps. *)
Definition clear_of (K : list Z) (p a : Z) : Prop := forall k, k ∈ K -> k + 8 <= p \/ a + 8 <= k.

Lemma selecting_inserted s s' F B F' B' K p q a : selecting s F B K p -> inserted s s' F B F' B' ->
  (forall x, x ∈ nodes F' B' <-> x ∈ nodes F B \/ x = a) -> p <= a -> a + 8 <= q -> clear_of K p a -> selecting s' F' B' K q.
Proof.
  intros [H1 H2 H3 H4] Hi Hn Hp Hq Hk. split; [apply Hi|eapply swept_inserted; [exact H2|exact Hi|]| |].
  - intros x (y & Hy & Hr). exists y. split; [apply Hn; by left|done].
  - intros k Hkk (y & [Hy| ->]%Hn & Hr); [apply (H3 k Hkk); by exists y|]. destruct (Hk k Hkk); lia.
  - intros x [Hx| ->]%Hn; [specialize (H4 x Hx)|]; lia.
Qed.

Lemma selecting_apart s F B K p a : selecting s F B K p -> p <= a -> Forall (apart a) (nodes F B).
Proof. intros [_ _ _ H4] Hp. apply Forall_forall. intros x Hx. specialize (H4 x Hx). unfold apart. lia. Qed.

Lemma selecting_node s F B K p a : selecting s F B K p -> 0 < a -> acc m0 a -> acc m0 (a + 4) -> node_ok (sw_mem s) a.
Proof. intros [_ [Hr _] _ _] Ha A1 A2. unfold node_ok, acc in *. rewrite Hr. split_and!; [lia|done|done]. Qed.

Lemma select_chunk s F B K p a n q : selecting s F B K p -> p <= a -> 0 < a -> chunk_fits n -> acc m0 a -> acc m0 (a + 4) -> a + 8 <= q ->
  clear_of K p a -> exists s', insert_freechunk a n s = Ok s' /\ selecting s' (F ++ [(a, n)]) B K q.
Proof.
  intros Hs Hp Ha Hn A1 A2 Hq Hk. destruct (insert_freechunk_spec s F B a n (se_ok _ _ _ _ _ Hs)) as (s' & E & Hi); [by eapply selecting_node|done|by eapply selecting_apart|].
  exists s'. split; [exact E|]. eapply selecting_inserted; [exact Hs|exact Hi| |exact Hp|exact Hq|exact Hk].
  intros x. unfold nodes. rewrite fmap_app, !elem_of_app. cbn. rewrite list_elem_of_singleton. tauto.
Qed.

Lemma select_group s F B K p a n q : selecting s F B K p -> p <= a -> 0 < a -> acc m0 a -> acc m0 (a + 4) -> a + 8 <= q ->
  clear_of K p a -> exists s', append_block a n s = Ok s' /\ selecting s' F (B ++ [(a, n)]) K q.
Proof.
  intros Hs Hp Ha A1 A2 Hq Hk. destruct (append_block_spec s F B a n (se_ok _ _ _ _ _ Hs)) as (s' & E & Hi); [by eapply selecting_node|by eapply selecting_apart|].
  exists s'. split; [exact E|]. eapply selecting_inserted; [exact Hs|exact Hi| |exact Hp|exact Hq|exact Hk].
  intros x. unfold nodes. rewrite fmap_app, !elem_of_app. cbn. rewrite list_elem_of_singleton. tauto.
Qed.

(** The memory between [a] and [b], of a region from [lo] to [hi]. *)
Lemma insert_freemem_spec s F B K p a b lo hi : selecting s F B K p -> a mod 8 = 4 -> b mod 8 = 4 -> a < b ->
  0 < lo <= a -> lo <= up a -> b + 4 <= hi -> dn b <= hi -> hi + 4096 <= 2 ^ 32 -> accessible m0 lo hi -> p <= a -> p <= up a ->
  (forall k, k ∈ K -> k + 8 <= p \/ b <= k) ->
  exists s', insert_freemem a b s = Ok s' /\ selecting s' (F ++ free_chunks a b) (B ++ free_groups a b) K (b + 4).
Proof.
  intros Hs Ha Hb Hab Hlo Hlo' Hhi Hhi' H32 Hacc Hp Hpu Hk. destruct (up_bound a Ha) as [Hu Hu4], (dn_bound b Hb) as [Hd Hd4].
  rewrite insert_freemem_eq by (done || lia). unfold free_chunks, free_groups.
  assert (Hclear : forall x, x + 8 <= b -> clear_of K p x) by (intros x Hx k Hkk; destruct (Hk k Hkk); [by left|right; lia]).
  destruct (norm_end b Hb) as [_ Hcase]. destruct (Z.ltb_spec (dn b) (up a)).
  - destruct (Z.ltb_spec (up a) (dn b)); [lia|]. rewrite app_nil_r.
    apply (select_chunk s F B K p a (b - a) (b + 4) Hs Hp); [lia| | | |dmlia|apply Hclear; dmlia].
    + destruct Hcase as [(_ & _ & _ & ?)|(_ & _ & ?)]; split; dmlia.
    + apply Hacc; [lia|dmlia].
    + apply Hacc; [lia|dmlia].
  - assert (Htail : exists s1, (if mid a then insert_freechunk a (up a - 4 - a) s else Ok s) = Ok s1 /\
      selecting s1 (F ++ (if mid a then [(a, up a - 4 - a)] else [])) B K (up a) /\ (mid a = false -> s1 = s)).
    { destruct (norm_start a Ha) as [(-> & _ & _ & _ & ? & ?)|(-> & _)].
      - destruct (select_chunk s F B K p a (up a - 4 - a) (up a) Hs Hp) as (s1 & E & Hs1); [lia|split; dmlia|apply Hacc; [lia|dmlia]|apply Hacc; [lia|dmlia]|lia|apply Hclear; lia|].
        by exists s1.
      - exists s. rewrite app_nil_r. split; [done|]. split; [|done]. by eapply selecting_mono. }
    assert (Hku : forall k, k ∈ K -> k + 8 <= up a \/ b <= k) by (intros k Hkk; destruct (Hk k Hkk); [left; lia|by right]).
    destruct Htail as (s1 & -> & Hs1 & _). cbn [mbind res_bind]. set (F1 := F ++ _) in *.
    assert (Hmiddle : exists s2, (if up a <? dn b then append_block (up a) (dn b - up a) s1 else Ok s1) = Ok s2 /\
      selecting s2 F1 (B ++ (if up a <? dn b then [(up a, dn b - up a)] else [])) K (dn b)).
    { destruct (Z.ltb_spec (up a) (dn b)).
      - apply (select_group s1 F1 B K (up a) (up a) (dn b - up a) (dn b) Hs1); [lia|lia|apply Hacc; [dmlia|dmlia]|apply Hacc; [dmlia|dmlia]|dmlia|].
        intros k Hkk. destruct (Hku k Hkk); [by left|right; dmlia].
      - exists s1. rewrite app_nil_r. split; [done|]. by eapply selecting_mono. }
    destruct Hmiddle as (s2 & -> & H2). cbn [mbind res_bind]. rewrite app_assoc. fold F1.
    assert (Hkd : forall k, k ∈ K -> k + 8 <= dn b \/ b <= k) by (intros k Hkk; destruct (Hku k Hkk); [left; lia|by right]).
    destruct Hcase as [(-> & _ & Hm & ?)|(-> & _)].
    + apply (select_chunk s2 _ _ K (dn b) (dn b + 4) (b - (dn b + 4)) (b + 4) H2); [lia|lia|split; dmlia|apply Hacc; [lia|dmlia]|apply Hacc; [lia|dmlia]|lia|].
      intros k Hkk. destruct (Hkd k Hkk); [by left|right; lia].
    + exists s2. rewrite app_nil_r. split; [done|]. eapply selecting_mono; [exact H2|lia].
Qed.

(** ** Objects *)

Lemma select_unmark s F B K p h : selecting s F B K p -> p <= h -> acc m0 h -> h ∉ K ->
  exists s', unmark (h + 4) s = Ok s' /\ selecting s' F B (K ++ [h]) p.
Proof.
  intros [H1 [R2 H2] H3 H4] Hp Ha Hk. assert (Hnt : ~ touched (nodes F B) h) by (intros (x & Hx & Hr); specialize (H4 x Hx); lia).
  assert (Ha' : acc (sw_mem s) h) by (unfold acc; by rewrite R2).
  unfold unmark, HEADER, set_HEADER. change GC_HEAD with 4. replace (h + 4 - 4) with h by lia. rewrite (ld_acc _ _ Ha'). cbn [mbind res_bind].
  rewrite (st_acc _ _ _ Ha'). cbn [mbind res_bind]. rewrite (H2 h Hnt), decide_False by done. eexists. split; [done|]. split.
  - apply sweep_ok_ext; [|done]. by apply agree_upd.
  - split; [done|]. intros a Hta. cbn [sw_mem set_sweep]. rewrite rd_upd. destruct (Z.eqb_spec h a) as [<-|Hne].
    + rewrite decide_True; [done|]. apply elem_of_app. right. left.
    + rewrite H2 by done. destruct (decide (a ∈ K)) as [Hin|Hin].
      * rewrite decide_True; [done|]. apply elem_of_app. by left.
      * rewrite decide_False; [done|]. intros [?|E%list_elem_of_singleton]%elem_of_app; congruence.
  - intros k [Hin| ->%list_elem_of_singleton]%elem_of_app; [by apply H3|done].
  - exact H4.
Qed.

Lemma select_size s F B K p h : selecting s F B K p -> h ∈ K -> acc m0 h -> SIZE (sw_mem s) (h + 4) = Ok (mask_size (rd m0 h)).
Proof.
  intros [_ [R2 H2] H3 _] Hk Ha. unfold SIZE, HEADER. change GC_HEAD with 4. replace (h + 4 - 4) with h by lia.
  rewrite ld_acc by (unfold acc in *; by rewrite R2). cbn [mbind res_bind]. rewrite (H2 h (H3 h Hk)), decide_True by done.
  by destruct (clear_mark_spec (rd m0 h)) as (-> & _).
Qed.

(** ** One region *)

(** An object with its size. *)
Definition osize (h : Z) : Z * Z := (h, mask_size (rd m0 h)).

Section Region.
Context (objects : list Z) (base : Z) (lo hi : Z).
Hypothesis (Hlo : 0 < lo /\ lo mod 4096 = 0 /\ hi mod 4096 = 0 /\ lo < hi /\ hi + 4096 <= 2 ^ 32) (Hacc : accessible m0 lo hi).

Abbreviation object := (object objects base).

Lemma free_between_spec s F B K p a b : selecting s F B K p -> a mod 8 = 4 -> b mod 8 = 4 -> a <= b ->
  lo <= a -> lo <= up a -> b + 4 <= hi -> dn b <= hi -> p <= a -> p <= up a -> (forall k, k ∈ K -> k + 8 <= p \/ b <= k) ->
  exists s', free_between a b s = Ok s' /\
    selecting s' (F ++ (if a <? b then free_chunks a b else [])) (B ++ (if a <? b then free_groups a b else [])) K (b + 4).
Proof.
  intros Hs Ha Hb Hab ? ? ? ? ? ? Hk. unfold free_between. destruct (Z.ltb_spec a b).
  - destruct (insert_freemem_spec s F B K p a b lo hi Hs Ha Hb) as (s' & -> & Hs'); try done; try lia. cbn [mbind res_bind].
    eexists. split; [done|]. by apply selecting_freed.
  - exists s. rewrite !app_nil_r. split; [done|]. eapply selecting_mono; [exact Hs|lia].
Qed.

(** What [sweep_region_selective] does after the first object. *)
Definition finish_region (n : nat) (i : Z) (s : sweep) : res failure (Z * sweep) :=
  '(i, s) ← sweep_between objects base n lo hi i s;
  o ← object i;
  _ ← assert_inside lo hi o;
  size ← SIZE (sw_mem s) o;
  s ← free_between (o - GC_HEAD + size) (hi - GC_HEAD) s;
  Ok (i, add_marked size s).

Lemma assert_inside_ok o : lo < o < hi -> assert_inside lo hi o = Ok tt.
Proof. intros Ho. unfold assert_inside, massert, assert_or. destruct (Z.ltb_spec lo o), (Z.ltb_spec o hi); try lia. done. Qed.

Definition in_block (h : Z) : Prop := 0 < mask_size (rd m0 h) /\ acc m0 h /\ (h + mask_size (rd m0 h)) mod 4096 <> 4.

Lemma up_after a : a mod 8 = 4 -> a mod 4096 <> 4 -> a <= up a.
Proof. intros Ha Hn. unfold up. destruct (Z.eqb_spec (a mod 4096) 4); [done|]. case_test; dmlia. Qed.

Lemma finish_region_spec ks : forall n k i s F B K, let a := k + mask_size (rd m0 k) in
  object i = Ok (k + 4) -> (forall j h, ks !! j = Some h -> object (i + 1 + Z.of_nat j) = Ok (h + 4)) ->
  (exists z, object (i + 1 + Z.of_nat (length ks)) = Ok z /\ hi <= z) -> (length ks <= n)%nat ->
  Forall in_block (k :: ks) -> lo + 4 <= k -> k mod 8 = 4 -> laid a (osize <$> ks) (hi - 4) ->
  selecting s F B K a -> k ∈ K -> (forall x, x ∈ K -> x <= k) ->
  exists s', finish_region n i s = Ok (i + Z.of_nat (length ks), s') /\
    selecting s' (F ++ sel_chunks a (osize <$> ks) (hi - 4)) (B ++ sel_groups a (osize <$> ks) (hi - 4)) (K ++ ks) hi.
Proof.
  induction ks as [|h ks IH]; intros n k i s F B K a Ho Hks (z & Hz & Hzhi) Hn Hb Hk Hk8 Hl Hs HkK HK;
    apply Forall_cons in Hb as [(Hpos & Hka & Hne) Hb]; fold a in Hne;
    assert (Ha8 : a mod 8 = 4) by (unfold a; rewrite mask_size_spec in *; dmlia); assert (Hge : k + 8 <= a) by (unfold a; rewrite mask_size_spec in *; lia);
    pose proof (laid_le _ _ _ Hl) as Hle; pose proof (up_after a Ha8 Hne) as Hua; unfold finish_region.
  - cbn [length fmap list_fmap sel_chunks sel_groups] in *. replace (i + 1 + Z.of_nat 0) with (i + 1) in Hz by lia. replace (i + Z.of_nat 0) with i by lia.
    assert (E : sweep_between objects base n lo hi i s = Ok (i, s)).
    { destruct n; cbn [sweep_between]; rewrite Hz; cbn [mbind res_bind]; destruct (Z.ltb_spec z hi); done || lia. }
    rewrite E. cbn [mbind res_bind]. rewrite Ho. cbn [mbind res_bind]. rewrite assert_inside_ok by lia. cbn [mbind res_bind].
    rewrite (select_size _ _ _ _ _ _ Hs HkK Hka). cbn [mbind res_bind]. change GC_HEAD with 4.
    replace (k + 4 - 4 + mask_size (rd m0 k)) with a by (unfold a; lia).
    destruct (free_between_spec s F B K a a (hi - 4) Hs Ha8) as (s' & -> & Hs'); try lia; try dmlia.
    { unfold dn. repeat case_test; dmlia. } { intros x Hx. specialize (HK x Hx). lia. }
    cbn [mbind res_bind]. rewrite app_nil_r. eexists. split; [done|]. apply selecting_marked. eapply selecting_mono; [exact Hs'|lia].
  - cbn [fmap list_fmap osize laid] in Hl. destruct Hl as (L1 & L2 & L3 & L4 & L5). pose proof (laid_le _ _ _ L5) as Hle2.
    destruct n as [|n]; [simpl in Hn; lia|]. pose proof (Hks 0%nat h eq_refl) as Hh. replace (i + 1 + Z.of_nat 0) with (i + 1) in Hh by lia.
    pose proof Hb as [(Hhp & Hha & Hhne) _]%Forall_cons. cbn [sweep_between]. rewrite Hh. cbn [mbind res_bind].
    destruct (Z.ltb_spec (h + 4) hi); [|lia]. rewrite Ho. cbn [mbind res_bind]. unfold massert at 1. destruct (Z.ltb_spec (k + 4) (h + 4)); [|lia].
    cbn [assert_or mbind res_bind]. rewrite !assert_inside_ok by lia. cbn [mbind res_bind].
    destruct (select_unmark s F B K a h Hs L1 Hha) as (s1 & -> & Hs1); [intros Hin; specialize (HK h Hin); lia|]. cbn [mbind res_bind].
    rewrite (select_size _ _ _ _ _ _ Hs1 ltac:(apply elem_of_app; by left) Hka). cbn [mbind res_bind]. change GC_HEAD with 4.
    replace (k + 4 - 4 + mask_size (rd m0 k)) with a by (unfold a; lia). replace (h + 4 - 4) with h by lia.
    destruct (free_between_spec s1 F B (K ++ [h]) a a h Hs1 Ha8) as (s2 & -> & Hs2); try lia; try done.
    { unfold dn. repeat case_test; dmlia. }
    { intros x [Hx| ->%list_elem_of_singleton]%elem_of_app; [specialize (HK x Hx)|]; lia. }
    cbn [mbind res_bind]. set (s3 := add_marked _ s2).
    destruct (IH n h (i + 1) s3 (F ++ (if a <? h then free_chunks a h else [])) (B ++ (if a <? h then free_groups a h else [])) (K ++ [h])) as (s' & E & Hs').
    + exact Hh.
    + intros j x Hx. replace (i + 1 + 1 + Z.of_nat j) with (i + 1 + Z.of_nat (S j)) by lia. by apply Hks.
    + exists z. split; [|done]. rewrite <- Hz. f_equal. cbn [length]. lia.
    + simpl in Hn. lia.
    + exact Hb.
    + lia.
    + done.
    + exact L5.
    + apply selecting_marked. eapply selecting_mono; [exact Hs2|]. rewrite mask_size_spec in *. lia.
    + apply elem_of_app. right. left.
    + intros x [Hx| ->%list_elem_of_singleton]%elem_of_app; [specialize (HK x Hx)|]; lia.
    + exists s'. split.
      * etransitivity; [exact E|]. do 2 f_equal. cbn [length]. lia.
      * cbn [fmap list_fmap osize sel_chunks sel_groups]. by rewrite <- !app_assoc in Hs'.
Qed.

Lemma skip_objects_spec n : forall i j, i <= j -> j - i <= Z.of_nat n -> (forall x, i <= x < j -> exists o, object x = Ok o /\ o < lo) ->
  (exists o, object j = Ok o /\ lo <= o) -> skip_objects objects base n lo i = Ok j.
Proof.
  induction n as [|n IH]; intros i j Hij Hn Hbelow (o & Ho & Hge); cbn [skip_objects].
  - assert (i = j) as -> by lia. rewrite Ho. cbn [mbind res_bind]. destruct (Z.ltb_spec o lo); [lia|done].
  - destruct (Z.eq_dec i j) as [->|Hne].
    + rewrite Ho. cbn [mbind res_bind]. destruct (Z.ltb_spec o lo); [lia|done].
    + destruct (Hbelow i ltac:(lia)) as (oi & -> & Hoi). cbn [mbind res_bind]. destruct (Z.ltb_spec oi lo); [|lia].
      apply IH; [lia|lia| |by exists o]. intros x Hx. apply Hbelow. lia.
Qed.

Lemma sweep_region_selective_spec r n i j ks s F B K : rstart r = lo -> rend r = hi -> i <= j -> j - i <= Z.of_nat n ->
  (forall x, i <= x < j -> exists o, object x = Ok o /\ o < lo) -> (forall t h, ks !! t = Some h -> object (j + Z.of_nat t) = Ok (h + 4)) ->
  (exists z, object (j + Z.of_nat (length ks)) = Ok z /\ hi < z) -> (length ks <= n)%nat -> Forall in_block ks ->
  laid (lo + 4) (osize <$> ks) (hi - 4) -> selecting s F B K lo -> (forall x, x ∈ K -> x + 8 <= lo) ->
  exists i' s', sweep_region_selective objects base n r (i, s) = Ok (i', s') /\
    selecting s' (F ++ sel_chunks (lo + 4) (osize <$> ks) (hi - 4)) (B ++ sel_groups (lo + 4) (osize <$> ks) (hi - 4)) (K ++ ks) hi /\
    j <= i' /\ (forall x, j <= x < i' -> exists o, object x = Ok o /\ o < hi) /\ i' <= j + Z.of_nat (length ks).
Proof.
  intros Er1 Er2 Hij Hjn Hbelow Hks (z & Hz & Hzhi) Hn Hb Hl Hs HK. destruct Hlo as (Hlo1 & Hlo2 & Hlo3 & Hlo4 & Hlo5).
  destruct (sel_region lo hi [] Hlo2 Hlo3 Hlo4 ltac:(cbn; lia)) as [Hc0 Hg0]. cbn [flat_map fmap list_fmap between] in Hc0, Hg0.
  unfold sweep_region_selective. rewrite Er1, Er2. destruct ks as [|k ks].
  - cbn [length fmap list_fmap] in *. replace (j + Z.of_nat 0) with j in Hz by lia.
    rewrite (skip_objects_spec n i j Hij Hjn Hbelow) by (exists z; split; [done|lia]). cbn [mbind res_bind]. rewrite Hz. cbn [mbind res_bind].
    destruct (Z.ltb_spec hi z); [|lia]. rewrite Hc0, Hg0, !app_nil_r. destruct (Z.ltb_spec lo hi); [|lia].
    destruct (select_group s F B K lo lo (hi - lo) hi Hs) as (s' & -> & Hs'); [lia|lia|apply Hacc; dmlia|apply Hacc; dmlia|dmlia| |].
    { intros k Hk. left. by apply HK. }
    cbn [mbind res_bind]. eexists _, _. split; [done|]. split; [by apply selecting_freed|]. split_and!; [lia| |lia]. intros x Hx. lia.
  - pose proof (Hks 0%nat k eq_refl) as Hk. replace (j + Z.of_nat 0) with j in Hk by lia. cbn [fmap list_fmap osize laid] in Hl.
    destruct Hl as (L1 & L2 & L3 & L4 & L5). pose proof (laid_le _ _ _ L5) as Hle. pose proof Hb as [(Hkp & Hka & Hkne) _]%Forall_cons.
    rewrite (skip_objects_spec n i j Hij Hjn Hbelow) by (exists (k + 4); split; [done|lia]). cbn [mbind res_bind]. rewrite Hk. cbn [mbind res_bind].
    destruct (Z.ltb_spec hi (k + 4)); [rewrite mask_size_spec in *; lia|]. rewrite assert_inside_ok by (rewrite mask_size_spec in *; lia). cbn [mbind res_bind].
    destruct (select_unmark s F B K lo k Hs ltac:(lia) Hka) as (s1 & -> & Hs1); [intros Hin; specialize (HK k Hin); lia|]. cbn [mbind res_bind].
    change GC_HEAD with 4. change (MEMALIGN - 4) with 4. replace (k + 4 - 4) with k by lia.
    assert (Hup : up (lo + 4) = lo) by (unfold up; case_test; dmlia).
    destruct (free_between_spec s1 F B (K ++ [k]) lo (lo + 4) k Hs1) as (s2 & -> & Hs2); try lia; try dmlia; try done.
    { rewrite mask_size_spec in *. unfold dn. repeat case_test; dmlia. }
    { intros x [Hx| ->%list_elem_of_singleton]%elem_of_app; [specialize (HK x Hx)|]; lia. }
    cbn [mbind res_bind].
    destruct (finish_region_spec ks n k j s2 (F ++ (if lo + 4 <? k then free_chunks (lo + 4) k else []))
      (B ++ (if lo + 4 <? k then free_groups (lo + 4) k else [])) (K ++ [k])) as (s' & E & Hs').
    + exact Hk.
    + intros t h Ht. replace (j + 1 + Z.of_nat t) with (j + Z.of_nat (S t)) by lia. by apply Hks.
    + exists z. split; [|lia]. rewrite <- Hz. f_equal. cbn [length]. lia.
    + simpl in Hn. lia.
    + exact Hb.
    + lia.
    + done.
    + exact L5.
    + eapply selecting_mono; [exact Hs2|]. rewrite mask_size_spec in *. lia.
    + apply elem_of_app. right. left.
    + intros x [Hx| ->%list_elem_of_singleton]%elem_of_app; [specialize (HK x Hx)|]; lia.
    + exists (j + Z.of_nat (length ks)), s'. split; [exact E|]. cbn [fmap list_fmap osize sel_chunks sel_groups]. split; [by rewrite <- !app_assoc in Hs'|].
      split; [lia|]. split; [|cbn [length]; lia]. intros x Hx. destruct (lookup_lt_is_Some_2 (k :: ks) (Z.to_nat (x - j))) as [h Hh]; [cbn [length]; lia|].
      exists (h + 4). split; [rewrite <- (Hks _ _ Hh); f_equal; lia|]. apply list_elem_of_lookup_2 in Hh.
      assert (Hlast : forall ks a, laid a (osize <$> ks) (hi - 4) -> h ∈ ks -> h + mask_size (rd m0 h) <= hi - 4).
      { clear. induction ks as [|y ks IH]; intros a Hl Hin; [by apply elem_of_nil in Hin|]. cbn in Hl. destruct Hl as (_ & _ & _ & _ & Hl).
        apply elem_of_cons in Hin as [->|Hin]; [by eapply laid_le|by eapply IH]. }
      assert (Hh2 : h + mask_size (rd m0 h) <= hi - 4) by (apply (Hlast (k :: ks) (lo + 4)); [cbn; split_and!; done|done]).
      rewrite Forall_forall in Hb. destruct (Hb h Hh) as (Hhp & _). rewrite mask_size_spec in *. lia.
Qed.

End Region.

(** ** The objects of a region by blocks *)

Lemma laid_mono a a' ks e : a' <= a -> laid a ks e -> laid a' ks e.
Proof. destruct ks as [|[k n] ks]; cbn; [lia|]. intros Ha (? & H). split; [lia|done]. Qed.

Lemma laid_app a ks1 e1 ks2 e2 : laid a ks1 e1 -> laid e1 ks2 e2 -> laid a (ks1 ++ ks2) e2.
Proof.
  revert a. induction ks1 as [|[k n] ks1 IH]; intros a H1 H2; cbn in *; [by eapply laid_mono|].
  destruct H1 as (? & ? & ? & ? & H1). split_and!; try done. by apply IH.
Qed.

Lemma lblocks_mono x x' qs e : x' <= x -> lblocks x qs e -> lblocks x' qs e.
Proof. destruct qs as [|[b ks] qs]; cbn; [lia|]. intros Hx (? & H). split; [lia|done]. Qed.

Lemma lblocks_laid qs : forall x e, lblocks x qs e -> laid (x - 4) (flat_map snd qs) (e - 4).
Proof.
  induction qs as [|[b ks] qs IH]; intros x e Hq; cbn in Hq |- *; [lia|]. destruct Hq as (H1 & _ & _ & H2 & H3).
  eapply laid_app; [|apply (IH (b + 4096) e H3)]. replace (b + 4096 - 4) with (b + 4092) by lia. eapply laid_mono; [|exact H2]. lia.
Qed.

Lemma lblocks_laid_in qs x e : x mod 4096 = 0 -> e mod 4096 = 0 -> x < e -> lblocks x qs e -> laid (x + 4) (flat_map snd qs) (e - 4).
Proof.
  intros Hx He Hlt Hq. pose proof (lblocks_laid qs x e Hq) as Hl. destruct qs as [|[b [|[k n] ks]] qs]; cbn in *; [dmlia| |].
  - by destruct Hq as (_ & _ & ? & _).
  - destruct Hq as (H1 & _ & _ & (H2 & _) & _), Hl as (_ & Hl). split; [lia|done].
Qed.

Lemma kept_laid bound a L : tiled m0 bound a L -> a mod 8 = 4 -> laid a (osize <$> kept m0 L) bound.
Proof.
  unfold kept. induction 1 as [|h L A N Hb T IH]; intros Ha; [cbn; lia|]. rewrite filter_cons.
  assert (H8 : (h + mask_size (rd m0 h)) mod 8 = 4) by (rewrite mask_size_spec; dmlia). specialize (IH H8). destruct (decide (mk m0 h)).
  - cbn. split_and!; [lia|done|done|rewrite mask_size_spec; dmlia|done].
  - eapply laid_mono; [|exact IH]. lia.
Qed.

Context (ts : gmap Z (list Z)).

(** The blocks of a region that have live objects. *)
Definition live_blocks (r : region) (l : list Z) : list lblock :=
  flat_map (fun pos => if live_block m0 ts r pos then [(block_start r pos, osize <$> block_kept m0 ts r pos)] else []) l.

Lemma live_blocks_spec r n : forall p, region_ok m0 ts r -> 0 <= p -> p + Z.of_nat n <= 512 -> let l := seqZ p (Z.of_nat n) in
  lblocks (block_start r p) (live_blocks r l) (block_start r (p + Z.of_nat n)) /\
  flat_map snd (live_blocks r l) = osize <$> region_kept m0 ts r l /\
  flat_map block_chunks_of (live_blocks r l) = region_gaps m0 ts r l /\
  whole <$> live_blocks r l = keeps_at (block_item m0 ts r <$> l) (block_start r p).
Proof.
  induction n as [|n IH]; intros p Hok Hp Hn; cbv zeta.
  - change (Z.of_nat 0) with 0. rewrite Z.add_0_r. split_and!; try done. apply Z.le_refl.
  - rewrite seqZ_cons by lia. replace (Z.pred (Z.of_nat (S n))) with (Z.of_nat n) by lia.
    destruct (IH (Z.succ p) Hok ltac:(lia) ltac:(lia)) as (I1 & I2 & I3 & I4). replace (Z.succ p + Z.of_nat n) with (p + Z.of_nat (S n)) in I1 by lia.
    assert (Enext : block_start r (Z.succ p) = block_start r p + 4096) by (unfold block_start, GC_BLOCKSIZE; lia). rewrite Enext in I1, I4.
    destruct (ro_start _ _ _ Hok) as (R1 & R2 & R3). assert (Hb4 : block_start r p mod 4096 = 0) by (unfold block_start, GC_BLOCKSIZE; dmlia).
    unfold live_blocks, region_kept, region_gaps in *. rewrite fmap_cons. cbn [flat_map keeps_at block_item].
    destruct (live_block m0 ts r p) eqn:El; cbn [app].
    + destruct (live_kept _ _ _ _ El) as [Hu _]. destruct (ro_block _ _ _ Hok p ltac:(lia) Hu) as (Ht & _ & _).
      assert (Hne : block_kept m0 ts r p <> []) by (unfold live_block in El; by apply negb_true_iff, bool_decide_eq_false in El).
      cbn [lblocks flat_map snd fmap list_fmap whole fst]. rewrite I2, I3, I4, fmap_app. split_and!; try done; try lia.
      * destruct (block_kept m0 ts r p); done.
      * unfold block_kept. rewrite Hu. apply kept_laid; [exact Ht|]. dmlia.
      * f_equal. unfold block_chunks_of, block_gaps. rewrite El. cbn [fst snd]. destruct (tiled_sized _ _ _ _ Ht) as [Hsz Htot].
        rewrite (all_gaps_between 8) by (done || lia). rewrite Z.add_0_r, Htot, (tiled_keeps _ _ _ _ Ht). unfold block_kept. by rewrite Hu.
    + assert (Hnil : block_kept m0 ts r p = []) by (unfold live_block in El; by apply negb_false_iff, bool_decide_eq_true in El).
      unfold block_gaps at 1. rewrite Hnil, El. cbn [app]. split_and!; [|exact I2|exact I3|exact I4]. eapply lblocks_mono; [|exact I1]. lia.
Qed.

(** The lists of the two sweeps for one region. *)
Lemma region_lists r : region_ok m0 ts r -> let ks := region_kept m0 ts r (region_blocks r) in
  laid (rstart r + 4) (osize <$> ks) (rend r - 4) /\ Forall in_block ks /\
  sel_chunks (rstart r + 4) (osize <$> ks) (rend r - 4) = region_gaps m0 ts r (region_blocks r) /\
  sel_groups (rstart r + 4) (osize <$> ks) (rend r - 4) = groups m0 ts r.
Proof.
  intros Hok ks. destruct (ro_start _ _ _ Hok) as (R1 & R2 & R3). unfold ks. rewrite (region_blocks_seq _ _ _ Hok).
  destruct (live_blocks_spec r 512 0 Hok ltac:(lia) ltac:(lia)) as (I1 & I2 & I3 & I4). change (Z.of_nat 512) with 512 in *.
  replace (block_start r 0) with (rstart r) in * by (unfold block_start, GC_BLOCKSIZE; lia).
  replace (block_start r (0 + 512)) with (rend r) in I1 by (unfold block_start, GC_BLOCKSIZE, GC_REGIONSIZE in *; lia).
  assert (Hlt : rstart r < rend r /\ rend r mod 4096 = 0) by (unfold GC_REGIONSIZE in R3; split; [lia|dmlia]). destruct Hlt as [Hlt He].
  rewrite <- I2. destruct (sel_region (rstart r) (rend r) _ R2 He Hlt I1) as [-> ->]. split_and!.
  - by apply lblocks_laid_in.
  - apply Forall_forall. intros h Hh. apply elem_of_flat_map in Hh as (pos & Hpos & Hh). apply elem_of_seqZ in Hpos.
    unfold block_kept in Hh. destruct (in_use ts r pos) eqn:Hu; [|by apply elem_of_nil in Hh]. apply list_elem_of_filter in Hh as [_ Hh].
    destruct (ro_block _ _ _ Hok pos ltac:(lia) Hu) as (Ht & _). destruct (tiled_range _ _ _ _ _ Ht Hh) as (Hr & _ & Ha).
    pose proof (tiled_end_le _ _ _ _ _ Ht Hh). pose proof (tiled_positive _ _ _ _ _ Ht Hh) as Hp. split; [exact Hp|]. split; [exact Ha|].
    assert (block_start r pos mod 4096 = 0) by (unfold block_start, GC_BLOCKSIZE; dmlia). rewrite mask_size_spec in *. dmlia.
  - exact I3.
  - unfold groups. rewrite (region_blocks_seq _ _ _ Hok), (all_gaps_between 4096) by (apply block_items_sized || lia).
    rewrite Z.add_0_r, I4, block_items_total, length_seqZ. f_equal. unfold GC_REGIONSIZE in R3. lia.
Qed.

(** ** All regions *)

Lemma laid_in a ks e x : laid a ks e -> x ∈ ks -> a <= x.1 /\ x.1 + x.2 <= e.
Proof.
  revert a. induction ks as [|[k n] ks IH]; intros a Hl Hin; [by apply elem_of_nil in Hin|]. cbn in Hl. destruct Hl as (H1 & _ & H2 & _ & Hl).
  apply elem_of_cons in Hin as [->|Hin]; [cbn; apply laid_le in Hl; lia|]. destruct (IH _ Hl Hin). lia.
Qed.

(** Where the objects of a region are in the sorted array. *)
Definition split_at (L : list Z) (r : region) : Prop := exists pre post,
  L = pre ++ ((fun h => h + 4) <$> region_kept m0 ts r (region_blocks r)) ++ post /\
  (forall o, o ∈ pre -> o < rstart r) /\ (forall o, o ∈ post -> rend r < o) /\ post <> [].

Section Regions.
Context (objects : list Z) (base : Z) (L : list Z).
Hypothesis (HL : holds_at objects base L).

Lemma object_at i o : 0 <= i -> L !! Z.to_nat i = Some o -> object objects base i = Ok o.
Proof. intros Hi Ho. unfold object, at_index. rewrite (HL i o); [done|]. by apply zlookup_Some. Qed.

Lemma region_keeps_below r s F B K ks q : region_ok m0 ts r -> ks = region_kept m0 ts r (region_blocks r) ->
  selecting s F B (K ++ ks) q -> (forall x, x ∈ K -> x + 8 <= rstart r) -> forall x, x ∈ K ++ ks -> x + 8 <= rend r.
Proof.
  intros Hok -> _ HK x [Hx|Hx]%elem_of_app; destruct (ro_start _ _ _ Hok) as (_ & _ & R3).
  - specialize (HK x Hx). unfold GC_REGIONSIZE in R3. lia.
  - destruct (region_lists r Hok) as (Hl & Hb & _). rewrite Forall_forall in Hb. destruct (Hb x Hx) as (Hp & _).
    destruct (laid_in _ _ _ (osize x) Hl) as [_ He]; [apply list_elem_of_fmap; by exists x|]. cbn in He. rewrite mask_size_spec in *. lia.
Qed.

Lemma sweep_regions_selective_spec n l : (length L <= n)%nat -> regions_ok m0 ts l -> Forall (fun r => rend r + 4096 <= 2 ^ 32) l ->
  Forall (split_at L) l -> forall i s F B K p, selecting s F B K p -> (forall x, x ∈ K -> x + 8 <= p) -> Forall (fun r => p <= rstart r) l ->
  0 <= i < Z.of_nat (length L) -> (forall x o, (x < Z.to_nat i)%nat -> L !! x = Some o -> o < p) ->
  exists i' s' q, sweep_regions_selective objects base n l (i, s) = Ok (i', s') /\
    selecting s' (F ++ all_chunks m0 ts l) (B ++ all_groups m0 ts l) (K ++ all_kept m0 ts l) q /\ i' < Z.of_nat (length L).
Proof.
  intros Hn [Hok Hsort]. unfold all_chunks, all_groups, all_kept.
  induction Hsort as [|r l Hsort IH Hf]; intros H32 Hsp i s F B K p Hs HK Hp Hi Hbelow; cbn [sweep_regions_selective flat_map].
  { exists i, s, p. rewrite !app_nil_r. split; [done|]. split; [done|lia]. }
  apply Forall_cons in Hok as [Hrok Hok], H32 as [Hr32 H32], Hsp as [(pre & post & EL & Hpre & Hpost & Hne) Hsp], Hp as [Hpr Hp].
  destruct (ro_start _ _ _ Hrok) as (R1 & R2 & R3). pose proof (region_lists r Hrok) as (Hl & Hb & Ec & Eg). set (ks := region_kept m0 ts r (region_blocks r)) in *.
  assert (Hlen : (length L = length pre + length ks + length post)%nat) by (rewrite EL, !length_app, length_fmap; lia).
  assert (Hpostlen : (0 < length post)%nat) by (destruct post; [done|simpl; lia]).
  assert (Hks : forall t h, ks !! t = Some h -> object objects base (Z.of_nat (length pre) + Z.of_nat t) = Ok (h + 4)).
  { intros t h Ht. apply object_at; [lia|]. replace (Z.to_nat _) with (length pre + t)%nat by lia.
    rewrite EL, lookup_app_r by lia. replace (length pre + t - length pre)%nat with t by lia.
    rewrite lookup_app_l by (rewrite length_fmap; by eapply lookup_lt_Some). by rewrite list_lookup_fmap, Ht. }
  destruct post as [|z post]; [done|].
  assert (Hz : L !! (length pre + length ks)%nat = Some z).
  { rewrite EL, lookup_app_r by lia. rewrite lookup_app_r by (rewrite length_fmap; lia). rewrite length_fmap. by replace (_ - _ - _)%nat with 0%nat by lia. }
  assert (Hij : i <= Z.of_nat (length pre)).
  { destruct (Z.le_gt_cases i (Z.of_nat (length pre))) as [|Hgt]; [done|]. exfalso. destruct ks as [|k ks'] eqn:Eks.
    - specialize (Hbelow (length pre) z ltac:(lia)). simpl in Hz. rewrite Nat.add_0_r in Hz. specialize (Hbelow Hz).
      specialize (Hpost z ltac:(left)). unfold GC_REGIONSIZE in R3. lia.
    - specialize (Hbelow (length pre) (k + 4) ltac:(lia)). cbn in Hl. destruct Hl as (Hk & _).
      assert (Hkl : L !! length pre = Some (k + 4)) by (rewrite EL, lookup_app_r by lia; by rewrite Nat.sub_diag). specialize (Hbelow Hkl). lia. }
  destruct (sweep_region_selective_spec objects base (rstart r) (rend r)) with (r := r) (n := n) (i := i) (j := Z.of_nat (length pre)) (ks := ks) (s := s) (F := F) (B := B) (K := K)
    as (i1 & s1 & E & Hs1 & Hi1 & Hlt1 & Hi1').
  { unfold GC_REGIONSIZE in R3. split_and!; try done; try lia; dmlia. } { apply (ro_acc _ _ _ Hrok). } { done. } { done. } { exact Hij. } { lia. }
  { intros x Hx. destruct (lookup_lt_is_Some_2 pre (Z.to_nat x)) as [o Ho]; [lia|]. exists o. split; [|apply Hpre; by eapply list_elem_of_lookup_2].
    apply object_at; [lia|]. rewrite EL. by apply lookup_app_l_Some. }
  { exact Hks. }
  { exists z. split; [|apply Hpost; left]. apply object_at; [lia|]. rewrite <- Hz. f_equal. lia. }
  { lia. } { exact Hb. } { exact Hl. } { by eapply selecting_mono. } { intros x Hx. specialize (HK x Hx). lia. }
  rewrite E. cbn [mbind res_bind]. rewrite Ec, Eg in Hs1. rewrite !app_assoc.
  apply (IH Hok H32 Hsp i1 s1 _ _ _ (rend r) Hs1).
  - eapply region_keeps_below; [exact Hrok|done|exact Hs1|]. intros x Hx. specialize (HK x Hx). lia.
  - eapply Forall_impl; [exact Hf|done].
  - cbn [length] in Hlen. lia.
  - intros x o Hx Ho. destruct (decide (x < length pre)%nat) as [Hxp|Hxp].
    + rewrite EL, lookup_app_l in Ho by done. apply list_elem_of_lookup_2, Hpre in Ho. unfold GC_REGIONSIZE in R3. lia.
    + destruct (Hlt1 (Z.of_nat x) ltac:(lia)) as (o' & Ho' & Hlt). rewrite (object_at (Z.of_nat x) o) in Ho' by (rewrite ?Nat2Z.id; done || lia). injection Ho' as <-. exact Hlt.
Qed.

End Regions.

End Select.

(** ** The sorted array *)

Lemma filter_none (P : Z -> Prop) `{!forall x, Decision (P x)} L : (forall x, x ∈ L -> ~ P x) -> filter P L = [].
Proof.
  intros Hn. destruct (filter P L) as [|x L'] eqn:E; [done|]. assert (Hx : x ∈ filter P L) by (rewrite E; left).
  apply list_elem_of_filter in Hx as [Hp Hx]. by destruct (Hn x Hx).
Qed.

Lemma sorted_split (L : list Z) lo hi : StronglySorted Z.le L -> lo <= hi ->
  L = filter (fun x => x < lo) L ++ filter (fun x => lo <= x <= hi) L ++ filter (fun x => hi < x) L.
Proof.
  intros Hs Hle. induction Hs as [|x L Hs IH Hf]; [done|]. rewrite Forall_forall in Hf. rewrite !filter_cons.
  destruct (Z.lt_ge_cases x lo); [|destruct (Z.le_gt_cases x hi)].
  - rewrite (decide_True (P := x < lo)), (decide_False (P := lo <= x <= hi)), (decide_False (P := hi < x)) by lia. cbn. by f_equal.
  - rewrite (decide_False (P := x < lo)), (decide_True (P := lo <= x <= hi)), (decide_False (P := hi < x)) by lia.
    assert (E : filter (fun x => x < lo) L = []) by (apply filter_none; intros y Hy; specialize (Hf y Hy); lia). rewrite E in *. cbn in *. by f_equal.
  - rewrite (decide_False (P := x < lo)), (decide_False (P := lo <= x <= hi)), (decide_True (P := hi < x)) by lia.
    assert (E : filter (fun x => x < lo) L = []) by (apply filter_none; intros y Hy; specialize (Hf y Hy); lia).
    assert (E' : filter (fun x => lo <= x <= hi) L = []) by (apply filter_none; intros y Hy; specialize (Hf y Hy); lia). rewrite E, E' in *. cbn in *. by f_equal.
Qed.

Lemma laid_sorted m a ks e : laid a (osize m <$> ks) e -> StronglySorted Z.le ((fun h => h + 4) <$> ks) /\ NoDup ((fun h => h + 4) <$> ks).
Proof.
  revert a. induction ks as [|k ks IH]; intros a Hl; [split; constructor|]. cbn in Hl. destruct Hl as (_ & _ & Hp & _ & Hl).
  destruct (IH _ Hl) as [I1 I2]. assert (Hall : forall y, y ∈ ks -> k < y).
  { intros y Hy. destruct (laid_in _ _ _ (osize m y) Hl) as [? _]; [apply list_elem_of_fmap; by exists y|]. cbn in *. lia. }
  rewrite fmap_cons. split; constructor; try done.
  - apply Forall_fmap, Forall_forall. intros y Hy. specialize (Hall y Hy). cbn. lia.
  - intros (y & E & Hy)%list_elem_of_fmap. specialize (Hall y Hy). lia.
Qed.

(** What the mark stack holds in the collecting state: every marked object of
    the area once, and maybe objects outside its regions. *)
Record collected (m : memory) (ts : gmap Z (list Z)) (l : list region) (ps : list Z) : Prop := {
  co_marked p r : p ∈ ps -> r ∈ l -> rstart r <= p <= rend r -> marked_obj m ts l p;
  co_all p : marked_obj m ts l p -> p ∈ ps;
  co_nodup : NoDup ps;
  co_range p : p ∈ ps -> 0 < p < 2 ^ 32 - 1 }.

Lemma region_kept_marked m ts l r h : regions_ok m ts l -> r ∈ l -> h ∈ region_kept m ts r (region_blocks r) <->
  marked_obj m ts l (h + 4) /\ rstart r <= h + 4 <= rend r.
Proof.
  intros Hok Hr. pose proof (swept_region _ _ _ Hok r Hr) as Hrok. destruct (region_lists m ts r Hrok) as (Hl & Hb & _). split.
  - intros Hh. rewrite <- kept_marked by done. replace (h + 4 - 4) with h by lia. split; [unfold all_kept; apply elem_of_flat_map; by exists r|].
    destruct (laid_in _ _ _ (osize m h) Hl) as [H1 H2]; [apply list_elem_of_fmap; by exists h|]. cbn in *. rewrite Forall_forall in Hb. destruct (Hb h Hh). lia.
  - rewrite <- kept_marked by done. replace (h + 4 - 4) with h by lia. intros [(r' & Hr' & Hh)%elem_of_flat_map Hra].
    pose proof (swept_region _ _ _ Hok r' Hr') as Hrok'. destruct (region_lists m ts r' Hrok') as (Hl' & Hb' & _).
    destruct (laid_in _ _ _ (osize m h) Hl') as [H1 H2]; [apply list_elem_of_fmap; by exists h|]. cbn in *. rewrite Forall_forall in Hb'. destruct (Hb' h Hh) as (Hp & _).
    assert (Hs : regions_shape l) by (by eapply swept_shape). destruct (rs_region _ Hs r Hr) as (_ & _ & A2). unfold GC_REGIONSIZE in A2.
    assert (r' = r) as <-; [|done]. rewrite mask_size_spec in *. destruct (Z.eq_dec (h + 4) (rend r)).
    + apply (shape_unique l r' r h Hs Hr' Hr); lia.
    + apply (shape_unique l r' r (h + 4) Hs Hr' Hr); lia.
Qed.

Lemma collected_split m ts l ps L r : regions_ok m ts l -> collected m ts l ps -> r ∈ l -> rend r + 4096 <= 2 ^ 32 ->
  L ≡ₚ ps ++ [0; 0xFFFFFFFF] -> StronglySorted Z.le L -> split_at m ts L r.
Proof.
  intros Hok [H1 H2 H3 H4] Hr H32 HL Hs. pose proof (swept_region _ _ _ Hok r Hr) as Hrok. destruct (ro_start _ _ _ Hrok) as (R1 & R2 & R3).
  destruct (region_lists m ts r Hrok) as (Hl & _). destruct (laid_sorted m _ _ _ Hl) as [K1 K2].
  exists (filter (fun x => x < rstart r) L), (filter (fun x => rend r < x) L). split_and!.
  - rewrite (sorted_split L (rstart r) (rend r) Hs) at 1 by (unfold GC_REGIONSIZE in R3; lia). do 2 f_equal.
    eapply (StronglySorted_unique Z.le); [|exact K1|].
    + clear -Hs. induction Hs as [|x L Hs IH Hf]; [constructor|]. rewrite filter_cons. destruct (decide _); [|done]. constructor; [done|].
      apply Forall_forall. intros y [_ Hy]%list_elem_of_filter. rewrite Forall_forall in Hf. by apply Hf.
    + apply NoDup_Permutation; [|exact K2|].
      * apply NoDup_filter. rewrite HL. apply NoDup_app. split; [exact H3|]. split.
        -- intros x Hx [->|[->|Hn%elem_of_nil]%elem_of_cons]%elem_of_cons; [| |done]; specialize (H4 _ Hx); lia.
        -- repeat constructor; rewrite ?elem_of_cons; [intros [?|?%elem_of_nil]; [lia|done]|intros ?%elem_of_nil; done].
      * intros p. rewrite list_elem_of_filter, HL, elem_of_app, list_elem_of_fmap. split.
        -- intros [Hp [Hin|Hin]].
           ++ exists (p - 4). split; [lia|]. apply (region_kept_marked m ts l r (p - 4) Hok Hr). replace (p - 4 + 4) with p by lia.
              split; [by eapply H1|done].
           ++ exfalso. apply elem_of_cons in Hin as [->|[->|Hn%elem_of_nil]%elem_of_cons]; [lia| |done]. lia.
        -- intros (h & -> & [Hm Hra]%(region_kept_marked m ts l r h Hok Hr)). split; [done|]. left. by apply H2.
  - by intros o [? _]%list_elem_of_filter.
  - by intros o [? _]%list_elem_of_filter.
  - intros E. assert (Hin : 0xFFFFFFFF ∈ filter (fun x => rend r < x) L); [|rewrite E in Hin; by apply elem_of_nil in Hin].
    apply list_elem_of_filter. split; [lia|]. rewrite HL. apply elem_of_app. right. right. left.
Qed.

(** The array with the sentinels. *)
Lemma put_sentinels objects ps : holds_at objects 0 ps -> Z.of_nat (length ps) + 2 <= Z.of_nat (length objects) ->
  exists o1 o2, put_index objects (Z.of_nat (length ps)) 0 = Ok o1 /\ put_index o1 (Z.of_nat (length ps) + 1) 0xFFFFFFFF = Ok o2 /\
    holds_at o2 0 (ps ++ [0; 0xFFFFFFFF]) /\ length o2 = length objects.
Proof.
  intros Hh Hl. set (n := Z.of_nat (length ps)) in *. set (o1 := <[Z.to_nat n := 0]> objects). set (o2 := <[Z.to_nat (n + 1) := 0xFFFFFFFF]> o1).
  assert (L1 : length o1 = length objects) by apply length_insert.
  assert (S1 : zstore objects n 0 = Some o1) by (apply zstore_is_Some; lia).
  assert (S2 : zstore o1 (n + 1) 0xFFFFFFFF = Some o2) by (apply zstore_is_Some; rewrite L1; lia).
  exists o1, o2. unfold put_index. rewrite S1, S2. split_and!; [done|done| |unfold o2; by rewrite length_insert].
  assert (E2 : forall j, zlookup o2 j = if n + 1 =? j then Some 0xFFFFFFFF else if n =? j then Some 0 else zlookup objects j).
  { intros j. rewrite (zlookup_zstore _ _ _ j _ S2). destruct (_ =? j); [done|]. by apply zlookup_zstore. }
  intros j x Hj. rewrite E2. change (0 + j) with j. apply zlookup_Some in Hj as [Hj0 Hj]. destruct (decide (Z.to_nat j < length ps)%nat) as [Hlt|Hge].
  - rewrite lookup_app_l in Hj by done. destruct (Z.eqb_spec (n + 1) j), (Z.eqb_spec n j); try lia.
    apply (Hh j x). by apply zlookup_Some.
  - rewrite lookup_app_r in Hj by lia. destruct (Z.to_nat j - length ps)%nat as [|[|k]] eqn:Ek; [| |by destruct k]; injection Hj as <-.
    + destruct (Z.eqb_spec (n + 1) j), (Z.eqb_spec n j); try lia. done.
    + destruct (Z.eqb_spec (n + 1) j); [done|lia].
Qed.

Lemma start_selecting m : selecting m (mkSweep m init_freeindex 0 None 0 0) [] [] [] 0.
Proof. destruct (start_sweeping m) as [H1 H2 H3 [H4 _]]. by split. Qed.

Lemma sweep_selective_runs m ts l objects ps : regions_ok m ts l -> Forall (fun r => rend r + 4096 <= 2 ^ 32) l -> collected m ts l ps ->
  holds_at objects 0 ps -> 2 * (Z.of_nat (length ps) + 2) <= Z.of_nat (length objects) ->
  exists m' chunks blocks marked freed, sweep_small_selective l objects (Z.of_nat (length ps)) m = Ok (m', chunks, blocks, marked, freed) /\
    swept_to m ts l m' chunks blocks.
Proof.
  intros Hok H32 Hco Hh Hroom. destruct (put_sentinels objects ps Hh ltac:(lia)) as (o1 & o2 & E1 & E2 & Hh2 & Hl2).
  unfold sweep_small_selective. rewrite E1. cbn [mbind res_bind]. rewrite E2. cbn [mbind res_bind].
  destruct (sort_objects_runs o2 0 (ps ++ [0; 0xFFFFFFFF]) ltac:(lia) Hh2) as (a & base & L & E3 & HhL & HL & Hs & _ & _).
  { intros x [Hx|Hx]%elem_of_app; [destruct (co_range _ _ _ _ Hco x Hx); unfold in_u; lia|].
    apply elem_of_cons in Hx as [->|[->|Hn%elem_of_nil]%elem_of_cons]; [unfold in_u; lia|unfold in_u; lia|done]. }
  { rewrite Hl2, length_app. cbn [length]. lia. }
  rewrite length_app in E3. cbn [length] in E3. replace (Z.of_nat (length ps + 2)) with (Z.of_nat (length ps) + 2) in E3 by lia.
  rewrite E3. cbn [mbind res_bind].
  assert (HLlen : Z.of_nat (length L) = Z.of_nat (length ps) + 2) by (rewrite HL, length_app; cbn [length]; lia).
  destruct (sweep_regions_selective_spec m ts a base L HhL (Z.to_nat (Z.of_nat (length ps) + 2)) l) with (i := 0) (s := mkSweep m init_freeindex 0 None 0 0)
    (F := @nil (Z * Z)) (B := @nil (Z * Z)) (K := @nil Z) (p := 0) as (i & s & q & E4 & [S1 S2 S3 _] & Hi).
  { lia. } { exact Hok. } { exact H32. }
  { apply Forall_forall. intros r Hr. rewrite Forall_forall in H32. by apply (collected_split m ts l ps L r); auto. }
  { apply start_selecting. } { by intros x ?%elem_of_nil. }
  { apply Forall_forall. intros r Hr. destruct (ro_start _ _ _ (swept_region _ _ _ Hok r Hr)) as (? & _). lia. }
  { lia. } { lia. }
  rewrite E4. cbn [mbind res_bind app] in *. unfold massert. destruct (Z.ltb_spec i (Z.of_nat (length ps) + 2)); [|lia]. cbn [assert_or mbind res_bind].
  by apply finish_sweep_spec.
Qed.

(** ** The two sweeps agree *)

Lemma chain_links m m' p l : chain m p l -> chain m' p l -> forall x, x ∈ l -> rd m (x + 4) = rd m' (x + 4).
Proof.
  revert p. induction l as [|y l IH]; intros p; cbn; [by intros _ _ x ?%elem_of_nil|].
  intros (-> & _ & H1) (_ & _ & H2) x [->|Hx]%elem_of_cons.
  - destruct l as [|z l]; cbn in H1, H2; [congruence|]. by destruct H1 as (-> & _), H2 as (-> & _).
  - assert (E : rd m (y + 4) = rd m' (y + 4)) by (destruct l as [|z l]; cbn in H1, H2; [congruence|by destruct H1 as (-> & _), H2 as (-> & _)]).
    rewrite <- E in H2. by apply (IH (rd m (y + 4))).
Qed.

Lemma chain_acc m p l x : chain m p l -> x ∈ l -> acc m x.
Proof. revert p. induction l as [|y l IH]; intros p; cbn; [by intros _ ?%elem_of_nil|]. intros (_ & (_ & ? & _) & Hc) [->|Hx]%elem_of_cons; [done|by eapply IH]. Qed.

Lemma acc_aligned m a : acc m a -> a mod 4 = 0.
Proof. unfold acc, mapped. intros [H%Z.eqb_eq _]%andb_true_iff. exact H. Qed.

Lemma chunk_merged m ts l c : regions_ok m ts l -> c ∈ all_chunks m ts l -> c.1 ∈ merged (all_chunks m ts l) 511.
Proof.
  intros Hok Hc. rewrite <- merged_fst. apply list_elem_of_fmap. exists c. split; [done|]. apply elem_of_merged_chunks. split; [exact Hc|].
  destruct c as [x n]. pose proof Hc as (r & pos & Hr & Hp & Hg)%elem_of_chunks; [|done].
  destruct (block_gaps_bounds _ _ _ _ _ _ (swept_region _ _ _ Hok r Hr) Hp Hg) as (_ & _ & [? ?] & _). cbn. dmlia.
Qed.

(** What a sweep must leave determines every word. *)
Lemma swept_to_unique m ts l m1 c1 b1 m2 c2 b2 : regions_ok m ts l -> swept_to m ts l m1 c1 b1 -> swept_to m ts l m2 c2 b2 ->
  c1 = c2 /\ b1 = b2 /\ ranges m1 = ranges m2 /\ forall a, a mod 4 = 0 -> rd m1 a = rd m2 a.
Proof.
  intros Hok [A1 A2 A3 A4 A5 A6 A7] [B1 B2 B3 B4 B5 B6 B7].
  pose proof (chain_hd0 _ _ _ A1) as E1. pose proof (chain_hd0 _ _ _ B1) as E2. pose proof (chain_hd0 _ _ _ A2) as E3. pose proof (chain_hd0 _ _ _ B2) as E4.
  assert (Ec : c1 = c2) by congruence. assert (Eb : b1 = b2) by congruence. split; [exact Ec|]. split; [exact Eb|]. rewrite <- Ec in B1. rewrite <- Eb in B2.
  split; [by rewrite (proj1 A3), (proj1 B3)|]. intros a Ha.
  destruct (decide (Exists (fun x => x <= a < x + 8) (nodes (all_chunks m ts l) (all_groups m ts l)))) as [(x & Hx & Hr)%Exists_exists|Hn].
  - assert (Hnode : rd m1 x = rd m2 x /\ rd m1 (x + 4) = rd m2 (x + 4) /\ x mod 4 = 0).
    { apply elem_of_app in Hx as [(c & -> & Hc)%list_elem_of_fmap|(g & -> & Hg)%list_elem_of_fmap].
      - pose proof (chunk_merged _ _ _ _ Hok Hc) as Hm. split; [by rewrite (A5 c Hc), (B5 c Hc)|]. split; [eapply chain_links; [exact A1|exact B1|exact Hm]|]. eapply acc_aligned, chain_acc; [exact A1|exact Hm].
      - assert (Hm : g.1 ∈ (all_groups m ts l).*1) by (apply list_elem_of_fmap; by exists g).
        split; [by rewrite (A6 g Hg), (B6 g Hg)|]. split; [eapply chain_links; [exact A2|exact B2|exact Hm]|]. eapply acc_aligned, chain_acc; [exact A2|exact Hm]. }
    destruct Hnode as (N1 & N2 & N3). assert (a = x \/ a = x + 4) as [->| ->] by dmlia; done.
  - assert (Ht : ~ touched (nodes (all_chunks m ts l) (all_groups m ts l)) a) by (intros (x & Hx & Hr); apply Hn, Exists_exists; by exists x).
    by rewrite (proj2 A3 a Ht), (proj2 B3 a Ht).
Qed.

(** C4: The selective sweep, which looks only at the memory between the sorted
    live objects, is equivalent to the normal sweep, which looks at every chunk
    of every block: both succeed, with the same lists and the same memory. *)
Theorem sweep_small_selective_equiv (m : memory) (ts : gmap Z (list Z)) (l : list region) (objects ps : list Z)
    (Hok : regions_ok m ts l) (H32 : Forall (fun r => rend r + 4096 <= 2 ^ 32) l) (Hco : collected m ts l ps)
    (Hh : holds_at objects 0 ps) (Hroom : 2 * (Z.of_nat (length ps) + 2) <= Z.of_nat (length objects)) :
  exists m1 m2 chunks blocks k1 f1 k2 f2,
    sweep_small_selective l objects (Z.of_nat (length ps)) m = Ok (m1, chunks, blocks, k1, f1) /\
    sweep_small_normal ts l m = Ok (m2, chunks, blocks, k2, f2) /\
    ranges m1 = ranges m2 /\ forall a, a mod 4 = 0 -> rd m1 a = rd m2 a.
Proof.
  destruct (sweep_selective_runs m ts l objects ps Hok H32 Hco Hh Hroom) as (m1 & c1 & b1 & k1 & f1 & E1 & S1).
  destruct (sweep_normal_spec m ts l Hok) as (m2 & c2 & b2 & k2 & f2 & E2 & S2).
  destruct (swept_to_unique _ _ _ _ _ _ _ _ _ Hok S1 S2) as (-> & -> & Hr & Ha).
  by exists m1, m2, c2, b2, k1, f1, k2, f2.
Qed.

(** Either sweep, as the mark phase left the state. *)
Lemma sweep_small_runs state m ts l objects n : regions_ok m ts l -> state <> MARK_STATE_OVERFLOW ->
  (state = MARK_STATE_COLLECT -> Forall (fun r => rend r + 4096 <= 2 ^ 32) l /\ exists ps, collected m ts l ps /\
     holds_at objects 0 ps /\ n = Z.of_nat (length ps) /\ 2 * (n + 2) <= Z.of_nat (length objects)) ->
  exists m' chunks blocks marked freed, sweep_small state ts l objects n m = Ok (m', chunks, blocks, marked, freed) /\
    swept_to m ts l m' chunks blocks.
Proof.
  intros Hok Hno Hcol. unfold sweep_small. case_bool_decide as Hc.
  - destruct (Hcol Hc) as (H32 & ps & H1 & H2 & -> & H3). by apply sweep_selective_runs.
  - assert (Hn : state = MARK_STATE_NORMAL) by (by destruct state). rewrite bool_decide_true by done. cbn [massert assert_or mbind res_bind].
    by apply sweep_normal_spec.
Qed.

(** ** The end of the mark stack *)

(** Without room for two copies of the objects and the sentinels, a sentinel or
    the first pass of sorting goes past the end. *)
Lemma selective_overruns (l : list region) (objects ps : list Z) (m : memory) : holds_at objects 0 ps -> (forall p, p ∈ ps -> in_u 32 p) ->
  Z.of_nat (length ps) <= Z.of_nat (length objects) -> Z.of_nat (length objects) < 2 * (Z.of_nat (length ps) + 2) ->
  sweep_small_selective l objects (Z.of_nat (length ps)) m = Err BadAccess.
Proof.
  intros Hh Hps Hle Hroom. destruct (Z.le_gt_cases (Z.of_nat (length ps) + 2) (Z.of_nat (length objects))) as [Hs|Hs].
  - destruct (put_sentinels objects ps Hh Hs) as (o1 & o2 & E1 & E2 & Hh2 & Hl2).
    unfold sweep_small_selective. rewrite E1. cbn [mbind res_bind]. rewrite E2. cbn [mbind res_bind].
    replace (Z.of_nat (length ps) + 2) with (Z.of_nat (length (ps ++ [0; 0xFFFFFFFF]))) by (rewrite length_app; cbn; lia).
    rewrite sort_objects_overruns; [done|lia|exact Hh2| |by destruct ps|rewrite Hl2, length_app; cbn [length]; lia].
    intros x [Hx|Hx]%elem_of_app; [by apply Hps|].
    apply elem_of_cons in Hx as [->|[->|Hn%elem_of_nil]%elem_of_cons]; [unfold in_u; lia|unfold in_u; lia|done].
  - unfold sweep_small_selective, put_index. destruct (zstore objects (Z.of_nat (length ps)) 0) as [o1|] eqn:E1; [|reflexivity].
    cbn [of_option mbind res_bind]. destruct (zstore o1 (Z.of_nat (length ps) + 1) _) as [o2|] eqn:E2; [|reflexivity].
    apply zstore_length in E1. apply zstore_Some in E2 as [E2 _]. lia.
Qed.

(** C7: The selective sweep overruns the mark stack.
    [mark_stack_suggest_bound] is at most half the size of the stack, and up to
    one object more than that is collected; the two sentinels and the copy that
    sorting makes need room for two times the objects and the sentinels, six
    entries more than a stack of even size has.  When so many objects are live,
    the sweep writes past the end of the stack. *)
Theorem sorting_overruns_mark_stack (l : list region) (objects ps : list Z) (m : memory) (heap_size : Z)
    (Hbound : mark_stack_suggest_bound (Z.of_nat (length objects)) heap_size = Z.of_nat (length objects) / 2)
    (Hlive : Z.of_nat (length ps) = Z.of_nat (length objects) / 2 + 1) (Hsize : 6 <= Z.of_nat (length objects))
    (Hh : holds_at objects 0 ps) (Hps : forall p, p ∈ ps -> in_u 32 p) :
  sweep_small_selective l objects (Z.of_nat (length ps)) m = Err BadAccess.
Proof. apply selective_overruns; [exact Hh|exact Hps|dmlia|dmlia]. Qed.

Lemma sorting_overruns_mark_stack_witness : mark_stack_suggest_bound 8 1000000 = 4 /\
  sweep_small_selective [] [8; 16; 24; 32; 40; 0; 0; 0] 5 (mkMem ∅ []) = Err BadAccess.
Proof.
  split; [reflexivity|]. apply (sorting_overruns_mark_stack [] [8; 16; 24; 32; 40; 0; 0; 0] [8; 16; 24; 32; 40] (mkMem ∅ []) 1000000).
  - reflexivity.
  - reflexivity.
  - vm_compute. discriminate.
  - intros j p Hj. pose proof (zlookup_bound _ _ _ Hj) as Hb. cbn in Hb.
    assert (j = 0 \/ j = 1 \/ j = 2 \/ j = 3 \/ j = 4) as Hc by lia. destruct Hc as [->|[->|[->|[->| ->]]]]; exact Hj.
  - apply Forall_forall. repeat constructor; vm_compute; congruence.
Defined.
