(* ===== verification/GcCycle.v ===== *)
(** * A collection of the small object area (src/runtime/gc.c)

    Preparation, marking and sweep together: the objects of the area afterwards
    are the reachable ones, as they were. *)

From S2P Require Import Prelude GcHeap GcTiling GcFixed GcMark GcReach GcObjects GcSort GcSmall GcChain GcGaps GcSweep GcArea GcCut GcSmallAlloc GcPrepare GcSelect.

#[local] Opaque block_list BLOCK_FUEL.

(** ** An area whose objects have been marked *)

Section Marked.
Context (m : memory) (l : list region) (C B : list (Z * Z)) (ts : gmap Z (list Z)).
Hypothesis (Ha : area m l C B).
Hypothesis (Hts : forall r pos, r ∈ l -> 0 <= pos < 512 -> exists b, block_bit ts r pos = Ok b /\ (b = true <-> ~ in_group B (block_start r pos))).
Context (objs : list Z) (m1 : memory).
Hypothesis (Hmarks : same_but_marks objs m m1).

(** The objects to mark that are in the regions are objects of the area. *)
Hypothesis (Hobjs : forall p r, p ∈ objs -> r ∈ l -> rstart r <= p - 4 < rend r - 4 -> is_obj m l B p).

Lemma marks_word a : mask_size (rd m1 a) = mask_size (rd m a) /\ is_free_word (rd m1 a) = is_free_word (rd m a).
Proof. split; [apply mask_size_eq; intros i Hi|]; apply (sb_bits _ _ _ Hmarks); lia. Qed.

Lemma in_use_used r pos : r ∈ l -> 0 <= pos < 512 -> in_use ts r pos = true <-> used_block l B (block_start r pos).
Proof.
  intros Hr Hp. unfold in_use. destruct (Hts r pos Hr Hp) as (b & -> & Hb). rewrite Hb. split.
  - intros Hn. by exists r, pos.
  - by intros (_ & _ & _ & _ & _ & Hn).
Qed.

Lemma marks_tiled b : used_block l B b -> tiled m1 (b + 4092) (b + 4) (block_list m b) /\ block_list m1 b = block_list m b.
Proof.
  intros Hu. assert (Ht : tiled m1 (b + 4092) (b + 4) (block_list m b)); [|by rewrite (block_list_tiled _ _ _ Ht)].
  eapply tiled_ext; [|exact (ar_block _ _ _ _ Ha b Hu)]. intros h Hh. split; [|apply marks_word].
  eapply sb_acc; [exact Hmarks|]. by destruct (tiled_range _ _ _ _ _ (ar_block _ _ _ _ Ha b Hu) Hh) as (_ & _ & ?).
Qed.

(** A word of a used block. *)
Lemma used_word b a : used_block l B b -> b + 4 <= a < b + 4092 -> exists r, r ∈ l /\ rstart r <= a < rend r - 4.
Proof.
  intros Hu Hr. destruct (used_bounds _ _ _ (ar_shape _ _ _ _ Ha) Hu) as (_ & _ & r & Hrl & ? & ?). exists r. split; [exact Hrl|lia].
Qed.

Lemma chunk_word b h : used_block l B b -> h ∈ block_list m b -> b + 4 <= h < b + 4092.
Proof. intros Hu Hh. destruct (tiled_range _ _ _ _ _ (ar_block _ _ _ _ Ha b Hu) Hh). lia. Qed.

Lemma marked_is_obj b h : used_block l B b -> h ∈ block_list m b -> mk m1 h -> h + 4 ∈ objs /\ is_obj m l B (h + 4).
Proof.
  intros Hu Hh Hm. assert (Hin : h + 4 ∈ objs).
  { destruct (decide (h + 4 ∈ objs)) as [|Hn]; [done|]. unfold mk in Hm. rewrite (sb_rest _ _ _ Hmarks h Hn) in Hm.
    destruct (ar_head _ _ _ _ Ha b h Hu Hh). congruence. }
  split; [exact Hin|]. destruct (used_word b h Hu (chunk_word b h Hu Hh)) as (r & Hr & ?). apply (Hobjs _ r Hin Hr). lia.
Qed.

Lemma obj_chunk p b : is_obj m l B p -> used_block l B b -> p - 4 ∈ block_list m b -> is_free_word (rd m (p - 4)) = false.
Proof. by intros (b' & _ & _ & Hf). Qed.

Lemma marked_regions_ok : regions_ok m1 ts l.
Proof.
  pose proof (ar_shape _ _ _ _ Ha) as Hshape. split; [|apply Hshape]. apply Forall_forall. intros r Hr. split.
  - by apply (rs_region _ Hshape).
  - intros a Hra Hm. eapply sb_acc; [exact Hmarks|]. by apply (ar_acc _ _ _ _ Ha r Hr).
  - intros pos Hp. destruct (Hts r pos Hr Hp) as (b & E & _). by exists b.
  - intros pos Hp Hu%in_use_used; [|done|done]. intros b. destruct (marks_tiled b Hu) as [Ht ->]. split; [exact Ht|]. split; [by eapply block_length|].
    apply Forall_forall. intros h Hh Hm. destruct (marked_is_obj b h Hu Hh Hm) as (_ & Ho). destruct (marks_word h) as [-> ->].
    destruct Ho as (_ & _ & _ & Hf). replace (h + 4 - 4) with h in Hf by lia. destruct (ar_head _ _ _ _ Ha b h Hu Hh) as [_ [?|?]]; [congruence|done].
Qed.

Lemma marked_obj_iff p : marked_obj m1 ts l p <-> is_obj m l B p /\ marked m1 p.
Proof.
  unfold marked, hdr. split.
  - intros (r & pos & Hr & Hp & Hu%in_use_used & Hin & Hm); [|done|done]. rewrite (proj2 (marks_tiled _ Hu)) in Hin.
    destruct (marked_is_obj _ _ Hu Hin Hm) as (_ & Ho). replace (p - 4 + 4) with p in Ho by lia. exact (conj Ho Hm).
  - intros [(b & Hu & Hin & Hf) Hm]. pose proof Hu as (r & pos & Hr & Hp & -> & _). exists r, pos. split; [exact Hr|]. split; [exact Hp|].
    split; [by apply in_use_used|]. split; [by rewrite (proj2 (marks_tiled _ Hu))|exact Hm].
Qed.

Context (m' : memory) (chunks blocks : Z) (C' B' : list (Z * Z)).
Hypothesis (Hsr : sweep_result m1 ts l m' chunks blocks C' B').

Lemma swept_lists : lists_ok m' l C' B' chunks blocks.
Proof. by destruct Hsr. Qed.

Lemma swept_iff p : is_obj m' l B' p <-> is_obj m l B p /\ marked m1 p.
Proof. rewrite (sr_objects _ _ _ _ _ _ _ _ Hsr). apply marked_obj_iff. Qed.

(** An object's header loses its mark again. *)
Lemma header_back p : is_obj m l B p -> clear_mark (rd m1 (p - 4)) = rd m (p - 4).
Proof.
  intros (b & Hu & Hin & _). destruct (ar_head _ _ _ _ Ha b _ Hu Hin) as [H0 _]. apply Z.bits_inj'. intros i Hi.
  unfold clear_mark. rewrite Z.land_spec, Z.lnot_spec by done. change MARK_BIT with (2 ^ 0). rewrite Z.pow2_bits_eqb by lia.
  destruct (Z.eqb_spec 0 i) as [<-|]; cbn [negb]; [by rewrite andb_false_r|]. rewrite andb_true_r. apply (sb_bits _ _ _ Hmarks). lia.
Qed.

Lemma swept_survive : survive (marked m1) m l B m' l B'.
Proof.
  intros p Hm Ho. assert (Hmo : marked_obj m1 ts l p) by (by apply marked_obj_iff). split; [by apply swept_iff|].
  destruct (sr_same _ _ _ _ _ _ _ _ Hsr p Hmo) as [Hh Hc]. rewrite (proj1 (marks_word _)) in Hc. rewrite header_back in Hh by done.
  intros a Hra Ham. destruct (obj_header _ _ _ _ _ Ha Ho) as (Hp4 & _). destruct (Z.eq_dec a (p - 4)) as [->|Hne]; [done|].
  rewrite Hc by (dmlia || done). apply (sb_rest _ _ _ Hmarks). intros Hin. pose proof Ho as (b & Hu & Hpin & _).
  pose proof (tiled_end_le _ _ _ _ _ (ar_block _ _ _ _ Ha b Hu) Hpin). pose proof (chunk_word b _ Hu Hpin).
  destruct (used_word b a Hu ltac:(lia)) as (r & Hr & Har). destruct (Hobjs (a + 4) r Hin Hr ltac:(lia)) as (b2 & Hu2 & Hin2 & _).
  replace (a + 4 - 4) with a in Hin2 by lia. pose proof (chunk_word b2 a Hu2 Hin2).
  pose proof (tiled_positive _ _ _ _ _ (ar_block _ _ _ _ Ha b2 Hu2) Hin2).
  destruct (chunks_apart _ _ _ _ _ _ _ _ Ha Hu Hu2 Hpin Hin2 ltac:(lia)); lia.
Qed.

End Marked.

(** ** The objects of the marker and those of the area *)

Section Environment.
Context (fuel : nat) (e : gc_env) (m : memory) (l : list region) (C B : list (Z * Z)) (ts : gmap Z (list Z)).
Hypothesis (Ha : area m l C B) (Hao : areas_ok fuel e m).
Hypothesis (Hl : small_regions e = l) (Hu : usage e = ts).
Hypothesis (Hts : forall r pos, r ∈ l -> 0 <= pos < 512 -> exists b, block_bit ts r pos = Ok b /\ (b = true <-> ~ in_group B (block_start r pos))).

Lemma used_in_use r pos : used e r pos = in_use ts r pos.
Proof. unfold used, in_use, block_used, block_bit. by rewrite Hu. Qed.

#[local] Transparent block_list.
Lemma block_chunks_list r pos : block_chunks m r pos = block_list m (block_start r pos).
Proof. reflexivity. Qed.
#[local] Opaque block_list.

Lemma small_is_obj p : p ∈ small_objects e m <-> is_obj m l B p.
Proof.
  rewrite (elem_of_small fuel e m Hao). rewrite Hl. unfold block_objects. setoid_rewrite block_chunks_list. split.
  - intros (r & pos & Hr & Hp & Hin). rewrite used_in_use in Hin. destruct (in_use ts r pos) eqn:E; [|by apply elem_of_nil in Hin].
    apply (in_use_used l B ts Hts r pos Hr Hp) in E. apply list_elem_of_fmap in Hin as (h & -> & [Hf Hh]%list_elem_of_filter).
    exists (block_start r pos). replace (h + 4 - 4) with h by lia. split; [exact E|]. exact (conj Hh Hf).
  - intros (b & Hub & Hin & Hf). pose proof Hub as (r & pos & Hr & Hp & -> & _). exists r, pos. split; [exact Hr|]. split; [exact Hp|].
    rewrite used_in_use. apply (in_use_used l B ts Hts r pos Hr Hp) in Hub. rewrite Hub. apply list_elem_of_fmap. exists (p - 4).
    split; [lia|]. apply list_elem_of_filter. exact (conj Hf Hin).
Qed.

Lemma objects_in_regions p r : p ∈ objects fuel e m -> r ∈ l -> rstart r <= p - 4 < rend r - 4 -> is_obj m l B p.
Proof.
  intros [Hp|Hp]%elem_of_app Hr Hra; [|by apply small_is_obj]. exfalso. rewrite <- Hl in Hr.
  destruct (large_in_region fuel e m Hao p Hp) as (r' & Hr' & Ht' & Hp'). destruct (proj1 (ao_small _ _ _ Hao r) Hr) as [Hrt Ht].
  assert (r = r') as <- by (apply (region_unique fuel e m Hao p); try done; lia). rewrite Ht in Ht'. discriminate Ht'.
Qed.

End Environment.

(** ** A collection *)

Section Collection.
Context (fuel : nat) (e : gc_env) (heap_size : Z) (f : finals) (ms : mark_st) (s s1 : small) (C B : list (Z * Z)).

Abbreviation m := (smem s1).
Abbreviation l := (small_regions_head s).

(** The collector's view of the prepared area, and 32-bit addresses. *)
Record collection_start : Prop := {
  cs_prepared : prepared s s1 C B;
  cs_regions : small_regions e = l;
  cs_usage : usage e = tables s1;
  cs_phase : phase_start fuel e m heap_size f ms;
  cs_limit r : r ∈ l -> rend r + 4096 <= 2 ^ 32;
  cs_address p : p ∈ objects fuel e m -> 0 < p < 2 ^ 32 - 1 /\ forall r, r ∈ l -> p <> rend r }.

Context (Hst : collection_start).

Lemma start_area : area m l C B.
Proof. pose proof (pr_shut _ _ _ _ (cs_prepared Hst)) as Hs. unfold shut in Hs. rewrite (pr_regions _ _ _ _ (cs_prepared Hst)) in Hs. apply Hs. Qed.

Lemma start_tables r pos : r ∈ l -> 0 <= pos < 512 -> exists b, block_bit (usage e) r pos = Ok b /\ (b = true <-> ~ in_group B (block_start r pos)).
Proof. rewrite (cs_usage Hst). apply (pr_table _ _ _ _ (cs_prepared Hst)). Qed.

Lemma start_objects p r : p ∈ objects fuel e m -> r ∈ l -> rstart r <= p - 4 < rend r - 4 -> is_obj m l B p.
Proof.
  apply (objects_in_regions fuel e m l B (usage e) (ps_areas _ _ _ _ _ _ (cs_phase Hst)) (cs_regions Hst) eq_refl start_tables).
Qed.

Lemma is_obj_object p : is_obj m l B p -> p ∈ objects fuel e m.
Proof.
  intros Ho. apply elem_of_app. right.
  by apply (small_is_obj fuel e m l B (usage e) (ps_areas _ _ _ _ _ _ (cs_phase Hst)) (cs_regions Hst) eq_refl start_tables).
Qed.

(** The collected objects of the mark stack are the marked ones. *)
Lemma stack_collected ms' rs : phase_done m (objects fuel e m) (refs_of fuel e m) rs ms' -> mark_state ms' = MARK_STATE_COLLECT ->
  collected (mem ms') (usage e) l (elems ms').
Proof.
  intros [Hm Hk Hc _ _] Hcol. specialize (Hc Hcol). pose proof start_area as Ha.
  pose proof (marked_obj_iff m l C B (usage e) Ha start_tables (objects fuel e m) (mem ms') Hm start_objects) as Hiff. split.
  - intros p r Hp Hr Hra. rewrite Hc in Hp. apply list_elem_of_filter in Hp as [Hpm Hpo]. apply Hiff. split; [|exact Hpm].
    pose proof (proj2 (cs_address Hst p Hpo) r Hr) as Hne.
    apply elem_of_app in Hpo as [Hpo|Hpo].
    + exfalso. pose proof (ps_areas _ _ _ _ _ _ (cs_phase Hst)) as Hao. destruct (large_in_region fuel e m Hao p Hpo) as (r' & Hr' & Ht' & Hp').
      rewrite <- (cs_regions Hst) in Hr. destruct (proj1 (ao_small _ _ _ Hao r) Hr) as [Hrt Ht].
      assert (r = r') as <- by (apply (region_unique fuel e m Hao p); try done; lia). rewrite Ht in Ht'. discriminate Ht'.
    + by apply (small_is_obj fuel e m l B (usage e) (ps_areas _ _ _ _ _ _ (cs_phase Hst)) (cs_regions Hst) eq_refl start_tables).
  - intros p [Ho Hpm]%Hiff. rewrite Hc. apply list_elem_of_filter. split; [exact Hpm|by apply is_obj_object].
  - rewrite Hc. apply NoDup_filter, (objects_nodup fuel e m (ps_areas _ _ _ _ _ _ (cs_phase Hst))).
  - intros p Hp. rewrite Hc in Hp. apply list_elem_of_filter in Hp as [_ Hp]. by apply (cs_address Hst p).
Qed.

(** No room for two copies of the live objects and two sentinels. *)
Definition stack_too_full (ms' : mark_st) : Prop := mark_state ms' = MARK_STATE_COLLECT /\ mark_stack_size ms' < 2 * (mark_top ms' + 3).

#[local] Instance stack_too_full_dec ms' : Decision (stack_too_full ms').
Proof. unfold stack_too_full. apply _. Defined.

Lemma full_stack_overruns ms' rs : phase_done m (objects fuel e m) (refs_of fuel e m) rs ms' -> stack_too_full ms' ->
  sweep_small (mark_state ms') (usage e) (small_regions e) (mark_stack ms') (mark_top ms' + 1) (mem ms') = Err BadAccess.
Proof.
  intros Hd [Hcol Hfull]. pose proof (co_range _ _ _ _ (stack_collected ms' rs Hd Hcol)) as H32. destruct Hd as [_ _ _ _ Ht].
  assert (Hlen : mark_top ms' + 1 = Z.of_nat (length (elems ms'))) by (unfold elems, mark_stack_size in *; rewrite length_take; lia).
  unfold sweep_small. rewrite bool_decide_true by done. rewrite Hlen. apply selective_overruns.
  - intros j p Hj. change (0 + j) with j. unfold elems in Hj. apply zlookup_Some in Hj as [Hj0 Hj]. apply lookup_take_Some in Hj as [Hj _]. by apply zlookup_Some.
  - intros p Hp. specialize (H32 p Hp). unfold in_u. lia.
  - unfold elems. rewrite length_take. lia.
  - unfold mark_stack_size in Hfull. lia.
Qed.

(** C2: A collection keeps exactly the reachable objects of the small object
    area.  After [prepare_gc_small], the mark phase either runs out of mark
    stack, with an assertion, or [sweep_small] succeeds, by whichever of the two
    sweeps: the objects of the area are then the objects of before that can be
    reached, with the same headers and contents, everything else is on the two
    free lists, and the area is in order for allocation.  There is one other
    failure: the mark phase ended in its collecting state with so many objects on
    the mark stack that two copies of them and of the sentinels do not fit, and
    then the sweep writes past the end of the stack. *)
Theorem collection_correct :
  match mark_phase fuel e heap_size f ms with
  | Ok (f', ms') =>
      if decide (stack_too_full ms') then
        sweep_small (mark_state ms') (usage e) (small_regions e) (mark_stack ms') (mark_top ms' + 1) (mem ms') = Err BadAccess
      else exists m' chunks blocks k fr C' B',
        sweep_small (mark_state ms') (usage e) (small_regions e) (mark_stack ms') (mark_top ms' + 1) (mem ms') = Ok (m', chunks, blocks, k, fr) /\
        lists_ok m' l C' B' chunks blocks /\ nothing_lost m' l C' B' /\
        (forall p, is_obj m' l B' p <-> is_obj (area_mem s) l B p /\ live fuel e m f' p) /\
        survive (live fuel e m f') (area_mem s) l B m' l B'
  | Err x => x = AssertionFailed /\ mark_stack_size ms < Z.of_nat (length (objects fuel e m))
  end.
Proof.
  pose proof (phase_spec fuel e m heap_size f ms (cs_phase Hst)) as Hp. destruct (mark_phase fuel e heap_size f ms) as [[f' ms']|x]; [|exact Hp].
  destruct Hp as (_ & _ & _ & Hd). pose proof Hd as [Hm Hk _ Hno Ht]. pose proof start_area as Ha.
  case_decide as Hfull; [apply (full_stack_overruns ms' _ Hd Hfull)|].
  assert (Hroom : mark_state ms' = MARK_STATE_COLLECT -> 2 * (mark_top ms' + 3) <= mark_stack_size ms')
    by (intros Hcol; apply Z.nlt_ge; intros Hlt; apply Hfull; exact (conj Hcol Hlt)).
  pose proof (marked_regions_ok m l C B (usage e) Ha start_tables (objects fuel e m) (mem ms') Hm start_objects) as Hok.
  rewrite (cs_regions Hst), <- (pr_mem _ _ _ _ (cs_prepared Hst)).
  destruct (sweep_small_runs (mark_state ms') (mem ms') (usage e) l (mark_stack ms') (mark_top ms' + 1) Hok Hno) as (m' & chunks & blocks & k & fr & E & Hsw).
  { intros Hcol. split; [apply Forall_forall; apply (cs_limit Hst)|]. exists (elems ms'). split; [by eapply stack_collected|].
    assert (Hlen : mark_top ms' + 1 = Z.of_nat (length (elems ms'))) by (unfold elems, mark_stack_size in *; rewrite length_take; lia).
    split; [|split; [exact Hlen|unfold mark_stack_size in Hroom; specialize (Hroom Hcol); lia]].
    intros j p Hj. change (0 + j) with j. unfold elems in Hj. apply zlookup_Some in Hj as [Hj0 Hj]. apply lookup_take_Some in Hj as [Hj _]. by apply zlookup_Some. }
  pose proof (swept_result _ _ _ _ _ _ Hok Hsw) as Hsr.
  assert (Hlive : forall p, is_obj m l B p -> marked (mem ms') p <-> live fuel e m f' p) by (intros p Ho; by apply Hk, is_obj_object).
  exists m', chunks, blocks, k, fr, (merged_chunks (all_chunks (mem ms') (usage e) l) 511), (all_groups (mem ms') (usage e) l). split; [exact E|].
  split; [by eapply swept_lists|]. split; [apply Hsr|]. split.
  - intros p. rewrite (swept_iff m l C B (usage e) Ha start_tables (objects fuel e m) (mem ms') Hm start_objects _ _ _ _ _ Hsr p).
    split; intros [Ho H]; (split; [exact Ho|by apply (Hlive p Ho)]).
  - intros p Hpl Ho. eapply (swept_survive m l C B (usage e) Ha start_tables (objects fuel e m) (mem ms') Hm start_objects); [exact Hsr|by apply (Hlive p Ho)|exact Ho].
Qed.

End Collection.
