(* ===== verification/GcExamples.v ===== *)
(** * The small object area on concrete memory (src/runtime/gc.c)

    The heap of the example of [GcObjects] as the allocator left it, and the
    theorems on allocation, preparation, sweep and collection applied to it. *)

From S2P Require Import Prelude GcHeap GcTiling GcFixed GcMark GcReach GcObjects GcSort GcSmall GcChain GcGaps GcSweep GcArea GcCut GcSmallAlloc GcPrepare GcSelect GcCycle.

#[local] Opaque BLOCK_FUEL ex_start LARGE_SET_SIZE.

(** ** The area *)

Definition ex_region0 : region := mkRegion 0 2097152 4194304 1.

(** The current free area is the rest of the first block, its header not yet
    written; the bits of the usage table are those of an earlier collection. *)
Definition ex_open (m : memory) : small :=
  mkSmall (mkHeap (upd m 2097276 0) [] 0 0) 2097276 2101244 0 2101248 [ex_region0] {[ 0 := replicate 16 7 ]} 64 (32 * 1024 * 1024) 4088.

Definition ex_small : small := ex_open ex_start.

Lemma ex_shape : regions_shape [ex_region0].
Proof. split; [by intros r ->%list_elem_of_singleton|repeat constructor]. Qed.

Lemma ex_region_acc m r : ranges m = ex_ranges -> r ∈ [ex_region0] -> accessible m (rstart r) (rend r).
Proof.
  intros Hr ->%list_elem_of_singleton a Ha Hm. unfold acc. rewrite Hr. cbn in Ha.
  apply (mapped_in _ 2097152 4194304); [apply list_elem_of_In; cbn; tauto|lia|clear - Ha Hm; dmlia|exact Hm].
Qed.

Lemma ex_only_block b : used_block [ex_region0] [(2101248, 2093056)] b -> b = 2097152.
Proof.
  intros (r & pos & ->%list_elem_of_singleton & Hp & -> & Hn). unfold block_start, GC_BLOCKSIZE in *. cbn [rstart ex_region0] in *.
  destruct (Z.eq_dec pos 0) as [->|]; [done|]. destruct Hn. exists (2101248, 2093056). split; [left|cbn; lia].
Qed.

(** Evaluates the headers of a block. *)
Definition head_b (w : Z) : bool := negb (Z.testbit w 0) && (is_free_word w || (mask_size w <? GC_MAX_SMALL_OBJECT_SIZE)).

Lemma head_b_sound w : head_b w = true -> head_ok w.
Proof.
  intros [H1 H2]%andb_true_iff. split; [by apply negb_true_iff|].
  apply orb_true_iff in H2 as [H2|H2%Z.ltb_lt]; [by left|by right].
Qed.

(** A collector that finds everything alive. *)
Definition keep_all (w : @world Z) (s : small) : res failure (@world Z * small) := Ok (w, s).

Definition ex_area_world : world := mkWorld 4194304 (mkTable [ex_region0] (seqZ 1 (GC_REGION_TABLE_SIZE - 1))) (512 * 1024 * 1024) 0.

Definition ex_prepare : res failure (gmap Z (list Z)) := s ← prepare_gc_small ex_small; Ok (tables s).

(** Everything the examples evaluate, in one computation. *)
Lemma ex_facts :
  forallb (fun h => head_b (rd ex_start h)) (block_list ex_start 2097152) = true /\
  tiled_b 10 ex_start (2097152 + 4092) (2097152 + 4) = true /\
  rd ex_start 2101248 = 2093056 /\
  rd ex_start (2101248 + 4) = 0 /\
  words ex_start !! 2097276 = Some 3970 /\
  existsb (Z.eqb 2097276) (block_list ex_start 2097152) = true /\
  match gc_malloc_small bump 10 keep_all 24 ex_area_world ex_small with Ok (_, _, p) => p | _ => 0 end = 2097280 /\
  ex_prepare = Ok (usage ex_env) /\
  match ex_run 16 with
  | Ok (_, ms) => (2 * (mark_top ms + 3) <=? mark_stack_size ms) && bool_decide (mark_state ms = MARK_STATE_COLLECT) &&
                  (Z.of_nat (length (elems ms)) =? 4) && (length (mark_stack ms) =? 16)%nat
  | _ => false
  end = true.
Proof. vm_compute. repeat split. Qed.

Ltac ex_facts := destruct ex_facts as (F0 & F1 & F2 & F3 & F4 & F5 & F6 & F7 & F8).

Lemma ex_tiled : tiled ex_start (2097152 + 4092) (2097152 + 4) (block_list ex_start 2097152).
Proof.
  assert (Ht : tiled ex_start (2097152 + 4092) (2097152 + 4) (chunk_list 10 ex_start (2097152 + 4) (2097152 + 4092)))
    by (apply tiled_b_sound; ex_facts; exact F1).
  by rewrite (block_list_tiled _ _ _ Ht).
Qed.

#[local] Opaque block_list.

Lemma ex_area : area ex_start [ex_region0] [] [(2101248, 2093056)].
Proof.
  split; [apply ex_shape|intros r; apply ex_region_acc, ex_start_spec| | | | | | |].
  - intros g ->%list_elem_of_singleton. exists ex_region0. split; [left|]. cbn [fst snd rstart rend ex_region0].
    split_and!; [lia|lia|done|lia|done|ex_facts; exact F2].
  - repeat constructor.
  - intros b ->%ex_only_block. apply ex_tiled.
  - intros b h ->%ex_only_block Hh%list_elem_of_In. pose proof (proj1 ex_facts) as Hall. rewrite forallb_forall in Hall.
    exact (head_b_sound _ (Hall h Hh)).
  - by intros c ?%elem_of_nil.
  - constructor.
  - constructor.
Qed.

Lemma ex_lists : lists_ok ex_start [ex_region0] [] [(2101248, 2093056)] 0 2101248.
Proof.
  split; [apply ex_area|done|]. cbn [chain fmap list_fmap fst]. split; [done|].
  split; [split_and!; [done|apply (ex_acc _ 2097152 4194304)..]; try done; apply list_elem_of_In; cbn; tauto|].
  ex_facts. exact F3.
Qed.

Lemma open_closed m : words m !! 2097276 = Some 3970 -> area_mem (ex_open m) = m.
Proof.
  intros Hm. unfold area_mem, closed. cbn. change (free_header (2101244 - 2097276)) with 3970.
  unfold upd. cbn. rewrite insert_insert_eq, insert_id by done. by destruct m.
Qed.

Lemma ex_rest : words ex_start !! 2097276 = Some 3970.
Proof. ex_facts. exact F4. Qed.

Lemma open_ok_closed m C B : lists_ok m [ex_region0] C B 0 2101248 -> words m !! 2097276 = Some 3970 -> 2097276 ∉ C.*1 ->
  (exists b, used_block [ex_region0] B b /\ 2097276 ∈ block_list m b) -> small_ok (ex_open m) C B.
Proof.
  intros Hl Hm Hn Hb. pose proof (open_closed m Hm) as Ec. unfold area_mem, closed in Ec. unfold small_ok, open_ok.
  cbn [small_cursor small_bound small_chunks small_blocks small_regions_head ex_open] in *. change (2097276 <? 2101244) with true in *. cbv iota in *.
  split; rewrite ?Ec; [exact Hl|exact Hb|split; [lia|done]|exact Hn].
Qed.

Lemma ex_small_ok : small_ok ex_small [] [(2101248, 2093056)].
Proof.
  apply open_ok_closed; [apply ex_lists|apply ex_rest|by intros ?%elem_of_nil|].
  exists 2097152. split; [|ex_facts; apply existsb_exists in F5 as (x & Hx & ->%Z.eqb_eq); by apply list_elem_of_In]. exists ex_region0, 0. split; [left|]. split; [lia|]. split; [done|].
  intros (g & ->%list_elem_of_singleton & Hg). cbn in Hg. lia.
Qed.

(** ** Allocation *)

Lemma ex_area_world_ok : small_world id ex_area_world ex_small [(2097152, 4194304)].
Proof.
  split; [split|]; cbn [sys table regions free_regions ex_area_world id].
  - done.
  - intros lo hi [= -> ->]%list_elem_of_singleton. done.
  - split; repeat constructor.
  - by intros r ->%list_elem_of_singleton.
  - vm_compute. reflexivity.
  - intros r ->%list_elem_of_singleton. left.
Qed.

#[export] Instance keep_all_collector : Collector id keep_all all_objects.
Proof.
  intros w s R C B Hw Hs Hc Hb Hroom. exists w, s, R, C, B. unfold small_ok, open_ok, area_mem, closed. rewrite Hc, Hb.
  split; [done|]. split; [done|]. split; [exact Hs|]. split; [done|]. apply survive_refl.
Qed.

Lemma gc_malloc_small_correct_witness : exists w' s' p C' B',
  gc_malloc_small bump 10 keep_all 24 ex_area_world ex_small = Ok (w', s', p) /\ p = 2097280 /\
  small_ok s' C' B' /\ new_object all_objects ex_small s' [(2101248, 2093056)] B' 24 p.
Proof.
  ex_facts. clear F0 F1 F2 F3 F4 F5 F7 F8.
  assert (Hr : has_room ex_area_world ex_small) by (split; vm_compute; reflexivity).
  pose proof (gc_malloc_small_correct bump id 10 keep_all all_objects ex_area_world ex_small _ [] _ 24 ex_area_world_ok ex_small_ok Hr) as Hc.
  destruct (gc_malloc_small bump 10 keep_all 24 ex_area_world ex_small) as [[[w' s'] p]|x]; [|discriminate F6].
  destruct Hc as (R' & C' & B' & _ & H1 & H2); [unfold GC_MAX_SMALL_OBJECT_SIZE; lia|reflexivity|].
  exists w', s', p, C', B'. split; [reflexivity|]. split; [exact F6|]. split; [exact H1|exact H2].
Defined.

(** ** Preparation *)

Lemma ex_nodup : NoDup (rid <$> small_regions_head ex_small).
Proof. apply NoDup_singleton. Qed.

(** The bit of the first block is set, all others are cleared. *)
Lemma ex_prepare_tables : ex_prepare = Ok (usage ex_env).
Proof. ex_facts. exact F7. Qed.

(** What marking the example leaves. *)
Lemma ex_marked : exists f ms, ex_run 16 = Ok (f, ms) /\ 2 * (mark_top ms + 3) <= mark_stack_size ms /\
  mark_state ms = MARK_STATE_COLLECT /\ Z.of_nat (length (elems ms)) = 4 /\ length (mark_stack ms) = 16%nat.
Proof.
  destruct ex_facts as (_ & _ & _ & _ & _ & _ & _ & _ & H).
  destruct (ex_run 16) as [[f ms]|x]; [|discriminate H]. exists f, ms.
  apply andb_true_iff in H as [[[H1%Z.leb_le H2%bool_decide_eq_true]%andb_true_iff H3%Z.eqb_eq]%andb_true_iff H4%Nat.eqb_eq]. done.
Qed.

Lemma prepare_gc_small_correct_witness : exists s', prepare_gc_small ex_small = Ok s' /\ prepared ex_small s' [] [(2101248, 2093056)] /\
  tables s' = usage ex_env.
Proof.
  destruct (prepare_gc_small_correct ex_small _ _ ex_small_ok ex_nodup) as (s' & E & Hp). exists s'. split; [exact E|]. split; [exact Hp|].
  pose proof ex_prepare_tables as Et. unfold ex_prepare in Et. rewrite E in Et. by injection Et.
Defined.

(** ** Collection *)

Lemma ex_object_range p : p ∈ ex_objects -> 2097160 <= p <= 2097256.
Proof. unfold ex_objects. rewrite !elem_of_cons, elem_of_nil. lia. Qed.

Lemma ex_collection_start s1 : prepared ex_small s1 [] [(2101248, 2093056)] -> prepare_gc_small ex_small = Ok s1 ->
  smem s1 = ex_start /\ collection_start 10 ex_env 1000000 ex_finals (ex_stack 16) ex_small s1 [] [(2101248, 2093056)].
Proof.
  intros Hp E. assert (Em : smem s1 = ex_start) by (rewrite (pr_mem _ _ _ _ Hp); apply open_closed, ex_rest).
  split; [exact Em|]. split; rewrite ?Em.
  - exact Hp.
  - reflexivity.
  - pose proof ex_prepare_tables as Et. unfold ex_prepare in Et. rewrite E in Et. by injection Et.
  - apply (ex_phase_start 16). lia.
  - by intros r ->%list_elem_of_singleton.
  - intros p Hin. rewrite ex_objects_spec in Hin. apply ex_object_range in Hin. split; [lia|].
    intros r ->%list_elem_of_singleton. cbn. lia.
Qed.

Lemma collection_correct_witness : exists s1 f ms m' chunks blocks k fr C' B',
  prepare_gc_small ex_small = Ok s1 /\ ex_run 16 = Ok (f, ms) /\
  sweep_small (mark_state ms) (usage ex_env) (small_regions ex_env) (mark_stack ms) (mark_top ms + 1) (mem ms) = Ok (m', chunks, blocks, k, fr) /\
  lists_ok m' [ex_region0] C' B' chunks blocks /\
  forall p, is_obj m' [ex_region0] B' p <-> is_obj ex_start [ex_region0] [(2101248, 2093056)] p /\ live 10 ex_env ex_start f p.
Proof.
  destruct (prepare_runs ex_small _ _ ex_small_ok ex_nodup) as (s1 & E & Hp).
  destruct (ex_collection_start s1 Hp E) as [Em Hst].
  pose proof (collection_correct 10 ex_env 1000000 ex_finals (ex_stack 16) ex_small s1 _ _ Hst) as Hc.
  change (mark_phase 10 ex_env 1000000 ex_finals (ex_stack 16)) with (ex_run 16) in Hc.
  destruct ex_marked as (f & ms & Er & Hroom & _). rewrite Er in Hc.
  destruct (decide (stack_too_full ms)) as [[_ Hfull]|_]; [exfalso; lia|]. destruct Hc as (m' & chunks & blocks & k & fr & C' & B' & Es & Hl & _ & Ho & _).
  exists s1, f, ms, m', chunks, blocks, k, fr, C', B'. split; [exact E|]. split; [exact Er|]. split; [exact Es|]. split; [exact Hl|].
  rewrite <- Em. rewrite (pr_mem _ _ _ _ Hp). rewrite (pr_mem _ _ _ _ Hp) in Ho. exact Ho.
Defined.

(** ** The two sweeps *)

(** The memory as marking left it. *)
Lemma ex_swept : exists f ms, ex_run 16 = Ok (f, ms) /\ regions_ok (mem ms) (usage ex_env) [ex_region0] /\
  collected (mem ms) (usage ex_env) [ex_region0] (elems ms) /\ holds_at (mark_stack ms) 0 (elems ms) /\
  Z.of_nat (length (elems ms)) = 4 /\ length (mark_stack ms) = 16%nat.
Proof.
  destruct (prepare_runs ex_small _ _ ex_small_ok ex_nodup) as (s1 & E & Hp).
  destruct (ex_collection_start s1 Hp E) as [Em Hst].
  pose proof (phase_spec 10 ex_env (smem s1) 1000000 ex_finals (ex_stack 16) (cs_phase _ _ _ _ _ _ _ _ _ Hst)) as Hd.
  change (mark_phase 10 ex_env 1000000 ex_finals (ex_stack 16)) with (ex_run 16) in Hd.
  destruct ex_marked as (f & ms & Er & _ & Hcol & H4 & H16). rewrite Er in Hd. exists f, ms. destruct Hd as (_ & _ & _ & Hd).
  split; [exact Er|].
  split; [|split; [|split; [|split; [exact H4|exact H16]]]].
  - eapply marked_regions_ok; [exact (start_area _ _ _ _ _ _ _ _ _ Hst)|exact (start_tables _ _ _ _ _ _ _ _ _ Hst)|exact (pd_mem _ _ _ _ _ Hd)|].
    exact (start_objects _ _ _ _ _ _ _ _ _ Hst).
  - exact (stack_collected _ _ _ _ _ _ _ _ _ Hst ms _ Hd Hcol).
  - intros j p Hj. change (0 + j) with j. unfold elems in Hj. apply zlookup_Some in Hj as [Hj0 Hj].
    apply lookup_take_Some in Hj as [Hj _]. apply zlookup_Some. exact (conj Hj0 Hj).
Qed.

Lemma sweep_small_normal_correct_witness : exists f ms m' chunks blocks k fr C B, ex_run 16 = Ok (f, ms) /\
  sweep_small_normal (usage ex_env) [ex_region0] (mem ms) = Ok (m', chunks, blocks, k, fr) /\
  sweep_result (mem ms) (usage ex_env) [ex_region0] m' chunks blocks C B.
Proof.
  destruct ex_swept as (f & ms & E & Hok & _).
  destruct (sweep_small_normal_correct (usage ex_env) [ex_region0] (mem ms) Hok) as (m' & chunks & blocks & k & fr & C & B & Es & Hs).
  exists f, ms, m', chunks, blocks, k, fr, C, B. split; [exact E|]. split; [exact Es|exact Hs].
Defined.

Lemma sweep_small_selective_equiv_witness : exists f ms m1 m2 chunks blocks k1 f1 k2 f2, ex_run 16 = Ok (f, ms) /\
  sweep_small_selective [ex_region0] (mark_stack ms) 4 (mem ms) = Ok (m1, chunks, blocks, k1, f1) /\
  sweep_small_normal (usage ex_env) [ex_region0] (mem ms) = Ok (m2, chunks, blocks, k2, f2) /\
  forall a, a mod 4 = 0 -> rd m1 a = rd m2 a.
Proof.
  destruct ex_swept as (f & ms & E & Hok & Hco & Hh & Hlen & Hstack).
  destruct (sweep_small_selective_equiv (mem ms) (usage ex_env) [ex_region0] (mark_stack ms) (elems ms) Hok) as
    (m1 & m2 & chunks & blocks & k1 & f1 & k2 & f2 & E1 & E2 & _ & Ha).
  - constructor; [done|constructor].
  - exact Hco.
  - exact Hh.
  - rewrite Hlen, Hstack. lia.
  - rewrite Hlen in E1. exists f, ms, m1, m2, chunks, blocks, k1, f1, k2, f2. split; [exact E|]. split; [exact E1|].
    split; [exact E2|exact Ha].
Defined.
