(* ===== verification/ClassLayout.v ===== *)
(** * Layout of fields (src/runtime/classMethod.c, lines 643-788, and the sizes
    of primitive types of src/runtime/itypes.c)

    Where a class puts its instance and static fields, and how it counts its
    reference fields. *)

From S2P Require Import Prelude.

(** The type of a field: a primitive class with its size, a resolved class, or a
    signature, given by its first character and by the word that
    [Class_IsPrimitiveType] compares when it takes the signature for a class. *)
Inductive ltype := Prim (size : Z) | Ref | Sig (c : Z) (dtable : Z).

(** [bsize] is a [u2]; [info] is the union that holds the index of the constant
    value of a static field, then its address, and the offset of an instance
    field. *)
Record lfield := mkLField { ltyp : ltype; bsize : Z; info : Z }.

Definition PTR_TYPE_SIZE := 4.
Definition PRIMITIVE_DTABLE := 0xFFFFFFFF.

Definition ch_L := 76.
Definition ch_bracket := 91.

Definition FIELD_RESOLVED (f : lfield) : bool := match ltyp f with Sig _ _ => false | _ => true end.

Definition FIELD_ISREF (f : lfield) : bool :=
  match ltyp f with
  | Prim _ => false
  | Ref => true
  | Sig _ w => negb (w =? PRIMITIVE_DTABLE)
  end.

(** [TYPE_PRIM_SIZE(classFromSig(&sig, ...))], with the sizes of [initTypes];
    for other characters [classFromSig] returns NULL. *)
Definition prim_size (c : Z) : res failure Z :=
  if c =? 66 then Ok 1          (* B *)
  else if c =? 90 then Ok 1     (* Z *)
  else if c =? 83 then Ok 2     (* S *)
  else if c =? 67 then Ok 2     (* C *)
  else if c =? 73 then Ok 4     (* I *)
  else if c =? 70 then Ok 4     (* F *)
  else if c =? 74 then Ok 8     (* J *)
  else if c =? 68 then Ok 8     (* D *)
  else if c =? 86 then Ok 0     (* V *)
  else Err BadAccess.

Definition is_ref_sig (c : Z) : bool := (c =? ch_L) || (c =? ch_bracket).

(** [((offset + align - 1) / align) * align] on [int]s. *)
Definition align_to (offset align : Z) : res failure Z :=
  if align =? 0 then Err Undefined else Ok (s32 (Z.quot (s32 (s32 (offset + align) - 1)) align * align)).

(** ** Instance fields *)

(** The body of the first loop: the size of a field, and its type when the
    signature is that of a primitive type. *)
Definition field_size (f : lfield) : res failure (lfield * Z) :=
  match ltyp f with
  | Sig c w =>
      if is_ref_sig c then Ok (mkLField (Sig c w) (u16 PTR_TYPE_SIZE) (info f), PTR_TYPE_SIZE)
      else fsize ← prim_size c; Ok (mkLField (Prim fsize) (u16 fsize) (info f), fsize)
  | _ => Ok (f, bsize f)
  end.

Fixpoint size_fields (fs : list lfield) (align : Z) : res failure (list lfield * Z) :=
  match fs with
  | [] => Ok ([], align)
  | f :: fs' =>
      '(f, fsize) ← field_size f;
      '(fs', align) ← size_fields fs' (if align <? fsize then fsize else align);
      Ok (f :: fs', align)
  end.

(** The second loop, with the count of reference fields. *)
Fixpoint place_fields (fs : list lfield) (offset refField : Z) : res failure (list lfield * Z * Z) :=
  match fs with
  | [] => Ok ([], offset, refField)
  | f :: fs' =>
      let fsize := if FIELD_RESOLVED f then bsize f else PTR_TYPE_SIZE in
      offset ← align_to offset fsize;
      let refField := if FIELD_ISREF f then s32 (refField + 1) else refField in
      '(fs', last, refField) ← place_fields fs' (s32 (offset + fsize)) refField;
      Ok (mkLField (ltyp f) (bsize f) offset :: fs', last, refField)
  end.

(** What [resolveObjectFields] reads and writes of a class. *)
Record fclass := mkFClass { ifields : list lfield; fsize : Z; refField : Z }.

Definition SIZEOF_OBJECT := 8.

Definition resolveObjectFields (class : fclass) (super : option fclass) : res failure fclass :=
  let '(offset, refs) :=
    if fsize class =? 0 then (Ok SIZEOF_OBJECT, Ok (refField class))
    else (Ok (fsize class), match super with Some s => Ok (refField s) | None => Err BadAccess end) in
  offset ← offset;
  refs ← refs;
  '(fs, align) ← size_fields (ifields class) 1;
  offset ← align_to offset align;
  '(fs, last, refs) ← place_fields fs offset refs;
  Ok (mkFClass fs last refs).

(** ** Static fields *)

(** The first loop: [FIELD_SIZE], a [u2], keeps the offset; a resolved field
    that is not a reference fails the assertion. *)
Fixpoint place_static (fs : list lfield) (offset : Z) : res failure (list lfield * Z) :=
  match fs with
  | [] => Ok ([], offset)
  | f :: fs' =>
      '(t, size) ← match ltyp f with
                   | Sig c w =>
                       if is_ref_sig c then Ok (Sig c w, PTR_TYPE_SIZE)
                       else size ← prim_size c; Ok (Prim size, size)
                   | _ => Err AssertionFailed
                   end;
      let size := if size <? 4 then 4 else size in
      offset ← align_to offset size;
      '(fs', last) ← place_static fs' (s32 (offset + size));
      Ok (mkLField t (u16 offset) (info f) :: fs', last)
  end.

(** [FIELD_CONSTIDX] shares the union with the offset. *)
Definition set_address (mem : Z) (f : lfield) : lfield := mkLField (ltyp f) (u16 (info f)) (u32 (mem + bsize f)).

(** The second component is the size asked of [gc_malloc], whose result is
    [mem]; nothing is done without static fields. *)
Definition allocStaticFields (fs : list lfield) (mem : Z) : res failure (list lfield * Z) :=
  match fs with
  | [] => Ok ([], 0)
  | _ => '(fs, size) ← place_static fs 0; Ok (map (set_address mem) fs, size)
  end.

(** ** Placed fields *)

Definition width (f : lfield) : Z := if FIELD_RESOLVED f then bsize f else PTR_TYPE_SIZE.

(** The fields, of widths [w], follow each other between [lo] and [hi], each
    aligned to its width. *)
Fixpoint laid_out (w : lfield -> Z) (lo : Z) (fs : list lfield) (hi : Z) : Prop :=
  match fs with
  | [] => lo = hi
  | f :: fs' => lo <= info f /\ info f mod w f = 0 /\ laid_out w (info f + w f) fs' hi
  end.

Definition is_width (n : Z) : Prop := n = 1 \/ n = 2 \/ n = 4 \/ n = 8.

(** A field as the class file reader leaves it: its type is resolved to a
    primitive or other class, or has the signature of a field. *)
Definition field_ok (f : lfield) : Prop :=
  match ltyp f with
  | Prim n => bsize f = n /\ is_width n
  | Ref => bsize f = PTR_TYPE_SIZE
  | Sig c _ => is_ref_sig c = true \/ exists n, prim_size c = Ok n /\ is_width n
  end.

Definition refs (fs : list lfield) : Z := Z.of_nat (length (filter (fun f => FIELD_ISREF f = true) fs)).

Lemma refs_cons f fs : refs (f :: fs) = (if FIELD_ISREF f then 1 else 0) + refs fs.
Proof. unfold refs. rewrite filter_cons. destruct (FIELD_ISREF f); cbn [decide]; [rewrite decide_True by done|rewrite decide_False by done]; cbn [length]; lia. Qed.

Lemma refs_nonneg fs : 0 <= refs fs <= Z.of_nat (length fs).
Proof. unfold refs. pose proof (length_filter (fun f => FIELD_ISREF f = true) fs). lia. Qed.

Lemma align_to_spec offset align : 0 < align <= 8 -> 0 <= offset < 2 ^ 31 - 16 ->
  exists o, align_to offset align = Ok o /\ offset <= o < offset + align /\ o mod align = 0.
Proof.
  intros Ha Ho. unfold align_to. rewrite (proj2 (Z.eqb_neq _ _)) by lia.
  rewrite (wraps_small 32 (offset + align)), (wraps_small 32 (offset + align - 1)) by (unfold in_s; lia).
  rewrite Z.quot_div_nonneg by lia. set (q := (offset + align - 1) / align).
  pose proof (Z.div_mod (offset + align - 1) align ltac:(lia)) as Hdm. fold q in Hdm.
  pose proof (Z.mod_pos_bound (offset + align - 1) align ltac:(lia)).
  rewrite wraps_small by (unfold in_s; lia). eexists. split; [done|]. split; [lia|]. by apply Z.mod_mul; lia.
Qed.

Lemma u16_width n : is_width n -> u16 n = n.
Proof. by intros [->|[->|[->| ->]]]. Qed.

Lemma field_size_spec f : field_ok f -> exists f' n, field_size f = Ok (f', n) /\ is_width n /\ width f' = n.
Proof.
  unfold field_ok, field_size, width, FIELD_RESOLVED. destruct f as [[n| |c w] b o]; cbn.
  - intros [-> Hn]. by eexists _, _.
  - intros ->. eexists _, _. split; [done|]. split; [|done]. unfold is_width, PTR_TYPE_SIZE. lia.
  - intros Hc. destruct (is_ref_sig c) eqn:Hr.
    + eexists _, _. split; [done|]. split; [|done]. unfold is_width, PTR_TYPE_SIZE. lia.
    + destruct Hc as [|(n & -> & Hn)]; [done|]. cbn. eexists _, _. split; [done|]. split; [done|]. cbn. by apply u16_width.
Qed.

Lemma size_fields_spec fs : Forall field_ok fs -> forall align, is_width align ->
  exists fs' align', size_fields fs align = Ok (fs', align') /\ is_width align' /\ Forall (fun f => is_width (width f)) fs' /\
    length fs' = length fs.
Proof.
  induction 1 as [|f fs Hf Hfs IH]; intros align Ha; cbn [size_fields].
  - exists [], align. by split_and!.
  - destruct (field_size_spec f Hf) as (f' & n & -> & Hn & Hw). cbn [mbind res_bind].
    destruct (IH (if align <? n then n else align)) as (fs' & align' & -> & Ha' & Hfs' & Hl); [by destruct (align <? n)|].
    cbn [mbind res_bind]. exists (f' :: fs'), align'. split_and!; [done|done| |cbn; lia]. constructor; [by rewrite Hw|done].
Qed.

Lemma is_width_range n : is_width n -> 0 < n <= 8.
Proof. unfold is_width. lia. Qed.

Lemma place_fields_spec fs : Forall (fun f => is_width (width f)) fs -> forall offset r, 0 <= offset -> 0 <= r ->
  offset + 16 * Z.of_nat (length fs) < 2 ^ 31 - 16 -> r + Z.of_nat (length fs) < 2 ^ 31 ->
  exists fs' last, place_fields fs offset r = Ok (fs', last, r + refs fs) /\
    laid_out width offset fs' last /\ offset <= last <= offset + 16 * Z.of_nat (length fs) /\
    map (fun f => (ltyp f, width f)) fs' = map (fun f => (ltyp f, width f)) fs.
Proof.
  induction 1 as [|f fs Hf Hfs IH]; intros offset r Ho Hr Hob Hrb; cbn [place_fields length] in *.
  - exists [], offset. unfold refs. cbn. rewrite Z.add_0_r. split_and!; [done|done|lia|lia|done].
  - fold (width f). pose proof (is_width_range _ Hf).
    destruct (align_to_spec offset (width f)) as (o & -> & Hoo & Hom); [lia|lia|]. cbn [mbind res_bind].
    rewrite (wraps_small 32 (o + width f)) by (unfold in_s; lia).
    assert ((if FIELD_ISREF f then s32 (r + 1) else r) = r + (if FIELD_ISREF f then 1 else 0)) as ->.
    { destruct (FIELD_ISREF f); [|lia]. rewrite wraps_small by (unfold in_s; lia). done. }
    destruct (IH (o + width f) (r + (if FIELD_ISREF f then 1 else 0))) as (fs' & last & -> & Hlaid & Hlast & Hmap);
      [lia|destruct (FIELD_ISREF f); lia|lia|destruct (FIELD_ISREF f); lia|].
    cbn [mbind res_bind]. eexists _, last. split_and!; [rewrite refs_cons; f_equal; f_equal; lia| |lia|lia|].
    + cbn [laid_out info]. split_and!; [lia|done|done].
    + cbn [map]. by rewrite Hmap.
Qed.

(** The fields of [c] as [super] leaves them: [processClass] copies the size. *)
Definition starts_from (c : fclass) (super : option fclass) : Prop :=
  match super with
  | None => fsize c = 0 /\ refField c = 0
  | Some s => fsize c = fsize s /\ SIZEOF_OBJECT <= fsize s /\ 0 <= refField s
  end.

Definition base_of (super : option fclass) : Z := match super with None => SIZEOF_OBJECT | Some s => fsize s end.
Definition refs_of_super (super : option fclass) : Z := match super with None => 0 | Some s => refField s end.

(** C35: [resolveObjectFields] lays the instance fields out.  It always
    returns; the new fields follow those of the superclass (or the object
    header), each aligned to its size, none overlapping another, up to the new
    size of the class; and [refField] is the superclass's count plus the number
    of new reference fields. *)
Theorem resolveObjectFields_correct (c : fclass) (super : option fclass)
    (Hf : Forall field_ok (ifields c)) (Hs : starts_from c super)
    (Hb : base_of super + 16 * Z.of_nat (length (ifields c)) < 2 ^ 31 - 32)
    (Hr : refs_of_super super + Z.of_nat (length (ifields c)) < 2 ^ 31) :
  exists c' lo, resolveObjectFields c super = Ok c' /\ base_of super <= lo < base_of super + 8 /\
    laid_out width lo (ifields c') (fsize c') /\ length (ifields c') = length (ifields c) /\
    refField c' = refs_of_super super + refs (ifields c').
Proof.
  unfold resolveObjectFields.
  assert ((if fsize c =? 0 then (Ok SIZEOF_OBJECT, Ok (refField c))
    else (Ok (fsize c), match super with Some s => Ok (refField s) | None => Err BadAccess end)) =
    (Ok (base_of super), Ok (refs_of_super super) : res failure Z)) as ->.
  { destruct super as [s|]; cbn in *.
    - destruct Hs as (-> & ? & ?). unfold SIZEOF_OBJECT in *. by rewrite (proj2 (Z.eqb_neq _ _)) by lia.
    - by destruct Hs as [-> ->]. }
  assert (0 <= base_of super /\ 0 <= refs_of_super super) as [? ?].
  { destruct super; cbn in *; unfold SIZEOF_OBJECT in *; lia. }
  cbn [mbind res_bind]. destruct (size_fields_spec _ Hf 1) as (fs & align & -> & Ha & Hw & Hl); [by left|]. cbn [mbind res_bind].
  destruct (align_to_spec (base_of super) align) as (lo & -> & Hlo & _); [by apply is_width_range|lia|]. cbn [mbind res_bind].
  pose proof (is_width_range _ Ha).
  destruct (place_fields_spec fs Hw lo (refs_of_super super)) as (fs' & last & -> & Hlaid & _ & Hmap); [lia..|].
  cbn [mbind res_bind]. exists (mkFClass fs' last (refs_of_super super + refs fs)), lo. cbn [ifields fsize refField].
  assert (length fs' = length fs) as Hl' by (apply (f_equal length) in Hmap; by rewrite !length_map in Hmap).
  split_and!; [done|lia|lia|done|congruence|]. f_equal. clear -Hmap. revert fs' Hmap.
  induction fs as [|f fs IH]; intros [|f' fs'] Hmap; try done. injection Hmap as Ht _ Hm. rewrite !refs_cons, (IH fs' Hm).
  unfold FIELD_ISREF. by rewrite Ht.
Qed.

Lemma resolveObjectFields_correct_witness :
  let c := mkFClass [mkLField (Sig 66 0) 0 0; mkLField (Sig 76 0) 0 0; mkLField (Sig 74 0) 0 0; mkLField Ref 4 0] 12 0 in
  let super := Some (mkFClass [] 12 1) in
  exists c' lo, resolveObjectFields c super = Ok c' /\ laid_out width lo (ifields c') (fsize c') /\ refField c' = 1 + refs (ifields c') /\
    map info (ifields c') = [16; 20; 24; 32] /\ refField c' = 3.
Proof.
  intros c super. destruct (resolveObjectFields_correct c super) as (c' & lo & Hr & _ & Hl & _ & Hn).
  - unfold c. cbn [ifields]. repeat first [apply Forall_nil_2|apply Forall_cons_2]; cbn;
      first [reflexivity|by left|right; eexists; split; [reflexivity|unfold is_width; lia]].
  - cbn. unfold SIZEOF_OBJECT. lia.
  - done.
  - done.
  - exists c', lo. assert (resolveObjectFields c super = Ok (mkFClass
      [mkLField (Prim 1) 1 16; mkLField (Sig 76 0) 4 20; mkLField (Prim 8) 8 24; mkLField Ref 4 32] 36 3)) as E by reflexivity.
    split; [exact Hr|]. split; [exact Hl|]. split; [exact Hn|]. rewrite E in Hr. injection Hr as <-. by split.
Defined.

(** A field of type [void] divides by zero: [classFromSig] accepts the
    signature [V], the size of [void] is 0, and the offset is rounded up to a
    multiple of it. *)
Theorem void_field_divides_by_zero (w b i : Z) (super : fclass) (Hs : SIZEOF_OBJECT <= fsize super < 2 ^ 31 - 16) :
  resolveObjectFields (mkFClass [mkLField (Sig 86 w) b i] (fsize super) 0) (Some super) = Err Undefined.
Proof.
  unfold resolveObjectFields. cbn [fsize ifields]. unfold SIZEOF_OBJECT in *. rewrite (proj2 (Z.eqb_neq _ _)) by lia.
  cbn -[align_to]. destruct (align_to_spec (fsize super) 1) as (o & -> & _); [lia|lia|]. done.
Qed.

Lemma void_field_divides_by_zero_witness :
  resolveObjectFields (mkFClass [mkLField (Sig 86 0) 0 0] 8 0) (Some (mkFClass [] 8 0)) = Err Undefined.
Proof. apply (void_field_divides_by_zero 0 0 0 (mkFClass [] 8 0)). by vm_compute. Defined.

(** ** Static fields *)

Definition static_width (f : lfield) : Z := match ltyp f with Prim n => if n <? 4 then 4 else n | _ => PTR_TYPE_SIZE end.

Definition static_ok (f : lfield) : Prop :=
  match ltyp f with Sig c _ => is_ref_sig c = true \/ exists n, prim_size c = Ok n /\ is_width n | _ => False end.

(** The offsets of the first loop, as addresses from [mem] on. *)
Lemma place_static_spec mem fs : Forall static_ok fs -> mem mod 8 = 0 -> forall offset, 0 <= offset ->
  offset + 16 * Z.of_nat (length fs) <= 2 ^ 16 -> 0 <= mem -> mem + offset + 16 * Z.of_nat (length fs) < 2 ^ 32 ->
  exists fs' last, place_static fs offset = Ok (fs', last) /\ length fs' = length fs /\ last <= offset + 16 * Z.of_nat (length fs) /\
    laid_out static_width (mem + offset) (map (set_address mem) fs') (mem + last).
Proof.
  intros Hf Hm. induction Hf as [|f fs Hf Hfs IH]; intros offset Ho Hb Hm0 Hmb; cbn [place_static length map] in *.
  - exists [], offset. split_and!; [done|done|lia|done].
  - assert (exists t n, match ltyp f with
       | Sig c w => if is_ref_sig c then Ok (Sig c w, PTR_TYPE_SIZE) else size ← prim_size c; Ok (Prim size, size)
       | _ => Err AssertionFailed end = Ok (t, n) /\ static_width (mkLField t 0 0) = (if n <? 4 then 4 else n) /\
       ((if n <? 4 then 4 else n) = 4 \/ (if n <? 4 then 4 else n) = 8)) as (t & n & -> & Hw & Hn).
    { unfold static_ok in Hf. destruct (ltyp f) as [| |c w]; [done|done|]. destruct (is_ref_sig c) eqn:Hr.
      - eexists _, _. split; [done|]. split; [done|]. by left.
      - destruct Hf as [|(n & -> & Hn)]; [done|]. cbn. eexists _, _. split; [done|]. split; [done|].
        destruct Hn as [->|[->|[->| ->]]]; cbn; auto. }
    cbn [mbind res_bind]. set (size := if n <? 4 then 4 else n) in *. assert (0 < size <= 8) as Hsz by lia.
    destruct (align_to_spec offset size) as (o & -> & Hoo & Hom); [lia|lia|]. cbn [mbind res_bind].
    rewrite (wraps_small 32 (o + size)) by (unfold in_s; lia).
    destruct (IH (o + size)) as (fs' & last & -> & Hl & Hlast & Hlaid); [lia|lia|lia|lia|]. cbn [mbind res_bind].
    eexists _, last. split_and!; [done|cbn; lia|lia|]. cbn [map laid_out set_address info bsize ltyp].
    rewrite !(wrapu_small 16 o), (wrapu_small 32 (mem + o)) by (unfold in_u; lia).
    change (static_width _) with (static_width (mkLField t 0 0)). rewrite Hw.
    split_and!; [lia| |by rewrite <- Z.add_assoc].
    destruct Hn as [E|E]; rewrite E in *; dmlia.
Qed.

(** [allocStaticFields] lays the static fields out in the memory it
    allocates, aligned and without overlap, for a class with at most 4096 of
    them; beyond that the 16-bit field that keeps an offset is too narrow. *)
Theorem allocStaticFields_correct (fs : list lfield) (mem : Z) (Hf : Forall static_ok fs) (Hn : (length fs <= 4096)%nat)
    (Hm : mem mod 8 = 0) (H0 : 0 <= mem < 2 ^ 32 - 2 ^ 16) :
  exists fs' size, allocStaticFields fs mem = Ok (fs', size) /\ length fs' = length fs /\
    laid_out static_width mem fs' (mem + size).
Proof.
  destruct fs as [|f fs]; [exists [], 0; rewrite Z.add_0_r; by split_and!|].
  unfold allocStaticFields. destruct (place_static_spec mem (f :: fs) Hf Hm 0) as (fs' & last & -> & Hl & _ & Hlaid); [lia..|].
  cbn [mbind res_bind]. eexists _, last. split_and!; [done|by rewrite length_map|by rewrite Z.add_0_r in Hlaid].
Qed.

Lemma allocStaticFields_correct_witness :
  let fs := [mkLField (Sig 90 0) 0 7; mkLField (Sig 68 0) 0 0; mkLField (Sig 91 0) 0 0] in
  exists fs' size, allocStaticFields fs 65536 = Ok (fs', size) /\ laid_out static_width 65536 fs' (65536 + size) /\
    map info fs' = [65536; 65544; 65552] /\ size = 20.
Proof.
  intros fs. destruct (allocStaticFields_correct fs 65536) as (fs' & size & Hr & _ & Hl).
  - unfold fs. repeat first [apply Forall_nil_2|apply Forall_cons_2]; cbn;
      first [by left|right; eexists; split; [reflexivity|unfold is_width; lia]].
  - cbn. lia.
  - done.
  - done.
  - exists fs', size. split; [exact Hr|]. split; [exact Hl|]. vm_compute in Hr. injection Hr as <- <-. by split.
Defined.

(** Static fields can share memory: the offset of a static field is kept in
    the 16-bit [bsize] of the field between the two loops, so in a class of
    16385 static [int] fields the last one gets the address of the first. *)
Theorem static_offsets_wrap (mem : Z) (Hm : in_u 32 mem) :
  exists fs' size f g, allocStaticFields (replicate 16385 (mkLField (Sig 73 0) 0 0)) mem = Ok (fs', size) /\
    fs' !! 0%nat = Some f /\ fs' !! 16384%nat = Some g /\ info f = info g /\ 65536 < size.
Proof.
  assert (exists fs size f g, place_static (replicate 16385 (mkLField (Sig 73 0) 0 0)) 0 = Ok (fs, size) /\
    fs !! 0%nat = Some f /\ fs !! 16384%nat = Some g /\ bsize f = bsize g /\ 65536 < size) as (fs & size & f & g & Hr & Hf & Hg & E & Hs).
  { assert (match place_static (replicate 16385 (mkLField (Sig 73 0) 0 0)) 0 with
      | Ok (fs, size) => match fs !! 0%nat, fs !! 16384%nat with Some f, Some g => (bsize f =? bsize g) && (65536 <? size) | _, _ => false end
      | Err _ => false end = true) as Hb by (vm_compute; reflexivity).
    destruct (place_static _ 0) as [[fs size]|]; [|discriminate Hb].
    destruct (fs !! 0%nat) as [f|] eqn:Hf; [|discriminate Hb]. destruct (fs !! 16384%nat) as [g|] eqn:Hg; [|discriminate Hb].
    exists fs, size, f, g. split_and!; try done; lia. }
  exists (map (set_address mem) fs), size, (set_address mem f), (set_address mem g). split; [|split; [|split; [|split]]].
  - unfold allocStaticFields. destruct (replicate 16385 _) eqn:Hrep; [discriminate Hrep|]. by rewrite Hr.
  - change (map (set_address mem) fs) with (set_address mem <$> fs). by rewrite list_lookup_fmap, Hf.
  - change (map (set_address mem) fs) with (set_address mem <$> fs). by rewrite list_lookup_fmap, Hg.
  - cbn. by rewrite E.
  - done.
Qed.

Lemma static_offsets_wrap_witness : exists fs' size f g, allocStaticFields (replicate 16385 (mkLField (Sig 73 0) 0 0)) 65536 = Ok (fs', size) /\
  fs' !! 0%nat = Some f /\ fs' !! 16384%nat = Some g /\ info f = info g /\ 65536 < size.
Proof. apply (static_offsets_wrap 65536). by vm_compute. Defined.
