(* ===== verification/BytecodeAnalysis.v ===== *)
(** * Analysis of bytecode (src/translator/bytecode_analysis.c and the accessors
    of src/bytecode.c, src/bytecode.ic)

    The traversal of a method's bytecode that the translator starts from: it
    finds the join points of the control flow, the bytes covered by exception
    handlers, and what kinds of instructions the method can execute. *)

From S2P Require Import Prelude.

(** ** Bytecode *)

Definition BCode_opcode_lengths : list Z :=
  [1; 1; 1; 1; 1; 1; 1; 1; 1; 1; 1; 1; 1; 1; 1; 1;
   2; 3; 2; 3; 3; 2; 2; 2; 2; 2; 1; 1; 1; 1; 1; 1;
   1; 1; 1; 1; 1; 1; 1; 1; 1; 1; 1; 1; 1; 1; 1; 1;
   1; 1; 1; 1; 1; 1; 2; 2; 2; 2; 2; 1; 1; 1; 1; 1;
   1; 1; 1; 1; 1; 1; 1; 1; 1; 1; 1; 1; 1; 1; 1; 1;
   1; 1; 1; 1; 1; 1; 1; 1; 1; 1; 1; 1; 1; 1; 1; 1;
   1; 1; 1; 1; 1; 1; 1; 1; 1; 1; 1; 1; 1; 1; 1; 1;
   1; 1; 1; 1; 1; 1; 1; 1; 1; 1; 1; 1; 1; 1; 1; 1;
   1; 1; 1; 1; 3; 1; 1; 1; 1; 1; 1; 1; 1; 1; 1; 1;
   1; 1; 1; 1; 1; 1; 1; 1; 1; 3; 3; 3; 3; 3; 3; 3;
   3; 3; 3; 3; 3; 3; 3; 3; 3; 2; 0; 0; 1; 1; 1; 1;
   1; 1; 3; 3; 3; 3; 3; 3; 3; 5; 1; 3; 2; 3; 1; 1;
   3; 3; 1; 1; 1; 4; 3; 3; 5; 5; 1; 1; 1; 1; 1; 1;
   1; 1; 1; 1; 1; 1; 1; 1; 1; 1; 1; 1; 1; 1; 1; 3;
   3; 3; 3; 3; 3; 3; 3; 3; 3; 3; 3; 3; 3; 3; 3; 3;
   3; 3; 3; 1; 1; 1; 1; 1; 1; 1; 1; 1; 1; 1; 3; 3].

Definition BCode_get_opcode_len (opcode : Z) : res failure Z := of_option BadAccess (zlookup BCode_opcode_lengths opcode).

Definition BCode_get_uint8 (code : list Z) (pc : Z) : res failure Z := of_option BadAccess (zlookup code pc).

Definition BCode_get_int16 (code : list Z) (pc : Z) : res failure Z :=
  b0 ← BCode_get_uint8 code pc;
  b1 ← BCode_get_uint8 code (pc + 1);
  Ok (s16 (Z.lor (Z.shiftl b0 8) b1)).

Definition BCode_get_uint16 (code : list Z) (pc : Z) : res failure Z :=
  b0 ← BCode_get_uint8 code pc;
  b1 ← BCode_get_uint8 code (pc + 1);
  Ok (u16 (Z.lor (Z.shiftl b0 8) b1)).

Definition BCode_get_int32 (code : list Z) (pc : Z) : res failure Z :=
  b0 ← BCode_get_uint8 code pc;
  b1 ← BCode_get_uint8 code (pc + 1);
  b2 ← BCode_get_uint8 code (pc + 2);
  b3 ← BCode_get_uint8 code (pc + 3);
  Ok (s32 (Z.lor (Z.lor (Z.lor (Z.shiftl b0 24) (Z.shiftl b1 16)) (Z.shiftl b2 8)) b3)).

(** The opcodes by the case labels of the traversal.  The [_W] opcodes the
    interpreter rewrites [WIDE] to (211 to 222) go with [WIDE]. *)
Inductive opclass :=
| OpIf | OpGoto | OpGotoW | OpJsr | OpJsrW | OpTableswitch | OpLookupswitch | OpReturn | OpAthrow | OpRet
| OpWide | OpLoadStore | OpIinc | OpInvokeinterface | OpInvokevirtual | OpInvoke | OpOther.

#[export] Instance opclass_eq_dec : EqDecision opclass.
Proof. solve_decision. Defined.

Definition between (lo hi opcode : Z) : bool := (lo <=? opcode) && (opcode <=? hi).

Definition classify (opcode : Z) : opclass :=
  if between 153 166 opcode || between 198 199 opcode then OpIf
  else if opcode =? 167 then OpGoto
  else if opcode =? 200 then OpGotoW
  else if opcode =? 168 then OpJsr
  else if opcode =? 201 then OpJsrW
  else if opcode =? 170 then OpTableswitch
  else if opcode =? 171 then OpLookupswitch
  else if between 172 177 opcode then OpReturn
  else if opcode =? 191 then OpAthrow
  else if opcode =? 169 then OpRet
  else if between 211 222 opcode || (opcode =? 196) then OpWide
  else if between 21 25 opcode || between 54 58 opcode then OpLoadStore
  else if opcode =? 132 then OpIinc
  else if opcode =? 185 then OpInvokeinterface
  else if opcode =? 182 then OpInvokevirtual
  else if (opcode =? 183) || (opcode =? 184) then OpInvoke
  else OpOther.

(** ** Methods

    A [jexceptionEntry]; a constant pool entry is a class, resolved or not, with
    its interned name, or something else.  [referred] stands for
    [Method_GetReferredMethod], the resolution of a method reference: the access
    flags of the method, [None] for NULL. *)
Record jexceptionEntry := mkJEE { start_pc : Z; end_pc : Z; handler_pc : Z; catch_idx : Z }.

Inductive pool_entry := ResolvedClass (name : Z) | UnresolvedClass (name : Z) | OtherConstant.

Record method := mkMethod {
  bytecode : list Z;
  exception_table : option (list jexceptionEntry);
  pool : list pool_entry;
  referred : Z -> option Z;
  bcodeInfo0 : Z;
  branches0 : Z
}.

Definition METHOD_JOIN_POINT := 1.
Definition METHOD_WITHIN_TRY := 2.

Definition METHOD_HAVE_BRANCH := 0x01.
Definition METHOD_HAVE_RETURN := 0x02.
Definition METHOD_HAVE_NULLEH := 0x04.
Definition METHOD_HAVE_INVOKE := 0x08.
Definition METHOD_HAVE_UNRESOLVED := 0x10.
Definition METHOD_HAVE_ATHROW := 0x20.

Definition ACC_PRIVATE_FINAL := 0x12.

(** The locals of [BA_bytecode_analysis] and the members of the method it
    changes: [bcodeInfo], a [uint8], and [numOfBranches], an [int]. *)
Record traversal := mkTraversal {
  tstack : list Z;
  tstack_top : Z;
  visited : list Z;
  binfo : list Z;
  wide : bool;
  bcodeInfo : Z;
  numOfBranches : Z
}.

Definition set_wide (b : bool) (s : traversal) : traversal :=
  mkTraversal (tstack s) (tstack_top s) (visited s) (binfo s) b (bcodeInfo s) (numOfBranches s).

Definition set_info (flag : Z) (s : traversal) : traversal :=
  mkTraversal (tstack s) (tstack_top s) (visited s) (binfo s) (wide s) (u8 (Z.lor (bcodeInfo s) flag)) (numOfBranches s).

Definition add_branch (s : traversal) : traversal :=
  mkTraversal (tstack s) (tstack_top s) (visited s) (binfo s) (wide s) (bcodeInfo s) (s32 (numOfBranches s + 1)).

(** [binfo[pc] |= bit]. *)
Definition set_binfo (bit pc : Z) (s : traversal) : res failure traversal :=
  b ← of_option BadAccess (zlookup (binfo s) pc);
  bi ← of_option BadAccess (zstore (binfo s) pc (Z.lor b bit));
  Ok (mkTraversal (tstack s) (tstack_top s) (visited s) bi (wide s) (bcodeInfo s) (numOfBranches s)).

(** [visited[pc] = true; tstack[++tstack_top] = pc] *)
Definition push_pc (pc : Z) (s : traversal) : res failure traversal :=
  v ← of_option BadAccess (zstore (visited s) pc 1);
  t ← of_option BadAccess (zstore (tstack s) (tstack_top s + 1) pc);
  Ok (mkTraversal t (tstack_top s + 1) v (binfo s) (wide s) (bcodeInfo s) (numOfBranches s)).

Definition is_visited (pc : Z) (s : traversal) : res failure bool :=
  v ← of_option BadAccess (zlookup (visited s) pc); Ok (negb (v =? 0)).

Section Analysis.
Context (object_class_name throwable_class_name exception_class_name null_pointer_exception_name : Z).
Context (m : method).

Definition codelen : Z := Z.of_nat (length (bytecode m)).

(** Names are interned, so [equalUtf8Consts] compares pointers. *)
Definition catches_null (name : Z) : bool :=
  (name =? object_class_name) || (name =? throwable_class_name) || (name =? exception_class_name)
  || (name =? null_pointer_exception_name).

Definition check_nullpointer_eh (idx : Z) (s : traversal) : res failure traversal :=
  if idx =? 0 then Ok (set_info METHOD_HAVE_NULLEH s)
  else
    entry ← of_option BadAccess (zlookup (pool m) idx);
    name ← match entry with
           | ResolvedClass name => Ok name
           | UnresolvedClass name => Ok name
           | OtherConstant => Err AssertionFailed
           end;
    Ok (if catches_null name then set_info METHOD_HAVE_NULLEH s else s).

(** [for (j = start; j <= end; j++) binfo[j] |= METHOD_WITHIN_TRY], with the
    number of rounds first. *)
Fixpoint set_try (n : nat) (j : Z) (s : traversal) : res failure traversal :=
  match n with
  | O => Ok s
  | S n => s ← set_binfo METHOD_WITHIN_TRY j s; set_try n (j + 1) s
  end.

Fixpoint insert_entries (entries : list jexceptionEntry) (s : traversal) : res failure traversal :=
  match entries with
  | [] => Ok s
  | e :: entries =>
      s ← set_try (Z.to_nat (end_pc e + 1 - start_pc e)) (start_pc e) s;
      s ← check_nullpointer_eh (catch_idx e) s;
      s ← push_pc (handler_pc e) s;
      insert_entries entries s
  end.

Definition insert_exception_handlers (s : traversal) : res failure traversal :=
  match exception_table m with None => Ok s | Some entries => insert_entries entries s end.

Definition process_for_npc (npc : Z) (s : traversal) : res failure traversal :=
  v ← is_visited npc s;
  if (v : bool) then set_binfo METHOD_JOIN_POINT npc s else push_pc npc s.

(** The loops of the two switch instructions, from the [i]-th target down. *)
Fixpoint process_targets (pc base stride : Z) (i : nat) (s : traversal) : res failure traversal :=
  match i with
  | O => Ok s
  | S i' =>
      offset ← BCode_get_int32 (bytecode m) (base + Z.of_nat i * stride);
      s ← process_for_npc (u32 (pc + offset)) s;
      process_targets pc base stride i' s
  end.

(** The target of a [jsr] becomes no join point. *)
Definition process_jsr_target (addr : Z) (s : traversal) : res failure traversal :=
  v ← is_visited addr s;
  if (v : bool) then Ok s else process_for_npc (u32 addr) s.

(** The body of the loop, after the pop. *)
Definition process_opcode (pc : Z) (s : traversal) : res failure traversal :=
  let code := bytecode m in
  opcode ← BCode_get_uint8 code pc;
  len ← BCode_get_opcode_len opcode;
  let fall_through s := process_for_npc (u32 (pc + len)) s in
  match classify opcode with
  | OpIf =>
      s ← fall_through s;
      offset ← BCode_get_int16 code (pc + 1);
      s ← process_for_npc (u32 (pc + offset)) s;
      Ok (add_branch (set_info METHOD_HAVE_BRANCH s))
  | OpGoto => offset ← BCode_get_int16 code (pc + 1); process_for_npc (u32 (pc + offset)) s
  | OpGotoW => offset ← BCode_get_int32 code (pc + 1); process_for_npc (u32 (pc + offset)) s
  | OpJsr =>
      s ← fall_through s;
      offset ← BCode_get_int16 code (pc + 1);
      process_jsr_target (pc + offset) s
  | OpJsrW =>
      s ← fall_through s;
      offset ← BCode_get_int32 code (pc + 1);
      process_jsr_target (pc + offset) s
  | OpTableswitch =>
      let addr := Z.land (pc + 4) (-4) in
      high ← BCode_get_int32 code (addr + 8);
      low ← BCode_get_int32 code (addr + 4);
      s ← process_targets pc (addr + 8) 4 (Z.to_nat (s32 (s32 (high - low) + 1))) s;
      offset ← BCode_get_int32 code addr;
      process_for_npc (u32 (pc + offset)) s
  | OpLookupswitch =>
      let addr := Z.land (pc + 4) (-4) in
      npairs ← BCode_get_int32 code (addr + 4);
      s ← process_targets pc (addr + 4) 8 (Z.to_nat npairs) s;
      offset ← BCode_get_int32 code addr;
      process_for_npc (u32 (pc + offset)) s
  | OpReturn => Ok (set_info METHOD_HAVE_RETURN s)
  | OpAthrow => Ok (set_info METHOD_HAVE_ATHROW s)
  | OpRet => Ok s
  | OpWide => fall_through (set_wide true s)
  | OpLoadStore =>
      process_for_npc (u32 (pc + len + (if wide s then 1 else 0))) (set_wide false s)
  | OpIinc =>
      process_for_npc (u32 (pc + len + (if wide s then 2 else 0))) (set_wide false s)
  | OpInvokeinterface => fall_through (set_info METHOD_HAVE_INVOKE (set_info METHOD_HAVE_UNRESOLVED s))
  | OpInvokevirtual =>
      index ← BCode_get_uint16 code (pc + 1);
      flags ← of_option BadAccess (referred m index);
      let s := if Z.land flags ACC_PRIVATE_FINAL =? 0 then set_info METHOD_HAVE_UNRESOLVED s else s in
      fall_through (set_info METHOD_HAVE_INVOKE s)
  | OpInvoke => fall_through (set_info METHOD_HAVE_INVOKE s)
  | OpOther => fall_through s
  end.

Fixpoint traverse (fuel : nat) (s : traversal) : res failure traversal :=
  if tstack_top s <? 0 then Ok s
  else
    match fuel with
    | O => Err OutOfFuel
    | S fuel =>
        assert_or AssertionFailed (tstack_top s <? codelen);;
        pc ← of_option BadAccess (zlookup (tstack s) (tstack_top s));
        s ← process_opcode pc (mkTraversal (tstack s) (tstack_top s - 1) (visited s) (binfo s) (wide s)
                                 (bcodeInfo s) (numOfBranches s));
        traverse fuel s
    end.

Definition handlers : list Z := match exception_table m with None => [] | Some entries => map handler_pc entries end.

(** The analysis of a method whose [bcodeInfos] is NULL; a handler is pushed once
    for each of its table entries, every other byte at most once. *)
Definition BA_bytecode_analysis : res failure traversal :=
  let zeros := replicate (length (bytecode m)) 0 in
  s ← insert_exception_handlers (mkTraversal zeros (-1) zeros zeros false (bcodeInfo0 m) (branches0 m));
  s ← push_pc 0 s;
  traverse (length handlers + length (bytecode m) + 1) s.

End Analysis.

(** ** The control flow of a method

    The edges out of the instruction at [pc], where [w] tells that a [WIDE]
    prefix stands before it.  The edge of a [jsr] to its subroutine is [Weak]: it
    leads there, but does not make a join point. *)
Inductive edge := Plain (target : Z) | Weak (target : Z).

#[export] Instance edge_eq_dec : EqDecision edge.
Proof. solve_decision. Defined.

Definition target (e : edge) : Z := match e with Plain q => q | Weak q => q end.

Section Edges.
Context (m : method).

Fixpoint target_edges (pc base stride : Z) (i : nat) : res failure (list edge) :=
  match i with
  | O => Ok []
  | S i' =>
      offset ← BCode_get_int32 (bytecode m) (base + Z.of_nat i * stride);
      es ← target_edges pc base stride i';
      Ok (Plain (pc + offset) :: es)
  end.

Definition edges (pc : Z) (w : bool) : res failure (list edge) :=
  let code := bytecode m in
  opcode ← BCode_get_uint8 code pc;
  len ← BCode_get_opcode_len opcode;
  match classify opcode with
  | OpIf => offset ← BCode_get_int16 code (pc + 1); Ok [Plain (pc + len); Plain (pc + offset)]
  | OpGoto => offset ← BCode_get_int16 code (pc + 1); Ok [Plain (pc + offset)]
  | OpGotoW => offset ← BCode_get_int32 code (pc + 1); Ok [Plain (pc + offset)]
  | OpJsr => offset ← BCode_get_int16 code (pc + 1); Ok [Plain (pc + len); Weak (pc + offset)]
  | OpJsrW => offset ← BCode_get_int32 code (pc + 1); Ok [Plain (pc + len); Weak (pc + offset)]
  | OpTableswitch =>
      let addr := Z.land (pc + 4) (-4) in
      high ← BCode_get_int32 code (addr + 8);
      low ← BCode_get_int32 code (addr + 4);
      es ← target_edges pc (addr + 8) 4 (Z.to_nat (s32 (s32 (high - low) + 1)));
      offset ← BCode_get_int32 code addr;
      Ok (es ++ [Plain (pc + offset)])
  | OpLookupswitch =>
      let addr := Z.land (pc + 4) (-4) in
      npairs ← BCode_get_int32 code (addr + 4);
      es ← target_edges pc (addr + 4) 8 (Z.to_nat npairs);
      offset ← BCode_get_int32 code addr;
      Ok (es ++ [Plain (pc + offset)])
  | OpReturn | OpAthrow | OpRet => Ok []
  | OpLoadStore => Ok [Plain (pc + len + (if w then 1 else 0))]
  | OpIinc => Ok [Plain (pc + len + (if w then 2 else 0))]
  | OpInvokevirtual =>
      index ← BCode_get_uint16 code (pc + 1);
      of_option BadAccess (referred m index);;
      Ok [Plain (pc + len)]
  | OpWide | OpInvokeinterface | OpInvoke | OpOther => Ok [Plain (pc + len)]
  end.

Definition class_at (pc : Z) : opclass := match zlookup (bytecode m) pc with Some opcode => classify opcode | None => OpOther end.

(** What the instruction tells about the method. *)
Definition flags_of (pc : Z) : Z :=
  match class_at pc with
  | OpIf => METHOD_HAVE_BRANCH
  | OpReturn => METHOD_HAVE_RETURN
  | OpAthrow => METHOD_HAVE_ATHROW
  | OpInvokeinterface => Z.lor METHOD_HAVE_UNRESOLVED METHOD_HAVE_INVOKE
  | OpInvokevirtual =>
      match BCode_get_uint16 (bytecode m) (pc + 1) with
      | Ok index =>
          match referred m index with
          | Some flags => if Z.land flags ACC_PRIVATE_FINAL =? 0 then Z.lor METHOD_HAVE_UNRESOLVED METHOD_HAVE_INVOKE else METHOD_HAVE_INVOKE
          | None => 0
          end
      | Err _ => 0
      end
  | OpInvoke => METHOD_HAVE_INVOKE
  | _ => 0
  end.

(** [pre] tells which instructions have a [WIDE] prefix. *)
Context (pre : Z -> bool).

Definition roots : list Z := handlers m ++ [0].

Definition edges_of (pc : Z) : list edge := match edges pc (pre pc) with Ok es => es | Err _ => [] end.

Inductive reachable : Z -> Prop :=
| reachable_root pc : pc ∈ roots -> reachable pc
| reachable_edge pc e : reachable pc -> e ∈ edges_of pc -> reachable (target e).

Definition occurs (q : Z) (l : list Z) : nat := length (filter (fun p => p = q) l).

(** Bytecode that control flow can follow: every reachable instruction decodes,
    with its targets inside the method; an instruction is reached with a [WIDE]
    prefix or without, a prefix belongs to a load, a store or an [iinc] (not a
    [ret]: see [wide_ret_corrupts_analysis]), and is not the start of two
    handlers. *)
Record well_formed_code : Prop := {
  wf_length : 0 < codelen m < 2 ^ 31;
  wf_bytes : Forall (in_u 8) (bytecode m);
  wf_roots : Forall (fun pc => 0 <= pc < codelen m /\ pre pc = false) roots;
  wf_decodes : forall pc, reachable pc -> exists es, edges pc (pre pc) = Ok es;
  wf_targets : forall pc e, reachable pc -> e ∈ edges_of pc ->
    0 <= target e < codelen m /\ pre (target e) = (match class_at pc with OpWide => true | _ => false end);
  wf_prefixed : forall pc, reachable pc -> pre pc = true -> class_at pc = OpLoadStore \/ class_at pc = OpIinc;
  wf_wide_root : forall pc, class_at pc = OpWide -> (occurs pc roots <= 1)%nat
}.

(** The traversal stack has one element for each byte of the method. *)
Definition room : Prop :=
  exists S : gset Z, (forall pc, reachable pc -> pc ∈ S) /\
    (length roots + size (S ∖ list_to_set roots) <= length (bytecode m))%nat.

(** Following the edges [es] in order, an edge that is not a [jsr]'s leads to
    [q] when [q] was reached before: as a root, or by an earlier edge. *)
Definition rejoined (R : list Z) (es : list edge) (q : Z) : Prop :=
  exists es1 es2, es = es1 ++ Plain q :: es2 /\ (q ∈ R \/ exists e, e ∈ es1 /\ target e = q).

(** The depth-first order of the instructions: [D] are those already visited,
    [st] those found but not visited, the next one first. *)
Definition push_target (D st : list Z) (e : edge) : list Z :=
  if decide (target e ∈ D ++ st) then st else target e :: st.

Fixpoint dfs (fuel : nat) (D st : list Z) : list Z :=
  match st, fuel with
  | pc :: st', S fuel' => dfs fuel' (D ++ [pc]) (fold_left (push_target (D ++ [pc])) (edges_of pc) st')
  | _, _ => D
  end.

(** From the start of the method, then the handlers, the last one first. *)
Definition visit_order : list Z :=
  dfs (length (handlers m) + length (bytecode m) + 1) [] (0 :: reverse (handlers m)).

End Edges.

(** ** The traversal *)

(** The state [s] with the pending instructions [st], the next one first, after
    the instructions [D] were taken off the stack and the edges [A] followed;
    [R] are the roots pushed so far. *)
Record trav_inv (m : method) (pre : Z -> bool) (R D : list Z) (A : list edge) (st : list Z) (s : traversal) : Prop := {
  ti_top : tstack_top s = Z.of_nat (length st) - 1;
  ti_length : length (tstack s) = length (bytecode m);
  ti_stack : take (length st) (tstack s) = reverse st;
  ti_visited_length : length (visited s) = length (bytecode m);
  ti_binfo_length : length (binfo s) = length (bytecode m);
  ti_range : Forall (fun q => 0 <= q < codelen m) (D ++ st);
  ti_pushed : exists P, D ++ st ≡ₚ R ++ P /\ NoDup P /\ (forall q, q ∈ P -> q ∉ R /\ reachable m pre q);
  ti_visited : forall q, 0 <= q < codelen m -> exists v, zlookup (visited s) q = Some v /\ (v <> 0 <-> q ∈ D ++ st);
  ti_arrived : forall q, q ∈ D ++ st <-> q ∈ R \/ exists e, e ∈ A /\ target e = q;
  ti_joins : forall q, 0 <= q < codelen m -> exists b, zlookup (binfo s) q = Some b /\
    (Z.testbit b 0 = true <-> rejoined R A q)
}.

(** What following edges leaves alone. *)
Record kept (s s' : traversal) : Prop := {
  kept_wide : wide s' = wide s;
  kept_info : bcodeInfo s' = bcodeInfo s;
  kept_try : forall q, (fun b => Z.testbit b 1) <$> zlookup (binfo s') q = (fun b => Z.testbit b 1) <$> zlookup (binfo s) q
}.

Lemma kept_refl s : kept s s.
Proof. by split. Qed.

Lemma kept_trans s1 s2 s3 : kept s1 s2 -> kept s2 s3 -> kept s1 s3.
Proof. intros [H1 H2 H3] [G1 G2 G3]. split; [congruence|congruence|]. intros q. by rewrite G3. Qed.

Lemma occurs_app q l1 l2 : occurs q (l1 ++ l2) = (occurs q l1 + occurs q l2)%nat.
Proof. unfold occurs. by rewrite filter_app, length_app. Qed.

Lemma occurs_elem q l : (1 <= occurs q l)%nat <-> q ∈ l.
Proof.
  unfold occurs. split.
  - destruct (filter _ l) as [|p l'] eqn:E; cbn; [lia|]. intros _.
    assert (p ∈ filter (fun p => p = q) l) as Hp by (rewrite E; left). by apply list_elem_of_filter in Hp as [-> ?].
  - intros Hq. destruct (filter _ l) as [|p l'] eqn:E; cbn; [|lia].
    assert (q ∈ filter (fun p => p = q) l) as Hp by (by apply list_elem_of_filter). rewrite E in Hp. by apply elem_of_nil in Hp.
Qed.

Lemma occurs_perm q l1 l2 : l1 ≡ₚ l2 -> occurs q l1 = occurs q l2.
Proof. unfold occurs. by intros ->. Qed.

Lemma occurs_nodup q l : NoDup l -> (occurs q l <= 1)%nat.
Proof.
  induction 1 as [|p l Hp Hl IH]; [cbn; lia|]. unfold occurs in *. rewrite filter_cons. case_decide as E; [|done]. cbn.
  destruct (decide (1 <= length (filter (fun p => p = q) l))%nat) as [H|]; [|lia].
  apply occurs_elem in H. by subst.
Qed.

(** One more edge. *)
Lemma rejoined_nil R q : ~ rejoined R [] q.
Proof. intros (es1 & es2 & E & _). by destruct es1. Qed.

Lemma rejoined_snoc R A e q : rejoined R (A ++ [e]) q <->
  rejoined R A q \/ (e = Plain q /\ (q ∈ R \/ exists e', e' ∈ A /\ target e' = q)).
Proof.
  split.
  - intros (es1 & es2 & E & H). destruct es2 as [|e2 es2 _] using rev_ind.
    + apply app_inj_tail in E as [-> ->]. by right.
    + left. rewrite app_comm_cons, app_assoc in E. apply app_inj_tail in E as [-> _]. by exists es1, es2.
  - intros [(es1 & es2 & -> & H)|[-> H]].
    + exists es1, (es2 ++ [e]). by rewrite <- app_assoc.
    + by exists A, [].
Qed.

Section Traversal.
Context (m : method) (pre : Z -> bool).
Hypothesis Hlen : 0 < codelen m < 2 ^ 31.

(** The state after a push of [q] on a stack of height [n]. *)
Definition pushed (q : Z) (n : nat) (s : traversal) : traversal :=
  mkTraversal (<[n := q]> (tstack s)) (tstack_top s + 1) (<[Z.to_nat q := 1]> (visited s)) (binfo s) (wide s) (bcodeInfo s) (numOfBranches s).

Lemma push_pc_run R D A st s q : trav_inv m pre R D A st s -> 0 <= q < codelen m -> (length st < length (bytecode m))%nat ->
  push_pc q s = Ok (pushed q (length st) s).
Proof.
  intros H Hq Hst. unfold push_pc, pushed, codelen in *. rewrite (ti_top _ _ _ _ _ _ _ H).
  rewrite (zstore_is_Some (visited s)) by (rewrite (ti_visited_length _ _ _ _ _ _ _ H); lia). cbn [of_option mbind res_bind].
  rewrite (zstore_is_Some (tstack s)) by (rewrite (ti_length _ _ _ _ _ _ _ H); lia). cbn [of_option mbind res_bind].
  by replace (Z.to_nat (Z.of_nat (length st) - 1 + 1)) with (length st) by lia.
Qed.

Lemma zlookup_insert_nat {X} (l : list X) q q' x : 0 <= q < Z.of_nat (length l) ->
  zlookup (<[Z.to_nat q := x]> l) q' = if q =? q' then Some x else zlookup l q'.
Proof. intros Hq. apply zlookup_zstore. by apply zstore_is_Some. Qed.

(** Pushing keeps the stack and the marks; the rest of the invariant depends on
    why [q] was pushed. *)
Lemma pushed_inv R R' D A A' st s q : trav_inv m pre R D A st s -> 0 <= q < codelen m -> (length st < length (bytecode m))%nat ->
  (exists P, D ++ q :: st ≡ₚ R' ++ P /\ NoDup P /\ (forall q, q ∈ P -> q ∉ R' /\ reachable m pre q)) ->
  (forall p, p ∈ D ++ q :: st <-> p ∈ R' \/ exists e, e ∈ A' /\ target e = p) ->
  (forall p, rejoined R' A' p <-> rejoined R A p) ->
  trav_inv m pre R' D A' (q :: st) (pushed q (length st) s).
Proof.
  intros H Hq Hst HP Ha Hjoin. pose proof H as []. unfold codelen in *. constructor; cbn [pushed tstack tstack_top visited binfo length].
  - lia.
  - by rewrite length_insert.
  - rewrite (take_S_r _ _ q) by (apply list_lookup_insert_eq; lia).
    rewrite take_insert_ge by lia. by rewrite ti_stack0, reverse_cons.
  - by rewrite length_insert.
  - done.
  - rewrite Forall_app, Forall_cons. rewrite Forall_app in ti_range0. naive_solver.
  - done.
  - intros p Hp. rewrite zlookup_insert_nat by lia. destruct (Z.eqb_spec q p) as [->|Hne].
    + exists 1. split; [done|]. split; [|done]. intros _. apply elem_of_app. right. left.
    + destruct (ti_visited0 p Hp) as (v & Hv & Hin). exists v. split; [done|]. rewrite Hin, !elem_of_app, elem_of_cons. naive_solver.
  - done.
  - intros p Hp. destruct (ti_joins0 p Hp) as (b & Hb & H1). exists b. by rewrite Hjoin.
Qed.

(** An arrival at a visited instruction; [b'] is what the mark of the join becomes. *)
Lemma arrival_inv D A st s s' e b b' : let q := target e in
  trav_inv m pre (roots m) D A st s -> q ∈ D ++ st -> 0 <= q < codelen m ->
  tstack s' = tstack s -> tstack_top s' = tstack_top s -> visited s' = visited s ->
  zlookup (binfo s) q = Some b -> binfo s' = <[Z.to_nat q := b']> (binfo s) ->
  (Z.testbit b' 0 = true <-> Z.testbit b 0 = true \/ e = Plain q) ->
  trav_inv m pre (roots m) D (A ++ [e]) st s'.
Proof.
  intros q H Hin Hq E1 E2 E3 Hb E4 Hb'. pose proof H as []. unfold codelen in *. constructor; rewrite ?E1, ?E2, ?E3, ?E4, ?length_insert; try done.
  - intros p. rewrite ti_arrived0. split.
    + intros [?|(e' & He' & ?)]; [by left|right]. exists e'. split; [apply elem_of_app; by left|done].
    + intros [?|(e' & [He'|He'%list_elem_of_singleton]%elem_of_app & Ht)]; [by left|right; by exists e'|].
      subst e'. rewrite <- ti_arrived0, <- Ht. done.
  - intros p Hp. rewrite zlookup_insert_nat by lia. setoid_rewrite rejoined_snoc.
    destruct (ti_joins0 p Hp) as (bp & Hbp & H1). destruct (Z.eqb_spec q p) as [Eqp|Hne].
    + exists b'. split; [done|]. rewrite <- Eqp in *. rewrite Hbp in Hb. injection Hb as ->. rewrite Hb', H1.
      apply ti_arrived0 in Hin. tauto.
    + exists bp. split; [done|]. rewrite H1. split; [by left|]. intros [?|[-> _]]; [done|by destruct Hne].
Qed.

Lemma set_binfo_run bit q s b : zlookup (binfo s) q = Some b ->
  set_binfo bit q s = Ok (mkTraversal (tstack s) (tstack_top s) (visited s) (<[Z.to_nat q := Z.lor b bit]> (binfo s)) (wide s) (bcodeInfo s) (numOfBranches s)).
Proof.
  intros Hb. unfold set_binfo. rewrite Hb. cbn [of_option mbind res_bind].
  by rewrite zstore_is_Some by (by apply zlookup_bound in Hb).
Qed.

Hypothesis Hroom : room m pre.

Lemma stack_room D A st s q : trav_inv m pre (roots m) D A st s -> q ∉ D ++ st -> reachable m pre q ->
  (length st < length (bytecode m))%nat.
Proof.
  intros H Hq Hr. destruct (ti_pushed _ _ _ _ _ _ _ H) as (P & HP & HN & Hall). destruct Hroom as (S & HS & Hle).
  assert (length (q :: P) <= size (S ∖ list_to_set (roots m)))%nat as Hsz.
  { assert (NoDup (q :: P)) as HN'.
    { constructor; [|done]. intros Hin. apply Hq. rewrite HP. apply elem_of_app. by right. }
    rewrite <- (size_list_to_set (C := gset Z) (q :: P)) by done. apply subseteq_size. intros x. rewrite elem_of_list_to_set.
    intros [->|Hx]%elem_of_cons; apply elem_of_difference; rewrite elem_of_list_to_set.
    - split; [by apply HS|]. intros Hin. apply Hq. rewrite HP. apply elem_of_app. by left.
    - destruct (Hall x Hx). split; [by apply HS|done]. }
  apply Permutation_length in HP. rewrite !length_app in HP. cbn in Hsz. lia.
Qed.

Definition process_edge (e : edge) (s : traversal) : res failure traversal :=
  match e with
  | Plain q => process_for_npc q s
  | Weak q => process_jsr_target q s
  end.

Lemma kept_binfo s s' q b b' : zlookup (binfo s) q = Some b -> binfo s' = <[Z.to_nat q := b']> (binfo s) ->
  Z.testbit b' 1 = Z.testbit b 1 -> wide s' = wide s -> bcodeInfo s' = bcodeInfo s -> kept s s'.
Proof.
  intros Hb E Ht Hw Hi. split; [done|done|]. intros p. rewrite E, zlookup_insert_nat by (by eapply zlookup_bound).
  destruct (Z.eqb_spec q p) as [->|]; [|done]. rewrite Hb. cbn -[Z.testbit]. by rewrite Ht.
Qed.

Lemma edge_spec D A st s e : trav_inv m pre (roots m) D A st s -> 0 <= target e < codelen m -> reachable m pre (target e) ->
  exists s' st', process_edge e s = Ok s' /\ trav_inv m pre (roots m) D (A ++ [e]) st' s' /\ kept s s' /\
    st' = if decide (target e ∈ D ++ st) then st else target e :: st.
Proof.
  intros H Hq Hr. pose proof (ti_visited _ _ _ _ _ _ _ H _ Hq) as (v & Hv & Hin).
  pose proof (ti_joins _ _ _ _ _ _ _ H _ Hq) as (b & Hb & _).
  assert (process_for_npc (target e) s = if v =? 0 then push_pc (target e) s else set_binfo METHOD_JOIN_POINT (target e) s) as Ep.
  { unfold process_for_npc, is_visited. rewrite Hv. cbn. by destruct (Z.eqb_spec v 0). }
  assert (process_edge e s = if v =? 0 then push_pc (target e) s else match e with Plain q => set_binfo METHOD_JOIN_POINT q s | Weak _ => Ok s end) as E.
  { destruct e as [q|q]; cbn [process_edge target] in *; [done|]. unfold process_jsr_target, is_visited. rewrite Hv. cbn.
    destruct (Z.eqb_spec v 0) as [->|]; cbn; [|done]. rewrite wrapu_small; [done|]. unfold in_u. lia. }
  rewrite E. clear E Ep. destruct (Z.eqb_spec v 0) as [->|Hn].
  - assert (target e ∉ D ++ st) as Hnin by naive_solver.
    rewrite decide_False by done. pose proof (stack_room _ _ _ _ _ H Hnin Hr) as Hst.
    exists (pushed (target e) (length st) s), (target e :: st). split_and!; [by eapply push_pc_run| |done|done].
    eapply pushed_inv; [done|done|done|..].
    + destruct (ti_pushed _ _ _ _ _ _ _ H) as (P & HP & HN & Hall). exists (target e :: P). split_and!.
      * rewrite <- !Permutation_middle. by f_equiv.
      * constructor; [|done]. intros ?. apply Hnin. rewrite HP. apply elem_of_app. by right.
      * intros q [->|Hin']%elem_of_cons; [|by apply Hall]. split; [|done]. intros ?. apply Hnin. rewrite HP. apply elem_of_app. by left.
    + intros p. pose proof (ti_arrived _ _ _ _ _ _ _ H p) as Ha. rewrite elem_of_app, elem_of_cons. rewrite elem_of_app in Ha.
      split.
      * intros [Hp|[->|Hp]]; [..|].
        -- destruct Ha as [[?|(e' & ? & ?)] _]; [by left|by left|right]. exists e'. split; [apply elem_of_app; by left|done].
        -- right. exists e. split; [apply elem_of_app; right; by left|done].
        -- destruct Ha as [[?|(e' & ? & ?)] _]; [by right|by left|right]. exists e'. split; [apply elem_of_app; by left|done].
      * intros [?|(e' & [He'|He'%list_elem_of_singleton]%elem_of_app & <-)].
        -- destruct Ha as [_ [?|?]]; [by left|by left|by right; right].
        -- destruct Ha as [_ [?|?]]; [right; by exists e'|by left|by right; right].
        -- subst. by right; left.
    + intros p. rewrite rejoined_snoc. split; [|by left]. intros [?|[-> Hp]]; [done|].
      by apply (ti_arrived _ _ _ _ _ _ _ H) in Hp.
  - assert (target e ∈ D ++ st) as Hyin by naive_solver. rewrite decide_True by done. destruct e as [q|q]; cbn [target] in *.
    + rewrite (set_binfo_run _ _ _ _ Hb). eexists _, st. split_and!; [done| | |done].
      * eapply (arrival_inv _ _ _ _ _ (Plain q)); try done. rewrite Z.lor_spec, orb_true_iff. cbn. naive_solver.
      * eapply kept_binfo; try done. rewrite Z.lor_spec. cbn. by rewrite orb_false_r.
    + exists s, st. split_and!; [done| |apply kept_refl|done].
      eapply (arrival_inv _ _ _ _ _ (Weak q) b b); try done.
      * rewrite list_insert_id; [done|]. apply zlookup_Some in Hb. tauto.
      * cbn. naive_solver.
Qed.

Fixpoint process_edges (es : list edge) (s : traversal) : res failure traversal :=
  match es with
  | [] => Ok s
  | e :: es => s ← process_edge e s; process_edges es s
  end.

Lemma process_edges_app es1 es2 s : process_edges (es1 ++ es2) s = (s ← process_edges es1 s; process_edges es2 s).
Proof. revert s. induction es1 as [|e es IH]; intros s; [done|]. cbn. destruct (process_edge e s); [apply IH|done]. Qed.

Lemma process_edges_one e s : process_edges [e] s = process_edge e s.
Proof. cbn. by destruct (process_edge e s). Qed.

Lemma edges_spec es : forall D A st s, trav_inv m pre (roots m) D A st s ->
  (forall e, e ∈ es -> 0 <= target e < codelen m /\ reachable m pre (target e)) ->
  exists s' st', process_edges es s = Ok s' /\ trav_inv m pre (roots m) D (A ++ es) st' s' /\ kept s s' /\
    (forall q, q ∈ st' -> q ∈ st \/ exists e, e ∈ es /\ target e = q) /\
    st' = fold_left (push_target D) es st.
Proof.
  induction es as [|e es IH]; intros D A st s H Hes.
  - exists s, st. rewrite app_nil_r. split_and!; [done|done|apply kept_refl|by left|done].
  - destruct (Hes e) as [Hq Hr]; [left|]. destruct (edge_spec D A st s e H Hq Hr) as (s1 & st1 & E1 & H1 & K1 & S1).
    destruct (IH D (A ++ [e]) st1 s1 H1) as (s2 & st2 & E2 & H2 & K2 & S2 & F2); [intros; apply Hes; by right|].
    exists s2, st2. cbn [process_edges]. rewrite E1. cbn [mbind res_bind]. split_and!; [done| |by eapply kept_trans| |].
    + by rewrite <- app_assoc in H2.
    + intros q [Hq'|(e' & ? & ?)]%S2; [|right; exists e'; split; [by right|done]]. subst st1.
      case_decide; [by left|]. apply elem_of_cons in Hq' as [->|?]; [right; exists e; split; [left|done]|by left].
    + rewrite F2, S1. done.
Qed.

Definition in_code (es : list edge) : Prop := forall e, e ∈ es -> 0 <= target e < codelen m.

Lemma u32_plain q es : in_code es -> Plain q ∈ es -> u32 q = q.
Proof. intros H He. apply wrapu_small. specialize (H _ He). unfold in_u. cbn in H. lia. Qed.

Lemma process_targets_edges pc base stride i : forall es s, target_edges m pc base stride i = Ok es -> in_code es ->
  process_targets m pc base stride i s = process_edges es s.
Proof.
  induction i as [|i IH]; intros es s He Hin; cbn [target_edges process_targets] in *; [by injection He as <-|].
  destruct (BCode_get_int32 _ _) as [o|]; [|done]. cbn [mbind res_bind] in *.
  destruct (target_edges m pc base stride i) as [es'|]; [|done]. injection He as <-. cbn [process_edges process_edge].
  rewrite (u32_plain _ _ Hin) by left.
  destruct (process_for_npc (pc + o) s); [|done]. cbn [mbind res_bind]. apply IH; [done|]. intros e ?. apply Hin. by right.
Qed.

(** What the body of the loop does before and after it follows the edges. *)
Definition prep (pc : Z) (s : traversal) : traversal :=
  match class_at m pc with
  | OpWide => set_wide true s
  | OpLoadStore | OpIinc => set_wide false s
  | OpInvokeinterface => set_info METHOD_HAVE_INVOKE (set_info METHOD_HAVE_UNRESOLVED s)
  | OpInvokevirtual =>
      set_info METHOD_HAVE_INVOKE
        (if Z.testbit (flags_of m pc) 4 then set_info METHOD_HAVE_UNRESOLVED s else s)
  | OpInvoke => set_info METHOD_HAVE_INVOKE s
  | OpReturn => set_info METHOD_HAVE_RETURN s
  | OpAthrow => set_info METHOD_HAVE_ATHROW s
  | _ => s
  end.

Definition fin (pc : Z) (s : traversal) : traversal :=
  match class_at m pc with OpIf => add_branch (set_info METHOD_HAVE_BRANCH s) | _ => s end.

Lemma bind_ok (r : res failure traversal) : (s ← r; Ok s) = r.
Proof. by destruct r. Qed.

Lemma bind_assoc {X Y} (r : res failure X) (f : X -> res failure Y) {Z} (g : Y -> res failure Z) :
  (y ← (x ← r; f x); g y) = (x ← r; y ← f x; g y).
Proof. by destruct r. Qed.

Lemma switch_edges pc base stride i addr es s :
  (es ← target_edges m pc base stride i; o ← BCode_get_int32 (bytecode m) addr; Ok (es ++ [Plain (pc + o)])) = Ok es ->
  in_code es ->
  (s ← process_targets m pc base stride i s; o ← BCode_get_int32 (bytecode m) addr; process_for_npc (u32 (pc + o)) s) = process_edges es s.
Proof.
  intros He Hin. destruct (target_edges _ _ _ _ _) as [es'|] eqn:Ht; [|done]. cbn [mbind res_bind] in He.
  destruct (BCode_get_int32 (bytecode m) addr) as [o|]; [|done]. injection He as <-.
  rewrite (process_targets_edges _ _ _ _ es' s Ht) by (intros e ?; apply Hin, elem_of_app; by left).
  rewrite process_edges_app. destruct (process_edges es' s) as [s'|]; [|done]. cbn [mbind res_bind process_edges process_edge].
  by rewrite bind_ok, (u32_plain _ _ Hin) by (apply elem_of_app; right; left).
Qed.

Lemma opcode_edges pc s es : edges m pc (wide s) = Ok es -> in_code es ->
  process_opcode m pc s = (s ← process_edges es (prep pc s); Ok (fin pc s)).
Proof.
  unfold edges, process_opcode, prep, fin, flags_of, class_at.
  change (BCode_get_uint8 (bytecode m) pc) with (of_option BadAccess (zlookup (bytecode m) pc)).
  destruct (zlookup (bytecode m) pc) as [opcode|] eqn:Hop; [|done]. cbn [of_option mbind res_bind].
  destruct (BCode_get_opcode_len opcode) as [len|]; [|done]. cbn [mbind res_bind].
  destruct (classify opcode); intros He Hin; cbn [mbind res_bind] in *; rewrite ?bind_ok;
    try (destruct (BCode_get_int16 _ _) as [o|]; [|done]); cbn [mbind res_bind] in *;
    try (injection He as <-; cbn [process_edges process_edge]; rewrite ?bind_ok, ?bind_assoc;
         repeat rewrite (u32_plain _ _ Hin) by set_solver; done).
  - injection He as <-. cbn [process_edges process_edge]. rewrite !(u32_plain _ _ Hin) by set_solver.
    destruct (process_for_npc (pc + len) s); [|done]. cbn [mbind res_bind]. by rewrite bind_ok.
  - destruct (BCode_get_int32 _ _) as [o|]; [|done]. cbn [mbind res_bind] in *. injection He as <-.
    cbn [process_edges process_edge]. by rewrite bind_ok, (u32_plain _ _ Hin) by set_solver.
  - injection He as <-. cbn [process_edges process_edge]. rewrite (u32_plain _ _ Hin) by set_solver.
    destruct (process_for_npc (pc + len) s); [|done]. cbn [mbind res_bind]. by rewrite bind_ok.
  - destruct (BCode_get_int32 _ _) as [o|]; [|done]. cbn [mbind res_bind] in *. injection He as <-.
    cbn [process_edges process_edge]. rewrite (u32_plain _ _ Hin) by set_solver.
    destruct (process_for_npc (pc + len) s); [|done]. cbn [mbind res_bind]. by rewrite bind_ok.
  - destruct (BCode_get_int32 (bytecode m) (Z.land (pc + 4) (-4) + 8)) as [high|]; [|done]. cbn [mbind res_bind] in *.
    destruct (BCode_get_int32 (bytecode m) (Z.land (pc + 4) (-4) + 4)) as [low|]; [|done]. cbn [mbind res_bind] in *.
    by apply switch_edges.
  - destruct (BCode_get_int32 (bytecode m) (Z.land (pc + 4) (-4) + 4)) as [npairs|]; [|done]. cbn [mbind res_bind] in *.
    by apply switch_edges.
  - destruct (BCode_get_uint16 _ _) as [index|]; [|done]. cbn [mbind res_bind] in *.
    destruct (referred m index) as [flags|]; [|done]. cbn [of_option mbind res_bind] in *. injection He as <-.
    cbn [process_edges process_edge]. rewrite bind_ok, (u32_plain _ _ Hin) by set_solver. by destruct (Z.land flags _ =? 0).
Qed.

Lemma wide_length opcode : classify opcode = OpWide -> BCode_get_opcode_len opcode = Ok 1.
Proof.
  intros H. assert (211 <= opcode <= 222 \/ opcode = 196) as [Ho| ->]; [|replace opcode with (211 + (opcode - 211)) by lia|done].
  - revert H. unfold classify, between. zcmps.
  - assert (exists n, opcode - 211 = Z.of_nat n /\ (n <= 11)%nat) as (n & -> & Hn) by (exists (Z.to_nat (opcode - 211)); lia).
    do 12 (destruct n as [|n]; [done|]). lia.
Qed.

Hypothesis Hwf : well_formed_code m pre.

Lemma edges_of_ok pc : reachable m pre pc -> edges m pc (pre pc) = Ok (edges_of m pre pc).
Proof. intros H. unfold edges_of. by destruct (wf_decodes _ _ Hwf pc H) as [es ->]. Qed.

Lemma edges_of_in_code pc : reachable m pre pc -> in_code (edges_of m pre pc).
Proof. intros H e He. by apply (wf_targets _ _ Hwf pc e). Qed.

Lemma edges_of_wide pc : reachable m pre pc -> class_at m pc = OpWide -> edges_of m pre pc = [Plain (pc + 1)].
Proof.
  intros Hr Hc. pose proof (edges_of_ok pc Hr) as He. unfold edges, class_at, BCode_get_uint8 in *.
  destruct (zlookup (bytecode m) pc) as [opcode|]; [|done]. cbn [of_option mbind res_bind] in He.
  rewrite wide_length in He by done. cbn [mbind res_bind] in He. rewrite Hc in He. by injection He as <-.
Qed.

(** The state of the loop before an iteration: [f0] is the initial [bcodeInfo],
    [T] the bits of the exception ranges. *)
Record loop_inv (f0 : Z) (T : Z -> option bool) (D st : list Z) (s : traversal) : Prop := {
  li_inv : trav_inv m pre (roots m) D (flat_map (edges_of m pre) D) st s;
  li_wide : wide s = match st with [] => false | pc :: _ => pre pc end;
  li_prefixed : Forall (fun pc => pre pc = false) (tail st);
  li_info : in_u 8 (bcodeInfo s) /\ forall i, Z.testbit (bcodeInfo s) i = true <->
    Z.testbit f0 i = true \/ exists pc, pc ∈ D /\ Z.testbit (flags_of m pc) i = true;
  li_try : forall q, (fun b => Z.testbit b 1) <$> zlookup (binfo s) q = T q
}.

Lemma pushed_reachable D A st s pc : trav_inv m pre (roots m) D A st s -> pc ∈ D ++ st -> reachable m pre pc.
Proof.
  intros H Hin. destruct (ti_pushed _ _ _ _ _ _ _ H) as (P & HP & _ & Hall). rewrite HP in Hin.
  apply elem_of_app in Hin as [?|?]; [by apply reachable_root|by apply Hall].
Qed.

Lemma height_bound D A st s : trav_inv m pre (roots m) D A st s -> (length (D ++ st) <= length (bytecode m))%nat.
Proof.
  intros H. destruct (ti_pushed _ _ _ _ _ _ _ H) as (P & HP & HN & Hall). destruct Hroom as (S & HS & Hle).
  rewrite HP, length_app. rewrite <- (size_list_to_set (C := gset Z) P) by done.
  assert (size (list_to_set (C := gset Z) P) <= size (S ∖ list_to_set (roots m)))%nat; [|lia].
  apply subseteq_size. intros x. rewrite elem_of_list_to_set, elem_of_difference, elem_of_list_to_set. intros Hx.
  destruct (Hall x Hx). split; [by apply HS|done].
Qed.

Definition popped (s : traversal) : traversal :=
  mkTraversal (tstack s) (tstack_top s - 1) (visited s) (binfo s) (wide s) (bcodeInfo s) (numOfBranches s).

Lemma pop_inv R D A st s pc : trav_inv m pre R D A (pc :: st) s ->
  zlookup (tstack s) (tstack_top s) = Some pc /\ trav_inv m pre R (D ++ [pc]) A st (popped s).
Proof.
  intros H. pose proof H as []. cbn [length] in *. rewrite reverse_cons in ti_stack0.
  assert (length st < length (tstack s))%nat as Hl.
  { apply (f_equal length) in ti_stack0. rewrite length_take, length_app, length_reverse in ti_stack0. change (length [pc]) with 1%nat in ti_stack0. lia. }
  split.
  - rewrite ti_top0. replace (Z.of_nat (S (length st)) - 1) with (Z.of_nat (length st)) by lia. rewrite zlookup_nat.
    rewrite <- (lookup_take_lt _ (S (length st))) by lia. rewrite ti_stack0.
    by rewrite lookup_app_r, length_reverse, Nat.sub_diag by (rewrite length_reverse; lia).
  - assert ((D ++ [pc]) ++ st = D ++ pc :: st) as E by (by rewrite <- app_assoc).
    constructor; cbn [popped tstack tstack_top visited binfo]; rewrite ?E; try done; [lia|].
    apply (f_equal (take (length st))) in ti_stack0. rewrite take_take in ti_stack0.
    replace (length st `min` S (length st))%nat with (length st) in ti_stack0 by lia.
    by rewrite ti_stack0, take_app_le, take_ge by (rewrite length_reverse; lia).
Qed.

(** A [WIDE] prefix is followed once, so the instruction behind it is new. *)
Lemma prefixed_is_new D st s pc : trav_inv m pre (roots m) D (flat_map (edges_of m pre) D) (pc :: st) s ->
  class_at m pc = OpWide -> pc + 1 ∉ (D ++ [pc]) ++ st.
Proof.
  intros H Hc. replace ((D ++ [pc]) ++ st) with (D ++ pc :: st) by (by rewrite <- app_assoc). intros Hin.
  assert (reachable m pre pc) as Hr by (eapply pushed_reachable; [done|apply elem_of_app; right; left]).
  assert (pre (pc + 1) = true) as Hpre.
  { destruct (wf_targets _ _ Hwf pc (Plain (pc + 1)) Hr) as [_ E]; [|cbn in E; by rewrite E, Hc]. rewrite edges_of_wide by done. left. }
  apply (ti_arrived _ _ _ _ _ _ _ H) in Hin as [Hroot|(e & He & Hq)].
  - pose proof (wf_roots _ _ Hwf) as HR. rewrite Forall_forall in HR. destruct (HR _ Hroot). congruence.
  - apply list_elem_of_In, in_flat_map in He as (p & Hp%list_elem_of_In & He%list_elem_of_In).
    assert (reachable m pre p) as Hrp by (eapply pushed_reachable; [done|apply elem_of_app; by left]).
    assert (class_at m p = OpWide) as Hcp.
    { destruct (wf_targets _ _ Hwf p e Hrp He) as [_ E]. rewrite Hq, Hpre in E. by destruct (class_at m p). }
    rewrite edges_of_wide in He by done. apply list_elem_of_singleton in He as ->. cbn in Hq.
    assert (p = pc) as -> by lia. destruct (ti_pushed _ _ _ _ _ _ _ H) as (P & HP & HN & Hall).
    pose proof (occurs_perm pc _ _ HP) as Ho. rewrite !occurs_app in Ho.
    pose proof (wf_wide_root _ _ Hwf pc Hc). pose proof (occurs_nodup pc P HN).
    assert (1 <= occurs pc D)%nat by (by apply occurs_elem).
    assert (1 <= occurs pc (pc :: st))%nat by (apply occurs_elem; left).
    assert (1 <= occurs pc (roots m))%nat as Hro%occurs_elem by lia.
    assert (1 <= occurs pc P)%nat as HPo%occurs_elem by lia. by destruct (Hall pc HPo).
Qed.

Lemma info_or f s : in_u 8 f -> in_u 8 (bcodeInfo s) ->
  bcodeInfo (set_info f s) = Z.lor (bcodeInfo s) f /\ in_u 8 (bcodeInfo (set_info f s)).
Proof. intros. cbn. rewrite wrapu_small by (by apply in_u_lor). split; [done|by apply in_u_lor]. Qed.

Lemma info_step pc s s' : reachable m pre pc -> in_u 8 (bcodeInfo s) -> bcodeInfo s' = bcodeInfo (prep pc s) ->
  bcodeInfo (fin pc s') = Z.lor (bcodeInfo s) (flags_of m pc) /\ in_u 8 (bcodeInfo (fin pc s')).
Proof.
  intros Hr H E. pose proof (edges_of_ok pc Hr) as He.
  assert (in_u 8 1 /\ in_u 8 2 /\ in_u 8 8 /\ in_u 8 16 /\ in_u 8 32) as (I1 & I2 & I8 & I16 & I32) by (unfold in_u; lia).
  unfold prep, fin, flags_of, class_at, edges, BCode_get_uint8 in *. destruct (zlookup (bytecode m) pc) as [opcode|]; [|done].
  cbn [of_option mbind res_bind] in He. destruct (BCode_get_opcode_len opcode); [|done]. cbn [mbind res_bind] in He.
  destruct (classify opcode) eqn:Hc; try (rewrite E; cbn [set_wide bcodeInfo]; by rewrite Z.lor_0_r);
    try (rewrite E; by apply info_or).
  - rewrite <- E in H |- *. cbn [add_branch bcodeInfo]. by apply info_or.
  - rewrite E. destruct (info_or 16 s I16 H) as [E1 H1]. destruct (info_or 8 _ I8 H1) as [E2 H2].
    rewrite E1 in E2. unfold METHOD_HAVE_UNRESOLVED, METHOD_HAVE_INVOKE in *. rewrite E2 in *. by rewrite <- Z.lor_assoc in *.
  - rewrite E. destruct (BCode_get_uint16 _ _) as [index|]; [|done]. cbn [mbind res_bind] in He.
    destruct (referred m index) as [flags|]; [|done]. destruct (Z.land flags _ =? 0).
    + change (Z.testbit _ 4) with true. cbn match.
      destruct (info_or 16 s I16 H) as [E1 H1]. destruct (info_or 8 _ I8 H1) as [E2 H2].
      rewrite E1 in E2. unfold METHOD_HAVE_UNRESOLVED, METHOD_HAVE_INVOKE in *. rewrite E2 in *. by rewrite <- Z.lor_assoc in *.
    + by apply info_or.
Qed.

Lemma same_inv R D A st s s' : trav_inv m pre R D A st s -> tstack s' = tstack s -> tstack_top s' = tstack_top s ->
  visited s' = visited s -> binfo s' = binfo s -> trav_inv m pre R D A st s'.
Proof. intros [] E1 E2 E3 E4. constructor; rewrite ?E1, ?E2, ?E3, ?E4; done. Qed.

Lemma prep_same pc s : tstack (prep pc s) = tstack s /\ tstack_top (prep pc s) = tstack_top s /\ visited (prep pc s) = visited s /\
  binfo (prep pc s) = binfo s /\ (wide (prep pc s) = match class_at m pc with OpWide => true | OpLoadStore | OpIinc => false | _ => wide s end).
Proof. unfold prep. destruct (class_at m pc); try done. by destruct (Z.testbit _ 4). Qed.

Lemma fin_same pc s : tstack (fin pc s) = tstack s /\ tstack_top (fin pc s) = tstack_top s /\ visited (fin pc s) = visited s /\
  binfo (fin pc s) = binfo s /\ wide (fin pc s) = wide s.
Proof. unfold fin. by destruct (class_at m pc). Qed.

Lemma elem_of_edges D e : e ∈ flat_map (edges_of m pre) D <-> exists pc, pc ∈ D /\ e ∈ edges_of m pre pc.
Proof. rewrite list_elem_of_In, in_flat_map. setoid_rewrite <- list_elem_of_In. done. Qed.

(** The stack after an iteration. *)
Lemma prefix_step D st pc s st' : reachable m pre pc ->
  trav_inv m pre (roots m) D (flat_map (edges_of m pre) D) (pc :: st) s -> Forall (fun pc => pre pc = false) st ->
  st' = (if decide (class_at m pc = OpWide) then pc + 1 :: st else st') ->
  (class_at m pc <> OpWide -> forall q, q ∈ st' -> q ∈ st \/ exists e, e ∈ edges_of m pre pc /\ target e = q) ->
  (match class_at m pc with OpWide => true | OpLoadStore | OpIinc => false | _ => pre pc end) =
    (match st' with [] => false | q :: _ => pre q end) /\ Forall (fun pc => pre pc = false) (tail st').
Proof.
  intros Hr H Hst Hw Hn. case_decide as Hc.
  - rewrite Hw, Hc. cbn. split; [|done]. destruct (wf_targets _ _ Hwf pc (Plain (pc + 1)) Hr) as [_ E].
    + rewrite edges_of_wide by done. left.
    + cbn in E. by rewrite E, Hc.
  - assert (Forall (fun pc => pre pc = false) st') as Hall.
    { apply Forall_forall. intros q [Hq|(e & He & <-)]%(Hn Hc).
      - rewrite Forall_forall in Hst. by apply Hst.
      - destruct (wf_targets _ _ Hwf pc e Hr He) as [_ ->]. by destruct (class_at m pc). }
    assert (match class_at m pc with OpWide => true | OpLoadStore | OpIinc => false | _ => pre pc end = false) as ->.
    { destruct (pre pc) eqn:Hp.
      - by destruct (wf_prefixed _ _ Hwf pc Hr Hp) as [-> | ->].
      - by destruct (class_at m pc). }
    destruct st' as [|q st']; [done|]. apply Forall_cons in Hall as [-> ?]. done.
Qed.

Lemma traverse_step f0 T D st pc s : loop_inv f0 T D (pc :: st) s ->
  exists s' st', process_opcode m pc (popped s) = Ok s' /\ loop_inv f0 T (D ++ [pc]) st' s' /\
    st' = fold_left (push_target (D ++ [pc])) (edges_of m pre pc) st.
Proof.
  intros [H Hw Hp [Hi Hf] Ht]. assert (reachable m pre pc) as Hr by (eapply pushed_reachable; [done|apply elem_of_app; right; left]).
  destruct (pop_inv _ _ _ _ _ _ H) as [_ Hpop]. destruct (prep_same pc (popped s)) as (P1 & P2 & P3 & P4 & P5).
  destruct (edges_spec (edges_of m pre pc) (D ++ [pc]) (flat_map (edges_of m pre) D) st (prep pc (popped s))) as (s1 & st1 & E1 & H1 & K1 & S1 & S2).
  { by eapply same_inv. }
  { intros e He. split; [by apply edges_of_in_code in He|by eapply reachable_edge]. }
  assert (st1 = if decide (class_at m pc = OpWide) then pc + 1 :: st else st1) as Hst1.
  { case_decide as Hc; [|done]. pose proof (prefixed_is_new _ _ _ _ H Hc) as Hnew.
    rewrite edges_of_wide in E1 by done. rewrite process_edges_one in E1.
    destruct (edge_spec (D ++ [pc]) (flat_map (edges_of m pre) D) st (prep pc (popped s)) (Plain (pc + 1))) as (s2 & st2 & E2 & H2 & _ & S3).
    - by eapply same_inv.
    - destruct (edges_of_in_code pc Hr (Plain (pc + 1))) as [? ?]; [rewrite edges_of_wide by done; left|done].
    - eapply reachable_edge; [done|]. rewrite edges_of_wide by done. left.
    - cbn [target] in S3. rewrite decide_False in S3 by done. rewrite E2 in E1. injection E1 as ->. rewrite <- S3.
      rewrite <- (reverse_involutive st1), <- (reverse_involutive st2), <- (ti_stack _ _ _ _ _ _ _ H1), <- (ti_stack _ _ _ _ _ _ _ H2).
      f_equal. f_equal. pose proof (ti_top _ _ _ _ _ _ _ H1). pose proof (ti_top _ _ _ _ _ _ _ H2). lia. }
  destruct (prefix_step _ _ _ _ st1 Hr H Hp Hst1) as [Hw' Hp']; [auto|].
  destruct (fin_same pc s1) as (F1 & F2 & F3 & F4 & F5). exists (fin pc s1), st1. split.
  { rewrite (opcode_edges _ _ (edges_of m pre pc)); [by rewrite E1|cbn [popped wide]; rewrite Hw; by apply edges_of_ok|by apply edges_of_in_code]. }
  split; [|done]. constructor.
  - rewrite flat_map_app. cbn [flat_map]. rewrite app_nil_r. by eapply same_inv.
  - rewrite F5, (kept_wide _ _ K1), P5. cbn [popped wide]. by rewrite Hw.
  - done.
  - destruct (info_step pc (popped s) s1 Hr Hi (kept_info _ _ K1)) as [Ei Hi']. split; [done|]. intros i. rewrite Ei. cbn [popped bcodeInfo].
    rewrite Z.lor_spec, orb_true_iff, Hf. setoid_rewrite elem_of_app. setoid_rewrite list_elem_of_singleton. naive_solver.
  - intros q. by rewrite F4, (kept_try _ _ K1), P4.
Qed.

Lemma traverse_spec f0 T fuel : forall D st s, loop_inv f0 T D st s -> (length (bytecode m) - length D <= fuel)%nat ->
  exists s', traverse m fuel s = Ok s' /\ loop_inv f0 T (dfs m pre fuel D st) [] s'.
Proof.
  induction fuel as [|fuel IH]; intros D st s H Hfuel; pose proof (li_inv _ _ _ _ _ H) as Hi;
    pose proof (ti_top _ _ _ _ _ _ _ Hi) as Htop; pose proof (height_bound _ _ _ _ Hi) as Hh; rewrite length_app in Hh;
    destruct st as [|pc st]; cbn [length] in *.
  - exists s. split; [|done]. cbn [traverse]. by rewrite Htop.
  - lia.
  - exists s. split; [|done]. cbn [traverse]. by rewrite Htop.
  - cbn [traverse]. rewrite Htop. rewrite (proj2 (Z.ltb_ge _ _)) by lia. unfold codelen in *. rewrite (proj2 (Z.ltb_lt _ _)) by lia.
    cbn [assert_or mbind res_bind]. destruct (pop_inv _ _ _ _ _ _ Hi) as [Hpc _]. rewrite Htop in Hpc. rewrite Hpc. cbn [of_option mbind res_bind].
    destruct (traverse_step _ _ _ _ _ _ H) as (s' & st' & E & H' & Est).
    rewrite <- Htop. change (mkTraversal _ _ _ _ _ _ _) with (popped s). rewrite E. cbn [mbind res_bind dfs].
    rewrite Est in H'. apply (IH _ _ _ H'). rewrite length_app. cbn. lia.
Qed.

(** At the end the instructions taken off the stack are the reachable ones. *)
Lemma traversed_reachable f0 T D s pc : loop_inv f0 T D [] s -> pc ∈ D <-> reachable m pre pc.
Proof.
  intros [H _ _ _ _]. split.
  - intros Hin. eapply pushed_reachable; [done|]. by rewrite app_nil_r.
  - pose proof (ti_arrived _ _ _ _ _ _ _ H) as Ha. rewrite app_nil_r in Ha. induction 1 as [pc Hpc|pc e Hpc IH He].
    + apply Ha. by left.
    + apply Ha. right. exists e. split; [|done]. apply elem_of_edges. by exists pc.
Qed.

Lemma traversed_nodup D A s : trav_inv m pre (roots m) D A [] s -> NoDup (roots m) -> NoDup D.
Proof.
  intros H HN. destruct (ti_pushed _ _ _ _ _ _ _ H) as (P & HP & HNP & Hall). rewrite app_nil_r in HP. rewrite HP.
  apply NoDup_app. split_and!; [done| |done]. intros x Hx HxP. by destruct (Hall x HxP).
Qed.

End Traversal.

(** ** The exception table *)

Lemma set_try_spec n : forall j s, 0 <= j -> j + Z.of_nat n <= Z.of_nat (length (binfo s)) ->
  exists s', set_try n j s = Ok s' /\ tstack s' = tstack s /\ tstack_top s' = tstack_top s /\ visited s' = visited s /\
    wide s' = wide s /\ bcodeInfo s' = bcodeInfo s /\ length (binfo s') = length (binfo s) /\
    forall q, zlookup (binfo s') q = (if (j <=? q) && (q <? j + Z.of_nat n) then fun b => Z.lor b 2 else id) <$> zlookup (binfo s) q.
Proof.
  induction n as [|n IH]; intros j s Hj Hn; cbn [set_try].
  - exists s. split_and!; try done. intros q. replace (_ && _) with false by zcmps. by destruct (zlookup _ q).
  - destruct (zlookup_is_Some (binfo s) j) as [b Hb]; [lia|]. rewrite (set_binfo_run _ _ _ _ Hb). cbn [mbind res_bind].
    edestruct (IH (j + 1)) as (s' & -> & E1 & E2 & E3 & E4 & E5 & E6 & Hq); [lia|cbn [binfo]; rewrite length_insert; lia|].
    cbn [tstack tstack_top visited wide bcodeInfo binfo] in *. rewrite length_insert in E6.
    exists s'. split_and!; try done. intros q. rewrite Hq, zlookup_insert_nat by lia. unfold METHOD_WITHIN_TRY.
    destruct (Z.eqb_spec j q) as [<-|Hne].
    + rewrite Hb. replace ((j + 1 <=? j) && _) with false by zcmps. by replace ((j <=? j) && _) with true by zcmps.
    + f_equal. by replace ((j + 1 <=? q) && (q <? j + 1 + Z.of_nat n)) with ((j <=? q) && (q <? j + Z.of_nat (S n))) by zcmps.
Qed.

Section Table.
Context (object_class_name throwable_class_name exception_class_name null_pointer_exception_name : Z).
Context (m : method) (pre : Z -> bool).

Hypothesis Hlen : 0 < codelen m < 2 ^ 31.

Abbreviation catches := (catches_null object_class_name throwable_class_name exception_class_name null_pointer_exception_name).
Abbreviation insert_all := (insert_entries object_class_name throwable_class_name exception_class_name null_pointer_exception_name m).
Abbreviation check_eh := (check_nullpointer_eh object_class_name throwable_class_name exception_class_name null_pointer_exception_name m).

(** Whether an entry catches a null pointer exception; [None] if its class is no class constant. *)
Definition entry_catches (e : jexceptionEntry) : option bool :=
  if catch_idx e =? 0 then Some true
  else match zlookup (pool m) (catch_idx e) with
       | Some (ResolvedClass name) => Some (catches name)
       | Some (UnresolvedClass name) => Some (catches name)
       | _ => None
       end.

Definition entries : list jexceptionEntry := default [] (exception_table m).

(** The bytes of a range: [end_pc] is the first one behind it, as the class file
    has it and [exception_handler.c] takes it. *)
Definition covers (q : Z) (e : jexceptionEntry) : Prop := start_pc e <= q < end_pc e.

(** Ranges end inside the method: the loop also marks the byte at [end_pc], so
    it must not be the length of the code (see [try_range_overruns]). *)
Definition well_formed_table : Prop :=
  Forall (fun e => 0 <= start_pc e <= end_pc e /\ end_pc e < codelen m /\ is_Some (entry_catches e)) entries.

Lemma check_eh_spec s e c : entry_catches e = Some c ->
  check_eh (catch_idx e) s = Ok (if c then set_info METHOD_HAVE_NULLEH s else s).
Proof.
  unfold entry_catches, check_nullpointer_eh. destruct (_ =? 0); [by intros [= <-]|].
  by destruct (zlookup _ _) as [[name|name|]|]; intros [= <-].
Qed.

(** What is known after the entries [es] were inserted. *)
Record table_inv (es : list jexceptionEntry) (s : traversal) : Prop := {
  tb_inv : trav_inv m pre (map handler_pc es) [] [] (reverse (map handler_pc es)) s;
  tb_wide : wide s = false;
  tb_try : forall q, 0 <= q < codelen m -> exists b, zlookup (binfo s) q = Some b /\
    (Z.testbit b 1 = true <-> exists e, e ∈ es /\ (covers q e \/ q = end_pc e)) /\ Z.testbit b 0 = false;
  tb_info : in_u 8 (bcodeInfo s) /\ forall i, Z.testbit (bcodeInfo s) i = true <->
    Z.testbit (bcodeInfo0 m) i = true \/ (i = 2 /\ exists e, e ∈ es /\ entry_catches e = Some true)
}.

Lemma root_pushed R st s q : trav_inv m pre R [] [] st s -> 0 <= q < codelen m -> (length st < length (bytecode m))%nat -> st = reverse R ->
  trav_inv m pre (R ++ [q]) [] [] (q :: st) (pushed q (length st) s).
Proof.
  intros H Hq Hst ->. eapply pushed_inv; [done|done|done|done|..].
  - exists []. rewrite app_nil_r. split_and!; [|constructor|by intros ? ?%elem_of_nil].
    cbn. rewrite <- Permutation_cons_append. f_equiv. apply reverse_Permutation.
  - intros p. cbn. rewrite elem_of_cons, elem_of_app, elem_of_reverse, list_elem_of_singleton. split; [naive_solver|].
    intros [[|]|(e & He & _)]; [by right|by left|by apply elem_of_nil in He].
  - intros p. split; by intros ?%rejoined_nil.
Qed.

(** The invariant does not mention the bits of the exception ranges. *)
Lemma joins_only R D st s s' : trav_inv m pre R D [] st s -> tstack s' = tstack s -> tstack_top s' = tstack_top s ->
  visited s' = visited s -> length (binfo s') = length (binfo s) ->
  (forall q, 0 <= q < codelen m -> exists b, zlookup (binfo s') q = Some b /\ Z.testbit b 0 = false) -> trav_inv m pre R D [] st s'.
Proof.
  intros [] E1 E2 E3 E4 E5. constructor; rewrite ?E1, ?E2, ?E3, ?E4; try done.
  intros q Hq. destruct (E5 q Hq) as (b & Hb & Ht). exists b. split; [done|]. rewrite Ht. split; [done|]. by intros ?%rejoined_nil.
Qed.

Lemma insert_entry es e s : table_inv es s -> 0 <= start_pc e <= end_pc e -> end_pc e < codelen m -> is_Some (entry_catches e) ->
  0 <= handler_pc e < codelen m -> (length es < length (bytecode m))%nat ->
  exists s', insert_all [e] s = Ok s' /\ table_inv (es ++ [e]) s'.
Proof.
  intros [H Hw Ht [Hi Hf]] Hs He [c Hc] Hh Hl. cbn [insert_entries].
  pose proof (ti_binfo_length _ _ _ _ _ _ _ H) as Hbl. unfold codelen in *.
  destruct (set_try_spec (Z.to_nat (end_pc e + 1 - start_pc e)) (start_pc e) s) as (s1 & -> & E1 & E2 & E3 & E4 & E5 & E6 & Hq).
  { lia. } { lia. }
  cbn [mbind res_bind]. rewrite (check_eh_spec _ _ _ Hc). cbn [mbind res_bind].
  set (s2 := if c then _ else _).
  assert (forall q, 0 <= q < Z.of_nat (length (bytecode m)) -> exists b, zlookup (binfo s2) q = Some b /\
    (Z.testbit b 1 = true <-> exists e', e' ∈ es ++ [e] /\ (covers q e' \/ q = end_pc e')) /\ Z.testbit b 0 = false) as Ht2.
  { intros q Hqr. destruct (Ht q Hqr) as (b & Hb & Hb1 & Hb0). assert (binfo s2 = binfo s1) as -> by (unfold s2; by destruct c).
    rewrite Hq, Hb. setoid_rewrite elem_of_app. setoid_rewrite list_elem_of_singleton. unfold covers in *.
    rewrite Z2Nat.id by lia.
    destruct ((start_pc e <=? q) && (q <? _)) eqn:Hcov; [apply andb_true_iff in Hcov|apply andb_false_iff in Hcov]; cbn [fmap option_fmap option_map]; eexists; (split; [done|]).
    - rewrite !Z.lor_spec, orb_true_iff, Hb0. split; [|done]. split; [intros _|by right]. exists e. split; [by right|lia].
    - split; [|done]. cbn [id]. rewrite Hb1. split; [intros (e' & ? & ?); exists e'; split; [by left|done]|].
      intros (e' & [?| ->] & ?); [by exists e'|lia]. }
  assert (trav_inv m pre (map handler_pc es) [] [] (reverse (map handler_pc es)) s2) as H2.
  { assert (tstack s2 = tstack s1 /\ tstack_top s2 = tstack_top s1 /\ visited s2 = visited s1 /\ binfo s2 = binfo s1) as (F1 & F2 & F3 & F4)
      by (unfold s2; by destruct c).
    apply (joins_only _ _ _ s); try congruence. intros q Hqr. destruct (Ht2 q Hqr) as (b & Hb & _ & ?). by exists b. }
  assert (length (reverse (map handler_pc es)) < length (bytecode m))%nat as Hl' by (by rewrite length_reverse, length_map).
  rewrite (push_pc_run m pre _ _ _ _ _ _ H2 Hh Hl'). cbn [mbind res_bind]. eexists. split; [done|]. constructor.
  - rewrite map_app, reverse_app. by apply root_pushed.
  - cbn. unfold s2. destruct c; cbn; congruence.
  - done.
  - cbn [pushed bcodeInfo]. rewrite <- E5 in Hi, Hf. assert (bcodeInfo s2 = Z.lor (bcodeInfo s1) (if c then 4 else 0) /\ in_u 8 (bcodeInfo s2)) as [E Hi2].
    { unfold s2. destruct c; [apply (info_or 4); [by unfold in_u|done]|by rewrite Z.lor_0_r]. }
    split; [done|]. intros i. rewrite E, Z.lor_spec, orb_true_iff, Hf. setoid_rewrite elem_of_app. setoid_rewrite list_elem_of_singleton.
    assert (Z.testbit (if c then 4 else 0) i = true <-> i = 2 /\ c = true) as ->.
    { destruct c; [|rewrite Z.bits_0; naive_solver]. change 4 with (2 ^ 2). rewrite Z.pow2_bits_eqb by lia. rewrite Z.eqb_eq. naive_solver lia. }
    split; [intros [[?|(-> & e' & ? & ?)]|[-> ->]]|intros [?|(-> & e' & [?| ->] & ?)]]; [by left|right|right|by left; left|left; right|right].
    + split; [done|]. exists e'. split; [by left|done].
    + split; [done|]. exists e. split; [by right|done].
    + split; [done|]. by exists e'.
    + split; [done|]. congruence.
Qed.

Lemma insert_entries_app es1 es2 s : insert_all (es1 ++ es2) s = (s ← insert_all es1 s; insert_all es2 s).
Proof.
  revert s. induction es1 as [|e es1 IH]; intros s; [done|]. cbn [app insert_entries].
  destruct (set_try _ _ s) as [s1|]; [|done]. cbn [mbind res_bind]. destruct (check_eh _ s1) as [s2|]; [|done]. cbn [mbind res_bind].
  destruct (push_pc _ s2) as [s3|]; [|done]. apply IH.
Qed.

Lemma insert_all_spec es2 : forall es1 s, table_inv es1 s ->
  Forall (fun e => 0 <= start_pc e <= end_pc e /\ end_pc e < codelen m /\ is_Some (entry_catches e)) es2 ->
  Forall (fun q => 0 <= q < codelen m) (map handler_pc es2) -> (length es1 + length es2 <= length (bytecode m))%nat ->
  exists s', insert_all es2 s = Ok s' /\ table_inv (es1 ++ es2) s'.
Proof.
  induction es2 as [|e es2 IH]; intros es1 s H Hok Hh Hl; [exists s; by rewrite app_nil_r|].
  apply Forall_cons in Hok as [(? & ? & ?) Hok]. apply Forall_cons in Hh as [? Hh]. cbn [length] in Hl.
  destruct (insert_entry es1 e s H) as (s1 & E & Hs1); [done|done|done|done|lia|].
  destruct (IH (es1 ++ [e]) s1 Hs1 Hok Hh) as (s' & E' & H'); [rewrite length_app; cbn; lia|].
  exists s'. rewrite <- app_assoc in H'. split; [|done]. change (e :: es2) with ([e] ++ es2). by rewrite insert_entries_app, E.
Qed.

Definition initial : traversal :=
  let zeros := replicate (length (bytecode m)) 0 in mkTraversal zeros (-1) zeros zeros false (bcodeInfo0 m) (branches0 m).

Lemma zlookup_zeros n q : 0 <= q < Z.of_nat n -> zlookup (replicate n 0) q = Some 0.
Proof. intros. apply zlookup_Some. split; [lia|]. apply lookup_replicate. lia. Qed.

Lemma initial_inv : in_u 8 (bcodeInfo0 m) -> table_inv [] initial.
Proof.
  intros Hi. unfold initial. constructor; cbn [map reverse rev_append rev wide binfo bcodeInfo].
  - constructor; cbn [length tstack tstack_top visited binfo]; rewrite ?length_replicate; try done.
    + exists []. split_and!; [done|constructor|by intros ? ?%elem_of_nil].
    + intros q Hq. exists 0. split; [by apply zlookup_zeros|]. split; [done|by intros ?%elem_of_nil].
    + intros q. split; [by intros ?%elem_of_nil|]. intros [?%elem_of_nil|(e & ?%elem_of_nil & _)]; done.
    + intros q Hq. exists 0. split; [by apply zlookup_zeros|]. split; [done|]. by intros ?%rejoined_nil.
  - done.
  - intros q Hq. exists 0. split; [by apply zlookup_zeros|]. split; [|done]. split; [done|]. by intros (e & ?%elem_of_nil & _).
  - split; [done|]. intros i. split; [by left|]. intros [?|(_ & e & ?%elem_of_nil & _)]; done.
Qed.

Lemma handlers_entries : handlers m = map handler_pc entries.
Proof. unfold handlers, entries. by destruct (exception_table m). Qed.

Hypothesis Hwf : well_formed_code m pre.
Hypothesis Htab : well_formed_table.
Hypothesis Hroom : room m pre.
Hypothesis Hinfo : in_u 8 (bcodeInfo0 m).

(** The whole analysis: the state it starts the loop with, and the one it ends with. *)
Lemma analysis_spec : exists s1 s,
  BA_bytecode_analysis object_class_name throwable_class_name exception_class_name null_pointer_exception_name m = Ok s /\
  table_inv entries s1 /\
  loop_inv m pre (bcodeInfo s1) (fun q => (fun b => Z.testbit b 1) <$> zlookup (binfo s1) q) (visit_order m pre) [] s.
Proof.
  assert (length entries + 1 <= length (bytecode m))%nat as Hl.
  { destruct Hroom as (S & _ & Hle). unfold roots in Hle. rewrite length_app, handlers_entries, length_map in Hle. cbn in Hle. lia. }
  pose proof (wf_roots _ _ Hwf) as HR. unfold roots in HR. rewrite handlers_entries in HR. apply Forall_app in HR as [HRh HR0].
  destruct (insert_all_spec entries [] initial) as (s1 & E1 & H1); [by apply initial_inv|done|eapply Forall_impl; [exact HRh|]; intros q [Hq _]; exact Hq|cbn; lia|].
  pose proof (tb_inv _ _ H1) as Hi. cbn [app] in *.
  assert (length (reverse (map handler_pc entries)) < length (bytecode m))%nat as Hst by (rewrite length_reverse, length_map; lia).
  assert (0 <= 0 < codelen m) as H0 by lia.
  set (s2 := pushed 0 (length (reverse (map handler_pc entries))) s1).
  assert (loop_inv m pre (bcodeInfo s1) (fun q => (fun b => Z.testbit b 1) <$> zlookup (binfo s1) q) [] (0 :: reverse (map handler_pc entries)) s2) as HL.
  { constructor.
    - cbn [flat_map]. unfold roots. rewrite handlers_entries. by apply root_pushed.
    - cbn. rewrite (tb_wide _ _ H1). apply Forall_singleton in HR0 as [_ E]. by rewrite E.
    - cbn [tail]. apply Forall_forall. intros q. rewrite elem_of_reverse. rewrite Forall_forall in HRh. intros Hq. by apply HRh.
    - split; [apply (tb_info _ _ H1)|]. intros i. split; [by left|]. intros [?|(pc & ?%elem_of_nil & _)]; done.
    - done. }
  destruct (traverse_spec m pre Hlen Hroom Hwf _ _ (length (handlers m) + length (bytecode m) + 1) _ _ _ HL) as (s & E & HD); [cbn; lia|].
  exists s1, s. split; [|split; [done|]].
  2:{ unfold visit_order. rewrite handlers_entries in HD |- *. done. } unfold BA_bytecode_analysis, insert_exception_handlers.
  assert (forall s, match exception_table m with Some es => insert_all es s | None => Ok s end = insert_all entries s) as Ht
    by (intros s'; unfold entries; by destruct (exception_table m)).
  rewrite Ht. change (mkTraversal _ _ _ _ _ _ _) with initial. rewrite E1. cbn [mbind res_bind].
  by rewrite (push_pc_run m pre _ _ _ _ _ _ Hi H0 Hst).
Qed.
End Table.

(** C19: the analysis of a method whose code control flow can follow, with
    exception ranges that end before its last byte does, terminates without
    leaving its arrays.  It visits exactly the reachable instructions, records
    exactly what the reachable instructions and the handlers tell about the
    method, and marks as within a try block every byte of an exception range
    and, besides those, exactly the first byte behind each range. *)
Theorem BA_bytecode_analysis_correct (object throwable exception npe : Z) (m : method) (pre : Z -> bool)
    (Hwf : well_formed_code m pre) (Htab : well_formed_table object throwable exception npe m) (Hroom : room m pre)
    (Hinfo : in_u 8 (bcodeInfo0 m)) :
  exists s, BA_bytecode_analysis object throwable exception npe m = Ok s /\
    (forall q, 0 <= q < codelen m -> exists v b, zlookup (visited s) q = Some v /\ zlookup (binfo s) q = Some b /\
       (v <> 0 <-> reachable m pre q) /\ 
       (Z.testbit b 1 = true <-> exists e, e ∈ entries m /\ (covers q e \/ q = end_pc e))) /\
    (forall i, Z.testbit (bcodeInfo s) i = true <-> Z.testbit (bcodeInfo0 m) i = true \/
       (i = 2 /\ exists e, e ∈ entries m /\ entry_catches object throwable exception npe m e = Some true) \/
       (exists pc, reachable m pre pc /\ Z.testbit (flags_of m pc) i = true)).
Proof.
  destruct (analysis_spec object throwable exception npe m pre (wf_length _ _ Hwf) Hwf Htab Hroom Hinfo) as (s1 & s & E & [_ _ Ht [_ Hf]] & HL).
  exists s. split; [done|]. pose proof (li_inv _ _ _ _ _ _ _ HL) as HI. split.
  - intros q Hq. destruct (ti_visited _ _ _ _ _ _ _ HI q Hq) as (v & Hv & Hin). rewrite app_nil_r in Hin.
    destruct (ti_joins _ _ _ _ _ _ _ HI q Hq) as (b & Hb & _). exists v, b. split_and!; [done|done| |].
    + rewrite Hin. by eapply traversed_reachable.
    + destruct (Ht q Hq) as (b1 & Hb1 & <- & _). pose proof (li_try _ _ _ _ _ _ _ HL q) as Hq1. cbn beta in Hq1.
      rewrite Hb, Hb1 in Hq1. apply (inj Some) in Hq1. by rewrite Hq1.
  - intros i. rewrite (proj2 (li_info _ _ _ _ _ _ _ HL)), Hf. setoid_rewrite (fun pc => traversed_reachable m pre _ _ _ s pc HL). tauto.
Qed.

(** C20: the join points.  Let the reachable instructions be visited in
    depth-first order, from the start of the method and then the handlers, and
    their edges followed in that order: a byte is marked exactly if an edge that
    is not a [jsr]'s leads to it when it was already reached, as the start of
    the method or of a handler or by an earlier edge of any kind.  So two edges
    that are not [jsr]'s always make a join point, [jsr]'s alone never do, and a
    single other edge does exactly behind a root or a [jsr]'s edge.  Each
    reachable instruction is visited once when no two handlers start together. *)
Theorem join_points_correct (object throwable exception npe : Z) (m : method) (pre : Z -> bool)
    (Hwf : well_formed_code m pre) (Htab : well_formed_table object throwable exception npe m) (Hroom : room m pre)
    (Hinfo : in_u 8 (bcodeInfo0 m)) :
  let nodes := visit_order m pre in
  (forall pc, pc ∈ nodes <-> reachable m pre pc) /\ (NoDup (roots m) -> NoDup nodes) /\
  exists s, BA_bytecode_analysis object throwable exception npe m = Ok s /\
    forall q, 0 <= q < codelen m -> exists b, zlookup (binfo s) q = Some b /\
      (Z.testbit b 0 = true <-> rejoined (roots m) (flat_map (edges_of m pre) nodes) q).
Proof.
  destruct (analysis_spec object throwable exception npe m pre (wf_length _ _ Hwf) Hwf Htab Hroom Hinfo) as (s1 & s & E & _ & HL).
  pose proof (li_inv _ _ _ _ _ _ _ HL) as HI. split_and!.
  - intros pc. by eapply traversed_reachable.
  - by eapply traversed_nodup.
  - exists s. split; [done|]. intros q Hq. apply (ti_joins _ _ _ _ _ _ _ HI q Hq).
Qed.

(** ** Checking the hypotheses *)

Lemma reachable_in_code m pre pc : well_formed_code m pre -> reachable m pre pc -> 0 <= pc < codelen m.
Proof.
  intros Hwf. destruct 1 as [pc Hpc|pc e Hpc He].
  - pose proof (wf_roots _ _ Hwf) as H. rewrite Forall_forall in H. by apply H.
  - by apply (wf_targets _ _ Hwf pc e).
Qed.

(** There is room for the traversal when no two handlers start together. *)
Lemma room_nodup m pre : well_formed_code m pre -> NoDup (roots m) -> room m pre.
Proof.
  intros Hwf HN. exists (list_to_set (seqZ 0 (codelen m))). split.
  - intros pc Hpc. apply elem_of_list_to_set, elem_of_seqZ. pose proof (reachable_in_code _ _ _ Hwf Hpc). lia.
  - assert (list_to_set (C := gset Z) (roots m) ⊆ list_to_set (seqZ 0 (codelen m))) as Hsub.
    { intros q. rewrite !elem_of_list_to_set, elem_of_seqZ. intros Hq. pose proof (wf_roots _ _ Hwf) as H.
      rewrite Forall_forall in H. destruct (H q Hq). lia. }
    rewrite size_difference by done. apply subseteq_size in Hsub.
    rewrite !size_list_to_set in * by (done || apply NoDup_seqZ). rewrite length_seqZ in *. unfold codelen in *. lia.
Qed.

Definition well_formed_at (m : method) (pre : Z -> bool) (l : list Z) (pc : Z) : bool :=
  is_ok (edges m pc (pre pc)) &&
  forallb (fun e => (0 <=? target e) && (target e <? codelen m) && bool_decide (target e ∈ l) &&
    Bool.eqb (pre (target e)) (match class_at m pc with OpWide => true | _ => false end)) (edges_of m pre pc) &&
  (negb (pre pc) || match class_at m pc with OpLoadStore | OpIinc => true | _ => false end).

(** [l] lists the instructions that can be reached. *)
Definition well_formed_code_b (m : method) (pre : Z -> bool) (l : list Z) : bool :=
  (0 <? codelen m) && (codelen m <? 2 ^ 31) && forallb (fun b => (0 <=? b) && (b <? 256)) (bytecode m) &&
  forallb (fun pc => (0 <=? pc) && (pc <? codelen m) && negb (pre pc) && bool_decide (pc ∈ l)) (roots m) &&
  bool_decide (NoDup (roots m)) && forallb (well_formed_at m pre l) l.

Lemma well_formed_code_b_sound m pre l : well_formed_code_b m pre l = true ->
  well_formed_code m pre /\ NoDup (roots m) /\ forall pc, reachable m pre pc -> pc ∈ l.
Proof.
  intros (((((H1 & H2)%andb_true_iff & H3)%andb_true_iff & H4)%andb_true_iff & H5)%andb_true_iff & H6)%andb_true_iff.
  apply bool_decide_eq_true in H5. rewrite forallb_forall in H3, H4, H6. setoid_rewrite <- list_elem_of_In in H3.
  setoid_rewrite <- list_elem_of_In in H4. setoid_rewrite <- list_elem_of_In in H6.
  assert (forall pc, pc ∈ roots m -> (0 <= pc < codelen m /\ pre pc = false) /\ pc ∈ l) as HR.
  { intros pc (((? & ?)%andb_true_iff & ?%negb_true_iff)%andb_true_iff & ?%bool_decide_eq_true)%H4%andb_true_iff. split_and!; [lia|lia|done|done]. }
  assert (forall pc, pc ∈ l -> is_ok (edges m pc (pre pc)) = true /\
    (forall e, e ∈ edges_of m pre pc -> (0 <= target e < codelen m /\ pre (target e) = (match class_at m pc with OpWide => true | _ => false end)) /\ target e ∈ l) /\
    (pre pc = true -> class_at m pc = OpLoadStore \/ class_at m pc = OpIinc)) as HL.
  { intros pc ((? & He)%andb_true_iff & Hp)%H6%andb_true_iff. split_and!; [done| |].
    - rewrite forallb_forall in He. setoid_rewrite <- list_elem_of_In in He.
      intros e (((? & ?)%andb_true_iff & ?%bool_decide_eq_true)%andb_true_iff & ?%Bool.eqb_prop)%He%andb_true_iff.
      split_and!; [lia|lia|done|done].
    - intros E. rewrite E in Hp. cbn in Hp. destruct (class_at m pc); try done; [by left|by right]. }
  assert (forall pc, reachable m pre pc -> pc ∈ l) as Hreach.
  { induction 1 as [pc Hpc|pc e Hpc IH He]; [by apply HR|]. by apply (HL pc IH). }
  split_and!; [|done|done]. constructor.
  - lia.
  - apply Forall_forall. intros b Hb. specialize (H3 b Hb). unfold in_u. lia.
  - apply Forall_forall. intros pc Hpc. by apply HR.
  - intros pc Hpc. destruct (HL pc (Hreach pc Hpc)) as (Hok & _ & _). destruct (edges m pc (pre pc)) as [es|]; [by exists es|done].
  - intros pc e Hpc He. by apply (HL pc (Hreach pc Hpc)).
  - intros pc Hpc. by apply (HL pc (Hreach pc Hpc)).
  - intros pc _. by apply occurs_nodup.
Qed.

(** A method with a branch, a [WIDE] load and a handler for bytes 0 to 8:
    <<
     0 iload_0    1 ifeq 8    4 wide iload 256    8 ireturn
     9 pop       10 iconst_0 11 goto 8
    >> *)
Definition ex_method : method :=
  mkMethod [26; 153; 0; 7; 196; 21; 1; 0; 172; 87; 3; 167; 255; 253] (Some [mkJEE 0 8 9 0]) [] (fun _ => None) 0 0.

Definition ex_pre (pc : Z) : bool := pc =? 5.

Lemma ex_method_wf : well_formed_code ex_method ex_pre /\ NoDup (roots ex_method) /\
  forall pc, reachable ex_method ex_pre pc -> pc ∈ [0; 1; 4; 5; 8; 9; 10; 11].
Proof. apply (well_formed_code_b_sound ex_method ex_pre [0; 1; 4; 5; 8; 9; 10; 11]). by vm_compute. Qed.

Lemma ex_method_table : well_formed_table 1 2 3 4 ex_method.
Proof. apply Forall_singleton. split; [by vm_compute|]. split; [by vm_compute|]. by exists true. Qed.

Lemma BA_bytecode_analysis_correct_witness :
  exists s, BA_bytecode_analysis 1 2 3 4 ex_method = Ok s /\
    (forall q, 0 <= q < codelen ex_method -> exists v b, zlookup (visited s) q = Some v /\ zlookup (binfo s) q = Some b /\
       (v <> 0 <-> reachable ex_method ex_pre q) /\ 
       (Z.testbit b 1 = true <-> exists e, e ∈ entries ex_method /\ (covers q e \/ q = end_pc e))) /\
    bcodeInfo s = 7.
Proof.
  destruct ex_method_wf as (Hwf & HN & _).
  destruct (BA_bytecode_analysis_correct 1 2 3 4 ex_method ex_pre Hwf ex_method_table (room_nodup _ _ Hwf HN) ltac:(by unfold in_u)) as (s & E & H & _).
  exists s. split; [exact E|]. split; [exact H|]. vm_compute in E. injection E as <-. reflexivity.
Defined.

Lemma join_points_correct_witness :
  visit_order ex_method ex_pre = [0; 1; 8; 4; 5; 9; 10; 11] /\
  rejoined (roots ex_method) (flat_map (edges_of ex_method ex_pre) [0; 1; 8; 4; 5; 9; 10; 11]) 8 /\
  ~ rejoined (roots ex_method) (flat_map (edges_of ex_method ex_pre) [0; 1; 8; 4; 5; 9; 10; 11]) 9.
Proof.
  destruct ex_method_wf as (Hwf & HN & _).
  destruct (join_points_correct 1 2 3 4 ex_method ex_pre Hwf ex_method_table (room_nodup _ _ Hwf HN) ltac:(by unfold in_u)) as (_ & _ & s & E & H).
  assert (Hv : visit_order ex_method ex_pre = [0; 1; 8; 4; 5; 9; 10; 11]) by (vm_compute; reflexivity).
  rewrite Hv in H. vm_compute in E. injection E as <-. split; [exact Hv|]. split.
  - destruct (H 8) as (b & Hb & Hj); [vm_compute; split; [discriminate|reflexivity]|]. apply Hj.
    vm_compute in Hb. injection Hb as <-. reflexivity.
  - destruct (H 9) as (b & Hb & Hj); [vm_compute; split; [discriminate|reflexivity]|]. rewrite <- Hj.
    vm_compute in Hb. injection Hb as <-. discriminate.
Defined.

(** ** What goes wrong *)

(** The example of a [ret] with a [WIDE] prefix:
    <<
     0 jsr 9      3 iload 1    5 ireturn
     6 athrow     7 nop        8 nop
     9 astore_1  10 wide ret 256
    >> *)
Definition wide_ret_method : method :=
  mkMethod [168; 0; 9; 21; 1; 172; 191; 0; 0; 76; 196; 169; 1; 0] None [] (fun _ => None) 0 0.

(** A [ret] leaves the flag of its [WIDE] prefix set, and the next load is
    taken to be two bytes long: in this method the analysis misses the reachable
    [ireturn] and finds an [athrow] that is never executed. *)
Theorem wide_ret_corrupts_analysis : exists s,
  BA_bytecode_analysis 1 2 3 4 wide_ret_method = Ok s /\ reachable wide_ret_method (fun pc => pc =? 11) 5 /\
  zlookup (visited s) 5 = Some 0 /\ bcodeInfo s = METHOD_HAVE_ATHROW /\
  (forall pc, reachable wide_ret_method (fun pc => pc =? 11) pc -> pc <> 6).
Proof.
  eexists. split; [vm_compute; reflexivity|]. split_and!; [|done|done|].
  - apply (reachable_edge _ _ 3 (Plain 5)); [|left]. apply (reachable_edge _ _ 0 (Plain 3)); [|left].
    apply reachable_root. left.
  - assert (forall pc, reachable wide_ret_method (fun pc => pc =? 11) pc -> pc ∈ [0; 3; 5; 9; 10; 11]) as H.
    { induction 1 as [pc Hpc|pc e Hpc IH He]; [set_solver|].
      repeat (apply elem_of_cons in IH as [->|IH]; [vm_compute in He; set_solver|]). by apply elem_of_nil in IH. }
    intros pc Hpc%H ->. set_solver.
Qed.

Lemma set_try_overruns n : forall j s, 0 <= j -> j + Z.of_nat n = Z.of_nat (length (binfo s)) ->
  set_try (S n) j s = Err BadAccess.
Proof.
  induction n as [|n IH]; intros j s Hj Hn.
  - cbn [set_try]. unfold set_binfo. assert (zlookup (binfo s) j = None) as ->; [|done].
    destruct (zlookup _ _) eqn:E; [|done]. apply zlookup_bound in E. lia.
  - destruct (zlookup_is_Some (binfo s) j) as [b Hb]; [lia|]. change (set_try (S (S n)) j s) with (s ← set_binfo METHOD_WITHIN_TRY j s; set_try (S n) (j + 1) s).
    rewrite (set_binfo_run _ _ _ _ Hb). cbn [mbind res_bind]. apply IH; [lia|]. cbn [binfo]. rewrite length_insert. lia.
Qed.

(** The end of an exception range is exclusive and can be the length of the
    code, but the analysis marks the byte at the end as well: it writes behind
    the array for a method whose first range ends with the code. *)
Theorem try_range_overruns (object throwable exception npe : Z) (m : method) (e : jexceptionEntry) (es : list jexceptionEntry)
    (He : exception_table m = Some (e :: es)) (Hs : 0 <= start_pc e <= codelen m) (Hend : end_pc e = codelen m) :
  BA_bytecode_analysis object throwable exception npe m = Err BadAccess.
Proof.
  unfold BA_bytecode_analysis, insert_exception_handlers. rewrite He. cbn [insert_entries]. unfold codelen in *.
  replace (Z.to_nat (end_pc e + 1 - start_pc e)) with (S (Z.to_nat (end_pc e - start_pc e))) by lia.
  rewrite set_try_overruns; [done|lia|]. cbn [binfo]. rewrite length_replicate, Z2Nat.id by lia. lia.
Qed.

Lemma try_range_overruns_witness :
  BA_bytecode_analysis 1 2 3 4 (mkMethod [172; 87; 167; 255; 255] (Some [mkJEE 0 5 1 0]) [] (fun _ => None) 0 0) = Err BadAccess.
Proof. apply (try_range_overruns 1 2 3 4 _ (mkJEE 0 5 1 0) []); [reflexivity|vm_compute; split; discriminate|reflexivity]. Defined.
