(* ===== verification/ExceptionInfo.v ===== *)
(** * Exception information (src/translator/exception_info.c)

    The table from native return addresses to bytecode positions that translated
    code leaves for the exception handler: a closed hash table with quadratic
    probing, and the map it implements. *)

From Stdlib Require Import Znumtheory.
From S2P Require Import Prelude Strings.

Record ExceptionInfo := mkEI { nativePC : Z; bytecodePC : Z; varMap : Z; methodInstance : Z }.

Record ExceptionInfoTable := mkEIT { size : Z; numOfInfos : Z; info : list ExceptionInfo }.

Definition DEFAULT_SIZE := 61.

(** What [gc_malloc] returns is zeroed. *)
Definition zero_info : ExceptionInfo := mkEI 0 0 0 0.
Definition new_infos (n : Z) : list ExceptionInfo := replicate (Z.to_nat n) zero_info.

Definition EIT_init (initial_size : Z) : ExceptionInfoTable :=
  let size := if initial_size =? 0 then DEFAULT_SIZE else initial_size in mkEIT size 0 (new_infos size).

Definition hash_val (native_pc table_size : Z) : Z := native_pc mod u32 table_size.

(** The probes from [cur_cell] on, after [i] steps. *)
Fixpoint probe_loop (fuel : nat) (table : ExceptionInfoTable) (native_pc i cur_cell : Z) : res failure Z :=
  e ← of_option BadAccess (zlookup (info table) cur_cell);
  if (nativePC e =? 0) || (nativePC e =? native_pc) then Ok cur_cell
  else
    match fuel with
    | O => Err OutOfFuel
    | S fuel =>
        let i := s32 (i + 1) in
        let cur_cell := u32 (cur_cell + (2 * i - 1)) in
        let cur_cell := if u32 (size table) <=? cur_cell then u32 (cur_cell - size table) else cur_cell in
        probe_loop fuel table native_pc i cur_cell
    end.

(** [None] is NULL, [Some c] the address of cell [c]. *)
Definition EIT_find (table : ExceptionInfoTable) (native_pc : Z) : res failure (option Z) :=
  if native_pc =? 0 then Ok None
  else c ← probe_loop (Z.to_nat (size table) + 2) table native_pc 0 (hash_val native_pc (size table)); Ok (Some c).

Definition set_cell (table : ExceptionInfoTable) (c : Z) (e : ExceptionInfo) : res failure ExceptionInfoTable :=
  l ← of_option BadAccess (zstore (info table) c e); Ok (mkEIT (size table) (numOfInfos table) l).

(** [*EIT_find(table, e.nativePC) = e], with the assertion of [rehash] when [fresh]. *)
Definition put_info (fresh : bool) (table : ExceptionInfoTable) (e : ExceptionInfo) : res failure ExceptionInfoTable :=
  p ← EIT_find table (nativePC e);
  c ← of_option BadAccess p;
  old ← of_option BadAccess (zlookup (info table) c);
  assert_or AssertionFailed (negb fresh || (nativePC old =? 0));;
  set_cell table c e.

Fixpoint rehash_infos (old_info : list ExceptionInfo) (table : ExceptionInfoTable) : res failure ExceptionInfoTable :=
  match old_info with
  | [] => Ok table
  | e :: old_info =>
      table ← if nativePC e =? 0 then Ok table else put_info true table e;
      rehash_infos old_info table
  end.

Definition rehash (table : ExceptionInfoTable) : res failure ExceptionInfoTable :=
  let n := s32 (get_next_prime (u32 (size table * 2))) in
  rehash_infos (info table) (mkEIT n (numOfInfos table) (new_infos n)).

(** Whether an insertion makes the table grow. *)
Definition is_loaded (table : ExceptionInfoTable) : bool := s32 (size table * 3) <? s32 (numOfInfos table * 5).

Definition EIT_insert (table : ExceptionInfoTable) (native_pc bytecode_pc var_map instance : Z) : res failure ExceptionInfoTable :=
  let counted := mkEIT (size table) (s32 (numOfInfos table + 1)) (info table) in
  table ← if is_loaded table then rehash counted else Ok counted;
  put_info false table (mkEI native_pc bytecode_pc var_map instance).

(** ** The probe sequence *)

Definition probe (n k i : Z) : Z := (k + i * i) mod n.

(** The first half of the sequence visits different cells if the size is prime. *)
Lemma square_probe_inj n k i j : prime n -> 0 <= i <= (n - 1) / 2 -> 0 <= j <= (n - 1) / 2 -> probe n k i = probe n k j -> i = j.
Proof.
  intros Hn Hi Hj H. pose proof (prime_ge_2 n Hn).
  assert (forall i j, 0 <= i <= (n - 1) / 2 -> 0 <= j <= (n - 1) / 2 -> probe n k i = probe n k j -> ~ i < j) as Hlt.
  { clear -Hn. intros i j Hi Hj H Hij. pose proof (prime_ge_2 n Hn).
    assert ((n | (j - i) * (j + i))) as Hd.
    { apply Z.mod_divide; [lia|]. replace ((j - i) * (j + i)) with ((k + j * j) - (k + i * i)) by ring.
      unfold probe in H. rewrite Zminus_mod, H, Z.sub_diag. done. }
    assert (2 * ((n - 1) / 2) <= n - 1) by (apply Z.mul_div_le; lia).
    apply prime_mult in Hd as [Hd|Hd]; [..|done]; apply Z.divide_pos_le in Hd; lia. }
  destruct (Z.lt_trichotomy i j) as [?|[?|?]]; [|done|]; [destruct (Hlt i j)|destruct (Hlt j i)]; done.
Qed.

Section Probes.
Context (table : ExceptionInfoTable) (k : Z).
Hypothesis Hsize : 1 < size table < 2 ^ 28.
Hypothesis Hlen : Z.of_nat (length (info table)) = size table.

Abbreviation cell i := (probe (size table) k i).

Definition hits (c : Z) : bool :=
  match zlookup (info table) c with Some e => (nativePC e =? 0) || (nativePC e =? k) | None => false end.

Lemma cell_range i : 0 <= cell i < size table.
Proof. apply Z.mod_pos_bound. lia. Qed.

(** As long as the step is at most the size, one subtraction brings the cell back. *)
Lemma next_cell i : 0 <= i <= (size table - 1) / 2 ->
  (if u32 (size table) <=? u32 (cell i + (2 * s32 (i + 1) - 1)) then u32 (u32 (cell i + (2 * s32 (i + 1) - 1)) - size table)
   else u32 (cell i + (2 * s32 (i + 1) - 1))) = cell (i + 1).
Proof.
  intros Hi. pose proof (cell_range i). assert (2 * ((size table - 1) / 2) <= size table - 1) by (apply Z.mul_div_le; lia).
  rewrite wraps_small by (try done; unfold in_s; lia). replace (2 * (i + 1) - 1) with (2 * i + 1) by lia.
  rewrite (wrapu_small 32 (cell i + (2 * i + 1))), (wrapu_small 32 (size table)) by (unfold in_u; lia).
  assert (cell (i + 1) = (cell i + (2 * i + 1)) mod size table) as ->.
  { unfold probe. rewrite Zplus_mod_idemp_l. f_equal. lia. }
  destruct (Z.leb_spec (size table) (cell i + (2 * i + 1))).
  - rewrite wrapu_small by (unfold in_u; lia). symmetry. rewrite <- (Z.mod_add _ (-1)) by lia.
    replace (cell i + (2 * i + 1) + -1 * size table) with (cell i + (2 * i + 1) - size table) by lia. apply Z.mod_small. lia.
  - symmetry. apply Z.mod_small. lia.
Qed.

Lemma probe_loop_hit j : 0 <= j <= (size table + 1) / 2 -> hits (cell j) = true -> forall d i fuel, j = i + Z.of_nat d -> 0 <= i ->
  (forall i', i <= i' < j -> hits (cell i') = false) -> (d <= fuel)%nat ->
  probe_loop fuel table k i (cell i) = Ok (cell j).
Proof.
  intros Hj Hhit. induction d as [|d IH]; intros i fuel -> Hi Hmiss Hf.
  - rewrite Z.add_0_r in *. unfold hits in Hhit. destruct fuel; cbn [probe_loop]; (destruct (zlookup _ _) as [e|]; [|done]);
      cbn [of_option mbind res_bind]; by rewrite Hhit.
  - destruct fuel as [|fuel]; [lia|]. cbn [probe_loop]. pose proof (Hmiss i ltac:(lia)) as Hm. unfold hits in Hm.
    destruct (zlookup_is_Some (info table) (cell i)) as [e He]; [rewrite Hlen; apply cell_range|].
    rewrite He in Hm |- *. cbn [of_option mbind res_bind]. rewrite Hm.
    assert ((size table + 1) / 2 = (size table - 1) / 2 + 1) as E by (rewrite <- Z.div_add by lia; f_equal; lia).
    assert ((size table - 1) / 2 <= size table - 1) by (apply Z.div_le_upper_bound; lia).
    cbv zeta. rewrite (next_cell i) by lia. rewrite wraps_small by (try done; unfold in_s; lia).
    apply IH; [lia|lia| |lia]. intros i' ?. apply Hmiss. lia.
Qed.
End Probes.

(** ** The map a table implements *)

Abbreviation infos := (gmap Z (Z * Z * Z)).

Definition value (e : ExceptionInfo) : Z * Z * Z := (bytecodePC e, varMap e, methodInstance e).

Definition entry (k : Z) (v : Z * Z * Z) : ExceptionInfo := let '(b, vm, mi) := v in mkEI k b vm mi.

Record implements (t : ExceptionInfoTable) (M : infos) : Prop := {
  im_size : 1 < size t < 2 ^ 28;
  im_prime : prime (size t);
  im_length : Z.of_nat (length (info t)) = size t;
  im_cells : forall c e, zlookup (info t) c = Some e -> nativePC e <> 0 -> M !! nativePC e = Some (value e) /\
    exists i, 0 <= i <= (size t - 1) / 2 /\ c = probe (size t) (nativePC e) i /\
      forall i', 0 <= i' < i -> hits t (nativePC e) (probe (size t) (nativePC e) i') = false;
  im_keys : forall k v, M !! k = Some v -> in_u 32 k /\ k <> 0 /\ exists c, zlookup (info t) c = Some (entry k v)
}.

(** At most half of the cells are in use. *)
Definition half_free (t : ExceptionInfoTable) (M : infos) : Prop := Z.of_nat (base.size M) <= (size t - 1) / 2.

Lemma entry_value e : entry (nativePC e) (value e) = e.
Proof. by destruct e. Qed.

Lemma nativePC_entry k v : nativePC (entry k v) = k.
Proof. by destruct v as [[? ?] ?]. Qed.

Lemma value_entry k v : value (entry k v) = v.
Proof. by destruct v as [[? ?] ?]. Qed.

Section Implements.
Context (t : ExceptionInfoTable) (M : infos).
Hypothesis H : implements t M.

Lemma cell_unique c c' e e' : zlookup (info t) c = Some e -> zlookup (info t) c' = Some e' ->
  nativePC e <> 0 -> nativePC e = nativePC e' -> c = c'.
Proof.
  intros Hc Hc' Hn E. pose proof (im_size _ _ H).
  destruct (im_cells _ _ H c e Hc Hn) as (_ & i & Hi & -> & Hm).
  destruct (im_cells _ _ H c' e' Hc') as (_ & j & Hj & -> & Hm'); [by rewrite <- E|].
  rewrite <- E in *. destruct (Z.lt_trichotomy i j) as [Hij|[->|Hij]]; [|done|].
  - specialize (Hm' i ltac:(lia)). unfold hits in Hm'. rewrite Hc, Z.eqb_refl, orb_true_r in Hm'. done.
  - specialize (Hm j ltac:(lia)). unfold hits in Hm. by rewrite Hc', <- E, Z.eqb_refl, orb_true_r in Hm.
Qed.

(** Some probe of the first half of the sequence hits: otherwise each holds a key of its own. *)
Lemma some_hit k : half_free t M -> ~ (forall i, 0 <= i <= (size t - 1) / 2 -> hits t k (probe (size t) k i) = false).
Proof.
  intros Hh Hall. pose proof (im_size _ _ H) as Hs. pose proof (im_length _ _ H) as Hl.
  set (key i := match zlookup (info t) (probe (size t) k i) with Some e => nativePC e | None => 0 end).
  set (h := (size t - 1) / 2) in *. assert (0 <= h) by (apply Z.div_pos; lia).
  assert (forall i, 0 <= i <= h -> exists e, zlookup (info t) (probe (size t) k i) = Some e /\ nativePC e <> 0 /\ key i = nativePC e) as Hkey.
  { intros i Hi. destruct (zlookup_is_Some (info t) (probe (size t) k i)) as [e He]; [rewrite Hl; by apply cell_range|].
    exists e. specialize (Hall i Hi). unfold hits in Hall. unfold key. rewrite He in *. apply orb_false_iff in Hall as [? _]. split_and!; [done|lia|done]. }
  assert (NoDup (key <$> seqZ 0 (h + 1))) as HN.
  { apply NoDup_fmap_2_strong; [|apply NoDup_seqZ]. intros i j Hi%elem_of_seqZ Hj%elem_of_seqZ E.
    destruct (Hkey i ltac:(lia)) as (e & He & Hne & Ee). destruct (Hkey j ltac:(lia)) as (e' & He' & _ & Ee').
    apply (square_probe_inj (size t) k); [by apply im_prime with M|lia|lia|]. apply (cell_unique _ _ e e'); congruence. }
  assert (list_to_set (C := gset Z) (key <$> seqZ 0 (h + 1)) ⊆ dom M) as Hsub.
  { intros x. rewrite elem_of_list_to_set, list_elem_of_fmap. intros (i & -> & Hi%elem_of_seqZ).
    destruct (Hkey i ltac:(lia)) as (e & He & Hne & ->). apply elem_of_dom. exists (value e). by apply (im_cells _ _ H _ _ He Hne). }
  apply subseteq_size in Hsub. rewrite size_list_to_set, length_fmap, length_seqZ, size_dom in Hsub by done.
  unfold half_free in Hh. fold h in Hh. lia.
Qed.

(** The first hit of the sequence. *)
Lemma first_hit (P : Z -> bool) h : 0 <= h -> ~ (forall i, 0 <= i <= h -> P i = false) ->
  exists j, 0 <= j <= h /\ P j = true /\ forall i, 0 <= i < j -> P i = false.
Proof.
  intros Hh Hn. assert (forall n : nat, (forall i, 0 <= i < Z.of_nat n -> P i = false) \/
    exists j, 0 <= j < Z.of_nat n /\ P j = true /\ forall i, 0 <= i < j -> P i = false) as Hx.
  { induction n as [|n [IH|(j & ? & ? & ?)]]; [left; lia| |right; exists j; split_and!; [lia|lia|done|done]].
    destruct (P (Z.of_nat n)) eqn:E; [right; exists (Z.of_nat n); split_and!; [lia|lia|done|done]|left].
    intros i Hi. destruct (decide (i = Z.of_nat n)) as [->|]; [done|apply IH; lia]. }
  destruct (Hx (Z.to_nat (h + 1))) as [Ha|(j & ? & ? & ?)].
  - destruct Hn. intros i ?. apply Ha. lia.
  - exists j. split_and!; [lia|lia|done|done].
Qed.

(** The first hit for a key of the map is its cell. *)
Lemma first_is_key k v j : M !! k = Some v -> 0 <= j <= (size t - 1) / 2 -> hits t k (probe (size t) k j) = true ->
  (forall i, 0 <= i < j -> hits t k (probe (size t) k i) = false) -> zlookup (info t) (probe (size t) k j) = Some (entry k v).
Proof.
  intros Hv Hj Hhit Hmiss. destruct (im_keys _ _ H k v Hv) as (_ & _ & c & Hc).
  destruct (im_cells _ _ H c _ Hc) as (_ & i & Hi & -> & Hm); rewrite nativePC_entry in *; [by apply (im_keys _ _ H k v)|].
  destruct (Z.lt_trichotomy i j) as [Hij|[->|Hij]]; [|done|].
  - specialize (Hmiss i ltac:(lia)). unfold hits in Hmiss. by rewrite Hc, nativePC_entry, Z.eqb_refl, orb_true_r in Hmiss.
  - specialize (Hm j ltac:(lia)). congruence.
Qed.

Lemma eit_find_spec k : half_free t M -> in_u 32 k -> k <> 0 ->
  exists j e, 0 <= j <= (size t - 1) / 2 /\ EIT_find t k = Ok (Some (probe (size t) k j)) /\
    zlookup (info t) (probe (size t) k j) = Some e /\ (forall i, 0 <= i < j -> hits t k (probe (size t) k i) = false) /\
    match M !! k with Some v => e = entry k v | None => nativePC e = 0 end.
Proof.
  intros Hh Hk Hk0. pose proof (im_size _ _ H) as Hs. pose proof (im_length _ _ H) as Hl.
  assert (0 <= (size t - 1) / 2) as Hh0 by (apply Z.div_pos; lia).
  destruct (first_hit (fun i => hits t k (probe (size t) k i)) _ Hh0 (some_hit k Hh)) as (j & Hj & Hhit & Hmiss).
  destruct (zlookup_is_Some (info t) (probe (size t) k j)) as [e He]; [rewrite Hl; by apply cell_range|].
  exists j, e. split_and!; [lia|lia| |done|done|].
  - unfold EIT_find. rewrite (proj2 (Z.eqb_neq _ _) Hk0). unfold hash_val. rewrite (wrapu_small 32) by (unfold in_u; lia).
    assert ((size t - 1) / 2 <= size t - 1) by (apply Z.div_le_upper_bound; lia).
    assert ((size t - 1) / 2 <= (size t + 1) / 2) by (apply Z.div_le_mono; lia).
    replace (k mod size t) with (probe (size t) k 0) by (unfold probe; f_equal; lia).
    rewrite (probe_loop_hit t k Hs Hl j ltac:(lia) Hhit (Z.to_nat j)); [done|lia|lia| |lia]. intros i' ?. apply Hmiss. lia.
  - destruct (M !! k) as [v|] eqn:Hv; [pose proof (first_is_key k v j Hv Hj Hhit Hmiss); congruence|].
    unfold hits in Hhit. rewrite He in Hhit. apply orb_true_iff in Hhit as [E|E]; apply Z.eqb_eq in E; [done|].
    destruct (im_cells _ _ H _ _ He) as (Hv' & _); [congruence|]. congruence.
Qed.
End Implements.

Definition after_put (t : ExceptionInfoTable) (c : Z) (e : ExceptionInfo) : ExceptionInfoTable :=
  mkEIT (size t) (numOfInfos t) (<[Z.to_nat c := e]> (info t)).

(** Storing an entry where the search for its key ended. *)
Lemma implements_put t M e j old : let k := nativePC e in let c := probe (size t) k j in
  implements t M -> in_u 32 k -> k <> 0 -> 0 <= j <= (size t - 1) / 2 -> zlookup (info t) c = Some old ->
  (forall i, 0 <= i < j -> hits t k (probe (size t) k i) = false) ->
  match M !! k with Some v => old = entry k v | None => nativePC old = 0 end ->
  implements (after_put t c e) (<[k := value e]> M).
Proof.
  intros k c H Hk Hk0 Hj Hc Hmiss Hold. pose proof (zlookup_bound _ _ _ Hc) as Hb.
  assert (forall c', zlookup (info (after_put t c e)) c' = if c =? c' then Some e else zlookup (info t) c') as Hl
    by (intros; apply zlookup_zstore; by apply zstore_is_Some).
  assert (nativePC old = 0 \/ nativePC old = k) as Hok.
  { destruct (M !! k); [right; subst old; apply nativePC_entry|by left]. }
  assert (forall k' c', k' <> k -> hits t k' c' = false -> hits (after_put t c e) k' c' = false) as Hh.
  { intros k' c' Hne. unfold hits. rewrite Hl. destruct (Z.eqb_spec c c') as [<-|]; [|done]. intros _. fold k. zcmps. }
  constructor; cbn [after_put size].
  - by apply im_size with M.
  - by apply im_prime with M.
  - cbn [after_put info]. rewrite length_insert. by apply im_length with M.
  - intros c' e' He' Hn. rewrite Hl in He'. destruct (Z.eqb_spec c c') as [<-|Hne].
    + injection He' as <-. rewrite lookup_insert_eq. split; [done|]. exists j. split_and!; [lia|lia|done|].
      intros i Hi. unfold hits. rewrite Hl. destruct (Z.eqb_spec c (probe (size t) (nativePC e) i)) as [E|]; [|by apply Hmiss].
      pose proof (Hmiss i Hi) as Hx. fold k in E. rewrite <- E in Hx. unfold hits in Hx. rewrite Hc in Hx.
      apply orb_false_iff in Hx as [? ?]. lia.
    + destruct (im_cells _ _ H c' e' He' Hn) as (Hv & i & Hi & E & Hm). assert (nativePC e' <> k) as Hnk.
      { intros Ek. rewrite Ek in Hv. rewrite Hv in Hold. destruct Hne.
        apply (cell_unique t M H c c' old e'); [done|done|subst old; by rewrite nativePC_entry|subst old; by rewrite nativePC_entry]. }
      rewrite lookup_insert_ne by done. split; [done|]. exists i. split_and!; [lia|lia|done|]. intros i' Hi'. apply Hh; [done|]. by apply Hm.
  - intros k' v' Hv'. destruct (decide (k' = k)) as [->|Hne].
    + rewrite lookup_insert_eq in Hv'. injection Hv' as <-. split_and!; [done|done|]. exists c. rewrite Hl, Z.eqb_refl.
      by rewrite <- (entry_value e) at 1.
    + rewrite lookup_insert_ne in Hv' by done. destruct (im_keys _ _ H k' v' Hv') as (? & ? & c' & Hc'). split_and!; [done..|].
      exists c'. rewrite Hl. destruct (Z.eqb_spec c c') as [<-|]; [|done]. rewrite Hc in Hc'. injection Hc' as ->.
      rewrite nativePC_entry in Hok. naive_solver.
Qed.

Lemma put_info_spec fresh t M e : implements t M -> half_free t M -> in_u 32 (nativePC e) -> nativePC e <> 0 ->
  (fresh = true -> M !! nativePC e = None) ->
  exists t', put_info fresh t e = Ok t' /\ implements t' (<[nativePC e := value e]> M) /\ size t' = size t /\ numOfInfos t' = numOfInfos t.
Proof.
  intros H Hh Hk Hk0 Hf. destruct (eit_find_spec t M H (nativePC e) Hh Hk Hk0) as (j & old & Hj & E & Hc & Hmiss & Hold).
  unfold put_info. rewrite E. cbn [mbind res_bind of_option]. rewrite Hc. cbn [mbind res_bind of_option].
  assert (negb fresh || (nativePC old =? 0) = true) as ->.
  { destruct fresh; [|done]. rewrite Hf in Hold by done. by rewrite Hold. }
  cbn [assert_or mbind res_bind]. unfold set_cell. rewrite zstore_is_Some by (by eapply zlookup_bound).
  cbn [of_option mbind res_bind]. eexists. split; [done|]. split; [|done]. by eapply implements_put.
Qed.

(** ** Growing *)

Lemma empty_implements n count : 1 < n < 2 ^ 28 -> prime n -> implements (mkEIT n count (new_infos n)) ∅.
Proof.
  intros Hn Hp. constructor; cbn [size info]; [done|done| | |].
  - unfold new_infos. rewrite length_replicate. lia.
  - intros c e Hc Hne. apply zlookup_Some in Hc as [_ Hc]. apply lookup_replicate in Hc as [-> _]. done.
  - intros k v Hk. by rewrite lookup_empty in Hk.
Qed.

Section Rehash.
Context (old : ExceptionInfoTable) (M : infos).
Hypothesis Hold : implements old M.

(** The table [t] after the entries [done_] of [old] were moved. *)
Record moved (done_ : list ExceptionInfo) (t : ExceptionInfoTable) (N : infos) : Prop := {
  mv_implements : implements t N;
  mv_subset : N ⊆ M;
  mv_done : forall k, is_Some (N !! k) <-> exists e, e ∈ done_ /\ nativePC e = k /\ k <> 0
}.

Lemma move_next done_ e rest t N : info old = done_ ++ e :: rest -> moved done_ t N -> Z.of_nat (base.size M) <= (size t - 1) / 2 ->
  exists t' N', (if nativePC e =? 0 then Ok t else put_info true t e) = Ok t' /\ moved (done_ ++ [e]) t' N' /\
    size t' = size t /\ numOfInfos t' = numOfInfos t.
Proof.
  intros Hl [Hi Hs Hd] Hh. destruct (Z.eqb_spec (nativePC e) 0) as [E|Hne].
  - exists t, N. split_and!; try done. constructor; [done|done|]. intros k. rewrite Hd. setoid_rewrite elem_of_app.
    setoid_rewrite list_elem_of_singleton. naive_solver.
  - assert (zlookup (info old) (Z.of_nat (length done_)) = Some e) as He by (rewrite zlookup_nat, Hl; by apply list_lookup_middle).
    destruct (im_cells _ _ Hold _ _ He Hne) as [Hv _]. destruct (im_keys _ _ Hold _ _ Hv) as (Hk & _ & _).
    assert (N !! nativePC e = None) as HN.
    { destruct (N !! nativePC e) eqn:E; [|done]. destruct (proj1 (Hd (nativePC e)) (mk_is_Some _ _ E)) as (e' & Hin & Ee & _).
      apply list_elem_of_lookup in Hin as (i & Hi'). pose proof (lookup_lt_Some _ _ _ Hi').
      assert (zlookup (info old) (Z.of_nat i) = Some e') as He' by (rewrite zlookup_nat, Hl; by apply lookup_app_l_Some).
      assert (Z.of_nat (length done_) = Z.of_nat i) by (eapply (cell_unique old M Hold); [done|done|done|done]). lia. }
    destruct (put_info_spec true t N e Hi) as (t' & Ht & Hi' & Hz & Hc); [|done|done|done|].
    { unfold half_free. apply map_subseteq_size in Hs. lia. }
    exists t', (<[nativePC e := value e]> N). split_and!; [done| |done|done]. constructor; [done|..].
    + by apply insert_subseteq_l.
    + intros k. rewrite lookup_insert_is_Some', Hd. setoid_rewrite elem_of_app. setoid_rewrite list_elem_of_singleton. naive_solver.
Qed.

Lemma move_all rest : forall done_ t N, info old = done_ ++ rest -> moved done_ t N -> Z.of_nat (base.size M) <= (size t - 1) / 2 ->
  exists t', rehash_infos rest t = Ok t' /\ implements t' M /\ size t' = size t /\ numOfInfos t' = numOfInfos t.
Proof.
  induction rest as [|e rest IH]; intros done_ t N Hl Hm Hh; cbn [rehash_infos].
  - exists t. split_and!; try done. destruct Hm as [Hi Hs Hd]. rewrite app_nil_r in Hl. enough (N = M) as <- by done.
    apply (anti_symm (⊆)); [done|]. apply map_subseteq_spec. intros k v Hv. destruct (im_keys _ _ Hold _ _ Hv) as (_ & Hk & c & Hc).
    apply zlookup_Some in Hc as [_ Hc]. rewrite Hl in Hc. apply list_elem_of_lookup_2 in Hc.
    destruct (proj2 (Hd k)) as [v' Hv']; [exists (entry k v); by rewrite nativePC_entry|].
    rewrite Hv'. eapply map_subseteq_spec in Hs; [|exact Hv']. congruence.
  - destruct (move_next done_ e rest t N Hl Hm Hh) as (t1 & N1 & -> & Hm1 & Hs1 & Hc1). cbn [mbind res_bind].
    destruct (IH (done_ ++ [e]) t1 N1) as (t' & E & Hi & Hs' & Hc'); [by rewrite <- app_assoc|done|by rewrite Hs1|].
    exists t'. split_and!; [done|done|congruence|congruence].
Qed.
End Rehash.

Lemma rehash_spec t M n count : implements t M -> 1 < n < 2 ^ 28 -> prime n -> Z.of_nat (base.size M) <= (n - 1) / 2 ->
  exists t1, rehash_infos (info t) (mkEIT n count (new_infos n)) = Ok t1 /\ implements t1 M /\ size t1 = n /\ numOfInfos t1 = count.
Proof.
  intros H Hn Hp Hh. destruct (move_all t M H (info t) [] (mkEIT n count (new_infos n)) ∅) as (t1 & E & Ht1); [done| |done|by exists t1].
  constructor; [by apply empty_implements|by apply map_empty_subseteq|].
  intros k. rewrite lookup_empty. split; [by intros [? ?]|]. by intros (e & ?%elem_of_nil & _).
Qed.

Lemma counted_implements t M count : implements t M -> implements (mkEIT (size t) count (info t)) M.
Proof. intros []. by constructor. Qed.

#[local] Opaque get_next_prime.

(** The size an insertion finds its cell in. *)
Definition insert_size (t : ExceptionInfoTable) : Z := if is_loaded t then s32 (get_next_prime (u32 (size t * 2))) else size t.

(** C23: insertion into the exception table is insertion into a map, as long as
    the size it works with is prime and at most half of the cells are in use. *)
Theorem EIT_insert_correct (t : ExceptionInfoTable) (M : infos) (native_pc bytecode_pc var_map instance : Z)
    (H : implements t M) (Hk : in_u 32 native_pc) (Hk0 : native_pc <> 0)
    (Hsize : 1 < insert_size t < 2 ^ 28) (Hprime : prime (insert_size t)) (Hhalf : Z.of_nat (base.size M) <= (insert_size t - 1) / 2) :
  exists t', EIT_insert t native_pc bytecode_pc var_map instance = Ok t' /\
    implements t' (<[native_pc := (bytecode_pc, var_map, instance)]> M) /\
    size t' = insert_size t /\ numOfInfos t' = s32 (numOfInfos t + 1).
Proof.
  pose proof (counted_implements t M (s32 (numOfInfos t + 1)) H) as Hc.
  assert (exists t1, (if is_loaded t then rehash (mkEIT (size t) (s32 (numOfInfos t + 1)) (info t)) else Ok (mkEIT (size t) (s32 (numOfInfos t + 1)) (info t))) = Ok t1 /\
    implements t1 M /\ size t1 = insert_size t /\ numOfInfos t1 = s32 (numOfInfos t + 1)) as (t1 & E1 & H1 & Hs1 & Hn1).
  { unfold insert_size in *. destruct (is_loaded t); [|by eexists]. unfold rehash. cbn [size info numOfInfos]. by apply rehash_spec. }
  unfold EIT_insert. rewrite E1.
  cbn [mbind res_bind].
  destruct (put_info_spec false t1 M (mkEI native_pc bytecode_pc var_map instance) H1) as (t' & E & Hi & Hs & Hn); [|done|done|done|].
  - unfold half_free. by rewrite Hs1.
  - exists t'. split_and!; [done|done|congruence|congruence].
Qed.

(** The search returns the cell of the key, or an empty one if the key has
    none, as long as at most half of the cells are in use. *)
Theorem EIT_find_correct (t : ExceptionInfoTable) (M : infos) (native_pc : Z) (H : implements t M) (Hhalf : half_free t M)
    (Hk : in_u 32 native_pc) (Hk0 : native_pc <> 0) :
  exists c e, EIT_find t native_pc = Ok (Some c) /\ zlookup (info t) c = Some e /\
    match M !! native_pc with Some v => e = entry native_pc v | None => nativePC e = 0 end.
Proof.
  destruct (eit_find_spec t M H native_pc Hhalf Hk Hk0) as (j & e & _ & E & Hc & _ & Hv). by exists (probe (size t) native_pc j), e.
Qed.

(** ** Examples *)

Lemma prime_61 : prime 61.
Proof.
  apply prime_alt. split; [lia|]. intros n Hn [q Hq].
  assert (exists k, n = 2 + Z.of_nat k /\ (k < 59)%nat) as (k & -> & Hk) by (exists (Z.to_nat (n - 2)); lia).
  do 59 (destruct k as [|k]; [cbn in Hq; lia|]). lia.
Qed.

Lemma EIT_insert_correct_witness :
  exists t', EIT_insert (EIT_init 0) 4096 7 8192 12288 = Ok t' /\ implements t' {[4096 := (7, 8192, 12288)]}.
Proof.
  assert (implements (EIT_init 0) ∅) as H by (apply (empty_implements 61); [done|apply prime_61]).
  destruct (EIT_insert_correct (EIT_init 0) ∅ 4096 7 8192 12288 H) as (t' & E & Hi & _).
  - by vm_compute.
  - done.
  - by vm_compute.
  - apply prime_61.
  - by vm_compute.
  - exists t'. split; [exact E|]. rewrite insert_empty in Hi. exact Hi.
Defined.

Lemma EIT_find_correct_witness : exists c e, EIT_find (EIT_init 0) 4096 = Ok (Some c) /\ zlookup (info (EIT_init 0)) c = Some e /\ nativePC e = 0.
Proof.
  assert (implements (EIT_init 0) ∅) as H by (apply (empty_implements 61); [done|apply prime_61]).
  destruct (EIT_find_correct (EIT_init 0) ∅ 4096 H) as (c & e & E & Hc & He).
  - by vm_compute.
  - by vm_compute.
  - done.
  - exists c, e. split; [exact E|]. split; [exact Hc|]. exact He.
Defined.

(** ** What goes wrong *)

(** Return addresses whose cells are the probes of the key 30500, [0 + i * i]. *)
Definition colliding_pcs : list Z := map (fun i => 61 * (100 + i) + (i * i) mod 61) (seqZ 0 31).

(** With more than half of its cells in use the table can be searched out of
    bounds, long before its load factor of 0.6 makes it grow: after 31 insertions
    into a new table the search for a 32nd key reads behind the array. *)
Theorem EIT_find_overruns : exists t,
  fold_left (fun r pc => t ← r; EIT_insert t pc 0 0 0) colliding_pcs (Ok (EIT_init 0)) = Ok t /\
  is_loaded t = false /\ numOfInfos t = 31 /\ size t = 61 /\ EIT_find t 30500 = Err BadAccess.
Proof. eexists. split; [vm_compute; reflexivity|]. by vm_compute. Qed.

(** The first growth gives a table of 121 cells: [get_next_prime] returns its
    argument less one when the argument is below all of its primes. *)
Lemma first_growth_composite : s32 (get_next_prime (u32 (DEFAULT_SIZE * 2))) = 11 * 11.
Proof. by vm_compute. Qed.
