(* ===== verification/ConstantPool.v ===== *)
(** * Constant pools (src/runtime/constants.c, constants.h, verify.c and the
    readers of file.h)

    Reading the constant pool of a class file, rewriting its class and string
    constants, and the check of the pool's consistency that the second pass of
    the verifier makes; a typing of constants that the check decides. *)

From S2P Require Import Prelude.

(** ** Reading *)

(** [buf] is what is left of the file behind [fp->buf]. *)
Definition readu1 (buf : list Z) : res failure (Z * list Z) :=
  match buf with b :: buf => Ok (b, buf) | [] => Err BadAccess end.

Definition readu2 (buf : list Z) : res failure (Z * list Z) :=
  '(b0, buf) ← readu1 buf; '(b1, buf) ← readu1 buf; Ok (Z.lor (Z.shiftl b0 8) b1, buf).

Definition readu4 (buf : list Z) : res failure (Z * list Z) :=
  '(b0, buf) ← readu1 buf; '(b1, buf) ← readu1 buf; '(b2, buf) ← readu1 buf; '(b3, buf) ← readu1 buf;
  Ok (u32 (Z.lor (Z.lor (Z.lor (Z.shiftl b0 24) (Z.shiftl b1 16)) (Z.shiftl b2 8)) b3), buf).

Definition CONSTANT_Unknown := 0.
Definition CONSTANT_Error := 0.
Definition CONSTANT_Utf8 := 1.
Definition CONSTANT_Integer := 3.
Definition CONSTANT_Float := 4.
Definition CONSTANT_Long := 5.
Definition CONSTANT_Double := 6.
Definition CONSTANT_Class := 7.
Definition CONSTANT_String := 8.
Definition CONSTANT_Fieldref := 9.
Definition CONSTANT_Methodref := 10.
Definition CONSTANT_InterfaceMethodref := 11.
Definition CONSTANT_NameAndType := 12.
Definition CONSTANT_ResolvedString := 24.
Definition CONSTANT_ResolvedClass := 23.

(** [size] is the length of both arrays. *)
Record constants := mkPool { tags : list Z; data : list Z }.

Definition pool_size (p : constants) : Z := Z.of_nat (length (data p)).

Definition tag_at (p : constants) (i : Z) : res failure Z := of_option BadAccess (zlookup (tags p) i).
Definition data_at (p : constants) (i : Z) : res failure Z := of_option BadAccess (zlookup (data p) i).
Definition set_tag (p : constants) (i x : Z) : res failure constants :=
  t ← of_option BadAccess (zstore (tags p) i x); Ok (mkPool t (data p)).
Definition set_data (p : constants) (i x : Z) : res failure constants :=
  d ← of_option BadAccess (zstore (data p) i x); Ok (mkPool (tags p) d).

(** The tags of the [case] labels that are treated alike. *)
Definition is_name (t : Z) : bool := (t =? CONSTANT_Class) || (t =? CONSTANT_String).
Definition is_member (t : Z) : bool := (t =? CONSTANT_Fieldref) || (t =? CONSTANT_Methodref) || (t =? CONSTANT_InterfaceMethodref).
Definition is_word (t : Z) : bool := (t =? CONSTANT_Integer) || (t =? CONSTANT_Float).
Definition is_wide (t : Z) : bool := (t =? CONSTANT_Long) || (t =? CONSTANT_Double).

Section Pool.

(** [utf8] stands for [makeUtf8Const], which interns: equal contents give equal pointers. *)
Context (utf8 : list Z -> Z).

(** One constant: the index of its last slot and the rest of the file. *)
Definition read_constant (i : Z) (p : constants) (buf : list Z) : res failure (Z * constants * list Z) :=
  '(type, buf) ← readu1 buf;
  p ← set_tag p i type;
  if type =? CONSTANT_Utf8 then
    '(len, buf) ← readu2 buf;
    assert_or BadAccess (len <=? Z.of_nat (length buf));;
    p ← set_data p i (utf8 (take (Z.to_nat len) buf));
    Ok (i, p, drop (Z.to_nat len) buf)
  else if is_name type then '(d2, buf) ← readu2 buf; p ← set_data p i d2; Ok (i, p, buf)
  else if is_member type || (type =? CONSTANT_NameAndType) then
    '(d2, buf) ← readu2 buf;
    '(d2b, buf) ← readu2 buf;
    p ← set_data p i (Z.lor (u32 (Z.shiftl d2b 16)) d2);
    Ok (i, p, buf)
  else if is_word type then '(d4, buf) ← readu4 buf; p ← set_data p i d4; Ok (i, p, buf)
  else if is_wide type then
    '(d4, buf) ← readu4 buf;
    '(d4b, buf) ← readu4 buf;
    p ← set_data p i d4;
    p ← set_data p (i + 1) d4b;
    p ← set_tag p (i + 1) CONSTANT_Unknown;
    Ok (i + 1, p, buf)
  else Err ClassFormatError.

Fixpoint read_constants (fuel : nat) (i : Z) (p : constants) (buf : list Z) : res failure (constants * list Z) :=
  if i <? pool_size p then
    match fuel with
    | O => Err OutOfFuel
    | S fuel => '(i, p, buf) ← read_constant i p buf; read_constants fuel (i + 1) p buf
    end
  else Ok (p, buf).

(** Class and string constants point directly at their text. *)
Definition rewrite_constant (i : Z) (p : constants) : res failure constants :=
  t ← tag_at p i;
  if is_name t then
    d ← data_at p i;
    let j := u16 d in
    tj ← tag_at p j;
    if tj =? CONSTANT_Utf8 then dj ← data_at p j; set_data p i dj
    else set_tag p i CONSTANT_Error
  else Ok p.

Fixpoint rewrite_constants (n : nat) (i : Z) (p : constants) : res failure constants :=
  match n with
  | O => Ok p
  | S n => p ← rewrite_constant i p; rewrite_constants n (i + 1) p
  end.

(** [gc_malloc] zeroes the pool. *)
Definition readConstantPool (buf : list Z) : res failure (constants * list Z) :=
  '(size, buf) ← readu2 buf;
  let zeros := replicate (Z.to_nat size) 0 in
  p ← set_data (mkPool zeros zeros) 0 0;
  p ← set_tag p 0 CONSTANT_Unknown;
  '(p, buf) ← read_constants (Z.to_nat size) 1 p buf;
  p ← rewrite_constants (Z.to_nat size - 1) 1 p;
  Ok (p, buf).

End Pool.

(** ** Verification *)

Definition CONST_TAG (idx : Z) (p : constants) : res failure Z :=
  if (0 <? idx) && (idx <? pool_size p) then tag_at p idx else Ok CONSTANT_Unknown.

Definition FIELDREF_CLASS (i : Z) (p : constants) : res failure Z := d ← data_at p i; Ok (u16 d).
Definition FIELDREF_NAMEANDTYPE (i : Z) (p : constants) : res failure Z := d ← data_at p i; Ok (u16 (Z.shiftr d 16)).

(** What one constant does to [error], and the number of slots it takes. *)
Definition verify_constant (i : Z) (p : constants) (error : bool) : res failure (bool * Z) :=
  t ← tag_at p i;
  if (t =? CONSTANT_Utf8) || is_word t || (t =? CONSTANT_ResolvedString) || (t =? CONSTANT_ResolvedClass) then Ok (error, 1)
  else if is_wide t then Ok (error, 2)
  else if is_name t then Ok (error, 1)
  else if is_member t then
    c ← FIELDREF_CLASS i p;
    tag ← CONST_TAG c p;
    let error := if negb (tag =? CONSTANT_Class) && negb (tag =? CONSTANT_ResolvedClass) then true else error in
    n ← FIELDREF_NAMEANDTYPE i p;
    tag ← CONST_TAG n p;
    Ok (if negb (tag =? CONSTANT_NameAndType) then true else error, 1)
  else if t =? CONSTANT_NameAndType then
    n ← FIELDREF_CLASS i p;
    tag ← CONST_TAG n p;
    let error := if negb (tag =? CONSTANT_Utf8) then true else error in
    s ← FIELDREF_NAMEANDTYPE i p;
    tag ← CONST_TAG s p;
    Ok (if negb (tag =? CONSTANT_Utf8) then true else error, 1)
  else Ok (true, 1).

Fixpoint verify_constants (fuel : nat) (i : Z) (p : constants) (error : bool) : res failure bool :=
  if i <? pool_size p then
    match fuel with
    | O => Err OutOfFuel
    | S fuel => '(error, n) ← verify_constant i p error; verify_constants fuel (i + n) p error
    end
  else Ok error.

(** [rooted] tells that the class has a superclass or is [java.lang.Object]. *)
Definition verify2 (rooted : bool) (p : constants) : res failure unit :=
  error ← verify_constants (length (data p)) 1 p (negb rooted);
  if (error : bool) then Err ClassFormatError else Ok tt.

(** ** Class files

    The constants of a class file, as they are written in it. *)
Inductive constant :=
| CUtf8 (text : list Z)
| CInteger (w : Z)
| CFloat (w : Z)
| CLong (high low : Z)
| CDouble (high low : Z)
| CClass (name : Z)
| CString (text : Z)
| CFieldref (class nt : Z)
| CMethodref (class nt : Z)
| CInterfaceMethodref (class nt : Z)
| CNameAndType (name sig : Z).

Definition tag_of (c : constant) : Z :=
  match c with
  | CUtf8 _ => 1 | CInteger _ => 3 | CFloat _ => 4 | CLong _ _ => 5 | CDouble _ _ => 6 | CClass _ => 7 | CString _ => 8
  | CFieldref _ _ => 9 | CMethodref _ _ => 10 | CInterfaceMethodref _ _ => 11 | CNameAndType _ _ => 12
  end.

Definition bytes2 (x : Z) : list Z := [x / 2 ^ 8; x mod 2 ^ 8].
Definition bytes4 (x : Z) : list Z := bytes2 (x / 2 ^ 16) ++ bytes2 (x mod 2 ^ 16).

Definition encode (c : constant) : list Z :=
  tag_of c ::
  match c with
  | CUtf8 text => bytes2 (Z.of_nat (length text)) ++ text
  | CInteger w | CFloat w => bytes4 w
  | CLong high low | CDouble high low => bytes4 high ++ bytes4 low
  | CClass i | CString i => bytes2 i
  | CFieldref i j | CMethodref i j | CInterfaceMethodref i j | CNameAndType i j => bytes2 i ++ bytes2 j
  end.

(** The slots of a pool: a long or double takes two. *)
Inductive slot := Unused | First (c : constant) | Second (c : constant).

Definition slots (c : constant) : list slot :=
  match c with CLong _ _ | CDouble _ _ => [First c; Second c] | _ => [First c] end.

Definition slot_table (cs : list constant) : list slot := Unused :: flat_map slots cs.

Definition encode_pool (cs : list constant) : list Z := bytes2 (Z.of_nat (length (slot_table cs))) ++ flat_map encode cs.

(** Numbers that fit their fields. *)
Definition fits (c : constant) : Prop :=
  match c with
  | CUtf8 text => Z.of_nat (length text) < 2 ^ 16
  | CInteger w | CFloat w => in_u 32 w
  | CLong high low | CDouble high low => in_u 32 high /\ in_u 32 low
  | CClass i | CString i => in_u 16 i
  | CFieldref i j | CMethodref i j | CInterfaceMethodref i j | CNameAndType i j => in_u 16 i /\ in_u 16 j
  end.

(** The index of a name is inside the pool (the code does not check it: see
    [name_index_overruns]). *)
Definition name_inside (n : nat) (c : constant) : Prop :=
  match c with CClass i | CString i => i < Z.of_nat n | _ => True end.

(** ** Types of constants *)

Inductive ckind := KText | KNumber | KClass | KString | KMember | KNameAndType.

Definition constant_at (T : list slot) (i : Z) : option constant :=
  match zlookup T i with Some (First c) => Some c | _ => None end.

Inductive typed (T : list slot) : constant -> ckind -> Prop :=
| ty_text text : typed T (CUtf8 text) KText
| ty_integer w : typed T (CInteger w) KNumber
| ty_float w : typed T (CFloat w) KNumber
| ty_long h l : typed T (CLong h l) KNumber
| ty_double h l : typed T (CDouble h l) KNumber
| ty_class i c : constant_at T i = Some c -> typed T c KText -> typed T (CClass i) KClass
| ty_string i c : constant_at T i = Some c -> typed T c KText -> typed T (CString i) KString
| ty_nt i j c d : constant_at T i = Some c -> typed T c KText -> constant_at T j = Some d -> typed T d KText -> typed T (CNameAndType i j) KNameAndType
| ty_fieldref i j c d : constant_at T i = Some c -> typed T c KClass -> constant_at T j = Some d -> typed T d KNameAndType -> typed T (CFieldref i j) KMember
| ty_methodref i j c d : constant_at T i = Some c -> typed T c KClass -> constant_at T j = Some d -> typed T d KNameAndType -> typed T (CMethodref i j) KMember
| ty_imethodref i j c d : constant_at T i = Some c -> typed T c KClass -> constant_at T j = Some d -> typed T d KNameAndType -> typed T (CInterfaceMethodref i j) KMember.

Definition well_typed (cs : list constant) : Prop := forall c, c ∈ cs -> exists k, typed (slot_table cs) c k.

(** ** The contents of a slot, as read and after the rewriting *)

Section Contents.
Context (utf8 : list Z -> Z) (T : list slot).

Definition raw_tag (s : slot) : Z := match s with First c => tag_of c | _ => 0 end.

Definition raw_data (s : slot) : Z :=
  match s with
  | First (CUtf8 text) => utf8 text
  | First (CInteger w) | First (CFloat w) => w
  | First (CLong high _) | First (CDouble high _) => high
  | First (CClass i) | First (CString i) => i
  | First (CFieldref i j) | First (CMethodref i j) | First (CInterfaceMethodref i j) | First (CNameAndType i j) => j * 2 ^ 16 + i
  | Second (CLong _ low) | Second (CDouble _ low) => low
  | _ => 0
  end.

Definition text_at (i : Z) : option (list Z) := match constant_at T i with Some (CUtf8 text) => Some text | _ => None end.

Definition final_tag (s : slot) : Z :=
  match s with
  | First (CClass i) | First (CString i) => match text_at i with Some _ => raw_tag s | None => 0 end
  | _ => raw_tag s
  end.

Definition final_data (s : slot) : Z :=
  match s with
  | First (CClass i) | First (CString i) => match text_at i with Some text => utf8 text | None => raw_data s end
  | _ => raw_data s
  end.

End Contents.

(** ** Reading what was written *)

Lemma readu2_bytes x rest : in_u 16 x -> readu2 (bytes2 x ++ rest) = Ok (x, rest).
Proof.
  intros Hx. cbn. rewrite lor_shiftl by (lia || apply Z.mod_pos_bound; lia). f_equal. f_equal.
  rewrite (Z.div_mod x 256) at 3 by lia. change (2 ^ 8) with 256. lia.
Qed.

Lemma readu4_bytes x rest : in_u 32 x -> readu4 (bytes4 x ++ rest) = Ok (x, rest).
Proof.
  intros Hx. cbn. unfold in_u in Hx. change (2 ^ 8) with 256. change (2 ^ 16) with 65536.
  assert (0 <= x / 65536 < 65536) by dmlia. assert (0 <= x mod 65536 < 65536) by dmlia.
  set (h := x / 65536) in *. set (l := x mod 65536) in *.
  assert (Z.lor (Z.shiftl (h / 256) 24) (Z.shiftl (h mod 256) 16) = h * 65536) as ->.
  { replace 24 with (8 + 16) by lia. rewrite <- Z.shiftl_shiftl, <- Z.shiftl_lor, lor_shiftl by (lia || apply Z.mod_pos_bound; lia).
    rewrite Z.shiftl_mul_pow2 by lia. change (2 ^ 8) with 256. change (2 ^ 16) with 65536. dmlia. }
  replace (h * 65536) with (Z.shiftl h 16) by (rewrite Z.shiftl_mul_pow2 by lia; lia).
  rewrite <- Z.lor_assoc. rewrite (lor_shiftl (l / 256) (l mod 256) 8) by (lia || apply Z.mod_pos_bound; lia).
  replace (l / 256 * 2 ^ 8 + l mod 256) with l by (change (2 ^ 8) with 256; dmlia).
  rewrite lor_shiftl by lia. change (2 ^ 16) with 65536. replace (h * 65536 + l) with x by (unfold h, l; dmlia).
  by rewrite wrapu_small.
Qed.

(** The pool [p] has [n] slots and holds the slots [l] first. *)
Record holds (ft fd : slot -> Z) (n : nat) (l : list slot) (p : constants) : Prop := {
  ho_tags : length (tags p) = n;
  ho_data : length (data p) = n;
  ho_slots : forall i s, zlookup l i = Some s -> zlookup (tags p) i = Some (ft s) /\ zlookup (data p) i = Some (fd s)
}.

Definition put (p : constants) (n : nat) (t d : Z) : constants := mkPool (<[n := t]> (tags p)) (<[n := d]> (data p)).

Lemma zlookup_insert_ne {A} (l : list A) (n : nat) i x : i <> Z.of_nat n -> zlookup (<[n := x]> l) i = zlookup l i.
Proof. intros Hi. unfold zlookup. case_test; [done|]. apply list_lookup_insert_ne. lia. Qed.

Lemma zlookup_insert_eq {A} (l : list A) (n : nat) x : (n < length l)%nat -> zlookup (<[n := x]> l) (Z.of_nat n) = Some x.
Proof. intros Hn. rewrite zlookup_nat. by apply list_lookup_insert_eq. Qed.

Lemma zlookup_app {A} (l1 l2 : list A) i : zlookup (l1 ++ l2) i =
  if i <? Z.of_nat (length l1) then zlookup l1 i else zlookup l2 (i - Z.of_nat (length l1)).
Proof.
  unfold zlookup. destruct (Z.ltb_spec i 0).
  - rewrite (proj2 (Z.ltb_lt _ _)) by lia. done.
  - destruct (Z.ltb_spec i (Z.of_nat (length l1))); [by rewrite lookup_app_l by lia|].
    rewrite (proj2 (Z.ltb_ge (i - _) 0)) by lia. rewrite lookup_app_r by lia. f_equal. lia.
Qed.

Lemma holds_snoc ft fd n l p s t d : holds ft fd n l p -> (length l < n)%nat -> ft s = t -> fd s = d ->
  holds ft fd n (l ++ [s]) (put p (length l) t d).
Proof.
  intros [Ht Hd Hs] Hl <- <-. constructor; cbn [put tags data]; rewrite ?length_insert; [done|done|].
  intros i s'. rewrite zlookup_app. destruct (Z.ltb_spec i (Z.of_nat (length l))).
  - intros E. rewrite !zlookup_insert_ne by lia. by apply Hs.
  - intros E. assert (i = Z.of_nat (length l)) as -> by (apply zlookup_bound in E; cbn in E; lia).
    rewrite Z.sub_diag in E. injection E as <-. rewrite !zlookup_insert_eq by lia. done.
Qed.

Section Reading.
Context (utf8 : list Z -> Z).

Lemma set_tag_run p (i : nat) x : (i < length (tags p))%nat -> set_tag p (Z.of_nat i) x = Ok (mkPool (<[i := x]> (tags p)) (data p)).
Proof. intros Hi. unfold set_tag. rewrite zstore_is_Some by lia. by rewrite Nat2Z.id. Qed.

Lemma set_data_run p (i : nat) x : (i < length (data p))%nat -> set_data p (Z.of_nat i) x = Ok (mkPool (tags p) (<[i := x]> (data p))).
Proof. intros Hi. unfold set_data. rewrite zstore_is_Some by lia. by rewrite Nat2Z.id. Qed.

(** A constant with one slot. *)
Lemma one_slot n l p t d : holds raw_tag (raw_data utf8) n l p -> (length l < n)%nat ->
  (p' ← set_tag p (Z.of_nat (length l)) t; set_data p' (Z.of_nat (length l)) d) = Ok (put p (length l) t d).
Proof.
  intros H Hl. pose proof (ho_tags _ _ _ _ _ H). pose proof (ho_data _ _ _ _ _ H).
  rewrite set_tag_run by lia. cbn [mbind res_bind]. by rewrite set_data_run by (cbn [data]; lia).
Qed.

Lemma u32_high j : in_u 16 j -> u32 (Z.shiftl j 16) = Z.shiftl j 16.
Proof. intros [? ?]. rewrite Z.shiftl_mul_pow2 by lia. apply wrapu_small. unfold in_u. lia. Qed.

Lemma read_constant_spec n l p c rest : holds raw_tag (raw_data utf8) n l p -> (length l + length (slots c) <= n)%nat -> fits c ->
  exists p', read_constant utf8 (Z.of_nat (length l)) p (encode c ++ rest) = Ok (Z.of_nat (length l + length (slots c)) - 1, p', rest) /\
    holds raw_tag (raw_data utf8) n (l ++ slots c) p'.
Proof.
  intros H Hl Hf. pose proof (ho_tags _ _ _ _ _ H) as Ht. pose proof (ho_data _ _ _ _ _ H) as Hd.
  assert (forall d, slots c = [First c] -> raw_data utf8 (First c) = d ->
    holds raw_tag (raw_data utf8) n (l ++ slots c) (put p (length l) (tag_of c) d)) as H1.
  { intros d Es Ed. rewrite Es in *. cbn in Hl. apply holds_snoc; [done|lia|done|done]. }
  assert (forall h low, slots c = [First c; Second c] -> raw_data utf8 (First c) = h -> raw_data utf8 (Second c) = low ->
    holds raw_tag (raw_data utf8) n (l ++ slots c) (put (put p (length l) (tag_of c) h) (S (length l)) 0 low)) as H2.
  { intros h low Es Eh El. rewrite Es in *. cbn in Hl. change (l ++ [First c; Second c]) with (l ++ [First c] ++ [Second c]). rewrite app_assoc.
    replace (S (length l)) with (length (l ++ [First c])) by (rewrite length_app; cbn; lia).
    apply holds_snoc; [|rewrite length_app; cbn; lia|done|done]. apply holds_snoc; [done|lia|done|done]. }
  unfold read_constant, encode. cbn [app readu1 mbind res_bind]. rewrite set_tag_run by (destruct c; cbn in Hl; lia). cbn [mbind res_bind].
  destruct c; cbn [tag_of slots length fits] in *;
    unfold is_name, is_member, is_word, is_wide, CONSTANT_Utf8, CONSTANT_Integer, CONSTANT_Float, CONSTANT_Long, CONSTANT_Double, CONSTANT_Class,
      CONSTANT_String, CONSTANT_Fieldref, CONSTANT_Methodref, CONSTANT_InterfaceMethodref, CONSTANT_NameAndType; cbn [Z.eqb Pos.eqb orb];
    rewrite <- ?app_assoc.
  - rewrite readu2_bytes by (unfold in_u; lia). cbn [mbind res_bind]. rewrite length_app, (proj2 (Z.leb_le _ _)) by lia.
    cbn [assert_or mbind res_bind]. rewrite Nat2Z.id, take_app_length, drop_app_length. rewrite set_data_run by (cbn [data]; lia).
    cbn [mbind res_bind tags data]. eexists. split; [f_equal; f_equal; f_equal; lia|by eapply H1].
  - rewrite readu4_bytes by done. cbn [mbind res_bind]. rewrite set_data_run by (cbn [data]; lia).
    cbn [mbind res_bind tags data]. eexists. split; [f_equal; f_equal; f_equal; lia|by eapply H1].
  - rewrite readu4_bytes by done. cbn [mbind res_bind]. rewrite set_data_run by (cbn [data]; lia).
    cbn [mbind res_bind tags data]. eexists. split; [f_equal; f_equal; f_equal; lia|by eapply H1].
  - destruct Hf. rewrite readu4_bytes by done. cbn [mbind res_bind]. rewrite readu4_bytes by done. cbn [mbind res_bind].
    rewrite set_data_run by (cbn [data]; lia). cbn [mbind res_bind tags data].
    replace (Z.of_nat (length l) + 1) with (Z.of_nat (S (length l))) by lia.
    rewrite set_data_run by (cbn [data]; rewrite ?length_insert; lia). cbn [mbind res_bind tags data].
    rewrite set_tag_run by (cbn [tags]; rewrite ?length_insert; lia). cbn [mbind res_bind tags data].
    eexists. split; [f_equal; f_equal; f_equal; lia|by eapply H2].
  - destruct Hf. rewrite readu4_bytes by done. cbn [mbind res_bind]. rewrite readu4_bytes by done. cbn [mbind res_bind].
    rewrite set_data_run by (cbn [data]; lia). cbn [mbind res_bind tags data].
    replace (Z.of_nat (length l) + 1) with (Z.of_nat (S (length l))) by lia.
    rewrite set_data_run by (cbn [data]; rewrite ?length_insert; lia). cbn [mbind res_bind tags data].
    rewrite set_tag_run by (cbn [tags]; rewrite ?length_insert; lia). cbn [mbind res_bind tags data].
    eexists. split; [f_equal; f_equal; f_equal; lia|by eapply H2].
  - rewrite readu2_bytes by done. cbn [mbind res_bind]. rewrite set_data_run by (cbn [data]; lia).
    cbn [mbind res_bind tags data]. eexists. split; [f_equal; f_equal; f_equal; lia|by eapply H1].
  - rewrite readu2_bytes by done. cbn [mbind res_bind]. rewrite set_data_run by (cbn [data]; lia).
    cbn [mbind res_bind tags data]. eexists. split; [f_equal; f_equal; f_equal; lia|by eapply H1].
  - destruct Hf. rewrite readu2_bytes by done. cbn [mbind res_bind]. rewrite readu2_bytes by done. cbn [mbind res_bind]. rewrite set_data_run by (cbn [data]; lia).
    cbn [mbind res_bind tags data]. eexists. split; [f_equal; f_equal; f_equal; lia|eapply H1; [done|cbn; by rewrite u32_high, lor_shiftl by (done || lia)]].
  - destruct Hf. rewrite readu2_bytes by done. cbn [mbind res_bind]. rewrite readu2_bytes by done. cbn [mbind res_bind]. rewrite set_data_run by (cbn [data]; lia).
    cbn [mbind res_bind tags data]. eexists. split; [f_equal; f_equal; f_equal; lia|eapply H1; [done|cbn; by rewrite u32_high, lor_shiftl by (done || lia)]].
  - destruct Hf. rewrite readu2_bytes by done. cbn [mbind res_bind]. rewrite readu2_bytes by done. cbn [mbind res_bind]. rewrite set_data_run by (cbn [data]; lia).
    cbn [mbind res_bind tags data]. eexists. split; [f_equal; f_equal; f_equal; lia|eapply H1; [done|cbn; by rewrite u32_high, lor_shiftl by (done || lia)]].
  - destruct Hf. rewrite readu2_bytes by done. cbn [mbind res_bind]. rewrite readu2_bytes by done. cbn [mbind res_bind]. rewrite set_data_run by (cbn [data]; lia).
    cbn [mbind res_bind tags data]. eexists. split; [f_equal; f_equal; f_equal; lia|eapply H1; [done|cbn; by rewrite u32_high, lor_shiftl by (done || lia)]].
Qed.

Lemma read_constants_spec cs : forall n l p rest fuel, holds raw_tag (raw_data utf8) n l p -> (length l + length (flat_map slots cs) = n)%nat ->
  Forall fits cs -> (length cs <= fuel)%nat ->
  exists p', read_constants utf8 fuel (Z.of_nat (length l)) p (flat_map encode cs ++ rest) = Ok (p', rest) /\
    holds raw_tag (raw_data utf8) n (l ++ flat_map slots cs) p'.
Proof.
  induction cs as [|c cs IH]; intros n l p rest fuel H Hn Hf Hfuel; pose proof (ho_data _ _ _ _ _ H) as Hd; cbn [flat_map length] in *.
  - exists p. rewrite app_nil_r. split; [|done]. destruct fuel; cbn [read_constants]; unfold pool_size; by rewrite (proj2 (Z.ltb_ge _ _)) by lia.
  - apply Forall_cons in Hf as [Hc Hf]. rewrite length_app in Hn. destruct fuel as [|fuel]; [lia|]. cbn [read_constants]. unfold pool_size.
    assert (0 < length (slots c))%nat by (destruct c; cbn; lia). rewrite (proj2 (Z.ltb_lt _ _)) by lia. rewrite <- app_assoc.
    destruct (read_constant_spec n l p c (flat_map encode cs ++ rest) H) as (p1 & -> & H1); [lia|done|]. cbn [mbind res_bind].
    destruct (IH n (l ++ slots c) p1 rest fuel H1) as (p' & E & H'); [rewrite length_app; lia|done|lia|].
    exists p'. rewrite <- app_assoc in H'. split; [|done]. rewrite length_app in E.
    by replace (Z.of_nat (length l + length (slots c)) - 1 + 1) with (Z.of_nat (length l + length (slots c))) by lia.
Qed.

(** *** The rewriting *)

Context (T : list slot).
Hypothesis Hfits : forall i c, constant_at T i = Some c -> fits c /\ name_inside (length T) c.

(** The slots before [i] have been rewritten. *)
Record rewritten (i : Z) (p : constants) : Prop := {
  rw_tags : length (tags p) = length T;
  rw_data : length (data p) = length T;
  rw_slots : forall k s, zlookup T k = Some s ->
    zlookup (tags p) k = Some (if k <? i then final_tag T s else raw_tag s) /\
    zlookup (data p) k = Some (if k <? i then final_data utf8 T s else raw_data utf8 s)
}.

(** A name is text before and after the rewriting. *)
Lemma name_tag s (b : bool) : (if b then final_tag T s else raw_tag s) = 1 <-> exists text, s = First (CUtf8 text).
Proof.
  split; [|intros (text & ->); by destruct b]. destruct s as [|c|c]; [by destruct b| |by destruct b].
  destruct c; destruct b; cbn; try done; try (by exists text); destruct (text_at T _); done.
Qed.

(** One slot of the pool changed at most. *)
Lemma rewritten_step i p p' s : rewritten i p -> zlookup T i = Some s -> length (tags p') = length T -> length (data p') = length T ->
  (forall k, k <> i -> zlookup (tags p') k = zlookup (tags p) k /\ zlookup (data p') k = zlookup (data p) k) ->
  zlookup (tags p') i = Some (final_tag T s) -> zlookup (data p') i = Some (final_data utf8 T s) -> rewritten (i + 1) p'.
Proof.
  intros [Ht Hd Hs] Hi Ht' Hd' Hother Et Ed. constructor; [done|done|]. intros k s' Hk. destruct (decide (k = i)) as [->|Hne].
  - assert (s' = s) as -> by congruence. rewrite (proj2 (Z.ltb_lt _ _)) by lia. done.
  - destruct (Hother k Hne) as [-> ->]. replace (k <? i + 1) with (k <? i) by zcmps. by apply Hs.
Qed.

Lemma zlookup_upd {A} (l : list A) i k x : 0 <= i < Z.of_nat (length l) ->
  zlookup (<[Z.to_nat i := x]> l) k = if i =? k then Some x else zlookup l k.
Proof. intros Hi. apply zlookup_zstore. by apply zstore_is_Some. Qed.

Lemma rewrite_name i p s j : rewritten i p -> zlookup T i = Some s -> s = First (CClass j) \/ s = First (CString j) ->
  exists p', rewrite_constant i p = Ok p' /\ rewritten (i + 1) p'.
Proof.
  intros H Hi Hs. pose proof H as [Ht Hd Hall]. destruct (Hall i s Hi) as [Eti Edi]. rewrite Z.ltb_irrefl in Eti, Edi.
  assert (exists c, constant_at T i = Some c /\ s = First c) as (c & Hc & ->) by (unfold constant_at; rewrite Hi; destruct Hs as [-> | ->]; by eexists).
  destruct (Hfits i c Hc) as [Hf Hin]. pose proof (zlookup_bound _ _ _ Hi) as Hb.
  assert (in_u 16 j /\ j < Z.of_nat (length T) /\ raw_data utf8 (First c) = j /\ is_name (raw_tag (First c)) = true /\
    final_tag T (First c) = (match text_at T j with Some _ => raw_tag (First c) | None => 0 end) /\
    final_data utf8 T (First c) = (match text_at T j with Some text => utf8 text | None => j end)) as (Hj & Hjn & Er & En & Eft & Efd).
  { destruct Hs as [[= ->]|[= ->]]; cbn in *; done. }
  destruct (zlookup_is_Some T j) as [sj Hsj]; [unfold in_u in Hj; lia|]. destruct (Hall j sj Hsj) as [Etj Edj].
  unfold rewrite_constant, tag_at, data_at. rewrite Eti. cbn [of_option mbind res_bind]. rewrite En, Edi, Er. cbn [of_option mbind res_bind].
  rewrite (wrapu_small 16 j) by done. rewrite Etj. cbn [of_option mbind res_bind].
  assert (text_at T j = match sj with First (CUtf8 text) => Some text | _ => None end) as Etext.
  { unfold text_at, constant_at. rewrite Hsj. by destruct sj as [|[]|]. }
  destruct (Z.eqb_spec (if j <? i then final_tag T sj else raw_tag sj) CONSTANT_Utf8) as [Ej|Ej].
  - apply name_tag in Ej as [text ->]. rewrite Edj. cbn [of_option mbind res_bind]. rewrite Etext in Eft, Efd.
    assert ((if j <? i then final_data utf8 T (First (CUtf8 text)) else raw_data utf8 (First (CUtf8 text))) = utf8 text) as -> by (by destruct (j <? i)).
    unfold set_data. rewrite zstore_is_Some by lia. cbn [of_option mbind res_bind]. eexists. split; [done|].
    eapply rewritten_step; [done|done|done|cbn [data]; by rewrite length_insert|..]; cbn [tags data].
    + intros k Hk. split; [done|]. rewrite zlookup_upd by lia. by rewrite (proj2 (Z.eqb_neq _ _)) by lia.
    + by rewrite Eft.
    + rewrite zlookup_upd, Z.eqb_refl by lia. by rewrite Efd.
  - assert (text_at T j = None) as Enone by (rewrite Etext; destruct sj as [|[]|]; try done; by destruct Ej; apply name_tag; eexists).
    rewrite Enone in Eft, Efd. unfold set_tag. rewrite zstore_is_Some by lia. cbn [of_option mbind res_bind]. eexists. split; [done|].
    eapply rewritten_step; [done|done|cbn [tags]; by rewrite length_insert|done|..]; cbn [tags data].
    + intros k Hk. split; [|done]. rewrite zlookup_upd by lia. by rewrite (proj2 (Z.eqb_neq _ _)) by lia.
    + rewrite zlookup_upd, Z.eqb_refl by lia. by rewrite Eft.
    + rewrite Edi, Efd. by rewrite Er.
Qed.

Lemma rewrite_constant_spec i p : 0 <= i < Z.of_nat (length T) -> rewritten i p -> exists p', rewrite_constant i p = Ok p' /\ rewritten (i + 1) p'.
Proof.
  intros Hi H. destruct (zlookup_is_Some T i Hi) as [s Hs].
  assert ((exists j, s = First (CClass j) \/ s = First (CString j)) \/
    (is_name (raw_tag s) = false /\ final_tag T s = raw_tag s /\ final_data utf8 T s = raw_data utf8 s)) as [(j & Hj)|(En & Et & Ed)].
  { destruct s as [|[]|]; try (by right); left; eexists; by (left + right). }
  { by eapply rewrite_name. }
  destruct (rw_slots _ _ H i s Hs) as [Eti Edi]. rewrite Z.ltb_irrefl in Eti, Edi. exists p. split.
  - unfold rewrite_constant, tag_at. rewrite Eti. cbn [of_option mbind res_bind]. by rewrite En.
  - eapply rewritten_step; [done|done|apply rw_tags with i; done|apply rw_data with i; done|done|congruence|congruence].
Qed.

Lemma rewrite_constants_spec n : forall i p, 0 <= i -> i + Z.of_nat n = Z.of_nat (length T) -> rewritten i p ->
  exists p', rewrite_constants n i p = Ok p' /\ holds (final_tag T) (final_data utf8 T) (length T) T p'.
Proof.
  induction n as [|n IH]; intros i p Hi Hn H; cbn [rewrite_constants].
  - exists p. split; [done|]. destruct H as [Ht Hd Hs]. constructor; [done|done|]. intros k s Hk. specialize (Hs k s Hk).
    apply zlookup_bound in Hk. by rewrite (proj2 (Z.ltb_lt _ _)) in Hs by lia.
  - destruct (rewrite_constant_spec i p) as (p1 & -> & H1); [lia|done|]. cbn [mbind res_bind]. apply (IH (i + 1) p1); [lia|lia|done].
Qed.
End Reading.

Lemma slot_table_app cs ds : slot_table (cs ++ ds) = slot_table cs ++ flat_map slots ds.
Proof. unfold slot_table. by rewrite flat_map_app. Qed.

(** The first slot of each constant holds it, and nothing else is one. *)
Lemma constant_at_elem cs i c : constant_at (slot_table cs) i = Some c -> c ∈ cs.
Proof.
  unfold constant_at. destruct (zlookup _ i) as [s|] eqn:E; [|done]. intros Hs. apply zlookup_Some in E as [_ E].
  apply list_elem_of_lookup_2 in E. destruct s as [|c'|]; try done. injection Hs as ->.
  unfold slot_table in E. apply elem_of_cons in E as [|E]; [done|]. apply list_elem_of_In, in_flat_map in E as (d & Hd%list_elem_of_In & He%list_elem_of_In).
  destruct d; cbn in He; set_solver.
Qed.

(** What a class file may contain for the reader to stay inside the pool. *)
Definition well_formed_file (cs : list constant) : Prop :=
  Forall fits cs /\ Forall (name_inside (length (slot_table cs))) cs /\ in_u 16 (Z.of_nat (length (slot_table cs))).

Lemma readConstantPool_spec utf8 cs rest : well_formed_file cs ->
  exists p, readConstantPool utf8 (encode_pool cs ++ rest) = Ok (p, rest) /\
    holds (final_tag (slot_table cs)) (final_data utf8 (slot_table cs)) (length (slot_table cs)) (slot_table cs) p.
Proof.
  intros (Hf & Hn & Hs). set (T := slot_table cs) in *. unfold readConstantPool, encode_pool. fold T. rewrite <- app_assoc, readu2_bytes by done.
  cbn [mbind res_bind]. rewrite Nat2Z.id. assert (0 < length T)%nat by (cbn; lia).
  unfold set_data, set_tag. do 2 (rewrite zstore_is_Some by (cbn [tags data]; rewrite ?length_replicate; lia); cbn [of_option mbind res_bind tags data]).
  match goal with |- context [read_constants _ _ _ ?p _] => set (p0 := p) end. assert (holds raw_tag (raw_data utf8) (length T) [Unused] p0) as H0.
  { apply (holds_snoc _ _ _ [] (mkPool (replicate (length T) 0) (replicate (length T) 0)) Unused); [|done|done|done].
    constructor; cbn [tags data]; rewrite ?length_replicate; [done|done|]. intros i s Hi. apply zlookup_bound in Hi. cbn in Hi. lia. }
  destruct (read_constants_spec utf8 cs (length T) [Unused] p0 rest (length T) H0) as (p1 & E1 & H1); [done|done| |].
  { unfold T, slot_table. cbn [length]. clear. induction cs as [|c cs IH]; cbn; [lia|]. rewrite length_app. destruct c; cbn; lia. }
  change (Z.of_nat (length [Unused])) with 1 in E1. rewrite E1. cbn [mbind res_bind]. change ([Unused] ++ flat_map slots cs) with T in H1.
  destruct H1 as [Ht Hd Hsl].
  destruct (rewrite_constants_spec utf8 T) with (n := (length T - 1)%nat) (i := 1) (p := p1) as (p2 & E2 & H2).
  - intros i c Hc%constant_at_elem. rewrite Forall_forall in Hf, Hn. split; [by apply Hf|by apply Hn].
  - lia.
  - lia.
  - constructor; [done|done|]. intros k s Hk. destruct (Z.ltb_spec k 1); [|by apply Hsl].
    assert (k = 0) as -> by (apply zlookup_bound in Hk; lia). injection Hk as <-. by apply (Hsl 0 Unused).
  - rewrite E2. cbn [mbind res_bind]. by exists p2.
Qed.

(** ** The check decides the types *)

Section Verify.
Context (utf8 : list Z -> Z) (cs : list constant).
Abbreviation T := (slot_table cs).

Definition tag_in (i : Z) : Z := match zlookup T i with Some s => final_tag T s | None => 0 end.

Definition is_text (i : Z) : bool := match text_at T i with Some _ => true | None => false end.

(** What the verifier asks of one constant. *)
Definition checked (c : constant) : bool :=
  match c with
  | CUtf8 _ | CInteger _ | CFloat _ | CLong _ _ | CDouble _ _ => true
  | CClass i | CString i => is_text i
  | CFieldref i j | CMethodref i j | CInterfaceMethodref i j => (tag_in i =? CONSTANT_Class) && (tag_in j =? CONSTANT_NameAndType)
  | CNameAndType i j => (tag_in i =? CONSTANT_Utf8) && (tag_in j =? CONSTANT_Utf8)
  end.

Lemma tag_in_utf8 i : tag_in i = 1 <-> exists text, constant_at T i = Some (CUtf8 text).
Proof.
  unfold tag_in, constant_at. destruct (zlookup T i) as [s|]; [|split; [done|by intros (? & ?)]].
  pose proof (name_tag T s true) as Hn. cbn match in Hn. rewrite Hn. split.
  - intros (text & ->). by exists text.
  - intros (text & H). destruct s as [|c|]; try done. injection H as ->. by exists text.
Qed.

Lemma tag_in_class i : tag_in i = 7 <-> exists j, constant_at T i = Some (CClass j) /\ is_text j = true.
Proof.
  unfold tag_in, constant_at, is_text. destruct (zlookup T i) as [[|c|]|]; try (split; [done|by intros (? & ? & ?)]).
  destruct c; cbn; try (destruct (text_at T _) eqn:E);
    (split; [intros H; try discriminate H|intros (? & [= ?] & Ht); subst; try rewrite E in Ht; try done]).
  eexists. split; [done|]. by rewrite E.
Qed.

Lemma tag_in_nt i : tag_in i = 12 <-> exists j k, constant_at T i = Some (CNameAndType j k).
Proof.
  unfold tag_in, constant_at. destruct (zlookup T i) as [[|c|]|]; try (split; [done|by intros (? & ? & ?)]).
  destruct c; cbn; try (destruct (text_at T _) eqn:E); (split; [intros H; try discriminate H|by intros (? & ? & [=])]).
  by eexists _, _.
Qed.

(** A class file has no resolved classes. *)
Lemma tag_in_not_resolved i : (tag_in i =? CONSTANT_ResolvedClass) = false.
Proof.
  unfold tag_in. destruct (zlookup T i) as [[|c|]|]; try done. destruct c; cbn; try done; by destruct (text_at T _).
Qed.

Lemma is_text_typed i : is_text i = true <-> exists c, constant_at T i = Some c /\ typed T c KText.
Proof.
  unfold is_text, text_at. split.
  - destruct (constant_at T i) as [[]|]; try done. intros _. eexists. split; [done|constructor].
  - intros (c & -> & H). by inversion H.
Qed.

(** Constants that pass the check are well typed, and conversely. *)
Lemma checked_typed : forallb checked cs = true <-> well_typed cs.
Proof.
  rewrite forallb_forall. setoid_rewrite <- list_elem_of_In. unfold well_typed.
  assert (forall i, tag_in i = 1 -> exists c, constant_at T i = Some c /\ typed T c KText) as Htext.
  { intros i (text & E)%tag_in_utf8. exists (CUtf8 text). split; [done|constructor]. }
  assert (forall i, tag_in i = 7 -> exists c, constant_at T i = Some c /\ typed T c KClass) as Hclass.
  { intros i (j & E & (d & Ed & Hd)%is_text_typed)%tag_in_class. exists (CClass j). split; [done|by econstructor]. }
  assert (forall c, c ∈ cs -> checked c = true -> (forall i j, c = CNameAndType i j -> typed T c KNameAndType)) as Hnt.
  { intros c _ Hc i j ->. cbn in Hc. apply andb_true_iff in Hc as [H1 H2]. apply Z.eqb_eq in H1, H2.
    destruct (Htext i H1) as (? & ? & ?). destruct (Htext j H2) as (? & ? & ?). by econstructor. }
  split; intros H c Hc.
  - pose proof (H c Hc) as Hk.
    assert (forall i j, (tag_in i =? CONSTANT_Class) && (tag_in j =? CONSTANT_NameAndType) = true ->
      exists c d, constant_at T i = Some c /\ typed T c KClass /\ constant_at T j = Some d /\ typed T d KNameAndType) as Hmem.
    { intros i j [H1 H2]%andb_true_iff. apply Z.eqb_eq in H1, H2. destruct (Hclass i H1) as (d & ? & ?).
      apply tag_in_nt in H2 as (k & l & E). exists d, (CNameAndType k l). split_and!; [done|done|done|].
      pose proof (constant_at_elem _ _ _ E) as He. by apply (Hnt _ He (H _ He) k l). }
    destruct c; cbn in Hk; try (eexists; by constructor).
    + apply is_text_typed in Hk as (? & ? & ?). eexists. by econstructor.
    + apply is_text_typed in Hk as (? & ? & ?). eexists. by econstructor.
    + destruct (Hmem _ _ Hk) as (? & ? & ? & ? & ? & ?). eexists. by eapply ty_fieldref.
    + destruct (Hmem _ _ Hk) as (? & ? & ? & ? & ? & ?). eexists. by eapply ty_methodref.
    + destruct (Hmem _ _ Hk) as (? & ? & ? & ? & ? & ?). eexists. by eapply ty_imethodref.
    + eexists. by eapply Hnt.
  - destruct (H c Hc) as [k Hk].
    assert (forall i c, constant_at T i = Some c -> typed T c KText -> tag_in i = 1) as Ht.
    { intros i d E Hd. apply tag_in_utf8. inversion Hd; subst. by eexists. }
    assert (forall i c, constant_at T i = Some c -> typed T c KClass -> tag_in i = 7) as Hcl.
    { intros i d E Hd. apply tag_in_class. inversion Hd; subst. eexists. split; [done|]. apply is_text_typed. by eexists. }
    assert (forall i c, constant_at T i = Some c -> typed T c KNameAndType -> tag_in i = 12) as Hn.
    { intros i d E Hd. apply tag_in_nt. inversion Hd; subst. by eexists _, _. }
    inversion Hk; subst; cbn; try done; try (apply is_text_typed; by eexists);
      apply andb_true_iff; split; apply Z.eqb_eq; by eauto.
Qed.

Context (p : constants).
Hypothesis Hp : holds (final_tag T) (final_data utf8 T) (length T) T p.

Lemma CONST_TAG_spec i : 0 <= i -> CONST_TAG i p = Ok (tag_in i).
Proof.
  intros Hi. unfold CONST_TAG, pool_size, tag_at, tag_in. rewrite (ho_data _ _ _ _ _ Hp).
  destruct (zlookup T i) as [s|] eqn:E.
  - destruct (ho_slots _ _ _ _ _ Hp i s E) as [-> _]. pose proof (zlookup_bound _ _ _ E).
    rewrite (proj2 (Z.ltb_lt i _)) by lia. destruct (Z.ltb_spec 0 i); [done|]. cbn.
    assert (i = 0) as -> by lia. by injection E as <-.
  - destruct (Z.ltb_spec i (Z.of_nat (length T))) as [Hlt|]; [|by rewrite andb_false_r].
    destruct (zlookup_is_Some T i) as [s Hs]; [lia|]. congruence.
Qed.

(** The two halves of a member's data. *)
Lemma halves i j : in_u 16 i -> in_u 16 j -> u16 (j * 2 ^ 16 + i) = i /\ u16 (Z.shiftr (j * 2 ^ 16 + i) 16) = j.
Proof.
  intros Hi Hj. unfold in_u, wrapu in *. rewrite Z.shiftr_div_pow2 by lia. change (2 ^ 16) with 65536 in *. split; dmlia.
Qed.

Lemma verify_constant_spec i c error : zlookup T i = Some (First c) -> fits c ->
  verify_constant i p error = Ok (error || negb (checked c), Z.of_nat (length (slots c))).
Proof.
  intros Hi Hf. destruct (ho_slots _ _ _ _ _ Hp i _ Hi) as [Et Ed]. unfold verify_constant, tag_at, FIELDREF_CLASS, FIELDREF_NAMEANDTYPE, data_at.
  rewrite Et, Ed. cbn [of_option mbind res_bind].
  assert (forall i j, in_u 16 i -> in_u 16 j -> forall X (f : Z -> res failure X), mbind f (CONST_TAG (u16 (j * 2 ^ 16 + i)) p) = f (tag_in i) /\
    mbind f (CONST_TAG (u16 (Z.shiftr (j * 2 ^ 16 + i) 16)) p) = f (tag_in j)) as Hh.
  { intros a b Ha Hb X f. destruct (halves a b Ha Hb) as [-> ->]. unfold in_u in *. by rewrite !CONST_TAG_spec by lia. }
  destruct c; cbn [fits] in Hf; cbn -[Z.mul Z.add Z.shiftr]; rewrite ?orb_false_r; try done.
  all: try (unfold is_text; destruct (text_at T _); cbn; by rewrite ?orb_false_r, ?orb_true_r).
  all: destruct Hf as [H1 H2]; rewrite !(proj1 (Hh _ _ H1 H2 _ _)), !(proj2 (Hh _ _ H1 H2 _ _));
    rewrite ?tag_in_not_resolved; destruct error; repeat (destruct (tag_in _ =? _)); done.
Qed.

Lemma verify_constants_spec ds : forall pre fuel error, cs = pre ++ ds -> Forall fits ds -> (length ds <= fuel)%nat ->
  verify_constants fuel (Z.of_nat (length (slot_table pre))) p error = Ok (error || negb (forallb checked ds)).
Proof.
  pose proof (ho_data _ _ _ _ _ Hp) as Hd. induction ds as [|c ds IH]; intros pre fuel error Hcs Hf Hfuel.
  - rewrite app_nil_r in Hcs. rewrite <- Hcs. cbn [forallb negb]. rewrite orb_false_r.
    destruct fuel; cbn [verify_constants]; unfold pool_size; by rewrite (proj2 (Z.ltb_ge _ _)) by lia.
  - apply Forall_cons in Hf as [Hc Hf]. cbn [length] in Hfuel. destruct fuel as [|fuel]; [lia|].
    assert (T = slot_table pre ++ slots c ++ flat_map slots ds) as ET by (by rewrite Hcs, slot_table_app).
    assert (zlookup T (Z.of_nat (length (slot_table pre))) = Some (First c)) as Hi.
    { rewrite ET, zlookup_nat, lookup_app_r, Nat.sub_diag by lia. by destruct c. }
    cbn [verify_constants]. unfold pool_size. rewrite Hd. pose proof (zlookup_bound _ _ _ Hi). rewrite (proj2 (Z.ltb_lt _ _)) by lia.
    rewrite (verify_constant_spec _ _ _ Hi Hc). cbn [mbind res_bind].
    specialize (IH (pre ++ [c]) fuel (error || negb (checked c))). rewrite slot_table_app, length_app in IH.
    cbn [flat_map] in IH. rewrite app_nil_r, Nat2Z.inj_add in IH. rewrite IH; [|by rewrite <- app_assoc|done|lia].
    cbn [forallb]. f_equal. by destruct error, (checked c), (forallb checked ds).
Qed.
End Verify.

(** ** Properties *)

(** C22: the pool of a class file as the reader leaves it: the rest of the file is
    untouched, every slot has the tag and the data of its constant, and a class or
    string constant has the address of the text that its index names. *)
Theorem readConstantPool_roundtrip (utf8 : list Z -> Z) (cs : list constant) (rest : list Z) (Hwf : well_formed_file cs) :
  exists p, readConstantPool utf8 (encode_pool cs ++ rest) = Ok (p, rest) /\
    length (tags p) = length (slot_table cs) /\ length (data p) = length (slot_table cs) /\
    forall i s, zlookup (slot_table cs) i = Some s ->
      zlookup (tags p) i = Some (final_tag (slot_table cs) s) /\ zlookup (data p) i = Some (final_data utf8 (slot_table cs) s).
Proof. destruct (readConstantPool_spec utf8 cs rest Hwf) as (p & E & [? ? ?]). by exists p. Qed.

(** C21: the second pass of the verifier accepts the pool of a class file exactly
    if its constants are well typed (and the class has a superclass or is
    [java.lang.Object]); otherwise it raises [ClassFormatError]. *)
Theorem verify2_decides_types (utf8 : list Z -> Z) (cs : list constant) (rest : list Z) (rooted : bool) (Hwf : well_formed_file cs) :
  exists p, readConstantPool utf8 (encode_pool cs ++ rest) = Ok (p, rest) /\
    (verify2 rooted p = Ok tt <-> rooted = true /\ well_typed cs) /\
    (verify2 rooted p = Ok tt \/ verify2 rooted p = Err ClassFormatError).
Proof.
  destruct (readConstantPool_spec utf8 cs rest Hwf) as (p & E & Hp). exists p. split; [done|].
  assert (verify2 rooted p = if negb rooted || negb (forallb (checked cs) cs) then Err ClassFormatError else Ok tt) as ->.
  { unfold verify2. rewrite (verify_constants_spec utf8 cs p Hp cs [] _ (negb rooted)); [done|done|apply Hwf|].
    rewrite (ho_data _ _ _ _ _ Hp). unfold slot_table. cbn [length]. clear. induction cs as [|c cs IH]; cbn; [lia|].
    rewrite length_app. destruct c; cbn; lia. }
  rewrite <- checked_typed. destruct rooted, (forallb (checked cs) cs); cbn; split; try (by left); try (by right); naive_solver.
Qed.

(** The pool of a class [p.C] with a field of type [I] and a [long] constant. *)
Definition ex_pool : list constant :=
  [CClass 2; CUtf8 [112; 47; 67]; CLong 1 2; CFieldref 1 6; CNameAndType 7 8; CUtf8 [120]; CUtf8 [73]].

Lemma ex_pool_wf : well_formed_file ex_pool.
Proof. split_and!; [repeat constructor; cbn; unfold in_u; lia|repeat constructor; cbn; lia|cbn; unfold in_u; lia]. Qed.

Lemma ex_pool_typed : well_typed ex_pool.
Proof. apply checked_typed. by vm_compute. Qed.

Lemma readConstantPool_roundtrip_witness :
  exists p, readConstantPool (fun l => 4096 + Z.of_nat (length l)) (encode_pool ex_pool ++ [0; 33]) = Ok (p, [0; 33]) /\
    tags p = [0; 7; 1; 5; 0; 9; 12; 1; 1] /\ data p = [0; 4099; 4099; 1; 2; 393217; 524295; 4097; 4097] /\
    length (tags p) = length (slot_table ex_pool).
Proof.
  destruct (readConstantPool_roundtrip (fun l => 4096 + Z.of_nat (length l)) ex_pool [0; 33] ex_pool_wf) as (p & E & Hl & _).
  exists p. split; [exact E|]. vm_compute in E. injection E as <-. by split_and!.
Defined.

Lemma verify2_decides_types_witness :
  exists p, readConstantPool (fun l => 4096 + Z.of_nat (length l)) (encode_pool ex_pool ++ []) = Ok (p, []) /\ verify2 true p = Ok tt.
Proof.
  destruct (verify2_decides_types (fun l => 4096 + Z.of_nat (length l)) ex_pool [] true ex_pool_wf) as (p & E & Hv & _).
  exists p. split; [exact E|]. apply Hv. split; [reflexivity|]. exact ex_pool_typed.
Defined.

(** ** What goes wrong *)

(** The index of the name of a class is not checked before it is followed:
    a class constant whose index is not below the size of the pool makes the
    reader read behind the pool, before the verifier sees it. *)
Theorem name_index_overruns (utf8 : list Z -> Z) (j : Z) (rest : list Z) (Hj : 2 <= j < 2 ^ 16) :
  readConstantPool utf8 (encode_pool [CClass j] ++ rest) = Err BadAccess.
Proof.
  unfold readConstantPool, encode_pool. rewrite <- app_assoc, readu2_bytes by (by unfold in_u). cbn [mbind res_bind].
  destruct (read_constants_spec utf8 [CClass j] 2 [Unused] (mkPool [0; 0] [0; 0]) rest 2) as (p & E & H); [|done|by repeat constructor; cbn; unfold in_u; lia|cbn; lia|].
  { constructor; [done|done|]. intros i s Hi. pose proof (zlookup_bound _ _ _ Hi) as Hb. cbn in Hb.
    assert (i = 0) as -> by lia. by injection Hi as <-. }
  change (Z.of_nat (length [Unused])) with 1 in E. change (Z.to_nat (Z.of_nat (length (slot_table [CClass j])))) with 2%nat.
  cbn [replicate]. change (set_data (mkPool [0; 0] [0; 0]) 0 0) with (@Ok failure _ (mkPool [0; 0] [0; 0])). cbn [mbind res_bind].
  change (set_tag (mkPool [0; 0] [0; 0]) 0 CONSTANT_Unknown) with (@Ok failure _ (mkPool [0; 0] [0; 0])). cbn [mbind res_bind].
  rewrite E. cbn [mbind res_bind Nat.sub rewrite_constants].
  destruct (ho_slots _ _ _ _ _ H 1 (First (CClass j)) eq_refl) as [Et Ed].
  unfold rewrite_constant, tag_at, data_at. rewrite Et, Ed. cbn [of_option mbind res_bind raw_tag raw_data tag_of].
  change (is_name 7) with true. cbn match. rewrite (wrapu_small 16 j) by (unfold in_u; lia).
  destruct (zlookup (tags p) j) eqn:Ej; [|done]. apply zlookup_bound in Ej. rewrite (ho_tags _ _ _ _ _ H) in Ej. lia.
Qed.

Lemma name_index_overruns_witness : readConstantPool (fun _ => 4096) (encode_pool [CClass 700] ++ []) = Err BadAccess.
Proof. apply (name_index_overruns (fun _ => 4096) 700 []). lia. Defined.

(** A [long] in the last slot has its second half written behind the pool. *)
Lemma last_long_overruns (utf8 : list Z -> Z) (high low : Z) (rest : list Z) : in_u 32 high -> in_u 32 low ->
  readConstantPool utf8 (bytes2 2 ++ encode (CLong high low) ++ rest) = Err BadAccess.
Proof.
  intros Hh Hl. unfold readConstantPool. rewrite readu2_bytes by (by unfold in_u). cbn [mbind res_bind].
  change (Z.to_nat 2) with 2%nat. unfold encode. rewrite <- app_comm_cons, <- app_assoc.
  cbn -[readu4 bytes4 app]. rewrite readu4_bytes by done. cbn -[readu4 bytes4 app]. by rewrite readu4_bytes by done.
Qed.
