(* ===== verification/FastMem.v ===== *)
(** * The translator's arena (src/translator/fast_mem_allocator.c)

    Memory for one translation: zeroed heaps from [calloc], each twice as large
    as the one before, cut into chunks that are only given back all together.
    [Arena] is what the allocator promises to the code that uses it. *)

From S2P Require Import Prelude.

Definition NUM_OF_TOLERABLE_OVERFLOWS : Z := 500.
Definition INITIAL_HEAP_SIZE : Z := 1024 * 50.

(** Half-open ranges of addresses, as base and size. *)
Definition range : Type := Z * Z.

(** [c_heap] is the C library's: the ranges [calloc] has handed out; [bytes] is
    the memory. *)
Record fma := mkFma {
  Init_Heap_Stack : list Z;
  Current_Init_Heap : Z;
  Top_Of_Init_Heap_Stack : Z;
  Left_Space_On_Current_Init_Heap : Z;
  Init_Heap_Size : Z;
  c_heap : list range;
  bytes : Z -> Z }.

Definition bzero (p n : Z) (m : Z -> Z) : Z -> Z :=
  fun q => if (p <=? q) && (q <? p + n) then 0 else m q.

Section Fma.

(** The static array, and the address of a new range: 0 when there is none.
    [calloc] also clears the range. *)
Context (First_Init_Heap : Z) (calloc : list range -> Z -> Z).

Definition FMA_start (f : fma) : res failure fma :=
  stack ← of_option BadAccess (zstore (replicate (Z.to_nat NUM_OF_TOLERABLE_OVERFLOWS) 0) 0 First_Init_Heap);
  Ok (mkFma stack First_Init_Heap 0 INITIAL_HEAP_SIZE INITIAL_HEAP_SIZE (c_heap f)
    (bzero First_Init_Heap INITIAL_HEAP_SIZE (bytes f))).

(** [while ((Init_Heap_Size *= 2) < size);] *)
Fixpoint double_heap (fuel : nat) (n size : Z) : res failure Z :=
  let n := s32 (n * 2) in
  if n <? size then match fuel with O => Err OutOfFuel | S fuel => double_heap fuel n size end
  else Ok n.

Definition FMA_allocate (size : Z) (f : fma) : res failure (Z * fma) :=
  let first_free_element_index := Init_Heap_Size f - Left_Space_On_Current_Init_Heap f in
  assert_or AssertionFailed ((0 <? size) && (size <? 0x0fffffff));;
  let size := Z.land (size + 8) (-8) in
  if Left_Space_On_Current_Init_Heap f <? size then
    let top := Top_Of_Init_Heap_Stack f + 1 in
    if top <? NUM_OF_TOLERABLE_OVERFLOWS then
      n ← double_heap 31 (Init_Heap_Size f) size;
      let n := if 0x0fffffff <=? n then 0x0fffffff else n in
      let p := calloc (c_heap f) n in
      stack ← of_option BadAccess (zstore (Init_Heap_Stack f) top p);
      assert_or AssertionFailed (negb (p =? 0));;
      Ok (p, mkFma stack p top (n - size) n ((p, n) :: c_heap f) (bzero p n (bytes f)))
    else Err AssertionFailed
  else
    Ok (Current_Init_Heap f + first_free_element_index,
        mkFma (Init_Heap_Stack f) (Current_Init_Heap f) (Top_Of_Init_Heap_Stack f)
          (Left_Space_On_Current_Init_Heap f - size) (Init_Heap_Size f) (c_heap f) (bytes f)).

(** [free] of an address that [calloc] did not return is undefined. *)
Fixpoint release (p : Z) (l : list range) : res failure (list range) :=
  match l with
  | [] => Err Undefined
  | (q, n) :: l => if p =? q then Ok l else l ← release p l; Ok ((q, n) :: l)
  end.

Fixpoint end_loop (fuel : nat) (f : fma) : res failure fma :=
  if 0 <? Top_Of_Init_Heap_Stack f then
    match fuel with
    | O => Err OutOfFuel
    | S fuel =>
        p ← of_option BadAccess (zlookup (Init_Heap_Stack f) (Top_Of_Init_Heap_Stack f));
        l ← release p (c_heap f);
        end_loop fuel (mkFma (Init_Heap_Stack f) (Current_Init_Heap f) (Top_Of_Init_Heap_Stack f - 1)
          (Left_Space_On_Current_Init_Heap f) (Init_Heap_Size f) l (bytes f))
    end
  else Ok f.

Definition FMA_end (f : fma) : res failure fma := end_loop (Z.to_nat (Top_Of_Init_Heap_Stack f)) f.

End Fma.

(** ** The invariant *)

Definition disjoint (a b : range) : Prop := a.1 + a.2 <= b.1 \/ b.1 + b.2 <= a.1.
Definition inside (a b : range) : Prop := b.1 <= a.1 /\ a.1 + a.2 <= b.1 + b.2.
Definition within (p : Z) (r : range) : Prop := r.1 <= p < r.1 + r.2.

Lemma disjoint_sym a b : disjoint a b -> disjoint b a.
Proof. unfold disjoint. tauto. Qed.

Lemma disjoint_inside a b c : inside a b -> disjoint b c -> disjoint a c.
Proof. unfold inside, disjoint. lia. Qed.

(** What the code relies on: [calloc] fails with NULL or returns an aligned
    range apart from all others. *)
Definition calloc_fresh (first : Z) (calloc : list range -> Z -> Z) : Prop :=
  forall l n, 0 < n -> let p := calloc l n in
  p = 0 \/ (0 < p /\ (8 | p) /\ Forall (disjoint (p, n)) ((first, INITIAL_HEAP_SIZE) :: l)).

Section Invariant.
Context (first : Z) (calloc : list range -> Z -> Z).
Hypothesis (Hfirst : 0 < first /\ (8 | first)) (Hcalloc : calloc_fresh first calloc).

Definition used (f : fma) : Z := Init_Heap_Size f - Left_Space_On_Current_Init_Heap f.

(** [hs] are the heaps of this translation, the newest first; [l0] the ranges
    of others. *)
Record fma_wf (f : fma) (hs l0 : list range) : Prop := {
  w_heap : c_heap f = hs ++ l0;
  w_top : Top_Of_Init_Heap_Stack f = Z.of_nat (length hs) /\ Top_Of_Init_Heap_Stack f < NUM_OF_TOLERABLE_OVERFLOWS;
  w_stack : length (Init_Heap_Stack f) = Z.to_nat NUM_OF_TOLERABLE_OVERFLOWS /\
    exists rest, Init_Heap_Stack f = rev ((hs ++ [(first, INITIAL_HEAP_SIZE)]).*1) ++ rest;
  w_current : head (hs ++ [(first, INITIAL_HEAP_SIZE)]) = Some (Current_Init_Heap f, Init_Heap_Size f);
  w_size : 1 <= Init_Heap_Size f <= 0x0fffffff;
  w_used : 0 <= used f /\ (8 | used f) /\ -1 <= Left_Space_On_Current_Init_Heap f;
  w_ranges : Forall (fun r => 0 < r.1 /\ (8 | r.1)) (hs ++ [(first, INITIAL_HEAP_SIZE)]) /\
    ForallOrdPairs disjoint (hs ++ [(first, INITIAL_HEAP_SIZE)]) }.

(** The chunks handed out so far. *)
Record chunks_wf (f : fma) (hs cs : list range) : Prop := {
  k_in c : c ∈ cs -> 0 < c.2 /\ (8 | c.1) /\ exists r, r ∈ hs ++ [(first, INITIAL_HEAP_SIZE)] /\ inside c r;
  k_used c : c ∈ cs -> c.1 + c.2 <= Current_Init_Heap f + used f \/ disjoint c (Current_Init_Heap f, Init_Heap_Size f);
  k_apart : ForallOrdPairs disjoint cs }.

Lemma double_heap_spec fuel : forall n size, 1 <= n <= 0x0fffffff -> size <= 0x10000000 ->
  size <= n * 2 ^ Z.of_nat (S fuel) ->
  exists m, double_heap fuel n size = Ok m /\ size <= m /\ 2 * n <= m < 2 ^ 30.
Proof.
  induction fuel as [|fuel IH]; intros n size Hn Hs Hf; cbn [double_heap];
    rewrite (wraps_small 32) by (unfold in_s; lia).
  - destruct (Z.ltb_spec (n * 2) size); [exfalso; simpl in Hf; lia|]. eexists. split; [done|]. lia.
  - destruct (Z.ltb_spec (n * 2) size); [|eexists; split; [done|]; lia].
    destruct (IH (n * 2) size) as (m & E & H1 & H2); [lia|done| |].
    + rewrite Nat2Z.inj_succ, Z.pow_succ_r in Hf by lia. lia.
    + exists m. split; [done|]. lia.
Qed.

#[local] Arguments double_heap : simpl never.

Lemma round8 size : Z.land (size + 8) (-8) = 8 * ((size + 8) / 8).
Proof. exact (land_neg_pow2 (size + 8) 3 ltac:(lia)). Qed.

Lemma round8_bounds n : 0 < n < 0x0fffffff -> let sz := 8 * ((n + 8) / 8) in
  0 < n <= sz /\ sz <= 0x10000000 /\ (8 | sz).
Proof.
  intros Hn sz. pose proof (Z.div_mod (n + 8) 8 ltac:(lia)). pose proof (Z.mod_pos_bound (n + 8) 8 ltac:(lia)).
  unfold sz. split_and!; [lia..|]. by exists ((n + 8) / 8); rewrite Z.mul_comm.
Qed.

Lemma start_wf f : exists f', FMA_start first f = Ok f' /\ fma_wf f' [] (c_heap f) /\ chunks_wf f' [] [].
Proof.
  unfold FMA_start. destruct (zstore _ 0 first) as [st|] eqn:E; [|done]. eexists. split; [done|].
  apply zstore_Some in E as [_ ->]. split; constructor; cbn [c_heap Top_Of_Init_Heap_Stack Init_Heap_Stack
    Current_Init_Heap Init_Heap_Size Left_Space_On_Current_Init_Heap]; try done.
  - split; [done|]. by exists (replicate 499 0).
  - unfold used. simpl. split_and!; [lia|exists 0; lia|unfold INITIAL_HEAP_SIZE; lia].
  - split; repeat constructor; apply Hfirst.
  - by intros c ?%elem_of_nil.
  - by intros c ?%elem_of_nil.
  - constructor.
Qed.

Lemma pairs_cons {A} (R : A -> A -> Prop) x l : ForallOrdPairs R (x :: l) <-> Forall (R x) l /\ ForallOrdPairs R l.
Proof.
  split; [by inversion 1|]. intros [? ?]. by constructor.
Qed.

(** A chunk that fits the current heap. *)
Lemma bump_wf f hs l0 cs n sz : fma_wf f hs l0 -> chunks_wf f hs cs -> 0 < n <= sz -> (8 | sz) ->
  sz <= Left_Space_On_Current_Init_Heap f ->
  let p := Current_Init_Heap f + used f in
  let f' := mkFma (Init_Heap_Stack f) (Current_Init_Heap f) (Top_Of_Init_Heap_Stack f)
    (Left_Space_On_Current_Init_Heap f - sz) (Init_Heap_Size f) (c_heap f) (bytes f) in
  fma_wf f' hs l0 /\ chunks_wf f' hs ((p, n) :: cs).
Proof.
  intros [H1 H2 H3 H4 H5 (H6 & H6' & H6'') H7] [K1 K2 K3] Hn H8 Hl p f'.
  assert (Hu : used f' = used f + sz) by (unfold used, f'; simpl; lia).
  assert (Hin : (Current_Init_Heap f, Init_Heap_Size f) ∈ hs ++ [(first, INITIAL_HEAP_SIZE)]).
  { by apply head_Some_elem_of. }
  split; constructor; try done; simpl.
  - rewrite Hu. split_and!; [lia|by apply Z.divide_add_r|lia].
  - intros c [->|Hc]%elem_of_cons; [|by apply K1]. simpl. split_and!; [lia| |].
    + destruct H7 as [H7 _]. rewrite Forall_forall in H7. apply Z.divide_add_r; [by apply (H7 _ Hin)|done].
    + eexists. split; [exact Hin|]. unfold inside, used, p in *; simpl. unfold used. lia.
  - intros c [->|Hc]%elem_of_cons; rewrite Hu; simpl; [left; unfold p; lia|].
    destruct (K2 c Hc); [left; lia|by right].
  - apply pairs_cons. split; [|done]. apply Forall_forall. intros c Hc. unfold disjoint, p. simpl.
    destruct (K2 c Hc) as [|[Hd|Hd]]; simpl in *; [lia|lia|]. unfold used in *. lia.
Qed.

(** A chunk at the start of a new heap. *)
Lemma fresh_wf f hs l0 cs n sz m p st : fma_wf f hs l0 -> chunks_wf f hs cs -> 0 < n <= sz -> (8 | sz) ->
  n <= m <= 0x0fffffff -> sz <= m + 1 -> p = calloc (c_heap f) m -> p <> 0 ->
  Top_Of_Init_Heap_Stack f + 1 < NUM_OF_TOLERABLE_OVERFLOWS ->
  zstore (Init_Heap_Stack f) (Top_Of_Init_Heap_Stack f + 1) p = Some st ->
  let f' := mkFma st p (Top_Of_Init_Heap_Stack f + 1) (m - sz) m ((p, m) :: c_heap f) (bzero p m (bytes f)) in
  fma_wf f' ((p, m) :: hs) l0 /\ chunks_wf f' ((p, m) :: hs) ((p, n) :: cs).
Proof.
  intros [H1 H2 [H3 [rest H3']] H4 H5 H6 [H7 H7']] [K1 K2 K3] Hn H8 Hm Hs Hp Hp0 Htop Hst f'.
  destruct (Hcalloc (c_heap f) m ltac:(lia)) as [|(Hpos & Hp8 & Hd)]; [congruence|]. rewrite <- Hp in *.
  assert (Hd' : Forall (disjoint (p, m)) (hs ++ [(first, INITIAL_HEAP_SIZE)])).
  { rewrite H1 in Hd. inversion Hd as [|? ? Hd1 Hd2]; subst. apply Forall_app in Hd2 as [? _].
    apply Forall_app. split; [done|]. by constructor. }
  assert (Hu : used f' = sz) by (unfold used, f'; simpl; lia).
  assert (Hout : forall c, c ∈ cs -> disjoint c (p, m)).
  { intros c Hc. destruct (K1 c Hc) as (_ & _ & r & Hr & Hi). eapply disjoint_inside; [done|].
    apply disjoint_sym. rewrite Forall_forall in Hd'. by apply Hd'. }
  split; constructor; simpl; try done.
  - by rewrite H1.
  - split; lia.
  - apply zstore_Some in Hst as [Hb ->]. split; [by rewrite length_insert|].
    assert (Hlen : Z.to_nat (Top_Of_Init_Heap_Stack f + 1) = length (rev (hs ++ [(first, INITIAL_HEAP_SIZE)]).*1)).
    { rewrite length_rev, length_fmap, length_app. simpl. lia. }
    rewrite H3' in Hb |- *. rewrite length_app in Hb. destruct rest as [|x rest]; [simpl in Hb; lia|].
    exists rest. rewrite Hlen, insert_app_r_alt, Nat.sub_diag, <- app_assoc by lia. done.
  - lia.
  - rewrite Hu. split_and!; [lia|done|lia].
  - split; [by constructor|by apply pairs_cons].
  - intros c [->|Hc]%elem_of_cons.
    + split_and!; [simpl; lia|done|]. exists (p, m). split; [left|]. unfold inside. simpl. lia.
    + destruct (K1 c Hc) as (? & ? & r & ? & ?). split_and!; [done..|]. exists r. split; [by right|done].
  - intros c [->|Hc]%elem_of_cons; [left; simpl; rewrite Hu; lia|right; by apply Hout].
  - apply pairs_cons. split; [|done]. apply Forall_forall. intros c Hc. specialize (Hout c Hc).
    unfold disjoint in *; simpl in *. lia.
Qed.

(** The two ways to allocate. *)
Lemma allocate_cases f n p f' : 1 <= Init_Heap_Size f <= 0x0fffffff -> FMA_allocate calloc n f = Ok (p, f') ->
  0 < n < 0x0fffffff /\ exists sz, n <= sz /\ (8 | sz) /\
  (sz <= Left_Space_On_Current_Init_Heap f /\ p = Current_Init_Heap f + used f /\
   f' = mkFma (Init_Heap_Stack f) (Current_Init_Heap f) (Top_Of_Init_Heap_Stack f)
     (Left_Space_On_Current_Init_Heap f - sz) (Init_Heap_Size f) (c_heap f) (bytes f) \/
   exists m st, n <= m <= 0x0fffffff /\ sz <= m + 1 /\ p = calloc (c_heap f) m /\ p <> 0 /\
     Top_Of_Init_Heap_Stack f + 1 < NUM_OF_TOLERABLE_OVERFLOWS /\
     zstore (Init_Heap_Stack f) (Top_Of_Init_Heap_Stack f + 1) p = Some st /\
     f' = mkFma st p (Top_Of_Init_Heap_Stack f + 1) (m - sz) m ((p, m) :: c_heap f) (bzero p m (bytes f))).
Proof.
  intros Hsize. unfold FMA_allocate. intros E.
  destruct ((0 <? n) && (n <? 0x0fffffff)) eqn:Hb; [|done]. simpl in E.
  apply andb_true_iff in Hb as [Hb1%Z.ltb_lt Hb2%Z.ltb_lt]. rewrite round8 in E.
  pose proof (round8_bounds n (conj Hb1 Hb2)) as Hsz. set (sz := 8 * ((n + 8) / 8)) in *. clearbody sz.
  destruct Hsz as (Hs1 & Hs2 & Hs3). split; [done|]. exists sz. split_and!; [lia|done|].
  destruct (Z.ltb_spec (Left_Space_On_Current_Init_Heap f) sz); [right|left; by inv_res].
  destruct (Z.ltb_spec (Top_Of_Init_Heap_Stack f + 1) NUM_OF_TOLERABLE_OVERFLOWS) as [Htop|]; [|done].
  destruct (double_heap_spec 31 (Init_Heap_Size f) sz) as (m & Em & Hm1 & Hm2); [done..| |].
  { change (2 ^ Z.of_nat 32) with 4294967296. lia. }
  rewrite Em in E. cbn [mbind res_bind] in E. set (m' := if 0x0fffffff <=? m then _ else _) in *.
  assert (Hm' : n <= m' <= 0x0fffffff /\ sz <= m' + 1) by (unfold m'; destruct (Z.leb_spec 0x0fffffff m); lia).
  clearbody m'. inv_res. eexists m', _. split_and!; try done; lia.
Qed.

Lemma allocate_wf f hs l0 cs n p f' : fma_wf f hs l0 -> chunks_wf f hs cs ->
  FMA_allocate calloc n f = Ok (p, f') ->
  exists hs', fma_wf f' hs' l0 /\ chunks_wf f' hs' ((p, n) :: cs).
Proof.
  intros Hf Hk (Hn & sz & Hs & H8 & H)%allocate_cases; [|apply Hf].
  destruct H as [(Hl & -> & ->)|(m & st & Hm & Hm' & Hp & Hp0 & Htop & Hst & ->)].
  - exists hs. apply bump_wf; [done|done|lia|done|done].
  - eexists. eapply fresh_wf; try done. lia.
Qed.

(** An allocation succeeds while there is a slot for a heap and [calloc] has memory. *)
Lemma allocate_total f hs l0 n : fma_wf f hs l0 -> 0 < n < 0x0fffffff ->
  Top_Of_Init_Heap_Stack f + 1 < NUM_OF_TOLERABLE_OVERFLOWS -> (forall m, 0 < m -> calloc (c_heap f) m <> 0) ->
  exists p f', FMA_allocate calloc n f = Ok (p, f') /\ Top_Of_Init_Heap_Stack f' <= Top_Of_Init_Heap_Stack f + 1.
Proof.
  intros Hf Hn Htop Hc. unfold FMA_allocate.
  destruct (Z.ltb_spec 0 n); [|lia]. destruct (Z.ltb_spec n 0x0fffffff); [|lia]. cbn [andb assert_or mbind res_bind].
  rewrite round8. pose proof (round8_bounds n Hn) as Hs. set (sz := 8 * ((n + 8) / 8)) in *. clearbody sz.
  destruct Hs as (Hs1 & Hs2 & Hs3).
  destruct (Z.ltb_spec (Left_Space_On_Current_Init_Heap f) sz); [|eexists _, _; split; [done|simpl; lia]].
  destruct (Z.ltb_spec (Top_Of_Init_Heap_Stack f + 1) NUM_OF_TOLERABLE_OVERFLOWS); [|lia].
  destruct (double_heap_spec 31 (Init_Heap_Size f) sz) as (m & Em & Hm1 & Hm2); [apply Hf|done| |].
  { pose proof (w_size _ _ _ Hf). change (2 ^ Z.of_nat 32) with 4294967296. lia. }
  rewrite Em. cbn [mbind res_bind]. set (m' := if 0x0fffffff <=? m then _ else _).
  assert (Hm' : 0 < m') by (unfold m'; destruct (Z.leb_spec 0x0fffffff m); lia).
  assert (Hb : 0 <= Top_Of_Init_Heap_Stack f + 1 < Z.of_nat (length (Init_Heap_Stack f))).
  { rewrite (proj1 (w_stack _ _ _ Hf)). pose proof (proj1 (w_top _ _ _ Hf)). unfold NUM_OF_TOLERABLE_OVERFLOWS in *. lia. }
  rewrite (zstore_is_Some _ _ (calloc (c_heap f) m') Hb). cbn [of_option mbind res_bind]. specialize (Hc m' Hm').
  destruct (Z.eqb_spec (calloc (c_heap f) m') 0); [done|]. eexists _, _. split; [done|simpl; lia].
Qed.

(** What is left of the current heap is clear. *)
Definition zero_free (f : fma) : Prop :=
  forall q, Current_Init_Heap f + used f <= q < Current_Init_Heap f + Init_Heap_Size f -> bytes f q = 0.

Lemma bzero_in p n m q : p <= q < p + n -> bzero p n m q = 0.
Proof. intros. unfold bzero. by destruct (Z.leb_spec p q), (Z.ltb_spec q (p + n)); simpl; try lia. Qed.

Lemma bzero_out p n m q : q < p \/ p + n <= q -> bzero p n m q = m q.
Proof. intros. unfold bzero. by destruct (Z.leb_spec p q), (Z.ltb_spec q (p + n)); simpl; try lia. Qed.

Lemma start_zero f f' : FMA_start first f = Ok f' -> zero_free f'.
Proof.
  unfold FMA_start. intros E. inv_res. intros q Hq. unfold used in Hq. simpl in *. apply bzero_in. lia.
Qed.

(** A chunk is clear when it is handed out, and the others keep their contents. *)
Lemma allocate_zero f n p f' : 1 <= Init_Heap_Size f <= 0x0fffffff -> 0 <= used f -> zero_free f ->
  FMA_allocate calloc n f = Ok (p, f') -> zero_free f' /\ forall i, 0 <= i < n -> bytes f' (p + i) = 0.
Proof.
  intros Hs Hu Hz (Hn & sz & Hsz & _ & H)%allocate_cases; [|done].
  destruct H as [(Hl & -> & ->)|(m & st & Hm & Hm' & -> & _ & _ & _ & ->)]; unfold zero_free, used in *; simpl.
  - split; [intros q Hq|intros i Hi]; apply Hz; lia.
  - split; [intros q Hq|intros i Hi]; apply bzero_in; lia.
Qed.

Lemma allocate_keeps f hs l0 cs n p f' c q : fma_wf f hs l0 -> chunks_wf f hs cs ->
  FMA_allocate calloc n f = Ok (p, f') -> c ∈ cs -> within q c -> bytes f' q = bytes f q.
Proof.
  intros Hf Hk (Hn & sz & Hsz & _ & H)%allocate_cases Hc Hq; [|apply Hf].
  destruct H as [(_ & -> & ->)|(m & st & Hm & _ & -> & Hp0 & _ & _ & ->)]; simpl; [done|].
  apply bzero_out. destruct (Hcalloc (c_heap f) m ltac:(lia)) as [|(_ & _ & Hd)]; [done|].
  destruct (k_in _ _ _ Hk c Hc) as (_ & _ & r & Hr & Hi). rewrite (w_heap _ _ _ Hf), Forall_forall in Hd.
  assert (Hr' : r ∈ (first, INITIAL_HEAP_SIZE) :: hs ++ l0).
  { rewrite elem_of_app, list_elem_of_singleton in Hr. rewrite elem_of_cons, elem_of_app. tauto. }
  specialize (Hd r Hr'). unfold disjoint, inside, within in *. simpl in *. rewrite (w_heap _ _ _ Hf) in *. lia.
Qed.

(** The end gives back the heaps and nothing else. *)
Lemma end_loop_spec hs : forall f l0 rest, c_heap f = hs ++ l0 -> Top_Of_Init_Heap_Stack f = Z.of_nat (length hs) ->
  Init_Heap_Stack f = rev ((hs ++ [(first, INITIAL_HEAP_SIZE)]).*1) ++ rest ->
  exists f', end_loop (length hs) f = Ok f' /\ c_heap f' = l0.
Proof.
  induction hs as [|[p n] hs IH]; intros f l0 rest Hh Ht Hs;
    cbn [end_loop length] in Ht |- *; rewrite Ht.
  - exists f. by simpl.
  - destruct (Z.ltb_spec 0 (Z.of_nat (S (length hs)))); [|lia].
    assert (Hl : zlookup (Init_Heap_Stack f) (Z.of_nat (S (length hs))) = Some p).
    { rewrite zlookup_nat, Hs. simpl. rewrite <- app_assoc. apply list_lookup_middle.
      rewrite length_rev, length_fmap, length_app. simpl. lia. }
    rewrite Hl. cbn [of_option mbind res_bind]. rewrite Hh. simpl. rewrite Z.eqb_refl. cbn [mbind res_bind].
    eapply (IH _ l0 (p :: rest)); simpl; [done|lia|]. rewrite Hs. simpl. by rewrite <- app_assoc.
Qed.

Lemma end_spec f hs l0 : fma_wf f hs l0 -> exists f', FMA_end f = Ok f' /\ c_heap f' = l0.
Proof.
  intros [H1 [H2 _] [_ [rest H3]] _ _ _ _]. unfold FMA_end. rewrite H2, Nat2Z.id. by eapply end_loop_spec.
Qed.

End Invariant.

(** ** What the allocator promises

    [room k s]: the next [k] requests succeed.  Every byte of a chunk is zero and
    was not in use before; nothing is taken back. *)
Class Arena (S : Type) := {
  arena_alloc : Z -> S -> res failure (Z * S);
  room : nat -> S -> Prop;
  in_use : S -> Z -> Prop;
  byte_at : S -> Z -> Z;
  room_le k s : room (Datatypes.S k) s -> room k s;
  arena_spec n k s : 0 < n < 0x0fffffff -> room (Datatypes.S k) s ->
    exists p s', arena_alloc n s = Ok (p, s') /\ room k s' /\ 0 < p /\
      (forall i, 0 <= i < n -> ~ in_use s (p + i) /\ in_use s' (p + i) /\ byte_at s' (p + i) = 0) /\
      (forall q, in_use s q -> in_use s' q) }.

Section Instance.
Context (first : Z) (calloc : list range -> Z -> Z).
Hypothesis (Hfirst : 0 < first /\ (8 | first)) (Hcalloc : calloc_fresh first calloc).

(** In a range, and not in the part of the current heap that is left. *)
Definition fma_in_use (f : fma) (p : Z) : Prop :=
  Exists (within p) ((first, INITIAL_HEAP_SIZE) :: c_heap f) /\
  ~ (Current_Init_Heap f + used f <= p < Current_Init_Heap f + Init_Heap_Size f).

Fixpoint fma_room (k : nat) (f : fma) : Prop :=
  ((exists hs l0, fma_wf first f hs l0) /\ zero_free f) /\
  match k with
  | O => True
  | S k => forall n, 0 < n < 0x0fffffff -> exists p f', FMA_allocate calloc n f = Ok (p, f') /\ fma_room k f'
  end.

Lemma current_range f hs l0 : fma_wf first f hs l0 ->
  (Current_Init_Heap f, Init_Heap_Size f) ∈ (first, INITIAL_HEAP_SIZE) :: c_heap f.
Proof.
  intros H. pose proof (head_Some_elem_of _ _ (w_current _ _ _ _ H)) as Hin. rewrite (w_heap _ _ _ _ H).
  rewrite elem_of_app, list_elem_of_singleton in Hin. rewrite elem_of_cons, elem_of_app. tauto.
Qed.

Lemma bump_in_use f hs l0 n sz : fma_wf first f hs l0 -> 0 < n <= sz ->
  sz <= Left_Space_On_Current_Init_Heap f ->
  let p := Current_Init_Heap f + used f in
  let f' := mkFma (Init_Heap_Stack f) (Current_Init_Heap f) (Top_Of_Init_Heap_Stack f)
    (Left_Space_On_Current_Init_Heap f - sz) (Init_Heap_Size f) (c_heap f) (bytes f) in
  (forall i, 0 <= i < n -> ~ fma_in_use f (p + i) /\ fma_in_use f' (p + i)) /\
  (forall q, fma_in_use f q -> fma_in_use f' q).
Proof.
  intros Hf Hn Hl p f'. pose proof (current_range _ _ _ Hf) as Hin.
  assert (Hu : used f' = used f + sz) by (unfold used, f'; simpl; lia).
  pose proof (w_used _ _ _ _ Hf) as (Hu0 & _). unfold fma_in_use. rewrite Hu. split.
  - intros i Hi. split.
    + intros [_ H]. apply H. unfold used, p in *. unfold used. lia.
    + split; [|simpl; unfold p; lia]. apply Exists_exists. eexists. split; [exact Hin|].
      unfold within, p, used in *. simpl. lia.
  - intros q [H1 H2]. split; [done|]. simpl. lia.
Qed.

Lemma fresh_in_use f n sz m p st : Forall (disjoint (p, m)) ((first, INITIAL_HEAP_SIZE) :: c_heap f) ->
  0 < n <= sz -> n <= m ->
  let f' := mkFma st p (Top_Of_Init_Heap_Stack f + 1) (m - sz) m ((p, m) :: c_heap f) (bzero p m (bytes f)) in
  (forall i, 0 <= i < n -> ~ fma_in_use f (p + i) /\ fma_in_use f' (p + i)) /\
  (forall q, fma_in_use f q -> fma_in_use f' q).
Proof.
  intros Hd Hn Hm f'. rewrite Forall_forall in Hd. unfold fma_in_use.
  assert (Hu : used f' = sz) by (unfold used, f'; simpl; lia). rewrite Hu. split.
  - intros i Hi. split.
    + intros [(r & Hr & Hw)%Exists_exists _]. specialize (Hd r Hr). unfold within, disjoint in *. simpl in *. lia.
    + split; [|simpl; lia]. apply Exists_exists. exists (p, m). split; [right; left|]. unfold within. simpl. lia.
  - intros q [(r & Hr & Hw)%Exists_exists H2]. split.
    + apply Exists_exists. exists r. split; [|done]. apply elem_of_cons in Hr as [->|?]; [left|by right; right].
    + specialize (Hd r Hr). unfold within, disjoint in *. simpl in *. lia.
Qed.

Lemma fma_room_wf k f : fma_room k f -> exists hs l0, fma_wf first f hs l0.
Proof. destruct k; by intros [[? _] _]. Qed.

Lemma wf_positive f hs l0 : fma_wf first f hs l0 -> 0 < Current_Init_Heap f.
Proof.
  intros H. destruct (w_ranges _ _ _ _ H) as [Hr _]. rewrite Forall_forall in Hr.
  apply (Hr _ (head_Some_elem_of _ _ (w_current _ _ _ _ H))).
Qed.

Lemma fma_arena_spec n k f : 0 < n < 0x0fffffff -> fma_room (S k) f ->
  exists p f', FMA_allocate calloc n f = Ok (p, f') /\ fma_room k f' /\ 0 < p /\
    (forall i, 0 <= i < n -> ~ fma_in_use f (p + i) /\ fma_in_use f' (p + i) /\ bytes f' (p + i) = 0) /\
    (forall q, fma_in_use f q -> fma_in_use f' q).
Proof.
  intros Hn [[(hs & l0 & Hf) Hz] Hr]. destruct (Hr n Hn) as (p & f' & E & Hr'). exists p, f'. split; [done|]. split; [done|].
  destruct (allocate_zero calloc f n p f' (w_size _ _ _ _ Hf) (proj1 (w_used _ _ _ _ Hf)) Hz E) as [_ Hz'].
  enough (0 < p /\ (forall i, 0 <= i < n -> ~ fma_in_use f (p + i) /\ fma_in_use f' (p + i)) /\
    (forall q, fma_in_use f q -> fma_in_use f' q)) as (? & H1 & ?).
  { split_and!; [done| |done]. intros i Hi. destruct (H1 i Hi). split_and!; [done..|by apply Hz']. }
  apply allocate_cases in E as (_ & sz & Hs & H8 & H); [|apply Hf].
  destruct H as [(Hl & -> & ->)|(m & st & Hm & Hm' & -> & Hp0 & Htop & Hst & ->)].
  - split; [pose proof (wf_positive _ _ _ Hf); pose proof (proj1 (w_used _ _ _ _ Hf)); lia|].
    eapply bump_in_use; [done|lia|done].
  - destruct (Hcalloc (c_heap f) m ltac:(lia)) as [|(Hpos & _ & Hd)]; [done|]. split; [done|].
    apply fresh_in_use; [done|lia|lia].
Qed.

Lemma fma_room_le k f : fma_room (S k) f -> fma_room k f.
Proof.
  revert f. induction k as [|k IH]; intros f [Hf Hr]; (split; [done|]); [done|].
  intros n Hn. destruct (Hr n Hn) as (p & f' & E & H). exists p, f'. split; [done|by apply IH].
Qed.

Definition fma_arena : Arena fma := {|
  arena_alloc := FMA_allocate calloc; room := fma_room; in_use := fma_in_use; byte_at := bytes;
  room_le := fma_room_le;
  arena_spec := fma_arena_spec |}.

(** A store of the code that uses the chunks. *)
Definition write (q v : Z) (f : fma) : fma :=
  mkFma (Init_Heap_Stack f) (Current_Init_Heap f) (Top_Of_Init_Heap_Stack f) (Left_Space_On_Current_Init_Heap f)
    (Init_Heap_Size f) (c_heap f) (fun a => if a =? q then v else bytes f a).

(** The states between [FMA_start] and [FMA_end], with the chunks handed out:
    allocations and stores into the chunks, in any order. *)
Inductive fma_run (f0 : fma) : fma -> list range -> Prop :=
| run_start f : FMA_start first f0 = Ok f -> fma_run f0 f []
| run_alloc f cs n p f' : fma_run f0 f cs -> FMA_allocate calloc n f = Ok (p, f') -> fma_run f0 f' ((p, n) :: cs)
| run_write f cs c q v : fma_run f0 f cs -> c ∈ cs -> within q c -> fma_run f0 (write q v f) cs.

Lemma run_wf f0 f cs : fma_run f0 f cs ->
  exists hs, fma_wf first f hs (c_heap f0) /\ chunks_wf first f hs cs /\ zero_free f.
Proof.
  induction 1 as [f E|f cs n p f' _ (hs & Hf & Hk & Hz) E|f cs c q v _ (hs & Hf & Hk & Hz) Hc Hq].
  - destruct (start_wf first Hfirst f0) as (f' & E' & Hf & Hk). pose proof (start_zero _ _ _ E) as Hz.
    rewrite E in E'. injection E' as ->. by exists [].
  - destruct (allocate_zero calloc f n p f' (w_size _ _ _ _ Hf) (proj1 (w_used _ _ _ _ Hf)) Hz E) as [Hz' _].
    destruct (allocate_wf first calloc Hcalloc f hs _ cs n p f' Hf Hk E) as (hs' & ? & ?). by exists hs'.
  - exists hs. split_and!; [by destruct Hf|by destruct Hk|]. intros a Ha. simpl in *.
    destruct (Z.eqb_spec a q) as [->|]; [|by apply Hz]. exfalso. pose proof (proj1 (w_used _ _ _ _ Hf)). unfold used in *. simpl in *.
    destruct (k_used _ _ _ _ Hk c Hc) as [Hu|Hd]; unfold within, disjoint in *; simpl in *; unfold used in *; lia.
Qed.

(** C24: the arena between [FMA_start] and [FMA_end], whatever its chunks are
    used for.  The chunks are aligned to 8 bytes, lie inside the static heap or
    a heap the arena has taken from the C library, and never overlap; every
    byte of a chunk is zero when it is handed out, whatever was written to the
    chunks before, and the chunks handed out before keep their contents.
    [FMA_end] gives back all heaps taken from the C library and nothing else. *)
Theorem FMA_chunks_disjoint f0 f cs (Hrun : fma_run f0 f cs) :
  exists hs, c_heap f = hs ++ c_heap f0 /\ ForallOrdPairs disjoint cs /\
  (forall c, c ∈ cs -> (8 | c.1) /\ exists r, r ∈ hs ++ [(first, INITIAL_HEAP_SIZE)] /\ inside c r) /\
  (forall n p f', FMA_allocate calloc n f = Ok (p, f') ->
     (forall i, 0 <= i < n -> bytes f' (p + i) = 0) /\
     (forall c q, c ∈ cs -> within q c -> bytes f' q = bytes f q)) /\
  exists f', FMA_end f = Ok f' /\ c_heap f' = c_heap f0.
Proof.
  destruct (run_wf _ _ _ Hrun) as (hs & Hf & Hk & Hz). pose proof Hk as [K1 _ K3]. exists hs.
  split_and!; [apply Hf|done| | |by eapply end_spec].
  - by intros c (_ & H8 & Hr)%K1.
  - intros n p f' E. split; [|by intros c q Hc Hq; eapply allocate_keeps].
    by destruct (allocate_zero calloc f n p f' (w_size _ _ _ _ Hf) (proj1 (w_used _ _ _ _ Hf)) Hz E).
Qed.

Lemma room_intro f hs l0 k cs : (forall l m, 0 < m -> calloc l m <> 0) ->
  fma_wf first f hs l0 -> chunks_wf first f hs cs -> zero_free f ->
  Top_Of_Init_Heap_Stack f + Z.of_nat k < NUM_OF_TOLERABLE_OVERFLOWS -> fma_room k f.
Proof.
  intros Hc. revert f hs cs. induction k as [|k IH]; intros f hs cs Hf Hk Hz Ht; cbn [fma_room]; (split; [by eauto|]); [done|].
  intros n Hn. destruct (allocate_total first calloc f hs l0 n Hf Hn) as (p & f' & E & Ht'); [lia|auto|].
  destruct (allocate_wf _ _ Hcalloc _ _ _ _ _ _ _ Hf Hk E) as (hs' & Hf' & Hk').
  destruct (allocate_zero calloc f n p f' (w_size _ _ _ _ Hf) (proj1 (w_used _ _ _ _ Hf)) Hz E) as [Hz' _].
  exists p, f'. split; [done|]. eapply IH; [done..|lia].
Qed.

(** While the C library has memory, any [k] requests in a row succeed as
    long as [k] more heaps have a slot in the stack: the arena provides what its
    clients ask of it ([room]), and its loops end. *)
Theorem FMA_has_room f0 f cs k (Hc : forall l m, 0 < m -> calloc l m <> 0) (Hrun : fma_run f0 f cs)
    (Ht : Top_Of_Init_Heap_Stack f + Z.of_nat k < NUM_OF_TOLERABLE_OVERFLOWS) :
  @room _ fma_arena k f.
Proof. destruct (run_wf _ _ _ Hrun) as (hs & Hf & Hk & Hz). by eapply room_intro. Qed.

End Instance.

(** ** A concrete C library: new ranges above all others *)

Definition top_of (l : list range) : Z := foldr (fun r a => Z.max (r.1 + r.2) a) 0x1000000 l.
Definition ex_calloc (l : list range) (n : Z) : Z := 8 * ((top_of l + 7) / 8).

Lemma top_of_above l r : r ∈ l -> r.1 + r.2 <= top_of l.
Proof. induction 1 as [|? ? ? ? IH]; simpl; lia. Qed.

Lemma top_of_base l : 0x1000000 <= top_of l.
Proof. induction l as [|r l IH]; simpl; lia. Qed.

Lemma ex_calloc_above l n : top_of l <= ex_calloc l n.
Proof. unfold ex_calloc. dmlia. Qed.

Lemma ex_calloc_fresh : calloc_fresh 4096 ex_calloc.
Proof.
  intros l n Hn. right. pose proof (ex_calloc_above l n) as Ha. pose proof (top_of_base l) as Hb.
  split; [lia|]. split; [by exists ((top_of l + 7) / 8); rewrite Z.mul_comm|].
  constructor; [right; simpl; unfold INITIAL_HEAP_SIZE; lia|].
  apply Forall_forall. intros r Hr. right. pose proof (top_of_above l r Hr). simpl. lia.
Qed.

Lemma ex_first : 0 < 4096 /\ (8 | 4096).
Proof. split; [lia|]. by exists 512. Qed.

Definition no_fma : fma := mkFma [] 0 0 0 0 [] (fun _ => 255).

Definition ex_fma : fma :=
  match FMA_start 4096 no_fma with Ok f => f | Err _ => no_fma end.

Lemma ex_start : FMA_start 4096 no_fma = Ok ex_fma.
Proof. vm_compute. reflexivity. Qed.

Definition grow (fc : fma * list range) (n : Z) : fma * list range :=
  match FMA_allocate ex_calloc n fc.1 with Ok (p, f) => (f, (p, n) :: fc.2) | Err _ => fc end.

(** Two chunks in the first heap, one that needs a heap of its own, and one more. *)
Definition ex_grown : fma * list range := fold_left grow [10; 51000; 300000; 8] (ex_fma, []).

Lemma grow_run fc l : fma_run 4096 ex_calloc no_fma fc.1 fc.2 ->
  fma_run 4096 ex_calloc no_fma (fold_left grow l fc).1 (fold_left grow l fc).2.
Proof.
  revert fc. induction l as [|n l IH]; intros fc H; [done|]. cbn [fold_left]. apply IH. unfold grow.
  destruct (FMA_allocate ex_calloc n fc.1) as [[p f]|] eqn:E; [|done]. by eapply run_alloc.
Qed.

Lemma ex_run : fma_run 4096 ex_calloc no_fma ex_grown.1 ex_grown.2.
Proof. apply grow_run, run_start, ex_start. Qed.

Example ex_chunks : map snd ex_grown.2 = [8; 300000; 51000; 10] /\ Top_Of_Init_Heap_Stack ex_grown.1 = 1.
Proof. split; vm_compute; reflexivity. Qed.

Lemma FMA_chunks_disjoint_witness :
  ForallOrdPairs disjoint ex_grown.2 /\
  (forall p f', FMA_allocate ex_calloc 100 ex_grown.1 = Ok (p, f') -> forall i, 0 <= i < 100 -> bytes f' (p + i) = 0) /\
  exists f', FMA_end ex_grown.1 = Ok f' /\ c_heap f' = c_heap no_fma.
Proof.
  destruct (FMA_chunks_disjoint 4096 ex_calloc ex_first ex_calloc_fresh no_fma ex_grown.1 ex_grown.2 ex_run)
    as (hs & _ & H & _ & Hz & He). split; [exact H|]. split; [|exact He].
  intros p f' E. exact (proj1 (Hz 100 p f' E)).
Defined.

Lemma ex_calloc_ok l m : 0 < m -> ex_calloc l m <> 0.
Proof. intros _. pose proof (ex_calloc_above l m). pose proof (top_of_base l). lia. Qed.

Lemma FMA_has_room_witness :
  @room _ (fma_arena 4096 ex_calloc ex_first ex_calloc_fresh) 498 ex_grown.1.
Proof.
  apply (FMA_has_room 4096 ex_calloc ex_first ex_calloc_fresh no_fma ex_grown.1 ex_grown.2 498 ex_calloc_ok ex_run).
  vm_compute. reflexivity.
Defined.

(** With the stack of heaps full, the request aborts; it does not return NULL. *)
Lemma FMA_full_asserts calloc n f : 0 < n < 0x0fffffff -> Top_Of_Init_Heap_Stack f = NUM_OF_TOLERABLE_OVERFLOWS - 1 ->
  Left_Space_On_Current_Init_Heap f < n -> FMA_allocate calloc n f = Err AssertionFailed.
Proof.
  intros Hn Ht Hl. unfold FMA_allocate. destruct (Z.ltb_spec 0 n); [|lia].
  destruct (Z.ltb_spec n 0x0fffffff); [|lia]. cbn [andb assert_or mbind res_bind]. rewrite round8.
  pose proof (round8_bounds n Hn) as Hs. set (sz := 8 * ((n + 8) / 8)) in *. clearbody sz.
  destruct Hs as (Hs & _). destruct (Z.ltb_spec (Left_Space_On_Current_Init_Heap f) sz); [|lia]. rewrite Ht. done.
Qed.
