(* ===== verification/PseudoReg.v ===== *)
(** * Variables and registers of the translator (src/translator/pseudo_reg.c,
    pseudo_reg.ic, reg.ic, reg.c and the variable counts of CFG.ic)

    A variable is a word: its number in the low 18 bits, its type in the next 7
    and the kind of storage it stands for above.  Registers are the numbers of
    the SPARC's registers, then those of the spill slots of the frame. *)

From S2P Require Import Prelude.

(** [VarType] *)
Definition T_INT := 1.
Definition T_LONG := 2.
Definition T_CC := 3.
Definition T_FLOAT := 4.
Definition T_DOUBLE := 5.
Definition T_REF := 6.
Definition T_IVOID := 7.
Definition T_FVOID := 8.
Definition T_INVALID := 9.

(** [VarStorageType] *)
Definition ST_STACK := 1.
Definition ST_LOCAL := 2.
Definition ST_TEMP := 3.
Definition ST_VN := 4.
Definition ST_INVALID := 5.

Definition TYPE_MASK := 0x01FC0000.
Definition VAR_NUM_MASK := 0x0003FFFF.
Definition STORAGE_TYPE_SHIFT_SIZE := 25.
Definition TYPE_SHIFT_SIZE := 18.
Definition MAX_TEMP_VAR := 11 + 64.

Definition Var_GetStorageType (var : Z) : Z := Z.shiftr (u32 var) STORAGE_TYPE_SHIFT_SIZE.
Definition Var_GetType (var : Z) : Z := Z.shiftr (Z.land TYPE_MASK var) TYPE_SHIFT_SIZE.
Definition Var_IsVariable (var : Z) : bool := (Var_GetType var <? T_INVALID) && (T_INT <=? Var_GetType var).

(** The word of a variable; the sum of an [int] and an offset may wrap. *)
Definition pack (type storage_type number : Z) : Z :=
  s32 (Z.lor (Z.lor (u32 (Z.shiftl type TYPE_SHIFT_SIZE)) (u32 (Z.shiftl storage_type STORAGE_TYPE_SHIFT_SIZE))) (u32 number)).

Record offsets := mkOffsets { Var_offset_of_stack_var : Z; Var_offset_of_local_var : Z; Var_offset_of_temp_var : Z }.

(** The offsets of the inlined method, from its node of the inline graph. *)
Definition Var_prepare_creation (stack local : Z) : offsets := mkOffsets stack local 0.

Section Make.
Context (o : offsets).

Definition Var_make_local (type number : Z) : Z := pack type ST_LOCAL (s32 (number + Var_offset_of_local_var o)).
Definition Var_make_stack (type number : Z) : Z := pack type ST_STACK (s32 (number + Var_offset_of_stack_var o)).
Definition Var_make_temp (type number : Z) : Z := pack type ST_TEMP (s32 (number + Var_offset_of_temp_var o)).
Definition Var_make_vn (type number : Z) : Z := pack type ST_VN (s32 (number + (Var_offset_of_temp_var o + 11))).

Definition Var_make (type storage_type number : Z) : res failure Z :=
  number ←
    (if storage_type =? ST_LOCAL then Ok (s32 (number + Var_offset_of_local_var o))
     else if storage_type =? ST_STACK then Ok (s32 (number + Var_offset_of_stack_var o))
     else if storage_type =? ST_TEMP then Ok (s32 (number + Var_offset_of_temp_var o))
     else if storage_type =? ST_VN then Ok (s32 (number + (Var_offset_of_temp_var o + 11)))
     else if storage_type =? ST_INVALID then Ok number
     else Err AssertionFailed);
  assert_or AssertionFailed (Z.land number VAR_NUM_MASK =? number);;
  Ok (pack type storage_type number).

End Make.

(** The counts of variables of the graph. *)
Record CFG := mkCFG { numberOfLocalVariables : Z; numberOfStackVariables : Z; numberOfTemporaryVariables : Z }.

Section Cfg.
Context (cfg : CFG).

Definition CFG_GetNumOfVars : Z :=
  numberOfLocalVariables cfg + numberOfStackVariables cfg + numberOfTemporaryVariables cfg.

Definition CFG_get_var_number (var : Z) : Z :=
  let storage_type := Var_GetStorageType var in
  if storage_type =? ST_LOCAL then Z.land VAR_NUM_MASK var
  else if storage_type =? ST_STACK then Z.land VAR_NUM_MASK var + numberOfLocalVariables cfg
  else if (storage_type =? ST_TEMP) || (storage_type =? ST_VN) then
    Z.land VAR_NUM_MASK var + numberOfLocalVariables cfg + numberOfStackVariables cfg
  else var.

(** ** Registers *)

Definition o0 := 8.
Definition o6 := 14.
Definition l0 := 16.
Definition l7 := 23.
Definition i0 := 24.
Definition i6 := 30.
Definition i7 := 31.
Definition f0 := 32.
Definition f1 := 33.
Definition f31 := 63.
Definition cc0 := 64.
Definition cc7 := 71.
Definition Reg_number := 72.

Definition CFG_GetNumOfStorageLocations : Z := Reg_number + CFG_GetNumOfVars.

End Cfg.

Definition _is_available_register : list Z :=
  [0; 0; 0; 0; 0; 0; 0; 0;
   1; 1; 1; 1; 1; 1; 0; 0;
   1; 1; 1; 1; 1; 1; 1; 1;
   1; 1; 1; 1; 1; 1; 0; 0;
   1; 1; 1; 1; 1; 1; 1; 1;
   1; 1; 1; 1; 1; 1; 1; 1;
   1; 1; 1; 1; 1; 1; 1; 1;
   1; 1; 1; 1; 1; 1; 1; 1;
   1; 1; 1; 1; 1; 1; 1; 1;
   -1].

Definition _parameter_registers : list Z := [o0; 9; 10; 11; 12; 13; -1].
Definition _argument_registers : list Z := [i0; 25; 26; 27; 28; 29; -1].

Definition Reg_IsHW (reg : Z) : bool := u32 reg <? Reg_number.
Definition Reg_IsInteger (reg : Z) : bool := (0 <=? reg) && (reg <=? i7).
Definition Reg_IsFloat (reg : Z) : bool := (f0 <=? reg) && (reg <=? f31).
Definition Reg_IsRegister (reg : Z) : bool := Z.land reg VAR_NUM_MASK =? reg.
Definition Reg_IsSpill (reg : Z) : bool := Reg_IsRegister reg && (Reg_number <=? reg).

(** The table is read before the comparison. *)
Definition Reg_IsAvailable (reg : Z) : res failure bool :=
  a ← of_option BadAccess (zlookup _is_available_register reg);
  Ok (negb (a =? 0) || (Reg_number <=? reg)).

Definition Reg_IsParameter (reg : Z) : bool := (o0 <=? reg) && (reg <=? o6).
Definition Reg_get_parameter (idx : Z) : res failure Z :=
  if idx <? 6 then of_option BadAccess (zlookup _parameter_registers idx) else Ok (-1).
Definition Reg_get_argument (idx : Z) : res failure Z :=
  if idx <? 6 then of_option BadAccess (zlookup _argument_registers idx) else Ok (-1).

Definition Reg_GetType (reg : Z) : Z :=
  if (0 <? reg) && (reg <=? i7) then T_INT
  else if (f0 <=? reg) && (reg <=? f31) then T_FLOAT
  else if (cc0 <=? reg) && (reg <=? cc7) then T_CC
  else T_INVALID.

(** [o0] and so on when the caller looks, [i0] when the callee does. *)
Definition Reg_get_value (first type : Z) : res failure Z :=
  if (type =? T_INT) || (type =? T_REF) || (type =? T_LONG) then Ok first
  else if type =? T_IVOID then Ok (first + 1)
  else if (type =? T_FLOAT) || (type =? T_DOUBLE) then Ok f0
  else if type =? T_FVOID then Ok f1
  else Err AssertionFailed.

Definition Reg_get_returned (type : Z) : res failure Z := Reg_get_value o0 type.
Definition Reg_get_returning (type : Z) : res failure Z := Reg_get_value i0 type.

Definition RegAlloc_get_spill_offset (r : Z) : res failure Z :=
  assert_or AssertionFailed (Reg_IsSpill r);; Ok (-12 - 4 * (r - Reg_number)).

(** ** Variables are read back as they were made *)

Lemma pack_value type st n : 0 <= type < 128 -> 0 <= st < 64 -> 0 <= n < 2 ^ 18 ->
  pack type st n = st * 2 ^ 25 + (type * 2 ^ 18 + n).
Proof.
  intros Ht Hs Hn. unfold pack. change TYPE_SHIFT_SIZE with 18. change STORAGE_TYPE_SHIFT_SIZE with 25.
  rewrite (wrapu_small 32 n), (wrapu_small 32 (Z.shiftl type 18)), (wrapu_small 32 (Z.shiftl st 25))
    by (rewrite ?Z.shiftl_mul_pow2 by lia; unfold in_u; lia).
  rewrite (Z.lor_comm (Z.shiftl type 18)), <- Z.lor_assoc, (lor_shiftl type n) by lia.
  rewrite lor_shiftl by lia.
  apply wraps_small; [lia|]. unfold in_s. lia.
Qed.

Lemma mask_mod n : Z.land VAR_NUM_MASK n = n mod 2 ^ 18.
Proof. rewrite Z.land_comm. exact (Z.land_ones n 18 ltac:(lia)). Qed.

Lemma Var_GetType_pack type st n : 0 <= type < 128 -> 0 <= st < 64 -> 0 <= n < 2 ^ 18 ->
  Var_GetType (pack type st n) = type.
Proof.
  intros Ht Hs Hn. rewrite pack_value by done. unfold Var_GetType. change TYPE_SHIFT_SIZE with 18.
  rewrite Z.shiftr_land. change (Z.shiftr TYPE_MASK 18) with (Z.ones 7).
  rewrite Z.land_comm, Z.land_ones, Z.shiftr_div_pow2 by lia.
  replace (st * 2 ^ 25 + (type * 2 ^ 18 + n)) with (n + (st * 2 ^ 7 + type) * 2 ^ 18) by ring.
  rewrite Z.div_add, (Z.div_small n) by lia. rewrite Z.add_0_l, Z.add_comm, Z.mod_add by lia. by apply Z.mod_small.
Qed.

Lemma Var_GetStorageType_pack type st n : 0 <= type < 128 -> 0 <= st < 64 -> 0 <= n < 2 ^ 18 ->
  Var_GetStorageType (pack type st n) = st.
Proof.
  intros Ht Hs Hn. rewrite pack_value by done. unfold Var_GetStorageType. change STORAGE_TYPE_SHIFT_SIZE with 25.
  rewrite wrapu_small, Z.shiftr_div_pow2 by (unfold in_u; lia).
  rewrite Z.add_comm, Z.div_add by lia. rewrite Z.div_small; lia.
Qed.

Lemma number_pack type st n : 0 <= type < 128 -> 0 <= st < 64 -> 0 <= n < 2 ^ 18 ->
  Z.land VAR_NUM_MASK (pack type st n) = n.
Proof.
  intros Ht Hs Hn. rewrite pack_value, mask_mod by done.
  replace (st * 2 ^ 25 + (type * 2 ^ 18 + n)) with (n + (st * 2 ^ 7 + type) * 2 ^ 18) by ring.
  rewrite Z.mod_add by lia. by apply Z.mod_small.
Qed.

(** Where the variables of each kind of storage start, as numbers of the method
    being made and as variable numbers. *)
Definition offset_of (o : offsets) (st : Z) : Z :=
  if st =? ST_LOCAL then Var_offset_of_local_var o
  else if st =? ST_STACK then Var_offset_of_stack_var o
  else if st =? ST_TEMP then Var_offset_of_temp_var o else Var_offset_of_temp_var o + 11.

Definition base_of (cfg : CFG) (st : Z) : Z :=
  if st =? ST_LOCAL then 0
  else if st =? ST_STACK then numberOfLocalVariables cfg
  else numberOfLocalVariables cfg + numberOfStackVariables cfg.

(** The function for each kind of storage. *)
Definition make_for (o : offsets) (st : Z) : Z -> Z -> Z :=
  if st =? ST_LOCAL then Var_make_local o
  else if st =? ST_STACK then Var_make_stack o
  else if st =? ST_TEMP then Var_make_temp o else Var_make_vn o.

(** A variable made from a type, a kind of storage and a number that fits
    its 18 bits gives back each of them, has the variable number of its storage,
    and is the same word whether [Var_make] makes it or the function for its
    storage. *)
Theorem Var_make_roundtrip (o : offsets) (cfg : CFG) type st number
    (Ht : T_INT <= type < T_INVALID) (Hs : ST_STACK <= st < ST_INVALID)
    (Hn : 0 <= number + offset_of o st < 2 ^ 18) :
  let v := make_for o st type number in
  Var_make o type st number = Ok v /\ Var_IsVariable v = true /\ Var_GetType v = type /\
  Var_GetStorageType v = st /\ CFG_get_var_number cfg v = base_of cfg st + (number + offset_of o st).
Proof.
  unfold T_INT, T_INVALID in Ht. unfold ST_STACK, ST_INVALID in Hs.
  assert (Hw : s32 (number + offset_of o st) = number + offset_of o st) by (apply wraps_small; [lia|unfold in_s; lia]).
  assert (Hv : make_for o st type number = pack type st (number + offset_of o st)).
  { rewrite <- Hw. assert (Hst : st = 1 \/ st = 2 \/ st = 3 \/ st = 4) by lia. by destruct Hst as [->|[->|[->| ->]]]. }
  intros v. unfold v. rewrite Hv. unfold Var_IsVariable, CFG_get_var_number.
  rewrite Var_GetType_pack, Var_GetStorageType_pack, number_pack by lia.
  split; [|split; [|split_and!; [done|done|]]].
  - unfold Var_make. assert (Hm : Z.land (number + offset_of o st) VAR_NUM_MASK = number + offset_of o st).
    { rewrite Z.land_comm, mask_mod. by apply Z.mod_small. }
    assert (Hst : st = 1 \/ st = 2 \/ st = 3 \/ st = 4) by lia. destruct Hst as [->|[->|[->| ->]]];
      cbn in Hw, Hm |- *; by rewrite Hw, Hm, Z.eqb_refl.
  - apply andb_true_iff. split; [apply Z.ltb_lt|apply Z.leb_le]; unfold T_INT, T_INVALID; lia.
  - assert (Hst : st = 1 \/ st = 2 \/ st = 3 \/ st = 4) by lia. destruct Hst as [->|[->|[->| ->]]];
      unfold base_of; cbn; lia.
Qed.

Definition ex_offsets : offsets := Var_prepare_creation 7 3.
Definition ex_cfg : CFG := mkCFG 10 20 MAX_TEMP_VAR.

Lemma Var_make_roundtrip_witness :
  Var_make ex_offsets T_DOUBLE ST_STACK 2 = Ok (make_for ex_offsets ST_STACK T_DOUBLE 2) /\
  CFG_get_var_number ex_cfg (make_for ex_offsets ST_STACK T_DOUBLE 2) = 19.
Proof.
  destruct (Var_make_roundtrip ex_offsets ex_cfg T_DOUBLE ST_STACK 2) as (H1 & _ & _ & _ & H2).
  - unfold T_INT, T_INVALID, T_DOUBLE. lia.
  - unfold ST_STACK, ST_INVALID. lia.
  - vm_compute. split; [discriminate|reflexivity].
  - split; [exact H1|exact H2].
Defined.

(** The table of available registers ends after the hardware registers and a
    marker, and is read for spill slots too. *)
Lemma Reg_IsAvailable_overreads r : Reg_number < r -> Reg_IsAvailable r = Err BadAccess.
Proof.
  intros Hr. unfold Reg_IsAvailable. destruct (zlookup _ r) as [x|] eqn:E; [|done].
  apply zlookup_bound in E. unfold Reg_number in Hr. simpl in E. lia.
Qed.
