(* ===== verification/AllocStat.v ===== *)
(** * The state of register allocation (src/translator/AllocStat.c,
    AllocStat.ic, AllocStat.h)

    Where each variable is, the variables in each register or spill slot, and
    how many they are.  The reverse map's cell holds the variable itself when
    there is one, and the address of an array of the arena when there are more:
    the arrays are the store the statuses of all program points share. *)

From S2P Require Import Prelude PseudoReg FastMem BitVector.

(** The arrays of variables, by address, and the arena they come from. *)
Record mem (S : Type) := mkMem { arrays : gmap Z (list Z); arena : S }.
Arguments mkMem {S}.
Arguments arrays {S}.
Arguments arena {S}.

Record AllocStat := mkStat { map : list Z; rmap : list Z; refcount : list Z }.

Definition get (l : list Z) (i : Z) : res failure Z := of_option BadAccess (zlookup l i).
Definition put (l : list Z) (i x : Z) : res failure (list Z) := of_option BadAccess (zstore l i x).

Section AllocStat.
Context {S : Type} `{Arena S} (cfg : CFG).
Implicit Types (h : AllocStat) (m : mem S).

Abbreviation numVars := (CFG_GetNumOfVars cfg).
Abbreviation numLocs := (CFG_GetNumOfStorageLocations cfg).
Abbreviation num := (CFG_get_var_number cfg).

Definition FMA_calloc (bytes : Z) (m : mem S) : res failure (Z * mem S) :=
  '(p, a) ← arena_alloc bytes (arena m); Ok (p, mkMem (arrays m) a).

(** An array of [n] zeroed words. *)
Definition new_array (n : Z) (m : mem S) : res failure (Z * mem S) :=
  '(p, m) ← FMA_calloc (s32 (4 * n)) m;
  Ok (p, mkMem (<[p := replicate (Z.to_nat n) 0]> (arrays m)) (arena m)).

Definition array_at (m : mem S) (p : Z) : res failure (list Z) := of_option BadAccess (arrays m !! p).
Definition set_array (m : mem S) (p : Z) (t : list Z) : mem S := mkMem (<[p := t]> (arrays m)) (arena m).

(** [bcopy(src, dst, n)] for [n] words. *)
Definition bcopy (n : Z) (src dst : list Z) : res failure (list Z) :=
  assert_or BadAccess ((n <=? Z.of_nat (length src)) && (n <=? Z.of_nat (length dst)));;
  Ok (take (Z.to_nat n) src ++ drop (Z.to_nat n) dst).

Definition check_var (v : Z) : res failure unit := assert_or AssertionFailed ((0 <=? num v) && (num v <? numVars)).
Definition check_loc (r : Z) : res failure unit := assert_or AssertionFailed ((0 <? r) && (r <? numLocs)).

Definition AllocStat_Init (m : mem S) : res failure (AllocStat * mem S) :=
  '(_, m) ← FMA_calloc (s32 (numVars * 4)) m;
  '(_, m) ← FMA_calloc (s32 (numLocs * 4)) m;
  '(_, m) ← FMA_calloc (s32 (numLocs * 4)) m;
  let zeros := replicate (Z.to_nat numLocs) 0 in
  Ok (mkStat (replicate (Z.to_nat numVars) (-1)) zeros zeros, m).

Definition AllocStat_alloc (m : mem S) : res failure (mem S) := '(_, m) ← FMA_calloc 12 m; Ok m.

Definition AllocStat_Find (h : AllocStat) (v : Z) : res failure Z := check_var v;; get (map h) (num v).

Definition AllocStat_GetRefCount (h : AllocStat) (r : Z) : res failure Z := check_loc r;; get (refcount h) r.

(** The words [Find_variables] points at; [[]] for NULL. *)
Definition AllocStat_Find_variables (h : AllocStat) (m : mem S) (r : Z) : res failure (list Z) :=
  check_loc r;;
  c ← get (refcount h) r;
  if c =? 0 then Ok []
  else x ← get (rmap h) r; if c =? 1 then Ok [x] else array_at m x.

Definition AllocStat_FindRMap (h : AllocStat) (m : mem S) (r cnt : Z) : res failure Z :=
  assert_or AssertionFailed (u32 r <? numLocs);;
  c ← get (refcount h) r;
  assert_or AssertionFailed (u32 cnt <? c);;
  if c =? 0 then Ok (-1)
  else
    x ← get (rmap h) r;
    if x =? 0 then Ok (-1)
    else if c =? 1 then Ok x
    else t ← array_at m x; get t cnt.

(** The new contents of the cell of [r], by its count. *)
Definition append_cell (rm : list Z) (c v r : Z) (m : mem S) : res failure (Z * mem S) :=
  if c =? 0 then Ok (v, m)
  else
    old ← get rm r;
    if c =? 1 then
      '(p, m) ← new_array 2 m; Ok (p, set_array m p [old; v])
    else
      '(p, m) ← new_array (c + 1) m;
      src ← array_at m old;
      dst ← array_at m p;
      t ← bcopy c src dst;
      t ← put t c v;
      Ok (p, set_array m p t).

(** [d] more in the count of [r], and in that of [r + 1] for a double. *)
Definition change_count (rc : list Z) (c d v r : Z) : res failure (list Z) :=
  rc ← put rc r (u32 (c + d));
  if Var_GetType v =? T_DOUBLE then
    c' ← get rc (r + 1);
    rc ← put rc (r + 1) (u32 (c' + d));
    assert_or AssertionFailed (u32 (c + d) =? u32 (c' + d));;
    Ok rc
  else Ok rc.

Definition AllocStat_AppendRMap (h : AllocStat) (v r : Z) (m : mem S) : res failure (AllocStat * mem S) :=
  check_var v;; check_loc r;;
  assert_or AssertionFailed (negb (Var_GetType v =? T_FVOID));;
  c ← get (refcount h) r;
  '(x, m) ← append_cell (rmap h) c v r m;
  rm ← put (rmap h) r x;
  rc ← change_count (refcount h) c 1 v r;
  Ok (mkStat (map h) rm rc, m).

(** The first of the [cnt] words of [t] from [i] on that is variable number [n]. *)
Fixpoint scan_rmap (cnt : nat) (n i : Z) (t : list Z) : res failure (option Z) :=
  match cnt with
  | O => Ok None
  | Datatypes.S cnt => x ← get t i; if num x =? n then Ok (Some i) else scan_rmap cnt n (i + 1) t
  end.

(** Variable number [n] out of the cell of [r]: the variable that was there,
    and the reverse map. *)
Definition remove_cell (rm : list Z) (c n r : Z) (m : mem S) : res failure (Z * list Z * mem S) :=
  x ← get rm r;
  if c =? 1 then rm ← put rm r 0; Ok (x, rm, m)
  else if c =? 2 then
    t ← array_at m x;
    t0 ← get t 0; t1 ← get t 1;
    if num t0 =? n then rm ← put rm r t1; Ok (t0, rm, m)
    else rm ← put rm r t0; Ok (t1, rm, m)
  else
    t ← array_at m x;
    i ← scan_rmap (Z.to_nat c) n 0 t;
    match i with
    | None => Ok (-1, rm, m)
    | Some i =>
        y ← get t i;
        if i <? c - 1 then
          moved ← bcopy (c - i - 1) (drop (Z.to_nat (i + 1)) t) (drop (Z.to_nat i) t);
          Ok (y, rm, set_array m x (take (Z.to_nat i) t ++ moved))
        else Ok (y, rm, m)
    end.

Definition AllocStat_RemoveRMap (h : AllocStat) (v r : Z) (m : mem S) : res failure (AllocStat * mem S) :=
  check_var v;; check_loc r;;
  c ← get (refcount h) r;
  assert_or AssertionFailed (0 <? c);;
  '(v_in_rmap, rm, m) ← remove_cell (rmap h) c (num v) r m;
  rc ← change_count (refcount h) c (-1) v_in_rmap r;
  Ok (mkStat (map h) rm rc, m).

(** [dirty[2048]]: the write of [Insert] is not used, but it is made. *)
Definition set_dirty (r : Z) : res failure unit := assert_or BadAccess ((0 <=? r) && (r <? 2048)).

Definition AllocStat_Insert (h : AllocStat) (v r : Z) (m : mem S) : res failure (AllocStat * mem S) :=
  check_var v;; check_loc r;;
  assert_or AssertionFailed (negb (Var_GetType v =? T_FVOID));;
  old ← get (map h) (num v);
  '(h, m) ← (if 0 <? old then AllocStat_RemoveRMap h v old m else Ok (h, m));
  mp ← put (map h) (num v) r;
  '(h, m) ← AllocStat_AppendRMap (mkStat mp (rmap h) (refcount h)) v r m;
  set_dirty r;;
  Ok (h, m).

Definition AllocStat_Erase (h : AllocStat) (v : Z) (m : mem S) : res failure (AllocStat * mem S) :=
  check_var v;;
  r ← get (map h) (num v);
  mp ← put (map h) (num v) (-1);
  AllocStat_RemoveRMap (mkStat mp (rmap h) (refcount h)) v r m.

Definition AllocStat_ChangeMappedReg (h : AllocStat) (v r : Z) (m : mem S) : res failure (AllocStat * mem S) :=
  check_var v;; check_loc r;;
  old ← get (map h) (num v);
  mp ← put (map h) (num v) r;
  '(h, m) ← AllocStat_RemoveRMap (mkStat mp (rmap h) (refcount h)) v old m;
  '(h, m) ← AllocStat_AppendRMap h v r m;
  if Var_GetType v =? T_DOUBLE then
    a ← AllocStat_GetRefCount h r; b ← AllocStat_GetRefCount h (r + 1);
    assert_or AssertionFailed (a =? b);; Ok (h, m)
  else Ok (h, m).

(** [for (i = 0; i < h->refcount[r2]; i++)] over the variables at [t]. *)
Fixpoint redirect (n : nat) (i : Z) (t : list Z) (r1 r2 : Z) (mp : list Z) : res failure (list Z) :=
  match n with
  | O => Ok mp
  | Datatypes.S n =>
      v ← get t i;
      x ← get mp (num v);
      assert_or AssertionFailed (x =? r1);;
      mp ← put mp (num v) r2;
      redirect n (i + 1) t r1 r2 mp
  end.

Definition AllocStat_ChangeReg (h : AllocStat) (r1 r2 : Z) (m : mem S) : res failure (AllocStat * mem S) :=
  assert_or AssertionFailed (Reg_IsRegister r1 && Reg_IsRegister r2);;
  c1 ← AllocStat_GetRefCount h r1; assert_or AssertionFailed (0 <? c1);;
  c2 ← AllocStat_GetRefCount h r2; assert_or AssertionFailed (c2 =? 0);;
  x ← get (rmap h) r1;
  rm ← put (rmap h) r2 x; rm ← put rm r1 0;
  rc ← put (refcount h) r2 c1; rc ← put rc r1 0;
  t ← AllocStat_Find_variables (mkStat (map h) rm rc) m r2;
  t0 ← get t 0;
  rc ←
    (if Var_GetType t0 =? T_DOUBLE then
       d ← get rc (r1 + 1);
       rc ← put rc (r2 + 1) d; rc ← put rc (r1 + 1) 0;
       a ← get rc r2; b ← get rc (r2 + 1);
       assert_or AssertionFailed (a =? b);; Ok rc
     else Ok rc);
  n ← get rc r2;
  mp ← redirect (Z.to_nat n) 0 t r1 r2 (map h);
  let h := mkStat mp rm rc in
  a ← AllocStat_GetRefCount h r1; assert_or AssertionFailed (a =? 0);;
  b ← AllocStat_GetRefCount h r2; assert_or AssertionFailed (0 <? b);;
  Ok (h, m).

(** ** Copies and comparison *)

(** One cell of the copy. *)
Definition clone_cell (i : Z) (h : AllocStat) (rm : list Z) (m : mem S) : res failure (list Z * mem S) :=
  c ← get (refcount h) i;
  if c =? 1 then x ← get (rmap h) i; rm ← put rm i x; Ok (rm, m)
  else if 1 <? c then
    x ← get (rmap h) i;
    if negb (x =? 0) then
      '(p, m) ← new_array c m;
      rm ← put rm i p;
      src ← array_at m x;
      dst ← array_at m p;
      t ← bcopy c src dst;
      Ok (rm, set_array m p t)
    else d ← get (refcount h) (i - 1); assert_or AssertionFailed (c =? d);; Ok (rm, m)
  else Ok (rm, m).

Fixpoint clone_arrays (n : nat) (i : Z) (h : AllocStat) (rm : list Z) (m : mem S) : res failure (list Z * mem S) :=
  match n with
  | O => Ok (rm, m)
  | Datatypes.S n => '(rm, m) ← clone_cell i h rm m; clone_arrays n (i + 1) h rm m
  end.

Definition AllocStat_Clone (h : AllocStat) (m : mem S) : res failure (AllocStat * mem S) :=
  m ← AllocStat_alloc m;
  '(ret, m) ← AllocStat_Init m;
  '(rm, m) ← clone_arrays (Z.to_nat numLocs) 0 h (rmap ret) m;
  Ok (mkStat (map h) rm (refcount h), m).

(** The first [n] words of two lists from [i] on are the same. *)
Fixpoint same_words (n : nat) (i : Z) (l1 l2 : list Z) : res failure bool :=
  match n with
  | O => Ok true
  | Datatypes.S n =>
      x ← get l1 i; y ← get l2 i;
      if negb (x =? y) then Ok false else same_words n (i + 1) l1 l2
  end.

Definition same_cell (i : Z) (h1 h2 : AllocStat) (m : mem S) : res failure bool :=
  c1 ← get (refcount h1) i; c2 ← get (refcount h2) i;
  if negb (c1 =? c2) then Ok false
  else if c1 =? 1 then x ← get (rmap h1) i; y ← get (rmap h2) i; Ok (x =? y)
  else if 1 <? c1 then
    x ← get (rmap h1) i; y ← get (rmap h2) i;
    if negb (x =? 0) then
      if y =? 0 then Ok false
      else t1 ← array_at m x; t2 ← array_at m y; same_words (Z.to_nat c1) 0 t1 t2
    else Ok (y =? 0)
  else Ok true.

Fixpoint same_cells (n : nat) (i : Z) (h1 h2 : AllocStat) (m : mem S) : res failure bool :=
  match n with
  | O => Ok true
  | Datatypes.S n =>
      b ← same_cell i h1 h2 m;
      if b : bool then same_cells n (i + 1) h1 h2 m else Ok false
  end.

Definition AllocStat_IsEqual (h1 h2 : AllocStat) (m : mem S) : res failure bool :=
  b ← same_words (Z.to_nat numVars) 0 (map h1) (map h2);
  if b : bool then same_cells (Z.to_nat numLocs) 0 h1 h2 m else Ok false.

(** ** Searches *)

(** [for (; n rounds; r += step) if (free at r) return r;] *)
Fixpoint find_free (n : nat) (r step : Z) (h : AllocStat) (pair : bool) : res failure (option Z) :=
  match n with
  | O => Ok None
  | Datatypes.S n =>
      c ← get (refcount h) r;
      ok ← (if (c =? 0) && pair then d ← get (refcount h) (r + 1); Ok (d =? 0) else Ok (c =? 0));
      if ok : bool then Ok (Some r) else find_free n (r + step) step h pair
  end.

(** The first answer of a sequence of searches. *)
Fixpoint first_of (l : list (res failure (option Z))) : res failure (option Z) :=
  match l with
  | [] => Ok None
  | s :: l => o ← s; match o with Some r => Ok (Some r) | None => first_of l end
  end.

Definition is_word_type (t : Z) : bool := (t =? T_INT) || (t =? T_REF) || (t =? T_LONG) || (t =? T_IVOID).
Definition is_float_type (t : Z) : bool := (t =? T_FLOAT) || (t =? T_FVOID).

Definition AllocStat_FindFreeReg (h : AllocStat) (type : Z) : res failure Z :=
  if is_word_type type then
    o ← first_of [find_free 8 l0 1 h false; find_free 6 i0 1 h false; find_free 6 o0 1 h false]; Ok (default (-1) o)
  else if is_float_type type then o ← find_free 32 f0 1 h false; Ok (default (-1) o)
  else if type =? T_DOUBLE then o ← find_free 16 f0 2 h true; Ok (default (-1) o)
  else Err AssertionFailed.

Definition AllocStat_FindFreeSpill (h : AllocStat) (type : Z) : res failure Z :=
  o ←
    (if is_word_type type || is_float_type type then find_free (Z.to_nat numVars) Reg_number 1 h false
     else if type =? T_DOUBLE then
       off ← RegAlloc_get_spill_offset (Reg_number + 1);
       let r := if negb (Z.rem off 8 =? 0) then Reg_number + 1 else Reg_number in
       o ← find_free (Z.to_nat ((numLocs - r) / 2)) r 2 h true;
       match o with
       | Some r =>
           off ← RegAlloc_get_spill_offset (r + 1);
           assert_or AssertionFailed (Z.rem off 8 =? 0);; Ok (Some r)
       | None => Ok None
       end
     else Err AssertionFailed);
  of_option AssertionFailed o.

Definition AllocStat_FindFreeStorage (h : AllocStat) (type : Z) : res failure Z :=
  new_r ← AllocStat_FindFreeReg h type;
  if Reg_IsHW new_r then Ok new_r else AllocStat_FindFreeSpill h type.

Definition AllocStat_FindFreeNonCallerSaveReg (h : AllocStat) (t : Z) : res failure Z :=
  if is_word_type t then
    o ← first_of [find_free 8 l0 1 h false; find_free 6 i0 1 h false]; Ok (default (-1) o)
  else if is_float_type t || (t =? T_DOUBLE) then Ok (-1)
  else Err AssertionFailed.

(** ** The check and the removal of dead variables *)

(** The variables of one cell; [None] when the check fails.  For a hardware
    register [var] is what [Find] returned, a register; above [f0] it keeps the
    value it had. *)
Fixpoint check_hw (n : nat) (i r : Z) (h : AllocStat) (m : mem S) (var : Z) (is_double : bool) : res failure (option (Z * bool)) :=
  match n with
  | O => Ok (Some (var, is_double))
  | Datatypes.S n =>
      var ← (if r <? f0 then v ← AllocStat_FindRMap h m r i; AllocStat_Find h v else Ok var);
      if (r <? f0) && negb (var =? r) then Ok None
      else check_hw n (i + 1) r h m var (is_double || (Var_GetType var =? T_DOUBLE))
  end.

Fixpoint check_spill (n : nat) (i r : Z) (h : AllocStat) (m : mem S) (is_double : bool) : res failure (option bool) :=
  match n with
  | O => Ok (Some is_double)
  | Datatypes.S n =>
      var ← AllocStat_FindRMap h m r i;
      x ← AllocStat_Find h var;
      if negb (x =? r) then Ok None
      else check_spill n (i + 1) r h m (is_double || (Var_GetType var =? T_DOUBLE))
  end.

Fixpoint check_hw_regs (n : nat) (r : Z) (h : AllocStat) (m : mem S) (var : Z) : res failure bool :=
  if r <? Reg_number then
    match n with
    | O => Err OutOfFuel
    | Datatypes.S n =>
        a ← Reg_IsAvailable r;
        if a : bool then
          c ← AllocStat_GetRefCount h r;
          o ← check_hw (Z.to_nat c) 0 r h m var false;
          match o with
          | None => Ok false
          | Some (var, is_double) => check_hw_regs n (if is_double : bool then r + 2 else r + 1) h m var
          end
        else check_hw_regs n (r + 1) h m var
    end
  else Ok true.

Fixpoint check_spill_slots (n : nat) (r : Z) (h : AllocStat) (m : mem S) : res failure bool :=
  if r <? numLocs then
    match n with
    | O => Err OutOfFuel
    | Datatypes.S n =>
        c ← AllocStat_GetRefCount h r;
        o ← check_spill (Z.to_nat c) 0 r h m false;
        match o with
        | None => Ok false
        | Some is_double => check_spill_slots n (if is_double : bool then r + 2 else r + 1) h m
        end
    end
  else Ok true.

Definition AllocStat_CheckValidity (h : AllocStat) (m : mem S) : res failure bool :=
  b ← check_hw_regs (Z.to_nat Reg_number) 0 h m 0;
  if b : bool then check_spill_slots (Z.to_nat numVars) Reg_number h m else Ok false.

Fixpoint remove_dead (n : nat) (i : Z) (lv : list Z) (h : AllocStat) (m : mem S) : res failure (AllocStat * mem S) :=
  match n with
  | O => Ok (h, m)
  | Datatypes.S n =>
      b ← of_option BadAccess (BV_IsSet lv i);
      '(h, m) ←
        (if negb b then x ← AllocStat_Find h i; if negb (x =? -1) then AllocStat_Erase h i m else Ok (h, m)
         else Ok (h, m));
      remove_dead n (i + 1) lv h m
  end.

(** [live] is the instruction's set of live variables, when it has one. *)
Definition AllocStat_RemoveDeadVars (h : AllocStat) (live : option (list Z)) (m : mem S) : res failure (AllocStat * mem S) :=
  match live with
  | Some lv => remove_dead (Z.to_nat numVars) 0 lv h m
  | None => Ok (h, m)
  end.

(** ** Preferred registers: maps alone *)

Definition map_Init (m : mem S) : res failure (list Z * mem S) :=
  '(_, m) ← FMA_calloc (s32 (4 * numVars)) m; Ok (replicate (Z.to_nat numVars) (-1), m).

Definition map_Clone (mp : list Z) (m : mem S) : res failure (list Z * mem S) :=
  '(_, m) ← FMA_calloc 4 m; '(ret, m) ← map_Init m; ret ← bcopy numVars mp ret; Ok (ret, m).

Definition map_Insert (mp : list Z) (v p : Z) : res failure (list Z) :=
  assert_or AssertionFailed (num v <? numVars);; put mp (num v) p.

Definition map_Find (mp : list Z) (v : Z) : res failure Z :=
  assert_or AssertionFailed (num v <? numVars);; get mp (num v).

Definition map_Erase (mp : list Z) (v : Z) : res failure (list Z) :=
  assert_or AssertionFailed (num v <? numVars);; put mp (num v) (-1).

Fixpoint merge_loop (n : nat) (i : Z) (h1 h2 : list Z) : res failure (list Z) :=
  match n with
  | O => Ok h2
  | Datatypes.S n =>
      x ← get h1 i;
      h2 ← (if 0 <=? x then put h2 i x else Ok h2);
      merge_loop n (i + 1) h1 h2
  end.

Definition map_merge (h1 h2 : option (list Z)) : res failure (option (list Z)) :=
  match h1, h2 with
  | None, None => Ok None
  | None, Some h2 => Ok (Some h2)
  | Some h1, None => Ok (Some h1)
  | Some h1, Some h2 => h ← merge_loop (Z.to_nat numVars) 0 h1 h2; Ok (Some h)
  end.

End AllocStat.
