(* ===== verification/RegMap.v ===== *)
(** * The state of register allocation as a map from locations to variables

    The specification of [AllocStat]: for each register or spill slot the list
    of variables in it.  A status in memory represents such a map ([repr]), each
    operation acts on the map as its specification says, and leaves every other
    status alone ([evolves]). *)

From stdpp Require Import functions.
From S2P Require Import Prelude PseudoReg FastMem BitVector AllocStat.

(** ** Words of arrays *)

Lemma get_ok l i x : zlookup l i = Some x -> get l i = Ok x.
Proof. unfold get. by intros ->. Qed.

Lemma put_ok l i x : 0 <= i < Z.of_nat (length l) -> put l i x = Ok (<[Z.to_nat i := x]> l).
Proof. intros Hi. unfold put. by rewrite zstore_is_Some. Qed.

Lemma zlookup_put (l : list Z) i j x : 0 <= i < Z.of_nat (length l) ->
  zlookup (<[Z.to_nat i := x]> l) j = if decide (i = j) then Some x else zlookup l j.
Proof.
  intros Hi. pose proof (zlookup_zstore l (<[Z.to_nat i := x]> l) i j x (zstore_is_Some l i x Hi)) as E.
  rewrite E. by repeat case_decide; try case_test.
Qed.

Section RegMap.
Context {S : Type} `{Arena S} (cfg : CFG).
Implicit Types (h : AllocStat) (m : mem S) (A : Z -> list Z).

Abbreviation numVars := (CFG_GetNumOfVars cfg).
Abbreviation numLocs := (CFG_GetNumOfStorageLocations cfg).
Abbreviation num := (CFG_get_var_number cfg).

(** The sizes of arrays stay far from overflow. *)
Hypothesis Hcfg : 0 <= numVars < 2 ^ 24.

(** ** Maps from locations to variables *)

Definition isd (v : Z) : bool := Var_GetType v =? T_DOUBLE.

(** A location that holds doubles, which take the next one too. *)
Definition dbl (l : list Z) : bool := match l with v :: _ => isd v | [] => false end.

Definition count A (r : Z) : Z :=
  Z.of_nat (length (A r)) + (if dbl (A (r - 1)) then Z.of_nat (length (A (r - 1))) else 0).

Definition good (v : Z) : Prop := 0 <= num v < numVars /\ v <> 0 /\ Var_GetType v <> T_FVOID.

Record awf A : Prop := {
  a_var r v : v ∈ A r -> 0 < r < numLocs /\ good v;
  a_uniq r r' v v' : v ∈ A r -> v' ∈ A r' -> num v = num v' -> r = r' /\ v = v';
  a_nodup r : NoDup (A r);
  a_same r v v' : v ∈ A r -> v' ∈ A r -> isd v = isd v';
  a_pair r v : v ∈ A r -> isd v = true -> r + 1 < numLocs /\ A (r + 1) = [] }.

(** What the cell of the reverse map holds for the variables [l]. *)
Definition cell m (x : Z) (l : list Z) : Prop :=
  match l with
  | [] => x = 0
  | [v] => x = v
  | _ => 0 < x /\ in_use (arena m) x /\ exists t, arrays m !! x = Some t /\ take (length l) t = l
  end.

Definition owns h A (p : Z) : Prop := exists r, (2 <= length (A r))%nat /\ zlookup (rmap h) r = Some p.

Record cells h m A : Prop := {
  c_wf : awf A;
  c_rmap : Z.of_nat (length (rmap h)) = numLocs;
  c_len : Z.of_nat (length (refcount h)) = numLocs;
  c_count r : 0 <= r < numLocs -> zlookup (refcount h) r = Some (count A r);
  c_cell r : 0 <= r < numLocs -> exists x, zlookup (rmap h) r = Some x /\ cell m x (A r);
  c_apart r r' x : (2 <= length (A r))%nat -> (2 <= length (A r'))%nat ->
    zlookup (rmap h) r = Some x -> zlookup (rmap h) r' = Some x -> r = r' }.

Record maps (mp : list Z) A : Prop := {
  p_len : Z.of_nat (length mp) = numVars;
  p_in r v : v ∈ A r -> zlookup mp (num v) = Some r;
  p_out n r : zlookup mp n = Some r -> r = -1 \/ exists v, v ∈ A r /\ num v = n }.

Definition repr h m A : Prop := cells h m A /\ maps (map h) A.

(** An operation on the status [h] touches the arrays of [h] and new ones. *)
Record evolves h A m h' A' m' : Prop := {
  e_frame p t : arrays m !! p = Some t -> in_use (arena m) p -> ~ owns h A p -> arrays m' !! p = Some t;
  e_use p : in_use (arena m) p -> in_use (arena m') p;
  e_own p : owns h' A' p -> owns h A p \/ ~ in_use (arena m) p }.

Lemma evolves_refl h A m : evolves h A m h A m.
Proof. constructor; auto. Qed.

Lemma evolves_trans h A m h1 A1 m1 h2 A2 m2 :
  evolves h A m h1 A1 m1 -> evolves h1 A1 m1 h2 A2 m2 -> evolves h A m h2 A2 m2.
Proof.
  intros [F U O] [F' U' O']. constructor; [|auto|].
  - intros p t Ht Hu Ho. apply F'; [by apply F|by apply U|]. intros Ho'. destruct (O p Ho'); auto.
  - intros p Ho'. destruct (O' p Ho') as [Ho|Hn]; [by apply O|]. right. auto.
Qed.

Lemma cell_frame m m' x l : cell m x l -> (forall p, in_use (arena m) p -> in_use (arena m') p) ->
  (forall t, (2 <= length l)%nat -> arrays m !! x = Some t -> arrays m' !! x = Some t) -> cell m' x l.
Proof.
  destruct l as [|v [|w l]]; simpl; try done. intros (Hp & Hu & t & Ht & E) HU HF.
  split_and!; [done|by apply HU|]. exists t. split; [apply HF; [lia|done]|done].
Qed.

Lemma cells_own h m A p : cells h m A -> owns h A p -> in_use (arena m) p /\ exists t, arrays m !! p = Some t.
Proof.
  intros Hc (r & Hl & Hr). assert (0 <= r < numLocs) as Hb.
  { apply zlookup_bound in Hr. rewrite (c_rmap _ _ _ Hc) in Hr. done. }
  destruct (c_cell _ _ _ Hc r Hb) as (x & Hx & Hcell). simplify_eq.
  destruct (A r) as [|v [|w l]]; simpl in Hl; [lia|lia|]. destruct Hcell as (_ & Hu & t & Ht & _). eauto.
Qed.

(** Another status is as it was, and still has arrays of its own. *)
Lemma cells_frame h A m h' A' m' g B : evolves h A m h' A' m' -> cells g m B ->
  (forall p, owns g B p -> ~ owns h A p) ->
  cells g m' B /\ (forall p, owns g B p -> ~ owns h' A' p).
Proof.
  intros [F U O] Hg Hd. pose proof Hg as [G1 G2 G3 G4 G5 G6]. split.
  - constructor; try done. intros r Hr. destruct (G5 r Hr) as (x & Hx & Hc). exists x. split; [done|].
    eapply cell_frame; [done|done|]. intros t Hl Ht. assert (owns g B x) as Ho by (by exists r).
    apply F; [done|by apply (cells_own _ _ _ _ Hg)|by apply Hd].
  - intros p Hp Hp'. destruct (O p Hp') as [?|Hn]; [by eapply Hd|]. apply Hn. by apply (cells_own _ _ _ _ Hg).
Qed.

Lemma awf_ext A A' : (forall r, A r = A' r) -> awf A -> awf A'.
Proof.
  intros E [H1 H2 H3 H4 H5]. constructor; intros *; rewrite <- ?E; eauto.
Qed.

Lemma count_ext A A' r : (forall r, A r = A' r) -> count A r = count A' r.
Proof. intros E. unfold count. by rewrite !E. Qed.

Lemma cells_ext h m A A' : (forall r, A r = A' r) -> cells h m A -> cells h m A'.
Proof.
  intros E [H1 H2 H3 H4 H5 H6]. constructor; try done.
  - by eapply awf_ext.
  - intros r Hr. rewrite <- (count_ext A A' r E). by apply H4.
  - intros r Hr. rewrite <- E. by apply H5.
  - intros r r' x. rewrite <- !E. apply H6.
Qed.

Lemma maps_ext mp A A' : (forall r, A r = A' r) -> maps mp A -> maps mp A'.
Proof.
  intros E [H1 H2 H3]. constructor; [done|intros r v; rewrite <- E; apply H2|].
  intros n r Hr. destruct (H3 n r Hr) as [|(v & Hv & Hn)]; [by left|right; exists v]. by rewrite <- E.
Qed.

(** A location's variables number at most [numVars]. *)
Lemma length_bound A r : awf A -> Z.of_nat (length (A r)) <= numVars.
Proof.
  intros Hw. rewrite <- (length_fmap num). apply bounded_length; [lia| |].
  - apply NoDup_fmap_2_strong; [|apply Hw]. intros x y Hx Hy Hn. by apply (a_uniq _ Hw r r x y Hx Hy Hn).
  - intros n (v & -> & Hv)%list_elem_of_fmap. by apply (a_var _ Hw r v Hv).
Qed.

(** A location that holds a variable is not the second half of a pair. *)
Lemma not_second A r v : awf A -> v ∈ A r -> dbl (A (r - 1)) = false.
Proof.
  intros Hw Hv. unfold dbl. destruct (A (r - 1)) as [|w l] eqn:E; [done|]. destruct (isd w) eqn:Ed; [|done].
  destruct (a_pair _ Hw (r - 1) w) as [_ Hn]; [rewrite E; left|done|].
  replace (r - 1 + 1) with r in Hn by lia. rewrite Hn in Hv. by apply elem_of_nil in Hv.
Qed.

Lemma count_in A r v : awf A -> v ∈ A r -> count A r = Z.of_nat (length (A r)).
Proof. intros Hw Hv. unfold count. rewrite (not_second A r v) by done. lia. Qed.

(** Both halves of a pair have the same count. *)
Lemma pair_count A r v : awf A -> v ∈ A r -> isd v = true -> count A (r + 1) = count A r.
Proof.
  intros Hw Hv Hd. destruct (a_pair _ Hw _ _ Hv Hd) as [_ Hn]. rewrite (count_in A r v) by done. unfold count.
  replace (r + 1 - 1) with r by lia. rewrite Hn. assert (dbl (A r) = true) as ->; [|simpl; lia].
  destruct (A r) as [|w l] eqn:E; [by apply elem_of_nil in Hv|]. simpl.
  rewrite (a_same _ Hw r w v); [done|rewrite E; left|by rewrite E].
Qed.

Lemma count_zero A r : count A r = 0 -> A r = [] /\ dbl (A (r - 1)) = false.
Proof.
  unfold count. intros Hc. assert (Hl : length (A r) = 0%nat) by (case_test_in Hc; lia).
  split; [by apply nil_length_inv|]. destruct (A (r - 1)); [done|]. destruct (dbl _); [simpl in *; lia|done].
Qed.


(** ** Putting a variable in a location and taking it out *)

Definition place (v r : Z) A : Z -> list Z := <[r := A r ++ [v]]> A.
Definition unplace (n : Z) A : Z -> list Z := fun r => filter (fun x => num x <> n) (A r).

(** A location for [v]: it holds variables of the same size, and is neither the
    second half of a pair nor, for a double, without a free one behind it. *)
Record fits A (v r : Z) : Prop := {
  f_loc : 0 < r < numLocs;
  f_good : good v;
  f_new r' v' : v' ∈ A r' -> num v' <> num v;
  f_same v' : v' ∈ A r -> isd v' = isd v;
  f_second : dbl (A (r - 1)) = false;
  f_pair : isd v = true -> r + 1 < numLocs /\ A (r + 1) = [] }.

Lemma elem_of_place A v r v' r' : v' ∈ place v r A r' <-> v' ∈ A r' \/ r' = r /\ v' = v.
Proof.
  unfold place. destruct (decide (r' = r)) as [->|].
  - rewrite fn_lookup_insert, elem_of_app, list_elem_of_singleton. tauto.
  - rewrite fn_lookup_insert_ne by done. tauto.
Qed.

Lemma place_awf A v r : awf A -> fits A v r -> awf (place v r A).
Proof.
  intros [H1 H2 H3 H4 H5] [F1 F2 F3 F4 F5 F6]. constructor.
  - intros r' v' [Hv|[-> ->]]%elem_of_place; [by apply H1|done].
  - intros r1 r2 v1 v2 [Hv1|[-> ->]]%elem_of_place [Hv2|[-> ->]]%elem_of_place E; [by apply H2|..|done].
    + by destruct (F3 _ _ Hv1).
    + by destruct (F3 _ _ Hv2).
  - intros r'. unfold place. destruct (decide (r' = r)) as [->|]; [|by rewrite fn_lookup_insert_ne].
    rewrite fn_lookup_insert. apply NoDup_app. split_and!; [done| |apply NoDup_singleton].
    intros x Hx ->%list_elem_of_singleton. by apply (F3 _ _ Hx).
  - intros r' v1 v2 [Hv1|[-> ->]]%elem_of_place [Hv2|[? ->]]%elem_of_place; subst; try done.
    + by apply (H4 r').
    + by apply F4.
    + symmetry. by apply F4.
  - intros r' v' [Hv|[-> ->]]%elem_of_place Hd.
    + destruct (H5 _ _ Hv Hd) as [Hl Hn]. split; [done|]. unfold place.
      rewrite fn_lookup_insert_ne; [done|]. intros E. unfold dbl in F5. replace (r - 1) with r' in F5 by lia.
      destruct (A r') as [|w l] eqn:EA; [by apply elem_of_nil in Hv|].
      rewrite (H4 r' w v') in F5; rewrite ?EA; [congruence|left|done].
    + destruct (F6 Hd) as [? ?]. split; [done|]. unfold place. by rewrite fn_lookup_insert_ne by lia.
Qed.

Lemma dbl_app l v : (forall v', v' ∈ l -> isd v' = isd v) -> dbl (l ++ [v]) = isd v.
Proof. destruct l as [|w l]; [done|]. intros Hl. apply Hl. left. Qed.

Lemma place_count A v r r' : awf A -> fits A v r ->
  count (place v r A) r' = count A r' + (if decide (r' = r) then 1 else if decide (r' = r + 1) then if isd v then 1 else 0 else 0).
Proof.
  intros Hw HF. unfold count, place. destruct (decide (r' = r)) as [->|Hne].
  - rewrite fn_lookup_insert, (fn_lookup_insert_ne A r (r - 1)), length_app by lia. simpl. lia.
  - rewrite (fn_lookup_insert_ne A r r') by done. destruct (decide (r' = r + 1)) as [->|Hne'].
    + replace (r + 1 - 1) with r by lia. rewrite fn_lookup_insert, dbl_app, length_app by apply HF. simpl.
      assert (A r <> [] -> dbl (A r) = isd v) as Hd.
      { destruct (A r) as [|w l] eqn:E; [done|]. intros _. simpl. apply (f_same _ _ _ HF). rewrite E. left. }
      destruct (A r) as [|w l]; [simpl; destruct (isd v); lia|]. rewrite Hd by done. destruct (isd v); lia.
    + rewrite fn_lookup_insert_ne by lia. lia.
Qed.

(** The counts after a change at [r], and at [r + 1] for a double. *)
Lemma change_count_spec h m A c d v r : cells h m A -> 0 < r < numLocs -> c = count A r ->
  0 <= c + d < 2 ^ 32 -> (isd v = true -> r + 1 < numLocs /\ count A (r + 1) = c) ->
  exists rc, change_count (refcount h) c d v r = Ok rc /\ Z.of_nat (length rc) = numLocs /\
    forall r', 0 <= r' < numLocs -> zlookup rc r' =
      Some (count A r' + (if decide (r' = r) then d else if decide (r' = r + 1) then if isd v then d else 0 else 0)).
Proof.
  intros Hc Hr -> Hb Hd. unfold change_count. rewrite put_ok by (rewrite (c_len _ _ _ Hc); lia).
  cbn [mbind res_bind]. rewrite !(wrapu_small 32 (count A r + d)) by done.
  set (rc1 := <[Z.to_nat r := count A r + d]> (refcount h)).
  assert (L1 : Z.of_nat (length rc1) = numLocs) by (unfold rc1; rewrite length_insert; apply Hc).
  assert (G1 : forall r', 0 <= r' < numLocs ->
    zlookup rc1 r' = Some (if decide (r = r') then count A r + d else count A r')).
  { intros r' Hr'. unfold rc1. rewrite zlookup_put by (rewrite (c_len _ _ _ Hc); lia). case_decide; [done|by apply Hc]. }
  fold (isd v). destruct (isd v).
  - destruct (Hd eq_refl) as [Hr1 Hc1]. rewrite (get_ok _ _ _ (G1 (r + 1) ltac:(lia))).
    rewrite decide_False by lia. cbn [mbind res_bind]. rewrite put_ok by lia. cbn [mbind res_bind].
    rewrite Hc1, (wrapu_small 32), Z.eqb_refl by done. eexists. split; [done|]. split; [by rewrite length_insert|].
    intros r' Hr'. rewrite zlookup_put, G1 by (done || lia).
    destruct (decide (r + 1 = r')) as [<-|]; [rewrite Hc1, decide_False, decide_True by lia; done|].
    destruct (decide (r = r')) as [->|]; [by rewrite decide_True|]. rewrite !decide_False by lia. f_equal. lia.
  - eexists. split; [done|]. split; [done|]. intros r' Hr'. rewrite G1 by done.
    destruct (decide (r = r')) as [->|]; [by rewrite decide_True|]. rewrite decide_False by lia.
    case_decide; f_equal; lia.
Qed.

Lemma new_array_spec n m k : 0 < n < 2 ^ 25 -> room (Datatypes.S k) (arena m) ->
  exists p m', new_array n m = Ok (p, m') /\ 0 < p /\ ~ in_use (arena m) p /\ in_use (arena m') p /\
    (forall q, in_use (arena m) q -> in_use (arena m') q) /\
    arrays m' = <[p := replicate (Z.to_nat n) 0]> (arrays m) /\ room k (arena m').
Proof.
  intros Hn Hr. unfold new_array, FMA_calloc. rewrite (wraps_small 32) by (unfold in_s; lia).
  destruct (arena_spec (4 * n) k (arena m)) as (p & s' & E & Hk & Hp & Hf & Hm); [lia|done|].
  rewrite E. cbn [mbind res_bind arrays arena]. eexists p, _. split; [done|].
  destruct (Hf 0) as (Hf1 & Hf2 & _); [lia|]. rewrite Z.add_0_r in *. by split_and!.
Qed.

Lemma set_array_get m p t q : arrays (set_array m p t) !! q = if decide (p = q) then Some t else arrays m !! q.
Proof. unfold set_array. simpl. case_decide; [subst; by rewrite lookup_insert_eq|by rewrite lookup_insert_ne]. Qed.

(** Appending leaves every array in use alone. *)
Definition grows m m' : Prop :=
  (forall p, in_use (arena m) p -> in_use (arena m') p) /\
  (forall p t, in_use (arena m) p -> arrays m !! p = Some t -> arrays m' !! p = Some t).

Lemma grows_refl m : grows m m.
Proof. by split. Qed.

Lemma new_array_grows m m' p t t' : arrays m' = <[p := t]> (arrays m) -> ~ in_use (arena m) p ->
  (forall q, in_use (arena m) q -> in_use (arena m') q) -> grows m (set_array m' p t').
Proof.
  intros E Hp HU. split; [done|]. intros q u Hq Hu. rewrite set_array_get, E.
  rewrite decide_False by (by intros <-). rewrite lookup_insert_ne; [done|by intros <-].
Qed.

Lemma cell_two m p v w l t : 0 < p -> in_use (arena m) p -> arrays m !! p = Some t ->
  take (length (v :: w :: l)) t = v :: w :: l -> cell m p (v :: w :: l).
Proof. intros. simpl. split_and!; [done|done|]. by exists t. Qed.

Lemma append_cell_spec h m A v r k : cells h m A -> fits A v r -> room (Datatypes.S k) (arena m) ->
  exists x m', append_cell (rmap h) (count A r) v r m = Ok (x, m') /\ cell m' x (A r ++ [v]) /\
    (A r <> [] -> ~ in_use (arena m) x) /\ grows m m' /\ room k (arena m').
Proof.
  intros Hc HF Hk. pose proof (length_bound A r (c_wf _ _ _ Hc)) as Hlen.
  assert (Hcount : count A r = Z.of_nat (length (A r))) by (unfold count; rewrite (f_second _ _ _ HF); lia).
  destruct (c_cell _ _ _ Hc r) as (x & Hx & Hcell); [pose proof (f_loc _ _ _ HF); lia|].
  unfold append_cell. rewrite Hcount, (get_ok _ _ _ Hx). destruct (A r) as [|v0 [|w l]].
  - exists v, m. split; [done|]. split; [done|]. split; [done|]. split; [apply grows_refl|by apply room_le].
  - cbn [length Z.of_nat Z.eqb mbind res_bind].
    destruct (new_array_spec 2 m k) as (p & m' & E & Hp & Hf & Hu & HU & Ha & Hr); [lia|done|].
    rewrite E. cbn [mbind res_bind]. eexists p, _. split; [done|]. simpl in Hcell. subst x.
    split; [|split; [done|split; [by eapply new_array_grows|done]]].
    apply (cell_two _ _ _ _ _ [v0; v]); [done|done| |done]. by rewrite set_array_get, decide_True.
  - remember (v0 :: w :: l) as L eqn:EL. set (c := Z.of_nat (length L)) in *.
    assert (Hc2 : 2 <= c) by (unfold c; subst L; simpl; lia).
    destruct (Z.eqb_spec c 0); [lia|]. destruct (Z.eqb_spec c 1); [lia|]. cbn [mbind res_bind].
    destruct (new_array_spec (c + 1) m k) as (p & m' & E & Hp & Hf & Hu & HU & Ha & Hr); [lia|done|].
    rewrite E. cbn [mbind res_bind]. assert (Hcell' := Hcell). rewrite EL in Hcell'. destruct Hcell' as (Hx0 & Hxu & t & Ht & Htake).
    rewrite <- EL in Htake. assert (p <> x) as Hpx by (by intros ->).
    unfold array_at. rewrite Ha, (lookup_insert_ne _ p x), Ht by done. cbn [of_option mbind res_bind].
    rewrite lookup_insert_eq. cbn [of_option mbind res_bind].
    assert (Hlt : c <= Z.of_nat (length t)).
    { unfold c. rewrite <- Htake, length_take. lia. }
    unfold bcopy. rewrite length_replicate. destruct (Z.leb_spec c (Z.of_nat (length t))); [|lia].
    destruct (Z.leb_spec c (Z.of_nat (Z.to_nat (c + 1)))); [|lia]. cbn [andb assert_or mbind res_bind].
    unfold c at 1. rewrite Nat2Z.id, Htake, drop_replicate.
    replace (Z.to_nat (c + 1) - Z.to_nat c)%nat with 1%nat by lia. simpl replicate.
    rewrite put_ok by (rewrite length_app; simpl; unfold c; lia). cbn [mbind res_bind].
    unfold c at 1. rewrite Nat2Z.id, insert_app_r_alt, Nat.sub_diag by lia. simpl insert.
    eexists p, _. split; [done|]. split; [|split; [done|split; [by eapply new_array_grows|done]]].
    rewrite EL. apply (cell_two _ _ _ _ _ (L ++ [v])); [done|done| |].
    + rewrite set_array_get, decide_True by done. by subst L.
    + rewrite EL. cbn [app]. rewrite take_ge; [done|]. simpl. rewrite !length_app. simpl. lia.
Qed.

Lemma good_checks A v r : good v -> 0 < r < numLocs ->
  check_var cfg v = Ok tt /\ check_loc cfg r = Ok tt /\ negb (Var_GetType v =? T_FVOID) = true.
Proof.
  intros (Hn & _ & Ht) Hr. unfold check_var, check_loc.
  destruct (Z.leb_spec 0 (num v)); [|lia]. destruct (Z.ltb_spec (num v) numVars); [|lia].
  destruct (Z.ltb_spec 0 r); [|lia]. destruct (Z.ltb_spec r numLocs); [|lia].
  destruct (Z.eqb_spec (Var_GetType v) T_FVOID); [done|]. by split_and!.
Qed.

(** A status with the cell of one location changed: to a variable, a new array,
    or the location's own array. *)
Lemma cells_update h m A mp r x rc A' m' : cells h m A -> 0 <= r < numLocs -> awf A' ->
  (forall r', r' <> r -> A' r' = A r') ->
  Z.of_nat (length rc) = numLocs -> (forall r', 0 <= r' < numLocs -> zlookup rc r' = Some (count A' r')) ->
  cell m' x (A' r) ->
  let own p := (2 <= length (A r))%nat /\ zlookup (rmap h) r = Some p in
  ((2 <= length (A' r))%nat -> ~ in_use (arena m) x \/ own x) ->
  (forall p, in_use (arena m) p -> in_use (arena m') p) ->
  (forall p t, in_use (arena m) p -> ~ own p -> arrays m !! p = Some t -> arrays m' !! p = Some t) ->
  let g := mkStat mp (<[Z.to_nat r := x]> (rmap h)) rc in
  cells g m' A' /\ evolves h A m g A' m'.
Proof.
  intros Hc Hr HA' Ho Hl Hrc Hcell own Hx HU HF g.
  assert (Hlook : forall r', zlookup (rmap g) r' = if decide (r = r') then Some x else zlookup (rmap h) r').
  { intros r'. unfold g. apply zlookup_put. rewrite (c_rmap _ _ _ Hc). lia. }
  assert (Hown : forall r' p, (2 <= length (A r'))%nat -> zlookup (rmap h) r' = Some p ->
    in_use (arena m) p /\ (r' <> r -> ~ own p)).
  { intros r' p H2 Hp. split; [apply (cells_own h m A p Hc); by exists r'|]. intros Hne [Hl2 Hp'].
    apply Hne. by apply (c_apart _ _ _ Hc r' r p). }
  assert (Hdiff : forall r', r' <> r -> (2 <= length (A r'))%nat -> (2 <= length (A' r))%nat -> zlookup (rmap h) r' <> Some x).
  { intros r' Hne H2 H2' Hp. destruct (Hown r' x H2 Hp) as [Hu Hn]. destruct (Hx H2'); [done|by apply Hn]. }
  split; constructor; auto.
  - unfold g. simpl. rewrite length_insert. apply Hc.
  - intros r' Hr'. rewrite Hlook. destruct (decide (r = r')) as [<-|Hne]; [by exists x|]. rewrite Ho by done.
    destruct (c_cell _ _ _ Hc r' Hr') as (y & Hy & Hcy). exists y. split; [done|].
    eapply cell_frame; [done|done|]. intros t Hl2 Ht. destruct (Hown r' y Hl2 Hy). apply HF; auto.
  - intros r1 r2 y H1 H2. rewrite !Hlook. destruct (decide (r = r1)) as [<-|Hn1], (decide (r = r2)) as [<-|Hn2]; [done|..].
    + intros [= <-] Hy. rewrite Ho in H2 by done. by destruct (Hdiff r2).
    + intros Hy [= <-]. rewrite Ho in H1 by done. by destruct (Hdiff r1).
    + rewrite !Ho in * by done. by apply Hc.
  - intros p t Ht Hu Hno. apply HF; [done| |done]. intros [H2 Hp]. apply Hno. by exists r.
  - intros p (r' & Hl2 & Hp). rewrite Hlook in Hp. destruct (decide (r = r')) as [<-|Hne].
    + injection Hp as <-. destruct (Hx Hl2) as [|[H2 Hp]]; [by right|]. left. by exists r.
    + left. exists r'. by rewrite Ho in Hl2.
Qed.

Lemma append_spec h m A v r k : cells h m A -> fits A v r -> room (Datatypes.S k) (arena m) ->
  exists g m', AllocStat_AppendRMap cfg h v r m = Ok (g, m') /\ map g = map h /\ cells g m' (place v r A) /\
    evolves h A m g (place v r A) m' /\ room k (arena m').
Proof.
  intros Hc HF Hk. pose proof (f_loc _ _ _ HF) as Hr. pose proof (length_bound A r (c_wf _ _ _ Hc)) as Hlen.
  assert (Hcount : count A r = Z.of_nat (length (A r))) by (unfold count; rewrite (f_second _ _ _ HF); lia).
  destruct (good_checks A v r (f_good _ _ _ HF) Hr) as (E1 & E2 & E3).
  destruct (append_cell_spec h m A v r k Hc HF Hk) as (x & m' & E4 & Hcell & Hfresh & Hg & Hk').
  unfold AllocStat_AppendRMap. rewrite E1, E2, E3, (get_ok _ _ _ (c_count _ _ _ Hc r ltac:(lia))).
  cbn [mbind res_bind assert_or]. rewrite E4. cbn [mbind res_bind].
  rewrite put_ok by (rewrite (c_rmap _ _ _ Hc); lia). cbn [mbind res_bind].
  destruct (change_count_spec h m A (count A r) 1 v r Hc Hr eq_refl) as (rc & E5 & Hl & Hrc); [lia| |].
  { intros Hd. destruct (f_pair _ _ _ HF Hd) as [Hr1 Hn]. split; [done|]. rewrite Hcount. unfold count.
    replace (r + 1 - 1) with r by lia. rewrite Hn. destruct (A r) as [|w l] eqn:E; [done|].
    cbn [dbl]. rewrite (f_same _ _ _ HF w) by (rewrite E; left). by rewrite Hd. }
  rewrite E5. cbn [mbind res_bind]. eexists _, m'. split; [done|]. split; [done|].
  apply (proj2 (and_assoc _ _ _)). split; [|done].
  assert (Hpl : place v r A r = A r ++ [v]) by apply fn_lookup_insert.
  apply cells_update; try done; rewrite ?Hpl.
  - lia.
  - by apply place_awf; [apply Hc|].
  - intros r' Hne. by apply fn_lookup_insert_ne.
  - intros r' Hr'. rewrite Hrc by done. by rewrite place_count by (done || apply Hc).
  - done.
  - rewrite length_app. simpl. intros Hl2. left. apply Hfresh. intros HE. rewrite HE in Hl2. simpl in Hl2. lia.
  - apply Hg.
  - intros p t Hu _ Ht. by apply Hg.
Qed.

(** ** Taking out *)

Lemma unplace_incl A n r v : v ∈ unplace n A r -> v ∈ A r /\ num v <> n.
Proof. unfold unplace. rewrite list_elem_of_filter. tauto. Qed.

Lemma unplace_awf A n : awf A -> awf (unplace n A).
Proof.
  intros [H1 H2 H3 H4 H5]. constructor.
  - intros r v [Hv _]%unplace_incl. by apply H1.
  - intros r r' v v' [Hv _]%unplace_incl [Hv' _]%unplace_incl. by apply H2.
  - intros r. by apply NoDup_filter.
  - intros r v v' [Hv _]%unplace_incl [Hv' _]%unplace_incl. by apply (H4 r).
  - intros r v [Hv _]%unplace_incl Hd. destruct (H5 _ _ Hv Hd) as [? E]. split; [done|]. unfold unplace. by rewrite E.
Qed.

Lemma filter_all (l : list Z) n : (forall x, x ∈ l -> num x <> n) -> filter (fun x : Z => num x <> n) l = l.
Proof. apply filter_true. Qed.

(** The variable and what is around it in its location. *)
Lemma unplace_split A r v0 : awf A -> v0 ∈ A r -> exists l1 l2, A r = l1 ++ v0 :: l2 /\
  unplace (num v0) A r = l1 ++ l2 /\ (forall x, x ∈ l1 -> num x <> num v0).
Proof.
  intros Hw Hv. pose proof Hv as Hv'. apply list_elem_of_split in Hv' as (l1 & l2 & E). exists l1, l2. split; [done|].
  pose proof (a_nodup _ Hw r) as Hnd. rewrite E in Hnd. apply NoDup_app in Hnd as (_ & Hd & Hnd).
  apply NoDup_cons in Hnd as [Hn2 _].
  assert (Hne : forall x, x ∈ l1 ++ l2 -> num x <> num v0).
  { intros x Hx Hn. assert (x ∈ A r) as Hxr by (rewrite E; set_solver).
    destruct (a_uniq _ Hw _ _ _ _ Hxr Hv Hn) as [_ ->]. apply elem_of_app in Hx as [Hx|Hx]; [|done].
    apply (Hd v0 Hx). left. }
  split.
  - unfold unplace. rewrite E, filter_app, filter_cons_False by naive_solver.
    rewrite !filter_all; [done|..]; intros x Hx; apply Hne; set_solver.
  - intros x Hx. apply Hne. set_solver.
Qed.

Lemma unplace_other A r v0 r' : awf A -> v0 ∈ A r -> r' <> r -> unplace (num v0) A r' = A r'.
Proof.
  intros Hw Hv Hne. apply filter_all. intros x Hx Hn. by destruct (a_uniq _ Hw _ _ _ _ Hx Hv Hn).
Qed.

Lemma unplace_count A r v0 r' : awf A -> v0 ∈ A r ->
  count (unplace (num v0) A) r' =
  count A r' + (if decide (r' = r) then -1 else if decide (r' = r + 1) then if isd v0 then -1 else 0 else 0).
Proof.
  intros Hw Hv. destruct (unplace_split A r v0 Hw Hv) as (l1 & l2 & E & E' & _).
  unfold count. destruct (decide (r' = r)) as [->|Hne].
  - rewrite (unplace_other A r v0 (r - 1)), E', E, !length_app by (done || lia). simpl. lia.
  - rewrite (unplace_other A r v0 r') by done. destruct (decide (r' = r + 1)) as [->|Hne'].
    + replace (r + 1 - 1) with r by lia. rewrite E'.
      assert (Hd : forall x, x ∈ A r -> isd x = isd v0) by (intros x Hx; by apply (a_same _ Hw r)).
      rewrite E in *. assert (dbl (l1 ++ v0 :: l2) = isd v0) as ->.
      { destruct l1 as [|w l1]; [done|]. apply Hd. left. }
      assert (l1 ++ l2 <> [] -> dbl (l1 ++ l2) = isd v0) as Hd'.
      { destruct (l1 ++ l2) as [|w l] eqn:El; [done|]. intros _. apply Hd.
        assert (w ∈ l1 ++ l2) by (rewrite El; left). set_solver. }
      destruct (l1 ++ l2) as [|w l] eqn:El.
      * apply app_nil in El as [-> ->]. simpl. destruct (isd v0); lia.
      * rewrite Hd', <- El, !length_app by done. simpl. destruct (isd v0); lia.
    + rewrite (unplace_other A r v0 (r' - 1)) by (done || lia). lia.
Qed.

Lemma scan_rmap_spec n : forall cnt i l1 v0 pre rest, (forall x, x ∈ l1 -> num x <> n) -> num v0 = n ->
  (length l1 < cnt)%nat -> i = Z.of_nat (length pre) ->
  scan_rmap cfg cnt n i (pre ++ l1 ++ v0 :: rest) = Ok (Some (i + Z.of_nat (length l1))).
Proof.
  induction cnt as [|cnt IH]; intros i l1 v0 pre rest Hl Hv Hc ->; [lia|]. cbn [scan_rmap].
  destruct l1 as [|x l1].
  - rewrite (get_ok _ _ v0) by (rewrite zlookup_nat; by apply list_lookup_middle). cbn [mbind res_bind].
    rewrite Hv, Z.eqb_refl. simpl. by rewrite Z.add_0_r.
  - rewrite (get_ok _ _ x) by (rewrite zlookup_nat; by apply list_lookup_middle). cbn [mbind res_bind].
    destruct (Z.eqb_spec (num x) n) as [Hn|_]; [by destruct (Hl x ltac:(left))|].
    replace (pre ++ (x :: l1) ++ v0 :: rest) with ((pre ++ [x]) ++ l1 ++ v0 :: rest) by (by rewrite <- !app_assoc).
    rewrite IH; [simpl; do 2 f_equal; lia|intros y Hy; apply Hl; by right|done|simpl in Hc; lia|rewrite length_app; simpl; lia].
Qed.

Lemma take_app_inv (l t : list Z) : take (length l) t = l -> exists rest, t = l ++ rest.
Proof. intros E. exists (drop (length l) t). rewrite <- E at 1. symmetry. apply take_drop. Qed.

(** Taking out of an array of three or more. *)
Lemma remove_from_array h m r x l1 v0 l2 t : zlookup (rmap h) r = Some x -> arrays m !! x = Some t ->
  take (length (l1 ++ v0 :: l2)) t = l1 ++ v0 :: l2 -> (forall y, y ∈ l1 -> num y <> num v0) ->
  3 <= Z.of_nat (length (l1 ++ v0 :: l2)) ->
  exists m' t', remove_cell cfg (rmap h) (Z.of_nat (length (l1 ++ v0 :: l2))) (num v0) r m = Ok (v0, rmap h, m') /\
    arena m' = arena m /\ (forall p, p <> x -> arrays m' !! p = arrays m !! p) /\
    arrays m' !! x = Some t' /\ take (length (l1 ++ l2)) t' = l1 ++ l2.
Proof.
  intros Hx Ht Htake Hl1 H3. set (c := Z.of_nat _) in *. unfold remove_cell. rewrite (get_ok _ _ _ Hx).
  cbn [mbind res_bind]. destruct (Z.eqb_spec c 1); [lia|]. destruct (Z.eqb_spec c 2); [lia|].
  unfold array_at. rewrite Ht. cbn [of_option mbind res_bind]. apply take_app_inv in Htake as [rest ->].
  assert (Hc : c = Z.of_nat (length l1) + 1 + Z.of_nat (length l2)) by (unfold c; rewrite length_app; simpl; lia).
  clearbody c. rewrite <- app_assoc. cbn [app]. pose proof (scan_rmap_spec (num v0) (Z.to_nat c) 0 l1 v0 [] (l2 ++ rest) Hl1 eq_refl ltac:(lia) eq_refl) as Es.
  cbn [app] in Es. rewrite Es.
  cbn [mbind res_bind]. rewrite Z.add_0_l, (get_ok _ _ v0) by (rewrite zlookup_nat; by apply list_lookup_middle).
  cbn [mbind res_bind]. destruct (Z.ltb_spec (Z.of_nat (length l1)) (c - 1)).
  - replace (Z.to_nat (Z.of_nat (length l1) + 1)) with (length (l1 ++ [v0])) by (rewrite length_app; simpl; lia).
    rewrite Nat2Z.id. replace (drop (length (l1 ++ [v0])) (l1 ++ v0 :: l2 ++ rest)) with (l2 ++ rest).
    2:{ replace (l1 ++ v0 :: l2 ++ rest) with ((l1 ++ [v0]) ++ l2 ++ rest) by (by rewrite <- app_assoc). by rewrite drop_app_length. }
    rewrite drop_app_length, take_app_length. replace (c - Z.of_nat (length l1) - 1) with (Z.of_nat (length l2)) by lia.
    unfold bcopy. rewrite !length_app. simpl length. rewrite !length_app.
    destruct (Z.leb_spec (Z.of_nat (length l2)) (Z.of_nat (length l2 + length rest))); [|lia].
    destruct (Z.leb_spec (Z.of_nat (length l2)) (Z.of_nat (Datatypes.S (length l2 + length rest)))); [|lia].
    cbn [andb assert_or mbind res_bind]. rewrite Nat2Z.id, take_app_length.
    eexists _, _. split; [done|]. split; [done|]. split; [|split].
    + intros p Hp. by rewrite set_array_get, decide_False.
    + by rewrite set_array_get, decide_True.
    + rewrite app_assoc, <- length_app. apply take_app_length.
  - destruct l2; [|simpl in *; lia]. eexists m, _. split; [done|]. split; [done|]. split; [done|]. split; [done|].
    rewrite app_nil_r, <- app_assoc. apply take_app_length.
Qed.

(** Taking out of any cell. *)
Lemma remove_cell_spec h m A r x l1 v0 l2 : zlookup (rmap h) r = Some x -> A r = l1 ++ v0 :: l2 ->
  cell m x (A r) -> (forall y, y ∈ l1 -> num y <> num v0) ->
  exists m' x', remove_cell cfg (rmap h) (Z.of_nat (length (A r))) (num v0) r m = Ok (v0, <[Z.to_nat r := x']> (rmap h), m') /\
    arena m' = arena m /\ cell m' x' (l1 ++ l2) /\ ((2 <= length (l1 ++ l2))%nat -> x' = x) /\
    (forall p, ~ ((2 <= length (A r))%nat /\ p = x) -> arrays m' !! p = arrays m !! p).
Proof.
  intros Hx E Hcell Hl1. rewrite E in *. pose proof (zlookup_bound _ _ _ Hx) as Hb.
  destruct (Z.le_gt_cases 3 (Z.of_nat (length (l1 ++ v0 :: l2)))) as [H3|H3].
  - assert (Hcell' : 0 < x /\ in_use (arena m) x /\ exists t, arrays m !! x = Some t /\ take (length (l1 ++ v0 :: l2)) t = l1 ++ v0 :: l2).
    { destruct (l1 ++ v0 :: l2) as [|a [|b l]]; simpl in H3; [lia|lia|done]. }
    destruct Hcell' as (Hp & Hu & t & Ht & Htake).
    destruct (remove_from_array h m r x l1 v0 l2 t Hx Ht Htake Hl1 H3) as (m' & t' & Er & Ha & Ho & Ht' & Htake').
    exists m', x. rewrite Er. split; [|split; [done|split; [|split; [done|]]]].
    + rewrite list_insert_id; [done|]. by apply zlookup_Some in Hx as [_ Hx].
    + rewrite length_app in H3. simpl in H3.
      destruct (l1 ++ l2) as [|a [|b l]] eqn:El; [apply app_nil in El as [-> ->]; simpl in H3; lia| |].
      * apply (f_equal length) in El. rewrite length_app in El. simpl in El. lia.
      * apply (cell_two _ _ _ _ _ t'); [done|by rewrite Ha|done|done].
    + intros p Hn. apply Ho. intros ->. apply Hn. split; [lia|done].
  - rewrite length_app in H3. simpl in H3. unfold remove_cell. rewrite (get_ok _ _ _ Hx). cbn [mbind res_bind].
    destruct l1 as [|a l1], l2 as [|b l2]; simpl in H3; try lia.
    + simpl in Hcell. subst x. cbn [app length Z.of_nat Z.eqb mbind res_bind].
      rewrite put_ok by done. cbn [mbind res_bind]. exists m, 0. split_and!; try done. simpl. lia.
    + destruct l2; [|simpl in H3; lia]. destruct Hcell as (Hp & Hu & t & Ht & Htake). apply take_app_inv in Htake as [rest ->].
      change (Z.of_nat (length ([] ++ [v0; b]))) with 2. cbn [Z.eqb Pos.eqb mbind res_bind]. unfold array_at. rewrite Ht. cbn [of_option mbind res_bind app].
      change (get (v0 :: b :: rest) 0) with (@Ok failure _ v0). change (get (v0 :: b :: rest) 1) with (@Ok failure _ b).
      cbn [mbind res_bind]. rewrite Z.eqb_refl, put_ok by done. cbn [mbind res_bind]. exists m, b. split_and!; try done.
      simpl. lia.
    + destruct l1; [|simpl in H3; lia]. destruct Hcell as (Hp & Hu & t & Ht & Htake). apply take_app_inv in Htake as [rest ->].
      change (Z.of_nat (length ([a] ++ [v0]))) with 2. cbn [Z.eqb Pos.eqb mbind res_bind]. unfold array_at. rewrite Ht. cbn [of_option mbind res_bind app].
      change (get (a :: v0 :: rest) 0) with (@Ok failure _ a). change (get (a :: v0 :: rest) 1) with (@Ok failure _ v0).
      cbn [mbind res_bind]. destruct (Z.eqb_spec (num a) (num v0)) as [Hn|_]; [by destruct (Hl1 a ltac:(left))|].
      rewrite put_ok by done. cbn [mbind res_bind]. exists m, a. split_and!; try done. simpl. lia.
Qed.

Lemma rmap_remove_spec h m A v v0 r : cells h m A -> v0 ∈ A r -> num v = num v0 ->
  exists g m', AllocStat_RemoveRMap cfg h v r m = Ok (g, m') /\ map g = map h /\ cells g m' (unplace (num v) A) /\
    evolves h A m g (unplace (num v) A) m' /\ arena m' = arena m.
Proof.
  intros Hc Hv Hn. pose proof (c_wf _ _ _ Hc) as Hw. destruct (a_var _ Hw _ _ Hv) as [Hr Hg].
  pose proof (length_bound A r Hw) as Hlen. pose proof (count_in A r v0 Hw Hv) as Hcount.
  destruct (good_checks A v0 r Hg Hr) as (E1 & E2 & _).
  assert (E1' : check_var cfg v = Ok tt) by (unfold check_var in *; by rewrite Hn).
  destruct (unplace_split A r v0 Hw Hv) as (l1 & l2 & E & E' & Hl1).
  destruct (c_cell _ _ _ Hc r) as (x & Hx & Hcell); [lia|].
  destruct (remove_cell_spec h m A r x l1 v0 l2 Hx E Hcell Hl1) as (m' & x' & E4 & Ha & Hcell' & Hx' & Ho).
  assert (Hpos : 0 < count A r) by (rewrite Hcount, E, length_app; simpl; lia).
  unfold AllocStat_RemoveRMap. rewrite E1', E2, (get_ok _ _ _ (c_count _ _ _ Hc r ltac:(lia))).
  cbn [mbind res_bind]. destruct (Z.ltb_spec 0 (count A r)); [|lia]. cbn [assert_or mbind res_bind].
  rewrite Hn. rewrite <- Hcount in E4. rewrite E4. cbn [mbind res_bind].
  destruct (change_count_spec h m A (count A r) (-1) v0 r Hc Hr eq_refl) as (rc & E5 & Hl & Hrc); [lia| |].
  { intros Hd. destruct (a_pair _ Hw _ _ Hv Hd) as [Hr1 _]. split; [done|]. by apply (pair_count A r v0). }
  rewrite E5. cbn [mbind res_bind]. eexists _, m'. split; [done|]. split; [done|].
  apply (proj2 (and_assoc _ _ _)). split; [|done].
  apply cells_update; try done; rewrite ?E'; try done.
  - lia.
  - by apply unplace_awf.
  - intros r' Hne. by apply (unplace_other A r).
  - intros r' Hr'. rewrite Hrc by done. by rewrite (unplace_count A r).
  - intros H2. right. rewrite Hx' by done. split; [|done]. rewrite E, length_app. rewrite length_app in H2. simpl. lia.
  - intros p Hu. by rewrite Ha.
  - intros p t Hu Hno Ht. rewrite Ho; [done|]. intros [H2 ->]. by apply Hno.
Qed.

(** ** The map from variables *)

Lemma maps_bound mp A n : maps mp A -> 0 <= n < numVars -> exists r, zlookup mp n = Some r.
Proof. intros HM Hn. apply zlookup_is_Some. by rewrite (p_len _ _ HM). Qed.

(** Where a variable is, or that it is nowhere. *)
Lemma maps_find mp A n : maps mp A -> awf A -> 0 <= n < numVars ->
  exists r, zlookup mp n = Some r /\
  (r = -1 /\ (forall r' v, v ∈ A r' -> num v <> n) \/ exists v, v ∈ A r /\ num v = n).
Proof.
  intros HM Hw Hn. destruct (maps_bound mp A n HM Hn) as [r Hr]. exists r. split; [done|].
  destruct (p_out _ _ HM n r Hr) as [->|?]; [left|by right]. split; [done|]. intros r' v Hv <-.
  rewrite (p_in _ _ HM r' v Hv) in Hr. injection Hr as ->. destruct (a_var _ Hw _ _ Hv). lia.
Qed.

Lemma maps_unplace mp A n : maps mp A -> 0 <= n < numVars -> maps (<[Z.to_nat n := -1]> mp) (unplace n A).
Proof.
  intros HM Hn. assert (Hb : 0 <= n < Z.of_nat (length mp)) by (by rewrite (p_len _ _ HM)). constructor.
  - rewrite length_insert. apply HM.
  - intros r v [Hv Hne]%unplace_incl. rewrite zlookup_put, decide_False by done. by apply HM.
  - intros n' r. rewrite zlookup_put by done. case_decide; [intros [= <-]; by left|].
    intros Hr. destruct (p_out _ _ HM n' r Hr) as [|(v & Hv & <-)]; [by left|right]. exists v.
    split; [|done]. unfold unplace. by apply list_elem_of_filter.
Qed.

Lemma maps_place mp A v r : maps mp A -> fits A v r -> maps (<[Z.to_nat (num v) := r]> mp) (place v r A).
Proof.
  intros HM HF. destruct (f_good _ _ _ HF) as [Hn _].
  assert (Hb : 0 <= num v < Z.of_nat (length mp)) by (by rewrite (p_len _ _ HM)). constructor.
  - rewrite length_insert. apply HM.
  - intros r' v' [Hv| [-> ->]]%elem_of_place; rewrite zlookup_put by done; [|by rewrite decide_True].
    rewrite decide_False; [by apply HM|]. intros E. by apply (f_new _ _ _ HF r' v' Hv).
  - intros n' r'. rewrite zlookup_put by done. case_decide as E.
    + intros [= <-]. right. exists v. split; [|done]. apply elem_of_place. auto.
    + intros Hr. destruct (p_out _ _ HM n' r' Hr) as [|(v' & Hv & <-)]; [by left|right]. exists v'.
      split; [|done]. apply elem_of_place. auto.
Qed.

(** Moved or new, the variable is where it was put. *)
Lemma maps_move mp A v r : maps mp A -> fits (unplace (num v) A) v r ->
  maps (<[Z.to_nat (num v) := r]> mp) (place v r (unplace (num v) A)).
Proof.
  intros HM HF. rewrite <- (list_insert_insert_eq mp _ r (-1)). apply maps_place; [|done].
  apply maps_unplace; [done|]. apply (f_good _ _ _ HF).
Qed.

Lemma unplace_absent A n : (forall r v, v ∈ A r -> num v <> n) -> forall r, unplace n A r = A r.
Proof. intros Hn r. apply filter_all. apply Hn. Qed.

(** ** The operations *)

Definition does (f : mem S -> res failure (AllocStat * mem S)) h m A A' (k : nat) : Prop :=
  exists g m', f m = Ok (g, m') /\ repr g m' A' /\ evolves h A m g A' m' /\ room k (arena m').

Lemma cells_map h m A mp : cells h m A <-> cells (mkStat mp (rmap h) (refcount h)) m A.
Proof. split; intros [H1 H2 H3 H4 H5 H6]; by constructor. Qed.

Lemma evolves_map h A m mp g A' m' : evolves (mkStat mp (rmap h) (refcount h)) A m g A' m' <-> evolves h A m g A' m'.
Proof. split; intros [H1 H2 H3]; (constructor; [exact H1|exact H2|exact H3]). Qed.

Lemma evolves_ext h A m A1 : (forall r, A r = A1 r) -> evolves h A m h A1 m.
Proof. intros E. constructor; [done|done|]. intros p (r & Hl & Hp). left. exists r. by rewrite E. Qed.

Lemma Insert_spec h m A v r k : repr h m A -> fits (unplace (num v) A) v r -> r < 2048 ->
  room (Datatypes.S k) (arena m) ->
  does (AllocStat_Insert cfg h v r) h m A (place v r (unplace (num v) A)) k.
Proof.
  intros [Hc HM] HF Hd Hk. pose proof (f_good _ _ _ HF) as Hg. pose proof (f_loc _ _ _ HF) as Hr.
  destruct (good_checks A v r Hg Hr) as (E1 & E2 & E3). unfold does, AllocStat_Insert.
  rewrite E1, E2, E3. cbn [assert_or mbind res_bind].
  destruct (maps_find _ _ (num v) HM (c_wf _ _ _ Hc) (proj1 Hg)) as (old & Hold & Hcase).
  rewrite (get_ok _ _ _ Hold). cbn [mbind res_bind].
  assert (exists h1 m1, (if 0 <? old then AllocStat_RemoveRMap cfg h v old m else Ok (h, m)) = Ok (h1, m1) /\
    map h1 = map h /\ cells h1 m1 (unplace (num v) A) /\ evolves h A m h1 (unplace (num v) A) m1 /\ arena m1 = arena m)
    as (h1 & m1 & E4 & Hmap & Hc1 & He1 & Ha1).
  { destruct Hcase as [[-> Hno]|(v0 & Hv0 & Hn)].
    - exists h, m. split; [done|]. split; [done|]. assert (forall r', A r' = unplace (num v) A r') as E by (intros r'; symmetry; by apply unplace_absent).
      split; [by eapply cells_ext|]. split; [|done]. by apply evolves_ext.
    - destruct (a_var _ (c_wf _ _ _ Hc) _ _ Hv0). destruct (Z.ltb_spec 0 old); [|lia].
      by apply (rmap_remove_spec h m A v v0). }
  rewrite E4. cbn [mbind res_bind].
  rewrite Hmap, put_ok by (rewrite (p_len _ _ HM); apply Hg). cbn [mbind res_bind].
  set (mp := <[Z.to_nat (num v) := r]> (map h)).
  destruct (append_spec (mkStat mp (rmap h1) (refcount h1)) m1 (unplace (num v) A) v r k) as (g & m2 & E5 & Hmap2 & Hc2 & He2 & Hk2);
    [by apply cells_map|done|by rewrite Ha1|].
  rewrite E5. cbn [mbind res_bind]. unfold set_dirty. destruct (Z.leb_spec 0 r); [|lia]. destruct (Z.ltb_spec r 2048); [|lia].
  cbn [andb assert_or mbind res_bind]. exists g, m2. split; [done|]. split; [|split; [|done]].
  - split; [done|]. rewrite Hmap2. by apply maps_move.
  - eapply evolves_trans; [done|]. by apply evolves_map in He2.
Qed.

Lemma Erase_spec h m A v v0 r k : repr h m A -> v0 ∈ A r -> num v = num v0 -> room k (arena m) ->
  does (AllocStat_Erase cfg h v) h m A (unplace (num v) A) k.
Proof.
  intros [Hc HM] Hv Hn Hk. destruct (a_var _ (c_wf _ _ _ Hc) _ _ Hv) as [Hr Hg].
  destruct (good_checks A v0 r Hg Hr) as (E1 & _). unfold does, AllocStat_Erase.
  assert (E1' : check_var cfg v = Ok tt) by (unfold check_var in *; by rewrite Hn).
  rewrite E1'. cbn [mbind res_bind]. rewrite Hn, (get_ok _ _ _ (p_in _ _ HM r v0 Hv)). cbn [mbind res_bind].
  rewrite put_ok by (rewrite (p_len _ _ HM); apply Hg). cbn [mbind res_bind].
  set (mp := <[Z.to_nat (num v0) := -1]> (map h)).
  destruct (rmap_remove_spec (mkStat mp (rmap h) (refcount h)) m A v v0 r) as (g & m' & E2 & Hmap & Hc' & He & Ha);
    [by apply cells_map|done|done|].
  rewrite <- Hn. exists g, m'. split; [done|]. split; [|split; [by apply evolves_map in He|by rewrite Ha]].
  split; [done|]. rewrite Hmap. simpl. unfold mp. rewrite <- Hn. apply maps_unplace; [done|]. rewrite Hn. apply Hg.
Qed.

Lemma get_count h m A r : cells h m A -> 0 < r < numLocs -> AllocStat_GetRefCount cfg h r = Ok (count A r).
Proof.
  intros Hc Hr. unfold AllocStat_GetRefCount, check_loc. destruct (Z.ltb_spec 0 r); [|lia].
  destruct (Z.ltb_spec r numLocs); [|lia]. apply get_ok, Hc. lia.
Qed.

Lemma ChangeMappedReg_spec h m A v v0 old r k : repr h m A -> v0 ∈ A old -> num v = num v0 ->
  fits (unplace (num v) A) v r -> room (Datatypes.S k) (arena m) ->
  does (AllocStat_ChangeMappedReg cfg h v r) h m A (place v r (unplace (num v) A)) k.
Proof.
  intros [Hc HM] Hv Hn HF Hk. pose proof (f_good _ _ _ HF) as Hg. pose proof (f_loc _ _ _ HF) as Hr.
  destruct (good_checks A v r Hg Hr) as (E1 & E2 & _). unfold does, AllocStat_ChangeMappedReg.
  rewrite E1, E2. cbn [mbind res_bind]. rewrite (get_ok _ _ old) by (rewrite Hn; by apply HM). cbn [mbind res_bind].
  rewrite put_ok by (rewrite (p_len _ _ HM); apply Hg). cbn [mbind res_bind].
  set (mp := <[Z.to_nat (num v) := r]> (map h)).
  destruct (rmap_remove_spec (mkStat mp (rmap h) (refcount h)) m A v v0 old) as (h1 & m1 & E3 & Hmap & Hc1 & He1 & Ha1);
    [by apply cells_map|done|done|].
  rewrite E3. cbn [mbind res_bind].
  destruct (append_spec h1 m1 (unplace (num v) A) v r k) as (g & m2 & E4 & Hmap2 & Hc2 & He2 & Hk2); [done|done|by rewrite Ha1|].
  rewrite E4. cbn [mbind res_bind]. exists g, m2. split; [|split; [|split; [|done]]].
  - fold (isd v). destruct (isd v) eqn:Hd; [|done]. destruct (f_pair _ _ _ HF Hd) as [Hr1 _].
    rewrite !(get_count g m2 _ _ Hc2) by lia. cbn [mbind res_bind].
    rewrite (pair_count _ r v), Z.eqb_refl; [done|apply Hc2| |done]. apply elem_of_place. auto.
  - split; [done|]. rewrite Hmap2, Hmap. by apply maps_move.
  - eapply evolves_trans; [|done]. by apply evolves_map in He1.
Qed.

(** *** Moving a whole location *)

Definition move (r1 r2 : Z) A : Z -> list Z :=
  fun r => if decide (r = r2) then A r1 else if decide (r = r1) then [] else A r.

Record movable A (r1 r2 : Z) : Prop := {
  m_some : A r1 <> [];
  m_loc : 0 < r2 < numLocs /\ r1 < 2 ^ 18 /\ r2 < 2 ^ 18;
  m_free : count A r2 = 0;
  m_pair : dbl (A r1) = true -> r2 + 1 < numLocs /\ count A (r2 + 1) = 0 }.

Lemma head_dbl A r v : awf A -> v ∈ A r -> dbl (A r) = isd v.
Proof.
  intros Hw Hv. destruct (A r) as [|w l] eqn:E; [by apply elem_of_nil in Hv|]. simpl.
  apply (a_same _ Hw r); rewrite E; [left|done].
Qed.

Lemma some_in A r : A r <> [] -> exists v, v ∈ A r.
Proof. destruct (A r) as [|v l]; [done|]. exists v. left. Qed.

Lemma movable_ne A r1 r2 : awf A -> movable A r1 r2 -> r1 <> r2 /\
  (dbl (A r1) = true -> r2 <> r1 + 1 /\ r2 + 1 <> r1 /\ r1 + 1 < numLocs /\ A (r1 + 1) = [] /\ count A (r1 + 1) = count A r1).
Proof.
  intros Hw [M1 M2 M3 M4]. destruct (some_in A r1 M1) as [v Hv].
  assert (Hpos : 0 < count A r1) by (rewrite (count_in A r1 v) by done; destruct (A r1); [done|simpl; lia]).
  split; [intros ->; lia|]. intros Hd. destruct (M4 Hd) as [_ H0]. pose proof (head_dbl A r1 v Hw Hv) as Hd'.
  rewrite Hd in Hd'. symmetry in Hd'. destruct (a_pair _ Hw _ _ Hv Hd') as [? ?]. pose proof (pair_count A r1 v Hw Hv Hd') as Hp.
  split_and!; try done; intros E; [subst r2|rewrite E in H0]; lia.
Qed.

Lemma move_incl A r1 r2 r v : awf A -> movable A r1 r2 -> v ∈ move r1 r2 A r ->
  exists r', v ∈ A r' /\ (r' = r1 /\ r = r2 \/ r' <> r1 /\ r = r').
Proof.
  intros Hw HM. unfold move. repeat case_decide; subst.
  - intros Hv. exists r1. auto.
  - by intros ?%elem_of_nil.
  - intros Hv. exists r. split; [done|]. right. auto.
Qed.

Lemma move_awf A r1 r2 : awf A -> movable A r1 r2 -> awf (move r1 r2 A).
Proof.
  intros Hw HM. pose proof Hw as [H1 H2 H3 H4 H5]. pose proof HM as [M1 M2 M3 M4].
  destruct (count_zero _ _ M3) as [Hn2 Hd2]. destruct (movable_ne A r1 r2 Hw HM) as [Hne Hdb]. constructor.
  - intros r v (r' & Hv & [[-> ->]|[_ ->]])%move_incl; [|by apply H1|done..]. split; [apply M2|by apply (H1 r1)].
  - intros r r' v v' (s & Hv & Hs)%move_incl (s' & Hv' & Hs')%move_incl E; [|done..].
    destruct (H2 _ _ _ _ Hv Hv' E) as [-> ->]. split; [|done]. destruct Hs as [[? ?]|[? ?]], Hs' as [[? ?]|[? ?]]; congruence.
  - intros r. unfold move. repeat case_decide; [apply H3|apply NoDup_nil_2|apply H3].
  - intros r v v'. unfold move. repeat case_decide; [apply H4|by intros ?%elem_of_nil|apply H4].
  - intros r v (r' & Hv & Hr)%move_incl Hd; [|done..]. pose proof (head_dbl A r' v Hw Hv) as Hd'. rewrite Hd in Hd'.
    destruct Hr as [[-> ->]|[Hr ->]].
    + destruct (M4 Hd') as [Hb H0]. split; [done|]. apply count_zero in H0 as [H0 _]. unfold move.
      rewrite decide_False by lia. by case_decide.
    + destruct (H5 _ _ Hv Hd) as [Hb Hn]. split; [done|]. unfold move. rewrite decide_False; [by case_decide|].
      intros <-. replace (r' + 1 - 1) with r' in Hd2 by lia. congruence.
Qed.

Lemma move_count A r1 r2 r : awf A -> movable A r1 r2 ->
  count (move r1 r2 A) r =
  if decide (r = r2) then count A r1
  else if decide (r = r1) then 0
  else if decide (r = r2 + 1) then if dbl (A r1) then count A r1 else count A r
  else if decide (r = r1 + 1) then if dbl (A r1) then 0 else count A r
  else count A r.
Proof.
  intros Hw HM. pose proof HM as [M1 M2 M3 M4]. destruct (count_zero _ _ M3) as [Hn2 Hd2].
  destruct (movable_ne A r1 r2 Hw HM) as [Hne Hdb]. destruct (some_in A r1 M1) as [v Hv].
  pose proof (count_in A r1 v Hw Hv) as Hc1. pose proof (not_second A r1 v Hw Hv) as Hd1.
  unfold count at 1, move. destruct (decide (r = r2)) as [->|Hr2].
  - rewrite (decide_False (P := r2 - 1 = r2)) by lia. destruct (decide (r2 - 1 = r1)); [simpl; lia|]. rewrite Hd2. lia.
  - destruct (decide (r = r1)) as [->|Hr1].
    + destruct (decide (r1 - 1 = r2)) as [E|].
      * destruct (dbl (A r1)) eqn:Ed; [|done]. destruct (Hdb eq_refl). lia.
      * rewrite decide_False, Hd1 by lia. done.
    + destruct (decide (r = r2 + 1)) as [->|Hr2'].
      * replace (r2 + 1 - 1) with r2 by lia. rewrite decide_True by done. unfold count.
        replace (r2 + 1 - 1) with r2 by lia. rewrite Hn2. destruct (dbl (A r1)) eqn:Ed; [|done].
        destruct (M4 eq_refl) as [_ H0]. apply count_zero in H0 as [-> _]. rewrite Hd1. simpl. lia.
      * rewrite (decide_False (P := r - 1 = r2)) by lia. destruct (decide (r = r1 + 1)) as [->|Hr1'].
        -- replace (r1 + 1 - 1) with r1 by lia. rewrite decide_True by done. unfold count.
           replace (r1 + 1 - 1) with r1 by lia. destruct (dbl (A r1)) eqn:Ed; [|simpl; lia].
           destruct (Hdb eq_refl) as (_ & _ & _ & -> & _). done.
        -- rewrite decide_False by lia. done.
Qed.

Lemma redirect_spec r1 r2 : forall l pre rest mp, NoDup (num <$> l) ->
  (forall v, v ∈ l -> 0 <= num v < Z.of_nat (length mp) /\ zlookup mp (num v) = Some r1) ->
  exists mp', redirect cfg (length l) (Z.of_nat (length pre)) (pre ++ l ++ rest) r1 r2 mp = Ok mp' /\
    length mp' = length mp /\
    forall n, zlookup mp' n = if decide (n ∈ num <$> l) then Some r2 else zlookup mp n.
Proof.
  induction l as [|v l IH]; intros pre rest mp Hnd Hl; cbn [redirect length].
  - exists mp. split; [done|]. split; [done|]. intros n. rewrite decide_False; [done|]. by intros ?%elem_of_nil.
  - rewrite (get_ok _ _ v) by (rewrite zlookup_nat; by apply list_lookup_middle). cbn [mbind res_bind].
    destruct (Hl v ltac:(left)) as [Hb Hv]. rewrite (get_ok _ _ _ Hv). cbn [mbind res_bind].
    rewrite Z.eqb_refl, put_ok by done. cbn [assert_or mbind res_bind].
    rewrite fmap_cons in Hnd. apply NoDup_cons in Hnd as [Hn Hnd].
    assert (Hlook : forall n, zlookup (<[Z.to_nat (num v) := r2]> mp) n = if decide (num v = n) then Some r2 else zlookup mp n)
      by (intros n; by apply zlookup_put).
    destruct (IH (pre ++ [v]) rest (<[Z.to_nat (num v) := r2]> mp)) as (mp' & E & Hlen & Hmp); [done| |].
    { intros w Hw. rewrite length_insert, Hlook, decide_False; [by apply Hl; right|].
      intros E. apply Hn. rewrite E. by apply list_elem_of_fmap_2. }
    replace (Z.of_nat (length pre) + 1) with (Z.of_nat (length (pre ++ [v]))) by (rewrite length_app; simpl; lia).
    replace (pre ++ (v :: l) ++ rest) with ((pre ++ [v]) ++ l ++ rest) by (by rewrite <- app_assoc).
    exists mp'. split; [done|]. split; [by rewrite Hlen, length_insert|]. intros n. rewrite Hmp, Hlook, fmap_cons.
    destruct (decide (n ∈ num <$> l)); [rewrite decide_True by (by right); done|].
    destruct (decide (num v = n)) as [<-|]; [rewrite decide_True by left; done|].
    rewrite decide_False; [done|]. intros [?|?]%elem_of_cons; congruence.
Qed.

Lemma move_maps mp mp' A r1 r2 : maps mp A -> awf A -> movable A r1 r2 -> length mp' = length mp ->
  (forall n, zlookup mp' n = if decide (n ∈ num <$> A r1) then Some r2 else zlookup mp n) -> maps mp' (move r1 r2 A).
Proof.
  intros [P1 P2 P3] Hw HM Hlen Hmp. destruct (movable_ne A r1 r2 Hw HM) as [Hne _].
  destruct (count_zero _ _ (m_free _ _ _ HM)) as [Hn2 _]. constructor; [by rewrite Hlen| |].
  - intros r v (r' & Hv & Hr)%move_incl; [|done..]. rewrite Hmp. destruct Hr as [[-> ->]|[Hr ->]].
    + by rewrite decide_True by (by apply list_elem_of_fmap_2).
    + rewrite decide_False; [by apply P2|]. intros (w & E & Hw')%list_elem_of_fmap.
      by destruct (a_uniq _ Hw _ _ _ _ Hv Hw' E).
  - intros n r. rewrite Hmp. case_decide as Hn.
    + intros [= <-]. right. apply list_elem_of_fmap in Hn as (w & -> & Hw'). exists w. split; [|done].
      unfold move. by rewrite decide_True.
    + intros Hr. destruct (P3 n r Hr) as [|(v & Hv & <-)]; [by left|right]. exists v. split; [|done].
      unfold move. repeat case_decide; subst; [|by destruct Hn; apply list_elem_of_fmap_2|done].
      rewrite Hn2 in Hv. by apply elem_of_nil in Hv.
Qed.

Lemma move_cells h m A r1 r2 mp x rc : cells h m A -> movable A r1 r2 -> 0 <= r1 < numLocs ->
  zlookup (rmap h) r1 = Some x -> Z.of_nat (length rc) = numLocs ->
  (forall r, 0 <= r < numLocs -> zlookup rc r = Some (count (move r1 r2 A) r)) ->
  let g := mkStat mp (<[Z.to_nat r1 := 0]> (<[Z.to_nat r2 := x]> (rmap h))) rc in
  cells g m (move r1 r2 A) /\ evolves h A m g (move r1 r2 A) m.
Proof.
  intros Hc HM Hr1 Hx Hl Hrc g. pose proof (c_wf _ _ _ Hc) as Hw. destruct (movable_ne A r1 r2 Hw HM) as [Hne _].
  pose proof (m_loc _ _ _ HM) as [Hr2 _]. pose proof (c_rmap _ _ _ Hc) as Hlr.
  assert (Hlook : forall r, zlookup (rmap g) r = if decide (r1 = r) then Some 0 else if decide (r2 = r) then Some x else zlookup (rmap h) r).
  { intros r. unfold g. simpl. rewrite zlookup_put by (rewrite length_insert; lia). case_decide; [done|]. rewrite zlookup_put by lia. done. }
  assert (Hsrc : forall r y, (2 <= length (move r1 r2 A r))%nat -> zlookup (rmap g) r = Some y ->
    exists r', (2 <= length (A r'))%nat /\ zlookup (rmap h) r' = Some y /\ (r' = r1 /\ r = r2 \/ r' <> r1 /\ r' <> r2 /\ r' = r)).
  { intros r y. rewrite Hlook. unfold move. repeat case_decide; simplify_eq; try (simpl; lia); intros ? ?; simplify_eq.
    - exists r1. auto.
    - exists r. auto 6. }
  split; constructor; auto.
  - by apply move_awf.
  - simpl. rewrite !length_insert. done.
  - intros r Hr. rewrite Hlook. unfold move. destruct (decide (r1 = r)) as [<-|].
    + rewrite decide_False, decide_True by done. by exists 0.
    + destruct (decide (r2 = r)) as [<-|].
      * rewrite decide_True by done. exists x. split; [done|]. destruct (c_cell _ _ _ Hc r1 Hr1) as (y & Hy & ?). by simplify_eq.
      * rewrite !decide_False by done. by apply Hc.
  - intros r r' y H2 H2' Hy Hy'. destruct (Hsrc r y H2 Hy) as (s & Hs & Hsy & Hcs), (Hsrc r' y H2' Hy') as (s' & Hs' & Hsy' & Hcs').
    pose proof (c_apart _ _ _ Hc s s' y Hs Hs' Hsy Hsy'). intuition congruence.
  - intros p (r & H2 & Hp). left. destruct (Hsrc r p H2 Hp) as (s & Hs & Hsp & _). by exists s.
Qed.

Lemma find_variables_spec h m A r x l g : cell m x l -> l <> [] -> 0 < r < numLocs ->
  zlookup (refcount g) r = Some (Z.of_nat (length l)) -> zlookup (rmap g) r = Some x ->
  exists rest, AllocStat_Find_variables cfg g m r = Ok (l ++ rest).
Proof.
  intros Hcell Hl Hr Hc Hx. unfold AllocStat_Find_variables, check_loc. destruct (Z.ltb_spec 0 r); [|lia].
  destruct (Z.ltb_spec r numLocs); [|lia]. cbn [andb assert_or mbind res_bind].
  rewrite (get_ok _ _ _ Hc), (get_ok _ _ _ Hx). cbn [mbind res_bind]. destruct l as [|v [|w l]]; [done|..].
  - simpl in Hcell. subst x. exists []. done.
  - destruct Hcell as (_ & _ & t & Ht & Htake). apply take_app_inv in Htake as [rest ->]. exists rest.
    set (c := Z.of_nat _). assert (2 <= c) by (unfold c; simpl; lia).
    destruct (Z.eqb_spec c 0); [lia|]. destruct (Z.eqb_spec c 1); [lia|]. unfold array_at. by rewrite Ht.
Qed.

(** The counts [ChangeReg] computes. *)
Lemma move_refcount h m A r1 r2 : cells h m A -> movable A r1 r2 -> 0 < r1 < numLocs ->
  let rc := <[Z.to_nat r1 := 0]> (<[Z.to_nat r2 := count A r1]> (refcount h)) in
  zlookup rc r2 = Some (count A r1) /\
  exists rc', (if dbl (A r1) then
      d ← get rc (r1 + 1); rc ← put rc (r2 + 1) d; rc ← put rc (r1 + 1) 0;
      a ← get rc r2; b ← get rc (r2 + 1);
      assert_or AssertionFailed (a =? b);; Ok rc
    else Ok rc) = Ok rc' /\ Z.of_nat (length rc') = numLocs /\
    (forall r, 0 <= r < numLocs -> zlookup rc' r = Some (count (move r1 r2 A) r)).
Proof.
  intros Hc HM Hr1 rc. pose proof (c_wf _ _ _ Hc) as Hw. destruct (movable_ne A r1 r2 Hw HM) as [Hne Hdb].
  pose proof (m_loc _ _ _ HM) as [Hr2 _]. pose proof (c_len _ _ _ Hc) as Hl.
  assert (L : Z.of_nat (length rc) = numLocs) by (unfold rc; by rewrite !length_insert).
  assert (G : forall r, 0 <= r < numLocs -> zlookup rc r =
    Some (if decide (r1 = r) then 0 else if decide (r2 = r) then count A r1 else count A r)).
  { intros r Hr. unfold rc. rewrite zlookup_put by (rewrite length_insert; lia). case_decide; [done|].
    rewrite zlookup_put by lia. case_decide; [done|]. by apply Hc. }
  split; [by rewrite G, decide_False, decide_True by lia|].
  destruct (dbl (A r1)) eqn:Ed.
  - destruct (Hdb eq_refl) as (N1 & N2 & Hb & _ & Hp). destruct (m_pair _ _ _ HM Ed) as [Hb2 H0].
    rewrite (get_ok _ _ _ (G (r1 + 1) ltac:(lia))), !decide_False, Hp by lia. cbn [mbind res_bind].
    rewrite put_ok by lia. cbn [mbind res_bind]. rewrite put_ok by (rewrite length_insert; lia). cbn [mbind res_bind].
    set (rc' := <[Z.to_nat (r1 + 1) := 0]> _).
    assert (G' : forall r, 0 <= r < numLocs -> zlookup rc' r = Some (if decide (r1 + 1 = r) then 0
      else if decide (r2 + 1 = r) then count A r1 else if decide (r1 = r) then 0
      else if decide (r2 = r) then count A r1 else count A r)).
    { intros r Hr. unfold rc'. rewrite zlookup_put by (rewrite length_insert; lia). case_decide; [done|].
      rewrite zlookup_put by lia. case_decide; [done|]. by apply G. }
    rewrite (get_ok _ _ _ (G' r2 ltac:(lia))), (get_ok _ _ _ (G' (r2 + 1) ltac:(lia))). cbn [mbind res_bind].
    rewrite !(decide_False (P := r1 + 1 = _)), (decide_False (P := r2 + 1 = r2)), (decide_True (P := r2 + 1 = _)),
      (decide_False (P := r1 = r2)), (decide_True (P := r2 = r2)) by lia. rewrite Z.eqb_refl.
    exists rc'. split; [done|]. split; [unfold rc'; by rewrite !length_insert|].
    intros r Hr. rewrite G', move_count by done. rewrite Ed. repeat case_decide; try lia; done.
  - exists rc. split; [done|]. split; [done|]. intros r Hr. rewrite G, move_count by done. rewrite Ed.
    repeat case_decide; try lia; done.
Qed.

Lemma is_register r : 0 <= r < 2 ^ 18 -> Reg_IsRegister r = true.
Proof.
  intros Hr. unfold Reg_IsRegister. rewrite Z.land_comm, mask_mod. apply Z.eqb_eq. by apply Z.mod_small.
Qed.

Lemma ChangeReg_spec h m A r1 r2 k : repr h m A -> movable A r1 r2 -> room k (arena m) ->
  does (AllocStat_ChangeReg cfg h r1 r2) h m A (move r1 r2 A) k.
Proof.
  intros [Hc HM] HV Hk. pose proof (c_wf _ _ _ Hc) as Hw. destruct (movable_ne A r1 r2 Hw HV) as [Hne _].
  pose proof (m_loc _ _ _ HV) as (Hr2 & Hb1 & Hb2). destruct (some_in A r1 (m_some _ _ _ HV)) as [v Hv].
  destruct (a_var _ Hw _ _ Hv) as [Hr1 _]. pose proof (count_in A r1 v Hw Hv) as Hcount.
  assert (Hpos : 0 < count A r1) by (rewrite Hcount; destruct (A r1); [by apply elem_of_nil in Hv|simpl; lia]).
  unfold does, AllocStat_ChangeReg. rewrite !is_register by lia. cbn [andb assert_or mbind res_bind].
  rewrite (get_count h m A r1 Hc Hr1), (get_count h m A r2 Hc Hr2), (m_free _ _ _ HV). cbn [mbind res_bind].
  destruct (Z.ltb_spec 0 (count A r1)); [|lia]. cbn [Z.eqb assert_or mbind res_bind].
  destruct (c_cell _ _ _ Hc r1) as (x & Hx & Hcell); [lia|]. rewrite (get_ok _ _ _ Hx). cbn [mbind res_bind].
  rewrite !put_ok by (rewrite ?length_insert, ?(c_rmap _ _ _ Hc), ?(c_len _ _ _ Hc); lia). cbn [mbind res_bind].
  rewrite !put_ok by (rewrite ?length_insert, ?(c_rmap _ _ _ Hc), ?(c_len _ _ _ Hc); lia). cbn [mbind res_bind].
  destruct (move_refcount h m A r1 r2 Hc HV Hr1) as [Hrc2 (rc' & E1 & Hl & Hrc)].
  set (rm := <[Z.to_nat r1 := 0]> (<[Z.to_nat r2 := x]> (rmap h))) in *.
  set (rc := <[Z.to_nat r1 := 0]> (<[Z.to_nat r2 := count A r1]> (refcount h))) in *.
  destruct (find_variables_spec h m A r2 x (A r1) (mkStat (map h) rm rc) Hcell (m_some _ _ _ HV) Hr2) as [rest E2].
  { simpl. by rewrite Hrc2, Hcount. }
  { simpl. unfold rm. rewrite zlookup_put, decide_False by (done || rewrite ?length_insert, ?(c_rmap _ _ _ Hc); lia).
    by rewrite zlookup_put, decide_True by (done || rewrite ?(c_rmap _ _ _ Hc); lia). }
  rewrite E2. cbn [mbind res_bind]. destruct (A r1) as [|t0 l] eqn:EA; [by apply elem_of_nil in Hv|].
  rewrite <- EA in *. assert (Et : get (A r1 ++ rest) 0 = Ok t0) by (by rewrite EA). rewrite Et. cbn [mbind res_bind].
  assert (Ed : dbl (A r1) = (Var_GetType t0 =? T_DOUBLE)) by (by rewrite EA). rewrite Ed in E1. rewrite E1. cbn [mbind res_bind].
  rewrite (get_ok _ _ _ (Hrc r2 ltac:(lia))), (move_count A r1 r2) by done. rewrite decide_True by done. cbn [mbind res_bind].
  rewrite Hcount, Nat2Z.id.
  destruct (redirect_spec r1 r2 (A r1) [] rest (map h)) as (mp & E3 & Hml & Hmp).
  { apply NoDup_fmap_2_strong; [|apply Hw]. intros a b Ha Hb E. by apply (a_uniq _ Hw _ _ _ _ Ha Hb E). }
  { intros w Hw'. split; [rewrite (p_len _ _ HM); by apply (a_var _ Hw _ _ Hw')|by apply HM]. }
  change (Z.of_nat (@length Z [])) with 0 in E3. cbn [app] in E3. rewrite E3. cbn [mbind res_bind].
  destruct (move_cells h m A r1 r2 mp x rc' Hc HV ltac:(lia) Hx Hl Hrc) as [Hc' He]. fold rm in Hc', He.
  rewrite (get_count _ m _ r1 Hc' Hr1), (get_count _ m _ r2 Hc' Hr2), !move_count by done. cbn [mbind res_bind].
  rewrite (decide_False (P := r1 = r2)), !decide_True by done. destruct (Z.ltb_spec 0 (count A r1)); [|lia].
  cbn [Z.eqb assert_or mbind res_bind]. eexists _, m. split; [done|]. split; [|split; [done|done]].
  split; [done|]. simpl. by apply (move_maps (map h)).
Qed.

End RegMap.
