(* ===== verification/AllocLaws.v ===== *)
(** * What the state of register allocation promises

    Sequences of operations refine a map from locations to variables; copies are
    independent; comparison decides equality of the maps; the searches find
    locations the operations accept, and there always is a spill slot for one
    word. *)

From stdpp Require Import functions.
From S2P Require Import Prelude PseudoReg FastMem BitVector AllocStat RegMap.

(** The operations the register allocator performs on a status. *)
Inductive alloc_op :=
| OInsert (v r : Z)
| OErase (v : Z)
| OChangeMappedReg (v r : Z)
| OChangeReg (r1 r2 : Z).

Section AllocLaws.
Context {S : Type} `{Arena S} (cfg : CFG).
Implicit Types (h : AllocStat) (m : mem S) (A : Z -> list Z).

Abbreviation numVars := (CFG_GetNumOfVars cfg).
Abbreviation numLocs := (CFG_GetNumOfStorageLocations cfg).
Abbreviation num := (CFG_get_var_number cfg).

Hypothesis Hcfg : 0 <= numVars < 2 ^ 24.

(** ** Sequences of operations *)

Definition run_op (o : alloc_op) (h : AllocStat) (m : mem S) : res failure (AllocStat * mem S) :=
  match o with
  | OInsert v r => AllocStat_Insert cfg h v r m
  | OErase v => AllocStat_Erase cfg h v m
  | OChangeMappedReg v r => AllocStat_ChangeMappedReg cfg h v r m
  | OChangeReg r1 r2 => AllocStat_ChangeReg cfg h r1 r2 m
  end.

Fixpoint run_ops (l : list alloc_op) (h : AllocStat) (m : mem S) : res failure (AllocStat * mem S) :=
  match l with [] => Ok (h, m) | o :: l => '(h, m) ← run_op o h m; run_ops l h m end.

Definition op_spec (o : alloc_op) A : Z -> list Z :=
  match o with
  | OInsert v r | OChangeMappedReg v r => place v r (unplace cfg (num v) A)
  | OErase v => unplace cfg (num v) A
  | OChangeReg r1 r2 => move r1 r2 A
  end.

Definition placed A (v : Z) : Prop := exists r v', v' ∈ A r /\ num v = num v'.

Definition op_ok (o : alloc_op) A : Prop :=
  match o with
  | OInsert v r => fits cfg (unplace cfg (num v) A) v r /\ r < 2048
  | OErase v => placed A v
  | OChangeMappedReg v r => placed A v /\ fits cfg (unplace cfg (num v) A) v r
  | OChangeReg r1 r2 => movable cfg A r1 r2
  end.

Fixpoint ops_spec (l : list alloc_op) A : Z -> list Z :=
  match l with [] => A | o :: l => ops_spec l (op_spec o A) end.

Fixpoint ops_ok (l : list alloc_op) A : Prop :=
  match l with [] => True | o :: l => op_ok o A /\ ops_ok l (op_spec o A) end.

Lemma run_op_spec o h m A k : repr cfg h m A -> op_ok o A -> room (Datatypes.S k) (arena m) ->
  does cfg (run_op o h) h m A (op_spec o A) k.
Proof.
  intros Hr Ho Hk. destruct o as [v r|v|v r|r1 r2]; simpl in *.
  - apply Insert_spec; [done|done|apply Ho..|done].
  - destruct Ho as (r & v0 & Hv & Hn). eapply Erase_spec; [done|done|done|done|by apply room_le].
  - destruct Ho as [(r' & v0 & Hv & Hn) HF]. by eapply ChangeMappedReg_spec.
  - apply ChangeReg_spec; [done|done|done|by apply room_le].
Qed.

Lemma run_ops_spec l : forall h m A k, repr cfg h m A -> ops_ok l A -> room (length l + k) (arena m) ->
  does cfg (run_ops l h) h m A (ops_spec l A) k.
Proof.
  induction l as [|o l IH]; intros h m A k Hr Hl Hk; cbn [run_ops ops_spec ops_ok length Nat.add] in *.
  - exists h, m. split; [done|]. split; [done|]. split; [apply evolves_refl|done].
  - destruct Hl as [Ho Hl]. destruct (run_op_spec o h m A _ Hr Ho Hk) as (h1 & m1 & E1 & Hr1 & He1 & Hk1).
    destruct (IH h1 m1 _ k Hr1 Hl Hk1) as (h2 & m2 & E2 & Hr2 & He2 & Hk2). unfold does.
    rewrite E1. cbn [mbind res_bind]. exists h2, m2. split; [done|]. split; [done|]. split; [by eapply evolves_trans|done].
Qed.

(** Two statuses without a common array. *)
Definition apart h A g B : Prop := forall p, owns g B p -> ~ owns h A p.

Lemma other_repr h A m h' A' m' g B : evolves h A m h' A' m' -> repr cfg g m B -> apart h A g B ->
  repr cfg g m' B /\ apart h' A' g B.
Proof.
  intros He [Hc HM] Hd. destruct (cells_frame cfg _ _ _ _ _ _ _ _ He Hc Hd) as [? ?]. by split; [split|].
Qed.

(** C11: Any sequence of insertions, removals and changes of locations that
    respects the sizes of variables succeeds, without a failed assertion, and
    acts on the status as the map operations say: the map, the reverse map with
    its arrays and the counts stay consistent, and any other status in memory
    without arrays in common is left as it was. *)
Theorem AllocStat_refines (l : list alloc_op) h m A g B (Hr : repr cfg h m A) (Hl : ops_ok l A)
    (Hk : room (length l) (arena m)) (Hg : repr cfg g m B) (Hd : apart h A g B) :
  exists h' m', run_ops l h m = Ok (h', m') /\ repr cfg h' m' (ops_spec l A) /\
    repr cfg g m' B /\ apart h' (ops_spec l A) g B.
Proof.
  destruct (run_ops_spec l h m A 0 Hr Hl) as (h' & m' & E & Hr' & He & _); [by rewrite Nat.add_0_r|].
  exists h', m'. split; [done|]. split; [done|]. by eapply other_repr.
Qed.

(** ** Copies *)

Lemma grows_trans m m1 m2 : grows m m1 -> grows m1 m2 -> grows m m2.
Proof. intros [U F] [U' F']. split; auto. Qed.

Lemma calloc_spec n m k : 0 < n < 0x0fffffff -> room (Datatypes.S k) (arena m) ->
  exists p m', FMA_calloc n m = Ok (p, m') /\ grows m m' /\ room k (arena m').
Proof.
  intros Hn Hk. unfold FMA_calloc. destruct (arena_spec n k (arena m) Hn Hk) as (p & s & E & Hk' & _ & _ & Hu).
  rewrite E. cbn [mbind res_bind]. exists p, (mkMem (arrays m) s). split; [done|]. split; [|done]. split; [done|]. done.
Qed.

Definition empty_stat : AllocStat :=
  let zeros := replicate (Z.to_nat numLocs) 0 in mkStat (replicate (Z.to_nat numVars) (-1)) zeros zeros.

Lemma empty_repr m : repr cfg empty_stat m (fun _ => []).
Proof.
  assert (Hn : numLocs = 72 + numVars) by done.
  assert (L : forall n i (x : Z), 0 <= i < n -> zlookup (replicate (Z.to_nat n) x) i = Some x).
  { intros n i x Hi. apply zlookup_Some. split; [lia|]. apply lookup_replicate. split; [done|lia]. }
  split; constructor; simpl; rewrite ?length_replicate; try lia.
  - assert (Hno : forall (v : Z) (P : Prop), v ∈ [] -> P) by (intros v P Hin; by apply elem_of_nil in Hin).
    constructor; simpl; [|..|intros _; apply NoDup_nil_2|intros _|]; intros *; exact (Hno _ _).
  - intros r Hr. by rewrite L.
  - intros r Hr. exists 0. by rewrite L.
  - intros r v ?%elem_of_nil. done.
  - intros n r Hr. left. apply zlookup_Some in Hr as [_ Hr]. by apply lookup_replicate in Hr as [-> _].
Qed.

Lemma Init_spec m k : 0 < numVars -> room (3 + k) (arena m) ->
  exists m', AllocStat_Init cfg m = Ok (empty_stat, m') /\ grows m m' /\ room k (arena m').
Proof.
  intros Hv Hk. assert (Hn : numLocs = 72 + numVars) by done. unfold AllocStat_Init.
  rewrite !(wraps_small 32) by (unfold in_s; lia).
  destruct (calloc_spec (numVars * 4) m _ ltac:(lia) Hk) as (p1 & m1 & -> & G1 & K1). cbn [mbind res_bind].
  destruct (calloc_spec (numLocs * 4) m1 _ ltac:(lia) K1) as (p2 & m2 & -> & G2 & K2). cbn [mbind res_bind].
  destruct (calloc_spec (numLocs * 4) m2 _ ltac:(lia) K2) as (p3 & m3 & -> & G3 & K3). cbn [mbind res_bind].
  exists m3. split; [done|]. split; [by eapply grows_trans, grows_trans|done].
Qed.

(** The cells below [i] are copied, to arrays that were not in use. *)
Record cloned A (m0 : mem S) (i : Z) (rm : list Z) (m : mem S) : Prop := {
  k_len : Z.of_nat (length rm) = numLocs;
  k_grows : grows m0 m;
  k_done r : 0 <= r < i -> exists x, zlookup rm r = Some x /\ cell m x (A r) /\
    ((2 <= length (A r))%nat -> ~ in_use (arena m0) x);
  k_rest r : i <= r < numLocs -> zlookup rm r = Some 0;
  k_apart r r' x : 0 <= r < i -> 0 <= r' < i -> (2 <= length (A r))%nat -> (2 <= length (A r'))%nat ->
    zlookup rm r = Some x -> zlookup rm r' = Some x -> r = r' }.

Lemma cell_in_use m x l : cell m x l -> (2 <= length l)%nat -> 0 < x /\ in_use (arena m) x /\
  exists t, arrays m !! x = Some t /\ take (length l) t = l.
Proof. destruct l as [|v [|w l]]; simpl; [lia|lia|done]. Qed.

Lemma cell_grows m m' x l : grows m m' -> cell m x l -> cell m' x l.
Proof.
  intros [U F] Hc. eapply cell_frame; [done|done|]. intros t Hl. apply F. by apply (cell_in_use m x l).
Qed.

Lemma cloned_step A m0 i rm m x m' : 0 <= i < numLocs -> cloned A m0 i rm m -> grows m m' -> cell m' x (A i) ->
  ((2 <= length (A i))%nat -> ~ in_use (arena m) x) -> cloned A m0 (i + 1) (<[Z.to_nat i := x]> rm) m'.
Proof.
  intros Hi [K1 K2 K3 K4 K5] Hg Hx Hf.
  assert (L : forall r, zlookup (<[Z.to_nat i := x]> rm) r = if decide (i = r) then Some x else zlookup rm r)
    by (intros r; apply zlookup_put; lia).
  assert (Hold : forall r y, 0 <= r < i -> (2 <= length (A r))%nat -> zlookup rm r = Some y -> in_use (arena m) y).
  { intros r y Hr H2 Hy. destruct (K3 r Hr) as (z & Hz & Hc & _). simplify_eq. by apply (cell_in_use m y (A r)). }
  constructor.
  - by rewrite length_insert.
  - by eapply grows_trans.
  - intros r Hr. rewrite L. case_decide; [subst r; exists x; split; [done|]; split; [done|]|].
    + intros H2 Hu. apply Hf; [done|]. by apply K2.
    + destruct (K3 r ltac:(lia)) as (y & Hy & Hc & Hn). exists y. split; [done|]. split; [by eapply cell_grows|done].
  - intros r Hr. rewrite L, decide_False by lia. apply K4. lia.
  - intros r r' y Hr Hr' H2 H2'. rewrite !L. repeat case_decide; subst; try done.
    + intros [= <-] Hy. destruct (Hf H2). apply (Hold r'); [lia|done..].
    + intros Hy [= <-]. destruct (Hf H2'). apply (Hold r); [lia|done..].
    + apply K5; [lia|lia|done|done].
Qed.

Lemma clone_cell_spec h m0 A i rm m k : cells cfg h m0 A -> 0 <= i < numLocs -> cloned A m0 i rm m ->
  room (Datatypes.S k) (arena m) ->
  exists rm' m', clone_cell i h rm m = Ok (rm', m') /\ cloned A m0 (i + 1) rm' m' /\ room k (arena m').
Proof.
  intros Hc Hi HK Hk. pose proof HK as [K1 K2 K3 K4 K5]. pose proof (c_wf _ _ _ _ Hc) as Hw.
  destruct (c_cell _ _ _ _ Hc i Hi) as (x & Hx & Hcell). unfold clone_cell.
  rewrite (get_ok _ _ _ (c_count _ _ _ _ Hc i Hi)), (get_ok _ _ _ Hx). cbn [mbind res_bind].
  assert (Hkeep : A i = [] -> cloned A m0 (i + 1) rm m).
  { intros E. replace rm with (<[Z.to_nat i := 0]> rm).
    - eapply cloned_step; [done|done|apply grows_refl|by rewrite E|]. rewrite E. simpl. lia.
    - apply list_insert_id. specialize (K4 i ltac:(lia)). by apply zlookup_Some in K4 as [_ ?]. }
  destruct (A i) as [|v [|w l]] eqn:E.
  - simpl in Hcell. subst x. destruct (Z.eqb_spec (count A i) 1).
    + rewrite put_ok by lia. cbn [mbind res_bind]. eexists _, m. split; [done|]. split; [|by apply room_le].
      eapply cloned_step; [done|done|apply grows_refl|by rewrite E|]. rewrite E. simpl. lia.
    + destruct (Z.ltb_spec 1 (count A i)); [|eexists rm, m; split; [done|]; split; [by apply Hkeep|by apply room_le]].
      cbn [negb Z.eqb]. assert (dbl (A (i - 1)) = true) as Hd.
      { destruct (dbl (A (i - 1))) eqn:Ed; [done|]. unfold count in *. rewrite E, Ed in *. simpl in *. lia. }
      destruct (A (i - 1)) as [|u l] eqn:E'; [done|]. assert (u ∈ A (i - 1)) as Hu by (rewrite E'; left).
      destruct (a_var _ _ Hw _ _ Hu) as [Hb _]. pose proof (pair_count cfg A (i - 1) u Hw Hu Hd) as Hp.
      replace (i - 1 + 1) with i in Hp by lia. rewrite (get_ok _ _ _ (c_count _ _ _ _ Hc (i - 1) ltac:(lia))).
      cbn [mbind res_bind]. rewrite Hp, Z.eqb_refl. eexists rm, m. split; [done|]. split; [by apply Hkeep|by apply room_le].
  - simpl in Hcell. subst x. assert (v ∈ A i) as Hv by (rewrite E; left).
    rewrite (count_in cfg A i v), E by done. cbn [length Z.of_nat Pos.of_succ_nat Z.eqb]. rewrite put_ok by lia.
    cbn [mbind res_bind]. eexists _, m. split; [done|]. split; [|by apply room_le].
    eapply cloned_step; [done|done|apply grows_refl|by rewrite E|]. rewrite E. simpl. lia.
  - assert (v ∈ A i) as Hv by (rewrite E; left). pose proof (length_bound cfg Hcfg A i Hw) as Hlen.
    rewrite (count_in cfg A i v) by done. rewrite <- E in Hcell. set (c := Z.of_nat (length (A i))) in *.
    assert (2 <= c) as Hc2 by (unfold c; rewrite E; simpl; lia).
    destruct (Z.eqb_spec c 1); [lia|]. destruct (Z.ltb_spec 1 c); [|lia].
    destruct (cell_in_use m0 x (A i) Hcell) as (Hx0 & Hxu & t & Ht & Htake); [lia|].
    destruct (Z.eqb_spec x 0); [lia|]. cbn [negb].
    destruct (new_array_spec c m k) as (p & m' & Ep & Hp & Hf & Hu & HU & Ha & Hr); [lia|done|].
    rewrite Ep. cbn [mbind res_bind]. rewrite put_ok by lia. cbn [mbind res_bind].
    assert (in_use (arena m) x) as Hxm by (by apply K2). assert (p <> x) as Hpx by (by intros ->).
    unfold array_at. rewrite Ha, (lookup_insert_ne _ p x), (proj2 K2 x t) by done. cbn [of_option mbind res_bind].
    rewrite lookup_insert_eq. cbn [of_option mbind res_bind].
    assert (Hlt : c <= Z.of_nat (length t)) by (unfold c; rewrite <- Htake, length_take; lia).
    unfold bcopy. rewrite length_replicate. destruct (Z.leb_spec c (Z.of_nat (length t))); [|lia].
    destruct (Z.leb_spec c (Z.of_nat (Z.to_nat c))); [|lia]. cbn [andb assert_or mbind res_bind].
    eexists _, _. split; [done|]. split; [|done].
    eapply cloned_step; [done|done|by eapply new_array_grows| |done].
    rewrite E. eapply cell_two; [done|done|by rewrite set_array_get, decide_True|].
    unfold c. rewrite Nat2Z.id, Htake, E. apply take_app_length.
Qed.

Lemma clone_arrays_spec h m0 A k : cells cfg h m0 A -> forall n i rm m, i + Z.of_nat n = numLocs -> 0 <= i ->
  cloned A m0 i rm m -> room (n + k) (arena m) ->
  exists rm' m', clone_arrays n i h rm m = Ok (rm', m') /\ cloned A m0 numLocs rm' m' /\ room k (arena m').
Proof.
  intros Hc. induction n as [|n IH]; intros i rm m Hn Hi HK Hk; cbn [clone_arrays Nat.add] in *.
  - replace i with numLocs in HK by lia. by exists rm, m.
  - destruct (clone_cell_spec h m0 A i rm m _ Hc ltac:(lia) HK Hk) as (rm1 & m1 & -> & HK1 & Hk1).
    cbn [mbind res_bind]. apply IH; [lia|lia|done|done].
Qed.

Lemma repr_grows h m A m' : repr cfg h m A -> grows m m' -> repr cfg h m' A.
Proof.
  intros [[H1 H2 H3 H4 H5 H6] HM] Hg. split; [|done]. constructor; try done.
  intros r Hr. destruct (H5 r Hr) as (x & Hx & Hc). exists x. split; [done|]. by eapply cell_grows.
Qed.

Lemma Clone_spec h m A k : repr cfg h m A -> 0 < numVars -> room (4 + Z.to_nat numLocs + k) (arena m) ->
  exists g m', AllocStat_Clone cfg h m = Ok (g, m') /\ repr cfg g m' A /\ grows m m' /\
    (forall p, owns g A p -> ~ in_use (arena m) p) /\ room k (arena m').
Proof.
  intros Hr Hv Hk. pose proof Hr as [Hc HM]. assert (Hn : numLocs = 72 + numVars) by done.
  unfold AllocStat_Clone, AllocStat_alloc.
  destruct (calloc_spec 12 m _ ltac:(lia) Hk) as (p & m1 & -> & G1 & K1). cbn [mbind res_bind].
  destruct (Init_spec m1 (Z.to_nat numLocs + k) Hv K1) as (m2 & -> & G2 & K2). cbn [mbind res_bind].
  assert (HK : cloned A m 0 (rmap empty_stat) m2).
  { constructor; try (intros; lia).
    - simpl. rewrite length_replicate. lia.
    - by eapply grows_trans.
    - intros r Hb. apply zlookup_Some. split; [lia|]. apply lookup_replicate. split; [done|lia]. }
  destruct (clone_arrays_spec h m A k Hc (Z.to_nat numLocs) 0 (rmap empty_stat) m2 ltac:(lia) ltac:(lia) HK K2)
    as (rm & m3 & -> & [L1 L2 L3 L4 L5] & K3). cbn [mbind res_bind].
  assert (Hb : forall r x, zlookup rm r = Some x -> 0 <= r < numLocs).
  { intros r x Hx%zlookup_bound. by rewrite L1 in Hx. }
  eexists _, m3. split; [done|]. split; [|split; [done|split; [|done]]].
  - split; [|done]. destruct Hc as [H1 H2 H3 H4 H5 H6]. constructor; simpl; try done.
    + intros r Hr'. destruct (L3 r Hr') as (x & Hx & Hcx & _). by exists x.
    + intros r r' x H2r H2r' Hx Hx'. apply (L5 r r' x); eauto.
  - intros q (r & H2r & Hq). simpl in Hq. destruct (L3 r (Hb _ _ Hq)) as (x & Hx & _ & Hf). simplify_eq. by apply Hf.
Qed.

(** C12: A copy of a status represents the same map, shares no array with it,
    and is independent of it: whatever is done to the copy leaves the original
    as it was, and whatever is done to the original leaves the copy. *)
Theorem AllocStat_Clone_independent h m A (l : list alloc_op) (Hr : repr cfg h m A) (Hv : 0 < numVars)
    (Hl : ops_ok l A) (Hk : room (4 + Z.to_nat numLocs + length l) (arena m)) :
  exists g m', AllocStat_Clone cfg h m = Ok (g, m') /\ repr cfg g m' A /\ repr cfg h m' A /\
    (exists g' m1, run_ops l g m' = Ok (g', m1) /\ repr cfg g' m1 (ops_spec l A) /\ repr cfg h m1 A) /\
    (exists h' m2, run_ops l h m' = Ok (h', m2) /\ repr cfg h' m2 (ops_spec l A) /\ repr cfg g m2 A).
Proof.
  destruct (Clone_spec h m A (length l) Hr Hv Hk) as (g & m' & E & Hg & Hgr & Hf & Hk').
  pose proof (repr_grows h m A m' Hr Hgr) as Hh.
  assert (Hd : forall p, owns g A p -> ~ owns h A p).
  { intros p Hp Hp'. apply (Hf p Hp). by apply (cells_own cfg h m A p (proj1 Hr)). }
  exists g, m'. split; [done|]. split; [done|]. split; [done|]. rewrite <- (Nat.add_0_r (length l)) in Hk'. split.
  - destruct (run_ops_spec l g m' A 0 Hg Hl Hk') as (g' & m1 & E1 & Hg' & He & _).
    exists g', m1. split; [done|]. split; [done|]. apply (other_repr _ _ _ _ _ _ h A He Hh). intros p ? ?. by eapply Hd.
  - destruct (run_ops_spec l h m' A 0 Hh Hl Hk') as (h' & m2 & E2 & Hh' & He & _).
    exists h', m2. split; [done|]. split; [done|]. by apply (other_repr _ _ _ _ _ _ g A He Hg).
Qed.

(** ** Comparison *)

Lemma same_words_spec n : forall i l1 l2, 0 <= i -> i + Z.of_nat n <= Z.of_nat (length l1) -> i + Z.of_nat n <= Z.of_nat (length l2) ->
  exists b, same_words n i l1 l2 = Ok b /\
    (b = true <-> forall j, i <= j < i + Z.of_nat n -> zlookup l1 j = zlookup l2 j).
Proof.
  induction n as [|n IH]; intros i l1 l2 Hi H1 H2; cbn [same_words].
  - exists true. split; [done|]. split; [intros _ j ?; lia|done].
  - destruct (zlookup_is_Some l1 i ltac:(lia)) as [x Hx], (zlookup_is_Some l2 i ltac:(lia)) as [y Hy].
    rewrite (get_ok _ _ _ Hx), (get_ok _ _ _ Hy). cbn [mbind res_bind]. destruct (Z.eqb_spec x y) as [->|Hne]; cbn [negb].
    + destruct (IH (i + 1) l1 l2) as (b & E & Hb); [lia..|]. exists b. split; [done|]. rewrite Hb. split; intros Hall j Hj.
      * destruct (decide (j = i)) as [->|]; [congruence|]. apply Hall. lia.
      * apply Hall. lia.
    + exists false. split; [done|]. split; [done|]. intros Hall. specialize (Hall i ltac:(lia)). congruence.
Qed.

Lemma take_eq_zlookup (l1 l2 : list Z) n : (n <= length l1)%nat -> (n <= length l2)%nat ->
  (forall j, 0 <= j < 0 + Z.of_nat n -> zlookup l1 j = zlookup l2 j) <-> take n l1 = take n l2.
Proof.
  intros H1 H2. split.
  - intros Hall. apply list_eq. intros i. destruct (decide (i < n)%nat).
    + rewrite !lookup_take_lt by done. specialize (Hall (Z.of_nat i) ltac:(lia)). by rewrite !zlookup_nat in Hall.
    + rewrite !lookup_take_ge by lia. done.
  - intros E j Hj. replace j with (Z.of_nat (Z.to_nat j)) by lia. rewrite !zlookup_nat.
    rewrite <- (lookup_take_lt l1 n), <- (lookup_take_lt l2 n), E by lia. done.
Qed.

Lemma cell_zero h m A r : cells cfg h m A -> cell m 0 (A r) -> A r = [].
Proof.
  intros Hc Hcell. destruct (A r) as [|v [|w l]] eqn:E; [done|..].
  - simpl in Hcell. assert (v ∈ A r) as Hv by (rewrite E; left).
    destruct (a_var _ _ (c_wf _ _ _ _ Hc) _ _ Hv) as (_ & _ & Hne & _). congruence.
  - destruct Hcell as (? & _). lia.
Qed.

Lemma count_some h m A r : cells cfg h m A -> A r <> [] -> count A r = Z.of_nat (length (A r)).
Proof. intros Hc Hne. destruct (some_in A r Hne) as [v Hv]. by eapply count_in; [apply Hc|]. Qed.

Lemma same_cell_spec h1 h2 m A1 A2 i : cells cfg h1 m A1 -> cells cfg h2 m A2 -> 0 <= i < numLocs ->
  exists b, same_cell i h1 h2 m = Ok b /\ (b = true <-> count A1 i = count A2 i /\ A1 i = A2 i).
Proof.
  intros H1 H2 Hi. unfold same_cell.
  rewrite (get_ok _ _ _ (c_count _ _ _ _ H1 i Hi)), (get_ok _ _ _ (c_count _ _ _ _ H2 i Hi)). cbn [mbind res_bind].
  destruct (Z.eqb_spec (count A1 i) (count A2 i)) as [Ec|Hne]; cbn [negb]; [|exists false; split; [done|]; split; [done|]; tauto].
  destruct (c_cell _ _ _ _ H1 i Hi) as (x & Hx & Cx), (c_cell _ _ _ _ H2 i Hi) as (y & Hy & Cy).
  rewrite (get_ok _ _ _ Hx), (get_ok _ _ _ Hy). cbn [mbind res_bind].
  assert (N1 : A1 i <> [] -> x <> 0) by (intros Hn ->; by apply Hn, (cell_zero h1 m)).
  assert (N2 : A2 i <> [] -> y <> 0) by (intros Hn ->; by apply Hn, (cell_zero h2 m)).
  pose proof (count_some h1 m A1 i H1) as L1. pose proof (count_some h2 m A2 i H2) as L2. rewrite <- Ec in *.
  destruct (Z.eqb_spec (count A1 i) 1) as [E1|E1].
  - exists (x =? y). split; [done|]. rewrite Z.eqb_eq.
    assert (S1 : forall l z, Z.of_nat (length l) = 1 -> cell m z l -> l = [z]).
    { intros [|v [|w l]] z; simpl; intros; [lia|congruence|lia]. }
    assert (S0 : forall z, cell m z [] -> z = 0) by done.
    split; [intros <-|intros [_ E]].
    + split; [done|]. destruct (decide (A1 i = [])) as [e|n1], (decide (A2 i = [])) as [e'|n2]; [congruence|..].
      * rewrite e in Cx. by destruct (N2 n2).
      * rewrite e' in Cy. by destruct (N1 n1).
      * by rewrite (S1 (A1 i) x (eq_trans (eq_sym (L1 n1)) E1) Cx), (S1 (A2 i) x (eq_trans (eq_sym (L2 n2)) E1) Cy).
    + destruct (decide (A1 i = [])) as [e|n1].
      * rewrite <- E, e in Cy. rewrite e in Cx. rewrite (S0 x), (S0 y) by done. done.
      * pose proof (S1 (A1 i) x ltac:(by rewrite <- L1) Cx) as F1. rewrite <- E in Cy.
        pose proof (S1 (A1 i) y ltac:(by rewrite <- L1) Cy) as F2. congruence.
  - destruct (Z.ltb_spec 1 (count A1 i)).
    + destruct (Z.eqb_spec x 0) as [->|Hx0]; cbn [negb].
      * exists (y =? 0). split; [done|]. rewrite Z.eqb_eq. rewrite (cell_zero h1 m A1 i H1 Cx) in *. split.
        -- intros ->. by rewrite (cell_zero h2 m A2 i H2 Cy).
        -- intros [_ E]. rewrite <- E in Cy. done.
      * assert (n1 : A1 i <> []) by (intros e; rewrite e in Cx; done).
        destruct (Z.eqb_spec y 0) as [->|Hy0].
        -- exists false. split; [done|]. split; [done|]. intros [_ E]. rewrite E in n1. by destruct n1; apply (cell_zero h2 m).
        -- assert (n2 : A2 i <> []) by (intros e; rewrite e in Cy; done).
           destruct (cell_in_use m x (A1 i) Cx) as (_ & _ & t1 & T1 & K1); [specialize (L1 n1); lia|].
           destruct (cell_in_use m y (A2 i) Cy) as (_ & _ & t2 & T2 & K2); [specialize (L2 n2); lia|].
           unfold array_at. rewrite T1, T2. cbn [of_option mbind res_bind].
           assert (Q1 : (length (A1 i) <= length t1)%nat) by (rewrite <- K1, length_take; lia).
           assert (Q2 : (length (A2 i) <= length t2)%nat) by (rewrite <- K2, length_take; lia).
           assert (Ll : length (A1 i) = length (A2 i)) by (specialize (L1 n1); specialize (L2 n2); lia).
           specialize (L1 n1). rewrite L1, Nat2Z.id.
           destruct (same_words_spec (length (A1 i)) 0 t1 t2) as (b & E & Hb); [lia..|].
           exists b. split; [done|]. rewrite Hb, take_eq_zlookup, K1, Ll, K2 by lia. tauto.
    + exists true. split; [done|]. split; [|done]. intros _. split; [done|].
      assert (Hz : forall A, (A i <> [] -> count A1 i = Z.of_nat (length (A i))) -> A i = []).
      { intros A L. destruct (A i) as [|v l] eqn:E; [done|]. specialize (L ltac:(done)). simpl in L. lia. }
      by rewrite (Hz A1 L1), (Hz A2 L2).
Qed.

Lemma same_cells_spec h1 h2 m A1 A2 : cells cfg h1 m A1 -> cells cfg h2 m A2 -> forall n i, 0 <= i -> i + Z.of_nat n = numLocs ->
  exists b, same_cells n i h1 h2 m = Ok b /\
    (b = true <-> forall r, i <= r < numLocs -> count A1 r = count A2 r /\ A1 r = A2 r).
Proof.
  intros H1 H2. induction n as [|n IH]; intros i Hi Hn; cbn [same_cells].
  - exists true. split; [done|]. split; [intros _ r ?; lia|done].
  - destruct (same_cell_spec h1 h2 m A1 A2 i H1 H2 ltac:(lia)) as (b & -> & Hb). cbn [mbind res_bind]. destruct b.
    + destruct (IH (i + 1) ltac:(lia) ltac:(lia)) as (b' & -> & Hb'). exists b'. split; [done|]. rewrite Hb'. split; intros Hall r Hr.
      * destruct (decide (r = i)) as [->|]; [by apply Hb|]. apply Hall. lia.
      * apply Hall. lia.
    + exists false. split; [done|]. split; [done|]. intros Hall. apply Hb, Hall. lia.
Qed.

Lemma maps_agree mp1 mp2 A n : maps cfg mp1 A -> maps cfg mp2 A -> awf cfg A -> 0 <= n < numVars ->
  zlookup mp1 n = zlookup mp2 n.
Proof.
  intros M1 M2 Hw Hn.
  destruct (maps_find cfg mp1 A n M1 Hw Hn) as (r1 & E1 & [[-> N1]|(v1 & V1 & <-)]).
  - destruct (maps_find cfg mp2 A n M2 Hw Hn) as (r2 & E2 & [[-> N2]|(v2 & V2 & Hv)]); [congruence|]. by destruct (N1 _ _ V2).
  - by rewrite (p_in _ _ _ M1 _ _ V1), (p_in _ _ _ M2 _ _ V1).
Qed.

(** C26: Comparing two statuses decides whether they represent the same map, with
    the variables of each location in the same order; it never fails, whatever
    arrays the two have. *)
Theorem AllocStat_IsEqual_decides h1 h2 m A1 A2 (H1 : repr cfg h1 m A1) (H2 : repr cfg h2 m A2) :
  exists b, AllocStat_IsEqual cfg h1 h2 m = Ok b /\ (b = true <-> forall r, A1 r = A2 r).
Proof.
  destruct H1 as [C1 M1], H2 as [C2 M2]. assert (Hn : numLocs = 72 + numVars) by done. unfold AllocStat_IsEqual.
  destruct (same_words_spec (Z.to_nat numVars) 0 (map h1) (map h2)) as (b & -> & Hb);
    [lia|rewrite (p_len _ _ _ M1); lia|rewrite (p_len _ _ _ M2); lia|]. cbn [mbind res_bind].
  destruct (same_cells_spec h1 h2 m A1 A2 C1 C2 (Z.to_nat numLocs) 0 ltac:(lia) ltac:(lia)) as (b' & Eb' & Hb').
  assert (Hout : forall h A r, cells cfg h m A -> ~ 0 <= r < numLocs -> A r = []).
  { intros h A r HC Hr. destruct (A r) as [|v l] eqn:E; [done|].
    destruct (a_var _ _ (c_wf _ _ _ _ HC) r v) as [? _]; [rewrite E; left|lia]. }
  assert (Hiff : b' = true <-> forall r, A1 r = A2 r).
  { rewrite Hb'. split; intros Hall r.
    - destruct (decide (0 <= r < numLocs)) as [Hr|Hr]; [by apply Hall|]. by rewrite (Hout h1 A1), (Hout h2 A2).
    - intros _. split; [by apply count_ext|done]. }
  destruct b.
  - exists b'. by rewrite Eb'.
  - exists false. split; [done|]. split; [done|]. intros Hall. apply Hb. intros j Hj.
    apply (maps_agree _ _ A2); [|done|apply C2|lia]. eapply maps_ext; [exact Hall|exact M1].
Qed.

End AllocLaws.
