(* ===== verification/AllocSearch.v ===== *)
(** * Free locations, live variables and the check of a status
    (src/translator/AllocStat.c)

    What the searches for free registers and spill slots find, in terms of the
    map a status represents; removal of dead variables with the bit vectors of
    live analysis; the validity check. *)

From stdpp Require Import functions.
From S2P Require Import Prelude PseudoReg FastMem BitVector AllocStat RegMap AllocLaws.

Section AllocSearch.
Context {S : Type} `{Arena S} (cfg : CFG).
Implicit Types (h : AllocStat) (m : mem S) (A : Z -> list Z).

Abbreviation numVars := (CFG_GetNumOfVars cfg).
Abbreviation numLocs := (CFG_GetNumOfStorageLocations cfg).
Abbreviation num := (CFG_get_var_number cfg).

Hypothesis Hcfg : 0 <= numVars < 2 ^ 24.

(** ** Searches *)

Definition is_free A (pair : bool) (r : Z) : Prop := count A r = 0 /\ (pair = true -> count A (r + 1) = 0).

Lemma find_free_spec h m A (pair : bool) (step : Z) : cells cfg h m A -> forall n r,
  (forall i, 0 <= i < Z.of_nat n -> 0 <= r + i * step /\ r + i * step + (if pair then 1 else 0) < numLocs) ->
  exists o, find_free n r step h pair = Ok o /\
    match o with
    | Some r' => (exists i, 0 <= i < Z.of_nat n /\ r' = r + i * step) /\ is_free A pair r'
    | None => forall i, 0 <= i < Z.of_nat n -> ~ is_free A pair (r + i * step)
    end.
Proof.
  intros Hc. induction n as [|n IH]; intros r Hr; cbn [find_free]; [exists None; split; [done|]; lia|].
  destruct (Hr 0 ltac:(lia)) as [Hr1 Hr2]. rewrite Z.mul_0_l, Z.add_0_r in *.
  rewrite (get_ok _ _ _ (c_count _ _ _ _ Hc r ltac:(destruct pair; lia))). cbn [mbind res_bind].
  assert (exists b, (if (count A r =? 0) && pair then d ← get (refcount h) (r + 1); Ok (d =? 0)
      else @Ok failure _ (count A r =? 0)) = Ok b /\ (b = true <-> is_free A pair r)) as (b & -> & Hb).
  { unfold is_free. destruct pair; [|rewrite andb_false_r; eexists; split; [done|]; rewrite Z.eqb_eq; naive_solver].
    destruct (Z.eqb_spec (count A r) 0); cbn [andb]; [|eexists; split; [done|]; split; [done|tauto]].
    rewrite (get_ok _ _ _ (c_count _ _ _ _ Hc (r + 1) ltac:(lia))). eexists. split; [done|]. rewrite Z.eqb_eq. tauto. }
  cbn [mbind res_bind]. destruct b.
  - exists (Some r). split; [done|]. split; [exists 0; lia|by apply Hb].
  - destruct (IH (r + step)) as (o & E & Ho).
    { intros i Hi. specialize (Hr (i + 1) ltac:(lia)). lia. }
    exists o. split; [done|]. destruct o as [r'|].
    + destruct Ho as [(i & Hi & ->) Hf]. split; [exists (i + 1); lia|done].
    + intros i Hi. destruct (decide (i = 0)) as [->|].
      * rewrite Z.mul_0_l, Z.add_0_r. intros Hf. by apply Hb in Hf.
      * specialize (Ho (i - 1) ltac:(lia)). by replace (r + i * step) with (r + step + (i - 1) * step) by lia.
Qed.

(** The hardware registers that can hold a type. *)
Definition reg_class (type r : Z) : Prop :=
  if is_word_type type then l0 <= r <= l7 \/ i0 <= r < i6 \/ o0 <= r < o6
  else if is_float_type type then f0 <= r <= f31
  else f0 <= r < f31 /\ r mod 2 = 0.

Definition is_double_type (type : Z) : bool := type =? T_DOUBLE.

Definition placeable (type : Z) : Prop := is_word_type type || is_float_type type || is_double_type type = true.

Lemma find_single h m A n r : cells cfg h m A -> 0 <= r -> r + Z.of_nat n <= numLocs ->
  exists o, find_free n r 1 h false = Ok o /\
    match o with Some r' => r <= r' < r + Z.of_nat n /\ is_free A false r'
    | None => forall r', r <= r' < r + Z.of_nat n -> ~ is_free A false r' end.
Proof.
  intros Hc Hr Hn. destruct (find_free_spec h m A false 1 Hc n r) as (o & E & Ho); [lia|].
  exists o. split; [done|]. destruct o as [r'|].
  - destruct Ho as [(i & Hi & ->) Hf]. split; [lia|done].
  - intros r' Hr'. specialize (Ho (r' - r) ltac:(lia)). by replace (r + (r' - r) * 1) with r' in Ho by lia.
Qed.

Lemma FindFreeReg_spec h m A type : cells cfg h m A -> placeable type ->
  exists r, AllocStat_FindFreeReg h type = Ok r /\
    (r = -1 /\ (forall r', reg_class type r' -> ~ is_free A (is_double_type type) r') \/
     reg_class type r /\ is_free A (is_double_type type) r).
Proof.
  intros Hc Ht. assert (Hn : numLocs = 72 + numVars) by done. unfold AllocStat_FindFreeReg, reg_class, placeable, is_double_type in *.
  destruct (is_word_type type) eqn:Ew.
  - assert (type =? T_DOUBLE = false) as ->.
    { destruct (Z.eqb_spec type T_DOUBLE) as [->|]; [discriminate Ew|done]. }
    cbn [first_of].
    destruct (find_single h m A 8 l0 Hc) as (o1 & -> & H1); [unfold l0; lia..|]. cbn [mbind res_bind].
    destruct o1 as [r|]; [exists r; split; [done|]; right; split; [left; unfold l0, l7 in *; lia|apply H1]|].
    destruct (find_single h m A 6 i0 Hc) as (o2 & -> & H2); [unfold i0; lia..|]. cbn [mbind res_bind].
    destruct o2 as [r|]; [exists r; split; [done|]; right; split; [right; left; unfold i0, i6 in *; lia|apply H2]|].
    destruct (find_single h m A 6 o0 Hc) as (o3 & -> & H3); [unfold o0; lia..|]. cbn [mbind res_bind].
    destruct o3 as [r|]; [exists r; split; [done|]; right; split; [right; right; unfold o0, o6 in *; lia|apply H3]|].
    exists (-1). split; [done|]. left. split; [done|]. unfold l0, l7, i0, i6, o0, o6 in *.
    intros r [Hr|[Hr|Hr]]; [apply H1|apply H2|apply H3]; lia.
  - destruct (is_float_type type) eqn:Ef.
    + assert (type =? T_DOUBLE = false) as ->.
      { destruct (Z.eqb_spec type T_DOUBLE) as [->|]; [discriminate Ef|done]. }
      destruct (find_single h m A 32 f0 Hc) as (o & -> & Ho); [unfold f0; lia..|]. cbn [mbind res_bind].
      destruct o as [r|]; [exists r|exists (-1)]; (split; [done|]); [right; split; [unfold f0, f31 in *; lia|apply Ho]|].
      left. split; [done|]. intros r Hr. apply Ho. unfold f0, f31 in *. lia.
    + cbn [orb] in Ht. rewrite Ht.
      destruct (find_free_spec h m A true 2 Hc 16 f0) as (o & -> & Ho); [unfold f0; lia|]. cbn [mbind res_bind].
      destruct o as [r|]; [exists r|exists (-1)]; (split; [done|]).
      * right. destruct Ho as [(i & Hi & ->) Hf]. split; [|done]. unfold f0, f31. split; [lia|].
        replace (32 + i * 2) with ((16 + i) * 2) by lia. by apply Z.mod_mul.
      * left. split; [done|]. intros r [Hr1 Hr2]. specialize (Ho ((r - f0) / 2)). unfold f0, f31 in *.
        replace r with (32 + (r - 32) / 2 * 2) by dmlia. apply Ho. dmlia.
Qed.

(** The spill slots that can hold a type. *)
Definition slot_class (type r : Z) : Prop :=
  if is_double_type type then Reg_number <= r /\ r + 1 < numLocs /\ r mod 2 = 0 else Reg_number <= r < numLocs.

Lemma spill_offset r : Reg_number <= r < 2 ^ 18 -> RegAlloc_get_spill_offset r = Ok (-12 - 4 * (r - Reg_number)).
Proof.
  intros Hr. unfold RegAlloc_get_spill_offset, Reg_IsSpill, Reg_number in *. rewrite is_register by lia.
  by destruct (Z.leb_spec 72 r); [|lia].
Qed.

Lemma FindFreeSpill_spec h m A type : cells cfg h m A -> placeable type -> numLocs < 2 ^ 18 ->
  (exists r, AllocStat_FindFreeSpill cfg h type = Ok r /\ slot_class type r /\ is_free A (is_double_type type) r) \/
  AllocStat_FindFreeSpill cfg h type = Err AssertionFailed /\
    (forall r, slot_class type r -> ~ is_free A (is_double_type type) r).
Proof.
  intros Hc Ht Hsmall. assert (Hn : numLocs = Reg_number + numVars) by done.
  unfold AllocStat_FindFreeSpill, slot_class, placeable, is_double_type in *.
  destruct (is_word_type type || is_float_type type) eqn:Ew.
  - assert (type =? T_DOUBLE = false) as ->.
    { destruct (Z.eqb_spec type T_DOUBLE) as [->|]; [discriminate Ew|done]. }
    destruct (find_single h m A (Z.to_nat numVars) Reg_number Hc) as (o & -> & Ho); [unfold Reg_number; lia|lia|].
    cbn [mbind res_bind]. destruct o as [r|]; [left; exists r; split; [done|]; split; [lia|apply Ho]|].
    right. split; [done|]. intros r Hr. apply Ho. lia.
  - cbn [orb] in Ht. rewrite Ht. rewrite spill_offset by (unfold Reg_number; lia). cbn [mbind res_bind].
    change (negb (Z.rem (-12 - 4 * (Reg_number + 1 - Reg_number)) 8 =? 0)) with false. cbn [negb].
    destruct (find_free_spec h m A true 2 Hc (Z.to_nat ((numLocs - Reg_number) / 2)) Reg_number) as (o & -> & Ho).
    { intros i Hi. unfold Reg_number in *. dmlia. }
    cbn [mbind res_bind]. destruct o as [r|].
    + left. destruct Ho as [(i & Hi & ->) Hf]. rewrite spill_offset by (unfold Reg_number in *; dmlia). cbn [mbind res_bind].
      assert (Z.rem (-12 - 4 * (Reg_number + i * 2 + 1 - Reg_number)) 8 = 0) as ->.
      { apply Z.rem_divide; [lia|]. exists (-2 - i). unfold Reg_number. lia. }
      cbn [Z.eqb assert_or mbind res_bind]. eexists. split; [done|]. split; [|done]. unfold Reg_number in *.
      split_and!; [lia|dmlia|]. replace (72 + i * 2) with ((36 + i) * 2) by lia. by apply Z.mod_mul.
    + right. split; [done|]. intros r (Hr1 & Hr2 & Hr3). unfold Reg_number in *.
      replace r with (72 + (r - 72) / 2 * 2) by dmlia. apply Ho. dmlia.
Qed.

(** A free location of a class is one where a variable of that type fits. *)
Lemma free_fits A v r : 0 < r < numLocs -> good cfg v -> (forall r' v', v' ∈ A r' -> num v' <> num v) ->
  is_free A (is_double_type (Var_GetType v)) r -> (isd v = true -> r + 1 < numLocs) -> fits cfg A v r.
Proof.
  intros Hr Hg Hnew [H0 H1] Hp. destruct (count_zero A r H0) as [Hn Hd]. constructor; try done.
  - intros v' Hv'. rewrite Hn in Hv'. by apply elem_of_nil in Hv'.
  - intros Hdb. split; [auto|]. by destruct (count_zero A (r + 1) (H1 Hdb)).
Qed.

Lemma class_loc type r : placeable type -> reg_class type r \/ slot_class type r ->
  0 < r < numLocs /\ (is_double_type type = true -> r + 1 < numLocs).
Proof.
  assert (Hn : numLocs = 72 + numVars) by done. unfold placeable, reg_class, slot_class, is_double_type.
  destruct (Z.eqb_spec type T_DOUBLE) as [->|]; [|unfold l0, l7, i0, i6, o0, o6, f0, f31, Reg_number in *;
    destruct (is_word_type type); [lia|]; destruct (is_float_type type); [lia|done]].
  change (is_word_type T_DOUBLE) with false. change (is_float_type T_DOUBLE) with false.
  cbn [orb]. unfold f0, f31, Reg_number in *. lia.
Qed.

Lemma reg_class_hw type r : placeable type -> reg_class type r -> 0 < r < Reg_number.
Proof.
  intros _. unfold reg_class, l0, l7, i0, i6, o0, o6, f0, f31, Reg_number.
  destruct (is_word_type type); [lia|]. destruct (is_float_type type); lia.
Qed.

(** What [FindFreeStorage] returns is a location where the variable can be
    put: free, of the right class, even and with a free neighbour for a double;
    so inserting it there succeeds.  It prefers hardware registers, and its
    assertion fails only when no register and no spill slot is free. *)
Theorem FindFreeStorage_fits h m A v (Hr : repr cfg h m A) (Hg : good cfg v)
    (Hnew : forall r v', v' ∈ A r -> num v' <> num v) (Ht : placeable (Var_GetType v)) (Hsmall : numLocs < 2 ^ 18)
    (Hroom : room 1 (arena m)) :
  match AllocStat_FindFreeStorage cfg h (Var_GetType v) with
  | Ok r => fits cfg A v r /\ (Reg_number <= r -> forall r', reg_class (Var_GetType v) r' -> ~ is_free A (isd v) r') /\
      (r < 2048 -> exists h' m', AllocStat_Insert cfg h v r m = Ok (h', m') /\ repr cfg h' m' (place v r (unplace cfg (num v) A)))
  | Err e => e = AssertionFailed /\
      forall r, reg_class (Var_GetType v) r \/ slot_class (Var_GetType v) r -> ~ is_free A (isd v) r
  end.
Proof.
  pose proof Hr as [Hc _]. unfold AllocStat_FindFreeStorage. assert (Hn : numLocs = 72 + numVars) by done.
  assert (Hins : forall r, fits cfg A v r -> r < 2048 ->
    exists h' m', AllocStat_Insert cfg h v r m = Ok (h', m') /\ repr cfg h' m' (place v r (unplace cfg (num v) A))).
  { intros r HF Hd. destruct (Insert_spec cfg Hcfg h m A v r 0 Hr) as (h' & m' & E & Hr' & _); [|done|done|by exists h', m'].
    pose proof (unplace_absent cfg A (num v) Hnew) as E. destruct HF as [F1 F2 F3 F4 F5 F6].
    constructor; try setoid_rewrite E; done. }
  destruct (FindFreeReg_spec h m A (Var_GetType v) Hc Ht) as (r & -> & [[-> Hnone]|[Hcl Hf]]); cbn [mbind res_bind].
  - change (Reg_IsHW (-1)) with false. cbn [negb].
    destruct (FindFreeSpill_spec h m A (Var_GetType v) Hc Ht Hsmall) as [(r & -> & Hcl & Hf)|[-> Hnone']].
    + destruct (class_loc (Var_GetType v) r Ht (or_intror Hcl)) as [Hl Hp].
      pose proof (free_fits A v r Hl Hg Hnew Hf Hp) as HF. split; [exact HF|]. split; [intros _; exact Hnone|].
      exact (Hins r HF).
    + split; [reflexivity|]. intros r [Hcl|Hcl]; [exact (Hnone r Hcl)|exact (Hnone' r Hcl)].
  - destruct (class_loc (Var_GetType v) r Ht (or_introl Hcl)) as [Hl Hp].
    pose proof (reg_class_hw _ _ Ht Hcl) as Hhw.
    unfold Reg_IsHW. rewrite wrapu_small by (unfold in_u, Reg_number in *; lia).
    destruct (Z.ltb_spec r Reg_number); [|lia].
    pose proof (free_fits A v r Hl Hg Hnew Hf Hp) as HF. split; [exact HF|]. split; [lia|]. exact (Hins r HF).
Qed.

(** A double's number is followed by one that no variable has. *)
Definition halves A : Prop := forall r v, v ∈ A r -> isd v = true ->
  num v + 1 < numVars /\ forall r' v', v' ∈ A r' -> num v' <> num v + 1.

(** The variable number a location takes up. *)
Definition taken_by A (r : Z) : Z :=
  match A r with
  | v :: _ => num v
  | [] => match A (r - 1) with v :: _ => num v + 1 | [] => 0 end
  end.

Lemma taken_cases A r : count A r <> 0 ->
  (exists v, v ∈ A r /\ taken_by A r = num v) \/
  (exists v, v ∈ A (r - 1) /\ isd v = true /\ taken_by A r = num v + 1).
Proof.
  unfold count, taken_by. destruct (A r) as [|v l] eqn:E.
  - destruct (A (r - 1)) as [|w l'] eqn:E'; [by intros []|]. cbn [dbl]. destruct (isd w) eqn:Ed; [|by intros []].
    intros _. right. exists w. split; [left|done].
  - intros _. left. exists v. split; [left|done].
Qed.

(** C27: There is a spill slot for one word whenever some variable number is in
    no location and is not the second half of a double: a frame has as many spill
    slots as the graph has variables. *)
Theorem FindFreeSpill_total h m A n type (Hr : repr cfg h m A) (Ht : is_word_type type || is_float_type type = true)
    (Hsmall : numLocs < 2 ^ 18) (Hh : halves A) (Hn : 0 <= n < numVars)
    (Hfree : forall r v, v ∈ A r -> num v <> n /\ (isd v = true -> num v + 1 <> n)) :
  exists r, AllocStat_FindFreeSpill cfg h type = Ok r /\ Reg_number <= r < numLocs /\ A r = [].
Proof.
  destruct Hr as [Hc _]. pose proof (c_wf _ _ _ _ Hc) as Hw. assert (Hnl : numLocs = Reg_number + numVars) by done.
  assert (Hd : is_double_type type = false).
  { unfold is_double_type. destruct (Z.eqb_spec type T_DOUBLE) as [->|]; [discriminate Ht|done]. }
  destruct (FindFreeSpill_spec h m A type Hc) as [(r & E & Hcl & [H0 _])|[_ Hnone]]; [by unfold placeable; rewrite Ht|done|..].
  { exists r. split; [done|]. unfold slot_class in Hcl. rewrite Hd in Hcl. split; [done|]. by apply count_zero. }
  exfalso. unfold slot_class, is_free in Hnone. rewrite Hd in Hnone.
  assert (Hocc : forall r, Reg_number <= r < numLocs -> count A r <> 0).
  { intros r Hb H0. apply (Hnone r Hb). by split. }
  set (l := n :: (taken_by A <$> seqZ Reg_number numVars)).
  assert (Z.of_nat (length l) <= numVars); [|unfold l in *; simpl in *; rewrite length_fmap, length_seqZ in *; lia].
  apply bounded_length; [lia| |].
  - constructor.
    + intros (r & E & Hb%elem_of_seqZ)%list_elem_of_fmap.
      destruct (taken_cases A r (Hocc r ltac:(lia))) as [(v & Hv & T)|(v & Hv & Dv & T)]; destruct (Hfree _ _ Hv) as [F1 F2].
      * congruence.
      * specialize (F2 Dv). congruence.
    + apply NoDup_fmap_2_strong; [|apply NoDup_seqZ]. intros r r' Hb%elem_of_seqZ Hb'%elem_of_seqZ E.
      destruct (taken_cases A r (Hocc r ltac:(lia))) as [(v & Hv & T)|(v & Hv & Dv & T)],
        (taken_cases A r' (Hocc r' ltac:(lia))) as [(v' & Hv' & T')|(v' & Hv' & Dv' & T')].
      * by destruct (a_uniq _ _ Hw _ _ _ _ Hv Hv'); [congruence|].
      * destruct (Hh _ _ Hv' Dv') as [_ Hx]. destruct (Hx _ _ Hv). congruence.
      * destruct (Hh _ _ Hv Dv) as [_ Hx]. destruct (Hx _ _ Hv'). congruence.
      * destruct (a_uniq _ _ Hw _ _ _ _ Hv Hv'); lia.
  - intros x [->|(r & -> & Hb%elem_of_seqZ)%list_elem_of_fmap]%elem_of_cons; [done|].
    destruct (taken_cases A r (Hocc r ltac:(lia))) as [(v & Hv & ->)|(v & Hv & Dv & ->)].
    + by apply (a_var _ _ Hw _ _ Hv).
    + destruct (Hh _ _ Hv Dv). destruct (a_var _ _ Hw _ _ Hv) as (_ & ? & _). lia.
Qed.

(** ** Dead variables *)

Definition live_in (lv : list Z) (n : Z) : Prop := BV_IsSet lv n = Some true.

#[local] Instance live_dec lv n : Decision (live_in lv n).
Proof. unfold live_in. apply _. Defined.

(** What is left when the numbers below [i] have been looked at. *)
Definition prune (lv : list Z) (i : Z) A : Z -> list Z :=
  fun r => filter (fun v => i <= num v \/ live_in lv (num v)) (A r).

Lemma num_small n : 0 <= n < 2 ^ 24 -> num n = n.
Proof.
  intros Hn. unfold CFG_get_var_number, Var_GetStorageType. change STORAGE_TYPE_SHIFT_SIZE with 25.
  rewrite wrapu_small by (unfold in_u; lia). rewrite Z.shiftr_div_pow2, Z.div_small by lia. done.
Qed.

Lemma prune_dead lv i A r : ~ live_in lv i -> prune lv (i + 1) A r = unplace cfg i (prune lv i A) r.
Proof.
  intros Hd. unfold prune, unplace. rewrite list_filter_filter. apply filter_same. intros x _.
  destruct (decide (num x = i)) as [->|]; [|intuition lia]. split; [intros [?|?]; [lia|done]|tauto].
Qed.

Lemma prune_live lv i A r : live_in lv i \/ (forall v, v ∈ A r -> num v <> i) -> prune lv (i + 1) A r = prune lv i A r.
Proof.
  intros Hl. apply filter_same. intros x Hx. destruct (decide (num x = i)) as [E|]; [|intuition lia].
  destruct Hl as [Hl|Hl]; [rewrite E; tauto|by destruct (Hl x Hx)].
Qed.

Lemma repr_ext h m A A' : (forall r, A r = A' r) -> repr cfg h m A -> repr cfg h m A'.
Proof. intros E [Hc HM]. split; [by eapply cells_ext|by eapply maps_ext]. Qed.

Lemma remove_dead_spec lv k : forall n i h m A, 0 <= i -> i + Z.of_nat n = numVars ->
  (forall j, 0 <= j < numVars -> bv_dom lv j) -> repr cfg h m (prune lv i A) -> room k (arena m) ->
  exists h' m', remove_dead cfg n i lv h m = Ok (h', m') /\ repr cfg h' m' (prune lv numVars A) /\ room k (arena m').
Proof.
  induction n as [|n IH]; intros i h m A Hi Hn Hd Hr Hk; cbn [remove_dead].
  - replace i with numVars in Hr by lia. by exists h, m.
  - destruct (proj2 (BV_IsSet_is_Some lv i) (Hd i ltac:(lia))) as [b Hb]. rewrite Hb. cbn [of_option mbind res_bind].
    assert (exists h1 m1, (if negb b then x ← AllocStat_Find cfg h i; if negb (x =? -1) then AllocStat_Erase cfg h i m else Ok (h, m)
        else Ok (h, m)) = Ok (h1, m1) /\ repr cfg h1 m1 (prune lv (i + 1) A) /\ room k (arena m1)) as (h1 & m1 & -> & Hr1 & Hk1).
    { destruct b; cbn [negb].
      - exists h, m. split; [done|]. split; [|done]. eapply repr_ext; [|done]. intros r. symmetry. apply prune_live. by left.
      - assert (Hdead : ~ live_in lv i) by (unfold live_in; congruence). pose proof Hr as [Hc HM].
        destruct (maps_find cfg _ _ i HM (c_wf _ _ _ _ Hc) ltac:(lia)) as (x & Hx & Hcase).
        unfold AllocStat_Find, check_var. rewrite (num_small i) by lia. destruct (Z.leb_spec 0 i); [|lia].
        destruct (Z.ltb_spec i numVars); [|lia]. cbn [andb assert_or mbind res_bind]. rewrite (get_ok _ _ _ Hx). cbn [mbind res_bind].
        destruct Hcase as [[-> Hno]|(v & Hv & Hvn)].
        + exists h, m. split; [done|]. split; [|done]. eapply repr_ext; [|done]. intros r.
          rewrite prune_dead by done. symmetry. by apply unplace_absent.
        + destruct (a_var _ _ (c_wf _ _ _ _ Hc) _ _ Hv) as [Hb' _]. destruct (Z.eqb_spec x (-1)); [lia|]. cbn [negb].
          destruct (Erase_spec cfg Hcfg h m _ i v x k Hr Hv) as (h1 & m1 & E & Hr1 & _ & Hk1); [by rewrite num_small by lia|done|].
          exists h1, m1. split; [done|]. split; [|done]. eapply repr_ext; [|done]. intros r.
          rewrite (num_small i) by lia. symmetry. by apply prune_dead. }
    cbn [mbind res_bind]. apply IH; [lia|lia|done|done|done].
Qed.

(** C25: Removing the dead variables leaves exactly the variables whose numbers
    are set in the instruction's bit vector of live variables, each where it was
    and in the same order, if the vector has a bit for each variable. *)
Theorem RemoveDeadVars_keeps_live h m A lv (Hr : repr cfg h m A)
    (Hd : forall j, 0 <= j < numVars -> bv_dom lv j) (Hk : room 0 (arena m)) :
  exists h' m', AllocStat_RemoveDeadVars cfg h (Some lv) m = Ok (h', m') /\
    repr cfg h' m' (fun r => filter (fun v => live_in lv (num v)) (A r)).
Proof.
  destruct (remove_dead_spec lv 0 (Z.to_nat numVars) 0 h m A) as (h' & m' & E & Hr' & _); [lia|lia|done| |done|].
  { eapply repr_ext; [|done]. intros r. symmetry. apply filter_true. intros v Hv. left.
    by apply (a_var _ _ (c_wf _ _ _ _ (proj1 Hr)) _ _ Hv). }
  exists h', m'. split; [done|]. eapply repr_ext; [|done]. intros r. apply filter_same. intros v Hv.
  assert (num v < numVars) by (by apply (a_var _ _ (c_wf _ _ _ _ (proj1 Hr)) _ _ Hv)). intuition lia.
Qed.

(** ** The validity check *)

Lemma FindRMap_spec h m A r i v : cells cfg h m A -> 0 <= r < 2 ^ 32 -> A r !! i = Some v ->
  AllocStat_FindRMap cfg h m r (Z.of_nat i) = Ok v.
Proof.
  intros Hc Hr Hi. assert (Hv : v ∈ A r) by (by eapply list_elem_of_lookup_2). pose proof (c_wf _ _ _ _ Hc) as Hw.
  destruct (a_var _ _ Hw _ _ Hv) as [Hb (_ & Hv0 & _)]. pose proof (count_in cfg A r v Hw Hv) as Hcount.
  unfold AllocStat_FindRMap. rewrite (wrapu_small 32 r) by (unfold in_u; lia). destruct (Z.ltb_spec r numLocs); [|lia].
  cbn [assert_or mbind res_bind]. rewrite (get_ok _ _ _ (c_count _ _ _ _ Hc r ltac:(lia))). cbn [mbind res_bind].
  pose proof (lookup_lt_Some _ _ _ Hi) as Hlt. pose proof (length_bound cfg Hcfg A r Hw) as Hlen.
  rewrite (wrapu_small 32 (Z.of_nat i)) by (unfold in_u; lia). destruct (Z.ltb_spec (Z.of_nat i) (count A r)); [|lia].
  cbn [assert_or mbind res_bind]. destruct (Z.eqb_spec (count A r) 0); [lia|].
  destruct (c_cell _ _ _ _ Hc r ltac:(lia)) as (x & Hx & Hcell). rewrite (get_ok _ _ _ Hx). cbn [mbind res_bind].
  destruct (Z.eqb_spec x 0) as [->|_].
  { rewrite (cell_zero cfg h m A r Hc Hcell) in Hi. done. }
  destruct (Z.eqb_spec (count A r) 1) as [E|E].
  - destruct (A r) as [|w [|w' l]]; simpl in Hcount; [done| |lia]. simpl in Hcell. subst x.
    destruct i; [by injection Hi as ->|done].
  - destruct (cell_in_use m x (A r) Hcell) as (_ & _ & t & Ht & Htake); [lia|]. unfold array_at. rewrite Ht.
    cbn [of_option mbind res_bind]. apply get_ok. rewrite zlookup_nat. rewrite <- Htake in Hi.
    by rewrite lookup_take_lt in Hi.
Qed.

Lemma Find_spec h m A r v : repr cfg h m A -> v ∈ A r -> AllocStat_Find cfg h v = Ok r.
Proof.
  intros [Hc HM] Hv. destruct (a_var _ _ (c_wf _ _ _ _ Hc) _ _ Hv) as [_ (Hn & _)]. unfold AllocStat_Find, check_var.
  destruct (Z.leb_spec 0 (num v)); [|lia]. destruct (Z.ltb_spec (num v) numVars); [|lia].
  cbn [andb assert_or mbind res_bind]. by apply get_ok, HM.
Qed.

Lemma register_type r : 0 <= r < 2 ^ 18 -> (Var_GetType r =? T_DOUBLE) = false.
Proof.
  intros Hr. unfold Var_GetType. change TYPE_SHIFT_SIZE with 18. rewrite Z.shiftr_land.
  rewrite (Z.shiftr_div_pow2 r), (Z.div_small r) by lia. by rewrite Z.land_0_r.
Qed.

Lemma check_hw_spec h m A r : repr cfg h m A -> 0 < r < Reg_number -> forall (n : nat) (i var : Z),
  (r < f0 -> i = Z.of_nat (length (A r)) - Z.of_nat n /\ 0 <= i) -> 0 <= var < 2 ^ 18 ->
  exists var', check_hw cfg n i r h m var false = Ok (Some (var', false)) /\ 0 <= var' < 2 ^ 18.
Proof.
  intros Hr Hb. induction n as [|n IH]; intros i var Hi Hvar; cbn [check_hw]; [by exists var|].
  destruct (Z.ltb_spec r f0) as [Hlt|]; [destruct (Hi Hlt) as [Hi1 Hi2]|].
  - destruct (lookup_lt_is_Some_2 (A r) (Z.to_nat i) ltac:(lia)) as [v Hv].
    pose proof (FindRMap_spec h m A r (Z.to_nat i) v (proj1 Hr) ltac:(unfold Reg_number in *; lia) Hv) as E.
    rewrite Z2Nat.id in E by lia. rewrite E. cbn [mbind res_bind].
    rewrite (Find_spec h m A r v) by (done || by eapply list_elem_of_lookup_2). cbn [mbind res_bind].
    rewrite Z.eqb_refl, register_type by (unfold Reg_number in *; lia). cbn [andb negb orb].
    apply IH; [lia|unfold Reg_number in *; lia].
  - cbn [mbind res_bind andb]. rewrite register_type by done. cbn [orb]. apply IH; [lia|done].
Qed.

Lemma check_spill_spec h m A r : repr cfg h m A -> 0 < r < numLocs -> forall (n : nat) (i : Z) d,
  i = Z.of_nat (length (A r)) - Z.of_nat n -> 0 <= i ->
  check_spill cfg n i r h m d = Ok (Some (d || ((0 <? Z.of_nat n) && dbl (A r)))).
Proof.
  intros Hr Hb. assert (numLocs = Reg_number + numVars) by done. induction n as [|n IH]; intros i d Hi Hi0; cbn [check_spill].
  - by rewrite orb_false_r.
  - destruct (lookup_lt_is_Some_2 (A r) (Z.to_nat i) ltac:(lia)) as [v Hv].
    pose proof (list_elem_of_lookup_2 _ _ _ Hv) as Hin.
    pose proof (FindRMap_spec h m A r (Z.to_nat i) v (proj1 Hr) ltac:(unfold Reg_number in *; lia) Hv) as E.
    rewrite Z2Nat.id in E by lia. rewrite E. cbn [mbind res_bind].
    rewrite (Find_spec h m A r v) by done. cbn [mbind res_bind]. rewrite Z.eqb_refl. cbn [negb].
    fold (isd v). rewrite IH by lia. rewrite <- (head_dbl cfg A r v (c_wf _ _ _ _ (proj1 Hr)) Hin).
    destruct d, (dbl (A r)), (0 <? Z.of_nat n); done.
Qed.

Lemma available r : 0 <= r < Reg_number -> exists b, Reg_IsAvailable r = Ok b /\ (b = true -> 0 < r).
Proof.
  intros Hr. assert (Hall : forallb (fun r => match Reg_IsAvailable r with Ok b => implb b (0 <? r) | _ => false end)
    (seqZ 0 Reg_number) = true) by (vm_compute; reflexivity).
  rewrite forallb_forall in Hall. specialize (Hall r). rewrite <- list_elem_of_In, elem_of_seqZ in Hall.
  specialize (Hall ltac:(lia)). destruct (Reg_IsAvailable r) as [b|]; [|done]. exists b. split; [done|].
  intros ->. by apply Z.ltb_lt.
Qed.

(** Doubles are not in integer registers, nor across the end of the hardware's. *)
Definition doubles_placed A : Prop := forall r, dbl (A r) = true -> f0 <= r /\ r + 1 <> Reg_number.

Lemma check_hw_regs_spec h m A : repr cfg h m A -> doubles_placed A -> forall n r var,
  0 <= r -> Reg_number <= r + Z.of_nat n -> 0 <= var < 2 ^ 18 -> check_hw_regs cfg n r h m var = Ok true.
Proof.
  intros Hr Hd. assert (Hnl : numLocs = Reg_number + numVars) by done.
  induction n as [|n IH]; intros r var Hr0 Hn Hvar; cbn [check_hw_regs];
    (destruct (Z.ltb_spec r Reg_number); [|done]); [lia|].
  destruct (available r ltac:(lia)) as (b & -> & Hb). cbn [mbind res_bind]. destruct b; [|apply IH; [lia|lia|done]].
  specialize (Hb eq_refl). rewrite (get_count cfg h m A r (proj1 Hr)) by lia. cbn [mbind res_bind].
  destruct (check_hw_spec h m A r Hr ltac:(lia) (Z.to_nat (count A r)) 0 var) as (var' & -> & Hvar'); [|done|].
  { intros Hlt. split; [|lia]. assert (dbl (A (r - 1)) = false) as Hdb.
    { destruct (dbl (A (r - 1))) eqn:E; [|done]. destruct (Hd _ E). unfold f0 in *. lia. }
    unfold count. rewrite Hdb. lia. }
  cbn [mbind res_bind]. apply IH; [lia|lia|done].
Qed.

Lemma check_spill_slots_spec h m A : repr cfg h m A -> forall n r,
  0 < r -> numLocs <= r + Z.of_nat n -> dbl (A (r - 1)) = false -> check_spill_slots cfg n r h m = Ok true.
Proof.
  intros Hr. assert (Hnl : numLocs = Reg_number + numVars) by done.
  induction n as [|n IH]; intros r Hr0 Hn Hdb; cbn [check_spill_slots];
    (destruct (Z.ltb_spec r numLocs); [|done]); [lia|].
  rewrite (get_count cfg h m A r (proj1 Hr)) by lia. cbn [mbind res_bind].
  assert (count A r = Z.of_nat (length (A r))) as -> by (unfold count; rewrite Hdb; lia).
  rewrite (check_spill_spec h m A r Hr) by lia. cbn [mbind res_bind orb]. rewrite Nat2Z.id.
  destruct (dbl (A r)) eqn:E.
  - destruct (A r) as [|v l] eqn:EA; [done|]. assert (v ∈ A r) as Hv by (rewrite EA; left).
    destruct (a_pair _ _ (c_wf _ _ _ _ (proj1 Hr)) _ _ Hv E) as [_ Hnil].
    destruct (Z.ltb_spec 0 (Z.of_nat (length (v :: l)))); [|simpl in *; lia]. cbn [andb].
    apply IH; [lia|lia|]. replace (r + 2 - 1) with (r + 1) by lia. by rewrite Hnil.
  - rewrite andb_false_r. apply IH; [lia|lia|]. by replace (r + 1 - 1) with r by lia.
Qed.

(** The check passes on every status that represents a map whose doubles are
    in float registers or spill slots, and does not fail an assertion. *)
Theorem CheckValidity_passes h m A (Hr : repr cfg h m A) (Hd : doubles_placed A) :
  AllocStat_CheckValidity cfg h m = Ok true.
Proof.
  unfold AllocStat_CheckValidity. assert (Hnl : numLocs = Reg_number + numVars) by done.
  rewrite (check_hw_regs_spec h m A Hr Hd) by (unfold Reg_number; lia). cbn [mbind res_bind].
  apply (check_spill_slots_spec h m A Hr); [unfold Reg_number; lia|lia|].
  destruct (dbl (A (Reg_number - 1))) eqn:E; [|done]. destruct (Hd _ E). lia.
Qed.

End AllocSearch.
