(* ===== verification/AllocExamples.v ===== *)
(** * Concrete statuses (src/translator/AllocStat.c)

    Inputs on which the theorems about register allocation's state apply, and
    inputs on which the code does not do what it means to. *)

From stdpp Require Import functions.
From S2P Require Import Prelude PseudoReg FastMem BitVector AllocStat RegMap AllocLaws AllocSearch.

#[local] Instance ex_arena : Arena fma := fma_arena 4096 ex_calloc ex_first ex_calloc_fresh.

Definition ex_m : mem fma := mkMem ∅ ex_fma.

Lemma ex_room k : (k < 500)%nat -> room k (arena ex_m).
Proof.
  intros Hk. destruct (start_wf 4096 ex_first no_fma) as (f & E & Hf & Hc). rewrite ex_start in E. injection E as <-.
  apply (room_intro 4096 ex_calloc ex_calloc_fresh ex_fma [] [] k []); [apply ex_calloc_ok|exact Hf|exact Hc|exact (start_zero 4096 _ _ ex_start)|].
  change (Top_Of_Init_Heap_Stack ex_fma) with 0. unfold NUM_OF_TOLERABLE_OVERFLOWS. lia.
Qed.

(** Ten local variables and twenty of the stack. *)
Lemma ex_cfg_ok : 0 <= CFG_GetNumOfVars ex_cfg < 2 ^ 24.
Proof. vm_compute. split; [discriminate|reflexivity]. Qed.

Definition ex_i : Z := pack T_INT ST_LOCAL 0.
Definition ex_j : Z := pack T_REF ST_LOCAL 1.
Definition ex_d : Z := pack T_DOUBLE ST_STACK 3.

Definition nowhere : Z -> list Z := fun _ => [].

Lemma ex_good v : v = ex_i \/ v = ex_j \/ v = ex_d -> good ex_cfg v.
Proof.
  intros Hv. unfold good. assert (E : CFG_get_var_number ex_cfg v = 0 /\ v = ex_i \/ CFG_get_var_number ex_cfg v = 1 /\ v = ex_j \/
    CFG_get_var_number ex_cfg v = 13 /\ v = ex_d) by (destruct Hv as [->|[-> | ->]]; vm_compute; auto).
  destruct E as [[-> ->]|[[-> ->]|[-> ->]]]; (split; [vm_compute; split; [discriminate|reflexivity]|split; vm_compute; discriminate]).
Qed.

(** Two variables in a register, moved together to the first spill slot. *)
Definition ex_ops : list alloc_op := [OInsert ex_i l0; OInsert ex_j l0; OChangeReg l0 72].

Lemma ex_elem v r : v ∈ place ex_i l0 (unplace ex_cfg (CFG_get_var_number ex_cfg ex_i) nowhere) r -> r = l0 /\ v = ex_i.
Proof. intros [Hv|[-> ->]]%(elem_of_place ex_cfg ex_cfg_ok); [|done]. unfold unplace, nowhere in Hv. by apply elem_of_nil in Hv. Qed.

Lemma ex_ops_ok : ops_ok ex_cfg ex_ops nowhere.
Proof.
  cbn [ops_ok ex_ops op_ok op_spec]. split; [|split; [|split; [|done]]].
  - split; [|vm_compute; reflexivity]. constructor.
    + vm_compute. split; reflexivity.
    + apply ex_good. auto.
    + intros r v [Hv _]%(unplace_incl ex_cfg ex_cfg_ok). by apply elem_of_nil in Hv.
    + intros v [Hv _]%(unplace_incl ex_cfg ex_cfg_ok). by apply elem_of_nil in Hv.
    + reflexivity.
    + intros Hd. vm_compute in Hd. discriminate Hd.
  - split; [|vm_compute; reflexivity]. constructor.
    + vm_compute. split; reflexivity.
    + apply ex_good. auto.
    + intros r v [Hv Hn]%(unplace_incl ex_cfg ex_cfg_ok). apply ex_elem in Hv as [-> ->]. vm_compute. discriminate.
    + intros v [Hv Hn]%(unplace_incl ex_cfg ex_cfg_ok). apply ex_elem in Hv as [_ ->]. vm_compute. reflexivity.
    + vm_compute. reflexivity.
    + intros Hd. vm_compute in Hd. discriminate Hd.
  - constructor.
    + vm_compute. discriminate.
    + vm_compute. split_and!; reflexivity.
    + vm_compute. reflexivity.
    + vm_compute. discriminate.
Qed.

Lemma AllocStat_refines_witness : exists h' m', run_ops ex_cfg ex_ops (empty_stat ex_cfg) ex_m = Ok (h', m') /\
  repr ex_cfg h' m' (ops_spec ex_cfg ex_ops nowhere).
Proof.
  destruct (AllocStat_refines ex_cfg ex_cfg_ok ex_ops (empty_stat ex_cfg) ex_m nowhere (empty_stat ex_cfg) nowhere)
    as (h' & m' & E & Hr & _).
  - apply empty_repr. exact ex_cfg_ok.
  - exact ex_ops_ok.
  - apply ex_room. simpl. lia.
  - apply empty_repr. exact ex_cfg_ok.
  - intros p (r & Hl & _). simpl in Hl. lia.
  - exists h', m'. split; [exact E|exact Hr].
Defined.

Lemma AllocStat_Clone_independent_witness : exists g m', AllocStat_Clone ex_cfg (empty_stat ex_cfg) ex_m = Ok (g, m') /\
  exists g' m1, run_ops ex_cfg ex_ops g m' = Ok (g', m1) /\ repr ex_cfg (empty_stat ex_cfg) m1 nowhere.
Proof.
  destruct (AllocStat_Clone_independent ex_cfg ex_cfg_ok (empty_stat ex_cfg) ex_m nowhere ex_ops)
    as (g & m' & E & _ & _ & (g' & m1 & E1 & _ & Hh) & _).
  - apply empty_repr. exact ex_cfg_ok.
  - vm_compute. reflexivity.
  - exact ex_ops_ok.
  - apply ex_room. vm_compute. lia.
  - exists g, m'. split; [exact E|]. exists g', m1. split; [exact E1|exact Hh].
Defined.

Lemma AllocStat_IsEqual_decides_witness : exists b, AllocStat_IsEqual ex_cfg (empty_stat ex_cfg) (empty_stat ex_cfg) ex_m = Ok b.
Proof.
  destruct (AllocStat_IsEqual_decides ex_cfg ex_cfg_ok (empty_stat ex_cfg) (empty_stat ex_cfg) ex_m nowhere nowhere) as (b & E & _).
  - apply empty_repr. exact ex_cfg_ok.
  - apply empty_repr. exact ex_cfg_ok.
  - exists b. exact E.
Defined.

Lemma FindFreeStorage_fits_witness : AllocStat_FindFreeStorage ex_cfg (empty_stat ex_cfg) T_DOUBLE = Ok f0 /\ fits ex_cfg nowhere ex_d f0.
Proof.
  pose proof (FindFreeStorage_fits ex_cfg ex_cfg_ok (empty_stat ex_cfg) ex_m nowhere ex_d) as W.
  change (Var_GetType ex_d) with T_DOUBLE in W.
  assert (E : AllocStat_FindFreeStorage ex_cfg (empty_stat ex_cfg) T_DOUBLE = Ok f0) by (vm_compute; reflexivity).
  rewrite E in W. split; [exact E|]. apply W.
  - apply empty_repr. exact ex_cfg_ok.
  - apply ex_good. auto.
  - intros r v Hv. by apply elem_of_nil in Hv.
  - reflexivity.
  - vm_compute. reflexivity.
  - apply ex_room. lia.
Defined.

Lemma FindFreeSpill_total_witness : exists r, AllocStat_FindFreeSpill ex_cfg (empty_stat ex_cfg) T_INT = Ok r.
Proof.
  destruct (FindFreeSpill_total ex_cfg ex_cfg_ok (empty_stat ex_cfg) ex_m nowhere 5 T_INT) as (r & E & _).
  - apply empty_repr. exact ex_cfg_ok.
  - reflexivity.
  - vm_compute. reflexivity.
  - intros r v Hv. by apply elem_of_nil in Hv.
  - vm_compute. split; [discriminate|reflexivity].
  - intros r v Hv. by apply elem_of_nil in Hv.
  - exists r. exact E.
Defined.

Lemma RemoveDeadVars_keeps_live_witness : exists h' m',
  AllocStat_RemoveDeadVars ex_cfg (empty_stat ex_cfg) (Some [5; 0; 0; 1]) ex_m = Ok (h', m').
Proof.
  destruct (RemoveDeadVars_keeps_live ex_cfg ex_cfg_ok (empty_stat ex_cfg) ex_m nowhere [5; 0; 0; 1]) as (h' & m' & E & _).
  - apply empty_repr. exact ex_cfg_ok.
  - intros j Hj. unfold bv_dom. change (CFG_GetNumOfVars ex_cfg) with 105 in Hj. simpl. lia.
  - apply ex_room. lia.
  - exists h', m'. exact E.
Defined.

Lemma CheckValidity_passes_witness : AllocStat_CheckValidity ex_cfg (empty_stat ex_cfg) ex_m = Ok true.
Proof.
  apply (CheckValidity_passes ex_cfg ex_cfg_ok (empty_stat ex_cfg) ex_m nowhere).
  - apply empty_repr. exact ex_cfg_ok.
  - intros r Hr. discriminate Hr.
Defined.

(** ** Where the code does not do what it means to *)

(** Four variable numbers, hence four spill slots. *)
Definition tiny : CFG := mkCFG 4 0 0.
Definition tiny_ops : list alloc_op :=
  [OInsert (pack T_INT ST_LOCAL 0) 72; OInsert (pack T_INT ST_LOCAL 1) 73; OChangeMappedReg (pack T_INT ST_LOCAL 0) 74].

(** With two integers in two of the four slots, there is no slot for a double,
    the only other variable. *)
Lemma spill_pairs_fragment : exists h m, run_ops tiny tiny_ops (empty_stat tiny) ex_m = Ok (h, m) /\
  AllocStat_FindFreeSpill tiny h T_DOUBLE = Err AssertionFailed /\
  get (refcount h) 72 = Ok 0 /\ get (refcount h) 75 = Ok 0.
Proof. eexists _, _. split; [vm_compute; reflexivity|]. vm_compute. split_and!; reflexivity. Qed.

(** A variable listed in [f0] and mapped to [f2]. *)
Definition misplaced : AllocStat :=
  let e := empty_stat tiny in
  let v := pack T_FLOAT ST_LOCAL 0 in
  mkStat (<[0%nat := 34]> (map e)) (<[32%nat := v]> (rmap e)) (<[32%nat := 1]> (refcount e)).

(** The check does not look at float registers. *)
Lemma CheckValidity_skips_floats : AllocStat_CheckValidity tiny misplaced ex_m = Ok true /\
  AllocStat_FindRMap tiny misplaced ex_m f0 0 = Ok (pack T_FLOAT ST_LOCAL 0) /\
  AllocStat_Find tiny misplaced (pack T_FLOAT ST_LOCAL 0) = Ok 34.
Proof. vm_compute. split_and!; reflexivity. Qed.

(** A method with two thousand variables has spill slots beyond [dirty]. *)
Lemma Insert_overruns_dirty : let cfg := mkCFG 2000 0 0 in
  AllocStat_Insert cfg (empty_stat cfg) (pack T_INT ST_LOCAL 0) 2048 ex_m = Err BadAccess.
Proof. vm_compute. reflexivity. Qed.
